(* ===== verification/_CoqProject ===== *)
-Q . S2P
Prelude.v
Memory.v
FreeBsd.v
Vfs.v
AddressSpace.v
Handles.v
Threads.v
Host.v
Isolation.v
Process.v
Handlers.v
KernelSync.v
SceKernel.v
Ult.v
Fibers.v
TrapRing.v
Trap.v
Elf.v
Loader.v
SaveContainer.v
Nid.v
HostFile.v
Psn.v
NpLibs.v
SaveData.v
Imports.v
Image.v
LibcHeap.v
Exports.v
Random.v
Rtc.v
Network.v
Bgft.v
Gal.v
Vulkan.v
VulkanRules.v
VulkanSession.v
OpenGl.v
VulkanContract.v
Gnm.v
Dialogs.v
Input.v
Floats.v
Audio.v
Services.v
Ajm.v
Overlay.v
Diagnostics.v
App.v
Images.v
LogOutput.v
CrashReport.v
Answers.v
Inspect.v
LibcString.v
