(* ===== verification/Prelude.v ===== *)
(** * FusionPS4: a verification development

    FusionPS4 runs PlayStation 4 programs on a Linux host.  A guest image is
    read by the ELF loader, relocated into a guest address space inside one
    process, and runs in a child confined by namespaces, dropped capabilities
    and a seccomp filter.  Its system calls, and its calls into the emulated
    Sony libraries through generated trampolines, raise SIGSYS; the handler
    puts them on a ring of slots; the runtime's trap server takes them off and
    dispatches them to handlers, which act on the process's handle table,
    address space, threads and virtual filesystem.  This library models that
    path in Rocq and proves it, together with the emulated libraries that keep
    state of their own: the C heap, kernel objects, user-level threads, saved
    games, trophies and leaderboards, random numbers, clocks, sockets and HTTP,
    background transfers, graphics, dialogs, pads, audio, decoders and fonts; and
    the host application around them.

    ** Conventions

    Definitions are translations of the C++ under [src/], under the names the
    source gives them; a comment at each one says what is dropped (logging and
    the lock guards of operations that run as one step).  An unsigned integer
    of width [w] is a [Z] in [0, 2^w) and every sum the source takes at that
    width is written with [wrap w]; signed views use [swrap w].  Byte strings,
    [std::string]s and files are lists of [Z] in [0, 256).  Records stand for
    classes, functions from state to state for their methods, [option] and sum
    types for failure.  A fault of the C++ (a dereference of unmapped memory, a
    read outside a buffer) is always an outcome of its own: [None],
    [OutOfBounds], [Faulted], or the exit code [fault_code].

    ** Files

    - [Prelude]: machine integers, alignment, little-endian fields, byte
      strings, the hint databases [fp4] and the tactics shared by all files.
    - [Memory]: byte memory as a finite map, with faulting loads and stores.
    - [FreeBsd]: the ABI constants ([syscall/freebsd/]).
    - [Vfs]: [filesystem/]: path normalisation, mount policy, resolution of a
      guest path to a host path.
    - [AddressSpace]: [isolation/SharedArena] and [runtime/memory/AddressSpace]:
      the reservation, the region list, map, unmap and protect.
    - [Handles]: [runtime/handles/]: file, directory, socket and event objects
      and the handle table.
    - [Threads]: [runtime/thread/]: thread objects and the thread manager; the
      race between [start] and the new pthread as a step relation
      ([ThreadRace.step]).
    - [Host]: the host kernel as an arbitrary oracle over the trace of calls,
      the monad [IO] of code that issues calls, and its weakest preconditions.
    - [Isolation]: [isolation/] and the child side of [runtime/GuestProcess]:
      configuration, namespace and jail set-up, capabilities, the seccomp
      program with a BPF interpreter, the child's start-up, spawn and wait.
    - [Process]: [runtime/process/PS4Process], [syscall/SyscallContext] and
      [syscall/SyscallDispatcher].
    - [Handlers]: [syscall/handlers/Handlers.cpp]: the 25 system-call handlers
      and their registration.
    - [TrapRing]: [syscall/trap/TrapRing]: the slot ring, alone and (in
      [RingRun]) with any number of clients and the server interleaved.
    - [Trap]: trampolines, call numbering, the SIGSYS handler's register
      protocol, the server's treatment of a request and the stub table.
    - [Elf]: [loader/elf/]: packed structures, header validation, program
      headers, image accessors.
    - [Loader]: modules, symbol lookup, relocation and TLS ([loader/modules],
      [loader/symbols], [loader/elf/TlsBlock]).
    - [Imports]: [loader/sce/SceImportTable]: the import libraries of a module
      and their tables, with the faults of the pointers they follow; [Nid]: the
      NID database, SHA-256, and the text format of NID lists.
    - [Image]: [loader/ElfLoader.cpp]: reading a whole image, copying its
      segments into guest memory, relocating and protecting them.
    - [LibcHeap]: the C library's bump allocator, proved against the class
      [RegionProvider] that [AddressSpace] implements.
    - [KernelSync]: [KernelSema] of [sce/kernel/]: the class as operations and,
      in [SemaRun], any number of waiting and signalling threads with the
      mutex and the condition variable as steps.
    - [SceKernel]: the kernel library's exports over the handle table.
    - [Ult]: [sce/ult/]: the object pool as a store of blocks threaded by a free
      list, alone and with threads that interleave; [Fibers]: [runtime/fiber/]
      and [sce/fiber/].
    - [SaveContainer]: the save-file format; [HostFile]: whole-file reads and
      writes on a host that splits and cuts transfers; [SaveData]: the exports
      of [sce/savedata/], over [Vfs], [SaveContainer] and [HostFile].
    - [Psn]: [psn/PsnBackend.cpp]: account, trophies and leaderboards with their
      files; [NpLibs]: the trophy and score exports over it.
    - [Exports]: every library's [registerExports] and the table they make.
    - [Random], [Rtc]: [sce/random/], [sce/rtc/]: the generator of each thread
      and the calendar.
    - [Network]: [network/], [sce/net/], [sce/http/]: the policy, the addresses
      it lets through, sockets and the HTTP client.
    - [Bgft]: [sce/bgft/], [sce/download/]: the transfers and their threads as steps.
    - [Gal]: [graphics/abstraction/]: the shared types and the class
      [GraphicsDevice] with its laws.  [Vulkan], [VulkanRules], [VulkanSession] and
      [VulkanContract]: the Vulkan device over the calls it makes, the rules that
      the driver asks for, what a session owns, and the laws; [OpenGl]: the OpenGL
      device over a specification of GL, and the laws.
    - [Gnm]: [sce/gnm/]: the resource registry, proved against [GraphicsDevice],
      the command recorder and the exports.
    - [Dialogs]: [dialogs/], [sce/dialog/]: the queue of dialogs, the four
      libraries over it, and its lock and waits as steps.
    - [Input]: [input/], [sce/pad/], [sce/input/]: controllers, pads, keyboard, mouse.
    - [Floats]: binary32; [Audio]: [audio/], [sce/audio/], [sce/ngs2/]: ports and
      the mixer; [Ajm]: [sce/ajm/], [sce/audiodec/]: decoding jobs and their worker.
    - [Services]: [sce/videoout/], [sce/sysmodule/], [sce/appcontent/],
      [sce/screenshot/] and the NP manager; [Images]: [sce/png/], [sce/jpeg/],
      [sce/font/].
    - [Overlay]: [graphics/overlay/]: font atlas, texts, vertex buffer.
    - [Diagnostics]: [debug/]: log filter, trace specification, counters, profiler.
    - [App]: [host/], [runtime/Runtime]: window, runtime and main loop.
    - [LogOutput]: [debug/Log.cpp] and the tool [fs4-unimpl-report] that reads its
      files; [CrashReport]: [debug/CrashHandler.cpp], [debug/Symbolizer.cpp]: what a
      report is, and the handlers of several threads as steps; [Inspect]: the tool
      [fs4-inspect-elf].
    - [Answers]: the small libraries that answer from constants, the network policy or
      a counter; [LibcString]: memory, strings and streams of the C library.

    ** What is shown

    Safety.  Every call of a host file function that a system call makes, on any
    guest registers and memory and whatever the host answers, is one that the mount
    policy permits for the path and the purpose its flags declare
    ([Handlers.syscall_confined], which names the flags that declare too little), and
    every call preserves the invariants of the process it acts on while its handle
    counter is below its last value ([Handlers.syscall_preserves]).  Path
    resolution implements the specification of a jailed lookup
    ([Vfs.resolve_refines]).  A strict child enters guest code only after every
    configured isolation step succeeded ([Isolation.child_confined]) and its
    filter decides exactly membership in the allowlist
    ([Isolation.seccomp_exact]).  Relocation writes only to writable segments
    of the module, up to the seven bytes by which a word can pass the end of
    one ([Loader.applyAll_sound]).  Reachable address spaces keep their regions
    disjoint, aligned and inside the arena ([AddressSpace.reachable_wf]).

    Functional behaviour.  Exact outcomes of the ELF parser, the values each
    relocation type stores, the lookups and the bookkeeping of handles, maps
    and threads, the state the process lifecycle reaches, the layout of the
    structures handed to the guest, and the round trips (ELF headers, save
    files, trampolines and stub ids).  A save file altered in one payload byte
    is always rejected, because each step of the CRC is injective.

    Persistence.  What a title commits is what it loads in a later process
    ([SaveData.commit_then_load]); an unlocked trophy stays unlocked after a
    restart ([Psn.trophies_survive_restart]), however the host splits the
    transfers, as long as it takes the whole file.

    Liveness.  A semaphore whose producers signal as often as its consumers wait
    lets every thread finish, under every schedule that keeps running
    ([KernelSync.producers_consumers_finish]), and every schedule ends
    ([KernelSync.sema_terminates]).

    The host's devices.  Every address that the socket library connects to, and every
    plain URL that the HTTP library is given, is one the policy permits
    ([Network.network_confined]; a URL with a user part gets around it,
    [Network.http_userinfo_bypass], and a redirect is followed unchecked).  The Vulkan
    device, once it has its frame fences, owns exactly the objects of its handles
    ([VulkanSession.vulkan_owns_exactly]; without a fence,
    [VulkanSession.missing_fence_faults]) and a frame that the driver takes is submitted
    and presented ([VulkanSession.frame_submits]); buffers of the OpenGL device refine a
    map from handles to sizes and contents ([OpenGl.gl_buffers_refine]);
    the GNM registry, against any lawful device, owns what its entries name
    ([Gnm.registry_owns_exactly]).  The mixer adds what a voice is given to what the
    others play, sample for sample ([Audio.plays_exactly]), and reads only inside its
    buffers ([Audio.mixer_in_bounds]).  The
    generators of the threads are disjoint key streams
    ([Random.threads_read_keystreams]); loading modules refines a set of ids
    ([Services.sysmodule_refines]); a finished transfer has copied its file
    ([Bgft.done_means_copied]).

    Diagnosis.  The log file holds what the filter let through, and the report on it
    collapses all unimplemented calls into one entry ([LogOutput.report_collapses]).
    Between the lines of the log, standard error shows one crash report, cut at most by a
    second crash, an unreadable frame or a failing [write] ([CrashReport.one_report],
    [CrashReport.report_cut_iff]); a single crash can always end the process unless its
    thread holds a lock that the report takes ([CrashReport.crash_ends_iff]).

    Ending.  Decoding jobs, transfers and dialogs end under their workers
    ([Ajm.jobs_finish], [Bgft.transfers_settle]); the application's main loop ends exactly
    with the first closing event, and releases what was made in order
    ([App.application_ends]).  Where the code can wait for
    ever the run that does is a theorem ([Dialogs.Locks.dialog_deadlock],
    [VulkanSession.open_frame_hangs], [VulkanSession.resize_deadlocks],
    [Ajm.finalize_abandons]).

    Concurrency.  [TrapRing.ring_exclusive] and [Threads.exited_means_finished]
    are invariants of the interleaved step relations, by rule induction.
    [TrapRing.disciplined_submit] is a refinement: with a server that only
    takes published slots, every finished call returns the answer to its own
    request.  The ring as written also serves claimed but unpublished slots;
    [TrapRing.submit_can_lose_request] is the run that loses a call.

    Some theorems state behaviour that the code has and does not intend: 64-bit
    sums in bounds checks that wrap, the dynamic tag 11 read as a table size, SCE
    calls whose id is not unmasked before the lookup, opens that truncate
    through a read-only mount, the lost request of the ring, trophies that are
    never registered, fibers that never run, the ABA window of the object pool,
    save directories that climb out of their title, the synthesizer that takes the
    only audio port, content that is never unmounted, an overlay that stays dark
    after a restart.

    ** Bounds and fuel

    Guest strings are read up to the source's own limit of 4096 bytes.  [strz]
    takes one step more than memory has mapped addresses, so it never runs out
    before it faults.  The fallback symbol count stops at the source's own
    sanity limit, 2^20.  The BPF interpreter's fuel is the length of the program,
    whose jumps only go forward; the retry of an interrupted [waitpid] takes its
    fuel as an argument and says when it ran out.  Theorems about sums that the source takes
    without a wrap check assume operands below 2^62 where they say so, and the
    wrapped case is a theorem of its own.

    ** What is not modelled

    SDL, Vulkan, OpenGL, libmpg123, libpng, libjpeg, FreeType and libcurl, which the
    code calls and which are parameters here; the guest's own instructions.  The
    formatted output of the C library and [atof] are the host's; [fread] and [fwrite]
    call functions that have no definition of the type they are declared with.  The
    build-feature flags of [assets/CodecRegistry.cpp], declarations and type aliases, and
    the test programs have no behaviour of their own to state.  [GraphicsManager.cpp]
    repeats its header; functions that the code calls and the repository does not
    declare, and [PsnBackend::scoreboard], whose definition is cut off, are arguments or
    left out.  Components marked partly modelled say in the manifest what is missing:
    calls into the host that keep no state, and members that nothing reads.
*)
From stdpp Require Export base list numbers option gmap strings.
From Stdlib Require Export ZArith Lia ZifyBool.
From Stdlib Require Ascii String.

Declare Scope fp4_scope.
Delimit Scope fp4_scope with fp4.
#[global] Open Scope Z_scope.

(** ** Machine integers

    A C++ unsigned integer of width [w] is a [Z] in [0, 2^w); arithmetic that
    the source performs at that width is followed by [wrap w]. *)

Definition wrap (w x : Z) : Z := x mod 2 ^ w.
Definition swrap (w x : Z) : Z := (x + 2 ^ (w - 1)) mod 2 ^ w - 2 ^ (w - 1).

Abbreviation u8 := (wrap 8).
Abbreviation u16 := (wrap 16).
Abbreviation u32 := (wrap 32).
Abbreviation u64 := (wrap 64).
Abbreviation i32 := (swrap 32).
Abbreviation i64 := (swrap 64).

Definition in_width (w x : Z) : Prop := 0 <= x < 2 ^ w.

#[export] Instance in_width_dec w x : Decision (in_width w x).
Proof. unfold in_width. apply _. Defined.

(** The size of [std::size_t] and of a guest pointer. *)
Definition two64 : Z := 2 ^ 64.

(** [alignUp] as every component writes it: [(v + (a - 1)) & ~(a - 1)] in
    64-bit arithmetic. *)
Definition align_up (v a : Z) : Z :=
  Z.land (u64 (v + (a - 1))) (u64 (Z.lnot (a - 1))).

(** ** Bytes and C strings

    A byte is a [Z] in [0, 256).  A [std::string], a [std::vector<uint8_t>]
    and a block of memory are lists of bytes. *)

Abbreviation byte := Z (only parsing).
Abbreviation bytes := (list Z).

Definition is_byte (b : Z) : Prop := 0 <= b < 256.

Fixpoint cstr (s : string) : bytes :=
  match s with
  | EmptyString => []
  | String c s' => Z.of_N (Ascii.N_of_ascii c) :: cstr s'
  end.

(** Little-endian layout of an [n]-byte unsigned integer, and its inverse. *)
Fixpoint le_encode (n : nat) (v : Z) : bytes :=
  match n with
  | O => []
  | S n' => v mod 256 :: le_encode n' (v / 256)
  end.

Fixpoint le_decode (bs : bytes) : Z :=
  match bs with
  | [] => 0
  | b :: bs' => b + 256 * le_decode bs'
  end.

(** The unsigned [n]-byte field at offset [off]. *)
Definition field (bs : bytes) (off n : nat) : Z := le_decode (take n (drop off bs)).

(** [memcpy(dst, buf + off, n)]: the [n] bytes of [buf] at [off], when they
    are all inside [buf]. *)
Definition slice (bs : bytes) (off n : nat) : option bytes :=
  if decide (off + n <= length bs)%nat then Some (take n (drop off bs)) else None.

(** [std::to_string] of a 64-bit number: twenty digits are enough. *)
Fixpoint dec_digits (fuel : nat) (n : Z) : bytes :=
  match fuel with
  | O => []
  | S fuel' => (if n <? 10 then [] else dec_digits fuel' (n / 10)) ++ [48 + n mod 10]
  end.
Definition to_string (n : Z) : bytes := dec_digits 20 n.

(** [find] and [rfind] of a character, [find] of a string. *)
Fixpoint find_char (c : Z) (s : bytes) : option nat :=
  match s with
  | [] => None
  | x :: s' => if x =? c then Some 0%nat else S <$> find_char c s'
  end.
Fixpoint rfind_char (c : Z) (s : bytes) : option nat :=
  match s with
  | [] => None
  | x :: s' =>
      match rfind_char c s' with
      | Some i => Some (S i)
      | None => if x =? c then Some 0%nat else None
      end
  end.
Fixpoint find_str (pat s : bytes) : option nat :=
  if bool_decide (pat = take (length pat) s) then Some 0%nat
  else match s with [] => None | _ :: s' => S <$> find_str pat s' end.

(** ** Tactics *)

(** Case analysis on the scrutinee of the first [match]/[if] of a hypothesis
    or of the goal, keeping the equation. *)
Ltac destr_in H :=
  match type of H with
  | context [match ?x with _ => _ end] => let E := fresh "E" in destruct x eqn:E
  end.
Ltac destr :=
  match goal with
  | |- context [match ?x with _ => _ end] => let E := fresh "E" in destruct x eqn:E
  end.

(** Linear arithmetic with division and modulo by constants. *)
Ltac dm_lia := Z.div_mod_to_equations; lia.
(** A closed decidable fact, by evaluation. *)
Ltac decided := apply (bool_decide_unpack _); vm_compute; exact I.

(** ** Integer lemmas *)

Lemma wrap_range w x : 0 <= w -> in_width w (wrap w x).
Proof. intros Hw. apply Z.mod_pos_bound. lia. Qed.

Lemma wrap_id w x : in_width w x -> wrap w x = x.
Proof. apply Z.mod_small. Qed.

Lemma wrap_wrap w x : wrap w (wrap w x) = wrap w x.
Proof. apply Zmod_mod. Qed.

Lemma wrap_eq_id w x : 0 <= w -> wrap w x = x <-> in_width w x.
Proof.
  intros Hw. split; [|apply wrap_id].
  intros <-. by apply wrap_range.
Qed.

Lemma swrap_id w x : 0 < w -> - 2 ^ (w - 1) <= x < 2 ^ (w - 1) -> swrap w x = x.
Proof.
  intros Hw Hx. unfold swrap.
  assert (2 ^ w = 2 * 2 ^ (w - 1)) by (rewrite <- Z.pow_succ_r by lia; f_equal; lia).
  rewrite Z.mod_small; lia.
Qed.

Lemma swrap_range w x : 0 < w -> - 2 ^ (w - 1) <= swrap w x < 2 ^ (w - 1).
Proof.
  intros Hw. unfold swrap.
  assert (2 ^ w = 2 * 2 ^ (w - 1)) by (rewrite <- Z.pow_succ_r by lia; f_equal; lia).
  pose proof (Z.mod_pos_bound (x + 2 ^ (w - 1)) (2 ^ w)). lia.
Qed.

Lemma land_in_width w a b : 0 <= w -> in_width w b -> in_width w (Z.land a b).
Proof.
  intros Hw Hb. rewrite <- (wrap_id w b Hb). unfold wrap.
  rewrite <- Z.land_ones, Z.land_assoc, Z.land_ones by lia. by apply wrap_range.
Qed.

Lemma land_wrap_r w x m : 0 <= w -> in_width w x -> Z.land x (wrap w m) = Z.land x m.
Proof.
  intros Hw Hx. unfold wrap. rewrite <- Z.land_ones by lia.
  rewrite (Z.land_comm m), Z.land_assoc, Z.land_ones by lia.
  f_equal. by apply Z.mod_small.
Qed.

Lemma align_up_pow2 v k :
  0 <= k < 64 -> 0 <= v -> v + (2 ^ k - 1) < two64 ->
  align_up v (2 ^ k) = (v + (2 ^ k - 1)) / 2 ^ k * 2 ^ k.
Proof.
  intros Hk Hv Ho. unfold align_up.
  assert (0 < 2 ^ k) by lia.
  rewrite (wrap_id 64 (v + _)) by (unfold in_width, two64 in *; lia).
  rewrite land_wrap_r by (unfold in_width, two64 in *; lia).
  replace (2 ^ k - 1) with (Z.ones k) by (rewrite Z.ones_equiv; lia).
  rewrite <- Z.ldiff_land, Z.ldiff_ones_r by lia.
  by rewrite Z.shiftl_mul_pow2, Z.shiftr_div_pow2 by lia.
Qed.

(** Rounding up keeps a value that is already aligned, never loses a byte and
    adds less than one unit. *)
Lemma align_up_spec v k :
  0 <= k < 64 -> 0 <= v -> v + (2 ^ k - 1) < two64 ->
  v <= align_up v (2 ^ k) < v + 2 ^ k /\ align_up v (2 ^ k) mod 2 ^ k = 0.
Proof.
  intros Hk Hv Ho. rewrite align_up_pow2 by done.
  assert (0 < 2 ^ k) by lia. split; [|by apply Z_mod_mult].
  pose proof (Z.div_mod (v + (2 ^ k - 1)) (2 ^ k)).
  pose proof (Z.mod_pos_bound (v + (2 ^ k - 1)) (2 ^ k)). nia.
Qed.

Lemma align_up_range v a : in_width 64 (align_up v a).
Proof.
  apply land_in_width; [lia|]. apply wrap_range. lia.
Qed.

(** ** Searching strings *)

Lemma find_char_first c pre s : c ∉ pre -> find_char c (pre ++ c :: s) = Some (length pre).
Proof.
  induction pre as [|x pre IH]; simpl; intros H; [by rewrite Z.eqb_refl|].
  apply not_elem_of_cons in H as [Hx H]. rewrite (proj2 (Z.eqb_neq _ _)) by congruence. by rewrite IH.
Qed.

Lemma find_char_none c s : c ∉ s -> find_char c s = None.
Proof.
  induction s as [|x s IH]; simpl; intros H; [done|].
  apply not_elem_of_cons in H as [Hx H]. rewrite (proj2 (Z.eqb_neq _ _)) by congruence. by rewrite IH.
Qed.

Lemma rfind_char_none c s : c ∉ s -> rfind_char c s = None.
Proof.
  induction s as [|x s IH]; simpl; intros H; [done|].
  apply not_elem_of_cons in H as [Hx H]. rewrite (proj2 (Z.eqb_neq _ _)) by congruence. by rewrite IH.
Qed.

Lemma rfind_char_last c pre s : c ∉ s -> rfind_char c (pre ++ c :: s) = Some (length pre).
Proof.
  induction pre as [|x pre IH]; simpl; intros H; [by rewrite rfind_char_none, Z.eqb_refl|]. by rewrite IH.
Qed.

(** ** Decimal text *)

Lemma dec_digits_range fuel n c : c ∈ dec_digits fuel n -> 48 <= c <= 57.
Proof.
  revert n. induction fuel as [|fuel IH]; intros n; cbn [dec_digits]; [by intros ?%elem_of_nil|].
  intros [Hc| ->%list_elem_of_singleton]%elem_of_app; [|pose proof (Z.mod_pos_bound n 10); lia].
  destruct (n <? 10); [by apply elem_of_nil in Hc|by eapply IH].
Qed.

Lemma dec_digits_value fuel n :
  0 <= n < 10 ^ Z.of_nat fuel -> foldl (fun v c => v * 10 + (c - 48)) 0 (dec_digits fuel n) = n.
Proof.
  revert n. induction fuel as [|fuel IH]; intros n Hn.
  { change (10 ^ Z.of_nat 0) with 1 in Hn. simpl. lia. }
  rewrite Nat2Z.inj_succ, Z.pow_succ_r in Hn by lia. cbn [dec_digits]. rewrite foldl_app. cbn [foldl].
  destruct (Z.ltb_spec n 10) as [|H]; [cbn [foldl]; rewrite Z.mod_small; lia|].
  rewrite IH by dm_lia. dm_lia.
Qed.

(** A string is cut at the first occurrence of a separator in one way. *)
Lemma cut_unique (c : Z) (x y r r' : bytes) : c ∉ x -> c ∉ y -> x ++ c :: r = y ++ c :: r' -> x = y /\ r = r'.
Proof.
  revert y. induction x as [|a x IH]; intros [|b y] Hx Hy; simpl.
  - by intros [= ->].
  - intros [= <- _]. exfalso. apply Hy. left.
  - intros [= -> _]. exfalso. apply Hx. left.
  - intros [= <- E]. apply not_elem_of_cons in Hx as [_ Hx], Hy as [_ Hy]. by destruct (IH y Hx Hy E) as [-> ->].
Qed.

(** ** Byte lemmas *)

Lemma length_le_encode n v : length (le_encode n v) = n.
Proof. revert v. induction n; intros; simpl; [done|]. by rewrite IHn. Qed.

Lemma le_encode_bytes n v : Forall is_byte (le_encode n v).
Proof.
  revert v. induction n; intros; simpl; constructor; [|done].
  apply Z.mod_pos_bound. lia.
Qed.

Lemma le_decode_encode n v : 0 <= v < 2 ^ (8 * Z.of_nat n) -> le_decode (le_encode n v) = v.
Proof.
  revert v. induction n as [|n IH]; intros v Hv; simpl.
  - simpl in Hv. lia.
  - rewrite IH; [dm_lia|].
    replace (8 * Z.of_nat (S n)) with (8 + 8 * Z.of_nat n) in Hv by lia.
    rewrite Z.pow_add_r in Hv by lia. change (2 ^ 8) with 256 in Hv.
    split; [apply Z.div_pos; lia|]. apply Z.div_lt_upper_bound; lia.
Qed.

Lemma le_decode_range bs :
  Forall is_byte bs -> 0 <= le_decode bs < 2 ^ (8 * Z.of_nat (length bs)).
Proof.
  induction 1 as [|b bs Hb _ IH]; simpl; [lia|].
  replace (8 * Z.of_nat (S (length bs))) with (8 + 8 * Z.of_nat (length bs)) by lia.
  rewrite Z.pow_add_r by lia. change (2 ^ 8) with 256. unfold is_byte in Hb. lia.
Qed.

Lemma le_encode_decode bs :
  Forall is_byte bs -> le_encode (length bs) (le_decode bs) = bs.
Proof.
  induction 1 as [|b bs Hb _ IH]; simpl; [done|].
  unfold is_byte in Hb. f_equal; [dm_lia|].
  replace ((b + 256 * le_decode bs) / 256) with (le_decode bs) by dm_lia. done.
Qed.

Lemma field_in_width bs off n : Forall is_byte bs -> in_width (8 * Z.of_nat n) (field bs off n).
Proof.
  intros H. unfold field, in_width.
  pose proof (le_decode_range (take n (drop off bs)) (Forall_take _ _ _ (Forall_drop _ _ _ H))) as Hr.
  split; [lia|]. eapply Z.lt_le_trans; [apply Hr|]. apply Z.pow_le_mono_r; [lia|].
  rewrite length_take. lia.
Qed.

(** A field inside a prefix, and the field an encoding wrote. *)
Lemma field_app_l a b off n : (off + n <= length a)%nat -> field (a ++ b) off n = field a off n.
Proof.
  intros H. unfold field. rewrite drop_app_le, take_app_le by (rewrite ?length_drop; lia). done.
Qed.

Lemma field_app_r a b off n : (length a <= off)%nat -> field (a ++ b) off n = field b (off - length a) n.
Proof. intros H. unfold field. by rewrite drop_app_ge by lia. Qed.

Lemma field_le_encode a b n v :
  0 <= v < 2 ^ (8 * Z.of_nat n) -> field (a ++ le_encode n v ++ b) (length a) n = v.
Proof.
  intros H. unfold field. rewrite drop_app_length.
  rewrite take_app_le by (by rewrite length_le_encode).
  rewrite firstn_all2 by (by rewrite length_le_encode). by apply le_decode_encode.
Qed.

Lemma slice_Some bs off n r :
  slice bs off n = Some r -> (off + n <= length bs)%nat /\ r = take n (drop off bs) /\ length r = n.
Proof.
  unfold slice. case_decide; intros; simplify_eq. split_and!; [done..|].
  rewrite length_take, length_drop. lia.
Qed.

Lemma slice_app_l a b n : length a = n -> slice (a ++ b) 0 n = Some a.
Proof.
  intros <-. unfold slice. rewrite length_app, decide_True by lia.
  by rewrite drop_0, take_app_length.
Qed.

Lemma slice_app_r a b off n :
  length a = off -> slice (a ++ b) off n = slice b 0 n.
Proof.
  intros <-. unfold slice. rewrite length_app, drop_app_length, drop_0.
  destruct (decide (length a + n <= _)%nat), (decide (0 + n <= _)%nat); auto; lia.
Qed.

Lemma cstr_bytes s : Forall is_byte (cstr s).
Proof.
  induction s as [|c s IH]; simpl; constructor; [|done].
  unfold is_byte. pose proof (Ascii.N_ascii_bounded c). lia.
Qed.

(** ** List lemmas *)

Lemma forallb_Forall {A} (f : A -> bool) l :
  forallb f l = true <-> Forall (fun x => f x = true) l.
Proof.
  induction l as [|x l IH]; simpl; [by split|].
  by rewrite Forall_cons, andb_true_iff, IH.
Qed.

Lemma forallb_is_byte bs : forallb (fun b => (0 <=? b) && (b <? 256)) bs = true -> Forall is_byte bs.
Proof.
  rewrite forallb_Forall. intros H. eapply Forall_impl; [exact H|]. unfold is_byte. simpl. lia.
Qed.

(** Sums of integers over a list. *)
Fixpoint zsum {A} (f : A -> Z) (l : list A) : Z :=
  match l with [] => 0 | x :: l' => f x + zsum f l' end.

Section Zsum.
Context {A : Type} (f : A -> Z).
Implicit Types (l : list A) (x y : A).

Lemma zsum_app l1 l2 : zsum f (l1 ++ l2) = zsum f l1 + zsum f l2.
Proof. induction l1 as [|x l1 IH]; simpl; [done|]. rewrite IH. lia. Qed.

Lemma zsum_insert l i x y : l !! i = Some x -> zsum f (<[i := y]> l) = zsum f l - f x + f y.
Proof.
  revert i. induction l as [|z l IH]; intros [|i] H; simplify_eq/=; [lia|]. rewrite (IH i H). lia.
Qed.

Lemma zsum_nonneg l : Forall (fun x => 0 <= f x) l -> 0 <= zsum f l.
Proof. induction 1; simpl; lia. Qed.

Lemma zsum_ge l i x : Forall (fun x => 0 <= f x) l -> l !! i = Some x -> f x <= zsum f l.
Proof.
  intros H Hi. apply take_drop_middle in Hi. rewrite <- Hi in H |- *. rewrite zsum_app. simpl.
  rewrite Forall_app, Forall_cons in H. destruct H as (H1 & _ & H2).
  apply zsum_nonneg in H1. apply zsum_nonneg in H2. lia.
Qed.

Lemma zsum_fmap {B} (g : B -> A) (l : list B) : zsum f (g <$> l) = zsum (f ∘ g) l.
Proof. induction l as [|x l IH]; csimpl; [done|]. by rewrite IH. Qed.

End Zsum.

Lemma zsum_le {A} (f g : A -> Z) (l : list A) :
  Forall (fun x => f x <= g x) l -> zsum f l <= zsum g l.
Proof. induction 1; simpl; lia. Qed.

Lemma zsum_ext {A} (f g : A -> Z) (l : list A) :
  Forall (fun x => f x = g x) l -> zsum f l = zsum g l.
Proof. induction 1; simpl; lia. Qed.

(** ** Hints *)
Create HintDb fp4.
Create Rewrite HintDb fp4.
#[export] Hint Resolve wrap_range align_up_range le_encode_bytes cstr_bytes : fp4.
#[export] Hint Rewrite length_le_encode wrap_wrap : fp4.
