(* ===== verification/Memory.v ===== *)
(** * Flat memory

    The memory of the runtime process as a finite map from addresses to bytes.
    The guest's arena is identity-mapped, so a guest address is a host address.
    An address that is not in the map is not mapped: an access to it is a fault,
    [None]. *)
From S2P Require Import Prelude.

Abbreviation Memory := (gmap Z Z).

Fixpoint store_bytes (m : Memory) (addr : Z) (bs : bytes) : Memory :=
  match bs with
  | [] => m
  | b :: rest => store_bytes (<[addr := b]> m) (addr + 1) rest
  end.

Fixpoint load_bytes (m : Memory) (addr : Z) (n : nat) : option bytes :=
  match n with
  | O => Some []
  | S n' => b ← m !! addr; rest ← load_bytes m (addr + 1) n'; Some (b :: rest)
  end.

(** All of [n] bytes at [addr] are mapped. *)
Definition mapped_range (m : Memory) (addr : Z) (n : nat) : bool :=
  forallb (fun i => bool_decide (is_Some (m !! (addr + Z.of_nat i)))) (seq 0 n).

(** A store by the runtime: the whole destination must be mapped. *)
Definition write_bytes (m : Memory) (addr : Z) (bs : bytes) : option Memory :=
  if mapped_range m addr (length bs) then Some (store_bytes m addr bs) else None.

Definition readU64 (m : Memory) (addr : Z) : option Z := le_decode <$> load_bytes m addr 8.
Definition writeU64 (m : Memory) (addr value : Z) : option Memory :=
  write_bytes m addr (le_encode 8 (u64 value)).

(** [strlen] and the bytes it passes over.  Every step is a mapped address, so
    one more step than there are mapped addresses never runs out. *)
Fixpoint strz_loop (fuel : nat) (m : Memory) (addr : Z) : option bytes :=
  match fuel with
  | O => None
  | S fuel' =>
      b ← m !! addr;
      if (b : Z) =? 0 then Some [] else rest ← strz_loop fuel' m (addr + 1); Some (b :: rest)
  end.
Definition strz (m : Memory) (addr : Z) : option bytes := strz_loop (S (size m)) m addr.

(** ** Lemmas *)
Section Lemmas.

Lemma store_bytes_lookup_ne m addr bs a :
  a < addr \/ addr + Z.of_nat (length bs) <= a -> store_bytes m addr bs !! a = m !! a.
Proof.
  revert m addr. induction bs as [|b bs IH]; intros m addr H; simpl in *; [done|].
  rewrite IH by lia. apply lookup_insert_ne. lia.
Qed.

Lemma store_bytes_lookup m addr bs i b :
  bs !! i = Some b -> store_bytes m addr bs !! (addr + Z.of_nat i) = Some b.
Proof.
  revert m addr i. induction bs as [|b' bs IH]; intros m addr i H; simpl in *; [done|].
  destruct i as [|i]; simplify_eq/=.
  - rewrite store_bytes_lookup_ne by lia. rewrite Z.add_0_r. by rewrite lookup_insert_eq.
  - replace (addr + Z.of_nat (S i)) with (addr + 1 + Z.of_nat i) by lia. by apply IH.
Qed.

Lemma load_bytes_lookup m addr n bs :
  load_bytes m addr n = Some bs <->
  length bs = n /\ forall i b, bs !! i = Some b -> m !! (addr + Z.of_nat i) = Some b.
Proof.
  revert addr bs. induction n as [|n IH]; intros addr bs; simpl.
  - split; [intros; by simplify_eq|]. intros [H _]. by destruct bs.
  - split.
    + destruct (m !! addr) as [b|] eqn:E; simpl; [|done].
      destruct (load_bytes m (addr + 1) n) as [rest|] eqn:E2; simpl; [|done].
      intros; simplify_eq. apply IH in E2 as [Hl Hr]. split; [simpl; by rewrite Hl|].
      intros [|i] b' Hi; simplify_eq/=; [by rewrite Z.add_0_r|].
      apply Hr in Hi. rewrite <- Hi. f_equal. lia.
    + intros [Hl Hi]. destruct bs as [|b bs]; [done|]. simplify_eq/=.
      pose proof (Hi 0%nat b eq_refl) as H0. rewrite Z.add_0_r in H0. rewrite H0. simpl.
      rewrite (proj2 (IH (addr + 1) bs)); [done|]. split; [done|]. intros i b' Hb.
      rewrite <- (Hi (S i) b' Hb). f_equal. lia.
Qed.

Lemma load_store m addr bs : load_bytes (store_bytes m addr bs) addr (length bs) = Some bs.
Proof. apply load_bytes_lookup. split; [done|]. intros. by apply store_bytes_lookup. Qed.

(** A part of what was loaded. *)
Lemma load_bytes_part (m : Memory) a n p x q :
  load_bytes m a n = Some (p ++ x ++ q) -> load_bytes m (a + Z.of_nat (length p)) (length x) = Some x.
Proof.
  rewrite !load_bytes_lookup. intros [_ H]. split; [done|]. intros i b Hi.
  replace (a + Z.of_nat (length p) + Z.of_nat i) with (a + Z.of_nat (length p + i)) by lia. apply H.
  rewrite lookup_app_r by lia. replace (length p + i - length p)%nat with i by lia.
  by apply lookup_app_l_Some.
Qed.

Lemma writeU64_inv m addr v m' :
  writeU64 m addr v = Some m' ->
  readU64 m' addr = Some (u64 v) /\ (forall a, a < addr \/ addr + 8 <= a -> m' !! a = m !! a).
Proof.
  unfold writeU64, write_bytes. destruct (mapped_range _ _ _); [|done]. intros; simplify_eq. split.
  - unfold readU64. pose proof (load_store m addr (le_encode 8 (u64 v))) as H.
    rewrite length_le_encode in H. rewrite H. simpl fmap. f_equal.
    apply (le_decode_encode 8), (wrap_range 64). lia.
  - intros a Ha. apply store_bytes_lookup_ne. rewrite length_le_encode. lia.
Qed.

(** Loads depend only on the bytes they read, and stores map nothing new. *)
Lemma load_bytes_agree (m m' : Memory) a n :
  (forall k, a <= k < a + Z.of_nat n -> m' !! k = m !! k) -> load_bytes m' a n = load_bytes m a n.
Proof.
  intros H. apply option_eq. intros bs. rewrite !load_bytes_lookup.
  split; intros [Hl Hb]; (split; [done|]); intros i b Hi; apply lookup_lt_Some in Hi as Hi';
    [rewrite <- H by lia|rewrite H by lia]; by apply Hb.
Qed.

Lemma mapped_range_spec (m : Memory) a n :
  mapped_range m a n = true <-> forall i, (i < n)%nat -> is_Some (m !! (a + Z.of_nat i)).
Proof.
  unfold mapped_range. rewrite forallb_Forall, Forall_forall. split.
  - intros H i Hi. apply (bool_decide_eq_true_1 (is_Some _)), H. apply elem_of_seq. lia.
  - intros H i Hi%elem_of_seq. apply bool_decide_eq_true_2, H. lia.
Qed.

Lemma store_bytes_is_Some (m : Memory) a bs k : is_Some (m !! k) -> is_Some (store_bytes m a bs !! k).
Proof.
  revert m a. induction bs as [|b bs IH]; intros m a H; simpl; [done|]. apply IH.
  destruct (decide (k = a)) as [->|]; [by rewrite lookup_insert_eq|by rewrite lookup_insert_ne].
Qed.

Lemma write_bytes_is_Some (m m' : Memory) a bs k :
  write_bytes m a bs = Some m' -> is_Some (m !! k) -> is_Some (m' !! k).
Proof. unfold write_bytes. destruct (mapped_range _ _ _); intros; simplify_eq. by apply store_bytes_is_Some. Qed.

Lemma write_bytes_mapped (m m' : Memory) a bs i :
  write_bytes m a bs = Some m' -> (i < length bs)%nat -> is_Some (m !! (a + Z.of_nat i)).
Proof.
  unfold write_bytes. destruct (mapped_range _ _ _) eqn:E; intros; simplify_eq.
  by apply (proj1 (mapped_range_spec _ _ _) E).
Qed.

Lemma write_bytes_inv (m m' : Memory) a bs :
  write_bytes m a bs = Some m' ->
  load_bytes m' a (length bs) = Some bs /\
  (forall k, k < a \/ a + Z.of_nat (length bs) <= k -> m' !! k = m !! k).
Proof.
  unfold write_bytes. destruct (mapped_range _ _ _); intros; simplify_eq.
  split; [apply load_store|]. intros k Hk. by apply store_bytes_lookup_ne.
Qed.

Lemma load_bytes_total (m : Memory) a n :
  (forall i, (i < n)%nat -> is_Some (m !! (a + Z.of_nat i))) -> is_Some (load_bytes m a n).
Proof.
  revert a. induction n as [|n IH]; intros a H; simpl; [done|].
  destruct (H 0%nat) as [b Hb]; [lia|]. rewrite Z.add_0_r in Hb. rewrite Hb. simpl.
  destruct (IH (a + 1)) as [bs ->]; [|done]. intros i Hi.
  replace (a + 1 + Z.of_nat i) with (a + Z.of_nat (S i)) by lia. apply H. lia.
Qed.

Lemma readU64_agree (m m' : Memory) a :
  (forall k, a <= k < a + 8 -> m' !! k = m !! k) -> readU64 m' a = readU64 m a.
Proof. intros H. unfold readU64. f_equal. apply load_bytes_agree. exact H. Qed.

Lemma writeU64_is_Some (m : Memory) a v :
  (forall i, (i < 8)%nat -> is_Some (m !! (a + Z.of_nat i))) -> is_Some (writeU64 m a v).
Proof.
  intros H. unfold writeU64, write_bytes. rewrite length_le_encode.
  rewrite (proj2 (mapped_range_spec m a 8) H). by eexists.
Qed.

(** Consecutive mapped addresses are distinct keys, so there are at most [size m]. *)
Lemma mapped_run_size (m : Memory) a n :
  (forall i, (i < n)%nat -> is_Some (m !! (a + Z.of_nat i))) -> (n <= size m)%nat.
Proof.
  intros H. set (ks := (fun i => a + Z.of_nat i) <$> seq 0 n).
  assert (length ks = n) as Hn by (unfold ks; by rewrite length_fmap, length_seq).
  rewrite <- Hn, <- size_dom. clear Hn. unfold size, set_size. simpl. apply submseteq_length, NoDup_submseteq.
  - apply NoDup_fmap_2; [intros ???; lia|apply NoDup_seq].
  - intros k (i & -> & Hi%elem_of_seq)%list_elem_of_fmap. apply elem_of_elements, elem_of_dom, H. lia.
Qed.

(** [strz] answers exactly the string at the address: its fuel never runs out
    before it reaches the terminator or faults. *)
Lemma strz_spec (m : Memory) a s :
  strz m a = Some s <->
  (forall i b, s !! i = Some b -> m !! (a + Z.of_nat i) = Some b /\ b <> 0) /\
  m !! (a + Z.of_nat (length s)) = Some 0.
Proof.
  assert (forall fuel a s, strz_loop fuel m a = Some s <->
    (length s < fuel)%nat /\ (forall i b, s !! i = Some b -> m !! (a + Z.of_nat i) = Some b /\ b <> 0) /\
    m !! (a + Z.of_nat (length s)) = Some 0) as Hloop.
  { clear a s. induction fuel as [|fuel IH]; intros a s; simpl; [split; [done|lia]|].
    destruct (m !! a) as [b|] eqn:E; simpl.
    2: { split; [done|]. intros (_ & Hs & H0). destruct s as [|b s]; simpl in *.
         - rewrite Z.add_0_r in H0. congruence.
         - destruct (Hs 0%nat b eq_refl) as [Hb _]. rewrite Z.add_0_r in Hb. congruence. }
    destruct (b =? 0) eqn:Eb.
    - apply Z.eqb_eq in Eb as ->. split.
      + intros; simplify_eq. simpl. rewrite Z.add_0_r. split; [lia|by split].
      + intros (_ & Hs & _). destruct s as [|c s]; [done|].
        destruct (Hs 0%nat c eq_refl) as [Hc ?]. rewrite Z.add_0_r in Hc. congruence.
    - split.
      + intros (rest & Hr & ?)%bind_Some. simplify_eq. apply IH in Hr as (Hl & Hs & H0). simpl.
        split; [lia|]. split; [|by replace (a + Z.of_nat (S (length rest))) with (a + 1 + Z.of_nat (length rest)) by lia].
        intros [|i] c Hc; simplify_eq/=; [rewrite Z.add_0_r; split; [done|lia]|].
        replace (a + Z.of_nat (S i)) with (a + 1 + Z.of_nat i) by lia. by apply Hs.
      + intros (Hl & Hs & H0). destruct s as [|c s]; simpl in *.
        { rewrite Z.add_0_r in H0. assert (b = 0) by congruence. lia. }
        destruct (Hs 0%nat c eq_refl) as [Hc _]. rewrite Z.add_0_r in Hc.
        apply bind_Some. exists s. split; [|congruence]. apply IH. split; [lia|]. split.
        * intros i d Hd. replace (a + 1 + Z.of_nat i) with (a + Z.of_nat (S i)) by lia. by apply (Hs (S i)).
        * by replace (a + 1 + Z.of_nat (length s)) with (a + Z.of_nat (S (length s))) by lia. }
  unfold strz. rewrite Hloop. split; [tauto|]. intros [Hs H0]. split; [|done].
  assert (S (length s) <= size m)%nat; [|lia]. apply (mapped_run_size m a). intros i Hi.
  destruct (decide (i = length s)) as [->|]; [by rewrite H0|].
  destruct (lookup_lt_is_Some_2 s i) as [b Hb]; [lia|]. destruct (Hs i b Hb) as [-> _]. done.
Qed.

End Lemmas.

#[global] Arguments load_bytes : simpl never.
#[global] Arguments strz : simpl never.
