(* ===== verification/FreeBsd.v ===== *)
(** * FreeBSD ABI constants of the guest

    The numeric constants of [syscall/freebsd/FreeBsd.hpp] that the syscall
    layer, the virtual filesystem and the loader share, and the errno-name
    table of [syscall/freebsd/FreeBsd.cpp]. *)
From S2P Require Import Prelude.

(** ** [enum SyscallNumber] *)
Definition kSysExit := 1.
Definition kSysRead := 3.
Definition kSysWrite := 4.
Definition kSysOpen := 5.
Definition kSysClose := 6.
Definition kSysGetPid := 20.
Definition kSysGetPageSize := 64.
Definition kSysMunmap := 69.
Definition kSysMprotect := 70.
Definition kSysFsync := 95.
Definition kSysSocket := 97.
Definition kSysGetTimeOfDay := 116.
Definition kSysRename := 128.
Definition kSysMkdir := 136.
Definition kSysRmdir := 137.
Definition kSysThrSelf := 331.
Definition kSysThrExit := 332.
Definition kSysThrSuspend := 434.
Definition kSysThrWake := 437.
Definition kSysMmap := 477.
Definition kSysLseek := 478.
Definition kSysFtruncate := 480.
Definition kSysFstat := 484.

(** ** [enum Errno] *)
Definition kOk := 0.
Definition kEperm := 1.
Definition kEnoent := 2.
Definition kEsrch := 3.
Definition kEintr := 4.
Definition kEio := 5.
Definition kEnxio := 6.
Definition kE2big := 7.
Definition kEnoexec := 8.
Definition kEbadf := 9.
Definition kEchild := 10.
Definition kEagain := 11.
Definition kEnomem := 12.
Definition kEacces := 13.
Definition kEfault := 14.
Definition kEnotblk := 15.
Definition kEbusy := 16.
Definition kEexists := 17.
Definition kExdev := 18.
Definition kEnodev := 19.
Definition kEnotdir := 20.
Definition kEisdir := 21.
Definition kEinval := 22.
Definition kEnfile := 23.
Definition kEmfile := 24.
Definition kEnotty := 25.
Definition kEtxtbsy := 26.
Definition kEfbig := 27.
Definition kEnospc := 28.
Definition kEspipe := 29.
Definition kErofs := 30.
Definition kEmlink := 31.
Definition kEpipe := 32.
Definition kEdom := 33.
Definition kErange := 34.
Definition kEdeadlk := 35.
Definition kEnolck := 77.
Definition kEnosys := 78.
Definition kEnametoolong := 63.
Definition kEnotempty := 66.
Definition kElibbad := 86.
Definition kEopnotsupp := 45.

(** ** Open flags *)
Definition kO_RdOnly := 0x0000.
Definition kO_WrOnly := 0x0001.
Definition kO_RdWr := 0x0002.
Definition kO_AccMode := 0x0003.
Definition kO_NonBlock := 0x0004.
Definition kO_Append := 0x0008.
Definition kO_Directory := 0x00020000.
Definition kO_Excl := 0x00000800.
Definition kO_Creat := 0x00000200.
Definition kO_Trunc := 0x00000400.
Definition kO_CloExec := 0x00100000.

(** ** mman flags *)
Definition kProtRead := 0x1.
Definition kProtWrite := 0x2.
Definition kProtExec := 0x4.
Definition kMapAnon := 0x1000.

(** ** [ErrnoName::name] *)
Definition kErrnoNames : list (Z * bytes) :=
  [(kOk, cstr "0"); (kEperm, cstr "EPERM"); (kEnoent, cstr "ENOENT");
   (kEsrch, cstr "ESRCH"); (kEintr, cstr "EINTR"); (kEio, cstr "EIO");
   (kEnxio, cstr "ENXIO"); (kE2big, cstr "E2BIG"); (kEnoexec, cstr "ENOEXEC");
   (kEbadf, cstr "EBADF"); (kEchild, cstr "ECHILD"); (kEagain, cstr "EAGAIN");
   (kEnomem, cstr "ENOMEM"); (kEacces, cstr "EACCES"); (kEfault, cstr "EFAULT");
   (kEnotblk, cstr "ENOTBLK"); (kEbusy, cstr "EBUSY"); (kEexists, cstr "EEXIST");
   (kExdev, cstr "EXDEV"); (kEnodev, cstr "ENODEV"); (kEnotdir, cstr "ENOTDIR");
   (kEisdir, cstr "EISDIR"); (kEinval, cstr "EINVAL"); (kEnfile, cstr "ENFILE");
   (kEmfile, cstr "EMFILE"); (kEnotty, cstr "ENOTTY"); (kEtxtbsy, cstr "ETXTBSY");
   (kEfbig, cstr "EFBIG"); (kEnospc, cstr "ENOSPC"); (kEspipe, cstr "ESPIPE");
   (kErofs, cstr "EROFS"); (kEmlink, cstr "EMLINK"); (kEpipe, cstr "EPIPE");
   (kEdom, cstr "EDOM"); (kErange, cstr "ERANGE"); (kEdeadlk, cstr "EDEADLK");
   (kEnolck, cstr "ENOLCK"); (kEnosys, cstr "ENOSYS");
   (kEnametoolong, cstr "ENAMETOOLONG"); (kEnotempty, cstr "ENOTEMPTY");
   (kElibbad, cstr "ELIBBAD"); (kEopnotsupp, cstr "EOPNOTSUPP")].

Fixpoint errno_lookup (tbl : list (Z * bytes)) (e : Z) : bytes :=
  match tbl with
  | [] => cstr "UNKNOWN"
  | (code, str) :: rest => if code =? e then str else errno_lookup rest e
  end.

Definition ErrnoName_name (e : Z) : bytes := errno_lookup kErrnoNames e.

(** The table names distinct codes, so each known errno has one name. *)
Lemma kErrnoNames_NoDup : NoDup (kErrnoNames.*1).
Proof. vm_compute. apply (bool_decide_unpack _). vm_compute. exact I. Qed.
