(* ===== verification/Vfs.v ===== *)
(** * Virtual filesystem: path normalisation, mount policy, resolution

    [filesystem/virtual/VirtualPath.cpp], [filesystem/policy/FsPolicy.cpp] and
    [filesystem/virtual/VirtualFileSystem.cpp].  A guest path is a byte list.
    The theorems show that normalisation computes the lexical resolution of a
    path, is idempotent and canonical, that mount matching is longest-prefix on
    component boundaries, and that a successful resolution lands inside the
    matched mount's host directory with the operation permitted. *)
From S2P Require Import Prelude FreeBsd.

Definition slash : Z := 47.
Definition dot : bytes := cstr ".".
Definition dotdot : bytes := cstr "..".

(** ** [VirtualPath] *)
Module VirtualPath.

Definition isPrintablePathChar (c : Z) : bool :=
  if c =? 0 then false else (0x20 <=? c) && (c <? 0x7F).

(** The body run at a separator: [cur] is the component just read. *)
Definition close_component (cur : bytes) (stack : list bytes) : option (list bytes) :=
  if bool_decide (cur = []) then Some stack
  else if bool_decide (cur = dot) then Some stack
  else if bool_decide (cur = dotdot) then Some (removelast stack)
  else if forallb isPrintablePathChar cur then Some (stack ++ [cur])
  else None.

(** The scan; the end of the input acts as a final separator. *)
Fixpoint normalize_loop (inp cur : bytes) (stack : list bytes) : option (list bytes) :=
  match inp with
  | [] => close_component cur stack
  | c :: rest =>
      if c =? slash
      then stack' ← close_component cur stack; normalize_loop rest [] stack'
      else normalize_loop rest (cur ++ [c]) stack
  end.

(** The output stream: components separated by ['/']. *)
Fixpoint join_slash (stack : list bytes) : bytes :=
  match stack with
  | [] => []
  | [c] => c
  | c :: rest => c ++ slash :: join_slash rest
  end.

Definition normalize (input : bytes) : option bytes :=
  match input with
  | [] => None
  | c0 :: rest =>
      if existsb (Z.eqb 0) input then None
      else
        stack ← normalize_loop (if c0 =? slash then rest else input) [] [];
        Some (slash :: join_slash stack)
  end.

Definition ends_with_slash (p : bytes) : bool := bool_decide (last p = Some slash).

(** [outHostPath.back()] is only read on a non-empty path: the VFS root or the
    mount's sub-directory is non-empty. *)
Definition translate (guestPath vfsRoot hostSubdir : bytes) : option bytes :=
  canonical ← normalize guestPath;
  let suffix := if bool_decide (canonical = [slash]) then [] else canonical in
  let out1 :=
    if negb (bool_decide (vfsRoot = [])) && negb (ends_with_slash vfsRoot)
    then vfsRoot ++ [slash] else vfsRoot in
  let out2 := out1 ++ hostSubdir in
  match suffix with
  | [] => Some out2
  | s0 :: srest =>
      let out3 := if ends_with_slash out2 then out2 else out2 ++ [slash] in
      Some (out3 ++ (if s0 =? slash then srest else suffix))
  end.

End VirtualPath.

(** ** [FsPolicy] *)
Module FsPolicy.

Record MountPoint := mkMount {
  guestPrefix : bytes;
  hostSubdir : bytes;
  readOnly : bool;
  allowCreate : bool;
  allowDelete : bool
}.

Inductive FsOp :=
  Read | Write | Create | Delete | Rename | List_ | Chmod | Chown | Truncate.

Record t := mkPolicy { m_mounts : list MountPoint; m_vfsRoot : bytes }.

Definition default_policy : t :=
  {| m_vfsRoot := cstr "virtual_fs";
     m_mounts :=
       [mkMount (cstr "/app") (cstr "app") true false false;
        mkMount (cstr "/data") (cstr "data") false true true;
        mkMount (cstr "/system") (cstr "system") true false false;
        mkMount (cstr "/temp") (cstr "temp") false true true;
        mkMount (cstr "/save") (cstr "save") false true true;
        mkMount (cstr "/user") (cstr "user") false true true] |}.

Definition configure (mounts : list MountPoint) (vfsRoot : bytes) : t :=
  {| m_mounts := mounts; m_vfsRoot := vfsRoot |}.

(** The guards of one iteration of [match]: prefix, then component boundary. *)
Definition covers (guestPath : bytes) (mp : MountPoint) : bool :=
  let n := length (guestPrefix mp) in
  if (length guestPath <? n)%nat then false
  else if negb (bool_decide (take n guestPath = guestPrefix mp)) then false
  else match guestPath !! n with
       | Some c => c =? slash
       | None => true
       end.

Fixpoint match_loop (mounts : list MountPoint) (guestPath : bytes)
    (best : option MountPoint) (bestLen : nat) : option MountPoint :=
  match mounts with
  | [] => best
  | mp :: rest =>
      if covers guestPath mp && (bestLen <? length (guestPrefix mp))%nat
      then match_loop rest guestPath (Some mp) (length (guestPrefix mp))
      else match_loop rest guestPath best bestLen
  end.

Definition match_mount (p : t) (guestPath : bytes) : option MountPoint :=
  match_loop (m_mounts p) guestPath None 0.

(** The permission switch of [isAllowed]; the [outReason] text is dropped. *)
Definition op_permitted (mp : MountPoint) (op : FsOp) : bool :=
  match op with
  | Read | List_ => true
  | Write | Truncate => negb (readOnly mp)
  | Create => if readOnly mp then false else allowCreate mp
  | Delete | Rename => if readOnly mp then false else allowDelete mp
  | Chmod | Chown => negb (readOnly mp)
  end.

Definition isAllowed (p : t) (guestPath : bytes) (op : FsOp) : bool :=
  match match_mount p guestPath with
  | None => false
  | Some mp => op_permitted mp op
  end.

End FsPolicy.

(** ** [VirtualFileSystem] *)
Module VirtualFileSystem.
Import FsPolicy.

Record Translation := mkTranslation {
  ok : bool;
  tr_guestPath : bytes;
  tr_hostPath : bytes;
  tr_mount : option MountPoint
}.

Definition failed (guestPath : bytes) : Translation :=
  mkTranslation false guestPath [] None.

(** The translation and the value left in [outErrno]. *)
Definition resolve (p : FsPolicy.t) (guestPath : bytes) (op : FsOp) : Translation * Z :=
  match VirtualPath.normalize guestPath with
  | None => (failed guestPath, kEinval)
  | Some canonical =>
      match match_mount p canonical with
      | None => (failed guestPath, kEnoent)
      | Some mp =>
          let suffix0 := drop (length (guestPrefix mp)) canonical in
          let suffix := if bool_decide (suffix0 = []) then [slash] else suffix0 in
          match VirtualPath.translate suffix (m_vfsRoot p) (hostSubdir mp) with
          | None => (failed guestPath, kEinval)
          | Some hostPath =>
              if isAllowed p canonical op
              then (mkTranslation true guestPath hostPath (Some mp), 0)
              else (failed guestPath, kEacces)
          end
      end
  end.

End VirtualFileSystem.

(** ** Specification *)
Module VfsSpec.
Import VirtualPath FsPolicy VirtualFileSystem.

(** A component that can survive normalisation: non-empty, not [.] or [..],
    printable ASCII, no separator. *)
Definition path_char (c : Z) : Prop := isPrintablePathChar c = true /\ c <> slash.
Definition good_component (c : bytes) : Prop :=
  c <> [] /\ c <> dot /\ c <> dotdot /\ Forall path_char c.

Definition render (comps : list bytes) : bytes := slash :: join_slash comps.
Definition canonical (p : bytes) : Prop :=
  exists comps, Forall good_component comps /\ p = render comps.

(** Each component preceded by a separator. *)
Definition tail_render (comps : list bytes) : bytes :=
  concat ((cons slash) <$> comps).

(** Lexical resolution as a function of the list of components: the reference
    that the character scan implements. *)
Fixpoint split_slash (p cur : bytes) : list bytes :=
  match p with
  | [] => [cur]
  | c :: rest =>
      if c =? slash then cur :: split_slash rest [] else split_slash rest (cur ++ [c])
  end.

Definition walk (comps stack : list bytes) : option (list bytes) :=
  foldl (fun acc c => stack ← acc; close_component c stack) (Some stack) comps.

(** The host directory of a mount, and a host path below a directory. *)
Definition mount_dir (root sub : bytes) : bytes :=
  (if negb (bool_decide (root = [])) && negb (ends_with_slash root)
   then root ++ [slash] else root) ++ sub.
Definition below (dir : bytes) (comps : list bytes) : bytes :=
  match comps with
  | [] => dir
  | _ => (if ends_with_slash dir then dir else dir ++ [slash]) ++ join_slash comps
  end.

(** What [resolve] promises, in terms of components. *)
Inductive resolves (p : FsPolicy.t) (g : bytes) (op : FsOp) : Translation * Z -> Prop :=
| resolves_invalid :
    normalize g = None -> resolves p g op (failed g, kEinval)
| resolves_no_mount c :
    normalize g = Some c -> match_mount p c = None ->
    resolves p g op (failed g, kEnoent)
| resolves_denied c mp :
    normalize g = Some c -> match_mount p c = Some mp -> op_permitted mp op = false ->
    resolves p g op (failed g, kEacces)
| resolves_ok c mp comps :
    normalize g = Some c -> match_mount p c = Some mp -> op_permitted mp op = true ->
    Forall good_component comps -> c = guestPrefix mp ++ tail_render comps ->
    resolves p g op
      (mkTranslation true g (below (mount_dir (m_vfsRoot p) (hostSubdir mp)) comps) (Some mp), 0).

End VfsSpec.

(** ** Path lemmas *)
Section PathLemmas.
Import VirtualPath VfsSpec.

Lemma close_component_good cur st st' :
  Forall good_component st -> Forall (fun c => c <> slash) cur ->
  close_component cur st = Some st' -> Forall good_component st'.
Proof.
  intros Hst Hcur. unfold close_component.
  repeat case_bool_decide; intros; simplify_eq; [done|done| |].
  - destruct st as [|x st _] using rev_ind; [done|].
    rewrite removelast_last. by apply Forall_app in Hst as [? _].
  - destr_in H2; simplify_eq. apply Forall_app. split; [done|].
    apply Forall_singleton. split_and!; [done..|].
    apply forallb_Forall in E. rewrite Forall_forall in *.
    intros c Hc. split; [by apply E|by apply Hcur].
Qed.

Lemma normalize_loop_good inp cur st st' :
  Forall good_component st -> Forall (fun c => c <> slash) cur ->
  normalize_loop inp cur st = Some st' -> Forall good_component st'.
Proof.
  revert cur st. induction inp as [|c inp IH]; intros cur st Hst Hcur; simpl.
  - by apply close_component_good.
  - destruct (c =? slash) eqn:Ec.
    + destruct (close_component cur st) as [st1|] eqn:E1; simpl; [|done].
      apply IH; [|constructor]. by eapply close_component_good.
    + apply IH; [done|]. apply Forall_app. split; [done|]. apply Forall_singleton. lia.
Qed.

Lemma normalize_loop_split inp cur st :
  normalize_loop inp cur st = walk (split_slash inp cur) st.
Proof.
  revert cur st. induction inp as [|c inp IH]; intros cur st; simpl; [done|].
  destruct (c =? slash); [|apply IH].
  unfold walk. simpl. destruct (close_component cur st) as [st1|]; simpl.
  - apply IH.
  - clear. induction (split_slash inp []); simpl; done.
Qed.

Lemma path_char_no_slash c : Forall path_char c -> Forall (fun x => x <> slash) c.
Proof. intros H. eapply Forall_impl; [exact H|]. by intros x [_ ?]. Qed.

Lemma normalize_loop_component c rest cur st :
  Forall (fun x => x <> slash) c ->
  normalize_loop (c ++ rest) cur st = normalize_loop rest (cur ++ c) st.
Proof.
  intros Hc. revert cur. induction Hc as [|x c Hx _ IH]; intros cur; simpl.
  - by rewrite app_nil_r.
  - destruct (x =? slash) eqn:E; [lia|]. by rewrite IH, <- app_assoc.
Qed.

Lemma close_component_push c st :
  good_component c -> close_component c st = Some (st ++ [c]).
Proof.
  intros (H1 & H2 & H3 & H4). unfold close_component.
  rewrite !bool_decide_false by done.
  assert (forallb isPrintablePathChar c = true) as ->; [|done].
  apply forallb_Forall. eapply Forall_impl; [exact H4|]. by intros x [Hx _].
Qed.

Lemma join_slash_cons c comps :
  join_slash (c :: comps) = c ++ tail_render comps.
Proof.
  revert c. induction comps as [|d comps IH]; intros c.
  - simpl. by rewrite app_nil_r.
  - change (join_slash (c :: d :: comps)) with (c ++ slash :: join_slash (d :: comps)).
    by rewrite IH.
Qed.

Lemma render_tail comps : comps <> [] -> render comps = tail_render comps.
Proof. destruct comps; [done|]. intros _. unfold render. by rewrite join_slash_cons. Qed.

Lemma normalize_loop_tail comps cur st :
  Forall good_component comps -> Forall (fun x => x <> slash) cur ->
  normalize_loop (tail_render comps) cur st =
    (st' ← close_component cur st; Some (st' ++ comps)).
Proof.
  intros Hg. revert cur st. induction Hg as [|c comps Hc _ IH]; intros cur st Hcur.
  - simpl. destruct (close_component cur st); simpl; [by rewrite app_nil_r|done].
  - change (tail_render (c :: comps)) with (slash :: (c ++ tail_render comps)).
    assert (Forall (fun x => x <> slash) c)
      by (apply path_char_no_slash; apply Hc).
    simpl. destruct (close_component cur st) as [st1|]; simpl; [|done].
    rewrite normalize_loop_component, IH, app_nil_l, close_component_push by done.
    simpl. by rewrite <- app_assoc.
Qed.

Lemma normalize_loop_join comps :
  Forall good_component comps -> normalize_loop (join_slash comps) [] [] = Some comps.
Proof.
  intros Hg. destruct Hg as [|c comps Hc Hg]; [done|].
  assert (Forall (fun x => x <> slash) c) by (apply path_char_no_slash; apply Hc).
  rewrite join_slash_cons, normalize_loop_component, normalize_loop_tail by done.
  by rewrite app_nil_l, close_component_push.
Qed.

Lemma existsb_nul_false p : Forall (fun x => x <> 0) p -> existsb (Z.eqb 0) p = false.
Proof.
  induction 1 as [|x p Hx _ IH]; simpl in *; [done|]. rewrite IH. by destruct x.
Qed.

Lemma good_component_nonnul c : good_component c -> Forall (fun x => x <> 0) c.
Proof.
  intros (_ & _ & _ & H). eapply Forall_impl; [exact H|].
  intros x [Hx _] ->. done.
Qed.

Lemma render_nonnul comps :
  Forall good_component comps -> Forall (fun x => x <> 0) (render comps).
Proof.
  intros Hg. destruct (decide (comps = [])) as [->|Hne]; [by repeat constructor|].
  rewrite render_tail by done. unfold tail_render. apply Forall_concat, Forall_fmap.
  eapply Forall_impl; [exact Hg|]. intros c Hc. simpl.
  constructor; [done|]. by apply good_component_nonnul.
Qed.

Lemma normalize_render comps :
  Forall good_component comps -> normalize (render comps) = Some (render comps).
Proof.
  intros Hg. unfold normalize. unfold render at 1.
  fold (render comps). rewrite existsb_nul_false by (by apply render_nonnul).
  simpl. by rewrite normalize_loop_join.
Qed.

Lemma normalize_Some_canonical g p : normalize g = Some p -> canonical p.
Proof.
  unfold normalize. destruct g as [|c0 g]; [done|].
  destruct (existsb _ _); [done|]. intros H.
  destruct (normalize_loop _ _ _) as [st|] eqn:E; simplify_eq/=.
  exists st. split; [|done]. eapply normalize_loop_good; [..|exact E]; constructor.
Qed.

(** A canonical path cut just before a separator: what follows is again a list
    of good components. *)
Lemma no_slash_cut c x a b :
  Forall (fun y => y <> slash) c -> c ++ x = a ++ slash :: b ->
  exists a', a = c ++ a' /\ x = a' ++ slash :: b.
Proof.
  intros Hc. revert a. induction Hc as [|y c Hy _ IH]; intros a H.
  - by exists a.
  - destruct a as [|z a]; simplify_eq/=.
    destruct (IH a) as (a' & -> & ->); [done|]. by exists a'.
Qed.

Lemma tail_render_cut comps a b :
  Forall good_component comps -> tail_render comps = a ++ slash :: b ->
  exists rest, Forall good_component rest /\ rest <> [] /\ slash :: b = tail_render rest.
Proof.
  intros Hg. revert a. induction Hg as [|c comps Hc Hg IH]; intros a H.
  - by destruct a.
  - change (slash :: (c ++ tail_render comps) = a ++ slash :: b) in H.
    destruct a as [|y a]; simplify_eq/=.
    + exists (c :: comps). split; [by constructor|done].
    + destruct (no_slash_cut c (tail_render comps) a b) as (a' & -> & H').
      * by apply path_char_no_slash, Hc.
      * done.
      * by eapply IH.
Qed.

Lemma canonical_cut p a b :
  canonical p -> p = a ++ slash :: b -> a <> [] ->
  exists rest, Forall good_component rest /\ rest <> [] /\ slash :: b = tail_render rest.
Proof.
  intros (comps & Hg & ->) H Ha.
  destruct (decide (comps = [])) as [->|Hne].
  - destruct a as [|x a]; simplify_eq/=. by destruct a.
  - rewrite render_tail in H by done. by eapply tail_render_cut.
Qed.

Lemma translate_render comps root sub :
  Forall good_component comps ->
  translate (render comps) root sub = Some (below (mount_dir root sub) comps).
Proof.
  intros Hg. unfold translate. rewrite normalize_render by done. simpl.
  destruct Hg as [|c comps Hc Hg].
  - by rewrite bool_decide_true.
  - rewrite bool_decide_false.
    2: { unfold render. rewrite join_slash_cons. destruct Hc as [Hc _]. by destruct c. }
    reflexivity.
Qed.

End PathLemmas.

(** ** Mount lemmas *)
Section MountLemmas.
Import FsPolicy.

Lemma match_loop_spec mounts g best bestLen :
  match best with Some b => length (guestPrefix b) = bestLen | None => bestLen = 0%nat end ->
  match match_loop mounts g best bestLen with
  | Some mp =>
      (best = Some mp \/ (mp ∈ mounts /\ covers g mp = true)) /\
      (bestLen <= length (guestPrefix mp))%nat /\
      (best = None -> guestPrefix mp <> []) /\
      (forall mp', mp' ∈ mounts -> covers g mp' = true ->
        (length (guestPrefix mp') <= length (guestPrefix mp))%nat)
  | None => best = None /\
      (forall mp', mp' ∈ mounts -> covers g mp' = true -> guestPrefix mp' = [])
  end.
Proof.
  revert best bestLen. induction mounts as [|m mounts IH]; intros best bestLen Hb; simpl.
  - destruct best as [b|].
    + split_and!; [by left|lia|done|]. intros ? H. by apply elem_of_nil in H.
    + split; [done|]. intros ? H. by apply elem_of_nil in H.
  - destruct (covers g m && _) eqn:E.
    + apply andb_true_iff in E as [E1 E2].
      specialize (IH (Some m) (length (guestPrefix m)) eq_refl).
      destruct (match_loop _ _ _ _) as [mp|]; [|by destruct IH].
      destruct IH as (H1 & H2 & _ & H4). split_and!.
      * destruct H1 as [H1|[H1 ?]]; right; simplify_eq; split; try done; by constructor.
      * lia.
      * intros -> Hn. rewrite Hn in H2. simpl in H2. lia.
      * intros mp' [->|Hin]%elem_of_cons Hc; [lia|by apply H4].
    + specialize (IH best bestLen Hb).
      destruct (match_loop _ _ _ _) as [mp|].
      * destruct IH as (H1 & H2 & H3 & H4). split_and!; [|done|done|].
        -- destruct H1 as [H1|[H1 ?]]; [by left|]. right. split; [by constructor|done].
        -- intros mp' [->|Hin]%elem_of_cons Hc; [|by apply H4].
           rewrite Hc in E. simpl in E. lia.
      * destruct IH as [-> H2]. split; [done|].
        intros mp' [->|Hin]%elem_of_cons Hc; [|by apply H2].
        rewrite Hc in E. simpl in E. apply length_zero_iff_nil. lia.
Qed.

Lemma covers_inv g mp :
  covers g mp = true ->
  exists rest, g = guestPrefix mp ++ rest /\ (rest = [] \/ exists r, rest = slash :: r).
Proof.
  unfold covers. destruct (_ <? _)%nat eqn:E1; [done|].
  case_bool_decide as E2; simpl; [|done]. intros H.
  exists (drop (length (guestPrefix mp)) g). split.
  - rewrite <- E2 at 1. by rewrite take_drop.
  - destruct (drop _ g) as [|x r] eqn:E; [by left|]. right.
    assert (g !! length (guestPrefix mp) = Some x) as Hl.
    { rewrite <- (Nat.add_0_r (length _)), <- lookup_drop, E. done. }
    rewrite Hl in H. exists r. f_equal. lia.
Qed.

End MountLemmas.

(** ** Properties *)
Section Properties.
Import VirtualPath FsPolicy VirtualFileSystem VfsSpec.

Lemma resolve_spec p g op : resolves p g op (resolve p g op).
Proof.
  unfold resolve. destruct (normalize g) as [c|] eqn:En; [|by constructor].
  destruct (match_mount p c) as [mp|] eqn:Em; [|by econstructor].
  assert (Hcov : covers c mp = true /\ guestPrefix mp <> []).
  { pose proof (match_loop_spec (m_mounts p) c None 0 eq_refl) as H.
    unfold match_mount in Em. rewrite Em in H.
    destruct H as ([?|[_ ?]] & _ & Hn & _); [done|]. by split; [|apply Hn]. }
  destruct Hcov as [Hcov Hne]. destruct (covers_inv _ _ Hcov) as (rest & Hc & Hr).
  rewrite Hc, drop_app_length, <- Hc.
  assert (exists comps, Forall good_component comps /\ rest = tail_render comps /\
    (if bool_decide (rest = []) then [slash] else rest) = render comps) as (comps & Hg & -> & Hs).
  { destruct Hr as [->|[r ->]].
    - exists []. by split_and!.
    - destruct (canonical_cut c (guestPrefix mp) r) as (comps & Hg & Hn & Hr);
        [by eapply normalize_Some_canonical|done|done|].
      exists comps. rewrite bool_decide_false by done. by rewrite render_tail. }
  rewrite Hs, translate_render by done.
  unfold isAllowed. rewrite Em.
  destruct (op_permitted mp op) eqn:Ep; by econstructor.
Qed.

Lemma match_mount_elem p g mp : match_mount p g = Some mp -> mp ∈ m_mounts p.
Proof.
  unfold match_mount. intros H. pose proof (match_loop_spec (m_mounts p) g None 0 eq_refl) as Hl.
  rewrite H in Hl. by destruct Hl as ([?|[? _]] & _).
Qed.

(** A path that resolves is below the host directory of a mount that permits
    the operation. *)
Lemma resolve_below p g op :
  let tr := fst (resolve p g op) in
  ok tr = true ->
  exists mp comps, op_permitted mp op = true /\ mp ∈ m_mounts p /\ Forall good_component comps /\
    tr_hostPath tr = below (mount_dir (m_vfsRoot p) (hostSubdir mp)) comps.
Proof.
  intros tr. unfold tr. pose proof (resolve_spec p g op) as Hr. destruct (resolve p g op) as [x e].
  inversion Hr as [Hn|c Hn Hm|c mp Hn Hm Ho|c mp comps Hn Hm Ho Hg Hc]; subst; simpl; try done.
  intros _. exists mp, comps. split_and!; try done. by eapply match_mount_elem.
Qed.

(** C3: [VirtualFileSystem::resolve] refines its component-level
    specification on every policy, guest path and operation: an invalid path
    gives EINVAL, a path under no mount ENOENT, an operation the matched mount
    forbids EACCES, and otherwise the host path is the matched mount's host
    directory followed by exactly the guest components below the mount. *)
Theorem resolve_refines p g op : resolves p g op (resolve p g op).
Proof. apply resolve_spec. Qed.

(** Whatever the guest writes, [normalize] yields a canonical path (rooted,
    no empty, [.] or [..] component, printable) or rejects it; and canonical
    paths are exactly its fixed points, so normalisation is idempotent. *)
Theorem normalize_canonical g p :
  normalize g = Some p -> canonical p /\ normalize p = Some p.
Proof.
  intros H. apply normalize_Some_canonical in H. split; [done|].
  destruct H as (comps & Hg & ->). by apply normalize_render.
Qed.

Lemma normalize_canonical_witness :
  normalize (cstr "//app/./x/../../../data//save.bin") = Some (cstr "/data/save.bin") /\
  normalize (cstr "/data/save.bin") = Some (cstr "/data/save.bin").
Proof.
  assert (H : normalize (cstr "//app/./x/../../../data//save.bin") = Some (cstr "/data/save.bin"))
    by reflexivity.
  split; [exact H|].
  exact (proj2 (normalize_canonical _ _ H)).
Defined.

(** The single-pass character scan of [normalize] computes the reference
    lexical resolution: split the path at ['/'], then walk the components,
    dropping empty ones and ["."], popping on [".."] (never below the root)
    and pushing the others. *)
Theorem normalize_reference g :
  g <> [] -> Forall (fun c => c <> 0) g ->
  normalize g = render <$> walk (split_slash g []) [].
Proof.
  intros Hne Hnul. unfold normalize. destruct g as [|c0 g]; [done|].
  rewrite existsb_nul_false by done.
  rewrite normalize_loop_split. destruct (c0 =? slash) eqn:Ec; simpl; rewrite ?Ec;
    by destruct (walk _ _).
Qed.

Lemma normalize_reference_witness :
  normalize (cstr "a/../../b") = render <$> walk (split_slash (cstr "a/../../b") []) [].
Proof.
  apply (normalize_reference (cstr "a/../../b")); [done|].
  repeat (constructor; [done|]); constructor.
Defined.

(** Mount matching is longest-prefix on component boundaries: the mount
    returned is in the table, covers the path, has a non-empty prefix, and no
    other covering mount has a longer prefix; and when none is returned, no
    mount with a non-empty prefix covers the path. *)
Theorem match_mount_longest p g :
  match match_mount p g with
  | Some mp => mp ∈ m_mounts p /\ covers g mp = true /\ guestPrefix mp <> [] /\
      (forall mp', mp' ∈ m_mounts p -> covers g mp' = true ->
         (length (guestPrefix mp') <= length (guestPrefix mp))%nat)
  | None => forall mp', mp' ∈ m_mounts p -> covers g mp' = true -> guestPrefix mp' = []
  end.
Proof.
  pose proof (match_loop_spec (m_mounts p) g None 0 eq_refl) as H.
  unfold match_mount. destruct (match_loop _ _ _ _) as [mp|]; [|by destruct H].
  destruct H as ([?|[? ?]] & _ & Hn & ?); [done|]. split_and!; auto.
Qed.

(** C5: no successful resolution of a modifying operation lands on a
    read-only mount, and creation, deletion and renaming also need the
    mount's own permission. *)
Theorem resolve_modify_writable p g op tr mp :
  resolve p g op = (tr, 0) -> tr_mount tr = Some mp ->
  (op <> Read -> op <> List_ -> readOnly mp = false) /\
  (op = Create -> allowCreate mp = true) /\
  (op = Delete \/ op = Rename -> allowDelete mp = true).
Proof.
  intros H Hm. pose proof (resolve_spec p g op) as Hr. rewrite H in Hr.
  inversion Hr; simplify_eq/=.
  match goal with E : op_permitted _ _ = true |- _ => revert E end.
  destruct op; simpl; destruct (readOnly mp); simpl; intros E; intuition congruence.
Qed.

Lemma resolve_modify_writable_witness :
  (exists tr, resolve default_policy (cstr "/data/a") Create = (tr, 0) /\
     tr_hostPath tr = cstr "virtual_fs/data/a") /\
  allowCreate (mkMount (cstr "/data") (cstr "data") false true true) = true.
Proof.
  pose (mp := mkMount (cstr "/data") (cstr "data") false true true).
  split; [eexists; split; reflexivity|].
  assert (H : resolve default_policy (cstr "/data/a") Create =
    (mkTranslation true (cstr "/data/a") (cstr "virtual_fs/data/a") (Some mp), 0)) by reflexivity.
  exact (proj1 (proj2 (resolve_modify_writable _ _ _ _ _ H eq_refl)) eq_refl).
Defined.

End Properties.
