(* ===== verification/AddressSpace.v ===== *)
(** * Guest address space: the shared arena and its regions

    [isolation/SharedArena.cpp] (the reservation and its bounds checks) and
    [runtime/memory/AddressSpace.cpp] (the region list over it).  Addresses and
    sizes are 64-bit and every sum of the source is taken modulo [2^64].  The
    host calls of an operation ([munmap], [mprotect]) are returned with its
    result; the outcome of [mprotect] and of the reservation is an argument. *)
From stdpp Require Import sorting.
From S2P Require Import Prelude.

(** ** [SharedArena] *)
Module SharedArena.

Record t := mkArena { m_base : Z; m_size : Z; m_fd : Z }.
Definition empty : t := mkArena 0 0 (-1).

(** What the host answers to the calls of [init]: the memfd, whether
    [ftruncate] worked, and the address [mmap] returned ([None] on failure). *)
Record HostReply := mkReply { h_fd : Z; h_truncated : bool; h_mapped : option Z }.

Definition init (a : t) (r : HostReply) (base size : Z) : t * bool :=
  if negb (m_base a =? 0) then (a, true)
  else if h_fd r <? 0 then (mkArena (m_base a) (m_size a) (h_fd r), false)
  else if negb (h_truncated r) then (mkArena (m_base a) (m_size a) (-1), false)
  else match h_mapped r with
       | None => (mkArena (m_base a) (m_size a) (-1), false)
       | Some addr =>
           if negb (addr =? base) then (mkArena (m_base a) (m_size a) (-1), false)
           else (mkArena base size (h_fd r), true)
       end.

Definition destroy (a : t) : t :=
  let a1 := if m_base a =? 0 then a else mkArena 0 0 (m_fd a) in
  mkArena (m_base a1) (m_size a1) (if 0 <=? m_fd a1 then -1 else m_fd a1).

Definition contains (a : t) (addr len : Z) : bool :=
  if addr <? m_base a then false
  else
    let off := u64 (addr - m_base a) in
    if m_size a <? off then false
    else if u64 (m_size a - off) <? len then false
    else true.

(** A pointer is its address; [0] is the null pointer. *)
Definition hostPointer (a : t) (guestAddr : Z) : Z :=
  if contains a guestAddr 1 then guestAddr else 0.

(** The [mprotect] call it makes, if any, and its answer. *)
Definition protect (a : t) (mprotect_ok : Z -> Z -> Z -> bool) (addr len prot : Z)
  : option (Z * Z * Z) * bool :=
  if negb (contains a addr len) then (None, false)
  else (Some (addr, len, prot), mprotect_ok addr len prot).

End SharedArena.

(** ** [AddressSpace] *)
Module AddressSpace.

Definition Prot_None : Z := 0.
Definition Prot_Read : Z := Z.shiftl 1 0.
Definition Prot_Write : Z := Z.shiftl 1 1.
Definition Prot_Execute : Z := Z.shiftl 1 2.
Definition prot_or (a b : Z) : Z := Z.lor a b.
Definition hasProt (v f : Z) : bool := negb (Z.land v f =? 0).

(** The [PROT_*] bits of the host ([PROT_READ] = 1, [PROT_WRITE] = 2,
    [PROT_EXEC] = 4 on Linux). *)
Definition toHostProt (p : Z) : Z :=
  let r0 := 0 in
  let r1 := if hasProt p Prot_Read then Z.lor r0 1 else r0 in
  let r2 := if hasProt p Prot_Write then Z.lor r1 2 else r1 in
  if hasProt p Prot_Execute then Z.lor r2 4 else r2.

Definition kGuestBase : Z := 0x0000100000000000.
Definition kGuestSize : Z := 0x0000010000000000.
Definition kPageSize : Z := 0x1000.

Record MemoryRegion := mkRegion {
  base : Z;
  size : Z;
  prot : Z;
  hostPtr : Z;
  name : bytes
}.

#[export] Instance MemoryRegion_eq_dec : EqDecision MemoryRegion.
Proof. solve_decision. Defined.

Definition region_end (r : MemoryRegion) : Z := u64 (base r + size r).

Record t := mkSpace {
  m_base : Z;
  m_capacity : Z;
  m_nextHint : Z;
  m_regions : list MemoryRegion;
  m_arena : option SharedArena.t
}.

Inductive HostCall :=
  | Munmap (addr len : Z)
  | Mprotect (addr len hostprot : Z).

Definition initial : t := mkSpace 0 0 0 [] None.

Definition init (s : t) (r : SharedArena.HostReply) : t * bool :=
  if negb (m_base s =? 0) then (s, true)
  else
    match SharedArena.init SharedArena.empty r kGuestBase kGuestSize with
    | (_, false) => (mkSpace (m_base s) (m_capacity s) (m_nextHint s) (m_regions s) None, false)
    | (a, true) =>
        (mkSpace kGuestBase kGuestSize (u64 (kGuestBase + 0x10000)) (m_regions s) (Some a), true)
    end.

Definition destroy (s : t) : t := mkSpace 0 0 0 [] None.

Definition clashes (size hint : Z) (r : MemoryRegion) : bool :=
  negb ((u64 (hint + size) <=? base r) || (region_end r <=? hint)).

(** First fit over the sorted regions, starting from [cur]. *)
Fixpoint gap_scan (size cur : Z) (sorted : list MemoryRegion) : Z + Z :=
  match sorted with
  | [] => inr cur
  | r :: rest =>
      if u64 (cur + size) <=? base r then inl cur
      else gap_scan size (Z.max cur (region_end r)) rest
  end.

Definition by_base (a b : MemoryRegion) : Prop := base a <= base b.
#[export] Instance by_base_dec : RelDecision by_base.
Proof. intros a b. unfold by_base. apply _. Defined.

Definition hint_usable (s : t) (size hint : Z) : bool :=
  negb (hint =? 0) && (m_base s <=? hint)
  && (u64 (hint + size) <=? u64 (m_base s + m_capacity s))
  && negb (existsb (clashes size hint) (m_regions s)).

Definition findFreeGap (s : t) (size hint : Z) : Z :=
  if hint_usable s size hint then hint
  else
    match gap_scan size (m_nextHint s) (merge_sort by_base (m_regions s)) with
    | inl cur => cur
    | inr cur =>
        if u64 (cur + size) <=? u64 (m_base s + m_capacity s) then cur else 0
    end.

Definition map (s : t) (hint size0 prot0 : Z) (name0 : bytes) : t * Z :=
  match m_arena s with
  | None => (s, 0)
  | Some arena =>
      if m_base s =? 0 then (s, 0)
      else
        let size := align_up size0 kPageSize in
        let where_ := findFreeGap s size hint in
        if where_ =? 0 then (s, 0)
        else
          let region := mkRegion where_ size prot0 (SharedArena.hostPointer arena where_) name0 in
          let hint' := if where_ =? m_nextHint s then u64 (where_ + size) else m_nextHint s in
          (mkSpace (m_base s) (m_capacity s) hint' (m_regions s ++ [region]) (m_arena s), where_)
  end.

(** Erase the first region that starts at [addr]. *)
Fixpoint erase_first (addr : Z) (rs : list MemoryRegion) : option (MemoryRegion * list MemoryRegion) :=
  match rs with
  | [] => None
  | r :: rest =>
      if base r =? addr then Some (r, rest)
      else '(x, rest') ← erase_first addr rest; Some (x, r :: rest')
  end.

Definition unmap (s : t) (addr size0 : Z) : t * bool * list HostCall :=
  match erase_first addr (m_regions s) with
  | None => (s, false, [])
  | Some (r, rest) =>
      (mkSpace (m_base s) (m_capacity s) (m_nextHint s) rest (m_arena s), true,
       [Munmap (base r) (size r)])
  end.

Definition in_region (addr : Z) (r : MemoryRegion) : bool :=
  (base r <=? addr) && (addr <? region_end r).

(** The first region that holds [addr], and the list with its protection
    replaced. *)
Fixpoint reprotect (addr prot0 : Z) (rs : list MemoryRegion)
    : option (MemoryRegion * list MemoryRegion) :=
  match rs with
  | [] => None
  | r :: rest =>
      if in_region addr r
      then Some (r, mkRegion (base r) (size r) prot0 (hostPtr r) (name r) :: rest)
      else '(x, rest') ← reprotect addr prot0 rest; Some (x, r :: rest')
  end.

Definition protect (s : t) (mprotect_ok : Z -> Z -> Z -> bool) (addr size0 prot0 : Z)
    : t * bool * list HostCall :=
  match reprotect addr prot0 (m_regions s) with
  | None => (s, false, [])
  | Some (r, rs) =>
      let call := Mprotect (base r) (size r) (toHostProt prot0) in
      if mprotect_ok (base r) (size r) (toHostProt prot0)
      then (mkSpace (m_base s) (m_capacity s) (m_nextHint s) rs (m_arena s), true, [call])
      else (s, false, [call])
  end.

Definition find (s : t) (addr : Z) : option MemoryRegion :=
  snd <$> list_find (fun r => in_region addr r = true) (m_regions s).

(** [0] is the null pointer. *)
Definition hostPointer (s : t) (addr : Z) : Z :=
  match find s addr with Some _ => addr | None => 0 end.

(** ** Well-formedness *)

Definition disjoint (a b : MemoryRegion) : Prop :=
  base a + size a <= base b \/ base b + size b <= base a.

Definition inside (s : t) (r : MemoryRegion) : Prop :=
  m_base s <= base r /\ 0 <= size r /\ size r mod kPageSize = 0 /\
  base r + size r <= m_base s + m_capacity s.

Record wf (s : t) : Prop := mkWf {
  wf_base : 0 < m_base s;
  wf_cap : 0 <= m_capacity s;
  wf_top : m_base s + m_capacity s < 2 ^ 63;
  wf_hint : m_base s <= m_nextHint s;
  wf_hint_top : m_nextHint s <= m_base s + m_capacity s;
  wf_inside : Forall (inside s) (m_regions s);
  wf_disjoint : ForallOrdPairs disjoint (m_regions s)
}.

(** The half of the 64-bit range in which no sum of the code wraps. *)
Definition small (x : Z) : Prop := 0 <= x <= 2 ^ 62.

(** The page-rounded request lies clear of every region. *)
Definition free_range (s : t) (addr len : Z) : Prop :=
  m_base s <= addr /\ addr + len <= m_base s + m_capacity s /\
  Forall (fun r => addr + len <= base r \/ base r + size r <= addr) (m_regions s).

End AddressSpace.

(** ** Lemmas *)
Section Lemmas.
Import AddressSpace.

Lemma u64_small x : 0 <= x < 2 ^ 64 -> u64 x = x.
Proof. intros. by apply wrap_id. Qed.

Lemma align_up_page x :
  small x -> 0 <= align_up x kPageSize /\ x <= align_up x kPageSize < x + kPageSize /\
  align_up x kPageSize mod kPageSize = 0.
Proof.
  unfold small. intros Hx. change kPageSize with (2 ^ 12).
  pose proof (align_up_spec x 12). unfold two64 in *. lia.
Qed.

Lemma region_end_inside s r :
  wf s -> inside s r -> region_end r = base r + size r.
Proof.
  intros [? ? ? _ _ _ _] (? & ? & ? & ?). unfold region_end. apply u64_small. lia.
Qed.

(** The scan: everything skipped ends at or before the answer, and an answer
    given early also fits before every remaining region. *)
Lemma gap_scan_spec s sz rs cur :
  wf s -> 0 <= sz <= 2 ^ 62 + 2 ^ 12 -> StronglySorted by_base rs -> Forall (inside s) rs ->
  m_base s <= cur <= m_base s + m_capacity s ->
  match gap_scan sz cur rs with
  | inl w => cur <= w /\ w + sz <= m_base s + m_capacity s /\
      Forall (fun r => w + sz <= base r \/ base r + size r <= w) rs
  | inr w => cur <= w <= m_base s + m_capacity s /\
      Forall (fun r => w + sz <= base r \/ base r + size r <= w) rs
  end.
Proof.
  intros Hwf Hsz. pose proof (wf_top _ Hwf). pose proof (wf_base _ Hwf).
  revert cur. induction rs as [|r rs IH]; intros cur Hs Hin Hcur; simpl.
  { split; [lia|constructor]. }
  apply StronglySorted_inv in Hs as [Hs Hall]. apply Forall_cons in Hin as [Hr Hin].
  pose proof (region_end_inside _ _ Hwf Hr) as He. destruct Hr as (? & ? & ? & ?).
  rewrite (u64_small (cur + sz)) by lia.
  destruct (cur + sz <=? base r) eqn:E.
  - split; [lia|]. split; [lia|]. constructor; [left; lia|].
    eapply Forall_impl; [exact Hall|]. unfold by_base. intros r' ?. left. lia.
  - rewrite He. specialize (IH (Z.max cur (base r + size r)) Hs Hin).
    destruct (gap_scan _ _ _) as [w|w]; destruct IH as (? & IH); try lia.
    + destruct IH. split; [lia|]. split; [lia|]. constructor; [right; lia|done].
    + split; [lia|]. constructor; [right; lia|done].
Qed.

Lemma by_base_total : Total by_base.
Proof. intros a b. unfold by_base. lia. Qed.

Lemma sorted_regions s :
  StronglySorted by_base (merge_sort by_base (m_regions s)).
Proof.
  apply StronglySorted_merge_sort; [|apply by_base_total].
  intros a b c. unfold by_base. lia.
Qed.

Lemma Forall_sorted s (P : MemoryRegion -> Prop) :
  Forall P (merge_sort by_base (m_regions s)) <-> Forall P (m_regions s).
Proof. by rewrite merge_sort_Permutation. Qed.

Lemma hint_usable_free s sz hint :
  wf s -> 0 <= sz <= 2 ^ 62 + 2 ^ 12 -> small hint -> hint_usable s sz hint = true ->
  free_range s hint sz.
Proof.
  intros Hwf Hsz Hh. unfold hint_usable, small in *.
  rewrite !andb_true_iff, !negb_true_iff. intros [[[? ?] H1] H2].
  pose proof (wf_top _ Hwf). pose proof (wf_base _ Hwf). pose proof (wf_cap _ Hwf).
  rewrite !u64_small in H1 by lia.
  split; [lia|]. split; [lia|]. apply Forall_forall. intros r Hr.
  pose proof (proj1 (Forall_forall _ _) (wf_inside _ Hwf) _ Hr) as Hi.
  pose proof (region_end_inside _ _ Hwf Hi) as He.
  destruct (clashes sz hint r) eqn:Ec.
  - exfalso. assert (existsb (clashes sz hint) (m_regions s) = true); [|congruence].
    apply existsb_exists. exists r. by rewrite <- list_elem_of_In.
  - unfold clashes in Ec. rewrite He, u64_small in Ec by lia. lia.
Qed.

Lemma findFreeGap_free s sz hint :
  wf s -> 0 <= sz <= 2 ^ 62 + 2 ^ 12 -> small hint -> findFreeGap s sz hint <> 0 ->
  free_range s (findFreeGap s sz hint) sz.
Proof.
  intros Hwf Hsz Hh. unfold findFreeGap.
  destruct (hint_usable _ _ _) eqn:Eh; [by auto using hint_usable_free|].
  pose proof (wf_top _ Hwf). pose proof (wf_base _ Hwf). pose proof (wf_cap _ Hwf).
  pose proof (wf_hint _ Hwf). pose proof (wf_hint_top _ Hwf).
  pose proof (gap_scan_spec s sz (merge_sort by_base (m_regions s)) (m_nextHint s) Hwf Hsz
    (sorted_regions s) (proj2 (Forall_sorted s _) (wf_inside _ Hwf))) as H4.
  destruct (gap_scan _ _ _) as [w|w]; destruct H4 as (H5 & H6); try lia.
  - intros _. destruct H6 as [H6 H7]. split; [lia|]. split; [lia|]. by apply Forall_sorted.
  - rewrite !u64_small by lia. destruct (_ <=? _) eqn:E; [|done]. intros _.
    split; [lia|]. split; [lia|]. by apply Forall_sorted.
Qed.

Lemma ForallOrdPairs_snoc {A} (R : A -> A -> Prop) l x :
  ForallOrdPairs R l -> Forall (fun y => R y x) l -> ForallOrdPairs R (l ++ [x]).
Proof.
  induction 1 as [|y l Hy Hl IH]; intros Hx; simpl.
  - repeat constructor.
  - apply Forall_cons in Hx as [Hx1 Hx2]. constructor; [|by apply IH].
    apply Forall_app. split; [done|]. by constructor.
Qed.

Lemma erase_first_spec addr rs r rest :
  erase_first addr rs = Some (r, rest) ->
  exists l1 l2, rs = l1 ++ r :: l2 /\ rest = l1 ++ l2 /\ base r = addr /\
    Forall (fun x => base x <> addr) l1.
Proof.
  revert rest. induction rs as [|x rs IH]; intros rest H; simplify_eq/=.
  destruct (base x =? addr) eqn:E.
  - injection H as <- <-. exists [], rs. split_and!; try done. lia.
  - destruct (erase_first addr rs) as [[y rest']|]; simplify_eq/=.
    destruct (IH rest' eq_refl) as (l1 & l2 & -> & -> & ? & ?).
    exists (x :: l1), l2. split_and!; try done. constructor; [lia|done].
Qed.

Lemma reprotect_spec addr p rs r rs' :
  reprotect addr p rs = Some (r, rs') ->
  exists l1 l2, rs = l1 ++ r :: l2 /\
    rs' = l1 ++ mkRegion (base r) (size r) p (hostPtr r) (name r) :: l2 /\
    in_region addr r = true /\ Forall (fun x => in_region addr x = false) l1.
Proof.
  revert rs'. induction rs as [|x rs IH]; intros rs' H; simplify_eq/=.
  destruct (in_region addr x) eqn:E.
  - injection H as <- <-. by exists [], rs.
  - destruct (reprotect addr p rs) as [[y rest']|]; simplify_eq/=.
    destruct (IH rest' eq_refl) as (l1 & l2 & -> & -> & ? & ?).
    exists (x :: l1), l2. split_and!; try done. by constructor.
Qed.

Lemma ForallOrdPairs_erase {A} (R : A -> A -> Prop) l1 x l2 :
  ForallOrdPairs R (l1 ++ x :: l2) -> ForallOrdPairs R (l1 ++ l2).
Proof.
  induction l1 as [|y l1 IH]; simpl; intros H; inversion H as [|? ? Hy Hl]; subst; [done|].
  constructor; [|by apply IH].
  apply Forall_app in Hy as [? [_ ?]%Forall_cons]. by apply Forall_app.
Qed.

Lemma ForallOrdPairs_replace {A} (R : A -> A -> Prop) l1 x y l2 :
  (forall z, R z x -> R z y) -> (forall z, R x z -> R y z) ->
  ForallOrdPairs R (l1 ++ x :: l2) -> ForallOrdPairs R (l1 ++ y :: l2).
Proof.
  intros H1 H2. induction l1 as [|z l1 IH]; simpl; intros H; inversion H as [|? ? Hz Hl]; subst.
  - constructor; [|done]. eapply Forall_impl; [exact Hz|]. apply H2.
  - constructor; [|by apply IH].
    apply Forall_app in Hz as [? [? ?]%Forall_cons]. apply Forall_app. split; [done|].
    constructor; [by apply H1|done].
Qed.

(** A region list is well-formed as soon as its footprint is. *)
Lemma wf_regions s rs :
  wf s -> Forall (inside s) rs -> ForallOrdPairs disjoint rs ->
  wf (mkSpace (m_base s) (m_capacity s) (m_nextHint s) rs (m_arena s)).
Proof. intros [] ? ?. by constructor. Qed.

Lemma unmap_wf s addr len : wf s -> wf (fst (fst (unmap s addr len))).
Proof.
  intros Hwf. unfold unmap.
  destruct (erase_first _ _) as [[r rest]|] eqn:E; [|done]. simpl.
  destruct (erase_first_spec _ _ _ _ E) as (l1 & l2 & Hl & -> & _).
  pose proof (wf_inside _ Hwf) as Hi. pose proof (wf_disjoint _ Hwf) as Hd. rewrite Hl in Hi, Hd.
  apply wf_regions; [done| |by eapply ForallOrdPairs_erase].
  apply Forall_app in Hi as [? [_ ?]%Forall_cons]. by apply Forall_app.
Qed.

Lemma protect_wf s ok addr len p : wf s -> wf (fst (fst (protect s ok addr len p))).
Proof.
  intros Hwf. unfold protect.
  destruct (reprotect _ _ _) as [[r rs]|] eqn:E; [|done].
  destruct (ok _ _ _); [|done]. simpl.
  destruct (reprotect_spec _ _ _ _ _ E) as (l1 & l2 & Hl & -> & _).
  pose proof (wf_inside _ Hwf) as Hi. pose proof (wf_disjoint _ Hwf) as Hd. rewrite Hl in Hi, Hd.
  apply wf_regions; [done| |eapply ForallOrdPairs_replace; [..|exact Hd]; by unfold disjoint].
  apply Forall_app in Hi as [? [? ?]%Forall_cons]. by apply Forall_app; split; [|constructor].
Qed.

Lemma map_wf s hint len p nm :
  wf s -> small len -> small hint -> wf (fst (map s hint len p nm)).
Proof.
  intros Hwf Hl Hh. unfold map. destruct (m_arena s) as [ar|] eqn:Ea; [|done].
  destruct (m_base s =? 0); [done|]. destruct (_ =? 0) eqn:Ew; [done|]. simpl.
  destruct (align_up_page len Hl) as (H0 & H1 & H2).
  set (sz := align_up len kPageSize) in *. unfold small, kPageSize in *.
  destruct (findFreeGap_free s sz hint Hwf) as (F1 & F2 & F3);
    [lia|done|by apply Z.eqb_neq|].
  set (w := findFreeGap s sz hint) in *.
  destruct Hwf as [W1 W2 W3 W4 W5 W6 W7]. constructor; simpl; try done.
  - rewrite u64_small by lia. destruct (w =? m_nextHint s); lia.
  - rewrite u64_small by lia. destruct (w =? m_nextHint s); lia.
  - apply Forall_app. split; [done|]. constructor; [|done]. by split_and!.
  - apply ForallOrdPairs_snoc; [done|]. eapply Forall_impl; [exact F3|].
    unfold disjoint. simpl. intros r ?. lia.
Qed.

End Lemmas.

(** ** Reachable states *)
Module Reachable.
Import AddressSpace.

(** A session: a successful [init], then any sequence of [map], [unmap] and
    [protect] calls whose hint and length do not reach [2^62]. *)
Inductive reachable : t -> Prop :=
| r_init r s : init initial r = (s, true) -> reachable s
| r_map s hint len p nm : reachable s -> small hint -> small len ->
    reachable (fst (map s hint len p nm))
| r_unmap s addr len : reachable s -> reachable (fst (fst (unmap s addr len)))
| r_protect s ok addr len p : reachable s -> reachable (fst (fst (protect s ok addr len p))).

End Reachable.

(** ** Properties *)
Section Properties.
Import AddressSpace Reachable.

Lemma init_wf r s : init initial r = (s, true) -> wf s.
Proof.
  unfold init, SharedArena.init. simpl.
  repeat case_match; intros; simplify_eq; constructor; simpl; try done; constructor.
Qed.

Lemma addr_reachable_inv s : reachable s -> wf s.
Proof.
  induction 1; eauto using init_wf, map_wf, unmap_wf, protect_wf.
Qed.

(** The arena of a reachable address space is the one of [init]. *)
Lemma reachable_arena s : reachable s -> m_base s = kGuestBase /\ m_capacity s = kGuestSize.
Proof.
  induction 1 as [r s H|s hint len p nm _ IH|s addr len _ IH|s ok addr len p _ IH].
  - unfold init, SharedArena.init in H. simpl in H. repeat case_match; by simplify_eq.
  - unfold map. repeat case_match; simpl; done.
  - unfold unmap. repeat case_match; simpl; done.
  - unfold protect. repeat case_match; simpl; done.
Qed.

(** C9: in every reachable state the regions lie inside the arena, have
    page-multiple sizes and are pairwise disjoint. *)
Theorem reachable_wf s : reachable s -> wf s.
Proof. apply addr_reachable_inv. Qed.

Lemma reachable_wf_witness :
  exists s w, reachable s /\ w = kGuestBase + 0x10000 /\
    find s w = Some (mkRegion w 0x2000 3 w (cstr "heap")) /\ wf s.
Proof.
  pose (s0 := fst (init initial (SharedArena.mkReply 5 true (Some kGuestBase)))).
  assert (R0 : reachable s0)
    by (apply (r_init (SharedArena.mkReply 5 true (Some kGuestBase))); reflexivity).
  assert (R1 : reachable (fst (map s0 0 0x1001 3 (cstr "heap"))))
    by (apply r_map; [exact R0|unfold small; lia..]).
  eexists _, _. split_and!; [exact R1|reflexivity|vm_compute; reflexivity|].
  exact (reachable_wf _ R1).
Defined.

Lemma map_result s hint len p nm s' w :
  reachable s -> small hint -> small len -> map s hint len p nm = (s', w) ->
  (w = 0 /\ s' = s) \/
  (w <> 0 /\ free_range s w (align_up len kPageSize) /\
   exists hp, m_regions s' = m_regions s ++ [mkRegion w (align_up len kPageSize) p hp nm]).
Proof.
  intros Hr%addr_reachable_inv Hh Hl. unfold map.
  destruct (m_arena s) as [ar|]; [|intros; simplify_eq; by left].
  destruct (m_base s =? 0); [intros; simplify_eq; by left|].
  destruct (_ =? 0) eqn:Ew; intros; simplify_eq; [by left|right].
  split; [lia|]. split; [|by eexists].
  destruct (align_up_page len Hl) as (? & ? & ?). unfold small, kPageSize in *.
  apply findFreeGap_free; unfold small, kPageSize; lia || done.
Qed.

(** [map] reserves memory nobody else has: when it answers an address, the
    page-rounded range was inside the arena and clear of every region, exactly
    one region is appended for it and the others are untouched; when it answers
    0, nothing changes. *)
Theorem map_allocates s hint len p nm s' w :
  reachable s -> small hint -> small len -> map s hint len p nm = (s', w) ->
  (w = 0 /\ s' = s) \/
  (w <> 0 /\ free_range s w (align_up len kPageSize) /\
   exists hp, m_regions s' = m_regions s ++ [mkRegion w (align_up len kPageSize) p hp nm]).
Proof. apply map_result. Qed.

Lemma map_allocates_witness :
  exists s' w, w <> 0 /\ free_range (fst (init initial (SharedArena.mkReply 5 true (Some kGuestBase)))) w 0x1000 /\
    length (m_regions s') = 1%nat.
Proof.
  pose (s0 := fst (init initial (SharedArena.mkReply 5 true (Some kGuestBase)))).
  assert (R0 : reachable s0)
    by (apply (r_init (SharedArena.mkReply 5 true (Some kGuestBase))); reflexivity).
  assert (S0 : small 0) by (unfold small; lia). assert (S1 : small 1) by (unfold small; lia).
  destruct (map_allocates s0 0 1 1 [] _ _ R0 S0 S1 (surjective_pairing _)) as [[H _]|(H1 & H2 & hp & H3)].
  - exfalso. vm_compute in H. discriminate.
  - do 2 eexists. split; [exact H1|]. split; [exact H2|]. rewrite H3. reflexivity.
Defined.

(** The region [map] returns is found at each of its addresses, and
    unmapping its base removes that region only, restoring the region list. *)
Theorem map_find_unmap s hint len p nm s' w :
  reachable s -> small hint -> small len -> 0 < len ->
  map s hint len p nm = (s', w) -> w <> 0 ->
  Forall (fun r => 0 < size r) (m_regions s) ->
  (forall a, w <= a < w + align_up len kPageSize ->
     base <$> find s' a = Some w) /\
  m_regions (fst (fst (unmap s' w len))) = m_regions s.
Proof.
  intros Hr Hh Hl Hlen Hm Hw Hpos. pose proof Hr as Hwf%addr_reachable_inv.
  assert (Hwf' : wf s').
  { replace s' with (fst (map s hint len p nm)) by (by rewrite Hm). by apply map_wf. }
  destruct (map_result _ _ _ _ _ _ _ Hr Hh Hl Hm) as [[? _]|(_ & Hf & hp & Hrs)]; [done|].
  destruct Hf as (F1 & F2 & F3). set (sz := align_up len kPageSize) in *.
  pose proof (wf_inside _ Hwf') as Hin. rewrite Hrs in Hin.
  apply Forall_app in Hin as [Hin [Hnew _]%Forall_cons].
  pose proof (region_end_inside _ _ Hwf' Hnew) as Hend. simpl in Hend. split.
  - intros a Ha. unfold find. rewrite Hrs.
    assert (list_find (fun r => in_region a r = true) (m_regions s) = None) as Hnone.
    { apply list_find_None. rewrite !Forall_forall in *. intros r Hr'.
      unfold in_region. rewrite (region_end_inside s' r Hwf') by (by apply Hin).
      specialize (F3 _ Hr'). lia. }
    rewrite (list_find_app_r _ _ _ Hnone). simpl.
    rewrite decide_True; [done|]. unfold in_region. rewrite Hend. simpl. lia.
  - unfold unmap. rewrite Hrs.
    assert (forall rs x, Forall (fun r => base r <> base x) rs ->
      erase_first (base x) (rs ++ [x]) = Some (x, rs)) as He.
    { induction rs as [|r rs IH]; intros x Hx; simpl.
      - by rewrite Z.eqb_refl.
      - apply Forall_cons in Hx as [? ?]. destruct (_ =? _) eqn:E; [lia|]. by rewrite IH. }
    specialize (He (m_regions s) (mkRegion w sz p hp nm)). simpl in He. rewrite He; [done|].
    rewrite !Forall_forall in *. intros r Hr'. specialize (F3 _ Hr'). specialize (Hpos _ Hr').
    simpl in *. destruct (align_up_page len Hl) as (? & ? & _). fold sz in H, H0. lia.
Qed.

Lemma map_find_unmap_witness :
  let s0 := fst (init initial (SharedArena.mkReply 5 true (Some kGuestBase))) in
  let s1 := fst (map s0 0 0x1800 3 (cstr "stack")) in
  base <$> find s1 (kGuestBase + 0x11fff) = Some (kGuestBase + 0x10000) /\
  m_regions (fst (fst (unmap s1 (kGuestBase + 0x10000) 0x1800))) = [].
Proof.
  intros s0 s1.
  assert (R0 : reachable s0)
    by (apply (r_init (SharedArena.mkReply 5 true (Some kGuestBase))); reflexivity).
  assert (S0 : small 0) by (unfold small; lia). assert (S1 : small 0x1800) by (unfold small; lia).
  assert (M : map s0 0 0x1800 3 (cstr "stack") = (s1, kGuestBase + 0x10000))
    by (vm_compute; reflexivity).
  destruct (map_find_unmap s0 0 0x1800 3 (cstr "stack") s1 _ R0 S0 S1 ltac:(lia) M
    ltac:(discriminate) ltac:(constructor)) as [H1 H2].
  split; [|exact H2]. apply H1.
  replace (align_up 0x1800 kPageSize) with 0x2000 by reflexivity. unfold kGuestBase. lia.
Defined.

(** Without a usable hint the allocator never goes back: the address it
    answers is at or above [m_nextHint], and [m_nextHint] never decreases, so
    space freed below it is only ever reused through an explicit hint. *)
Theorem map_hintless_monotone s len p nm :
  reachable s -> small len ->
  let '(s', w) := map s 0 len p nm in
  (w = 0 \/ m_nextHint s <= w) /\ m_nextHint s <= m_nextHint s'.
Proof.
  intros Hwf%addr_reachable_inv Hl. unfold map.
  destruct (m_arena s) as [ar|]; [|split; [by left|done]].
  destruct (m_base s =? 0); [split; [by left|done]|].
  destruct (align_up_page len Hl) as (H0 & H1 & _).
  unfold small, kPageSize in *. set (sz := align_up len 4096) in *.
  assert (Hge : findFreeGap s sz 0 = 0 \/
    (m_nextHint s <= findFreeGap s sz 0 /\ findFreeGap s sz 0 + sz < 2 ^ 64)).
  { unfold findFreeGap, hint_usable. simpl.
    pose proof (wf_top _ Hwf). pose proof (wf_hint _ Hwf). pose proof (wf_hint_top _ Hwf).
    pose proof (wf_base _ Hwf).
    pose proof (gap_scan_spec s sz (merge_sort by_base (m_regions s)) (m_nextHint s) Hwf
      ltac:(lia) (sorted_regions s) (proj2 (Forall_sorted s _) (wf_inside _ Hwf)) ltac:(lia)) as Hs.
    destruct (gap_scan _ _ _) as [w|w]; [right; lia|].
    destruct (_ <=? _); [right; lia|by left]. }
  pose proof (wf_base _ Hwf). pose proof (wf_hint _ Hwf).
  destruct (findFreeGap s sz 0 =? 0) eqn:E; simpl; [split; [by left|lia]|].
  split; [lia|]. destruct (_ =? m_nextHint s) eqn:E2; [|lia].
  rewrite u64_small; lia.
Qed.

Lemma map_hintless_monotone_witness :
  let s0 := fst (init initial (SharedArena.mkReply 5 true (Some kGuestBase))) in
  let '(s1, w) := map s0 0 0x1000 3 [] in
  (w = 0 \/ m_nextHint s0 <= w) /\ m_nextHint s0 <= m_nextHint s1.
Proof.
  intros s0. apply (map_hintless_monotone s0 0x1000 3 []).
  - apply (r_init (SharedArena.mkReply 5 true (Some kGuestBase))). reflexivity.
  - unfold small. lia.
Defined.

(** The bound on lengths is needed.  On a freshly initialised space a
    request of [2^64 - kGuestBase] bytes is granted: the 64-bit sum in the
    final bounds check wraps, and the recorded region ends outside the arena
    (its length alone exceeds the 1 TiB capacity).  A hint near [2^64] wraps
    the same way and is answered although it is outside the arena. *)
Theorem map_wraps :
  let s0 := fst (init initial (SharedArena.mkReply 5 true (Some kGuestBase))) in
  (exists s' w r, map s0 0 (2 ^ 64 - kGuestBase) 3 [] = (s', w) /\ w <> 0 /\
     m_regions s' = [r] /\ kGuestSize < size r) /\
  (exists s' w, map s0 (2 ^ 64 - 0x1000) 0x1000 3 [] = (s', w) /\ w <> 0 /\
     m_base s0 + m_capacity s0 < w).
Proof.
  intros s0. split.
  - do 3 eexists. split; [vm_compute; reflexivity|]. by split_and!; vm_compute.
  - do 2 eexists. split; [vm_compute; reflexivity|]. by split; vm_compute.
Qed.

(** [protect] changes the protection of exactly one region, the first that
    holds the address, over its whole extent whatever length was asked for;
    when the host refuses or no region holds the address, nothing changes and
    the answer is false. *)
Theorem protect_whole_region s ok addr len p :
  match protect s ok addr len p with
  | (s', true, calls) => exists l1 r l2,
      m_regions s = l1 ++ r :: l2 /\ in_region addr r = true /\
      m_regions s' = l1 ++ mkRegion (base r) (size r) p (hostPtr r) (name r) :: l2 /\
      calls = [Mprotect (base r) (size r) (toHostProt p)]
  | (s', false, calls) => s' = s
  end.
Proof.
  unfold protect. destruct (reprotect _ _ _) as [[r rs]|] eqn:E; [|done].
  destruct (ok _ _ _); [|done].
  destruct (reprotect_spec _ _ _ _ _ E) as (l1 & l2 & ? & ? & ? & _). by exists l1, r, l2.
Qed.

(** The arena's own bounds check is exact and free of wrap-around. *)
Theorem contains_exact a addr len :
  in_width 64 (SharedArena.m_base a) -> in_width 64 (SharedArena.m_size a) ->
  SharedArena.m_base a + SharedArena.m_size a <= two64 ->
  in_width 64 addr -> in_width 64 len ->
  SharedArena.contains a addr len = true <->
  SharedArena.m_base a <= addr /\
  addr + len <= SharedArena.m_base a + SharedArena.m_size a.
Proof.
  unfold SharedArena.contains, in_width, two64. intros.
  destruct (addr <? _) eqn:E1; [lia|].
  rewrite (u64_small (addr - _)) by lia.
  destruct (_ <? addr - _) eqn:E2; [lia|].
  rewrite u64_small by lia. destruct (_ <? len) eqn:E3; lia.
Qed.

Lemma contains_exact_witness :
  let a := SharedArena.mkArena kGuestBase kGuestSize 5 in
  SharedArena.contains a (kGuestBase + 8) 16 = true /\
  SharedArena.m_base a <= kGuestBase + 8 /\
  kGuestBase + 8 + 16 <= SharedArena.m_base a + SharedArena.m_size a.
Proof.
  intros a. assert (H : SharedArena.contains a (kGuestBase + 8) 16 = true) by reflexivity.
  split; [exact H|].
  apply (contains_exact a (kGuestBase + 8) 16); try exact H;
    unfold in_width, two64, a, SharedArena.m_base, SharedArena.m_size, kGuestBase, kGuestSize; lia.
Defined.

End Properties.
