(* ===== verification/Handles.v ===== *)
(** * Handle objects and the per-process handle table

    [runtime/handles/]: the objects a PS4 handle can denote, the access-mode
    tests of a file, the event object, and [HandleTable].  A host descriptor is
    closed by the destructor of its object, when the last reference goes; the
    table owns that reference here, so [close] reports the object it drops. *)
From S2P Require Import Prelude FreeBsd.

(** ** [HandleObject] and its subclasses

    An object whose state changes through the handle (an event, a semaphore)
    is denoted by its identity; the component that owns the kind keeps the
    state.  The last four kinds are those that the kernel, pad and audio libraries add. *)
Inductive HandleObject :=
  | FileHandle (hostFd : Z) (guestPath hostPath : bytes) (openFlags : Z)
  | DirectoryHandle (hostFd : Z) (guestPath hostPath : bytes)
  | EventObject (id : Z)
  | SocketHandle (hostFd domain type_ protocol : Z)
  | KernelSemaObject (id : Z)
  | ThreadHandleObj (tid : Z)
  | PadHandleObj (index : Z)
  | PortHandleObj (portId : Z).

#[export] Instance HandleObject_eq_dec : EqDecision HandleObject.
Proof. solve_decision. Defined.

Inductive HandleType :=
  T_Unknown | T_File | T_Directory | T_Socket | T_Event | T_Semaphore | T_Mutex
  | T_Thread | T_Process | T_SharedMemory | T_Device.

Definition type_of (h : HandleObject) : HandleType :=
  match h with
  | FileHandle _ _ _ _ => T_File
  | DirectoryHandle _ _ _ => T_Directory
  | EventObject _ => T_Event
  | SocketHandle _ _ _ _ => T_Socket
  | KernelSemaObject _ => T_Semaphore
  | ThreadHandleObj _ => T_Thread
  | PadHandleObj _ | PortHandleObj _ => T_Device
  end.

(** [FileHandle::isReadable] and [isWritable]. *)
Definition isReadable (openFlags : Z) : bool :=
  let m := Z.land openFlags kO_AccMode in (m =? kO_RdOnly) || (m =? kO_RdWr).
Definition isWritable (openFlags : Z) : bool :=
  let m := Z.land openFlags kO_AccMode in (m =? kO_WrOnly) || (m =? kO_RdWr).

(** The descriptor the destructor closes, if any. *)
Definition owned_fd (h : HandleObject) : option Z :=
  match h with
  | FileHandle fd _ _ _ | DirectoryHandle fd _ _ | SocketHandle fd _ _ _ =>
      if 0 <=? fd then Some fd else None
  | EventObject _ | KernelSemaObject _ | ThreadHandleObj _ | PadHandleObj _ | PortHandleObj _ => None
  end.

(** ** [EventHandle] *)
Module EventHandle.

Record t := mkEvent { m_signaled : Z; m_hasAny : bool }.
Definition initial : t := mkEvent 0 false.

Definition bit (ident : Z) : Z := Z.shiftl 1 (Z.land ident 63).

Definition signal (e : t) (ident : Z) : t :=
  mkEvent (Z.lor (m_signaled e) (bit ident)) true.

(** The predicate [wait] blocks on. *)
Definition wait_pred (e : t) (ident : Z) : bool :=
  m_hasAny e && negb (Z.land (m_signaled e) (bit ident) =? 0).

Definition clear (e : t) (ident : Z) : t :=
  let s := Z.ldiff (m_signaled e) (bit ident) in
  mkEvent s (if s =? 0 then false else m_hasAny e).

End EventHandle.

(** ** [HandleTable] *)
Module HandleTable.

Definition kInvalidHandle : Z := -1.

(** [m_next] is an [int32_t]. Its increment past [2^31 - 1] is undefined in
    C++; it is written here with the wrap-around of the machine addition
    that a compiler emits, and the theorems that need the counter to grow
    stay under that bound. *)
Record t := mkTable { m_next : Z; m_objects : gmap Z HandleObject }.
Definition initial : t := mkTable 3 ∅.

(** [emplace] keeps an existing entry. *)
Definition emplace (h : Z) (o : HandleObject) (m : gmap Z HandleObject) : gmap Z HandleObject :=
  match m !! h with Some _ => m | None => <[h := o]> m end.

Definition registerObject (s : t) (obj : option HandleObject) : t * Z :=
  match obj with
  | None => (s, kInvalidHandle)
  | Some o =>
      let h := m_next s in
      (mkTable (i32 (h + 1)) (emplace h o (m_objects s)), h)
  end.

Definition get (s : t) (h : Z) : option HandleObject := m_objects s !! h.

(** The object dropped is returned with the answer. *)
Definition close (s : t) (h : Z) : t * bool * option HandleObject :=
  match m_objects s !! h with
  | None => (s, false, None)
  | Some o => (mkTable (m_next s) (delete h (m_objects s)), true, Some o)
  end.

Definition closeAll (s : t) : t := mkTable 3 ∅.

Definition snapshot (s : t) : list (Z * HandleObject) := map_to_list (m_objects s).
Definition table_size (s : t) : nat := size (m_objects s).

(** Every live handle was issued. *)
Definition wf (s : t) : Prop :=
  3 <= m_next s /\ forall h o, m_objects s !! h = Some o -> 3 <= h < m_next s.

(** A client session: what is registered and closed, and the handles issued. *)
Inductive op := Register (o : HandleObject) | Close (h : Z).

Fixpoint session (s : t) (ops : list op) : t * list Z :=
  match ops with
  | [] => (s, [])
  | Register o :: rest =>
      let '(s1, h) := registerObject s (Some o) in
      let '(s2, hs) := session s1 rest in (s2, h :: hs)
  | Close h :: rest => session (fst (fst (close s h))) rest
  end.

End HandleTable.

(** ** Lemmas *)
Section Lemmas.
Import HandleTable.

Lemma initial_wf : wf initial.
Proof. split; [done|]. intros h o H. simpl in H. by rewrite lookup_empty in H. Qed.

Lemma next_handle n : 3 <= n < 2 ^ 31 - 1 -> i32 (n + 1) = n + 1.
Proof. intros. apply swrap_id; lia. Qed.

Lemma register_wf s o : wf s -> m_next s < 2 ^ 31 - 1 -> wf (fst (registerObject s o)).
Proof.
  intros [H1 H2] Hb. destruct o as [o|]; [|done]. simpl. rewrite next_handle by lia. split; simpl; [lia|].
  intros h o'. unfold emplace. destruct (m_objects s !! m_next s) eqn:E.
  - intros ?%H2. lia.
  - intros [[<- <-]|[? ?%H2]]%lookup_insert_Some; lia.
Qed.

Lemma close_wf s h : wf s -> wf (fst (fst (close s h))).
Proof.
  intros [H1 H2]. unfold close. destruct (m_objects s !! h); [|done]. split; simpl; [lia|].
  intros h' o' [_ ?]%lookup_delete_Some. by apply (H2 _ o').
Qed.

Lemma close_next s h : m_next (fst (fst (close s h))) = m_next s.
Proof. unfold close. by destruct (m_objects s !! h). Qed.

Lemma session_handles s ops s' hs :
  3 <= m_next s -> m_next s + Z.of_nat (length ops) < 2 ^ 31 -> session s ops = (s', hs) ->
  NoDup hs /\ Forall (fun h => m_next s <= h < m_next s') hs /\ m_next s <= m_next s'.
Proof.
  revert s hs. induction ops as [|[o|h] ops IH]; intros s hs H3 Hl; simpl in *.
  - intros; simplify_eq. split_and!; [constructor|constructor|lia].
  - rewrite next_handle by lia. destruct (session _ ops) as [s2 hs2] eqn:E. intros; simplify_eq.
    destruct (IH (mkTable (m_next s + 1) (emplace (m_next s) o (m_objects s))) hs2) as (? & Hb & ?);
      simpl in *; [lia|lia|exact E|]. split_and!; [|constructor|]; try lia.
    + constructor; [|done]. intros Hin. rewrite Forall_forall in Hb. apply Hb in Hin. lia.
    + eapply Forall_impl; [exact Hb|]. simpl. lia.
  - intros H. destruct (IH (fst (fst (close s h))) hs) as (? & Hb & ?);
      [by rewrite close_next|rewrite close_next; lia|done|]. rewrite close_next in *. by split_and!.
Qed.

End Lemmas.

Section EventLemmas.
Import EventHandle.

Lemma bit_testbit ident i : 0 <= i -> Z.testbit (bit ident) i = (i =? ident mod 64).
Proof.
  intros Hi. unfold bit. change 63 with (Z.ones 6). rewrite Z.land_ones by lia.
  change (2 ^ 6) with 64. pose proof (Z.mod_pos_bound ident 64 ltac:(lia)).
  rewrite Z.shiftl_1_l, Z.pow2_bits_eqb by lia. apply Z.eqb_sym.
Qed.

Lemma land_bit_zero s ident : (Z.land s (bit ident) =? 0) = negb (Z.testbit s (ident mod 64)).
Proof.
  pose proof (Z.mod_pos_bound ident 64 ltac:(lia)).
  destruct (Z.testbit s (ident mod 64)) eqn:E; simpl.
  - apply Z.eqb_neq. intros H0. assert (Z.testbit 0 (ident mod 64) = true); [|by rewrite Z.bits_0 in *].
    rewrite <- H0, Z.land_spec, E, bit_testbit, Z.eqb_refl by lia. done.
  - apply Z.eqb_eq. apply Z.bits_inj'. intros n Hn. rewrite Z.land_spec, bit_testbit, Z.bits_0 by lia.
    destruct (n =? _) eqn:En; [|apply andb_false_r]. apply Z.eqb_eq in En. subst. by rewrite E.
Qed.

End EventLemmas.

(** ** Properties *)
Section Properties.
Import HandleTable EventHandle.

(** A session of fewer than [2^31 - 3] registrations and closes on a fresh
    table never issues the same handle twice, and never one of the reserved
    handles 0, 1, 2. *)
Theorem handles_never_reused ops s' hs :
  Z.of_nat (length ops) < 2 ^ 31 - 3 ->
  session HandleTable.initial ops = (s', hs) -> NoDup hs /\ Forall (fun h => 3 <= h) hs.
Proof.
  intros Hl (? & Hb & _)%session_handles; [|done|simpl; lia]. split; [done|].
  eapply Forall_impl; [exact Hb|]. simpl. lia.
Qed.

Lemma handles_never_reused_witness :
  (session HandleTable.initial [Register (EventObject 1); Close 3; Register (EventObject 2)]).2 = [3; 4] /\
  NoDup [3; 4].
Proof.
  split; [reflexivity|].
  exact (proj1 (handles_never_reused [Register (EventObject 1); Close 3; Register (EventObject 2)]
    _ _ eq_refl eq_refl)).
Defined.

(** Registering makes exactly the new handle resolve to the object,
    leaves the others alone, and closing it once succeeds, drops that object
    and leaves the handle dead, so a second close fails. *)
Theorem handle_lifecycle s o :
  wf s ->
  let '(s1, h) := registerObject s (Some o) in
  get s h = None /\ get s1 h = Some o /\
  (forall h', h' <> h -> get s1 h' = get s h') /\
  let '(s2, ok, dropped) := close s1 h in
  ok = true /\ dropped = Some o /\ get s2 h = None /\ (fst (fst (close s2 h)), snd (fst (close s2 h))) = (s2, false) /\
  (forall h', get s2 h' = get s h').
Proof.
  intros [H1 H2]. simpl. unfold get, close, emplace. simpl.
  assert (m_objects s !! m_next s = None) as Hn.
  { destruct (m_objects s !! m_next s) eqn:E; [|done]. apply H2 in E. lia. }
  rewrite Hn. simpl. rewrite lookup_insert_eq. simpl.
  split_and!; try done.
  - intros. by rewrite lookup_insert_ne.
  - by rewrite lookup_delete_eq.
  - by rewrite lookup_delete_eq.
  - intros h'. by rewrite delete_insert_id.
Qed.

Lemma handle_lifecycle_witness :
  get (fst (registerObject HandleTable.initial (Some (EventObject 7)))) 3 = Some (EventObject 7).
Proof.
  exact (proj1 (proj2 (handle_lifecycle HandleTable.initial (EventObject 7) initial_wf))).
Defined.

(** [m_hasAny] mirrors [m_signaled <> 0] in every state of an event. *)
Lemma event_wf e ident :
  m_hasAny e = negb (m_signaled e =? 0) ->
  m_hasAny (signal e ident) = negb (m_signaled (signal e ident) =? 0) /\
  m_hasAny (clear e ident) = negb (m_signaled (clear e ident) =? 0).
Proof.
  intros He. split; simpl.
  - destruct (Z.lor (m_signaled e) (bit ident) =? 0) eqn:E; [|done]. apply Z.eqb_eq, Z.lor_eq_0_iff in E as [_ E].
    unfold bit in E. rewrite Z.shiftl_1_l in E.
    change 63 with (Z.ones 6) in E. rewrite Z.land_ones in E by lia.
    pose proof (Z.mod_pos_bound ident (2 ^ 6) ltac:(lia)).
    pose proof (Z.pow_pos_nonneg 2 (ident mod 2 ^ 6)). lia.
  - destruct (Z.ldiff _ _ =? 0) eqn:E; [done|]. rewrite He.
    destruct (m_signaled e =? 0) eqn:E2; [|done].
    apply Z.eqb_eq in E2. rewrite E2, Z.ldiff_0_l in E. done.
Qed.

(** Event waits see exactly the 64 classes of identifiers modulo 64: a
    signal releases the waiters of its own class and no other, and a clear
    blocks them again. *)
Theorem event_signal_clear e ident j :
  m_hasAny e = negb (m_signaled e =? 0) ->
  wait_pred (signal e ident) j = ((j mod 64 =? ident mod 64) || wait_pred e j) /\
  wait_pred (clear e ident) j = (negb (j mod 64 =? ident mod 64) && wait_pred e j).
Proof.
  intros Hany. pose proof (Z.mod_pos_bound j 64 ltac:(lia)).
  assert (forall s b, (s = 0 -> b = false) -> (s <> 0 -> b = true) ->
    b && negb (Z.land s (bit j) =? 0) = Z.testbit s (j mod 64)) as Hp.
  { intros s b Hb0 Hb1. rewrite land_bit_zero, negb_involutive.
    destruct (Z.eq_dec s 0) as [->|Hs]; [by rewrite Hb0, Z.bits_0|by rewrite Hb1]. }
  unfold wait_pred. rewrite (Hp (m_signaled e) (m_hasAny e)) by (rewrite Hany; lia).
  split.
  - simpl. rewrite land_bit_zero, negb_involutive, Z.lor_spec, bit_testbit by lia.
    apply orb_comm.
  - unfold clear. simpl. set (s := Z.ldiff _ _). rewrite Hp.
    + unfold s. rewrite Z.ldiff_spec, bit_testbit by lia. apply andb_comm.
    + intros ->. done.
    + intros Hs. destruct (s =? 0) eqn:E; [lia|]. rewrite Hany.
      destruct (m_signaled e =? 0) eqn:E2; [|done].
      exfalso. apply Hs. unfold s. apply Z.eqb_eq in E2. by rewrite E2, Z.ldiff_0_l.
Qed.

Lemma event_signal_clear_witness :
  wait_pred (signal EventHandle.initial 65) 1 = true /\
  wait_pred (clear (signal EventHandle.initial 65) 1) 65 = false.
Proof.
  split.
  - rewrite (proj1 (event_signal_clear EventHandle.initial 65 1 eq_refl)). reflexivity.
  - rewrite (proj2 (event_signal_clear (signal EventHandle.initial 65) 1 65 eq_refl)). reflexivity.
Defined.

End Properties.
