(* ===== verification/Threads.v ===== *)
(** * Guest threads

    [runtime/thread/ThreadObject.cpp] and [ThreadManager.cpp].  The operations
    of a thread object are functions on its atomics; [suspend] and [resume] run
    under its mutex and are single steps.  [start] and the body of the new
    pthread race on the state variable, so their interleavings are a step
    relation.  The guest entry point itself is one opaque step. *)
From stdpp Require Import relations.
From S2P Require Import Prelude.

Inductive ThreadState := Created | Running | Suspended | Exited.

#[export] Instance ThreadState_eq_dec : EqDecision ThreadState.
Proof. solve_decision. Defined.

(** ** [ThreadObject] *)
Module ThreadObject.

(** [m_pthread] records whether [m_handle] was ever written by
    [pthread_create]. *)
Record t := mkThread {
  m_id : Z;
  m_name : bytes;
  m_state : ThreadState;
  m_exitRequested : bool;
  m_suspended : bool;
  m_pthread : bool
}.

Definition make (id : Z) (name : bytes) : t := mkThread id name Created false false false.

Definition set_state (st : ThreadState) (th : t) : t :=
  mkThread (m_id th) (m_name th) st (m_exitRequested th) (m_suspended th) (m_pthread th).

Definition suspend (th : t) : t :=
  mkThread (m_id th) (m_name th) Suspended (m_exitRequested th) true (m_pthread th).

Definition resume (th : t) : t :=
  mkThread (m_id th) (m_name th)
    (if bool_decide (m_state th = Suspended) then Running else m_state th)
    (m_exitRequested th) false (m_pthread th).

Definition requestExit (th : t) : t :=
  resume (mkThread (m_id th) (m_name th) (m_state th) true (m_suspended th) (m_pthread th)).

(** [start], when nothing else touches the thread meanwhile; [rc] is the
    answer of [pthread_create]. *)
Definition start (th : t) (rc : Z) : t * bool :=
  if negb (bool_decide (m_state th = Created)) then (th, false)
  else if negb (rc =? 0) then (th, false)
  else (mkThread (m_id th) (m_name th) Running (m_exitRequested th) (m_suspended th) true, true).

(** What [join] does: nothing, wait for the pthread, or pass a handle that no
    [pthread_create] ever wrote to [pthread_join]. *)
Inductive JoinResult := JoinSkipped | JoinWaits | JoinInvalidHandle.
Definition join (th : t) : JoinResult :=
  if bool_decide (m_state th = Created) then JoinSkipped
  else if m_pthread th then JoinWaits else JoinInvalidHandle.

(** The destructor only asks a running thread to exit. *)
Definition destroy (th : t) : t :=
  if bool_decide (m_state th = Running) then requestExit th else th.

End ThreadObject.

(** ** [start] against the new pthread *)
Module ThreadRace.
Import ThreadObject.

Inductive StartPc := SIdle | SStoring | SDone.
Inductive RunPc := RNone | RWait | RCheck | REntry | RStore | RFinished.

#[export] Instance RunPc_eq_dec : EqDecision RunPc.
Proof. solve_decision. Defined.

Record conf := mkConf { obj : ThreadObject.t; start_pc : StartPc; run_pc : RunPc }.

Definition start_conf (id : Z) (name : bytes) : conf := mkConf (make id name) SIdle RNone.

Inductive step : conf -> conf -> Prop :=
| step_create c :
    start_pc c = SIdle -> m_state (obj c) = Created ->
    step c (mkConf (mkThread (m_id (obj c)) (m_name (obj c)) (m_state (obj c))
                     (m_exitRequested (obj c)) (m_suspended (obj c)) true) SStoring RWait)
| step_start_store c :
    start_pc c = SStoring -> step c (mkConf (set_state Running (obj c)) SDone (run_pc c))
| step_wait c :
    run_pc c = RWait -> m_suspended (obj c) = false -> step c (mkConf (obj c) (start_pc c) RCheck)
| step_check_go c :
    run_pc c = RCheck -> m_exitRequested (obj c) = false ->
    step c (mkConf (obj c) (start_pc c) REntry)
| step_check_exit c :
    run_pc c = RCheck -> m_exitRequested (obj c) = true ->
    step c (mkConf (obj c) (start_pc c) RStore)
| step_entry c :
    run_pc c = REntry -> step c (mkConf (obj c) (start_pc c) RStore)
| step_run_store c :
    run_pc c = RStore -> step c (mkConf (set_state Exited (obj c)) (start_pc c) RFinished)
| step_suspend c : step c (mkConf (suspend (obj c)) (start_pc c) (run_pc c))
| step_resume c : step c (mkConf (resume (obj c)) (start_pc c) (run_pc c))
| step_request_exit c : step c (mkConf (requestExit (obj c)) (start_pc c) (run_pc c)).

Definition reachable (c : conf) : Prop := exists id name, rtc step (start_conf id name) c.

(** What every interleaving keeps. *)
Record inv (c : conf) : Prop := mkInv {
  inv_thread : run_pc c <> RNone <-> m_pthread (obj c) = true;
  inv_started : start_pc c <> SIdle <-> m_pthread (obj c) = true;
  inv_exited : m_state (obj c) = Exited -> run_pc c = RFinished
}.

Definition before_check (pc : RunPc) : Prop := pc = RNone \/ pc = RWait \/ pc = RCheck.

End ThreadRace.

(** ** [ThreadManager] *)
Module ThreadManager.
Import ThreadObject.

Record t := mkManager { m_next : Z; m_threads : gmap Z ThreadObject.t }.
Definition initial : t := mkManager 1 ∅.

(** [m_next] is a [uint32_t]; [emplace] keeps an existing entry. *)
Definition create (s : t) (name : bytes) : t * Z :=
  let id := m_next s in
  (mkManager (u32 (id + 1))
     (match m_threads s !! id with
      | Some _ => m_threads s
      | None => <[id := make id name]> (m_threads s)
      end), id).

Definition get (s : t) (id : Z) : option ThreadObject.t := m_threads s !! id.

Definition start (s : t) (id rc : Z) : t * bool :=
  match get s id with
  | None => (s, false)
  | Some th =>
      let '(th', ok) := ThreadObject.start th rc in
      (mkManager (m_next s) (<[id := th']> (m_threads s)), ok)
  end.

(** Apply [f] to the thread, if it exists. *)
Definition on_thread (f : ThreadObject.t -> ThreadObject.t) (s : t) (id : Z) : t :=
  mkManager (m_next s) (alter f id (m_threads s)).
Definition requestExit := on_thread ThreadObject.requestExit.
Definition suspend := on_thread ThreadObject.suspend.
Definition resume := on_thread ThreadObject.resume.
Definition join (s : t) (id : Z) : option JoinResult := ThreadObject.join <$> get s id.

(** [unordered_map] iterates in an unspecified order; the model's order is
    that of the map. *)
Definition snapshot (s : t) : list (Z * ThreadObject.t) := map_to_list (m_threads s).

Definition shutdownAll (s : t) : t * list (Z * JoinResult) :=
  let asked := ThreadObject.requestExit <$> m_threads s in
  let joins := (fun '(id, th) => (id, ThreadObject.join th)) <$>
    filter (fun x => m_state x.2 <> Created) (map_to_list asked) in
  (mkManager (m_next s) ∅, joins).

Definition aliveCount (s : t) : nat :=
  length (filter (fun x => m_state x.2 <> Exited) (map_to_list (m_threads s))).

End ThreadManager.

(** ** Lemmas *)
Section Lemmas.
Import ThreadObject ThreadRace.

Lemma resume_state_exited th : m_state (resume th) = Exited -> m_state th = Exited.
Proof. destruct th as [? ? [] ? ? ?]; simpl; done. Qed.

Lemma step_inv c c' : step c c' -> inv c -> inv c'.
Proof.
  intros Hs [H1 H2 H3].
  destruct Hs; constructor; simpl in *; try (intros ?%resume_state_exited);
    intuition congruence.
Qed.

Lemma reachable_inv c : reachable c -> inv c.
Proof.
  intros (id & name & H).
  assert (inv (start_conf id name)) as H0 by (by constructor).
  revert H0. induction H as [|a b d Hs _ IH]; [done|]. eauto using step_inv.
Qed.

Lemma exit_requested_step c c' :
  step c c' -> m_exitRequested (obj c) = true -> m_exitRequested (obj c') = true.
Proof. by destruct 1. Qed.

End Lemmas.

(** ** Properties *)
Section Properties.
Import ThreadObject ThreadRace.

(** In every interleaving of [start], the new pthread and outside calls,
    a thread object that reports [Exited] really has finished, and a pthread
    body runs only after [start] created it. *)
Theorem exited_means_finished c :
  reachable c ->
  (m_state (obj c) = Exited -> run_pc c = RFinished) /\
  (run_pc c <> RNone -> start_pc c <> SIdle /\ m_pthread (obj c) = true).
Proof. intros [H1 H2 H3]%reachable_inv. split; [done|]. intros ?%H1. by rewrite H2. Qed.

(** A pthread that runs to its end before [start] stores [Running]. *)
Lemma body_finishes_first :
  rtc step (start_conf 1 []) (mkConf (mkThread 1 [] Exited false false true) SStoring RFinished).
Proof.
  eapply rtc_l; [by apply step_create|]. simpl.
  eapply rtc_l; [by apply step_wait|]. simpl.
  eapply rtc_l; [by apply step_check_go|]. simpl.
  eapply rtc_l; [by apply step_entry|]. simpl.
  eapply rtc_l; [by apply step_run_store|]. apply rtc_refl.
Qed.

Lemma exited_means_finished_witness :
  exists c, reachable c /\ m_state (obj c) = Exited /\ run_pc c = RFinished.
Proof.
  eexists. assert (R : reachable _) by (exists 1, []; exact body_finishes_first).
  split; [exact R|]. split; [reflexivity|].
  exact (proj1 (exited_means_finished _ R) eq_refl).
Defined.

(** An exit requested before the body has passed its check is honoured in
    every continuation: the guest entry point is never entered. *)
Theorem exit_before_check_honoured c c' :
  before_check (run_pc c) -> m_exitRequested (obj c) = true -> rtc step c c' ->
  run_pc c' <> REntry.
Proof.
  intros Hb He Hs. assert (run_pc c <> REntry) as Hn by (by destruct Hb as [->|[->| ->]]).
  clear Hb. induction Hs as [|a b d Hab _ IH]; [done|].
  apply IH; [by eapply exit_requested_step|].
  destruct Hab; simpl in *; congruence.
Qed.

Lemma exit_before_check_honoured_witness :
  run_pc (mkConf (requestExit (make 1 [])) SIdle RNone) <> REntry.
Proof.
  apply (exit_before_check_honoured (mkConf (requestExit (make 1 [])) SIdle RNone)).
  - by left.
  - reflexivity.
  - apply rtc_refl.
Defined.

(** The converse fails.  [start] stores [Running] after
    [pthread_create], so a body that finished in between leaves a finished
    thread reported as [Running] for ever; and a thread suspended and resumed
    before [start] reports [Running] although it has no pthread, [start] then
    refuses it and [join] hands an unwritten handle to [pthread_join]. *)
Theorem running_is_not_reliable :
  (exists c, reachable c /\ start_pc c = SDone /\ run_pc c = RFinished /\ m_state (obj c) = Running) /\
  (exists c, reachable c /\ m_state (obj c) = Running /\ m_pthread (obj c) = false /\
     start (obj c) 0 = (obj c, false) /\ join (obj c) = JoinInvalidHandle).
Proof.
  split.
  - eexists. split; [|split_and!].
    + exists 1, []. eapply rtc_r; [exact body_finishes_first|by apply step_start_store].
    + done.
    + done.
    + done.
  - exists (mkConf (resume (suspend (make 1 []))) SIdle RNone). split; [|by split_and!].
    exists 1, []. eapply rtc_l; [apply step_suspend|]. eapply rtc_l; [apply step_resume|].
    apply rtc_refl.
Qed.

(** [shutdownAll] empties the manager and joins exactly the threads whose
    state is not [Created], each after its exit was requested. *)
Theorem shutdownAll_joins s s' joins id r :
  ThreadManager.shutdownAll s = (s', joins) ->
  ThreadManager.m_threads s' = ∅ /\
  ((id, r) ∈ joins <->
   exists th, ThreadManager.get s id = Some th /\ m_state th <> Created /\
              r = join (requestExit th)).
Proof.
  unfold ThreadManager.shutdownAll. intros H. simplify_eq. split; [done|].
  rewrite list_elem_of_fmap. split.
  - intros ([id' th'] & Heq & Hin). simplify_eq.
    apply list_elem_of_filter in Hin as [Hst Hin].
    apply elem_of_map_to_list in Hin. rewrite lookup_fmap in Hin.
    unfold ThreadManager.get. destruct (ThreadManager.m_threads s !! id') as [th|]; simplify_eq/=.
    exists th. split; [done|]. split; [|done]. intros Hc. apply Hst. simpl. by rewrite Hc.
  - intros (th & Hg & Hst & ->). exists (id, requestExit th). split; [done|].
    apply list_elem_of_filter. split.
    + simpl. by destruct (m_state th) eqn:E; rewrite ?E; simpl.
    + apply elem_of_map_to_list. rewrite lookup_fmap. unfold ThreadManager.get in Hg.
      by rewrite Hg.
Qed.

Lemma shutdownAll_joins_witness :
  let s := fst (ThreadManager.start (fst (ThreadManager.create ThreadManager.initial [])) 1 0) in
  (1, JoinWaits) ∈ snd (ThreadManager.shutdownAll s).
Proof.
  intros s.
  apply (proj2 (shutdownAll_joins s _ _ 1 JoinWaits (surjective_pairing _))).
  eexists. split; [reflexivity|]. split; [discriminate|reflexivity].
Defined.

End Properties.
