(* ===== verification/Host.v ===== *)
(** * The host kernel as an environment

    The runtime talks to Linux through libc calls.  A call and its answer are
    recorded in a trace; the answer comes from an arbitrary oracle that may
    depend on the whole past trace, so a theorem about a run holds for every
    behaviour of the host.  Code that issues calls is a computation of the
    small monad [IO]: it returns a value or ends the process with [_exit]. *)
From S2P Require Import Prelude.

(** The calls the modelled code makes. *)
Inductive HostCall :=
  (* process and isolation *)
  | H_unshare (flags : Z)
  | H_sethostname (nm : bytes)
  | H_mount (src : option bytes) (target : bytes) (fstype : option bytes) (flags : Z) (data : option bytes)
  | H_chdir (path : bytes)
  | H_pivot_root (new old : bytes)
  | H_chroot (path : bytes)
  | H_sigaltstack
  | H_sigaction_sigsys
  | H_prctl (option arg : Z)
  | H_capset_zero
  | H_read_cap_last_cap
  | H_seccomp (flags : Z) (prog : list (Z * Z * Z * Z))
  | H_guest_entry
  | H_fork
  | H_waitpid (pid : Z)
  | H_kill (pid : Z)
  (* files *)
  | H_open (path : bytes) (flags mode : Z)
  | H_close (fd : Z)
  | H_read (fd buf count : Z)
  | H_write (fd buf count : Z)
  | H_lseek (fd off whence : Z)
  | H_fstat (fd : Z)
  | H_stat (path : bytes)
  | H_mkdir (path : bytes) (mode : Z)
  | H_rmdir (path : bytes)
  | H_unlink (path : bytes)
  | H_rename (from to : bytes)
  | H_fsync (fd : Z)
  | H_ftruncate (fd len : Z)
  (* sockets, time, memory *)
  | H_socket (domain type protocol : Z)
  | H_gettimeofday
  | H_sysconf_pagesize
  | H_munmap (addr len : Z)
  | H_mprotect (addr len prot : Z).

(** An answer: the value of the call, [- errno] when the call failed, and the
    data it delivered (the fields of a [struct], the bytes read). *)
Record Reply := mkReply { rv : Z; out : list Z }.

Definition Trace := list (HostCall * Reply).
Definition Oracle := Trace -> HostCall -> Reply.

(** [inl] a value, [inr] the argument of [_exit]. *)
Definition IO (A : Type) : Type := Oracle -> Trace -> (A + Z) * Trace.

#[export] Instance IO_ret : MRet IO := fun A a o t => (inl a, t).
#[export] Instance IO_bind : MBind IO := fun A B f m o t =>
  match m o t with
  | (inl a, t') => f a o t'
  | (inr c, t') => (inr c, t')
  end.

Definition host_call (c : HostCall) : IO Reply := fun o t =>
  let r := o t c in (inl r, t ++ [(c, r)]).

(** A call of which only the value matters. *)
Definition host_rv (c : HostCall) : IO Z := r ← host_call c; mret (rv r).

Definition io_exit {A} (code : Z) : IO A := fun o t => (inr code, t).

(** ** Reasoning: the weakest precondition of a run *)

Definition wp {A} (m : IO A) (Q : A -> Trace -> Prop) (E : Z -> Trace -> Prop)
    (o : Oracle) (t : Trace) : Prop :=
  match m o t with
  | (inl a, t') => Q a t'
  | (inr c, t') => E c t'
  end.

Section Wp.
Context (o : Oracle).

Lemma wp_ret {A} (a : A) Q E t : Q a t -> wp (mret a) Q E o t.
Proof. done. Qed.

Lemma wp_exit {A} c (Q : A -> Trace -> Prop) E t : E c t -> wp (io_exit c) Q E o t.
Proof. done. Qed.

Lemma wp_bind {A B} (m : IO A) (f : A -> IO B) Q E t :
  wp m (fun a t' => wp (f a) Q E o t') E o t -> wp (m ≫= f) Q E o t.
Proof.
  unfold wp, mbind, IO_bind. by destruct (m o t) as [[a|c] t'].
Qed.

Lemma wp_call c Q E t : (forall r, r = o t c -> Q r (t ++ [(c, r)])) -> wp (host_call c) Q E o t.
Proof. intros H. by apply H. Qed.

Lemma wp_rv c Q E t : (forall r, r = o t c -> Q (rv r) (t ++ [(c, r)])) -> wp (host_rv c) Q E o t.
Proof. intros H. by apply H. Qed.

Lemma wp_mono {A} (m : IO A) (Q Q' : A -> Trace -> Prop) (E E' : Z -> Trace -> Prop) t :
  wp m Q E o t -> (forall a t', Q a t' -> Q' a t') -> (forall c t', E c t' -> E' c t') ->
  wp m Q' E' o t.
Proof. unfold wp. intros ? ? ?. destruct (m o t) as [[a|c] t']; auto. Qed.

End Wp.

(** One symbolic execution step. *)
Ltac wp_step :=
  match goal with
  | |- wp (_ ≫= _) _ _ _ _ => apply wp_bind
  | |- wp (mret _) _ _ _ _ => apply wp_ret
  | |- wp (io_exit _) _ _ _ _ => apply wp_exit
  | |- wp (host_call _) _ _ _ _ => apply wp_call; intros ? ?
  | |- wp (host_rv _) _ _ _ _ => apply wp_rv; intros ? ?
  | |- wp (if ?b then _ else _) _ _ _ _ => let E := fresh "C" in destruct b eqn:E
  | |- wp (match ?b with _ => _ end) _ _ _ _ => let E := fresh "C" in destruct b eqn:E
  end.

(** ** Trace lemmas *)

(** [c] was called and answered with success. *)
Definition succeeded (t : Trace) (c : HostCall) : Prop := exists r, (c, r) ∈ t /\ 0 <= rv r.

Lemma succeeded_app_l t t' c : succeeded t c -> succeeded (t ++ t') c.
Proof. intros (r & ? & ?). exists r. split; [|done]. apply elem_of_app. by left. Qed.

Lemma succeeded_last t c r : 0 <= rv r -> succeeded (t ++ [(c, r)]) c.
Proof.
  intros Hr. exists r. split; [|done]. apply elem_of_app. right. by apply list_elem_of_singleton.
Qed.

#[export] Hint Resolve succeeded_app_l succeeded_last : fp4.
