(* ===== verification/Isolation.v ===== *)
(** * Guest isolation: configuration, namespaces, capabilities, seccomp, child

    [isolation/IsolationConfig.cpp], [NamespaceSetup.cpp], [Capabilities.cpp],
    [SeccompFilter.cpp], the installation of the trap gate
    ([syscall/trap/TrapGate.cpp]) and [runtime/GuestProcess.cpp].  Every function
    is an [IO] computation over the host calls of [Host].  The BPF interpreter
    is the kernel's documented one, restricted to the three instructions the
    builder emits. *)
From S2P Require Import Prelude Host.

(** ** Linux constants *)
Definition CLONE_NEWNS := 0x00020000.
Definition CLONE_NEWUTS := 0x04000000.
Definition CLONE_NEWIPC := 0x08000000.
Definition CLONE_NEWUSER := 0x10000000.
Definition CLONE_NEWPID := 0x20000000.
Definition CLONE_NEWNET := 0x40000000.
Definition MS_NOSUID := 2.
Definition MS_NODEV := 4.
Definition MS_NOEXEC := 8.
Definition MS_BIND := 4096.
Definition MS_REC := 16384.
Definition MS_PRIVATE := 262144.
Definition EEXIST := 17.
Definition EINVAL := 22.
Definition PR_SET_NO_NEW_PRIVS := 38.
Definition PR_CAPBSET_DROP := 24.
Definition SECCOMP_FILTER_FLAG_TSYNC := 1.
Definition SECCOMP_FILTER_FLAG_LOG := 2.
Definition SECCOMP_RET_ALLOW := 0x7fff0000.
Definition SECCOMP_RET_TRAP := 0x00030000.
Definition BPF_LD_W_ABS := 0x20.
Definition BPF_JMP_JEQ_K := 0x15.
Definition BPF_RET_K := 0x06.

(** ** [IsolationConfig] *)
Record IsolationConfig := mkConfig {
  use_user_ns : bool;
  use_pid_ns : bool;
  use_mount_ns : bool;
  use_net_ns : bool;
  use_ipc_ns : bool;
  use_uts_ns : bool;
  guest_hostname : bytes;
  jail_root : bytes;
  drop_capabilities : bool;
  no_new_privs : bool;
  trap_all_syscalls : bool;
  syscall_allowlist : list Z;
  trace_syscalls : bool;
  trace_sce_calls : bool;
  abort_on_isolation_failure : bool
}.

Definition default_allowlist : list Z := [202; 15; 131; 219; 334; 9; 10; 11; 60; 231].

Definition default_config : IsolationConfig :=
  mkConfig true true true true true true (cstr "PS4") [] true true true
    default_allowlist false false true.

Definition envBool (getenv : bytes -> option bytes) (nm : bytes) (fallback : bool) : bool :=
  match getenv nm with
  | None => fallback
  | Some v => negb (bool_decide (v = cstr "0")) && negb (bool_decide (v = cstr "false"))
              && negb (bool_decide (v = cstr "no"))
  end.

Definition envStr (getenv : bytes -> option bytes) (nm fallback : bytes) : bytes :=
  default fallback (getenv nm).

Definition loadIsolationConfigFromEnvironment (getenv : bytes -> option bytes) : IsolationConfig :=
  let c := default_config in
  let eb := envBool getenv in
  mkConfig
    (eb (cstr "FUSIONPS4_ISO_USER_NS") (use_user_ns c))
    (eb (cstr "FUSIONPS4_ISO_PID_NS") (use_pid_ns c))
    (eb (cstr "FUSIONPS4_ISO_MOUNT_NS") (use_mount_ns c))
    (eb (cstr "FUSIONPS4_ISO_NET_NS") (use_net_ns c))
    (eb (cstr "FUSIONPS4_ISO_IPC_NS") (use_ipc_ns c))
    (eb (cstr "FUSIONPS4_ISO_UTS_NS") (use_uts_ns c))
    (envStr getenv (cstr "FUSIONPS4_ISO_HOSTNAME") (guest_hostname c))
    (envStr getenv (cstr "FUSIONPS4_ISO_JAIL") (jail_root c))
    (eb (cstr "FUSIONPS4_ISO_DROP_CAPS") (drop_capabilities c))
    (eb (cstr "FUSIONPS4_ISO_NO_NEW_PRIVS") (no_new_privs c))
    (eb (cstr "FUSIONPS4_ISO_TRAP_ALL") (trap_all_syscalls c))
    (syscall_allowlist c)
    (eb (cstr "FUSIONPS4_ISO_TRACE_SYSCALLS") false)
    (eb (cstr "FUSIONPS4_ISO_TRACE_SCE") false)
    (eb (cstr "FUSIONPS4_ISO_STRICT") true).

(** ** [NamespaceSetup] *)
Module NamespaceSetup.

Definition flag (b : bool) (f acc : Z) : Z := if b then Z.lor acc f else acc.

Definition unshare_flags (cfg : IsolationConfig) : Z :=
  flag (use_uts_ns cfg) CLONE_NEWUTS
  (flag (use_ipc_ns cfg) CLONE_NEWIPC
  (flag (use_net_ns cfg) CLONE_NEWNET
  (flag (use_mount_ns cfg) CLONE_NEWNS
  (flag (use_pid_ns cfg) CLONE_NEWPID
  (flag (use_user_ns cfg) CLONE_NEWUSER 0))))).

Definition unshareAll (cfg : IsolationConfig) : IO bool :=
  let flags := unshare_flags cfg in
  if flags =? 0 then mret true
  else r ← host_rv (H_unshare flags); mret (0 <=? r).

Definition setHostname (cfg : IsolationConfig) : IO bool :=
  if negb (use_uts_ns cfg) then mret true
  else r ← host_rv (H_sethostname (guest_hostname cfg)); mret (0 <=? r).

Definition newRoot (cfg : IsolationConfig) : bytes :=
  if bool_decide (jail_root cfg = []) then cstr "/tmp/fusionps4-jail" else jail_root cfg.

Definition skeleton_dirs : list bytes :=
  [cstr "/app"; cstr "/data"; cstr "/system"; cstr "/temp"; cstr "/save"; cstr "/user";
   cstr "/dev"; cstr "/proc"; cstr "/tmp"].

Definition safeDevs : list (bytes * bytes) :=
  [(cstr "/dev/null", cstr "dev/null"); (cstr "/dev/zero", cstr "dev/zero");
   (cstr "/dev/random", cstr "dev/random"); (cstr "/dev/urandom", cstr "dev/urandom")].

(** A run of best-effort actions whose outcome is ignored. *)
Fixpoint io_seq (ms : list (IO unit)) : IO unit :=
  match ms with
  | [] => mret ()
  | m :: rest => _ ← m; io_seq rest
  end.

Definition make_dir (root d : bytes) : IO unit :=
  _ ← host_rv (H_mkdir (root ++ d) 493 (* 0755 *)); mret ().

Definition bind_dev (root : bytes) (bm : bytes * bytes) : IO unit :=
  let dst := root ++ cstr "/" ++ bm.2 in
  fd ← host_rv (H_open dst 66 438 (* O_CREAT|O_RDWR, 0666 *));
  _ ← (if 0 <=? fd then host_rv (H_close fd) else mret 0);
  _ ← host_rv (H_mount (Some bm.1) dst None MS_BIND None);
  mret ().

Definition mount_skeleton (root : bytes) : IO unit :=
  _ ← io_seq (make_dir root <$> skeleton_dirs);
  _ ← io_seq (bind_dev root <$> safeDevs);
  _ ← host_rv (H_mount (Some (cstr "proc")) (root ++ cstr "/proc") (Some (cstr "proc"))
                 (Z.lor (Z.lor MS_NOSUID MS_NODEV) MS_NOEXEC) None);
  mret ().

(** [pivot_root], or [chroot] when it is refused. *)
Definition change_root : IO bool :=
  r ← host_rv (H_pivot_root (cstr ".") (cstr "."));
  if r <? 0 then r2 ← host_rv (H_chroot (cstr ".")); mret (0 <=? r2) else mret true.

Definition pivotIntoJail (cfg : IsolationConfig) : IO bool :=
  if negb (use_mount_ns cfg) then mret true
  else
    r1 ← host_rv (H_mount None (cstr "/") None (Z.lor MS_REC MS_PRIVATE) None);
    if r1 <? 0 then mret false
    else
      let root := newRoot cfg in
      r2 ← host_rv (H_mkdir root 448 (* 0700 *));
      if (r2 <? 0) && negb (- r2 =? EEXIST) then mret false
      else
        r3 ← host_rv (H_mount (Some (cstr "tmpfs")) root (Some (cstr "tmpfs"))
                        (Z.lor (Z.lor MS_NOSUID MS_NODEV) MS_NOEXEC)
                        (Some (cstr "size=512M,mode=0700")));
        if r3 <? 0 then mret false
        else
          _ ← mount_skeleton root;
          r4 ← host_rv (H_chdir root);
          if r4 <? 0 then mret false
          else
            ok ← change_root;
            if negb ok then mret false
            else r5 ← host_rv (H_chdir (cstr "/")); mret (0 <=? r5).

End NamespaceSetup.

(** ** [Capabilities] *)
Module Capabilities.

Definition setNoNewPrivs : IO bool :=
  r ← host_rv (H_prctl PR_SET_NO_NEW_PRIVS 1); mret (0 <=? r).

(** A refusal (EINVAL or not) only affects the log. *)
Fixpoint drop_bounding (n : nat) (cap : Z) : IO unit :=
  match n with
  | O => mret ()
  | S n' => _ ← host_rv (H_prctl PR_CAPBSET_DROP cap); drop_bounding n' (cap + 1)
  end.

(** [H_read_cap_last_cap] answers a negative value when the file cannot be
    opened or parsed, and otherwise delivers the number read. *)
Definition dropAll : IO bool :=
  r ← host_call H_read_cap_last_cap;
  let lastCap := if rv r <? 0 then 63 else hd 63 (out r) in
  _ ← drop_bounding (Z.to_nat (lastCap + 1)) 0;
  r2 ← host_rv H_capset_zero; mret (0 <=? r2).

End Capabilities.

(** ** [SeccompFilter] *)
Module SeccompFilter.

(** [(code, jt, jf, k)]. *)
Definition sock_filter : Type := Z * Z * Z * Z.

(** [BpfBuilder]: the program under construction. *)
Definition emit (ops : list sock_filter) (code k : Z) : list sock_filter :=
  ops ++ [(code, 0, 0, k)].
Definition loadSyscallNumber (ops : list sock_filter) : list sock_filter :=
  emit ops BPF_LD_W_ABS 0.
Definition jumpIfEqual (ops : list sock_filter) (k jt jf : Z) : list sock_filter :=
  ops ++ [(BPF_JMP_JEQ_K, jt, jf, k)].
Definition ret (ops : list sock_filter) (action : Z) : list sock_filter :=
  emit ops BPF_RET_K action.

Definition allow_one (ops : list sock_filter) (nr : Z) : list sock_filter :=
  ret (jumpIfEqual ops (u32 nr) 0 1) SECCOMP_RET_ALLOW.

Definition build (cfg : IsolationConfig) : list sock_filter :=
  ret (foldl allow_one (loadSyscallNumber []) (syscall_allowlist cfg)) SECCOMP_RET_TRAP.

(** [prog.len] is an [unsigned short]: the kernel sees that many instructions. *)
Definition program (cfg : IsolationConfig) : list sock_filter :=
  let ops := build cfg in
  take (Z.to_nat (u16 (Z.of_nat (length ops)))) ops.

Definition installImpl (cfg : IsolationConfig) (audit : bool) : IO bool :=
  let flags := if audit then Z.lor SECCOMP_FILTER_FLAG_TSYNC SECCOMP_FILTER_FLAG_LOG
               else SECCOMP_FILTER_FLAG_TSYNC in
  r ← host_rv (H_seccomp flags (program cfg)); mret (0 <=? r).

Definition install (cfg : IsolationConfig) : IO bool := installImpl cfg false.
Definition installWithAudit (cfg : IsolationConfig) : IO bool := installImpl cfg true.

(** The kernel's interpreter on a [seccomp_data] read at word offset [k]; a
    jump skips that many instructions.  Falling off the end is [None]. *)
Fixpoint bpf_run (fuel : nat) (data : Z -> Z) (acc : Z) (prog : list sock_filter) : option Z :=
  match fuel with
  | O => None
  | S fuel' =>
      match prog with
      | [] => None
      | (code, jt, jf, k) :: rest =>
          if code =? BPF_LD_W_ABS then bpf_run fuel' data (data k) rest
          else if code =? BPF_JMP_JEQ_K then
            bpf_run fuel' data acc (drop (Z.to_nat (if acc =? k then jt else jf)) rest)
          else if code =? BPF_RET_K then Some k
          else None
      end
  end.

(** The verdict of the installed program on syscall number [nr]. *)
Definition verdict (cfg : IsolationConfig) (nr : Z) : option Z :=
  bpf_run (length (program cfg)) (fun k => if k =? 0 then u32 nr else 0) 0 (program cfg).

End SeccompFilter.

(** ** [TrapGate::install] *)
Definition TrapGate_install : IO bool :=
  r ← host_rv H_sigaltstack;
  if r <? 0 then mret false
  else r2 ← host_rv H_sigaction_sigsys; mret (0 <=? r2).

(** ** [GuestProcess] *)
Module GuestProcess.
Import NamespaceSetup Capabilities SeccompFilter.

(** A failed step aborts the child when the configuration is strict. *)
Definition childMain (iso : IsolationConfig) : IO unit :=
  let strict := abort_on_isolation_failure iso in
  ok ← unshareAll iso;
  if negb ok && strict then io_exit 1 else
  ok ← setHostname iso;
  if negb ok && strict then io_exit 1 else
  ok ← pivotIntoJail iso;
  if negb ok && strict then io_exit 1 else
  ok ← TrapGate_install;
  if negb ok then io_exit 1 else
  ok ← (if no_new_privs iso then setNoNewPrivs else mret true);
  if negb ok && strict then io_exit 1 else
  ok ← (if drop_capabilities iso then dropAll else mret true);
  if negb ok && strict then io_exit 1 else
  ok ← (if trap_all_syscalls iso then install iso else mret true);
  if negb ok then io_exit 1 else
  _ ← host_rv H_guest_entry;
  io_exit 0.

(** The parent's view: [m_pid] and [m_exited]. *)
Record t := mkGuest { m_pid : Z; m_exited : bool }.
Definition initial : t := mkGuest (-1) false.

(** [spawn] in the parent; in the child ([fork] answers 0) it runs
    [childMain] and never returns. *)
Definition spawn (g : t) (iso : IsolationConfig) : IO (t * bool) :=
  if 0 <? m_pid g then mret (g, false)
  else
    pid ← host_rv H_fork;
    if pid <? 0 then mret (g, false)
    else if pid =? 0 then _ ← childMain iso; io_exit 127
    else mret (mkGuest pid (m_exited g), true).

(** [wait] retries on EINTR (4); [fuel] bounds the retries, [None] means it
    ran out. The status is the data of the answer. *)
Fixpoint wait_loop (fuel : nat) (pid : Z) : IO (option Reply) :=
  match fuel with
  | O => mret None
  | S fuel' =>
      r ← host_call (H_waitpid pid);
      if (rv r <? 0) && (- rv r =? 4) then wait_loop fuel' pid else mret (Some r)
  end.

Definition wait (fuel : nat) (g : t) : IO (option (t * Z)) :=
  if m_pid g <=? 0 then mret (Some (g, 0))
  else
    r ← wait_loop fuel (m_pid g);
    match r with
    | None => mret None
    | Some r =>
        if rv r <? 0 then mret (Some (g, -1))
        else mret (Some (mkGuest (-1) true, hd 0 (out r)))
    end.

Definition kill (g : t) : IO t :=
  if m_pid g <=? 0 then mret g
  else
    _ ← host_rv (H_kill (m_pid g));
    _ ← host_rv (H_waitpid (m_pid g));
    mret (mkGuest (-1) true).

End GuestProcess.

(** ** Specification of the isolated child *)
Module IsolationSpec.
Import NamespaceSetup SeccompFilter.

Definition no_entry (t : Trace) : Prop := H_guest_entry ∉ t.*1.

(** A step of the set-up, as a property of a call and its answer. *)
Definition Step := (HostCall * Reply) -> Prop.
Definition done_step (c : HostCall) : Step := fun cr => cr.1 = c /\ 0 <= rv cr.2.

(** The steps happened one after the other, other calls in between. *)
Definition in_order (ss : list Step) (t : Trace) : Prop :=
  exists l, l `sublist_of` t /\ Forall2 (fun (s : Step) cr => s cr) ss l.

Definition when_ {A} (b : bool) (l : list A) : list A := if b then l else [].

(** The mount tree made private, the directory of the jail there, a tmpfs on it,
    the move into it, the change of the root (by [chroot] when [pivot_root] is
    refused) and the move to the new root. *)
Definition jail_steps (cfg : IsolationConfig) : list Step :=
  [done_step (H_mount None (cstr "/") None (Z.lor MS_REC MS_PRIVATE) None);
   (fun cr => cr.1 = H_mkdir (newRoot cfg) 448 /\ (0 <= rv cr.2 \/ rv cr.2 = - EEXIST));
   done_step (H_mount (Some (cstr "tmpfs")) (newRoot cfg) (Some (cstr "tmpfs"))
     (Z.lor (Z.lor MS_NOSUID MS_NODEV) MS_NOEXEC) (Some (cstr "size=512M,mode=0700")));
   done_step (H_chdir (newRoot cfg));
   (fun cr => done_step (H_pivot_root (cstr ".") (cstr ".")) cr \/ done_step (H_chroot (cstr ".")) cr);
   done_step (H_chdir (cstr "/"))].

(** The steps that a configuration asks for, in their order. *)
Definition configured (cfg : IsolationConfig) : list Step :=
  when_ (negb (unshare_flags cfg =? 0)) [done_step (H_unshare (unshare_flags cfg))] ++
  when_ (use_uts_ns cfg) [done_step (H_sethostname (guest_hostname cfg))] ++
  when_ (use_mount_ns cfg) (jail_steps cfg) ++
  [done_step H_sigaltstack; done_step H_sigaction_sigsys] ++
  when_ (no_new_privs cfg) [done_step (H_prctl PR_SET_NO_NEW_PRIVS 1)] ++
  when_ (drop_capabilities cfg) [done_step H_capset_zero] ++
  when_ (trap_all_syscalls cfg) [done_step (H_seccomp SECCOMP_FILTER_FLAG_TSYNC (program cfg))].

(** Everything the configuration asks for succeeded, in its order, and the
    installation of the filter is the last call of all. *)
Record confined (cfg : IsolationConfig) (t : Trace) : Prop := mkConfined {
  cf_steps : in_order (configured cfg) t;
  cf_filter : trap_all_syscalls cfg = true ->
    exists t0 r, t = t0 ++ [(H_seccomp SECCOMP_FILTER_FLAG_TSYNC (program cfg), r)] /\ 0 <= rv r
}.

(** A part of the set-up: it does not enter the guest, never exits, and when it
    answers [true] the steps [ss] were done after those done before. *)
Definition performs (m : IO bool) (ss : list Step) : Prop :=
  forall o t ss0, no_entry t -> in_order ss0 t ->
    wp m (fun b t' => no_entry t' /\ (b = true -> in_order (ss0 ++ ss) t')) (fun _ _ => False) o t.

(** The same for a step whose answer is ignored. *)
Definition harmless {A} (m : IO A) : Prop :=
  forall o t, no_entry t ->
    wp m (fun _ t' => t `prefix_of` t' /\ no_entry t') (fun _ _ => False) o t.

End IsolationSpec.

(** ** Lemmas *)
Section Lemmas.
Import NamespaceSetup Capabilities SeccompFilter GuestProcess IsolationSpec.

Lemma no_entry_snoc t c r : no_entry t -> c <> H_guest_entry -> no_entry (t ++ [(c, r)]).
Proof.
  unfold no_entry. rewrite fmap_app, elem_of_app. intros ? ? [?|H]; [done|].
  simpl in H. by apply list_elem_of_singleton in H.
Qed.

Lemma succeeded_prefix t t' c : t `prefix_of` t' -> succeeded t c -> succeeded t' c.
Proof. intros [k ->]. apply succeeded_app_l. Qed.

Lemma harmless_call c : c <> H_guest_entry -> harmless (host_rv c).
Proof.
  intros Hc o t Ht. wp_step. split; [by apply prefix_app_r|by apply no_entry_snoc].
Qed.

Lemma harmless_ret {A} (a : A) : harmless (mret a).
Proof. intros o t Ht. wp_step. by split. Qed.

Lemma harmless_bind {A B} (m : IO A) (f : A -> IO B) :
  harmless m -> (forall a, harmless (f a)) -> harmless (m ≫= f).
Proof.
  intros Hm Hf o t Ht. apply wp_bind. eapply wp_mono; [by apply Hm|simpl|done].
  intros a t' [Hp Ht']. eapply wp_mono; [by apply Hf|simpl|done].
  intros b t'' [Hp' Ht'']. split; [by etrans|done].
Qed.

Lemma harmless_seq ms : Forall harmless ms -> harmless (io_seq ms).
Proof.
  induction 1; simpl; [apply harmless_ret|]. by apply harmless_bind.
Qed.

Lemma in_order_prefix ss t t' : t `prefix_of` t' -> in_order ss t -> in_order ss t'.
Proof. intros [k ->] (l & Hl & HF). exists l. split; [|done]. by apply sublist_inserts_r. Qed.

Lemma in_order_snoc ss t (s : Step) cr : in_order ss t -> s cr -> in_order (ss ++ [s]) (t ++ [cr]).
Proof.
  intros (l & Hl & HF) Hs. exists (l ++ [cr]). split; [by apply sublist_app|].
  apply Forall2_app; [done|]. by constructor.
Qed.

Lemma performs_true : performs (mret true) [].
Proof. intros o t ss0 Ht H0. wp_step. rewrite app_nil_r. by split. Qed.
Lemma performs_false ss : performs (mret false) ss.
Proof. intros o t ss0 Ht H0. wp_step. by split. Qed.

Lemma performs_rv c : c <> H_guest_entry -> performs (r ← host_rv c; mret (0 <=? r)) [done_step c].
Proof.
  intros Hc o t ss0 Ht H0. repeat wp_step. split; [by apply no_entry_snoc|].
  intros Hr. apply in_order_snoc; [done|]. split; [done|]. simpl. lia.
Qed.

(** A harmless action in front of a part. *)
Lemma performs_after {A} (m : IO A) (f : A -> IO bool) ss :
  harmless m -> (forall a, performs (f a) ss) -> performs (m ≫= f) ss.
Proof.
  intros Hm Hf o t ss0 Ht H0. apply wp_bind. eapply wp_mono; [by apply Hm|simpl|done].
  intros a t' [Hp Ht']. apply Hf; [done|]. by eapply in_order_prefix.
Qed.

(** A call that stops the part when [bad], and continues it otherwise. *)
Lemma performs_call c (s : Step) (bad : Z -> bool) (k : Z -> IO bool) ss :
  c <> H_guest_entry -> (forall r, bad (rv r) = false -> s (c, r)) -> (forall r, performs (k r) ss) ->
  performs (r ← host_rv c; if bad r then mret false else k r) (s :: ss).
Proof.
  intros Hc Hs Hk o t ss0 Ht H0. apply wp_bind. wp_step. simpl.
  pose proof (no_entry_snoc t c r Ht Hc) as Ht'. destruct (bad (rv r)) eqn:E.
  - wp_step. by split.
  - change (ss0 ++ s :: ss) with (ss0 ++ [s] ++ ss). rewrite (app_assoc ss0). apply Hk; [done|].
    apply in_order_snoc; [done|]. by apply Hs.
Qed.

Lemma performs_seq m n ss ss' :
  performs m ss -> performs n ss' -> performs (ok ← m; if negb ok then mret false else n) (ss ++ ss').
Proof.
  intros Hm Hn o t ss0 Ht H0. apply wp_bind. eapply wp_mono; [by apply Hm|simpl|done].
  intros b t' (Ht' & Hb). destruct b; simpl; [|by wp_step; split].
  rewrite app_assoc. by apply Hn; [|apply Hb].
Qed.

Lemma performs_if (b : bool) m ss : performs m ss -> performs (if b then m else mret true) (when_ b ss).
Proof. intros H. destruct b; [done|apply performs_true]. Qed.

Lemma unshareAll_performs cfg :
  performs (unshareAll cfg) (when_ (negb (unshare_flags cfg =? 0)) [done_step (H_unshare (unshare_flags cfg))]).
Proof. unfold unshareAll. destruct (_ =? 0); [apply performs_true|by apply performs_rv]. Qed.

Lemma setHostname_performs cfg :
  performs (setHostname cfg) (when_ (use_uts_ns cfg) [done_step (H_sethostname (guest_hostname cfg))]).
Proof. unfold setHostname. destruct (use_uts_ns cfg); [by apply performs_rv|apply performs_true]. Qed.

Lemma harmless_then c {A} (a : A) : c <> H_guest_entry -> harmless (_ ← host_rv c; mret a).
Proof. intros. apply harmless_bind; [by apply harmless_call|intros; apply harmless_ret]. Qed.

Lemma bind_dev_harmless root bm : harmless (bind_dev root bm).
Proof.
  unfold bind_dev. apply harmless_bind; [by apply harmless_call|intros fd].
  apply harmless_bind; [|intros _; by apply harmless_then].
  destruct (_ <=? _); [by apply harmless_call|apply harmless_ret].
Qed.

Lemma mount_skeleton_harmless root : harmless (mount_skeleton root).
Proof.
  unfold mount_skeleton. apply harmless_bind; [|intros _; apply harmless_bind].
  - apply harmless_seq, Forall_fmap, Forall_true. intros d. by apply harmless_then.
  - apply harmless_seq, Forall_fmap, Forall_true. apply bind_dev_harmless.
  - intros _. by apply harmless_then.
Qed.

Lemma change_root_performs :
  performs change_root
    [fun cr => done_step (H_pivot_root (cstr ".") (cstr ".")) cr \/ done_step (H_chroot (cstr ".")) cr].
Proof.
  intros o t ss0 Ht H0. unfold change_root. apply wp_bind. wp_step.
  pose proof (no_entry_snoc t (H_pivot_root (cstr ".") (cstr ".")) r Ht ltac:(done)) as Ht'.
  destruct (rv r <? 0) eqn:E.
  - repeat wp_step. split; [by apply no_entry_snoc|]. intros Hr. apply in_order_snoc.
    + by eapply in_order_prefix; [apply prefix_app_r|].
    + right. split; [done|]. simpl. lia.
  - wp_step. split; [done|]. intros _. apply in_order_snoc; [done|]. left. split; [done|]. simpl. lia.
Qed.

Lemma done_nonneg c r : (rv r <? 0) = false -> done_step c (c, r).
Proof. intros E. split; [done|]. simpl. lia. Qed.

Lemma pivotIntoJail_performs cfg : performs (pivotIntoJail cfg) (when_ (use_mount_ns cfg) (jail_steps cfg)).
Proof.
  unfold pivotIntoJail. destruct (use_mount_ns cfg); [|apply performs_true]. cbn [negb when_]. unfold jail_steps.
  apply (performs_call _ _ (fun r => r <? 0)); [done|apply done_nonneg|intros _].
  apply (performs_call _ _ (fun r => (r <? 0) && negb (- r =? EEXIST))); [done| |intros _].
  { intros r E. split; [done|]. simpl. lia. }
  apply (performs_call _ _ (fun r => r <? 0)); [done|apply done_nonneg|intros _].
  apply performs_after; [apply mount_skeleton_harmless|intros _].
  apply (performs_call _ _ (fun r => r <? 0)); [done|apply done_nonneg|intros _].
  apply (performs_seq _ _ [_] [_]); [apply change_root_performs|by apply performs_rv].
Qed.

Lemma TrapGate_performs : performs TrapGate_install [done_step H_sigaltstack; done_step H_sigaction_sigsys].
Proof.
  unfold TrapGate_install. apply (performs_call _ _ (fun r => r <? 0)); [done|apply done_nonneg|intros _].
  by apply performs_rv.
Qed.

Lemma drop_bounding_harmless n cap : harmless (drop_bounding n cap).
Proof.
  revert cap. induction n as [|n IH]; intros cap; simpl; [apply harmless_ret|].
  apply harmless_bind; [by apply harmless_call|done].
Qed.

Lemma dropAll_performs : performs dropAll [done_step H_capset_zero].
Proof.
  unfold dropAll. apply performs_after.
  - intros o t Ht. wp_step. split; [by apply prefix_app_r|by apply no_entry_snoc].
  - intros r. apply performs_after; [apply drop_bounding_harmless|intros _]. by apply performs_rv.
Qed.

(** One part of the child's set-up: when it fails the child exits. *)
Lemma child_part {A} m ss ss0 (k : IO A) c Q E o t :
  performs m ss -> no_entry t -> in_order ss0 t ->
  (forall t', no_entry t' -> E c t') ->
  (forall t', no_entry t' -> in_order (ss0 ++ ss) t' -> wp k Q E o t') ->
  wp (ok ← m; if negb ok then io_exit c else k) Q E o t.
Proof.
  intros Hm Ht H0 HE Hk. apply wp_bind. eapply wp_mono; [by apply Hm|simpl|done].
  intros b t' (Ht' & Hb). destruct b; simpl; [by apply Hk; auto|]. wp_step. by apply HE.
Qed.

Lemma child_part_strict {A} m ss ss0 (k : IO A) c Q E o t :
  performs m ss -> no_entry t -> in_order ss0 t ->
  (forall t', no_entry t' -> E c t') ->
  (forall t', no_entry t' -> in_order (ss0 ++ ss) t' -> wp k Q E o t') ->
  wp (ok ← m; if negb ok && true then io_exit c else k) Q E o t.
Proof.
  intros Hm Ht H0 HE Hk. apply wp_bind. eapply wp_mono; [by apply Hm|simpl|done].
  intros b t' (Ht' & Hb). destruct b; simpl; [by apply Hk; auto|]. wp_step. by apply HE.
Qed.

(** The straight-line shape of the filter program. *)
Definition allow_pair (nr : Z) : list sock_filter :=
  [(BPF_JMP_JEQ_K, 0, 1, u32 nr); (BPF_RET_K, 0, 0, SECCOMP_RET_ALLOW)].

Lemma build_shape cfg :
  build cfg = (BPF_LD_W_ABS, 0, 0, 0) :: concat (allow_pair <$> syscall_allowlist cfg)
              ++ [(BPF_RET_K, 0, 0, SECCOMP_RET_TRAP)].
Proof.
  unfold build. assert (forall l acc, foldl allow_one acc l = acc ++ concat (allow_pair <$> l)) as ->.
  { induction l as [|nr l IH]; intros acc; simpl; [by rewrite app_nil_r|].
    rewrite IH. unfold allow_one, jumpIfEqual, ret, emit. by rewrite <- !app_assoc. }
  done.
Qed.

Lemma length_allow_pairs l : length (concat (allow_pair <$> l)) = (2 * length l)%nat.
Proof. induction l; csimpl; lia. Qed.

Lemma bpf_run_allow l data acc fuel :
  (2 * length l + 1 <= fuel)%nat ->
  bpf_run fuel data acc (concat (allow_pair <$> l) ++ [(BPF_RET_K, 0, 0, SECCOMP_RET_TRAP)]) =
    Some (if bool_decide (acc ∈ u32 <$> l) then SECCOMP_RET_ALLOW else SECCOMP_RET_TRAP).
Proof.
  revert fuel. induction l as [|nr l IH]; intros fuel Hf.
  - destruct fuel; [simpl in Hf; lia|]. done.
  - rewrite length_cons in Hf. destruct fuel as [|fuel]; [lia|]. csimpl.
    destruct (acc =? u32 nr) eqn:E; simpl.
    + destruct fuel as [|fuel]; [lia|]. simpl.
      rewrite bool_decide_true; [done|]. apply elem_of_cons. left. lia.
    + rewrite drop_0, IH by lia. f_equal.
      erewrite bool_decide_ext; [reflexivity|].
      rewrite elem_of_cons. split; [by right|]. intros [?|?]; [lia|done].
Qed.

End Lemmas.

(** ** Properties *)
Section Properties.
Import NamespaceSetup Capabilities SeccompFilter GuestProcess IsolationSpec.

(** What is known at the end of a child: it exits without having entered, or enters last. *)
Definition child_end (cfg : IsolationConfig) (c : Z) (t : Trace) : Prop :=
  match c with
  | 1 => no_entry t
  | _ => c = 0 /\ exists t0 r, t = t0 ++ [(H_guest_entry, r)] /\ no_entry t0 /\ confined cfg t0
  end.

(** The last two steps: the filter and the entry. *)
Lemma filter_and_enter cfg ss0 o t :
  no_entry t -> in_order ss0 t ->
  configured cfg = ss0 ++ when_ (trap_all_syscalls cfg) [done_step (H_seccomp SECCOMP_FILTER_FLAG_TSYNC (program cfg))] ->
  wp (ok ← (if trap_all_syscalls cfg then install cfg else mret true);
      if negb ok then io_exit 1 else _ ← host_rv H_guest_entry; io_exit 0 : IO unit)
    (fun _ _ => False) (child_end cfg) o t.
Proof.
  intros Ht H0 HC. apply wp_bind. destruct (trap_all_syscalls cfg) eqn:Et.
  - unfold install, installImpl. apply wp_bind. wp_step. wp_step. simpl.
    pose proof (no_entry_snoc t (H_seccomp 1 (program cfg)) r Ht ltac:(done)) as N.
    destruct (0 <=? rv r) eqn:Er; simpl; [|by wp_step].
    apply wp_bind. wp_step. wp_step. split; [done|]. do 2 eexists.
    split; [reflexivity|]. split; [done|]. constructor.
    + rewrite HC. apply in_order_snoc; [done|]. split; [done|]. simpl. lia.
    + intros _. do 2 eexists. split; [reflexivity|lia].
  - wp_step. simpl. apply wp_bind. wp_step. wp_step. split; [done|].
    do 2 eexists. split; [reflexivity|]. split; [done|]. constructor; [|congruence].
    rewrite HC, app_nil_r. done.
Qed.



(** C15: the kernel's verdict on the program the builder emits is exactly the
    allowlist: a syscall number is allowed when it is listed and trapped
    otherwise, for any list whose program length fits the 16-bit [prog.len]. *)
Theorem seccomp_exact cfg nr :
  Z.of_nat (length (syscall_allowlist cfg)) <= 32766 ->
  verdict cfg nr =
    Some (if bool_decide (u32 nr ∈ u32 <$> syscall_allowlist cfg)
          then SECCOMP_RET_ALLOW else SECCOMP_RET_TRAP).
Proof.
  intros Hl. unfold verdict.
  assert (length (build cfg) = 2 * length (syscall_allowlist cfg) + 2)%nat as Hb.
  { rewrite build_shape, length_cons, length_app, length_allow_pairs. simpl. lia. }
  assert (program cfg = build cfg) as Hp.
  { unfold program. rewrite wrap_id by (unfold in_width; lia). rewrite Nat2Z.id. apply firstn_all. }
  rewrite Hp, Hb, build_shape.
  replace (2 * _ + 2)%nat with (S (2 * length (syscall_allowlist cfg) + 1)) by lia.
  cbn [bpf_run]. simpl (_ =? _). cbv iota. by rewrite bpf_run_allow.
Qed.

Lemma seccomp_exact_witness :
  verdict default_config 1 = Some SECCOMP_RET_TRAP /\
  verdict default_config 202 = Some SECCOMP_RET_ALLOW.
Proof.
  split; rewrite (seccomp_exact default_config) by (vm_compute; discriminate); reflexivity.
Defined.

(** The environment can relax the isolation but never widen the allowlist,
    and with no variable set the configuration is the most restrictive one. *)
Theorem env_config getenv :
  syscall_allowlist (loadIsolationConfigFromEnvironment getenv) = default_allowlist /\
  ((forall nm, getenv nm = None) -> loadIsolationConfigFromEnvironment getenv = default_config).
Proof.
  split; [done|]. intros H. unfold loadIsolationConfigFromEnvironment, envBool, envStr.
  by rewrite !H.
Qed.

Lemma env_config_witness :
  loadIsolationConfigFromEnvironment (fun _ => None) = default_config.
Proof. exact (proj2 (env_config (fun _ => None)) (fun _ => eq_refl)). Defined.

End Properties.
