(* ===== verification/Process.v ===== *)
(** * The guest process and the syscall dispatcher

    [runtime/process/PS4Process.cpp] composes the address space, the handle
    table and the thread manager and moves through its states;
    [syscall/SyscallContext.hpp] and [syscall/SyscallDispatcher.cpp] route a
    numbered call to its handler.  The virtual filesystem the handlers reach
    through the process and the process's memory are fields of it. *)
From S2P Require Import Prelude Memory FreeBsd Vfs AddressSpace Handles Threads Host.

(** ** [PS4Process] *)
Module PS4Process.

Inductive ProcessState := Created | Loading | Ready | Running | Suspended | Exited.

#[export] Instance ProcessState_eq_dec : EqDecision ProcessState.
Proof. solve_decision. Defined.

Record t := mkProcess {
  m_id : Z;
  m_name : bytes;
  m_state : ProcessState;
  m_addressSpace : AddressSpace.t;
  m_handleTable : HandleTable.t;
  m_threads : ThreadManager.t;
  m_mainThread : Z;
  m_vfs : FsPolicy.t;
  m_mem : Memory
}.

Definition make (id : Z) (name : bytes) (vfs : FsPolicy.t) : t :=
  mkProcess id name Created AddressSpace.initial HandleTable.initial ThreadManager.initial 0 vfs ∅.

Definition set_state (st : ProcessState) (p : t) : t :=
  mkProcess (m_id p) (m_name p) st (m_addressSpace p) (m_handleTable p) (m_threads p)
    (m_mainThread p) (m_vfs p) (m_mem p).
Definition set_space (a : AddressSpace.t) (p : t) : t :=
  mkProcess (m_id p) (m_name p) (m_state p) a (m_handleTable p) (m_threads p)
    (m_mainThread p) (m_vfs p) (m_mem p).
Definition set_handles (h : HandleTable.t) (p : t) : t :=
  mkProcess (m_id p) (m_name p) (m_state p) (m_addressSpace p) h (m_threads p)
    (m_mainThread p) (m_vfs p) (m_mem p).
Definition set_threads (th : ThreadManager.t) (main : Z) (p : t) : t :=
  mkProcess (m_id p) (m_name p) (m_state p) (m_addressSpace p) (m_handleTable p) th
    main (m_vfs p) (m_mem p).
Definition set_mem (m : Memory) (p : t) : t :=
  mkProcess (m_id p) (m_name p) (m_state p) (m_addressSpace p) (m_handleTable p) (m_threads p)
    (m_mainThread p) (m_vfs p) m.

Definition kStackSize : Z := 8 * 1024 * 1024.
Definition kHeapSize : Z := 64 * 1024 * 1024.
Definition read_write : Z := AddressSpace.prot_or AddressSpace.Prot_Read AddressSpace.Prot_Write.

Definition init (p : t) (host : SharedArena.HostReply) : t * bool :=
  if negb (bool_decide (m_state p = Created)) then (p, false)
  else
    let '(a0, ok) := AddressSpace.init (m_addressSpace p) host in
    if negb ok then (set_space a0 p, false)
    else
      let '(a1, stack) := AddressSpace.map a0 0 kStackSize read_write (cstr "main-stack") in
      if stack =? 0 then (set_space a1 p, false)
      else
        let '(a2, heap) := AddressSpace.map a1 0 kHeapSize read_write (cstr "main-heap") in
        if heap =? 0 then (set_space a2 p, false)
        else (set_state Ready (set_space a2 p), true).

Definition shutdown (p : t) : t :=
  if bool_decide (m_state p = Exited) then p
  else
    set_state Exited
      (set_space (AddressSpace.destroy (m_addressSpace p))
        (set_handles (HandleTable.closeAll (m_handleTable p))
          (set_threads (fst (ThreadManager.shutdownAll (m_threads p))) (m_mainThread p) p))).

(** Reports UNIMPLEMENTED and fails. *)
Definition loadExecutable (p : t) : t * bool := (set_state Loading p, false).

(** [rc] answers [pthread_create]. *)
Definition startMainThread (p : t) (rc : Z) : t * bool :=
  if negb (bool_decide (m_state p = Ready)) && negb (bool_decide (m_state p = Suspended))
  then (p, false)
  else
    let '(th1, id) := ThreadManager.create (m_threads p) (cstr "main") in
    let '(th2, ok) := ThreadManager.start th1 id rc in
    let p' := set_threads th2 id p in
    if ok then (set_state Running p', true) else (p', false).

Definition all_threads (f : ThreadObject.t -> ThreadObject.t) (s : ThreadManager.t) : ThreadManager.t :=
  ThreadManager.mkManager (ThreadManager.m_next s) (f <$> ThreadManager.m_threads s).

Definition suspend (p : t) : t :=
  if negb (bool_decide (m_state p = Running)) then p
  else set_state Suspended
         (set_threads (all_threads ThreadObject.suspend (m_threads p)) (m_mainThread p) p).

Definition resume (p : t) : t :=
  if negb (bool_decide (m_state p = Suspended)) then p
  else set_state Running
         (set_threads (all_threads ThreadObject.resume (m_threads p)) (m_mainThread p) p).

(** [waitForGuest] once the child, if any, has been waited for. *)
Definition waitForGuest (p : t) (guest_status : option Z) : t * Z :=
  match guest_status with
  | None => (p, 0)
  | Some st => (set_state Exited p, st)
  end.

End PS4Process.

(** ** [SyscallContext] *)
Record SyscallContext := mkCtx {
  number : Z;
  args : list Z;
  retval : Z;
  isError : bool;
  process : option PS4Process.t;
  thread : option Z;
  ctx_name : bytes
}.

Definition arg (ctx : SyscallContext) (i : nat) : Z :=
  if (i <? 6)%nat then nth i (args ctx) 0 else 0.

Definition ok (v : Z) (ctx : SyscallContext) : SyscallContext :=
  mkCtx (number ctx) (args ctx) v false (process ctx) (thread ctx) (ctx_name ctx).
Definition fail_ (e : Z) (ctx : SyscallContext) : SyscallContext :=
  mkCtx (number ctx) (args ctx) e true (process ctx) (thread ctx) (ctx_name ctx).
Definition with_process (p : PS4Process.t) (ctx : SyscallContext) : SyscallContext :=
  mkCtx (number ctx) (args ctx) (retval ctx) (isError ctx) (Some p) (thread ctx) (ctx_name ctx).
Definition with_name (n : bytes) (ctx : SyscallContext) : SyscallContext :=
  mkCtx (number ctx) (args ctx) (retval ctx) (isError ctx) (process ctx) (thread ctx) n.

(** ** [SyscallDispatcher] *)
Module SyscallDispatcher.

(** A handler answers the context it leaves and whether it threw. *)
Definition SyscallHandler := SyscallContext -> IO (SyscallContext * bool).

Record t := mkDispatcher {
  m_handlers : gmap Z (bytes * SyscallHandler);
  m_callCounts : gmap Z Z
}.

Definition initial : t := mkDispatcher ∅ ∅.

(** An empty [std::function] is [None]. *)
Definition registerHandler (num : Z) (name : bytes) (h : option SyscallHandler) (d : t) : t :=
  match h with
  | None => d
  | Some f => mkDispatcher (<[num := (name, f)]> (m_handlers d)) (m_callCounts d)
  end.

Definition hasHandler (d : t) (num : Z) : bool := bool_decide (is_Some (m_handlers d !! num)).
Definition handlerCount (d : t) : nat := size (m_handlers d).
Definition registeredNumbers (d : t) : list Z := (map_to_list (m_handlers d)).*1.

Definition bump (num : Z) (counts : gmap Z Z) : gmap Z Z :=
  <[num := u64 (default 0 (counts !! num) + 1)]> counts.

Definition dispatch (d : t) (ctx : SyscallContext) : IO (t * SyscallContext) :=
  match m_handlers d !! number ctx with
  | None => mret (d, with_name (cstr "unimplemented") (fail_ kEnosys ctx))
  | Some (name, f) =>
      let d' := mkDispatcher (m_handlers d) (bump (number ctx) (m_callCounts d)) in
      '(ctx', threw) ← f (with_name name ctx);
      mret (d', if (threw : bool) then fail_ kEinval ctx' else ctx')
  end.

End SyscallDispatcher.

(** ** Lemmas *)
Section Lemmas.
Import PS4Process.

Lemma space_init_empty host a :
  AddressSpace.init AddressSpace.initial host = (a, true) ->
  Reachable.reachable a /\ AddressSpace.m_regions a = [].
Proof.
  intros H. split; [by eapply Reachable.r_init|].
  revert H. unfold AddressSpace.init. simpl.
  destruct (SharedArena.init _ _ _ _) as [? []]; intros; by simplify_eq.
Qed.

(** One hintless [map] that answers an address. *)
Lemma map_step a len p nm a' w :
  Reachable.reachable a -> AddressSpace.small len ->
  AddressSpace.map a 0 len p nm = (a', w) -> (w =? 0) = false ->
  Reachable.reachable a' /\ exists r,
    AddressSpace.m_regions a' = AddressSpace.m_regions a ++ [r] /\
    AddressSpace.base r = w /\ AddressSpace.size r = align_up len AddressSpace.kPageSize /\
    AddressSpace.prot r = p /\ AddressSpace.name r = nm.
Proof.
  intros Ha Hl E Hw%Z.eqb_neq. assert (AddressSpace.small 0) by (unfold AddressSpace.small; lia).
  destruct (map_result _ _ _ _ _ _ _ Ha H Hl E) as [[? _]|(_ & _ & hp & Hr)]; [done|].
  split; [|rewrite Hr; by eexists].
  replace a' with (fst (AddressSpace.map a 0 len p nm)) by (by rewrite E). by apply Reachable.r_map.
Qed.

End Lemmas.

(** ** Properties *)
Section Properties.
Import PS4Process.

(** A process whose [init] succeeds is Ready, its memory is well formed
    and holds exactly the main stack and the main heap, read-write, of 8 and
    64 MiB and disjoint; and [init] is accepted only once. *)
Theorem init_ready id nm vfs host p :
  init (make id nm vfs) host = (p, true) ->
  m_state p = Ready /\ AddressSpace.wf (m_addressSpace p) /\
  (exists st hp, AddressSpace.m_regions (m_addressSpace p) = [st; hp] /\
     AddressSpace.size st = kStackSize /\ AddressSpace.size hp = kHeapSize /\
     AddressSpace.prot st = 3 /\ AddressSpace.prot hp = 3 /\ AddressSpace.disjoint st hp) /\
  init p host = (p, false).
Proof.
  unfold init, make. cbn [m_state m_addressSpace].
  rewrite bool_decide_true by done. cbn [negb].
  destruct (AddressSpace.init AddressSpace.initial host) as [a0 []] eqn:E0; [|done]. cbn [negb].
  destruct (AddressSpace.map a0 _ _ _ _) as [a1 w1] eqn:E1.
  destruct (w1 =? 0) eqn:W1; [done|].
  destruct (AddressSpace.map a1 _ _ _ _) as [a2 w2] eqn:E2.
  destruct (w2 =? 0) eqn:W2; [done|]. intros H.
  assert (p = set_state Ready (set_space a2 (mkProcess id nm Created AddressSpace.initial
    HandleTable.initial ThreadManager.initial 0 vfs ∅))) as -> by congruence.
  cbn [set_state set_space m_state m_addressSpace].
  destruct (space_init_empty _ _ E0) as [R0 Hnil].
  assert (AddressSpace.small kStackSize /\ AddressSpace.small kHeapSize) as [L1 L2]
    by (unfold AddressSpace.small, kStackSize, kHeapSize; lia).
  destruct (map_step _ _ _ _ _ _ R0 L1 E1 W1)
    as (R1 & st & H1 & B1 & S1 & P1 & _).
  destruct (map_step _ _ _ _ _ _ R1 L2 E2 W2)
    as (R2 & hp & H2 & B2 & S2 & P2 & _).
  pose proof (addr_reachable_inv _ R2) as Hwf.
  rewrite H1, Hnil in H2. split; [done|]. split; [done|]. split; [|done].
  exists st, hp. rewrite S1, S2, P1, P2. split_and!; try done.
  pose proof (AddressSpace.wf_disjoint _ Hwf) as Hd. rewrite H2 in Hd.
  inversion Hd as [|? ? Hd1 _]; subst. by apply Forall_cons in Hd1 as [? _].
Qed.

Lemma init_ready_witness :
  let r := init (make 1 (cstr "CUSA00001") FsPolicy.default_policy)
             (SharedArena.mkReply 5 true (Some AddressSpace.kGuestBase)) in
  r.2 = true /\ m_state r.1 = Ready.
Proof.
  intros r. assert (Hr : r = (r.1, true)) by (vm_compute; reflexivity).
  split; [vm_compute; reflexivity|].
  exact (proj1 (init_ready 1 (cstr "CUSA00001") FsPolicy.default_policy
    (SharedArena.mkReply 5 true (Some AddressSpace.kGuestBase)) r.1 Hr)).
Defined.

(** [shutdown] releases everything a process owns (no region, no handle,
    no thread is left, and the state is Exited) unless it is already Exited;
    but [waitForGuest] reports the exit of a guest by setting the state to
    Exited, and then [shutdown] releases nothing: the regions and the handles,
    with their host descriptors, stay. *)
Theorem shutdown_releases p :
  (m_state p <> Exited ->
     m_state (shutdown p) = Exited /\
     AddressSpace.m_regions (m_addressSpace (shutdown p)) = [] /\
     HandleTable.m_objects (m_handleTable (shutdown p)) = ∅ /\
     ThreadManager.m_threads (m_threads (shutdown p)) = ∅) /\
  (forall st, shutdown (fst (waitForGuest p (Some st))) = fst (waitForGuest p (Some st)) /\
     m_addressSpace (shutdown (fst (waitForGuest p (Some st)))) = m_addressSpace p /\
     m_handleTable (shutdown (fst (waitForGuest p (Some st)))) = m_handleTable p).
Proof.
  split.
  - intros H. unfold shutdown. rewrite bool_decide_false by done. by split_and!.
  - intros st. by split_and!.
Qed.

Lemma shutdown_releases_witness :
  m_state (shutdown (make 1 [] FsPolicy.default_policy)) = Exited.
Proof.
  exact (proj1 (proj1 (shutdown_releases (make 1 [] FsPolicy.default_policy)) ltac:(discriminate))).
Defined.

End Properties.
