(* ===== verification/Handlers.v ===== *)
(** * The syscall handlers

    [syscall/handlers/Handlers.cpp], one definition per handler.  A handler
    runs in [IO]: the host answers are the oracle's, [errno] after a failed
    call is the negation of its answer, and a dereference of unmapped memory or
    of a null process ends the run with [fault_code] (SIGSEGV). *)
From S2P Require Import Prelude Memory FreeBsd Vfs AddressSpace Handles Threads Host Process.

Definition fault_code : Z := 139.
Definition fault {A} : IO A := io_exit fault_code.

(** ** Translation helpers *)

(** Linux [errno] values (asm-generic/errno*.h) paired with the FreeBSD code of
    each [case] of the switch. *)
Definition host_errno_table : list (Z * Z) :=
  [(0, kOk); (1 (* EPERM *), kEperm); (2 (* ENOENT *), kEnoent); (3 (* ESRCH *), kEsrch);
   (4 (* EINTR *), kEintr); (5 (* EIO *), kEio); (6 (* ENXIO *), kEnxio); (9 (* EBADF *), kEbadf);
   (11 (* EAGAIN *), kEagain); (12 (* ENOMEM *), kEnomem); (13 (* EACCES *), kEacces);
   (14 (* EFAULT *), kEfault); (16 (* EBUSY *), kEbusy); (17 (* EEXIST *), kEexists);
   (18 (* EXDEV *), kExdev); (19 (* ENODEV *), kEnodev); (20 (* ENOTDIR *), kEnotdir);
   (21 (* EISDIR *), kEisdir); (22 (* EINVAL *), kEinval); (23 (* ENFILE *), kEnfile);
   (24 (* EMFILE *), kEmfile); (28 (* ENOSPC *), kEnospc); (29 (* ESPIPE *), kEspipe);
   (30 (* EROFS *), kErofs); (32 (* EPIPE *), kEpipe); (34 (* ERANGE *), kErange);
   (38 (* ENOSYS *), kEnosys); (36 (* ENAMETOOLONG *), kEnametoolong);
   (95 (* EOPNOTSUPP *), kEopnotsupp); (39 (* ENOTEMPTY *), kEnotempty)].

Fixpoint switch_lookup (tbl : list (Z * Z)) (dflt e : Z) : Z :=
  match tbl with
  | [] => dflt
  | (k, v) :: rest => if k =? e then v else switch_lookup rest dflt e
  end.

Definition translateHostErrnoToFreeBsd (e : Z) : Z := switch_lookup host_errno_table kEinval e.

(** The outcome of reading a string: fault, too long (or null), or the string. *)
Inductive StringRead := SFault | SNone | SSome (s : bytes).

Fixpoint read_string_loop (m : Memory) (addr : Z) (fuel : nat) (acc : bytes) : StringRead :=
  match fuel with
  | O => SNone
  | S fuel' =>
      match m !! addr with
      | None => SFault
      | Some c => if c =? 0 then SSome acc else read_string_loop m (addr + 1) fuel' (acc ++ [c])
      end
  end.

#[global] Arguments read_string_loop : simpl never.

Definition maxLen : nat := 64 * 64.

Definition readGuestString (m : Memory) (guestAddr : Z) : IO (option bytes) :=
  if guestAddr =? 0 then mret None
  else match read_string_loop m guestAddr maxLen [] with
       | SFault => fault
       | SNone => mret None
       | SSome s => mret (Some s)
       end.

(** The Linux open flags. *)
Definition convertOpenFlags (f : Z) : Z :=
  let set (b : Z) (v out : Z) := if negb (Z.land f b =? 0) then Z.lor out v else out in
  let acc := Z.land f kO_AccMode in
  let out0 := if acc =? kO_RdOnly then 0 else if acc =? kO_WrOnly then 1
              else if acc =? kO_RdWr then 2 else 0 in
  let out1 := set kO_NonBlock 0x800 out0 in
  let out2 := set kO_Append 0x400 out1 in
  let out3 := set kO_Creat 0x40 out2 in
  let out4 := set kO_Trunc 0x200 out3 in
  let out5 := set kO_Excl 0x80 out4 in
  let out6 := set kO_CloExec 0x80000 out5 in
  set kO_Directory 0x10000 out6.

(** The fields of a host [struct stat], in the order the call delivers them. *)
Record LinuxStat := mkLinuxStat {
  l_dev : Z; l_ino : Z; l_nlink : Z; l_mode : Z; l_uid : Z; l_gid : Z; l_rdev : Z;
  l_atim : Z * Z; l_mtim : Z * Z; l_ctim : Z * Z; l_size : Z; l_blocks : Z; l_blksize : Z
}.

Definition linux_stat (o : list Z) : LinuxStat :=
  let f i := nth i o 0 in
  mkLinuxStat (f 0%nat) (f 1%nat) (f 2%nat) (f 3%nat) (f 4%nat) (f 5%nat) (f 6%nat)
    (f 7%nat, f 8%nat) (f 9%nat, f 10%nat) (f 11%nat, f 12%nat) (f 13%nat) (f 14%nat) (f 15%nat).

(** [struct Stat], packed: the 144 bytes written to the guest, with the
    [memset] zeroes in the fields [fillStatFromLinux] leaves alone. *)
Definition time_spec (ts : Z * Z) : bytes :=
  le_encode 8 (u64 ts.1) ++ le_encode 8 (u64 ts.2).

Definition fillStatFromLinux (src : LinuxStat) : bytes :=
  le_encode 8 (u64 (l_dev src)) ++ le_encode 8 (u64 (l_ino src)) ++
  le_encode 8 (u64 (l_nlink src)) ++ le_encode 2 (u16 (l_mode src)) ++ le_encode 2 0 ++
  le_encode 4 (u32 (l_uid src)) ++ le_encode 4 (u32 (l_gid src)) ++ le_encode 4 0 ++
  le_encode 8 (u64 (l_rdev src)) ++
  time_spec (l_atim src) ++ time_spec (l_mtim src) ++ time_spec (l_ctim src) ++
  le_encode 8 (u64 (l_size src)) ++ le_encode 8 (u64 (l_blocks src)) ++
  le_encode 4 (u32 (l_blksize src)) ++ le_encode 4 0 ++ le_encode 4 0 ++ le_encode 4 0 ++
  le_encode 8 0 ++ le_encode 8 0.

(** ** Access to the context *)

(** [*ctx.process]. *)
Definition the_process (ctx : SyscallContext) : IO PS4Process.t :=
  match process ctx with Some p => mret p | None => fault end.

(** [static_cast<Handle>] and [static_cast<int>]. *)
Definition arg_i32 (ctx : SyscallContext) (i : nat) : Z := i32 (arg ctx i).

Definition handle_of (p : PS4Process.t) (h : Z) : option HandleObject :=
  HandleTable.get (PS4Process.m_handleTable p) h.

(** [dynamic_pointer_cast<FileHandle>]: the descriptor and the open flags. *)
Definition as_file (o : option HandleObject) : option (Z * Z) :=
  match o with Some (FileHandle fd _ _ flags) => Some (fd, flags) | _ => None end.

Definition register (p : PS4Process.t) (o : HandleObject) : PS4Process.t * Z :=
  let '(tbl, h) := HandleTable.registerObject (PS4Process.m_handleTable p) (Some o) in
  (PS4Process.set_handles tbl p, h).

Definition write_mem (ctx : SyscallContext) (p : PS4Process.t) (addr : Z) (bs : bytes) : SyscallContext :=
  with_process (PS4Process.set_mem (store_bytes (PS4Process.m_mem p) addr bs) p) ctx.

(** [memcpy(dst, ..)] by the runtime itself: the destination must be mapped. *)
Definition copy_out (ctx : SyscallContext) (p : PS4Process.t) (addr : Z) (bs : bytes) : IO SyscallContext :=
  if mapped_range (PS4Process.m_mem p) addr (length bs) then mret (write_mem ctx p addr bs)
  else fault.

(** Answer 0, or the translated [errno]. *)
Definition ok_or_errno (ctx : SyscallContext) (r : Z) : SyscallContext :=
  if r =? 0 then ok 0 ctx else fail_ (translateHostErrnoToFreeBsd (- r)) ctx.

(** Read the path at [addr] and resolve it for [op]; [k] gets the host path.
    The prologue every path handler repeats. *)
Definition with_path (ctx : SyscallContext) (p : PS4Process.t) (addr : Z) (op : FsPolicy.FsOp)
    (k : VirtualFileSystem.Translation -> IO SyscallContext) : IO SyscallContext :=
  g ← readGuestString (PS4Process.m_mem p) addr;
  match g with
  | None => mret (fail_ kEfault ctx)
  | Some guestPath =>
      let '(tr, perr) := VirtualFileSystem.resolve (PS4Process.m_vfs p) guestPath op in
      if negb (VirtualFileSystem.ok tr)
      then mret (fail_ (if perr =? 0 then kEnoent else perr) ctx)
      else k tr
  end.

(** ** Filesystem handlers *)

Definition open_op (flags : Z) : FsPolicy.FsOp :=
  if negb (Z.land flags kO_Directory =? 0) then FsPolicy.List_
  else if negb (Z.land flags kO_Creat =? 0) then FsPolicy.Create
  else if Z.land flags kO_AccMode =? kO_RdOnly then FsPolicy.Read else FsPolicy.Write.

Definition h_open (ctx : SyscallContext) : IO SyscallContext :=
  p ← the_process ctx;
  let flags := arg_i32 ctx 1 in
  let isDir := negb (Z.land flags kO_Directory =? 0) in
  with_path ctx p (arg ctx 0) (open_op flags) (fun tr =>
    let hostPath := VirtualFileSystem.tr_hostPath tr in
    let guestPath := VirtualFileSystem.tr_guestPath tr in
    fd ← host_rv (H_open hostPath (convertOpenFlags flags) (Z.land (arg ctx 2) 4095));
    if fd <? 0 then mret (fail_ (translateHostErrnoToFreeBsd (- fd)) ctx)
    else
      let obj := if isDir then DirectoryHandle fd guestPath hostPath
                 else FileHandle fd guestPath hostPath flags in
      let '(p', h) := register p obj in
      mret (ok h (with_process p' ctx))).

(** The destructor of the dropped object closes its descriptor. *)
Definition h_close (ctx : SyscallContext) : IO SyscallContext :=
  p ← the_process ctx;
  let h := arg_i32 ctx 0 in
  match handle_of p h with
  | None => mret (fail_ kEbadf ctx)
  | Some _ =>
      let '(tbl, closed, dropped) := HandleTable.close (PS4Process.m_handleTable p) h in
      if negb closed then mret (fail_ kEbadf ctx)
      else
        let ctx' := ok 0 (with_process (PS4Process.set_handles tbl p) ctx) in
        match dropped ≫= owned_fd with
        | None => mret ctx'
        | Some fd => _ ← host_rv (H_close fd); mret ctx'
        end
  end.

Definition h_read (ctx : SyscallContext) : IO SyscallContext :=
  p ← the_process ctx;
  match as_file (handle_of p (arg_i32 ctx 0)) with
  | None => mret (fail_ kEbadf ctx)
  | Some (fd, flags) =>
      if negb (isReadable flags) then mret (fail_ kEbadf ctx)
      else
        let buf := arg ctx 1 in
        r ← host_call (H_read fd buf (arg ctx 2));
        if rv r <? 0 then mret (fail_ (translateHostErrnoToFreeBsd (- rv r)) ctx)
        else mret (ok (rv r) (write_mem ctx p buf (take (Z.to_nat (rv r)) (out r))))
  end.

Definition h_write (ctx : SyscallContext) : IO SyscallContext :=
  p ← the_process ctx;
  match as_file (handle_of p (arg_i32 ctx 0)) with
  | None => mret (fail_ kEbadf ctx)
  | Some (fd, flags) =>
      if negb (isWritable flags) then mret (fail_ kEbadf ctx)
      else
        n ← host_rv (H_write fd (arg ctx 1) (arg ctx 2));
        if n <? 0 then mret (fail_ (translateHostErrnoToFreeBsd (- n)) ctx)
        else mret (ok n ctx)
  end.

Definition h_lseek (ctx : SyscallContext) : IO SyscallContext :=
  p ← the_process ctx;
  match as_file (handle_of p (arg_i32 ctx 0)) with
  | None => mret (fail_ kEbadf ctx)
  | Some (fd, _) =>
      r ← host_rv (H_lseek fd (i64 (arg ctx 1)) (arg_i32 ctx 2));
      if r <? 0 then mret (fail_ (translateHostErrnoToFreeBsd (- r)) ctx)
      else mret (ok r ctx)
  end.

Definition h_fstat (ctx : SyscallContext) : IO SyscallContext :=
  p ← the_process ctx;
  match handle_of p (arg_i32 ctx 0) with
  | None => mret (fail_ kEbadf ctx)
  | Some (EventObject _ | KernelSemaObject _ | ThreadHandleObj _ | PadHandleObj _ | PortHandleObj _) => mret (fail_ kEinval ctx)
  | Some (FileHandle fd _ _ _) | Some (DirectoryHandle fd _ _) | Some (SocketHandle fd _ _ _) =>
      r ← host_call (H_fstat fd);
      if negb (rv r =? 0) then mret (fail_ (translateHostErrnoToFreeBsd (- rv r)) ctx)
      else
        let dst := arg ctx 1 in
        if dst =? 0 then mret (fail_ kEfault ctx)
        else
          ctx' ← copy_out ctx p dst (fillStatFromLinux (linux_stat (out r)));
          mret (ok 0 ctx')
  end.

Definition h_stat (ctx : SyscallContext) : IO SyscallContext :=
  p ← the_process ctx;
  with_path ctx p (arg ctx 0) FsPolicy.Read (fun tr =>
    r ← host_call (H_stat (VirtualFileSystem.tr_hostPath tr));
    if negb (rv r =? 0) then mret (fail_ (translateHostErrnoToFreeBsd (- rv r)) ctx)
    else
      ctx' ← copy_out ctx p (arg ctx 1) (fillStatFromLinux (linux_stat (out r)));
      mret (ok 0 ctx')).

Definition h_mkdir (ctx : SyscallContext) : IO SyscallContext :=
  p ← the_process ctx;
  with_path ctx p (arg ctx 0) FsPolicy.Create (fun tr =>
    r ← host_rv (H_mkdir (VirtualFileSystem.tr_hostPath tr) (Z.land (arg ctx 1) 4095));
    mret (ok_or_errno ctx r)).

Definition h_rmdir (ctx : SyscallContext) : IO SyscallContext :=
  p ← the_process ctx;
  with_path ctx p (arg ctx 0) FsPolicy.Delete (fun tr =>
    r ← host_rv (H_rmdir (VirtualFileSystem.tr_hostPath tr));
    mret (ok_or_errno ctx r)).

Definition h_unlink (ctx : SyscallContext) : IO SyscallContext :=
  p ← the_process ctx;
  with_path ctx p (arg ctx 0) FsPolicy.Delete (fun tr =>
    r ← host_rv (H_unlink (VirtualFileSystem.tr_hostPath tr));
    mret (ok_or_errno ctx r)).

(** Both strings are read before either is resolved. *)
Definition h_rename (ctx : SyscallContext) : IO SyscallContext :=
  p ← the_process ctx;
  f ← readGuestString (PS4Process.m_mem p) (arg ctx 0);
  match f with
  | None => mret (fail_ kEfault ctx)
  | Some fromGuest =>
      g ← readGuestString (PS4Process.m_mem p) (arg ctx 1);
      match g with
      | None => mret (fail_ kEfault ctx)
      | Some toGuest =>
          let '(trFrom, perr) :=
            VirtualFileSystem.resolve (PS4Process.m_vfs p) fromGuest FsPolicy.Rename in
          if negb (VirtualFileSystem.ok trFrom)
          then mret (fail_ (if perr =? 0 then kEnoent else perr) ctx)
          else
            let '(trTo, perr) :=
              VirtualFileSystem.resolve (PS4Process.m_vfs p) toGuest FsPolicy.Rename in
            if negb (VirtualFileSystem.ok trTo)
            then mret (fail_ (if perr =? 0 then kEnoent else perr) ctx)
            else
              r ← host_rv (H_rename (VirtualFileSystem.tr_hostPath trFrom)
                             (VirtualFileSystem.tr_hostPath trTo));
              mret (ok_or_errno ctx r)
      end
  end.

Definition h_fsync (ctx : SyscallContext) : IO SyscallContext :=
  p ← the_process ctx;
  match as_file (handle_of p (arg_i32 ctx 0)) with
  | None => mret (fail_ kEbadf ctx)
  | Some (fd, _) => r ← host_rv (H_fsync fd); mret (ok_or_errno ctx r)
  end.

Definition h_ftruncate (ctx : SyscallContext) : IO SyscallContext :=
  p ← the_process ctx;
  match as_file (handle_of p (arg_i32 ctx 0)) with
  | None => mret (fail_ kEbadf ctx)
  | Some (fd, _) =>
      r ← host_rv (H_ftruncate fd (i64 (arg ctx 1))); mret (ok_or_errno ctx r)
  end.

(** ** Memory handlers *)

Definition region_prot (prot : Z) : Z :=
  let r0 := AddressSpace.Prot_None in
  let r1 := if negb (Z.land prot kProtRead =? 0)
            then AddressSpace.prot_or r0 AddressSpace.Prot_Read else r0 in
  let r2 := if negb (Z.land prot kProtWrite =? 0)
            then AddressSpace.prot_or r1 AddressSpace.Prot_Write else r1 in
  if negb (Z.land prot kProtExec =? 0)
  then AddressSpace.prot_or r2 AddressSpace.Prot_Execute else r2.

Definition h_mmap (ctx : SyscallContext) : IO SyscallContext :=
  p ← the_process ctx;
  let flags := arg_i32 ctx 3 in
  if Z.land flags kMapAnon =? 0 then mret (fail_ kEnosys ctx)
  else
    let rp := region_prot (arg_i32 ctx 2) in
    let '(a, mapped) :=
      AddressSpace.map (PS4Process.m_addressSpace p) (arg ctx 0) (arg ctx 1) rp (cstr "mmap") in
    let ctx' := with_process (PS4Process.set_space a p) ctx in
    if mapped =? 0 then mret (fail_ kEnomem ctx')
    else mret (ok (i64 mapped) ctx').

(** The host calls of an address-space operation, in order; the last answer. *)
Fixpoint space_calls (calls : list AddressSpace.HostCall) (last : Z) : IO Z :=
  match calls with
  | [] => mret last
  | AddressSpace.Munmap a n :: rest => r ← host_rv (H_munmap a n); space_calls rest r
  | AddressSpace.Mprotect a n q :: rest => r ← host_rv (H_mprotect a n q); space_calls rest r
  end.

(** The host pages of [[addr, addr + n)] are gone. *)
Definition unmap_bytes (m : Memory) (addr n : Z) : Memory :=
  filter (fun x => ~ (addr <= x.1 < addr + n)) m.

Definition drop_pages (calls : list AddressSpace.HostCall) (m : Memory) : Memory :=
  foldl (fun m c => match c with
                    | AddressSpace.Munmap a n => unmap_bytes m a n
                    | AddressSpace.Mprotect _ _ _ => m
                    end) m calls.

Definition h_munmap (ctx : SyscallContext) : IO SyscallContext :=
  p ← the_process ctx;
  let '(a, unmapped, calls) :=
    AddressSpace.unmap (PS4Process.m_addressSpace p) (arg ctx 0) (arg ctx 1) in
  r ← space_calls calls 0;
  let m' := if r =? 0 then drop_pages calls (PS4Process.m_mem p) else PS4Process.m_mem p in
  let ctx' := with_process (PS4Process.set_mem m' (PS4Process.set_space a p)) ctx in
  if negb unmapped then mret (fail_ kEinval ctx') else mret (ok 0 ctx').

Definition h_mprotect (ctx : SyscallContext) : IO SyscallContext :=
  p ← the_process ctx;
  let rp := region_prot (arg_i32 ctx 2) in
  let try answer := AddressSpace.protect (PS4Process.m_addressSpace p) (fun _ _ _ => answer)
                      (arg ctx 0) (arg ctx 1) rp in
  r ← space_calls (snd (try true)) (-1);
  let '(a, protected, _) := try (r =? 0) in
  let ctx' := with_process (PS4Process.set_space a p) ctx in
  if negb protected then mret (fail_ kEinval ctx') else mret (ok 0 ctx').

(** ** Thread handlers *)

Definition on_thread (f : ThreadManager.t -> Z -> ThreadManager.t) (p : PS4Process.t) (id : Z) : PS4Process.t :=
  PS4Process.set_threads (f (PS4Process.m_threads p) id) (PS4Process.m_mainThread p) p.

(** [ctx.thread->requestExit()]: the thread is one of the process's. *)
Definition request_exit (ctx : SyscallContext) : SyscallContext :=
  match thread ctx, process ctx with
  | Some id, Some p => with_process (on_thread ThreadManager.requestExit p id) ctx
  | _, _ => ctx
  end.

Definition h_thr_self (ctx : SyscallContext) : IO SyscallContext :=
  match thread ctx with
  | None => mret (fail_ kEinval ctx)
  | Some id => mret (ok id ctx)
  end.

Definition h_thr_exit (ctx : SyscallContext) : IO SyscallContext :=
  mret (ok 0 (request_exit ctx)).

Definition h_thr_suspend (ctx : SyscallContext) : IO SyscallContext :=
  p ← the_process ctx;
  let tid := u32 (arg ctx 0) in
  match ThreadManager.get (PS4Process.m_threads p) tid with
  | None => mret (fail_ kEsrch ctx)
  | Some _ => mret (ok 0 (with_process (on_thread ThreadManager.suspend p tid) ctx))
  end.

Definition h_thr_wake (ctx : SyscallContext) : IO SyscallContext :=
  p ← the_process ctx;
  let tid := u32 (arg ctx 0) in
  match ThreadManager.get (PS4Process.m_threads p) tid with
  | None => mret (fail_ kEsrch ctx)
  | Some _ => mret (ok 0 (with_process (on_thread ThreadManager.resume p tid) ctx))
  end.

(** ** Miscellaneous handlers *)

Definition h_getpid (ctx : SyscallContext) : IO SyscallContext :=
  mret (ok (match process ctx with Some p => PS4Process.m_id p | None => 0 end) ctx).

Definition h_getpagesize (ctx : SyscallContext) : IO SyscallContext :=
  r ← host_rv H_sysconf_pagesize; mret (ok r ctx).

(** [struct timeval] is two 64-bit words. *)
Definition h_gettimeofday (ctx : SyscallContext) : IO SyscallContext :=
  let tv := arg ctx 0 in
  r ← host_call H_gettimeofday;
  if negb (rv r =? 0) then mret (fail_ (translateHostErrnoToFreeBsd (- rv r)) ctx)
  else if tv =? 0 then mret (ok 0 ctx)
  else
    p ← the_process ctx;
    ctx' ← copy_out ctx p tv
             (le_encode 8 (u64 (nth 0 (out r) 0)) ++ le_encode 8 (u64 (nth 1 (out r) 0)));
    mret (ok 0 ctx').

Definition h_socket (ctx : SyscallContext) : IO SyscallContext :=
  p ← the_process ctx;
  let domain := arg_i32 ctx 0 in
  let type_ := arg_i32 ctx 1 in
  let protocol := arg_i32 ctx 2 in
  fd ← host_rv (H_socket domain type_ protocol);
  if fd <? 0 then mret (fail_ (translateHostErrnoToFreeBsd (- fd)) ctx)
  else
    let '(p', h) := register p (SocketHandle fd domain type_ protocol) in
    mret (ok h (with_process p' ctx)).

Definition h_exit (ctx : SyscallContext) : IO SyscallContext :=
  mret (ok 0 (request_exit ctx)).

(** ** Registration *)

(** None of the handlers throws. *)
Definition reg (d : SyscallDispatcher.t) (num : Z) (name : string)
    (h : SyscallContext -> IO SyscallContext) : SyscallDispatcher.t :=
  SyscallDispatcher.registerHandler num (cstr name)
    (Some (fun ctx => ctx' ← h ctx; mret (ctx', false))) d.

Definition registerFilesystemHandlers (d0 : SyscallDispatcher.t) : SyscallDispatcher.t :=
  let d1 := reg d0 kSysOpen "open" h_open in
  let d2 := reg d1 kSysClose "close" h_close in
  let d3 := reg d2 kSysRead "read" h_read in
  let d4 := reg d3 kSysWrite "write" h_write in
  let d5 := reg d4 kSysLseek "lseek" h_lseek in
  let d6 := reg d5 kSysFstat "fstat" h_fstat in
  let d7 := reg d6 188 "stat" h_stat in
  let d8 := reg d7 kSysMkdir "mkdir" h_mkdir in
  let d9 := reg d8 kSysRmdir "rmdir" h_rmdir in
  let d10 := reg d9 10 "unlink" h_unlink in
  let d11 := reg d10 kSysRename "rename" h_rename in
  let d12 := reg d11 kSysFsync "fsync" h_fsync in
  reg d12 kSysFtruncate "ftruncate" h_ftruncate.

Definition registerMemoryHandlers (d0 : SyscallDispatcher.t) : SyscallDispatcher.t :=
  let d1 := reg d0 kSysMmap "mmap" h_mmap in
  let d2 := reg d1 kSysMunmap "munmap" h_munmap in
  reg d2 kSysMprotect "mprotect" h_mprotect.

Definition registerThreadHandlers (d0 : SyscallDispatcher.t) : SyscallDispatcher.t :=
  let d1 := reg d0 kSysThrSelf "thr_self" h_thr_self in
  let d2 := reg d1 kSysThrExit "thr_exit" h_thr_exit in
  let d3 := reg d2 kSysThrSuspend "thr_suspend" h_thr_suspend in
  reg d3 kSysThrWake "thr_wake" h_thr_wake.

Definition registerMiscHandlers (d0 : SyscallDispatcher.t) : SyscallDispatcher.t :=
  let d1 := reg d0 kSysGetPid "getpid" h_getpid in
  let d2 := reg d1 kSysGetPageSize "getpagesize" h_getpagesize in
  let d3 := reg d2 kSysGetTimeOfDay "gettimeofday" h_gettimeofday in
  let d4 := reg d3 kSysSocket "socket" h_socket in
  reg d4 kSysExit "exit" h_exit.

Definition registerAll (d : SyscallDispatcher.t) : SyscallDispatcher.t :=
  registerMiscHandlers (registerThreadHandlers (registerMemoryHandlers
    (registerFilesystemHandlers d))).

(** ** Specification *)
Module HandlerSpec.
Import FsPolicy VfsSpec.

(** [path] is the directory of a mount of the policy that satisfies [P],
    followed by canonical components. *)
Definition path_call (vfs : FsPolicy.t) (P : MountPoint -> Prop) (path : bytes) : Prop :=
  exists mp comps, mp ∈ m_mounts vfs /\ P mp /\
    Forall good_component comps /\
    path = below (mount_dir (m_vfsRoot vfs) (hostSubdir mp)) comps.

(** What a mount must allow for the host to be asked to create below it, to
    delete or rename below it, and to open below it with the Linux flags
    [lf]: unless the host is asked for a directory (O_DIRECTORY, bit 16), a
    writing access mode needs a writable mount, and O_CREAT (bit 6) a
    writable mount where guests may create. *)
Definition creates_in (mp : MountPoint) : Prop := readOnly mp = false /\ allowCreate mp = true.
Definition deletes_in (mp : MountPoint) : Prop := readOnly mp = false /\ allowDelete mp = true.
Definition opens_in (lf : Z) (mp : MountPoint) : Prop :=
  Z.testbit lf 16 = false ->
  (Z.land lf 3 <> 0 -> readOnly mp = false) /\ (Z.testbit lf 6 = true -> creates_in mp).

Definition object_fd (o : HandleObject) : option Z :=
  match o with
  | FileHandle fd _ _ _ | DirectoryHandle fd _ _ | SocketHandle fd _ _ _ => Some fd
  | EventObject _ | KernelSemaObject _ | ThreadHandleObj _ | PadHandleObj _ | PortHandleObj _ => None
  end.

(** [fd] belongs to an object of the process that satisfies [P]. *)
Definition fd_call (p : PS4Process.t) (P : HandleObject -> Prop) (fd : Z) : Prop :=
  exists h o, handle_of p h = Some o /\ object_fd o = Some fd /\ P o.

Definition file_with (f : Z -> bool) (o : HandleObject) : Prop :=
  match o with FileHandle _ _ _ flags => f flags = true | _ => False end.

Definition region_call (p : PS4Process.t) (addr n : Z) : Prop :=
  exists r, r ∈ AddressSpace.m_regions (PS4Process.m_addressSpace p) /\
    addr = AddressSpace.base r /\ n = AddressSpace.size r.

(** The host calls a syscall of process [p] may make. *)
Definition allowed_call (p : PS4Process.t) (c : HostCall) : Prop :=
  match c with
  | H_open path lf _ => path_call (PS4Process.m_vfs p) (opens_in lf) path
  | H_stat path => path_call (PS4Process.m_vfs p) (fun _ => True) path
  | H_mkdir path _ => path_call (PS4Process.m_vfs p) creates_in path
  | H_rmdir path | H_unlink path => path_call (PS4Process.m_vfs p) deletes_in path
  | H_rename a b =>
      path_call (PS4Process.m_vfs p) deletes_in a /\ path_call (PS4Process.m_vfs p) deletes_in b
  | H_read fd _ _ => fd_call p (file_with isReadable) fd
  | H_write fd _ _ => fd_call p (file_with isWritable) fd
  | H_lseek fd _ _ | H_fsync fd | H_ftruncate fd _ => fd_call p (file_with (fun _ => true)) fd
  | H_fstat fd | H_close fd => fd_call p (fun _ => True) fd
  | H_munmap addr n | H_mprotect addr n _ => region_call p addr n
  | H_socket _ _ _ | H_gettimeofday | H_sysconf_pagesize => True
  | _ => False
  end.

(** Every call after [t] is allowed. *)
Definition emits (p : PS4Process.t) (t t' : Trace) : Prop :=
  exists new, t' = t ++ new /\ Forall (fun cr => allowed_call p cr.1) new.

(** What a handler leaves of the process: its identity, state, policy and
    threads, and the invariants of its handle table and address space. *)
Definition keeps (ctx : SyscallContext) (p : PS4Process.t) (ctx' : SyscallContext) : Prop :=
  exists p', process ctx' = Some p' /\
    PS4Process.m_id p' = PS4Process.m_id p /\
    PS4Process.m_state p' = PS4Process.m_state p /\
    PS4Process.m_vfs p' = PS4Process.m_vfs p /\
    (HandleTable.wf (PS4Process.m_handleTable p) ->
     HandleTable.m_next (PS4Process.m_handleTable p) < 2 ^ 31 - 1 ->
     HandleTable.wf (PS4Process.m_handleTable p')) /\
    (AddressSpace.small (arg ctx 0) -> AddressSpace.small (arg ctx 1) ->
     AddressSpace.wf (PS4Process.m_addressSpace p) -> AddressSpace.wf (PS4Process.m_addressSpace p')).

Definition handler_spec (h : SyscallContext -> IO SyscallContext) : Prop :=
  forall o t ctx p, process ctx = Some p ->
    wp (h ctx) (fun ctx' t' => emits p t t' /\ keeps ctx p ctx') (fun _ t' => emits p t t') o t.

Definition entry_spec (e : bytes * SyscallDispatcher.SyscallHandler) : Prop :=
  forall o t ctx p, process ctx = Some p ->
    wp (e.2 ctx) (fun r t' => emits p t t' /\ keeps ctx p r.1 /\ r.2 = false)
      (fun _ t' => emits p t t') o t.

End HandlerSpec.

(** ** Lemmas *)
Section Lemmas.
Import HandlerSpec.

Lemma emits_nil p t : emits p t t.
Proof. exists []. split; [by rewrite app_nil_r|constructor]. Qed.

Lemma emits_snoc p t t' c r : emits p t t' -> allowed_call p c -> emits p t (t' ++ [(c, r)]).
Proof.
  intros (new & -> & Hn) Hc. exists (new ++ [(c, r)]). rewrite app_assoc. split; [done|].
  apply Forall_app. split; [done|]. by constructor.
Qed.

Lemma keeps_same ctx p ctx' : process ctx' = Some p -> keeps ctx p ctx'.
Proof. intros H. exists p. by split_and!. Qed.

Lemma keeps_mem ctx p m ctx' : process ctx' = Some (PS4Process.set_mem m p) -> keeps ctx p ctx'.
Proof. intros H. eexists. split; [exact H|]. by split_and!. Qed.

Lemma keeps_register ctx p o p' h ctx' :
  register p o = (p', h) -> process ctx' = Some p' -> keeps ctx p ctx'.
Proof.
  intros E H. exists p'. split; [done|]. unfold register in E. simpl in E. simplify_eq/=.
  split_and!; try done. apply (register_wf (PS4Process.m_handleTable p) (Some o)).
Qed.

Lemma keeps_close ctx p tbl ok d h ctx' :
  HandleTable.close (PS4Process.m_handleTable p) h = (tbl, ok, d) ->
  process ctx' = Some (PS4Process.set_handles tbl p) -> keeps ctx p ctx'.
Proof.
  intros E H. eexists. split; [exact H|]. split_and!; try done. simpl. intros Hwf _. revert Hwf.
  pose proof (close_wf (PS4Process.m_handleTable p) h) as Hw. by rewrite E in Hw.
Qed.

Lemma close_fd p h tbl ok d fd :
  HandleTable.close (PS4Process.m_handleTable p) h = (tbl, ok, d) ->
  d ≫= owned_fd = Some fd -> fd_call p (fun _ => True) fd.
Proof.
  unfold HandleTable.close. destruct (_ !! h) as [o|] eqn:Eo; intros; simplify_eq/=.
  exists h, o. split_and!; [done| |done].
  destruct o; simpl in *; repeat case_match; by simplify_eq.
Qed.

Lemma resolve_path vfs g op tr e :
  VirtualFileSystem.resolve vfs g op = (tr, e) -> VirtualFileSystem.ok tr = true ->
  path_call vfs (fun mp => FsPolicy.op_permitted mp op = true) (VirtualFileSystem.tr_hostPath tr).
Proof.
  intros H Hok. pose proof (resolve_spec vfs g op) as Hr. rewrite H in Hr.
  inversion Hr as [| | |c mp comps Hn Hmm]; simplify_eq/=. eexists _, _. split_and!; [|done..].
  match goal with H : FsPolicy.match_mount _ ?c = Some _ |- _ =>
    pose proof (match_loop_spec (FsPolicy.m_mounts vfs) c None 0 eq_refl) as Hm; rename H into Hmm end.
  unfold FsPolicy.match_mount in *. rewrite Hmm in Hm. by destruct Hm as ([?|[? _]] & _).
Qed.

Lemma path_call_mono vfs (P P' : FsPolicy.MountPoint -> Prop) path :
  path_call vfs P path -> (forall mp, P mp -> P' mp) -> path_call vfs P' path.
Proof. intros (mp & comps & H1 & H2 & H3 & H4) HP. exists mp, comps. auto. Qed.

Lemma permits_create mp : FsPolicy.op_permitted mp FsPolicy.Create = true -> creates_in mp.
Proof. unfold creates_in. simpl. by destruct (FsPolicy.readOnly mp). Qed.

Lemma permits_delete mp : FsPolicy.op_permitted mp FsPolicy.Delete = true -> deletes_in mp.
Proof. unfold deletes_in. simpl. by destruct (FsPolicy.readOnly mp). Qed.

(** The operation that [open] asks the policy for covers the flags it gives
    to the host. *)
Lemma permits_open f mp : FsPolicy.op_permitted mp (open_op f) = true -> opens_in (convertOpenFlags f) mp.
Proof.
  unfold open_op, opens_in, convertOpenFlags.
  destruct (Z.land f kO_Directory =? 0), (Z.land f kO_Creat =? 0), (Z.land f kO_AccMode =? kO_RdOnly),
    (Z.land f kO_AccMode =? kO_WrOnly), (Z.land f kO_AccMode =? kO_RdWr), (Z.land f kO_NonBlock =? 0),
    (Z.land f kO_Append =? 0), (Z.land f kO_Trunc =? 0), (Z.land f kO_Excl =? 0), (Z.land f kO_CloExec =? 0);
    simpl; intros Hp; try discriminate; intros _;
    (split; [intros H|intros H]); try discriminate; try (by destruct H);
    solve [by apply negb_true_iff|by apply permits_create].
Qed.

Lemma as_file_call p h fd flags (f : Z -> bool) :
  as_file (handle_of p h) = Some (fd, flags) -> f flags = true -> fd_call p (file_with f) fd.
Proof.
  unfold as_file. destruct (handle_of p h) as [[]|] eqn:E; intros; simplify_eq.
  eexists h, _. by split_and!.
Qed.

(** The string read of the prologue makes no call. *)
Lemma wp_string o m addr Q E t :
  (forall g, Q g t) -> E fault_code t -> wp (readGuestString m addr) Q E o t.
Proof.
  intros HQ HE. unfold readGuestString. destruct (addr =? 0); [apply HQ|].
  destruct (read_string_loop _ _ _ _); [apply HE|apply HQ|apply HQ].
Qed.

Lemma wp_process o ctx p Q E t :
  process ctx = Some p -> Q p t -> wp (the_process ctx) Q E o t.
Proof. unfold the_process. by intros -> H. Qed.

Lemma wp_copy_out o ctx p addr bs Q E t :
  Q (write_mem ctx p addr bs) t -> E fault_code t -> wp (copy_out ctx p addr bs) Q E o t.
Proof. unfold copy_out. by destruct (mapped_range _ _ _). Qed.

Lemma wp_with_path o ctx p addr op k (Q : SyscallContext -> Trace -> Prop) E t :
  (forall e, Q (fail_ e ctx) t) -> E fault_code t ->
  (forall tr, path_call (PS4Process.m_vfs p) (fun mp => FsPolicy.op_permitted mp op = true)
     (VirtualFileSystem.tr_hostPath tr) ->
     wp (k tr) Q E o t) ->
  wp (with_path ctx p addr op k) Q E o t.
Proof.
  intros H1 H2 H3. unfold with_path. apply wp_bind, wp_string; [|done].
  intros [g|]; [|apply H1].
  destruct (VirtualFileSystem.resolve _ _ _) as [tr e] eqn:Er.
  destruct (VirtualFileSystem.ok tr) eqn:Eok; simpl; [|apply H1].
  apply H3. by eapply resolve_path.
Qed.

Lemma wp_space_calls o p calls last (Q : Z -> Trace -> Prop) E t0 t :
  emits p t0 t ->
  Forall (fun c => match c with
                   | AddressSpace.Munmap a n | AddressSpace.Mprotect a n _ => region_call p a n
                   end) calls ->
  (forall r t', emits p t0 t' -> Q r t') ->
  wp (space_calls calls last) Q E o t.
Proof.
  revert last t. induction calls as [|[a n|a n q] calls IH]; intros last t Ht Hc HQ; simpl.
  - by apply HQ.
  - apply Forall_cons in Hc as [? ?]. repeat wp_step. by apply IH; [apply emits_snoc|..].
  - apply Forall_cons in Hc as [? ?]. repeat wp_step. by apply IH; [apply emits_snoc|..].
Qed.

Lemma unmap_calls p addr len :
  Forall (fun c => match c with
                   | AddressSpace.Munmap a n | AddressSpace.Mprotect a n _ => region_call p a n
                   end) (snd (AddressSpace.unmap (PS4Process.m_addressSpace p) addr len)).
Proof.
  unfold AddressSpace.unmap. destruct (AddressSpace.erase_first _ _) as [[r rest]|] eqn:E; [|constructor].
  destruct (erase_first_spec _ _ _ _ E) as (l1 & l2 & Hl & _).
  apply Forall_singleton. exists r. split; [|done]. rewrite Hl. set_solver.
Qed.

Lemma protect_calls p f addr len q :
  Forall (fun c => match c with
                   | AddressSpace.Munmap a n | AddressSpace.Mprotect a n _ => region_call p a n
                   end) (snd (AddressSpace.protect (PS4Process.m_addressSpace p) f addr len q)).
Proof.
  unfold AddressSpace.protect. destruct (AddressSpace.reprotect _ _ _) as [[r rest]|] eqn:E; [|constructor].
  destruct (reprotect_spec _ _ _ _ _ E) as (l1 & l2 & Hl & _).
  destruct (f _ _ _); apply Forall_singleton; exists r; (split; [|done]); rewrite Hl; set_solver.
Qed.

Lemma keeps_space ctx p m a ctx' :
  process ctx' = Some (PS4Process.set_mem m (PS4Process.set_space a p)) ->
  (AddressSpace.small (arg ctx 0) -> AddressSpace.small (arg ctx 1) ->
   AddressSpace.wf (PS4Process.m_addressSpace p) -> AddressSpace.wf a) -> keeps ctx p ctx'.
Proof. intros H Hw. eexists. split; [exact H|]. by split_and!. Qed.

Lemma process_ok_or_errno ctx r : process (ok_or_errno ctx r) = process ctx.
Proof. unfold ok_or_errno. by destruct (r =? 0). Qed.

End Lemmas.

(** ** Every handler meets its specification *)
Section Handlers.
Import HandlerSpec.

(** Symbolic execution of a handler. *)
Ltac hstep :=
  first
    [ wp_step
    | match goal with
      | |- wp (the_process _) _ _ _ _ => eapply wp_process; [eassumption|]
      | |- wp (with_path _ _ _ _ _) _ _ _ _ => apply wp_with_path; [intros ?| |intros ? ?]
      | |- wp (copy_out _ _ _ _) _ _ _ _ => apply wp_copy_out
      | |- wp (readGuestString _ _) _ _ _ _ => apply wp_string; [intros []|]
      end ].

Ltac hkeeps :=
  first [ apply keeps_same; rewrite ?process_ok_or_errno; assumption
        | eapply keeps_mem; reflexivity
        | eapply keeps_register; [eassumption|reflexivity]
        | eapply keeps_close; [eassumption|reflexivity] ].

Ltac hcall :=
  first [ exact I
        | eapply path_call_mono; [eassumption|solve [auto using permits_open, permits_create, permits_delete]]
        | eapply as_file_call; [eassumption|first [reflexivity|by apply negb_false_iff]]
        | eapply close_fd; eassumption
        | do 2 eexists; split_and!; [eassumption|reflexivity|exact I]
        | eassumption ].

Ltac hfinish :=
  try (split; [|solve [hkeeps]]); repeat (apply emits_snoc; [|try solve [hcall]]); try apply emits_nil.

Ltac handler h := intros o t ctx p Hp; unfold h; repeat hstep; hfinish.

Lemma h_open_spec : handler_spec h_open.
Proof. handler h_open. Qed.
Lemma h_close_spec : handler_spec h_close.
Proof. handler h_close. Qed.
Lemma h_read_spec : handler_spec h_read.
Proof. handler h_read. Qed.
Lemma h_write_spec : handler_spec h_write.
Proof. handler h_write. Qed.
Lemma h_lseek_spec : handler_spec h_lseek.
Proof. handler h_lseek. Qed.
Lemma h_fstat_spec : handler_spec h_fstat.
Proof. handler h_fstat. Qed.
Lemma h_stat_spec : handler_spec h_stat.
Proof. handler h_stat. Qed.
Lemma h_mkdir_spec : handler_spec h_mkdir.
Proof. handler h_mkdir. Qed.
Lemma h_rmdir_spec : handler_spec h_rmdir.
Proof. handler h_rmdir. Qed.
Lemma h_unlink_spec : handler_spec h_unlink.
Proof. handler h_unlink. Qed.
Lemma h_fsync_spec : handler_spec h_fsync.
Proof. handler h_fsync. Qed.
Lemma h_ftruncate_spec : handler_spec h_ftruncate.
Proof. handler h_ftruncate. Qed.
Lemma h_thr_self_spec : handler_spec h_thr_self.
Proof. handler h_thr_self. Qed.
Lemma h_getpid_spec : handler_spec h_getpid.
Proof. handler h_getpid. Qed.
Lemma h_getpagesize_spec : handler_spec h_getpagesize.
Proof. handler h_getpagesize. Qed.
Lemma h_gettimeofday_spec : handler_spec h_gettimeofday.
Proof. handler h_gettimeofday. Qed.
Lemma h_socket_spec : handler_spec h_socket.
Proof. handler h_socket. Qed.

Lemma h_rename_spec : handler_spec h_rename.
Proof.
  handler h_rename.
  split; (eapply path_call_mono; [eapply resolve_path; [eassumption|by apply negb_false_iff]|apply permits_delete]).
Qed.

Lemma keeps_threads ctx p th m ctx' :
  process ctx' = Some (PS4Process.set_threads th m p) -> keeps ctx p ctx'.
Proof. intros H. eexists. split; [exact H|]. by split_and!. Qed.

Lemma keeps_request_exit ctx p v : process ctx = Some p -> keeps ctx p (ok v (request_exit ctx)).
Proof.
  intros Hp. unfold request_exit. rewrite Hp.
  destruct (thread ctx); [by eapply keeps_threads|by apply keeps_same].
Qed.

Lemma h_thr_exit_spec : handler_spec h_thr_exit.
Proof. handler h_thr_exit. split; [apply emits_nil|by apply keeps_request_exit]. Qed.
Lemma h_exit_spec : handler_spec h_exit.
Proof. handler h_exit. split; [apply emits_nil|by apply keeps_request_exit]. Qed.
Lemma h_thr_suspend_spec : handler_spec h_thr_suspend.
Proof. handler h_thr_suspend. split; [apply emits_nil|by eapply keeps_threads]. Qed.
Lemma h_thr_wake_spec : handler_spec h_thr_wake.
Proof. handler h_thr_wake. split; [apply emits_nil|by eapply keeps_threads]. Qed.

Lemma keeps_space' ctx p a ctx' :
  process ctx' = Some (PS4Process.set_space a p) ->
  (AddressSpace.small (arg ctx 0) -> AddressSpace.small (arg ctx 1) ->
   AddressSpace.wf (PS4Process.m_addressSpace p) -> AddressSpace.wf a) -> keeps ctx p ctx'.
Proof. intros H Hw. eexists. split; [exact H|]. by split_and!. Qed.

Lemma h_mmap_spec : handler_spec h_mmap.
Proof.
  handler h_mmap; split; try apply emits_nil; (eapply keeps_space'; [reflexivity|]);
    intros; match goal with E : AddressSpace.map ?s ?h ?l ?q ?n = (?a, _) |- _ =>
      replace a with (fst (AddressSpace.map s h l q n)) by (by rewrite E) end; by apply map_wf.
Qed.

Lemma h_munmap_spec : handler_spec h_munmap.
Proof.
  intros o t ctx p Hp. unfold h_munmap. do 2 hstep.
  pose proof (unmap_calls p (arg ctx 0) (arg ctx 1)) as Hc.
  destruct (AddressSpace.unmap _ _ _) as [[a b] calls] eqn:E. simpl in Hc. hstep.
  eapply wp_space_calls; [apply emits_nil|exact Hc|]. intros r t' Ht'.
  destruct b; simpl; split; try done; (eapply keeps_space; [reflexivity|]); intros;
    replace a with (fst (fst (AddressSpace.unmap (PS4Process.m_addressSpace p) (arg ctx 0) (arg ctx 1))))
      by (by rewrite E); by apply unmap_wf.
Qed.

Lemma h_mprotect_spec : handler_spec h_mprotect.
Proof.
  intros o t ctx p Hp. unfold h_mprotect. do 3 hstep.
  eapply wp_space_calls; [apply emits_nil|apply protect_calls|]. intros r t' Ht'.
  destruct (AddressSpace.protect _ _ _ _ _) as [[a b] calls] eqn:E.
  destruct b; simpl; split; try done; (eapply keeps_space'; [reflexivity|]); intros;
    match type of E with ?x = _ => replace a with (fst (fst x)) by (by rewrite E) end;
    by apply protect_wf.
Qed.

End Handlers.

(** ** The registered table *)
Section Table.
Import HandlerSpec.

Lemma reg_entries d num name h :
  handler_spec h -> map_Forall (fun _ => entry_spec) (SyscallDispatcher.m_handlers d) ->
  map_Forall (fun _ => entry_spec) (SyscallDispatcher.m_handlers (reg d num name h)).
Proof.
  intros Hh Hd. apply map_Forall_insert_2; [|done].
  intros o t ctx p Hp. simpl. apply wp_bind. eapply wp_mono; [by apply Hh|..]; [|done].
  intros ctx' t' [? ?]. by apply wp_ret.
Qed.

Lemma registerAll_entries d :
  map_Forall (fun _ => entry_spec) (SyscallDispatcher.m_handlers d) ->
  map_Forall (fun _ => entry_spec) (SyscallDispatcher.m_handlers (registerAll d)).
Proof.
  intros Hd.
  unfold registerAll, registerMiscHandlers, registerThreadHandlers, registerMemoryHandlers,
    registerFilesystemHandlers.
  repeat (apply reg_entries;
    [first [ apply h_open_spec | apply h_close_spec | apply h_read_spec | apply h_write_spec
           | apply h_lseek_spec | apply h_fstat_spec | apply h_stat_spec | apply h_mkdir_spec
           | apply h_rmdir_spec | apply h_unlink_spec | apply h_rename_spec | apply h_fsync_spec
           | apply h_ftruncate_spec | apply h_mmap_spec | apply h_munmap_spec
           | apply h_mprotect_spec | apply h_thr_self_spec | apply h_thr_exit_spec
           | apply h_thr_suspend_spec | apply h_thr_wake_spec | apply h_getpid_spec
           | apply h_getpagesize_spec | apply h_gettimeofday_spec | apply h_socket_spec
           | apply h_exit_spec ]|]).
  exact Hd.
Qed.

Lemma dispatch_spec d o t ctx p :
  map_Forall (fun _ => entry_spec) (SyscallDispatcher.m_handlers d) -> process ctx = Some p ->
  wp (SyscallDispatcher.dispatch d ctx)
    (fun r t' => emits p t t' /\ keeps ctx p r.2) (fun _ t' => emits p t t') o t.
Proof.
  intros Hd Hp. unfold SyscallDispatcher.dispatch.
  destruct (_ !! number ctx) as [[name f]|] eqn:E.
  - apply wp_bind. eapply wp_mono; [by eapply (Hd _ _ E)|..]; [|done].
    intros [ctx' threw] t' (He & Hk & Hf). simpl in *. subst. by apply wp_ret.
  - apply wp_ret. split; [apply emits_nil|]. by apply keeps_same.
Qed.

End Table.

(** ** Properties *)
Section Properties.
Import HandlerSpec.

(** A context on the default policy whose memory holds [s] at address 4096. *)
Definition demo_process (s : bytes) : PS4Process.t :=
  PS4Process.set_mem (store_bytes ∅ 4096 (s ++ [0]))
    (PS4Process.make 7 (cstr "CUSA00001") FsPolicy.default_policy).
Definition demo_ctx (num : Z) (args : list Z) (s : bytes) : SyscallContext :=
  mkCtx num args 0 false (Some (demo_process s)) None [].

(** C1: whatever the guest asks for and whatever the host answers, a system
    call makes only host calls that belong to the process. A path handed to
    the host is the directory of one of its mounts followed by canonical
    components; that mount is not read-only and lets guests create (mkdir),
    or delete (rmdir, unlink, and rename at both ends), and for open it is
    writable when the Linux access mode writes and lets guests create when
    O_CREAT is set. Two kinds of open are outside this guarantee and do reach
    the host on a read-only mount ([open_truncates_readonly]): O_TRUNC with a
    reading access mode, and any flags together with O_DIRECTORY. Descriptors
    are those of the process's own handles (of readable files to read, of
    writable files to write); the memory calls act on its own regions; and no
    process, mount or seccomp call is ever made, also when the handler faults
    half-way. *)
Theorem syscall_confined o t ctx p :
  process ctx = Some p ->
  emits p t (snd (SyscallDispatcher.dispatch (registerAll SyscallDispatcher.initial) ctx o t)).
Proof.
  intros Hp.
  pose proof (dispatch_spec (registerAll SyscallDispatcher.initial) o t ctx p
    (registerAll_entries _ (map_Forall_empty _)) Hp) as H.
  unfold wp in H. destruct (SyscallDispatcher.dispatch _ _ _ _) as [[a|c] t']; [by destruct H|done].
Qed.

Lemma syscall_confined_witness :
  let ctx := demo_ctx kSysMkdir [4096; 493] (cstr "/data/../data/x") in
  let t' := snd (SyscallDispatcher.dispatch (registerAll SyscallDispatcher.initial) ctx
              (fun _ _ => mkReply 0 []) []) in
  fst <$> t' = [H_mkdir (cstr "virtual_fs/data/x") 493] /\
  emits (demo_process (cstr "/data/../data/x")) [] t'.
Proof.
  intros ctx t'. split; [vm_compute; reflexivity|].
  exact (syscall_confined (fun _ _ => mkReply 0 []) [] ctx _ eq_refl).
Defined.

(** C2: a system call that returns keeps the process well formed: the same
    id, state and mount policy; live handles that were all issued, as long as
    the 32-bit handle counter has not reached [2^31 - 1]; and, for requests
    below 2^62, regions that are inside the arena, page-sized and disjoint. *)
Theorem syscall_preserves o t t' ctx p d' ctx' :
  process ctx = Some p ->
  SyscallDispatcher.dispatch (registerAll SyscallDispatcher.initial) ctx o t = (inl (d', ctx'), t') ->
  keeps ctx p ctx'.
Proof.
  intros Hp E.
  pose proof (dispatch_spec (registerAll SyscallDispatcher.initial) o t ctx p
    (registerAll_entries _ (map_Forall_empty _)) Hp) as H.
  unfold wp in H. rewrite E in H. by destruct H.
Qed.

Lemma syscall_preserves_witness :
  let ctx := demo_ctx kSysSocket [2; 1; 0] [] in
  exists d' ctx' t', SyscallDispatcher.dispatch (registerAll SyscallDispatcher.initial) ctx
      (fun _ _ => mkReply 9 []) [] = (inl (d', ctx'), t') /\ retval ctx' = 3 /\
    keeps ctx (demo_process []) ctx'.
Proof.
  intros ctx.
  assert (H : match fst (SyscallDispatcher.dispatch (registerAll SyscallDispatcher.initial) ctx
      (fun _ _ => mkReply 9 []) []) with inl (_, c) => retval c | inr _ => -1 end = 3)
    by (vm_compute; reflexivity).
  destruct (SyscallDispatcher.dispatch _ _ _ _) as [[[d' ctx']|c] t'] eqn:E; [|discriminate H].
  exists d', ctx', t'. split; [reflexivity|]. split; [exact H|].
  exact (syscall_preserves _ _ _ ctx (demo_process []) _ _ eq_refl E).
Defined.

(** The numbers of the table. *)
Definition registered_numbers : list Z :=
  [kSysOpen; kSysClose; kSysRead; kSysWrite; kSysLseek; kSysFstat; 188; kSysMkdir; kSysRmdir; 10;
   kSysRename; kSysFsync; kSysFtruncate; kSysMmap; kSysMunmap; kSysMprotect; kSysThrSelf;
   kSysThrExit; kSysThrSuspend; kSysThrWake; kSysGetPid; kSysGetPageSize; kSysGetTimeOfDay;
   kSysSocket; kSysExit].

Lemma registered_numbers_keys n :
  n ∈ SyscallDispatcher.registeredNumbers (registerAll SyscallDispatcher.initial) <->
  n ∈ registered_numbers.
Proof.
  assert (H1 : Forall (fun x => x ∈ registered_numbers)
    (SyscallDispatcher.registeredNumbers (registerAll SyscallDispatcher.initial)))
    by (apply (bool_decide_unpack _); vm_compute; exact I).
  assert (H2 : Forall (fun x => x ∈ SyscallDispatcher.registeredNumbers (registerAll SyscallDispatcher.initial))
    registered_numbers) by (apply (bool_decide_unpack _); vm_compute; exact I).
  rewrite Forall_forall in H1, H2. split; auto.
Qed.

(** [registerAll] installs exactly 25 handlers, one per number of the
    list; any other number is answered ENOSYS under the name "unimplemented",
    without a host call, with the process untouched. *)
Theorem dispatch_table o t ctx :
  let d := registerAll SyscallDispatcher.initial in
  SyscallDispatcher.handlerCount d = 25%nat /\
  (forall n, SyscallDispatcher.hasHandler d n = bool_decide (n ∈ registered_numbers)) /\
  (number ctx ∉ registered_numbers ->
   SyscallDispatcher.dispatch d ctx o t =
     (inl (d, with_name (cstr "unimplemented") (fail_ kEnosys ctx)), t)).
Proof.
  intros d. assert (Hh : forall n, is_Some (SyscallDispatcher.m_handlers d !! n) <-> n ∈ registered_numbers).
  { intros n. rewrite <- registered_numbers_keys. split.
    - intros [x Hx]. apply list_elem_of_fmap. exists (n, x). split; [done|]. by apply elem_of_map_to_list.
    - intros ([n' x] & -> & Hx)%list_elem_of_fmap. exists x. by apply elem_of_map_to_list. }
  split; [vm_compute; reflexivity|]. split.
  - intros n. unfold SyscallDispatcher.hasHandler. by apply bool_decide_ext.
  - intros Hn. unfold SyscallDispatcher.dispatch.
    destruct (SyscallDispatcher.m_handlers d !! number ctx) eqn:E; [|done].
    destruct Hn. apply Hh. by eexists.
Qed.

Lemma dispatch_table_witness :
  let d := registerAll SyscallDispatcher.initial in
  SyscallDispatcher.dispatch d (demo_ctx 57 [] []) (fun _ _ => mkReply 0 []) [] =
    (inl (d, with_name (cstr "unimplemented") (fail_ kEnosys (demo_ctx 57 [] []))), []).
Proof.
  apply (dispatch_table (fun _ _ => mkReply 0 []) [] (demo_ctx 57 [] [])).
  apply (bool_decide_unpack _). vm_compute. exact I.
Defined.

Lemma i32_u64 h : 0 <= h < 2 ^ 31 -> i32 (u64 h) = h.
Proof.
  intros. rewrite wrap_id by (unfold in_width; lia). apply swrap_id; lia.
Qed.

(** C36: a successful [open] asked the host once and gives the guest a
    handle that was dead before and now denotes an object owning the host's
    descriptor; closing that handle closes the descriptor exactly once,
    succeeds, and leaves the handle table as it was before the [open]. *)
Theorem open_then_close o t ctx p ctx1 t1 :
  process ctx = Some p -> HandleTable.wf (PS4Process.m_handleTable p) ->
  HandleTable.m_next (PS4Process.m_handleTable p) < 2 ^ 31 ->
  h_open ctx o t = (inl ctx1, t1) -> isError ctx1 = false ->
  exists p1 obj fd path lf mode r, process ctx1 = Some p1 /\
    t1 = t ++ [(H_open path lf mode, r)] /\ rv r = fd /\ 0 <= fd /\
    handle_of p (retval ctx1) = None /\
    handle_of p1 (retval ctx1) = Some obj /\ object_fd obj = Some fd /\
    (forall o2 ctx2 t2, process ctx2 = Some p1 -> arg ctx2 0 = u64 (retval ctx1) ->
       exists ctx3 p3, h_close ctx2 o2 t2 = (inl ctx3, t2 ++ [(H_close fd, o2 t2 (H_close fd))]) /\
         isError ctx3 = false /\ process ctx3 = Some p3 /\
         forall h, handle_of p3 h = handle_of p h).
Proof.
  intros Hp [H3 Hlt] Hn. unfold h_open, the_process. rewrite Hp. simpl.
  unfold with_path, readGuestString, host_rv, host_call, mbind, mret, IO_bind, IO_ret.
  destruct (arg ctx 0 =? 0); [intros; by simplify_eq/=|].
  destruct (read_string_loop _ _ _ _) as [| |g]; [done|intros; by simplify_eq/=|].
  destruct (VirtualFileSystem.resolve _ _ _) as [tr perr].
  destruct (VirtualFileSystem.ok tr); simpl; [|intros; by simplify_eq/=].
  set (c := H_open _ _ _). destruct (rv (o t c) <? 0) eqn:Er; intros; [by simplify_eq/=|].
  simplify_eq/=. set (obj := if negb _ then _ else _) in *.
  assert (Hfd : object_fd obj = Some (rv (o t c))) by (subst obj; by destruct (negb _)).
  assert (Hown : owned_fd obj = Some (rv (o t c))).
  { subst obj. destruct (negb _); simpl; by rewrite (proj2 (Z.leb_le _ _)) by lia. }
  assert (Hfree : HandleTable.m_objects (PS4Process.m_handleTable p) !!
    HandleTable.m_next (PS4Process.m_handleTable p) = None).
  { destruct (_ !! HandleTable.m_next _) eqn:E; [apply Hlt in E; lia|done]. }
  unfold handle_of, HandleTable.get. unfold HandleTable.emplace in *. simpl in *.
  rewrite Hfree in *. eexists _, obj, _, _, _, _, _. split; [done|]. split; [reflexivity|].
  split_and!; [done|lia|done|by simpl; rewrite lookup_insert_eq|done|].
  intros o2 ctx2 t2 Hp2 Ha. unfold h_close, the_process, arg_i32. rewrite Hp2, Ha.
  rewrite i32_u64 by lia. unfold handle_of, HandleTable.get, HandleTable.close.
  unfold host_rv, host_call, mbind, mret, IO_bind, IO_ret. simpl.
  rewrite lookup_insert_eq. simpl. rewrite Hown. simpl.
  do 2 eexists. split; [done|]. split; [done|]. split; [done|].
  intros h. simpl. by rewrite delete_insert_id.
Qed.

Lemma open_then_close_witness :
  let ctx := demo_ctx kSysOpen [4096; 2; 0] (cstr "/save/a") in
  exists ctx1 t1, h_open ctx (fun _ _ => mkReply 11 []) [] = (inl ctx1, t1) /\ retval ctx1 = 3 /\
    exists p1 obj, process ctx1 = Some p1 /\ handle_of p1 3 = Some obj /\ object_fd obj = Some 11.
Proof.
  intros ctx. do 2 eexists.
  assert (E : h_open ctx (fun _ _ => mkReply 11 []) [] = _) by (vm_compute; reflexivity).
  split; [exact E|]. split; [reflexivity|].
  destruct (open_then_close (fun _ _ => mkReply 11 []) [] ctx _ _ _ eq_refl initial_wf eq_refl E eq_refl)
    as (p1 & obj & fd & path & lf & mode & r & H1 & H2 & H3 & H4 & H5 & H6 & H7 & _).
  exists p1, obj. split; [exact H1|]. split; [exact H6|].
  rewrite H7. f_equal. injection H2 as _ _ _ Hr. rewrite <- H3, <- Hr. reflexivity.
Defined.

(** Every host [errno] becomes a FreeBSD code of the errno table (never
    an unknown number), an error never becomes success, and the translated
    codes are told apart: two host errors of the switch never share a code. *)
Theorem errno_translation :
  (forall e, ErrnoName_name (translateHostErrnoToFreeBsd e) <> cstr "UNKNOWN") /\
  (forall e, translateHostErrnoToFreeBsd e = kOk <-> e = 0) /\
  (forall e1 e2, e1 ∈ host_errno_table.*1 -> e2 ∈ host_errno_table.*1 ->
     translateHostErrnoToFreeBsd e1 = translateHostErrnoToFreeBsd e2 -> e1 = e2).
Proof.
  assert (Hcase : forall e, translateHostErrnoToFreeBsd e = kEinval \/
    (e, translateHostErrnoToFreeBsd e) ∈ host_errno_table).
  { intros e. unfold translateHostErrnoToFreeBsd. generalize host_errno_table.
    induction l as [|[k v] l IH]; simpl; [by left|].
    destruct (k =? e) eqn:E; [right; apply Z.eqb_eq in E; subst; by constructor|].
    destruct IH; [by left|right; by constructor]. }
  split; [|split].
  - intros e. assert (Hall : Forall (fun kv => ErrnoName_name kv.2 <> cstr "UNKNOWN") host_errno_table)
      by (apply (bool_decide_unpack _); vm_compute; exact I).
    destruct (Hcase e) as [->|H]; [vm_compute; discriminate|]. rewrite Forall_forall in Hall. by apply Hall in H.
  - intros e. split; [|by intros ->]. intros Hz.
    assert (Hall : Forall (fun kv => kv.2 = kOk -> kv.1 = 0) host_errno_table)
      by (apply (bool_decide_unpack _); vm_compute; exact I).
    destruct (Hcase e) as [H|H]; [by rewrite Hz in H|].
    rewrite Forall_forall in Hall. by apply (Hall _ H).
  - assert (Hall : Forall (fun e1 => Forall (fun e2 =>
      translateHostErrnoToFreeBsd e1 = translateHostErrnoToFreeBsd e2 -> e1 = e2)
        host_errno_table.*1) host_errno_table.*1)
      by (apply (bool_decide_unpack _); vm_compute; exact I).
    intros e1 e2 H1 H2. rewrite Forall_forall in Hall. apply Hall in H1.
    rewrite Forall_forall in H1. by apply H1.
Qed.

(** The guest's [struct stat] is 144 bytes, each field at its ABI
    offset, with the host value truncated to the field's width, and the
    padding, flags and spare words zero. *)
Theorem stat_layout s :
  let bs := fillStatFromLinux s in
  length bs = 144%nat /\
  field bs 0 8 = u64 (l_dev s) /\ field bs 8 8 = u64 (l_ino s) /\ field bs 16 8 = u64 (l_nlink s) /\
  field bs 24 2 = u16 (l_mode s) /\ field bs 28 4 = u32 (l_uid s) /\ field bs 32 4 = u32 (l_gid s) /\
  field bs 40 8 = u64 (l_rdev s) /\
  field bs 48 8 = u64 (l_atim s).1 /\ field bs 56 8 = u64 (l_atim s).2 /\
  field bs 64 8 = u64 (l_mtim s).1 /\ field bs 72 8 = u64 (l_mtim s).2 /\
  field bs 80 8 = u64 (l_ctim s).1 /\ field bs 88 8 = u64 (l_ctim s).2 /\
  field bs 96 8 = u64 (l_size s) /\ field bs 104 8 = u64 (l_blocks s) /\
  field bs 112 4 = u32 (l_blksize s) /\
  field bs 26 2 = 0 /\ field bs 36 4 = 0 /\ field bs 116 28 = 0.
Proof.
  intros bs. split; [reflexivity|].
  assert (E8 : forall x, le_decode (le_encode 8 (u64 x)) = u64 x)
    by (intros x; apply le_decode_encode, (wrap_range 64 x); lia).
  assert (E4 : forall x, le_decode (le_encode 4 (u32 x)) = u32 x)
    by (intros x; apply le_decode_encode, (wrap_range 32 x); lia).
  assert (E2 : forall x, le_decode (le_encode 2 (u16 x)) = u16 x)
    by (intros x; apply le_decode_encode, (wrap_range 16 x); lia).
  split_and!; first [apply E8 | apply E4 | apply E2 | reflexivity].
Qed.

(** The one host call of an [open] whose path resolves. *)
Lemma h_open_trace o t ctx p g tr e :
  process ctx = Some p -> (arg ctx 0 =? 0) = false ->
  read_string_loop (PS4Process.m_mem p) (arg ctx 0) maxLen [] = SSome g ->
  VirtualFileSystem.resolve (PS4Process.m_vfs p) g (open_op (arg_i32 ctx 1)) = (tr, e) ->
  VirtualFileSystem.ok tr = true ->
  let c := H_open (VirtualFileSystem.tr_hostPath tr) (convertOpenFlags (arg_i32 ctx 1))
             (Z.land (arg ctx 2) 4095) in
  snd (h_open ctx o t) = t ++ [(c, o t c)].
Proof.
  intros Hp Ha Hs Hr Hok c. unfold h_open, the_process, with_path, readGuestString, host_rv, host_call.
  rewrite Hp. unfold mbind, mret, IO_bind, IO_ret. rewrite Ha, Hs, Hr, Hok. simpl. fold c.
  by destruct (rv (o t c) <? 0).
Qed.

(** The mount policy is consulted with the operation Read (or List) for
    an [open] whose access mode is read-only, whatever the other flags say, so
    on the read-only /app mount of the default policy a guest may open a file
    with O_RDONLY|O_TRUNC, or a path with O_DIRECTORY|O_CREAT, and the host is
    asked to truncate, or to create. *)
Theorem open_truncates_readonly o t :
  let run flags := snd (h_open (demo_ctx kSysOpen [4096; flags; 0] (cstr "/app/eboot.bin")) o t) in
  (FsPolicy.readOnly <$> FsPolicy.match_mount FsPolicy.default_policy (cstr "/app/eboot.bin"))
    = Some true /\
  (exists r, run (Z.lor kO_RdOnly kO_Trunc) =
     t ++ [(H_open (cstr "virtual_fs/app/eboot.bin") 0x200 0, r)]) /\
  (exists r, run (Z.lor kO_Directory kO_Creat) =
     t ++ [(H_open (cstr "virtual_fs/app/eboot.bin") 0x10040 0, r)]).
Proof.
  intros run. split; [reflexivity|].
  pose (tr := VirtualFileSystem.mkTranslation true (cstr "/app/eboot.bin")
    (cstr "virtual_fs/app/eboot.bin")
    (Some (FsPolicy.mkMount (cstr "/app") (cstr "app") true false false))).
  split; subst run; cbv beta; eexists;
    (rewrite (h_open_trace _ _ _ (demo_process (cstr "/app/eboot.bin")) (cstr "/app/eboot.bin") tr 0);
      [|vm_compute; reflexivity..]).
  - change (convertOpenFlags _) with 0x200. reflexivity.
  - change (convertOpenFlags _) with 0x10040. reflexivity.
Qed.

(** [fstat] answers EFAULT for a null buffer, but [stat] does not check
    it and the runtime itself dereferences address 0: a guest that passes a
    null buffer for an existing file ends the emulator with SIGSEGV. *)
Theorem stat_null_faults (o : Oracle) :
  let p := demo_process (cstr "/app/eboot.bin") in
  let with_fd := PS4Process.set_handles
    (HandleTable.mkTable 4 {[3 := FileHandle 9 [] [] 0]}) p in
  let stat_call := H_stat (cstr "virtual_fs/app/eboot.bin") in
  (rv (o [] stat_call) = 0 ->
   h_stat (mkCtx 188 [4096; 0] 0 false (Some p) None []) o [] =
     (inr fault_code, [(stat_call, o [] stat_call)])) /\
  (rv (o [] (H_fstat 9)) = 0 ->
   exists ctx', h_fstat (mkCtx kSysFstat [3; 0] 0 false (Some with_fd) None []) o [] =
       (inl ctx', [(H_fstat 9, o [] (H_fstat 9))]) /\
     isError ctx' = true /\ retval ctx' = kEfault).
Proof.
  intros p with_fd c. split; intros H.
  - unfold h_stat, the_process, with_path, readGuestString, host_call, mbind, mret, IO_bind, IO_ret.
    cbn [process arg args nth Nat.ltb Nat.leb]. simpl (4096 =? 0). cbv iota.
    replace (read_string_loop (PS4Process.m_mem p) 4096 maxLen [])
      with (SSome (cstr "/app/eboot.bin")) by (vm_compute; reflexivity).
    replace (VirtualFileSystem.resolve (PS4Process.m_vfs p) (cstr "/app/eboot.bin") FsPolicy.Read)
      with (VirtualFileSystem.mkTranslation true (cstr "/app/eboot.bin") (cstr "virtual_fs/app/eboot.bin")
        (Some (FsPolicy.mkMount (cstr "/app") (cstr "app") true false false)), 0)
      by (vm_compute; reflexivity).
    cbn [VirtualFileSystem.ok VirtualFileSystem.tr_hostPath negb]. fold c. rewrite H. reflexivity.
  - unfold h_fstat, the_process, host_call, mbind, mret, IO_bind, IO_ret. cbn [process].
    replace (handle_of with_fd (arg_i32 _ 0)) with (Some (FileHandle 9 [] [] 0))
      by (vm_compute; reflexivity).
    rewrite H. eexists. split; [reflexivity|done].
Qed.

Lemma stat_null_faults_witness :
  exists ctx, fst (h_stat ctx (fun _ _ => mkReply 0 []) []) = inr fault_code.
Proof.
  exists (mkCtx 188 [4096; 0] 0 false (Some (demo_process (cstr "/app/eboot.bin"))) None []).
  rewrite (proj1 (stat_null_faults (fun _ _ => mkReply 0 [])) eq_refl). reflexivity.
Defined.

End Properties.
