(* ===== verification/KernelSync.v ===== *)
(** * Kernel objects: the counting semaphore

    [sce/kernel/KernelObjects.cpp].  [Module KernelSema] holds the critical
    sections of the semaphore as functions on its fields.  [Module SemaRun]
    interleaves any number of threads that call [wait] and [signal]: a thread
    parks in the condition variable, is woken by [notify_all], by a spurious
    wake-up or by its deadline, and tests the predicate again.  [signal] leaves
    the mutex before it notifies, so the notification is a step of its own. *)
From stdpp Require Import relations well_founded.
From S2P Require Import Prelude.

(** ** [KernelSema] *)
Module KernelSema.

Record t := mkSema { m_name : bytes; m_max : Z; m_count : Z }.

Definition make (name : bytes) (initCount maxCount : Z) : t :=
  mkSema name (if 0 <? maxCount then maxCount else 1) initCount.

(** [need] and [count] below one are taken as one. *)
Definition at_least_one (n : Z) : Z := if n <=? 0 then 1 else n.

Definition pred (s : t) (need : Z) : bool := need <=? m_count s.

Definition take (s : t) (need : Z) : t := mkSema (m_name s) (m_max s) (m_count s - need).

(** The critical section of [signal]: [None] when [m_count + count] overflows
    an [int], which is undefined; otherwise the answer. *)
Definition signal (s : t) (count : Z) : option (t * bool) :=
  let count := at_least_one count in
  if 2 ^ 31 <=? m_count s + count then None
  else if m_max s <? m_count s + count then Some (s, false)
  else Some (mkSema (m_name s) (m_max s) (m_count s + count), true).

Definition currentCount (s : t) : Z := m_count s.

(** [wait] when no other thread runs: what it returns, or that it blocks. *)
Inductive WaitResult := Acquired (s : t) | TimedOut | Blocks.
Definition wait (s : t) (need timeoutUs : Z) : WaitResult :=
  let need := at_least_one need in
  if pred s need then Acquired (take s need)
  else if timeoutUs <? 0 then Blocks
  else TimedOut.

End KernelSema.

(** ** Threads sharing a semaphore *)
Module SemaRun.
Import KernelSema.

Inductive call := CWait (need timeoutUs : Z) | CSignal (count : Z).

(** Inside a call: parked in [m_cv], about to take the mutex and test, or
    between the unlock and the [notify_all] of a [signal]. *)
Inductive Pc :=
  | Idle
  | Parked (need timeoutUs : Z)
  | AtMutex (need timeoutUs : Z)
  | Notifying (count : Z).

Record thread := mkThread { pc : Pc; todo : list call; done : list (call * bool) }.
Record conf := mkConf { sema : t; threads : list thread }.

Definition start (s : t) (prog : list (list call)) : conf :=
  mkConf s ((fun calls => mkThread Idle calls []) <$> prog).

Definition returns (th : thread) (k : call) (answer : bool) : thread :=
  mkThread Idle (todo th) (done th ++ [(k, answer)]).
Definition goes (th : thread) (p : Pc) : thread := mkThread p (todo th) (done th).

(** [m_cv.notify_all()]. *)
Definition wake (th : thread) : thread :=
  match pc th with
  | Parked n us => goes th (AtMutex n us)
  | _ => th
  end.

(** One step of the thread [th]: the semaphore and thread it leaves, and
    whether it notifies.  A waiter tests under the mutex; a timed waiter that is
    parked may also give up, after a last test. *)
Inductive local : t -> thread -> t -> thread -> bool -> Prop :=
| l_wait s th n us rest :
    pc th = Idle -> todo th = CWait n us :: rest ->
    local s th s (mkThread (AtMutex (at_least_one n) us) rest (done th)) false
| l_take s th n us :
    pc th = AtMutex n us -> pred s n = true ->
    local s th (take s n) (returns th (CWait n us) true) false
| l_park s th n us :
    pc th = AtMutex n us -> pred s n = false ->
    local s th s (goes th (Parked n us)) false
| l_timeout_take s th n us :
    pc th = Parked n us -> 0 <= us -> pred s n = true ->
    local s th (take s n) (returns th (CWait n us) true) false
| l_timeout s th n us :
    pc th = Parked n us -> 0 <= us -> pred s n = false ->
    local s th s (returns th (CWait n us) false) false
| l_signal s th k rest s' :
    pc th = Idle -> todo th = CSignal k :: rest -> signal s k = Some (s', true) ->
    local s th s' (mkThread (Notifying (at_least_one k)) rest (done th)) false
| l_signal_full s th k rest s' :
    pc th = Idle -> todo th = CSignal k :: rest -> signal s k = Some (s', false) ->
    local s th s' (returns (mkThread Idle rest (done th)) (CSignal (at_least_one k)) false) false
| l_notify s th k :
    pc th = Notifying k ->
    local s th s (returns th (CSignal k) true) true.

Inductive step : conf -> conf -> Prop :=
| step_local c i th s' th' notify :
    threads c !! i = Some th -> local (sema c) th s' th' notify ->
    step c (mkConf s' (let l := <[i := th']> (threads c) in if notify then wake <$> l else l)).

(** A condition variable may also wake a waiter for no reason. *)
Inductive estep : conf -> conf -> Prop :=
| estep_step c c' : step c c' -> estep c c'
| estep_spurious c i th :
    threads c !! i = Some th -> estep c (mkConf (sema c) (<[i := wake th]> (threads c))).

Definition reachable (s : t) (prog : list (list call)) : conf -> Prop := rtc estep (start s prog).

(** Every call of the thread has returned. *)
Definition finished (th : thread) : bool :=
  match pc th, todo th with Idle, [] => true | _, _ => false end.

(** The thread is asleep, without a deadline, for more than there is. *)
Definition starved (s : t) (th : thread) : bool :=
  match pc th with Parked n us => (us <? 0) && negb (pred s n) | _ => false end.

(** Units handed out by returned calls, and units put in by accepted signals
    (a signal that is notifying has already put them in). *)
Definition taken_by (x : call * bool) : Z :=
  match x with (CWait n _, true) => n | _ => 0 end.
Definition given_by (x : call * bool) : Z :=
  match x with (CSignal n, true) => n | _ => 0 end.

Definition taken (th : thread) : Z := zsum taken_by (done th).
Definition given (th : thread) : Z :=
  zsum given_by (done th) + match pc th with Notifying n => n | _ => 0 end.

End SemaRun.

(** ** The semaphore on its own *)
Section Sequential.
Import KernelSema.

Lemma signal_Some s k s' b :
  signal s k = Some (s', b) ->
  m_max s' = m_max s /\ m_name s' = m_name s /\
  if b then m_count s' = m_count s + at_least_one k /\ m_count s' <= m_max s
  else s' = s /\ m_max s < m_count s + at_least_one k.
Proof.
  unfold signal. intros H. cbv zeta in H. destruct (2 ^ 31 <=? _); [done|].
  destruct (m_max s <? _) eqn:E; injection H as <- <-; simpl; split_and!; try done; lia.
Qed.

Lemma at_least_one_pos n : 1 <= at_least_one n.
Proof. unfold at_least_one. destruct (n <=? 0) eqn:E; lia. Qed.

End Sequential.

(** ** Invariants of the interleaving *)
Section Interleaving.
Import KernelSema SemaRun.

Lemma taken_returns th k b : taken (returns th k b) = taken th + taken_by (k, b).
Proof. unfold taken, returns. simpl. rewrite zsum_app. simpl. lia. Qed.

(** The need a thread is waiting for is positive. *)
Definition pc_pos (th : thread) : Prop :=
  match pc th with Parked n _ | AtMutex n _ => 1 <= n | _ => True end.

Lemma local_account s th s' th' b :
  local s th s' th' b -> pc_pos th ->
  pc_pos th' /\ m_max s' = m_max s /\
  m_count s' = m_count s + (given th' - given th) - (taken th' - taken th) /\
  (0 <= m_count s <= m_max s -> 0 <= m_count s' <= m_max s').
Proof.
  intros Hl Hp.
  destruct Hl as [s th n us rest Hpc Ht|s th n us Hpc Hpr|s th n us Hpc Hpr|s th n us Hpc ? Hpr
    |s th n us Hpc ? Hpr|s th k rest s' Hpc Ht Hs|s th k rest s' Hpc Ht Hs|s th k Hpc];
    unfold pc_pos in *; rewrite ?Hpc in Hp; try apply signal_Some in Hs as (Hm & _ & Hs);
    try pose proof (at_least_one_pos n); try pose proof (at_least_one_pos k);
    rewrite ?taken_returns; unfold given, taken, returns, pred in *; simpl in *; rewrite ?Hpc, ?zsum_app;
    simpl; try destruct Hs as [Hs Hs']; subst; split_and!; try done; intros; lia.
Qed.

(** A thread that is neither done nor asleep without a deadline can move, when
    no signal it makes overflows. *)
Definition asleep (th : thread) : bool :=
  match pc th with Parked _ us => us <? 0 | _ => false end.

Definition fits (mx : Z) (k : call) : Prop :=
  match k with CSignal n => mx + at_least_one n < 2 ^ 31 | CWait _ _ => True end.

Lemma signal_fits s k : m_count s <= m_max s -> fits (m_max s) (CSignal k) -> is_Some (signal s k).
Proof.
  unfold signal. simpl. intros. destruct (2 ^ 31 <=? _) eqn:E; [lia|]. by destruct (m_max s <? _).
Qed.

Lemma local_progress s th :
  m_count s <= m_max s -> finished th = false -> asleep th = false ->
  Forall (fits (m_max s)) (todo th) ->
  exists s' th' b, local s th s' th' b.
Proof.
  intros Hc Hf Ha Hb. unfold finished, asleep in *. destruct (pc th) as [|n us|n us|k] eqn:Hpc.
  - destruct (todo th) as [|[n us|k] rest] eqn:Ht; [done|by do 3 eexists; eapply l_wait|].
    apply Forall_inv in Hb. destruct (signal_fits s k Hc Hb) as [[s' []] Hs].
    + by do 3 eexists; eapply l_signal.
    + by do 3 eexists; eapply l_signal_full.
  - assert (0 <= us) by lia. destruct (pred s n) eqn:Hp; do 3 eexists;
      [by eapply l_timeout_take|by eapply l_timeout].
  - destruct (pred s n) eqn:Hp; do 3 eexists; [by eapply l_take|by eapply l_park].
  - by do 3 eexists; eapply l_notify.
Qed.

(** *** Every reachable configuration *)
Record inv (s0 : t) (c : conf) : Prop := mkInv {
  inv_max : m_max (sema c) = m_max s0;
  inv_range : 0 <= m_count (sema c) <= m_max (sema c);
  inv_account : m_count (sema c) = m_count s0 + zsum given (threads c) - zsum taken (threads c);
  inv_pos : Forall pc_pos (threads c);
  inv_parked : forall i th n us,
    threads c !! i = Some th -> pc th = Parked n us -> pred (sema c) n = true ->
    exists j thj k, threads c !! j = Some thj /\ pc thj = Notifying k
}.

Lemma wake_spec th :
  given (wake th) = given th /\ taken (wake th) = taken th /\ todo (wake th) = todo th /\
  (pc_pos th -> pc_pos (wake th)) /\ (forall n us, pc (wake th) <> Parked n us) /\
  (forall k, pc th = Notifying k -> wake th = th).
Proof.
  destruct th as [[] td dn]; unfold given, taken, pc_pos, wake; simpl; split_and!; congruence || done.
Qed.

Lemma start_inv s prog : 0 <= m_count s <= m_max s -> inv s (start s prog).
Proof.
  intros H. split; simpl; [done|done| | |].
  - rewrite !zsum_fmap. rewrite (zsum_ext _ (fun _ => 0)), (zsum_ext (taken ∘ _) (fun _ => 0)); [lia|..];
      by apply Forall_forall.
  - apply Forall_fmap, Forall_forall. done.
  - intros i th n us Hi. rewrite list_lookup_fmap in Hi.
    by destruct (prog !! i); simplify_eq/=.
Qed.

Lemma zsum_wake (f : thread -> Z) l : (forall th, f (wake th) = f th) -> zsum f (wake <$> l) = zsum f l.
Proof. intros H. rewrite zsum_fmap. apply zsum_ext, Forall_forall. intros. apply H. Qed.

Lemma given_wake th : given (wake th) = given th.
Proof. apply wake_spec. Qed.
Lemma taken_wake th : taken (wake th) = taken th.
Proof. apply wake_spec. Qed.

(** A step that does not notify wakes nobody, and one that raises the count
    leaves its thread about to notify. *)
Lemma local_quiet s th s' th' :
  local s th s' th' false -> pc_pos th ->
  (forall k, pc th <> Notifying k) /\
  (forall n us, pc th' = Parked n us -> pred s' n = false) /\
  (m_count s' <= m_count s \/ exists k, pc th' = Notifying k).
Proof.
  unfold pc_pos.
  inversion 1 as [| | | | |? ? ? ? ? ? ? Hs|? ? ? ? ? ? ? Hs|]; subst; simpl; intros Hp;
    split_and!; intros; simplify_eq; try congruence; eauto; try (left; lia);
    try (apply signal_Some in Hs as (_ & _ & -> & _); left; lia);
    left; destruct (pc th); simplify_eq; lia.
Qed.

Lemma sema_step_inv s0 c c' : step c c' -> inv s0 c -> inv s0 c'.
Proof.
  intros [c0 i th s' th' b Hi Hl] [Hm Hr Ha Hp Hk]. clear c c'. rename c0 into c.
  pose proof (proj1 (Forall_lookup _ _) Hp _ _ Hi) as Hpi.
  destruct (local_account _ _ _ _ _ Hl Hpi) as (Hp' & Hm' & Hc & Hr').
  assert (Forall pc_pos (<[i:=th']> (threads c))) as Hpall by (by apply Forall_insert).
  assert (m_count s' = m_count s0 + zsum given (<[i:=th']> (threads c))
                                  - zsum taken (<[i:=th']> (threads c))) as Ha'.
  { rewrite !(zsum_insert _ _ _ _ _ Hi). lia. }
  destruct b; split; simpl; try congruence; auto.
  - rewrite (zsum_wake given), (zsum_wake taken) by (apply given_wake || apply taken_wake). done.
  - apply Forall_fmap. eapply Forall_impl; [exact Hpall|]. intros x. apply wake_spec.
  - intros j thj n us Hj Hpark. rewrite list_lookup_fmap in Hj.
    destruct (_ !! j); simplify_eq/=. by apply wake_spec in Hpark.
  - destruct (local_quiet _ _ _ _ Hl Hpi) as (Hn & Hpk & Hcount).
    intros j thj n us Hj Hpark Hpred.
    assert (i < length (threads c))%nat as Hlen by (by apply lookup_lt_Some in Hi).
    destruct Hcount as [Hle|[k Hk']].
    + destruct (decide (j = i)) as [->|Hne].
      * rewrite list_lookup_insert_eq in Hj by done. simplify_eq.
        apply Hpk in Hpark. congruence.
      * rewrite list_lookup_insert_ne in Hj by done.
        destruct (Hk j thj n us Hj Hpark) as (j' & thj' & k & Hj' & Hn');
          [unfold pred in *; lia|].
        exists j', thj', k. split; [|done]. rewrite list_lookup_insert_ne; [done|].
        intros <-. simplify_eq. by apply (Hn k).
    + exists i, th', k. by rewrite list_lookup_insert_eq.
Qed.

Lemma estep_inv s0 c c' : estep c c' -> inv s0 c -> inv s0 c'.
Proof.
  intros [c1 c2 Hs|c1 i th Hi]; [by apply sema_step_inv|]. intros [Hm Hr Ha Hp Hk].
  split; simpl; auto.
  - rewrite !(zsum_insert _ _ _ _ _ Hi), given_wake, taken_wake. lia.
  - apply Forall_insert; [done|]. apply wake_spec. by eapply Forall_lookup_1 in Hp.
  - intros j thj n us Hj Hpark Hpred.
    assert (i < length (threads c1))%nat as Hlen by (by apply lookup_lt_Some in Hi).
    destruct (decide (j = i)) as [->|Hne].
    { rewrite list_lookup_insert_eq in Hj by done. simplify_eq. by apply wake_spec in Hpark. }
    rewrite list_lookup_insert_ne in Hj by done.
    destruct (Hk j thj n us Hj Hpark Hpred) as (j' & thj' & k & Hj' & Hn').
    exists j', thj', k. split; [|done]. destruct (decide (i = j')) as [->|].
    + rewrite list_lookup_insert_eq by done. simplify_eq. f_equal. by eapply wake_spec.
    + by rewrite list_lookup_insert_ne.
Qed.

Lemma sema_reachable_inv s prog c :
  0 <= m_count s <= m_max s -> reachable s prog c -> inv s c.
Proof.
  intros H0 H. unfold reachable in H. pose proof (start_inv s prog H0) as Hi. revert Hi.
  induction H as [|a b d Hs _ IH]; [done|]. eauto using estep_inv.
Qed.

(** *** Termination: a measure that every step but a spurious wake-up lowers *)
Definition call_cost (n : Z) (k : call) : Z := match k with CWait _ _ => 3 | CSignal _ => n + 3 end.
Definition cost (n : Z) (th : thread) : Z :=
  zsum (call_cost n) (todo th) +
  match pc th with Idle => 0 | Parked _ _ => 1 | AtMutex _ _ => 2 | Notifying _ => n + 1 end.
Definition measure (c : conf) : Z :=
  let n := Z.of_nat (length (threads c)) in zsum (cost n) (threads c).

Lemma cost_nonneg n th : 0 <= n -> 0 <= cost n th.
Proof.
  intros Hn. unfold cost. assert (0 <= zsum (call_cost n) (todo th)) by
    (apply zsum_nonneg, Forall_forall; intros [] _; simpl; lia).
  destruct (pc th); lia.
Qed.

Lemma local_cost n s th s' th' b :
  0 <= n -> local s th s' th' b -> cost n th' + (if b then n else 0) < cost n th.
Proof.
  intros Hn. unfold cost.
  inversion 1 as [? ? ? ? ? Hpc Ht|? ? ? ? Hpc|? ? ? ? Hpc|? ? ? ? Hpc|? ? ? ? Hpc
    |? ? ? ? ? Hpc Ht|? ? ? ? ? Hpc Ht|? ? ? Hpc]; subst; simpl; rewrite Hpc; try rewrite Ht; simpl; lia.
Qed.

Lemma zsum_wake_cost n l : 0 <= n -> zsum (cost n) (wake <$> l) <= zsum (cost n) l + Z.of_nat (length l).
Proof.
  intros Hn. induction l as [|th l IH]; [simpl; lia|]. rewrite fmap_cons. simpl zsum.
  assert (cost n (wake th) <= cost n th + 1);
    [unfold cost, wake; destruct (pc th) eqn:E; simpl; rewrite ?E; lia|simpl length; lia].
Qed.

Lemma step_measure c c' : step c c' -> 0 <= measure c' < measure c.
Proof.
  intros [c0 i th s' th' b Hi Hl]. clear c c'. unfold measure. simpl.
  set (n := Z.of_nat (length (threads c0))). pose proof (local_cost n _ _ _ _ _ ltac:(lia) Hl) as Hc.
  pose proof (zsum_insert (cost n) _ _ _ th' Hi) as Hz. split.
  - apply zsum_nonneg, Forall_forall. intros. apply cost_nonneg. lia.
  - destruct b; rewrite ?length_fmap, ?length_insert; fold n; [|lia].
    pose proof (zsum_wake_cost n (<[i:=th']> (threads c0)) ltac:(lia)) as Hw.
    rewrite length_insert in Hw. fold n in Hw. lia.
Qed.

Lemma step_wf : well_founded (flip step).
Proof.
  apply (wf_projected lt (fun c => Z.to_nat (measure c))); [|apply lt_wf].
  intros c' c Hs. apply step_measure in Hs. lia.
Qed.

(** *** Where runs end *)
Definition final (c : conf) : Prop := forall c', ~ step c c'.

Definition all_fit (c : conf) : Prop :=
  Forall (fun th => Forall (fits (m_max (sema c))) (todo th)) (threads c).

Lemma local_todo s th s' th' b :
  local s th s' th' b -> m_max s' = m_max s /\ suffix (todo th') (todo th).
Proof.
  inversion 1 as [| | | | |? ? ? ? ? ? ? Hs|? ? ? ? ? ? ? Hs|]; subst; simpl;
    try apply signal_Some in Hs as (? & _); split; try done;
    match goal with E : todo _ = ?k :: _ |- _ => rewrite E; by apply suffix_cons_r end.
Qed.

Lemma step_fit c c' : step c c' -> all_fit c -> all_fit c'.
Proof.
  intros [c0 i th s' th' b Hi Hl] Hf. unfold all_fit in *. simpl.
  apply local_todo in Hl as [-> [pre Hsuf]].
  assert (Forall (fun th => Forall (fits (m_max (sema c0))) (todo th)) (<[i:=th']> (threads c0))) as Hins.
  { apply Forall_insert; [done|]. eapply Forall_lookup_1 in Hf; [|exact Hi]. simpl in Hf.
    rewrite Hsuf in Hf. by apply Forall_app in Hf as [_ ?]. }
  destruct b; [|done]. apply Forall_fmap. eapply Forall_impl; [exact Hins|]. simpl. intros x Hx.
  destruct (wake_spec x) as (_ & _ & -> & _). done.
Qed.

(** Either some thread can move, or every thread has returned from all its
    calls or sleeps, without a deadline, for more than there is. *)
Lemma progress s0 c :
  inv s0 c -> all_fit c ->
  (exists c', step c c') \/
  Forall (fun th => finished th = true \/ starved (sema c) th = true) (threads c).
Proof.
  intros Hinv Hf.
  destruct (decide (Forall (fun th => finished th || starved (sema c) th = true) (threads c))) as [Hd|Hd].
  { right. eapply Forall_impl; [exact Hd|]. intros th ?%orb_true_iff. done. }
  left. apply not_Forall_Exists in Hd; [|intros ?; apply _].
  apply Exists_exists in Hd as (th & Hin & Hth).
  apply not_true_is_false, orb_false_iff in Hth as [Hfin Hst].
  apply list_elem_of_lookup in Hin as [i Hi].
  assert (exists j thj, threads c !! j = Some thj /\ finished thj = false /\ asleep thj = false)
    as (j & thj & Hj & Hfj & Haj).
  { destruct (asleep th) eqn:Ea; [|by exists i, th].
    unfold asleep, starved in *. destruct (pc th) as [|n us|n us|k] eqn:Hpc; try done.
    rewrite Ea in Hst. simpl in Hst. apply negb_false_iff in Hst.
    destruct (inv_parked _ _ Hinv i th n us Hi Hpc Hst) as (j & thj & k & Hj & Hk).
    exists j, thj. unfold finished. by rewrite Hk. }
  destruct (local_progress (sema c) thj) as (s' & th' & b & Hl); try done.
  - apply (inv_range _ _ Hinv).
  - by eapply Forall_lookup_1 in Hf.
  - eexists. by eapply step_local.
Qed.

Lemma starved_final c :
  Forall (fun th => finished th = true \/ starved (sema c) th = true) (threads c) -> final c.
Proof.
  intros Hf c' Hs. inversion Hs as [c0 i th s' th' b Hi Hl]; subst.
  eapply Forall_lookup_1 in Hf; [|exact Hi]. unfold finished, starved in Hf.
  destruct Hl as [s th ? ? ? Hpc Ht|s th ? ? Hpc|s th ? ? Hpc|s th n us Hpc ? Hpr|s th n us Hpc ? Hpr
    |s th ? ? ? Hpc Ht|s th ? ? ? Hpc Ht|s th ? Hpc]; rewrite Hpc in Hf; try rewrite Ht in Hf;
    destruct Hf as [Hf|Hf]; try done; try rewrite Hpr in Hf; destruct (us <? 0) eqn:?; simpl in Hf; done || lia.
Qed.

(** Every run can be continued to a final configuration. *)
Lemma run_to_final s0 c :
  inv s0 c -> all_fit c -> exists c', rtc step c c' /\ final c'.
Proof.
  revert c. refine (well_founded_ind step_wf _ _). intros c IH Hinv Hf.
  destruct (progress s0 c Hinv Hf) as [[c1 Hs]|Hd]; [|exists c; split; [apply rtc_refl|by apply starved_final]].
  destruct (IH c1 Hs) as (c' & Hr & Hfin); [by eapply sema_step_inv|by eapply step_fit|].
  exists c'. split; [by eapply rtc_l|done].
Qed.

End Interleaving.

(** ** Producers and consumers

    A program in which every thread only waits or only signals, the signals fit
    under the maximum and the waits ask for no more than there will be. *)
Section ProducersConsumers.
Import KernelSema SemaRun.

Definition is_wait (k : call) : bool := match k with CWait _ _ => true | _ => false end.
Definition is_signal (k : call) : bool := negb (is_wait k).
Definition supply_of (k : call) : Z := match k with CSignal n => at_least_one n | _ => 0 end.
Definition demand_of (k : call) : Z := match k with CWait n _ => at_least_one n | _ => 0 end.
Definition supply (prog : list (list call)) : Z := zsum (zsum supply_of) prog.
Definition demand (prog : list (list call)) : Z := zsum (zsum demand_of) prog.

Definition one_sided (calls : list call) : bool := forallb is_wait calls || forallb is_signal calls.

(** What the theorem asks of the semaphore and the program. *)
Record balanced (s : t) (prog : list (list call)) : Prop := mkBalanced {
  bal_sided : Forall (fun calls => one_sided calls = true) prog;
  bal_count : 0 <= m_count s;
  bal_room : m_count s + supply prog <= m_max s;
  bal_fits : Forall (Forall (fits (m_max s))) prog;
  bal_enough : demand prog <= m_count s + supply prog
}.

Definition pure (th : thread) : Prop :=
  0 <= taken th /\
  match pc th with
  | Idle => one_sided (todo th) = true
  | Parked _ _ | AtMutex _ _ => forallb is_wait (todo th) = true
  | Notifying _ => forallb is_signal (todo th) = true
  end.

(** Units a thread has put in or will, and units it has taken or may. *)
Definition will_give (th : thread) : Z := given th + zsum supply_of (todo th).
Definition wants (th : thread) : Z :=
  match pc th with Parked n _ | AtMutex n _ => n | _ => 0 end + zsum demand_of (todo th).

Record pinv (s0 : t) (prog : list (list call)) (c : conf) : Prop := mkPinv {
  p_inv : inv s0 c;
  p_pure : Forall pure (threads c);
  p_give : zsum will_give (threads c) = supply prog;
  p_take : zsum taken (threads c) + zsum wants (threads c) <= demand prog
}.

Lemma supply_nonneg l : 0 <= zsum supply_of l.
Proof.
  apply zsum_nonneg, Forall_forall. intros [n us|n] _; simpl; [lia|]. pose proof (at_least_one_pos n). lia.
Qed.
Lemma demand_nonneg l : 0 <= zsum demand_of l.
Proof.
  apply zsum_nonneg, Forall_forall. intros [n us|n] _; simpl; [|lia]. pose proof (at_least_one_pos n). lia.
Qed.

Lemma wants_nonneg th : pc_pos th -> 0 <= wants th.
Proof. unfold wants, pc_pos. pose proof (demand_nonneg (todo th)). destruct (pc th); lia. Qed.

Lemma waits_supply l : forallb is_wait l = true -> zsum supply_of l = 0.
Proof. induction l as [|[n us|n] l IH]; simpl; [done|exact IH|done]. Qed.

Lemma local_pure s th s' th' b :
  local s th s' th' b -> pc_pos th -> pure th ->
  pure th' /\ taken th' + wants th' <= taken th + wants th /\
  (will_give th' = will_give th \/
   exists k rest, todo th = CSignal k :: rest /\ m_max s < m_count s + at_least_one k).
Proof.
  intros Hl Hpos [Hp0 Hp]. unfold pc_pos, will_give, wants, given in *.
  destruct Hl as [s th n us rest Hpc Ht|s th n us Hpc Hpr|s th n us Hpc Hpr|s th n us Hpc ? Hpr
    |s th n us Hpc ? Hpr|s th k rest s' Hpc Ht Hs|s th k rest s' Hpc Ht Hs|s th k Hpc];
    rewrite Hpc in Hpos, Hp |- *; try rewrite Ht in Hp |- *; unfold pure;
    rewrite ?taken_returns; unfold taken in *; simpl in *; rewrite ?zsum_app; simpl;
    try (unfold one_sided in Hp |- *; simpl in Hp; rewrite ?orb_false_r in Hp);
    split_and!; try lia; try done; try (left; lia); try (by rewrite Hp; rewrite ?orb_true_r).
  - right. apply signal_Some in Hs as (_ & _ & _ & ?). eauto.
Qed.

Lemma pure_wake th :
  (pure th -> pure (wake th)) /\ will_give (wake th) = will_give th /\
  taken (wake th) + wants (wake th) = taken th + wants th.
Proof.
  unfold pure, will_give, wants, given, taken, wake. destruct (pc th) eqn:E; simpl; rewrite ?E; auto.
Qed.

Lemma zsum_minus {A} (f g : A -> Z) l : zsum (fun x => f x - g x) l = zsum f l - zsum g l.
Proof. induction l as [|x l IH]; simpl; lia. Qed.

Lemma zsum_wants l : zsum (fun th => taken th + wants th) l = zsum taken l + zsum wants l.
Proof. induction l as [|x l IH]; simpl; lia. Qed.

(** No signal of a balanced program is refused. *)
Lemma balanced_room s0 prog c i th k rest :
  balanced s0 prog -> pinv s0 prog c -> threads c !! i = Some th -> todo th = CSignal k :: rest ->
  m_count (sema c) + at_least_one k <= m_max (sema c).
Proof.
  intros Hb [Hi Hp Hg _] Hth Ht.
  pose proof (bal_room _ _ Hb). rewrite (inv_max _ _ Hi).
  pose proof (inv_account _ _ Hi) as Ha.
  assert (0 <= zsum taken (threads c)) by (apply zsum_nonneg; eapply Forall_impl; [exact Hp|]; by intros ? []).
  assert (zsum (fun th => will_give th - given th) (threads c)
          = supply prog - zsum given (threads c)) as Hrest by (rewrite zsum_minus; lia).
  pose proof (zsum_ge (fun th => will_give th - given th) (threads c) i th) as Hge.
  specialize (Hge ltac:(apply Forall_forall; intros x _; unfold will_give; pose proof (supply_nonneg (todo x)); lia) Hth).
  unfold will_give in Hge at 1. rewrite Ht in Hge. simpl in Hge. pose proof (supply_nonneg rest). lia.
Qed.

Lemma start_pinv s prog : balanced s prog -> pinv s prog (start s prog).
Proof.
  intros [Hs Hc Hr Hf He].
  assert (0 <= supply prog) by (apply zsum_nonneg, Forall_forall; intros; apply supply_nonneg).
  split; simpl.
  - apply start_inv. lia.
  - apply Forall_fmap. eapply Forall_impl; [exact Hs|]. simpl. intros calls Hcalls. by split.
  - rewrite zsum_fmap. apply zsum_ext, Forall_forall. intros l _. unfold will_give, given. simpl. lia.
  - rewrite <- zsum_wants, zsum_fmap. unfold demand.
    rewrite (zsum_ext _ (zsum demand_of)); [lia|]. by apply Forall_forall.
Qed.

Lemma estep_pinv s0 prog c c' :
  balanced s0 prog -> estep c c' -> pinv s0 prog c -> pinv s0 prog c'.
Proof.
  intros Hb He Hp. pose proof (estep_inv _ _ _ He (p_inv _ _ _ Hp)) as Hinv'.
  destruct Hp as [Hi Hpure Hg Ht]. rewrite <- zsum_wants in Ht.
  destruct He as [c1 c2 [c0 i th s' th' b Hth Hl]|c1 i th Hth].
  - destruct (local_pure _ _ _ _ _ Hl (Forall_lookup_1 _ _ _ _ (inv_pos _ _ Hi) Hth)
      (Forall_lookup_1 _ _ _ _ Hpure Hth)) as (Hp' & Ht' & Hg').
    destruct Hg' as [Hg'|(k & rest & Hk & Hfull)].
    2:{ pose proof (balanced_room s0 prog c0 i th k rest Hb
          ltac:(split; [done..|by rewrite <- zsum_wants]) Hth Hk). lia. }
    assert (Forall pure (<[i:=th']> (threads c0))) as Hpi by (by apply Forall_insert).
    pose proof (zsum_insert will_give _ _ _ th' Hth) as Hzg.
    pose proof (zsum_insert (fun th => taken th + wants th) _ _ _ th' Hth) as Hzt. simpl in Hzt.
    destruct b; split; simpl; try rewrite <- zsum_wants; try done; try lia.
    + apply Forall_fmap. eapply Forall_impl; [exact Hpi|]. intros x. apply pure_wake.
    + rewrite zsum_wake by apply pure_wake. lia.
    + rewrite (zsum_wake (fun th => taken th + wants th)) by apply pure_wake. lia.
  - split; simpl; try done.
    + apply Forall_insert; [done|]. apply pure_wake. by eapply Forall_lookup_1 in Hpure.
    + rewrite (zsum_insert _ _ _ _ _ Hth). destruct (pure_wake th) as (_ & ? & _). lia.
    + rewrite <- zsum_wants. rewrite (zsum_insert (fun th => taken th + wants th) _ _ _ _ Hth).
      destruct (pure_wake th) as (_ & _ & ?). lia.
Qed.

(** Where a balanced program stops, nobody is left asleep. *)
Lemma balanced_final s0 prog c :
  balanced s0 prog -> pinv s0 prog c ->
  Forall (fun th => finished th = true \/ starved (sema c) th = true) (threads c) ->
  Forall (fun th => finished th = true) (threads c).
Proof.
  intros Hb [Hi Hpure Hg Ht] Hd. apply Forall_lookup. intros i th Hth.
  pose proof (Forall_lookup_1 _ _ _ _ Hd Hth) as [?|Hst]; [done|exfalso].
  assert (zsum given (threads c) = supply prog) as Hall.
  { rewrite <- Hg. apply zsum_ext, Forall_forall. intros x Hx.
    rewrite Forall_forall in Hd, Hpure. specialize (Hd x Hx). destruct (Hpure x Hx) as [_ Hpx].
    unfold will_give. enough (zsum supply_of (todo x) = 0) by lia.
    unfold finished, starved in Hd. destruct (pc x), (todo x) as [|k l]; destruct Hd; try done;
      by apply waits_supply. }
  pose proof (inv_account _ _ Hi) as Ha. pose proof (bal_enough _ _ Hb).
  pose proof (zsum_ge wants (threads c) i th) as Hw.
  specialize (Hw ltac:(eapply Forall_impl; [exact (inv_pos _ _ Hi)|]; apply wants_nonneg) Hth).
  assert (exists n us, pc th = Parked n us /\ m_count (sema c) < n) as (n & us & Hpc & Hn).
  { unfold starved, pred in Hst. destruct (pc th) as [|n us| |]; try done. exists n, us. split; [done|lia]. }
  assert (wants th = n + zsum demand_of (todo th)) as Hwn by (unfold wants; by rewrite Hpc).
  pose proof (demand_nonneg (todo th)). lia.
Qed.

Lemma balanced_all_fit s prog : balanced s prog -> all_fit (start s prog).
Proof.
  intros Hb. apply Forall_fmap. exact (bal_fits _ _ Hb).
Qed.

Lemma estep_fit c c' : estep c c' -> all_fit c -> all_fit c'.
Proof.
  intros [c1 c2 Hs|c1 i th Hth]; [by apply step_fit|]. unfold all_fit. simpl. intros Hf.
  apply Forall_insert; [done|]. destruct (wake_spec th) as (_ & _ & -> & _).
  by eapply Forall_lookup_1 in Hf.
Qed.

Lemma reachable_pinv s prog c :
  balanced s prog -> reachable s prog c -> pinv s prog c /\ all_fit c.
Proof.
  intros Hb Hr. unfold reachable in Hr. pose proof (start_pinv _ _ Hb) as Hp.
  pose proof (balanced_all_fit _ _ Hb) as Hf. revert Hp Hf.
  induction Hr as [|a b d Hs _ IH]; [done|]. eauto using estep_pinv, estep_fit.
Qed.

End ProducersConsumers.

(** ** Properties *)
Section Properties.
Import KernelSema SemaRun.

(** C10: whatever the threads do, the count stays between zero and the maximum
    and is what it was at the start, plus what accepted signals put in, minus
    what returned waits took out; and no wake-up is lost: a thread is asleep
    although the count covers its need only while a signal is still between its
    unlock and its notification. *)
Theorem sema_invariant s prog c :
  0 <= m_count s <= m_max s -> reachable s prog c ->
  0 <= m_count (sema c) <= m_max s /\
  m_count (sema c) = m_count s + zsum given (threads c) - zsum taken (threads c) /\
  forall i th n us, threads c !! i = Some th -> pc th = Parked n us -> n <= m_count (sema c) ->
    exists j thj k, threads c !! j = Some thj /\ pc thj = Notifying k.
Proof.
  intros H0 Hr. pose proof (sema_reachable_inv _ _ _ H0 Hr) as [Hm Hc Ha _ Hk].
  rewrite Hm in Hc. split_and!; try lia. intros i th n us Hi Hp Hn. apply (Hk i th n us Hi Hp).
  unfold pred. lia.
Qed.

(** One producer and one consumer; the consumer goes to sleep first. *)
Definition demo_sema : t := make (cstr "sem") 0 4.
Definition demo_prog : list (list call) := [[CWait 2 (-1)]; [CSignal 1; CSignal 1]].

Definition demo_asleep : conf :=
  mkConf demo_sema [mkThread (Parked 2 (-1)) [] []; mkThread Idle [CSignal 1; CSignal 1] []].

Lemma demo_reachable : reachable demo_sema demo_prog demo_asleep.
Proof.
  eapply rtc_l; [apply estep_step; eapply (step_local _ 0%nat); [reflexivity|by eapply l_wait]|].
  eapply rtc_l; [apply estep_step; eapply (step_local _ 0%nat); [reflexivity|by eapply l_park]|].
  apply rtc_refl.
Qed.

Lemma sema_invariant_witness :
  0 <= m_count (sema demo_asleep) <= 4 /\
  m_count (sema demo_asleep) = 0 + zsum given (threads demo_asleep) - zsum taken (threads demo_asleep).
Proof.
  pose proof (sema_invariant demo_sema demo_prog demo_asleep ltac:(simpl; lia) demo_reachable) as (H1 & H2 & _).
  split; [exact H1|exact H2].
Defined.

(** C30: without spurious wake-ups every run is finite, whatever the threads
    call. *)
Theorem sema_terminates : well_founded (flip step).
Proof. exact step_wf. Qed.

(** C7: when every thread only waits or only signals, the signals fit under
    the maximum and the waits ask for no more than there will be, no schedule
    (spurious wake-ups and deadlines included) leaves a thread blocked: from
    every reachable configuration a run reaches the end, and wherever no thread
    can move every call of every thread has returned. *)
Theorem producers_consumers_finish s prog c :
  balanced s prog -> reachable s prog c ->
  (exists c', rtc step c c' /\ final c') /\
  (forall c', rtc step c c' -> final c' -> Forall (fun th => finished th = true) (threads c')).
Proof.
  intros Hb Hr. split.
  - destruct (reachable_pinv _ _ _ Hb Hr) as [Hp Hf]. eapply run_to_final; [apply Hp|done].
  - intros c' Hs Hfin.
    assert (reachable s prog c') as Hr'.
    { unfold reachable in *. etransitivity; [exact Hr|]. eapply rtc_subrel; [|exact Hs]. by constructor. }
    destruct (reachable_pinv _ _ _ Hb Hr') as [Hp Hf].
    destruct (progress s c' (p_inv _ _ _ Hp) Hf) as [[c'' H]|Hd]; [by apply Hfin in H|].
    by eapply balanced_final.
Qed.

Lemma demo_balanced : balanced demo_sema demo_prog.
Proof.
  split.
  - by repeat constructor.
  - done.
  - by vm_compute.
  - repeat constructor.
  - by vm_compute.
Qed.

Lemma producers_consumers_finish_witness :
  exists c', rtc step demo_asleep c' /\ Forall (fun th => finished th = true) (threads c').
Proof.
  destruct (producers_consumers_finish demo_sema demo_prog demo_asleep demo_balanced demo_reachable)
    as [(c' & Hr & Hf) Hall].
  exists c'. split; [exact Hr|exact (Hall c' Hr Hf)].
Defined.

(** A program that is not balanced can block for ever, and the code has
    no way to see it: a semaphore made with more units than its maximum accepts
    no signal until it is drained, one made with a negative count accepts waits
    only after the debt is paid, and a wait for more than the maximum sleeps for
    ever. *)
Theorem sema_limits name init mx :
  1 <= mx < 2 ^ 31 ->
  (forall k, mx < init -> init + at_least_one k < 2 ^ 31 ->
     signal (make name init mx) k = Some (make name init mx, false)) /\
  (forall need, init < at_least_one need -> wait (make name init mx) need (-1) = Blocks) /\
  (forall prog c i th n us, 0 <= init <= mx -> mx < n -> reachable (make name init mx) prog c ->
     threads c !! i = Some th -> pc th = Parked n us -> pred (sema c) n = false).
Proof.
  intros Hm. assert (make name init mx = mkSema name mx init) as ->.
  { unfold make. destruct (0 <? mx) eqn:E; [done|lia]. }
  split_and!.
  - intros k Hi Hk. unfold signal. simpl. pose proof (at_least_one_pos k).
    destruct (2 ^ 31 <=? _) eqn:E1; [lia|]. destruct (mx <? _) eqn:E2; [done|lia].
  - intros need Hn. unfold wait, pred. simpl. destruct (_ <=? init) eqn:E; [lia|done].
  - intros prog c i th n us Hi Hn Hr Hth Hpc.
    pose proof (sema_reachable_inv (mkSema name mx init) prog c Hi Hr) as [Hmx Hc _ _ _].
    simpl in Hmx. unfold pred. lia.
Qed.

Lemma sema_limits_witness :
  signal (make [] 5 2) 1 = Some (make [] 5 2, false) /\ wait (make [] (-1) 2) 0 (-1) = Blocks.
Proof.
  split.
  - apply (proj1 (sema_limits [] 5 2 ltac:(lia))); [lia|]. vm_compute. done.
  - apply (proj1 (proj2 (sema_limits [] (-1) 2 ltac:(lia)))). vm_compute. done.
Defined.

End Properties.
