(* ===== verification/SceKernel.v ===== *)
(** * The kernel library

    [sce/kernel/SceKernel.cpp]: semaphores, event queues and threads as the
    guest calls them, on the handle table and the thread manager of the
    process.  A call runs as one step here: it returns, blocks until another
    thread acts, or ends the process.  Several threads inside [KernelSema::wait]
    and [signal] are the subject of [KernelSync]. *)
From S2P Require Import Prelude Memory FreeBsd Vfs AddressSpace Handles Threads Host Process KernelSync.

Definition kSceOk : Z := 0.
Definition kSceErrorInvalidArg : Z := i32 0x80020005.
Definition kSceErrorNotFound : Z := i32 0x80020004.
Definition kSceErrorBusy : Z := i32 0x8002000B.
Definition kSceErrorTimeout : Z := i32 0x8002000C.

(** [RuntimeContext::m_process], and the state of the semaphores and events
    that handles denote, by identity. *)
Record Kernel := mkKernel {
  k_process : option PS4Process.t;
  k_semas : gmap Z KernelSema.t;
  k_events : gmap Z EventHandle.t;
  k_fresh : Z
}.

(** A call returns a value, blocks, or ends the process: [abort] without a
    process, a fault on an unmapped address, undefined behaviour. *)
Inductive Outcome :=
  | Return (k : Kernel) (v : Z)
  | Blocked
  | Crash.

Definition requireProcess (k : Kernel) (body : PS4Process.t -> Outcome) : Outcome :=
  match k_process k with Some p => body p | None => Crash end.

Definition set_process (p : PS4Process.t) (k : Kernel) : Kernel :=
  mkKernel (Some p) (k_semas k) (k_events k) (k_fresh k).
Definition set_sema (id : Z) (s : KernelSema.t) (k : Kernel) : Kernel :=
  mkKernel (k_process k) (<[id := s]> (k_semas k)) (k_events k) (k_fresh k).

Definition get_handle (p : PS4Process.t) (h : Z) : option HandleObject :=
  HandleTable.get (PS4Process.m_handleTable p) h.

(** [registerObject] of a fresh object. *)
Definition register_object (p : PS4Process.t) (o : HandleObject) : PS4Process.t * Z :=
  let '(ht, h) := HandleTable.registerObject (PS4Process.m_handleTable p) (Some o) in
  (PS4Process.set_handles ht p, h).

Definition close_handle (p : PS4Process.t) (h : Z) : PS4Process.t :=
  PS4Process.set_handles (fst (fst (HandleTable.close (PS4Process.m_handleTable p) h))) p.

(** [name ? name : d]; reading the string may fault. *)
Definition c_string (p : PS4Process.t) (ptr : Z) (d : bytes) : option bytes :=
  if ptr =? 0 then Some d else strz (PS4Process.m_mem p) ptr.

Definition read_u32 (p : PS4Process.t) (ptr : Z) : option Z :=
  le_decode <$> load_bytes (PS4Process.m_mem p) ptr 4.

Definition or_crash {A} (x : option A) (body : A -> Outcome) : Outcome :=
  match x with Some a => body a | None => Crash end.

(** ** Semaphores *)

Definition sceKernelCreateSema (name initCount maxCount : Z) (k : Kernel) : Outcome :=
  requireProcess k (fun p =>
  or_crash (c_string p name []) (fun nm =>
    let '(p', h) := register_object p (KernelSemaObject (k_fresh k)) in
    Return (mkKernel (Some p') (<[k_fresh k := KernelSema.make nm initCount maxCount]> (k_semas k))
              (k_events k) (k_fresh k + 1)) h)).

Definition sceKernelDeleteSema (sem : Z) (k : Kernel) : Outcome :=
  requireProcess k (fun p =>
    match get_handle p sem with
    | None => Return k kSceErrorNotFound
    | Some _ => Return (set_process (close_handle p sem) k) kSceOk
    end).

(** [dynamic_pointer_cast<KernelSema>(handleTable().get(h))]. *)
Definition find_sema (k : Kernel) (p : PS4Process.t) (h : Z) : option (Z * KernelSema.t) :=
  match get_handle p h with
  | Some (KernelSemaObject id) => s ← k_semas k !! id; Some (id, s)
  | _ => None
  end.

(** [timeoutUs ? static_cast<int>( *timeoutUs ) : -1]. *)
Definition timeout_arg (p : PS4Process.t) (timeoutUs : Z) : option Z :=
  if timeoutUs =? 0 then Some (-1) else i32 <$> read_u32 p timeoutUs.

Definition wait_sema (k : Kernel) (p : PS4Process.t) (h needCount timeout onTimeout : Z) : Outcome :=
  match find_sema k p h with
  | None => Return k kSceErrorNotFound
  | Some (id, s) =>
      match KernelSema.wait s needCount timeout with
      | KernelSema.Acquired s' => Return (set_sema id s' k) kSceOk
      | KernelSema.TimedOut => Return k onTimeout
      | KernelSema.Blocks => Blocked
      end
  end.

Definition sceKernelWaitSema (sem needCount timeoutUs : Z) (k : Kernel) : Outcome :=
  requireProcess k (fun p =>
    match find_sema k p sem with
    | None => Return k kSceErrorNotFound
    | Some _ =>
        or_crash (timeout_arg p timeoutUs) (fun timeout =>
          wait_sema k p sem needCount timeout kSceErrorTimeout)
    end).

Definition sceKernelPollSema (sem needCount : Z) (k : Kernel) : Outcome :=
  requireProcess k (fun p => wait_sema k p sem needCount 0 kSceErrorBusy).

Definition sceKernelSignalSema (sem signalCount : Z) (k : Kernel) : Outcome :=
  requireProcess k (fun p =>
    match find_sema k p sem with
    | None => Return k kSceErrorNotFound
    | Some (id, s) =>
        or_crash (KernelSema.signal s signalCount) (fun '(s', ok) =>
          if ok then Return (set_sema id s' k) kSceOk else Return k kSceErrorBusy)
    end).

(** ** Event queues *)

Definition write_u64 (p : PS4Process.t) (ptr v : Z) : option PS4Process.t :=
  m ← writeU64 (PS4Process.m_mem p) ptr v; Some (PS4Process.set_mem m p).

Definition sceKernelCreateEqueue (eq name : Z) (k : Kernel) : Outcome :=
  if eq =? 0 then Return k kSceErrorInvalidArg
  else
    requireProcess k (fun p =>
      let '(p1, h) := register_object p (EventObject (k_fresh k)) in
      or_crash (write_u64 p1 eq (u64 h)) (fun p2 =>
        Return (mkKernel (Some p2) (k_semas k) (<[k_fresh k := EventHandle.initial]> (k_events k))
                  (k_fresh k + 1)) kSceOk)).

(** The queue is the handle widened to a pointer. *)
Definition handle_of_ptr (eq : Z) : Z := i32 eq.

Definition sceKernelDeleteEqueue (eq : Z) (k : Kernel) : Outcome :=
  requireProcess k (fun p =>
    match get_handle p (handle_of_ptr eq) with
    | None => Return k kSceErrorNotFound
    | Some _ => Return (set_process (close_handle p (handle_of_ptr eq)) k) kSceOk
    end).

Definition find_event (k : Kernel) (p : PS4Process.t) (h : Z) : option EventHandle.t :=
  match get_handle p h with
  | Some (EventObject id) => k_events k !! id
  | _ => None
  end.

Definition kSizeofSceKernelEvent : nat := 32.

(** [EventHandle::wait] when no other thread runs. *)
Definition event_wait (e : EventHandle.t) (ident timeoutNs : Z) : option bool :=
  if EventHandle.wait_pred e ident then Some true
  else if timeoutNs <? 0 then None else Some false.

Definition sceKernelWaitEqueue (eq ev num out_ timeoutUs : Z) (k : Kernel) : Outcome :=
  if (eq =? 0) || (ev =? 0) || (num <=? 0) then Return k kSceErrorInvalidArg
  else
    requireProcess k (fun p =>
      match find_event k p (handle_of_ptr eq) with
      | None => Return k kSceErrorNotFound
      | Some e =>
          or_crash (if timeoutUs =? 0 then Some (-1)
                    else (fun t => t * 1000) <$> read_u32 p timeoutUs) (fun timeoutNs =>
            match event_wait e 0 timeoutNs with
            | None => Blocked
            | Some false => Return k kSceErrorTimeout
            | Some true =>
                or_crash (write_bytes (PS4Process.m_mem p) ev (repeat 0 kSizeofSceKernelEvent)) (fun m =>
                  if out_ =? 0 then Return (set_process (PS4Process.set_mem m p) k) kSceOk
                  else
                    or_crash (write_bytes m out_ (le_encode 4 1)) (fun m' =>
                      Return (set_process (PS4Process.set_mem m' p) k) kSceOk))
            end)
      end).

(** ** Threads *)

(** [rc] answers [pthread_create]; the answer of [start] is dropped. *)
Definition scePthreadCreate (threadHandle entry name rc : Z) (k : Kernel) : Outcome :=
  if (threadHandle =? 0) || (entry =? 0) then Return k kSceErrorInvalidArg
  else
    requireProcess k (fun p =>
    or_crash (c_string p name (cstr "scePthread")) (fun nm =>
      let '(tm1, tid) := ThreadManager.create (PS4Process.m_threads p) nm in
      let p1 := PS4Process.set_threads tm1 (PS4Process.m_mainThread p) p in
      let '(p2, h) := register_object p1 (ThreadHandleObj tid) in
      let '(tm2, _) := ThreadManager.start (PS4Process.m_threads p2) tid rc in
      let p3 := PS4Process.set_threads tm2 (PS4Process.m_mainThread p2) p2 in
      or_crash (write_u64 p3 threadHandle (u64 h)) (fun p4 =>
        Return (set_process p4 k) kSceOk))).

(** Looks the handle up and returns. *)
Definition scePthreadJoin (threadHandle : Z) (k : Kernel) : Outcome :=
  requireProcess k (fun p =>
    match get_handle p (i32 threadHandle) with
    | None => Return k kSceErrorNotFound
    | Some _ => Return k kSceOk
    end).

(** ** What the semaphore calls promise

    The specification knows a map from handles to counting semaphores and
    nothing of handle tables, object identities or guest pointers. *)
Module SemaSpec.

Inductive outcome :=
  | SReturn (m : gmap Z KernelSema.t) (v : Z)
  | SBlocked
  | SCrash.

Definition wait (m : gmap Z KernelSema.t) (h need timeout onTimeout : Z) : outcome :=
  match m !! h with
  | None => SReturn m kSceErrorNotFound
  | Some s =>
      match KernelSema.wait s need timeout with
      | KernelSema.Acquired s' => SReturn (<[h := s']> m) kSceOk
      | KernelSema.TimedOut => SReturn m onTimeout
      | KernelSema.Blocks => SBlocked
      end
  end.

Definition signal (m : gmap Z KernelSema.t) (h count : Z) : outcome :=
  match m !! h with
  | None => SReturn m kSceErrorNotFound
  | Some s =>
      match KernelSema.signal s count with
      | None => SCrash
      | Some (s', true) => SReturn (<[h := s']> m) kSceOk
      | Some (_, false) => SReturn m kSceErrorBusy
      end
  end.

End SemaSpec.

Section Refinement.
Import SemaSpec.

Definition handles_of (k : Kernel) : gmap Z HandleObject :=
  match k_process k with
  | Some p => HandleTable.m_objects (PS4Process.m_handleTable p)
  | None => ∅
  end.

(** The semaphore a handle denotes. *)
Definition denotes (k : Kernel) (o : HandleObject) : option KernelSema.t :=
  match o with KernelSemaObject id => k_semas k !! id | _ => None end.

Definition abs (k : Kernel) : gmap Z KernelSema.t := omap (denotes k) (handles_of k).

Definition view (o : Outcome) : outcome :=
  match o with
  | Return k v => SReturn (abs k) v
  | Blocked => SBlocked
  | Crash => SCrash
  end.

(** Semaphore identities are issued once, and each one has its state. *)
Record wf (k : Kernel) (p : PS4Process.t) : Prop := mkWf {
  wf_process : k_process k = Some p;
  wf_table : HandleTable.wf (PS4Process.m_handleTable p);
  wf_known : forall h id, get_handle p h = Some (KernelSemaObject id) ->
    id < k_fresh k /\ is_Some (k_semas k !! id);
  wf_once : forall h h' id, get_handle p h = Some (KernelSemaObject id) ->
    get_handle p h' = Some (KernelSemaObject id) -> h = h'
}.

(** A call that leaves the process [p] as it is: it does what the
    specification does to the map of semaphores, answers what it answers, and
    keeps the invariant. *)
Definition refines (p : PS4Process.t) (o : Outcome) (spec : outcome) : Prop :=
  view o = spec /\ forall k' v, o = Return k' v -> wf k' p.

Lemma abs_lookup k p h :
  k_process k = Some p -> abs k !! h = snd <$> find_sema k p h.
Proof.
  intros Hp. unfold abs, find_sema, get_handle, HandleTable.get, handles_of. rewrite lookup_omap, Hp.
  destruct (HandleTable.m_objects _ !! h) as [[]|]; simpl; try done.
  by destruct (k_semas k !! id).
Qed.

Lemma find_sema_Some k p h id s :
  find_sema k p h = Some (id, s) -> get_handle p h = Some (KernelSemaObject id) /\ k_semas k !! id = Some s.
Proof.
  unfold find_sema. destruct (get_handle p h) as [[]|]; try done.
  destruct (k_semas k !! id0) eqn:E; simpl; intros; by simplify_eq.
Qed.

(** Storing a semaphore changes what its own handle denotes, and no other. *)
Lemma abs_set_sema k p h id s s' :
  wf k p -> find_sema k p h = Some (id, s) ->
  abs (set_sema id s' k) = <[h := s']> (abs k) /\ wf (set_sema id s' k) p.
Proof.
  intros [Hp Ht Hk Ho] Hf. pose proof (find_sema_Some _ _ _ _ _ Hf) as [Hg Hs]. split.
  - apply map_eq. intros h'. rewrite (abs_lookup _ p) by done.
    destruct (decide (h' = h)) as [->|Hne].
    + rewrite lookup_insert_eq. unfold find_sema. rewrite Hg. simpl. by rewrite lookup_insert_eq.
    + rewrite lookup_insert_ne, (abs_lookup k p) by done. unfold find_sema.
      destruct (get_handle p h') as [[]|] eqn:E; try done. simpl.
      rewrite lookup_insert_ne; [done|]. intros <-. by apply Hne, (Ho _ _ id).
  - split; try done. simpl. intros h' id' Hid. destruct (Hk _ _ Hid) as [? ?]. split; [done|].
    destruct (decide (id = id')) as [->|]; [by rewrite lookup_insert_eq|by rewrite lookup_insert_ne].
Qed.

Lemma wait_sema_refines k p h need timeout onTimeout :
  wf k p -> refines p (wait_sema k p h need timeout onTimeout) (SemaSpec.wait (abs k) h need timeout onTimeout).
Proof.
  intros Hw. unfold refines, wait_sema, SemaSpec.wait. rewrite (abs_lookup k p) by apply Hw.
  destruct (find_sema k p h) as [[id s]|] eqn:Hf; simpl; [|by split; [|intros ?? [= <- _]]].
  destruct (KernelSema.wait s need timeout); simpl; try (split; [done|by intros ?? [= <- _]]).
  destruct (abs_set_sema k p h id s s0 Hw Hf) as [-> ?]. by split; [|intros ?? [= <- _]].
Qed.

Lemma signal_refines k p h count :
  wf k p -> refines p (sceKernelSignalSema h count k) (SemaSpec.signal (abs k) h count).
Proof.
  intros Hw. unfold refines, sceKernelSignalSema, requireProcess, SemaSpec.signal.
  rewrite (wf_process _ _ Hw), (abs_lookup k p) by apply Hw.
  destruct (find_sema k p h) as [[id s]|] eqn:Hf; simpl; [|by split; [|intros ?? [= <- _]]].
  destruct (KernelSema.signal s count) as [[s' []]|]; simpl; try (split; [done|by intros ?? [= <- _]]).
  destruct (abs_set_sema k p h id s s' Hw Hf) as [-> ?]. by split; [|intros ?? [= <- _]].
Qed.

Lemma create_refines k p name init mx k' h :
  wf k p -> sceKernelCreateSema name init mx k = Return k' h ->
  exists nm p', c_string p name [] = Some nm /\ abs k !! h = None /\
    abs k' = <[h := KernelSema.make nm init mx]> (abs k) /\
    (HandleTable.m_next (PS4Process.m_handleTable p) < 2 ^ 31 - 1 -> wf k' p').
Proof.
  intros [Hp [Ht0 Ht] Hk Ho]. unfold sceKernelCreateSema, requireProcess. rewrite Hp.
  destruct (c_string p name []) as [nm|]; simpl; [|done].
  intros [= <- <-]. set (h := HandleTable.m_next (PS4Process.m_handleTable p)).
  assert (HandleTable.m_objects (PS4Process.m_handleTable p) !! h = None) as Hfresh.
  { destruct (_ !! h) eqn:E; [|done]. apply Ht in E. unfold h in E. lia. }
  exists nm. eexists. split; [done|]. split; [|split].
  - rewrite (abs_lookup k p) by done. unfold find_sema, get_handle, HandleTable.get. by rewrite Hfresh.
  - apply map_eq. intros h'. unfold abs at 1, handles_of. simpl. rewrite lookup_omap.
    unfold HandleTable.emplace. fold h. rewrite Hfresh.
    destruct (decide (h' = h)) as [->|Hne].
    + rewrite !lookup_insert_eq. simpl. by rewrite lookup_insert_eq.
    + rewrite !lookup_insert_ne, (abs_lookup k p) by done.
      unfold find_sema, get_handle, HandleTable.get.
      destruct (_ !! h') as [[]|] eqn:E; try done. simpl. destruct (Hk h' id E) as [? _].
      rewrite lookup_insert_ne by lia. by destruct (k_semas k !! id).
  - intros Hb. split; simpl; try done.
    + by apply (register_wf _ (Some (KernelSemaObject (k_fresh k)))).
    + intros h' id. unfold get_handle, HandleTable.get. simpl. unfold HandleTable.emplace. fold h.
      rewrite Hfresh. intros [[<- [= <-]]|[Hne E]]%lookup_insert_Some.
      * rewrite lookup_insert_eq. split; [lia|done].
      * destruct (Hk h' id E) as [? ?]. rewrite lookup_insert_ne by lia. split; [lia|done].
    + intros h1 h2 id. unfold get_handle, HandleTable.get. simpl. unfold HandleTable.emplace. fold h.
      rewrite Hfresh. intros [[<- [= <-]]|[Hne E]]%lookup_insert_Some
        [[<- ?]|[Hne' E']]%lookup_insert_Some; simplify_eq; try done.
      * destruct (Hk _ _ E'). lia.
      * destruct (Hk _ _ E). lia.
      * by apply (Ho _ _ id).
Qed.

Lemma delete_refines k p h :
  wf k p -> is_Some (abs k !! h) ->
  exists k' p', sceKernelDeleteSema h k = Return k' kSceOk /\ abs k' = delete h (abs k) /\ wf k' p'.
Proof.
  intros [Hp Ht Hk Ho] [s Hs]. rewrite (abs_lookup k p) in Hs by done.
  destruct (find_sema k p h) as [[id s']|] eqn:Hf; simplify_eq/=.
  apply find_sema_Some in Hf as [Hg _]. unfold sceKernelDeleteSema, requireProcess. rewrite Hp, Hg.
  do 2 eexists. split; [done|].
  assert (HandleTable.m_objects (PS4Process.m_handleTable (close_handle p h))
          = delete h (HandleTable.m_objects (PS4Process.m_handleTable p))) as Hobj.
  { unfold close_handle, HandleTable.close. simpl. unfold get_handle, HandleTable.get in Hg. by rewrite Hg. }
  assert (forall h', get_handle (close_handle p h) h' = if decide (h' = h) then None else get_handle p h') as Hget.
  { intros h'. unfold get_handle, HandleTable.get. rewrite Hobj. case_decide as Hd; subst;
      [by rewrite lookup_delete_eq|by rewrite lookup_delete_ne]. }
  split.
  - apply map_eq. intros h'. rewrite (abs_lookup _ (close_handle p h)) by done.
    unfold find_sema. rewrite Hget. case_decide as Hd; subst; [by rewrite lookup_delete_eq|].
    by rewrite lookup_delete_ne, (abs_lookup k p) by done.
  - split; [done|by apply close_wf| |]; simpl; intros *; rewrite !Hget;
      repeat case_decide; try done; eauto.
Qed.

End Refinement.

(** ** Properties *)
Section Properties.
Import SemaSpec.

(** C17: the semaphore calls implement the map of semaphores: a create answers a
    handle that denoted none and adds the semaphore, with the name, count and
    maximum asked; poll, wait and signal act on the semaphore of their handle
    and on no other, and answer what its state says; a delete removes it.
    Each of them keeps the invariant that the live handles were issued, each
    denotes a semaphore of its own, and every semaphore has its state - a
    create as long as the 32-bit handle counter does not overflow. *)
Theorem sema_calls_refine k p :
  wf k p ->
  (forall name init mx k' h, sceKernelCreateSema name init mx k = Return k' h ->
     exists nm p', c_string p name [] = Some nm /\ abs k !! h = None /\
       abs k' = <[h := KernelSema.make nm init mx]> (abs k) /\
       (HandleTable.m_next (PS4Process.m_handleTable p) < 2 ^ 31 - 1 -> wf k' p')) /\
  (forall h need, refines p (sceKernelPollSema h need k) (SemaSpec.wait (abs k) h need 0 kSceErrorBusy)) /\
  (forall h need ptr timeout, timeout_arg p ptr = Some timeout ->
     refines p (sceKernelWaitSema h need ptr k) (SemaSpec.wait (abs k) h need timeout kSceErrorTimeout)) /\
  (forall h count, refines p (sceKernelSignalSema h count k) (SemaSpec.signal (abs k) h count)) /\
  (forall h, is_Some (abs k !! h) ->
     exists k' p', sceKernelDeleteSema h k = Return k' kSceOk /\ abs k' = delete h (abs k) /\ wf k' p').
Proof.
  intros Hw. split; [|split; [|split; [|split]]].
  - intros *. by apply create_refines.
  - intros h need. unfold sceKernelPollSema, requireProcess. rewrite (wf_process _ _ Hw).
    by apply wait_sema_refines.
  - intros h need ptr timeout Ht. unfold sceKernelWaitSema, requireProcess. rewrite (wf_process _ _ Hw), Ht.
    pose proof (wait_sema_refines k p h need timeout kSceErrorTimeout Hw) as H. revert H. unfold wait_sema.
    by destruct (find_sema k p h) as [[]|].
  - intros. by apply (signal_refines k p).
  - intros h Hs. exact (delete_refines k p h Hw Hs).
Qed.

Definition demo_process : PS4Process.t :=
  PS4Process.set_mem (store_bytes ∅ 64 (le_encode 4 (2 ^ 31 + 5) ++ le_encode 8 7))
    (PS4Process.make 1 [] (FsPolicy.mkPolicy [] [])).
Definition demo_kernel : Kernel := mkKernel (Some demo_process) ∅ ∅ 0.

Lemma demo_wf : wf demo_kernel demo_process.
Proof.
  assert (forall h, get_handle demo_process h = None) as Hn by (intros; apply lookup_empty).
  split; [done|apply initial_wf|intros h id H; by rewrite Hn in H|intros h h' id H; by rewrite Hn in H].
Qed.

(** [demo_kernel] after one semaphore of count 0 and maximum 3 is made. *)
Definition demo_made : Kernel :=
  match sceKernelCreateSema 0 0 3 demo_kernel with Return k _ => k | _ => demo_kernel end.

Lemma demo_made_eq : sceKernelCreateSema 0 0 3 demo_kernel = Return demo_made 3.
Proof. reflexivity. Qed.

Lemma sema_calls_refine_witness :
  abs demo_made = <[3 := KernelSema.make [] 0 3]> (abs demo_kernel) /\
  view (sceKernelSignalSema 3 2 demo_kernel) = SReturn (abs demo_kernel) kSceErrorNotFound.
Proof.
  pose proof (sema_calls_refine demo_kernel demo_process demo_wf) as (Hc & _ & _ & Hs & _).
  destruct (Hc 0 0 3 demo_made 3 demo_made_eq) as (nm & p' & Hnm & _ & Ha & _). split.
  - injection Hnm as <-. exact Ha.
  - exact (proj1 (Hs 3 2)).
Defined.

(** The timeout of a wait is read as a signed number, so a wait with a
    timeout of 2^31 microseconds (about 36 minutes) or more does not time out:
    when the count does not cover the need it blocks, as with no timeout at
    all. *)
Theorem long_timeout_blocks k p h need ptr t s :
  wf k p -> ptr <> 0 -> read_u32 p ptr = Some t -> 2 ^ 31 <= t < 2 ^ 32 ->
  abs k !! h = Some s -> KernelSema.m_count s < KernelSema.at_least_one need ->
  sceKernelWaitSema h need ptr k = Blocked.
Proof.
  intros Hw Hptr Hr Ht Hs Hn. pose proof (wf_process _ _ Hw) as Hp.
  rewrite (abs_lookup k p) in Hs by done.
  unfold sceKernelWaitSema, requireProcess, wait_sema. rewrite Hp.
  destruct (find_sema k p h) as [[id s']|]; simplify_eq/=.
  unfold timeout_arg. destruct (ptr =? 0) eqn:E; [lia|]. rewrite Hr. simpl.
  unfold KernelSema.wait, KernelSema.pred. destruct (_ <=? KernelSema.m_count s) eqn:E1; [lia|].
  destruct (i32 t <? 0) eqn:E2; [done|]. unfold swrap in E2. simpl in E2. dm_lia.
Qed.

Lemma demo_made_wf : wf demo_made (default demo_process (k_process demo_made)).
Proof.
  destruct (create_refines demo_kernel demo_process 0 0 3 demo_made 3 demo_wf demo_made_eq)
    as (nm & p' & _ & _ & _ & Hw). specialize (Hw eq_refl).
  pose proof (wf_process _ _ Hw) as Hp. by rewrite Hp.
Qed.

Lemma long_timeout_blocks_witness : sceKernelWaitSema 3 1 64 demo_made = Blocked.
Proof.
  apply (long_timeout_blocks demo_made _ 3 1 64 (2 ^ 31 + 5) (KernelSema.make [] 0 3) demo_made_wf).
  - discriminate.
  - vm_compute. reflexivity.
  - lia.
  - vm_compute. reflexivity.
  - vm_compute. reflexivity.
Defined.

(** The calls that take a handle of another kind do not check it:
    [sceKernelDeleteSema] and [sceKernelDeleteEqueue] close any live handle, a
    file or a socket included, and [scePthreadJoin] answers success for any live
    handle at once and waits for nothing. *)
Theorem handle_kind_unchecked k p h o :
  k_process k = Some p -> in_width 31 h -> get_handle p h = Some o ->
  sceKernelDeleteSema h k = Return (set_process (close_handle p h) k) kSceOk /\
  sceKernelDeleteEqueue h k = Return (set_process (close_handle p h) k) kSceOk /\
  scePthreadJoin h k = Return k kSceOk /\
  get_handle (close_handle p h) h = None.
Proof.
  intros Hp Hh Hg. assert (i32 h = h) as Hi by (apply swrap_id; unfold in_width in Hh; lia).
  unfold sceKernelDeleteSema, sceKernelDeleteEqueue, scePthreadJoin, handle_of_ptr, requireProcess.
  rewrite Hp, Hi, Hg. split_and!; try done.
  unfold get_handle, close_handle, HandleTable.get, HandleTable.close in *. rewrite Hg. simpl.
  apply lookup_delete_eq.
Qed.

(** A process with one open file. *)
Definition demo_file : HandleObject := FileHandle 5 [] [] 0.
Definition demo_with_file : PS4Process.t := fst (register_object demo_process demo_file).

Lemma handle_kind_unchecked_witness :
  scePthreadJoin 3 (set_process demo_with_file demo_kernel)
    = Return (set_process demo_with_file demo_kernel) kSceOk /\
  get_handle (close_handle demo_with_file 3) 3 = None.
Proof.
  destruct (handle_kind_unchecked (set_process demo_with_file demo_kernel) demo_with_file 3 demo_file)
    as (_ & _ & Hj & Hn); [reflexivity|unfold in_width; lia|reflexivity|].
  split; [exact Hj|exact Hn].
Defined.

(** An event queue reports one event source only: a queue on which one
    source signalled is reported ready exactly when the source's number is a
    multiple of 64, and it stays ready, since a wait does not clear it. *)
Theorem equeue_sees_bit_zero k p eq ev timeoutUs t ident :
  k_process k = Some p -> eq <> 0 -> ev <> 0 -> 0 <= ident ->
  find_event k p (handle_of_ptr eq) = Some (EventHandle.signal EventHandle.initial ident) ->
  timeoutUs <> 0 -> read_u32 p timeoutUs = Some t -> 0 <= t ->
  mapped_range (PS4Process.m_mem p) ev kSizeofSceKernelEvent = true ->
  exists k', sceKernelWaitEqueue eq ev 1 0 timeoutUs k
               = Return k' (if ident mod 64 =? 0 then kSceOk else kSceErrorTimeout) /\
             k_events k' = k_events k.
Proof.
  intros Hp Heq Hev Hid Hf Htu Hr Ht Hm. unfold sceKernelWaitEqueue, requireProcess.
  destruct (eq =? 0) eqn:E1; [lia|]. destruct (ev =? 0) eqn:E2; [lia|].
  rewrite Hp. cbn [orb Z.leb Z.compare]. rewrite Hf. destruct (timeoutUs =? 0) eqn:E3; [lia|].
  rewrite Hr. cbn [or_crash fmap option_fmap option_map].
  unfold event_wait, EventHandle.wait_pred.
  cbn [EventHandle.signal EventHandle.initial EventHandle.m_hasAny EventHandle.m_signaled andb].
  rewrite Z.lor_0_l, land_bit_zero, bit_testbit by (apply Z.mod_pos_bound; lia).
  change (0 mod 64) with 0. rewrite (Z.eqb_sym 0), negb_involutive.
  assert (is_Some (write_bytes (PS4Process.m_mem p) ev (repeat 0 kSizeofSceKernelEvent))) as [m Hw].
  { unfold write_bytes. change (length _) with kSizeofSceKernelEvent. by rewrite Hm. }
  destruct (ident mod 64 =? 0) eqn:E4; cbn [negb andb].
  - rewrite Hw. by eexists.
  - destruct (t * 1000 <? 0) eqn:E5; [lia|]. by eexists.
Qed.

(** A kernel whose handle 3 is a queue on which [ident] signalled. *)
Definition demo_queue (ident : Z) : Kernel :=
  mkKernel (Some (PS4Process.set_mem (store_bytes ∅ 64 (le_encode 4 5 ++ repeat 0 32))
                    (fst (register_object demo_process (EventObject 0)))))
    ∅ {[0 := EventHandle.signal EventHandle.initial ident]} 1.

Lemma equeue_sees_bit_zero_witness :
  exists k', sceKernelWaitEqueue 3 68 1 0 64 (demo_queue 7) = Return k' kSceErrorTimeout.
Proof.
  destruct (equeue_sees_bit_zero (demo_queue 7) (default demo_process (k_process (demo_queue 7)))
    3 68 64 5 7) as (k' & H & _); try reflexivity; try discriminate; try lia.
  exists k'. exact H.
Defined.

End Properties.
