(* ===== verification/Ult.v ===== *)
(** * User-level threading: pools, waiting queues, spinlocks

    [sce/ult/SceUlt.cpp].  A pool object and its blocks live in memory that the
    guest shares with the runtime; the runtime keeps a registry of the pool
    objects only.  [sceUltPoolAlloc] and [sceUltPoolFree] are loops around a
    compare-and-swap on the head of a free list: [Pc] and [thread_step] run them
    one memory access at a time, so any number of threads can be interleaved. *)
From S2P Require Import Prelude Memory Vfs AddressSpace Handles Process.

Module SceUlt.

Definition kUltOk : Z := 0.
Definition kUltErrorInvalidArg : Z := i32 0x80020005.
Definition kUltErrorBusy : Z := i32 0x8002000B.
Definition kUltPoolObjSize : nat := 64.
Definition kUltWaitingQueueSize : nat := 16.

Record PoolRegistry := mkPool {
  poolAddr : Z;
  backingAddr : Z;
  blockSize : Z;
  blockCount : Z;
  used : Z
}.

(** [g_pools] and the process of the runtime context. *)
Record t := mkUlt { g_pools : list PoolRegistry; u_process : PS4Process.t }.

Definition mem (u : t) : Memory := PS4Process.m_mem (u_process u).
Definition set_mem (m : Memory) (u : t) : t := mkUlt (g_pools u) (PS4Process.set_mem m (u_process u)).

Definition findPool (u : t) (addr : Z) : option PoolRegistry :=
  snd <$> list_find (fun p => poolAddr p = addr) (g_pools u).

Definition validateGuestWrite (u : t) (addr : Z) (size : nat) : bool :=
  match AddressSpace.find (PS4Process.m_addressSpace (u_process u)) addr with
  | None => false
  | Some reg =>
      AddressSpace.hasProt (AddressSpace.prot reg) AddressSpace.Prot_Write &&
      negb (u64 (AddressSpace.base reg + AddressSpace.size reg) <? u64 (addr + Z.of_nat size))
  end.

(** ** Pools *)

(** [None] is a fault. *)
Definition sceUltPoolCreate (poolObj blockSize blockCount backing : Z) (u : t) : option (t * Z) :=
  if (poolObj =? 0) || (backing =? 0) || (blockSize =? 0) || (blockCount =? 0)
  then Some (u, kUltErrorInvalidArg)
  else if negb (validateGuestWrite u poolObj kUltPoolObjSize) then Some (u, kUltErrorInvalidArg)
  else
    match findPool u poolObj with
    | Some _ => Some (u, kUltErrorBusy)
    | None =>
        let r := mkPool poolObj backing blockSize blockCount 0 in
        let u := mkUlt (g_pools u ++ [r]) (u_process u) in
        m ← write_bytes (mem u) poolObj (repeat 0 kUltPoolObjSize);
        m ← writeU64 m poolObj backing;
        m ← writeU64 m (poolObj + 8) blockSize;
        m ← writeU64 m (poolObj + 16) blockCount;
        m ← writeU64 m (poolObj + 24) 0;
        Some (set_mem m u, kUltOk)
    end.

Fixpoint erase_pool (addr : Z) (ps : list PoolRegistry) : option (list PoolRegistry) :=
  match ps with
  | [] => None
  | p :: rest => if poolAddr p =? addr then Some rest else cons p <$> erase_pool addr rest
  end.

Definition sceUltPoolDestroy (poolObj : Z) (u : t) : t * Z :=
  if poolObj =? 0 then (u, kUltErrorInvalidArg)
  else
    match erase_pool poolObj (g_pools u) with
    | Some ps => (mkUlt ps (u_process u), kUltOk)
    | None => (u, kUltErrorInvalidArg)
    end.

(** Where a thread is in the loop of an alloc or of a free. *)
Inductive Pc :=
  | AStart
  | ALoaded (current : Z)
  | AHaveNext (current next : Z)
  | AClear (block : Z)
  | ADone (result : Z)
  | FStart (block : Z)
  | FLoaded (block current : Z)
  | FStored (block current : Z)
  | FDone.

(** [__atomic_compare_exchange_n(&head[0], &current, desired)]: the memory, and
    [inl] success or [inr] the value found. *)
Definition cas (m : Memory) (head current desired : Z) : option (Memory * option Z) :=
  found ← readU64 m head;
  if found =? current then m' ← writeU64 m head desired; Some (m', None)
  else Some (m, Some found).

(** One memory access of a thread on the pool object at [head]; [None] is a
    fault.  A thread that is done stays so. *)
Definition thread_step (head : Z) (m : Memory) (pc : Pc) : option (Memory * Pc) :=
  match pc with
  | AStart => current ← readU64 m head; Some (m, ALoaded current)
  | ALoaded current =>
      if current =? 0 then Some (m, ADone 0)
      else next ← readU64 m current; Some (m, AHaveNext current next)
  | AHaveNext current next =>
      '(m', r) ← cas m head current next;
      Some (m', match r with None => AClear current | Some found => ALoaded found end)
  | AClear block => m' ← writeU64 m block 0; Some (m', ADone block)
  | ADone r => Some (m, ADone r)
  | FStart block => current ← readU64 m head; Some (m, FLoaded block current)
  | FLoaded block current => m' ← writeU64 m block current; Some (m', FStored block current)
  | FStored block current =>
      '(m', r) ← cas m head current block;
      Some (m', match r with None => FDone | Some found => FLoaded block found end)
  | FDone => Some (m, FDone)
  end.

Definition is_done (pc : Pc) : bool := match pc with ADone _ | FDone => true | _ => false end.

(** A thread running alone.  An alloc passes through five points and a free
    through four, so the fuel of [solo] is enough; [None] is a fault. *)
Fixpoint run_alone (fuel : nat) (head : Z) (m : Memory) (pc : Pc) : option (Memory * Pc) :=
  match fuel with
  | O => Some (m, pc)
  | S fuel' => '(m', pc') ← thread_step head m pc; run_alone fuel' head m' pc'
  end.
Definition solo (head : Z) (m : Memory) (pc : Pc) : option (Memory * Pc) := run_alone 5 head m pc.

Definition sceUltPoolAlloc (poolObj : Z) (u : t) : option (t * Z) :=
  if poolObj =? 0 then Some (u, 0)
  else
    match findPool u poolObj with
    | None => Some (u, 0)
    | Some _ =>
        '(m, pc) ← solo poolObj (mem u) AStart;
        Some (set_mem m u, match pc with ADone r => r | _ => 0 end)
    end.

Definition sceUltPoolFree (poolObj block : Z) (u : t) : option t :=
  if (poolObj =? 0) || (block =? 0) then Some u
  else
    match findPool u poolObj with
    | None => Some u
    | Some _ => '(m, _) ← solo poolObj (mem u) (FStart block); Some (set_mem m u)
    end.

(** ** Waiting queues and spinlocks *)

Definition sceUltWaitingQueueInit (queue : Z) (u : t) : option (t * Z) :=
  if queue =? 0 then Some (u, kUltErrorInvalidArg)
  else if negb (validateGuestWrite u queue kUltWaitingQueueSize) then Some (u, kUltErrorInvalidArg)
  else m ← write_bytes (mem u) queue (repeat 0 kUltWaitingQueueSize); Some (set_mem m u, kUltOk).

Definition sceUltWaitingQueueDestroy (queue : Z) (u : t) : option (t * Z) :=
  if queue =? 0 then Some (u, kUltErrorInvalidArg)
  else m ← write_bytes (mem u) queue (le_encode 4 1); Some (set_mem m u, kUltOk).

Definition sceUltSpinlockInit (lock : Z) (u : t) : option (t * Z) :=
  if lock =? 0 then Some (u, kUltErrorInvalidArg)
  else if negb (validateGuestWrite u lock 4) then Some (u, kUltErrorInvalidArg)
  else m ← write_bytes (mem u) lock (le_encode 4 0); Some (set_mem m u, kUltOk).

(** ** Threads interleaved on one pool *)
Record conf := mkConf { c_mem : Memory; c_pcs : list Pc }.

(** Thread [i] makes one access. *)
Definition sched_step (head : Z) (c : conf) (i : nat) : option conf :=
  pc ← c_pcs c !! i;
  '(m, pc') ← thread_step head (c_mem c) pc;
  Some (mkConf m (<[i := pc']> (c_pcs c))).

Fixpoint schedule (head : Z) (c : conf) (turns : list nat) : option conf :=
  match turns with
  | [] => Some c
  | i :: rest => c' ← sched_step head c i; schedule head c' rest
  end.

End SceUlt.

(** ** The free list as a stack *)
Section FreeList.
Import SceUlt.

(** [l] is linked from [p]. *)
Fixpoint chain (m : Memory) (p : Z) (l : list Z) : Prop :=
  match l with
  | [] => p = 0
  | b :: rest => p = b /\ exists next, readU64 m b = Some next /\ chain m next rest
  end.

Definition apart (a b : Z) : Prop := a + 8 <= b \/ b + 8 <= a.

(** The words at [ws] are addresses, none null, and do not overlap. *)
Definition words_apart (ws : list Z) : Prop :=
  Forall (fun w => 0 < w /\ w < 2 ^ 64) ws /\ ForallOrdPairs apart ws.

(** The pool object at [head] holds the free blocks [l], in order. *)
Definition pool (m : Memory) (head : Z) (l : list Z) : Prop :=
  words_apart (head :: l) /\ exists p, readU64 m head = Some p /\ chain m p l.

Lemma writeU64_frame m a v m' b : writeU64 m a v = Some m' -> apart a b -> readU64 m' b = readU64 m b.
Proof.
  intros [_ H]%writeU64_inv Hab. apply readU64_agree. intros k Hk. apply H. unfold apart in Hab. lia.
Qed.

Lemma readU64_writable m a x v : readU64 m a = Some x -> exists m', writeU64 m a v = Some m'.
Proof.
  unfold readU64. destruct (load_bytes m a 8) as [bs|] eqn:E; [|done]. intros _.
  apply load_bytes_lookup in E as [Hl Hb]. apply writeU64_is_Some. intros i Hi.
  destruct (lookup_lt_is_Some_2 bs i) as [b Hb']; [lia|]. rewrite (Hb i b Hb'). done.
Qed.

Lemma writeU64_read m a v m' : 0 <= v < 2 ^ 64 -> writeU64 m a v = Some m' -> readU64 m' a = Some v.
Proof. intros Hv [H _]%writeU64_inv. rewrite H. f_equal. by apply wrap_id. Qed.

Lemma chain_frame m a v m' p l :
  writeU64 m a v = Some m' -> Forall (apart a) l -> chain m p l -> chain m' p l.
Proof.
  intros Hw Hl. revert p. induction Hl as [|b l Hb Hl IH]; intros p; simpl; [done|].
  intros (-> & next & Hn & Hc). split; [done|]. exists next. split; [|by apply IH].
  by rewrite (writeU64_frame _ _ _ _ _ Hw).
Qed.

Lemma words_apart_inv w ws :
  words_apart (w :: ws) -> 0 < w < 2 ^ 64 /\ Forall (apart w) ws /\ words_apart ws.
Proof.
  intros [Hf Ho]. apply Forall_cons in Hf as [Hw Hf]. inversion Ho; subst. split; [done|]. by split.
Qed.

(** A solo alloc pops, a solo free pushes. *)
Lemma alloc_empty m head : pool m head [] -> solo head m AStart = Some (m, ADone 0).
Proof.
  intros [_ (p & Hp & Hc)]. simpl in Hc. subst. unfold solo. simpl. rewrite Hp. done.
Qed.

Lemma alloc_pops m head b l :
  pool m head (b :: l) ->
  exists m', solo head m AStart = Some (m', ADone b) /\ pool m' head l /\
    readU64 m' b = Some 0 /\ (forall a, apart head a -> apart b a -> readU64 m' a = readU64 m a).
Proof.
  intros [Hw (p & Hp & -> & next & Hn & Hc)].
  destruct (words_apart_inv _ _ Hw) as (Hh & Hhl & Hw'). apply Forall_cons in Hhl as [Hhb Hhl].
  destruct (words_apart_inv _ _ Hw') as (Hb & Hbl & Hw'').
  destruct (readU64_writable m head b next Hp) as [m1 Hm1].
  assert (readU64 m1 b = Some next) as Hn1 by (by rewrite (writeU64_frame _ _ _ _ _ Hm1)).
  destruct (readU64_writable m1 b next 0 Hn1) as [m2 Hm2]. exists m2.
  assert (apart b head) as Hbh by (unfold apart in *; lia).
  assert (0 <= next < 2 ^ 64) as Hnr.
  { destruct l as [|c l]; simpl in Hc; [subst; lia|]. destruct Hc as [-> _].
    apply words_apart_inv in Hw'' as [? _]. lia. }
  split_and!.
  - unfold solo. simpl. rewrite Hp. simpl. destruct (b =? 0) eqn:E; [lia|]. rewrite Hn. simpl.
    unfold cas. rewrite Hp. simpl. rewrite Z.eqb_refl, Hm1. simpl. by rewrite Hm2.
  - split.
    + destruct Hw as [Hf Ho]. apply Forall_cons in Hf as [? Hf]. apply Forall_cons in Hf as [_ Hf].
      split; [by constructor|]. constructor; [done|by apply Hw''].
    + exists next. split.
      * rewrite (writeU64_frame _ _ _ _ _ Hm2) by done. by apply (writeU64_read m).
      * eapply chain_frame; [exact Hm2|done|]. by eapply chain_frame.
  - by apply (writeU64_read m1).
  - intros a Ha Hba. by rewrite (writeU64_frame _ _ _ _ _ Hm2), (writeU64_frame _ _ _ _ _ Hm1).
Qed.

Lemma free_pushes m head b l x :
  pool m head l -> words_apart (head :: b :: l) -> readU64 m b = Some x ->
  exists m', solo head m (FStart b) = Some (m', FDone) /\ pool m' head (b :: l) /\
    (forall a, apart head a -> apart b a -> readU64 m' a = readU64 m a).
Proof.
  intros [_ (p & Hp & Hc)] Hw Hx.
  destruct (words_apart_inv _ _ Hw) as (Hh & Hhl & Hw'). apply Forall_cons in Hhl as [Hhb Hhl].
  destruct (words_apart_inv _ _ Hw') as (Hb & Hbl & Hw'').
  assert (apart b head) as Hbh by (unfold apart in *; lia).
  destruct (readU64_writable m b x p Hx) as [m1 Hm1].
  assert (readU64 m1 head = Some p) as Hp1 by (by rewrite (writeU64_frame _ _ _ _ _ Hm1)).
  destruct (readU64_writable m1 head p b Hp1) as [m2 Hm2]. exists m2.
  assert (0 <= p < 2 ^ 64) as Hpr.
  { destruct l as [|c l]; simpl in Hc; [subst; lia|]. destruct Hc as [-> _].
    apply words_apart_inv in Hw'' as [? _]. lia. }
  split_and!.
  - unfold solo. simpl. rewrite Hp. simpl. rewrite Hm1. simpl. unfold cas. rewrite Hp1. simpl.
    by rewrite Z.eqb_refl, Hm2.
  - split; [done|]. exists b. split; [apply (writeU64_read m1); [lia|done]|]. split; [done|].
    exists p. split.
    + rewrite (writeU64_frame _ _ _ _ _ Hm2) by done. by apply (writeU64_read m).
    + eapply chain_frame; [exact Hm2|done|]. by eapply chain_frame.
  - intros a Ha Hba. by rewrite (writeU64_frame _ _ _ _ _ Hm2), (writeU64_frame _ _ _ _ _ Hm1).
Qed.

End FreeList.

(** ** Allocations interleaved *)
Section ConcurrentAllocs.
Import SceUlt.

(** The block a thread has taken off the list. *)
Definition taken_block (pc : Pc) : option Z :=
  match pc with
  | AClear b => Some b
  | ADone b => if b =? 0 then None else Some b
  | _ => None
  end.
Definition results (c : conf) : list Z := omap taken_block (c_pcs c).

(** [pre] has been popped and [rest] is on the list. *)
Definition pc_ok (m : Memory) (pre rest : list Z) (pc : Pc) : Prop :=
  match pc with
  | AStart => True
  | ALoaded cur => (cur = 0 /\ rest = []) \/ (cur <> 0 /\ (cur ∈ pre \/ head rest = Some cur))
  | AHaveNext cur next => cur ∈ pre \/ exists r, rest = cur :: r /\ chain m next r
  | AClear b => b ∈ pre
  | ADone b => b = 0 -> rest = []
  | FStart _ | FLoaded _ _ | FStored _ _ | FDone => False
  end.

Record ainv (hd : Z) (l : list Z) (c : conf) (pre rest : list Z) : Prop := mkAinv {
  a_split : l = pre ++ rest;
  a_results : results c ≡ₚ pre;
  a_head : exists p, readU64 (c_mem c) hd = Some p /\ chain (c_mem c) p rest;
  a_mapped : Forall (fun b => is_Some (readU64 (c_mem c) b)) l;
  a_pcs : Forall (pc_ok (c_mem c) pre rest) (c_pcs c)
}.

Lemma omap_insert_same {A B} (f : A -> option B) (l : list A) i x y :
  l !! i = Some x -> f x = f y -> omap f (<[i:=y]> l) = omap f l.
Proof.
  revert i. induction l as [|z l IH]; intros [|i] Hi Hf; simplify_eq/=; [by rewrite Hf|].
  by rewrite (IH i).
Qed.

Lemma omap_insert_new {A B} (f : A -> option B) (l : list A) i x y b :
  l !! i = Some x -> f x = None -> f y = Some b -> omap f (<[i:=y]> l) ≡ₚ b :: omap f l.
Proof.
  revert i. induction l as [|z l IH]; intros [|i] Hi Hx Hy; simplify_eq/=; [by rewrite Hx, Hy|].
  pose proof (IH i Hi Hx Hy) as H. destruct (f z) as [w|]; [|exact H].
  etransitivity; [by apply perm_skip, H|apply perm_swap].
Qed.

Lemma chain_head m p rest :
  chain m p rest -> Forall (fun w => 0 < w /\ w < 2 ^ 64) rest ->
  (p = 0 /\ rest = []) \/ (p <> 0 /\ head rest = Some p).
Proof.
  destruct rest as [|b r]; simpl; [by left|]. intros [-> _] [Hb _]%Forall_cons. right. split; [lia|done].
Qed.

Lemma apart_mem ws a b : words_apart ws -> a ∈ ws -> b ∈ ws -> a <> b -> apart a b.
Proof.
  intros [_ Ho]. induction Ho as [|w ws Hw Ho IH]; [by intros ?%elem_of_nil|].
  rewrite Forall_forall in Hw. intros [->|Ha]%elem_of_cons [->|Hb]%elem_of_cons Hne; try done; auto.
  specialize (Hw _ Ha). unfold apart in *. lia.
Qed.

Lemma words_apart_NoDup ws : words_apart ws -> NoDup ws.
Proof.
  intros [_ Ho]. induction Ho as [|w ws Hw Ho IH]; constructor; [|done].
  intros Hin. rewrite Forall_forall in Hw. apply Hw in Hin. unfold apart in Hin. lia.
Qed.

(** What other threads know survives a pop and a clear. *)
Lemma pc_ok_pop m m' hd pre b r pc v :
  pc_ok m pre (b :: r) pc -> b <> 0 -> writeU64 m hd v = Some m' -> Forall (apart hd) r ->
  pc_ok m' (pre ++ [b]) r pc.
Proof.
  intros H Hb Hw Hr. destruct pc as [|cur|cur next|bl|res| | | |]; simpl in *; try done.
  - destruct H as [[-> ?]|[? [?|?]]]; simplify_eq; right; split; try done; left; apply elem_of_app;
      [by left|right; by apply list_elem_of_singleton].
  - left. apply elem_of_app. destruct H as [?|(r' & ? & ?)]; simplify_eq; [by left|right; by apply list_elem_of_singleton].
  - apply elem_of_app. by left.
  - intros E. by apply H in E.
Qed.

Lemma pc_ok_frame m m' a v pre rest pc :
  pc_ok m pre rest pc -> writeU64 m a v = Some m' -> Forall (apart a) rest -> pc_ok m' pre rest pc.
Proof.
  intros H Hw Hr. destruct pc; simpl in *; try done.
  destruct H as [?|(r & -> & Hc)]; [by left|right]. apply Forall_cons in Hr as [_ Hr].
  exists r. split; [done|]. by eapply chain_frame.
Qed.

Lemma mapped_write m a v m' l :
  writeU64 m a v = Some m' -> Forall (fun b => is_Some (readU64 m b)) l ->
  Forall (fun b => is_Some (readU64 m' b)) l.
Proof.
  intros Hw Hl. eapply Forall_impl; [exact Hl|]. intros b [x Hb]. unfold readU64 in *.
  destruct (load_bytes m b 8) as [bs|] eqn:E; [|done]. apply load_bytes_lookup in E as [Hlen Hbs].
  destruct (load_bytes_total m' b 8) as [bs' ->]; [|done]. intros i Hi.
  eapply write_bytes_is_Some; [exact Hw|].
  destruct (lookup_lt_is_Some_2 bs i) as [y Hy]; [lia|]. rewrite (Hbs i y Hy). done.
Qed.

(** The head is the first block that is left. *)
Lemma ainv_reload hd l c pre rest p :
  words_apart (hd :: l) -> ainv hd l c pre rest -> readU64 (c_mem c) hd = Some p ->
  pc_ok (c_mem c) pre rest (ALoaded p) /\ chain (c_mem c) p rest.
Proof.
  intros Hwa [-> _ (p' & Hp' & Hch) _ _] Hp. simplify_eq. split; [|done].
  apply words_apart_inv in Hwa as (_ & _ & [Hpos _]). apply Forall_app in Hpos as [_ Hrest]. simpl.
  destruct (chain_head _ _ _ Hch Hrest) as [[]|[]]; [by left|right]. split; [done|by right].
Qed.

(** A step that only moves its thread. *)
Lemma ainv_quiet hd l c pre rest i pc pc' :
  ainv hd l c pre rest -> c_pcs c !! i = Some pc -> taken_block pc = taken_block pc' ->
  pc_ok (c_mem c) pre rest pc' ->
  ainv hd l (mkConf (c_mem c) (<[i:=pc']> (c_pcs c))) pre rest.
Proof.
  intros [Hl Hres Hh Hmap Hpcs] Hi Ht Hok. split; simpl; eauto.
  - unfold results. simpl. by rewrite (omap_insert_same _ _ _ _ _ Hi).
  - by apply Forall_insert.
Qed.

(** The next word read from a block that is still first is its successor. *)
Lemma ainv_next hd l c pre rest cur :
  ainv hd l c pre rest -> pc_ok (c_mem c) pre rest (ALoaded cur) -> cur <> 0 ->
  exists next, readU64 (c_mem c) cur = Some next /\ pc_ok (c_mem c) pre rest (AHaveNext cur next).
Proof.
  intros [-> _ (p & _ & Hch) Hmap _] Hpc Hcur. simpl in Hpc. destruct Hpc as [[? _]|[_ Hpc]]; [done|].
  assert (cur ∈ pre ++ rest) as Hin.
  { apply elem_of_app. destruct Hpc; [by left|right]. destruct rest; simplify_eq/=. left. }
  destruct (proj1 (Forall_forall _ _) Hmap cur Hin) as [next Hn]. exists next. split; [done|]. simpl.
  destruct Hpc as [?|Hh]; [by left|right].
  destruct rest as [|b r]; simplify_eq/=. destruct Hch as (_ & nx & Hn' & Hc). exists r.
  split; [done|]. congruence.
Qed.

(** A successful compare-and-swap pops the first block. *)
Lemma ainv_pop hd l c pre rest i cur next :
  words_apart (hd :: l) -> ainv hd l c pre rest -> c_pcs c !! i = Some (AHaveNext cur next) ->
  readU64 (c_mem c) hd = Some cur ->
  exists m' r, writeU64 (c_mem c) hd next = Some m' /\
    ainv hd l (mkConf m' (<[i:=AClear cur]> (c_pcs c))) (pre ++ [cur]) r.
Proof.
  intros Hwa [-> Hres (p & Hp & Hch) Hmap Hpcs] Hi Hcur. assert (p = cur) as -> by congruence.
  pose proof (Forall_lookup_1 _ _ _ _ Hpcs Hi) as Hpc. simpl in Hpc.
  destruct (words_apart_inv _ _ Hwa) as (Hhd & Hhl & Hwl).
  apply words_apart_NoDup in Hwl as Hnd. destruct Hwl as [Hpos _].
  apply Forall_app in Hpos as [Hpre Hrest]. apply Forall_app in Hhl as [_ Hhrest].
  assert (exists r, rest = cur :: r /\ chain (c_mem c) next r) as (r & -> & Hc).
  { destruct Hpc as [Hin|?]; [|done]. exfalso. destruct rest as [|b r]; simpl in Hch.
    - subst. rewrite Forall_forall in Hpre. apply Hpre in Hin. lia.
    - destruct Hch as [<- _]. apply NoDup_app in Hnd as (_ & Hd & _). apply (Hd cur Hin). left. }
  destruct (readU64_writable _ hd _ next Hp) as [m' Hm']. exists m', r. split; [done|].
  apply Forall_cons in Hrest as [Hcpos Hr]. apply Forall_cons in Hhrest as [_ Hhr].
  assert (0 <= next < 2 ^ 64) as Hnext.
  { destruct r as [|b r]; simpl in Hc; [lia|]. destruct Hc as [-> _]. apply Forall_cons in Hr. lia. }
  split; simpl.
  - by rewrite <- app_assoc.
  - unfold results. simpl. rewrite (omap_insert_new _ _ _ _ _ cur Hi); [|done..].
    rewrite Hres. apply Permutation_cons_append.
  - exists next. split; [by apply (writeU64_read (c_mem c))|]. by eapply chain_frame.
  - by eapply mapped_write.
  - apply Forall_insert; [|apply elem_of_app; right; by apply list_elem_of_singleton].
    eapply Forall_impl; [exact Hpcs|]. intros x Hx. simpl in Hx. eapply pc_ok_pop; eauto. lia.
Qed.

(** Clearing the link of a popped block disturbs nothing. *)
Lemma ainv_clear hd l c pre rest i b :
  words_apart (hd :: l) -> ainv hd l c pre rest -> c_pcs c !! i = Some (AClear b) ->
  exists m', writeU64 (c_mem c) b 0 = Some m' /\
    ainv hd l (mkConf m' (<[i:=ADone b]> (c_pcs c))) pre rest.
Proof.
  intros Hwa [Hl Hres (p & Hp & Hch) Hmap Hpcs] Hi. subst l.
  pose proof (Forall_lookup_1 _ _ _ _ Hpcs Hi) as Hpc. simpl in Hpc.
  destruct (words_apart_inv _ _ Hwa) as (Hhd & Hhl & Hwl).
  apply words_apart_NoDup in Hwl as Hnd.
  assert (b ∈ pre ++ rest) as Hin by (apply elem_of_app; by left).
  destruct (proj1 (Forall_forall _ _) Hmap b Hin) as [x Hx].
  destruct (readU64_writable _ b x 0 Hx) as [m' Hm']. exists m'. split; [done|].
  assert (Forall (apart b) rest) as Hbr.
  { apply Forall_forall. intros y Hy. apply (apart_mem (pre ++ rest)); [done|done|apply elem_of_app; by right|].
    intros <-. apply NoDup_app in Hnd as (_ & Hd & _). by apply (Hd b). }
  assert (apart b hd) as Hbh.
  { rewrite Forall_forall in Hhl. apply Hhl in Hin. unfold apart in *. lia. }
  assert (b <> 0) as Hb0 by (destruct Hwl as [Hpos _]; rewrite Forall_forall in Hpos; apply Hpos in Hin; lia).
  split; simpl.
  - done.
  - unfold results. simpl. rewrite (omap_insert_same _ _ _ _ _ Hi); [done|]. simpl.
    destruct (b =? 0) eqn:E; [lia|done].
  - exists p. split; [by rewrite (writeU64_frame _ _ _ _ _ Hm')|]. by eapply chain_frame.
  - by eapply mapped_write.
  - apply Forall_insert; [|by intros ?]. eapply Forall_impl; [exact Hpcs|]. intros y Hy. simpl in Hy.
    by eapply pc_ok_frame.
Qed.

Lemma ainv_step hd l c pre rest i pc :
  words_apart (hd :: l) -> ainv hd l c pre rest -> c_pcs c !! i = Some pc ->
  exists c' pre' rest', sched_step hd c i = Some c' /\ ainv hd l c' pre' rest' /\
    length (c_pcs c') = length (c_pcs c).
Proof.
  intros Hwa Ha Hi. pose proof (Forall_lookup_1 _ _ _ _ (a_pcs _ _ _ _ _ Ha) Hi) as Hpc.
  destruct (a_head _ _ _ _ _ Ha) as (p & Hp & _).
  destruct (ainv_reload _ _ _ _ _ _ Hwa Ha Hp) as [Hreload _].
  unfold sched_step. rewrite Hi. simpl.
  assert (forall m' pc', length (<[i:=pc']> (c_pcs c)) = length (c_pcs (mkConf m' (c_pcs c)))) as Hlen
    by (intros; apply length_insert).
  destruct pc as [|cur|cur next|b|r| | | |]; try done; unfold thread_step, cas; rewrite ?Hp; simpl.
  - do 3 eexists. split; [done|]. split; [by eapply ainv_quiet|apply length_insert].
  - destruct (cur =? 0) eqn:E; simpl.
    + do 3 eexists. split; [done|]. split; [|apply length_insert]. eapply ainv_quiet; [done|done|done|].
      simpl in *. intros _. destruct Hpc as [[]|[]]; [done|lia].
    + destruct (ainv_next _ _ _ _ _ _ Ha Hpc) as (next & -> & Hok); [lia|]. simpl.
      do 3 eexists. split; [done|]. split; [by eapply ainv_quiet|apply length_insert].
  - destruct (p =? cur) eqn:E.
    + apply Z.eqb_eq in E as ->. destruct (ainv_pop _ _ _ _ _ _ _ _ Hwa Ha Hi Hp) as (m' & r & -> & Ha').
      do 3 eexists. split; [done|]. split; [exact Ha'|apply length_insert].
    + do 3 eexists. split; [done|]. split; [by eapply ainv_quiet|apply length_insert].
  - destruct (ainv_clear _ _ _ _ _ _ _ Hwa Ha Hi) as (m' & -> & Ha').
    do 3 eexists. split; [done|]. split; [exact Ha'|apply length_insert].
  - do 3 eexists. split; [done|]. split; [|apply length_insert]. by eapply ainv_quiet.
Qed.

Lemma ainv_schedule hd l turns c pre rest :
  words_apart (hd :: l) -> ainv hd l c pre rest ->
  Forall (fun i => (i < length (c_pcs c))%nat) turns ->
  exists c' pre' rest', schedule hd c turns = Some c' /\ ainv hd l c' pre' rest'.
Proof.
  intros Hwa Ha Ht. revert c pre rest Ha Ht.
  induction turns as [|i turns IH]; intros c pre rest Ha Ht; simpl; [by do 3 eexists|].
  apply Forall_cons in Ht as [Hi Ht]. apply lookup_lt_is_Some_2 in Hi as [pc Hpc].
  destruct (ainv_step _ _ _ _ _ _ _ Hwa Ha Hpc) as (c' & pre' & rest' & -> & Ha' & Hlen). simpl.
  apply (IH c' pre' rest' Ha'). by rewrite Hlen.
Qed.

End ConcurrentAllocs.

(** ** Properties *)
Section Properties.
Import SceUlt.

(** A pool object at 16 with the blocks 64 and 72. *)
Definition demo_mem : Memory :=
  store_bytes (store_bytes ∅ 16 (repeat 0 64)) 16
    (le_encode 8 64 ++ repeat 0 40 ++ le_encode 8 72 ++ le_encode 8 0).

Lemma demo_apart : words_apart [16; 64; 72].
Proof. split; repeat constructor; unfold apart; lia. Qed.

Lemma demo_pool : pool demo_mem 16 [64; 72].
Proof.
  split; [exact demo_apart|]. exists 64. split; [by vm_compute|]. split; [done|].
  exists 72. split; [by vm_compute|]. split; [done|]. exists 0. split; [by vm_compute|done].
Qed.

(** On a well-formed free list an alloc and a free that run alone finish,
    without a fault, and are pop and push on a stack of blocks: an alloc of an
    empty pool answers null, one of a pool with blocks answers the first, with
    its link cleared, and a free puts its block first.  No word but the head and
    the block is changed. *)
Theorem pool_is_stack m hd l :
  pool m hd l ->
  (l = [] -> solo hd m AStart = Some (m, ADone 0)) /\
  (forall b rest, l = b :: rest ->
     exists m', solo hd m AStart = Some (m', ADone b) /\ pool m' hd rest /\
       readU64 m' b = Some 0 /\ (forall a, apart hd a -> apart b a -> readU64 m' a = readU64 m a)) /\
  (forall b x, words_apart (hd :: b :: l) -> readU64 m b = Some x ->
     exists m', solo hd m (FStart b) = Some (m', FDone) /\ pool m' hd (b :: l) /\
       (forall a, apart hd a -> apart b a -> readU64 m' a = readU64 m a)).
Proof.
  intros Hp. split_and!.
  - intros ->. by apply alloc_empty.
  - intros b rest ->. by apply alloc_pops.
  - intros b x Hw Hx. by apply (free_pushes m hd b l x).
Qed.

Lemma pool_is_stack_witness :
  exists m', solo 16 demo_mem AStart = Some (m', ADone 64) /\ pool m' 16 [72].
Proof.
  destruct (pool_is_stack demo_mem 16 [64; 72] demo_pool) as (_ & Ha & _).
  destruct (Ha 64 [72] eq_refl) as (m' & H & Hp & _). exists m'. split; [exact H|exact Hp].
Defined.

(** As long as nothing is freed, any number of allocs may run
    interleaved: under every schedule no access faults, the blocks they take are
    distinct blocks of the pool, and an alloc answers null only when all blocks
    have been taken. *)
Theorem concurrent_allocs m hd l n turns :
  pool m hd l -> Forall (fun i => (i < n)%nat) turns -> Forall (fun b => is_Some (readU64 m b)) l ->
  exists c, schedule hd (mkConf m (replicate n AStart)) turns = Some c /\
    NoDup (results c) /\ (forall b, b ∈ results c -> b ∈ l) /\
    (ADone 0 ∈ c_pcs c -> results c ≡ₚ l).
Proof.
  intros [Hwa Hh] Ht Hm.
  destruct (ainv_schedule hd l turns (mkConf m (replicate n AStart)) [] l Hwa) as (c & pre & rest & Hs & Ha).
  - split; simpl; try done.
    + unfold results. simpl. replace (omap taken_block (replicate n AStart)) with (@nil Z); [done|].
      clear. by induction n.
    + by apply Forall_replicate.
  - simpl. by rewrite length_replicate.
  - exists c. split; [done|]. destruct Ha as [-> Hr _ _ Hpcs].
    destruct (words_apart_inv _ _ Hwa) as (_ & _ & Hwl). apply words_apart_NoDup in Hwl.
    apply NoDup_app in Hwl as (Hnd & _). split_and!.
    + by rewrite Hr.
    + intros b. rewrite Hr. intros ?. apply elem_of_app. by left.
    + intros Hz. rewrite Forall_forall in Hpcs. specialize (Hpcs _ Hz eq_refl). subst rest.
      by rewrite app_nil_r.
Qed.

Lemma concurrent_allocs_witness :
  exists c, schedule 16 (mkConf demo_mem (replicate 3 AStart)) [0; 1; 1; 0; 0; 1; 0; 1; 2; 2]%nat = Some c /\
    NoDup (results c).
Proof.
  destruct (concurrent_allocs demo_mem 16 [64; 72] 3 [0; 1; 1; 0; 0; 1; 0; 1; 2; 2]%nat demo_pool)
    as (c & Hs & Hn & _).
  - repeat constructor.
  - apply Forall_cons; split; [by exists 72; vm_compute|].
    apply Forall_cons; split; [by exists 0; vm_compute|constructor].
  - exists c. split; [exact Hs|exact Hn].
Defined.

(** The four allocs and the free of the run below. *)
Definition aba_start : list Pc := [AStart; AStart; AStart; FStart 64; AStart].
Definition aba_turns : list nat :=
  ([0; 0] ++ [1; 1; 1; 1] ++ [2; 2; 2; 2] ++ [3; 3; 3] ++ [0; 0] ++ [4; 4; 4; 4])%nat.

(** With frees the loop suffers the ABA problem: on a pool of two blocks
    there is a schedule in which the second block is handed out twice although
    it was never freed.  The first alloc reads the head and its successor; two
    other allocs take both blocks, the first block is freed, and the stalled
    compare-and-swap succeeds and makes the allocated second block the head. *)
Theorem aba_double_alloc :
  exists m hd b1 b2 c,
    pool m hd [b1; b2] /\
    schedule hd (mkConf m [AStart; AStart; AStart; FStart b1; AStart]) aba_turns = Some c /\
    c_pcs c = [ADone b1; ADone b1; ADone b2; FDone; ADone b2].
Proof.
  exists demo_mem, 16, 64, 72.
  assert (c_pcs <$> schedule 16 (mkConf demo_mem aba_start) aba_turns
          = Some [ADone 64; ADone 64; ADone 72; FDone; ADone 72]) as H by (by vm_compute).
  destruct (schedule 16 (mkConf demo_mem aba_start) aba_turns) as [c|] eqn:E; [|discriminate H].
  exists c. split; [exact demo_pool|]. split; [exact E|]. cbn in H. congruence.
Qed.

Lemma findPool_last u addr r :
  findPool u addr = None -> poolAddr r = addr ->
  findPool (mkUlt (g_pools u ++ [r]) (u_process u)) addr = Some r.
Proof.
  unfold findPool. simpl. intros H Hr.
  destruct (list_find _ (g_pools u)) as [[]|] eqn:E; [done|].
  rewrite list_find_app_r by done. simpl. rewrite decide_True by done. done.
Qed.

Lemma write_bytes_frame m a bs m' b :
  write_bytes m a bs = Some m' -> b + 8 <= a \/ a + Z.of_nat (length bs) <= b -> readU64 m' b = readU64 m b.
Proof.
  intros [_ H]%write_bytes_inv Hab. apply readU64_agree. intros k Hk. apply H. lia.
Qed.

(** Creating a pool does not link its blocks.  Whatever the block size and
    count asked, a pool made on zeroed backing memory hands out one block, and
    the next alloc finds it exhausted. *)
Theorem pool_create_one_block obj bs n backing u u' :
  sceUltPoolCreate obj bs n backing u = Some (u', kUltOk) ->
  0 < obj < 2 ^ 64 -> 0 < backing < 2 ^ 64 -> backing + 8 <= obj \/ obj + 64 <= backing ->
  readU64 (mem u) backing = Some 0 ->
  exists u1, sceUltPoolAlloc obj u' = Some (u1, backing) /\ sceUltPoolAlloc obj u1 = Some (u1, 0).
Proof.
  intros Hc Hobj Hback Hap Hz. unfold sceUltPoolCreate in Hc.
  destruct ((obj =? 0) || _ || _ || _) eqn:E0; [by injection Hc as _ ?|].
  destruct (negb _); [by injection Hc as _ ?|].
  destruct (findPool u obj) eqn:Ef; [by injection Hc as _ ?|].
  set (r := mkPool obj backing bs n 0) in Hc.
  apply bind_Some in Hc as (m1 & H1 & Hc). apply bind_Some in Hc as (m2 & H2 & Hc).
  apply bind_Some in Hc as (m3 & H3 & Hc). apply bind_Some in Hc as (m4 & H4 & Hc).
  apply bind_Some in Hc as (m5 & H5 & [= <-]). change (mem (mkUlt _ _)) with (mem u) in H1.
  assert (readU64 m5 obj = Some backing) as Hhead.
  { rewrite (writeU64_frame _ _ _ _ _ H5), (writeU64_frame _ _ _ _ _ H4), (writeU64_frame _ _ _ _ _ H3)
      by (unfold apart; lia). apply (writeU64_read m1); [lia|done]. }
  assert (readU64 m5 backing = Some 0) as Hblock.
  { rewrite (writeU64_frame _ _ _ _ _ H5), (writeU64_frame _ _ _ _ _ H4), (writeU64_frame _ _ _ _ _ H3),
      (writeU64_frame _ _ _ _ _ H2) by (unfold apart; lia).
    rewrite (write_bytes_frame _ _ _ _ backing H1); [done|]. change (length _) with 64%nat. lia. }
  assert (pool m5 obj [backing]) as Hpool.
  { split.
    { split; [|by apply FOP_cons; [apply Forall_singleton; unfold apart; lia|repeat constructor]].
      apply Forall_cons; split; [lia|]. apply Forall_singleton. lia. }
    exists backing. split; [done|].
    split; [done|]. by exists 0. }
  destruct (alloc_pops _ _ _ _ Hpool) as (m6 & Hs & Hp6 & _).
  pose proof (findPool_last u obj r Ef eq_refl) as Hfp.
  assert (forall m, findPool (set_mem m (mkUlt (g_pools u ++ [r]) (u_process u))) obj = Some r) as Hfm by done.
  exists (set_mem m6 (set_mem m5 (mkUlt (g_pools u ++ [r]) (u_process u)))).
  unfold sceUltPoolAlloc. destruct (obj =? 0) eqn:E1; [lia|]. rewrite Hfm. split.
  - change (mem (set_mem m5 _)) with m5. rewrite Hs. done.
  - change (findPool (set_mem m6 _) obj) with (findPool (mkUlt (g_pools u ++ [r]) (u_process u)) obj).
    rewrite Hfp. change (mem (set_mem m6 _)) with m6. by rewrite (alloc_empty _ _ Hp6).
Qed.

(** C25: a free writes a word of the guest's choice wherever the guest points:
    the block is not checked against the pool, its backing or the guest's
    regions, so with [v] stored in the pool object the eight bytes at any mapped
    [b] become [v]. *)
Theorem free_writes_anywhere obj b v x u r :
  findPool u obj = Some r -> 0 < obj -> 0 < b < 2 ^ 64 -> apart obj b -> 0 <= v < 2 ^ 64 ->
  readU64 (mem u) obj = Some v -> readU64 (mem u) b = Some x ->
  exists u', sceUltPoolFree obj b u = Some u' /\ readU64 (mem u') b = Some v.
Proof.
  intros Hf Ho Hb Ha Hv Hh Hx. unfold sceUltPoolFree.
  destruct (obj =? 0) eqn:E1; [lia|]. destruct (b =? 0) eqn:E2; [lia|]. simpl. rewrite Hf.
  destruct (readU64_writable _ b x v Hx) as [m1 Hm1].
  assert (apart b obj) as Ha' by (unfold apart in *; lia).
  assert (readU64 m1 obj = Some v) as Hh1 by (by rewrite (writeU64_frame _ _ _ _ _ Hm1)).
  destruct (readU64_writable m1 obj v b Hh1) as [m2 Hm2].
  exists (set_mem m2 u). unfold solo. simpl. rewrite Hh. simpl. rewrite Hm1. simpl. unfold cas. rewrite Hh1.
  simpl. rewrite Z.eqb_refl, Hm2. split; [done|]. change (mem (set_mem m2 u)) with m2.
  rewrite (writeU64_frame _ _ _ _ _ Hm2) by done. by apply (writeU64_read (mem u)).
Qed.

(** A process with one writable region, at 4096, all mapped. *)
Definition demo_region : AddressSpace.MemoryRegion := AddressSpace.mkRegion 4096 256 PS4Process.read_write 4096 [].
Definition demo_ult : t :=
  mkUlt [] (PS4Process.set_mem (store_bytes ∅ 4096 (repeat 0 256))
    (PS4Process.set_space (AddressSpace.mkSpace 4096 4096 256 [demo_region] None)
      (PS4Process.make 1 [] (FsPolicy.mkPolicy [] [])))).

(** [demo_ult] after a pool of four blocks is made at 4096. *)
Definition demo_created : t :=
  match sceUltPoolCreate 4096 16 4 4160 demo_ult with Some (u, _) => u | None => demo_ult end.

Lemma demo_created_eq : sceUltPoolCreate 4096 16 4 4160 demo_ult = Some (demo_created, kUltOk).
Proof. vm_compute. reflexivity. Qed.

Lemma pool_create_one_block_witness :
  exists u1, sceUltPoolAlloc 4096 demo_created = Some (u1, 4160) /\ sceUltPoolAlloc 4096 u1 = Some (u1, 0).
Proof.
  apply (pool_create_one_block 4096 16 4 4160 demo_ult demo_created demo_created_eq); try lia.
  vm_compute. reflexivity.
Defined.

(** The word 4200 is outside the pool's only block. *)
Lemma free_writes_anywhere_witness :
  exists u', sceUltPoolFree 4096 4200 demo_created = Some u' /\ readU64 (mem u') 4200 = Some 4160.
Proof.
  apply (free_writes_anywhere 4096 4200 4160 0 demo_created (mkPool 4096 4160 16 4 0)).
  - vm_compute. reflexivity.
  - lia.
  - lia.
  - left. lia.
  - lia.
  - vm_compute. reflexivity.
  - vm_compute. reflexivity.
Defined.

End Properties.
