(* ===== verification/Fibers.v ===== *)
(** * Fibers

    [runtime/fiber/Fiber.cpp] and [sce/fiber/SceFiber.cpp]: the side table of
    fibers, the per-thread state and the context switches.  A [ucontext] is
    modelled by where it would continue: at the trampoline that [makecontext]
    installed, or after the [swapcontext] that saved it.  The calls below are
    those one guest thread makes. *)
From S2P Require Import Prelude.

(** ** [ucontext] and [Fiber] *)
Module Fiber.

Inductive Context := Unset | AtTrampoline | AfterSwap.

Record t := mkFiber {
  m_name : bytes;
  m_entry : Z;
  m_entryArg : Z;
  m_stackBase : Z;
  m_stackSize : Z;
  m_ctx : Context;
  m_initialized : bool;
  m_finished : bool
}.

Definition make : t := mkFiber [] 0 0 0 0 Unset false false.

Definition set_ctx (c : Context) (f : t) : t :=
  mkFiber (m_name f) (m_entry f) (m_entryArg f) (m_stackBase f) (m_stackSize f) c
    (m_initialized f) (m_finished f).

(** [getcontext_ok] answers [getcontext]. *)
Definition init (f : t) (getcontext_ok : bool) (name : bytes) (entry arg stackBase stackSize : Z) : t * bool :=
  if m_initialized f then (f, false)
  else if (entry =? 0) || (stackBase =? 0) || (stackSize <? 4096) then (f, false)
  else if negb getcontext_ok then
    (mkFiber name entry arg stackBase stackSize (m_ctx f) (m_initialized f) (m_finished f), false)
  else (mkFiber name entry arg stackBase stackSize AtTrampoline true false, true).

End Fiber.

(** ** [SceFiber] *)
Module SceFiber.

Definition kOk : Z := 0.
Definition kErrInvalidArg : Z := i32 0x80020005.
Definition kErrNotFound : Z := i32 0x80020004.
Definition kErrBusy : Z := i32 0x8002000B.
Definition kErrFault : Z := i32 0x8002000D.

(** [ThreadFiberState]; [running] is the guest pointer of the fiber. *)
Record ThreadFiberState := mkThreadState {
  threadCtx : Fiber.Context;
  running : option Z;
  inFiber : bool
}.

(** [g_fibers] by guest pointer, [g_pendingFiber], and the shims: the guest
    entry and argument of each fiber. *)
Record t := mkState {
  g_fibers : gmap Z Fiber.t;
  g_shims : gmap Z (Z * Z);
  g_pendingFiber : option Z;
  ts : ThreadFiberState
}.

Definition initial : t := mkState ∅ ∅ None (mkThreadState Fiber.Unset None false).

(** What a call leads to: it returns to its caller with a value (and what it
    stored through [out]); guest code starts in a fiber; control comes back to
    the code after an earlier [swapcontext]; or the thread ends, because a
    context returned and its [uc_link] is null. *)
Inductive Outcome :=
  | Returns (s : t) (v : Z) (out : option Z)
  | EntersGuest (s : t) (guestEntry arg : Z)
  | Resumes (s : t)
  | ThreadExits (s : t)
  | Undefined.

Definition with_ts (x : ThreadFiberState) (s : t) : t :=
  mkState (g_fibers s) (g_shims s) (g_pendingFiber s) x.
Definition with_fibers (x : gmap Z Fiber.t) (s : t) : t :=
  mkState x (g_shims s) (g_pendingFiber s) (ts s).

(** [fiberTrampoline]: takes the pending fiber and runs it, [Fiber::run] calls
    the entry, a shim that calls the guest; without a pending fiber it returns,
    and the thread ends. *)
Definition fiberTrampoline (s : t) : Outcome :=
  match g_pendingFiber s with
  | None => ThreadExits s
  | Some g =>
      let s' := mkState (g_fibers s) (g_shims s) None (ts s) in
      match g_shims s !! g with
      | Some (entry, arg) => EntersGuest s' entry arg
      | None => Undefined
      end
  end.

(** Control goes to the context [c]. *)
Definition jump (s : t) (c : Fiber.Context) : Outcome :=
  match c with
  | Fiber.Unset => Undefined
  | Fiber.AtTrampoline => fiberTrampoline s
  | Fiber.AfterSwap => Resumes s
  end.

Definition lookup_fiber (s : t) (guestPtr : Z) : option Fiber.t := g_fibers s !! guestPtr.

Definition sceFiberInitializeImpl (getcontext_ok : bool) (fiber : Z) (name : bytes)
    (entry arg addr size : Z) (s : t) : Outcome :=
  if (fiber =? 0) || (entry =? 0) || (addr =? 0) || (size <? 4096) then Returns s kErrInvalidArg None
  else
    match lookup_fiber s fiber with
    | Some _ => Returns s kErrBusy None
    | None =>
        let s := mkState (g_fibers s) (<[fiber := (entry, arg)]> (g_shims s)) (g_pendingFiber s) (ts s) in
        let '(impl, ok) := Fiber.init Fiber.make getcontext_ok name entry arg addr size in
        if negb ok then Returns s kErrInvalidArg None
        else Returns (with_fibers (<[fiber := impl]> (g_fibers s)) s) kOk None
    end.

Definition sceFiberFinalize (fiber : Z) (s : t) : Outcome :=
  if fiber =? 0 then Returns s kErrInvalidArg None
  else
    match lookup_fiber s fiber with
    | None => Returns s kErrNotFound None
    | Some _ => Returns (with_fibers (delete fiber (g_fibers s)) s) kOk None
    end.

(** The part of the call before control leaves; what follows the
    [swapcontext] is [after_run]. *)
Definition sceFiberRun (fiber : Z) (s : t) : Outcome :=
  match lookup_fiber s fiber with
  | None => Returns s kErrNotFound None
  | Some impl =>
      if inFiber (ts s) then Returns s kErrBusy None
      else jump (with_ts (mkThreadState Fiber.AfterSwap (Some fiber) true) s) (Fiber.m_ctx impl)
  end.

Definition after_run (arg : Z) (out : bool) (s : t) : Outcome :=
  Returns (with_ts (mkThreadState (threadCtx (ts s)) None false) s) kOk (if out then Some arg else None).

Definition sceFiberSwitch (fiber : Z) (s : t) : Outcome :=
  match lookup_fiber s fiber with
  | None => Returns s kErrNotFound None
  | Some impl =>
      match inFiber (ts s), running (ts s) with
      | true, Some prev =>
          let s' := with_fibers (alter (Fiber.set_ctx Fiber.AfterSwap) prev (g_fibers s))
                      (with_ts (mkThreadState (threadCtx (ts s)) (Some fiber) true) s) in
          (* switching to itself saves the context and loads it at once *)
          jump s' (if decide (fiber = prev) then Fiber.AfterSwap else Fiber.m_ctx impl)
      | _, _ => sceFiberRun fiber s
      end
  end.

Definition sceFiberReturnToThread (s : t) : Outcome :=
  match inFiber (ts s), running (ts s) with
  | true, Some current =>
      let s' := with_fibers (alter (Fiber.set_ctx Fiber.AfterSwap) current (g_fibers s))
                  (with_ts (mkThreadState (threadCtx (ts s)) None false) s) in
      jump s' (threadCtx (ts s))
  | _, _ => Returns s kErrFault None
  end.

Definition sceFiberGetSelf (out : Z) (s : t) : Outcome :=
  if out =? 0 then Returns s kErrInvalidArg None
  else if negb (inFiber (ts s)) then Returns s kOk (Some 0)
  else Returns s kOk (running (ts s)).

(** ** A thread of the guest *)
Inductive call :=
  | Initialize (getcontext_ok : bool) (fiber : Z) (name : bytes) (entry arg addr size : Z)
  | Finalize (fiber : Z)
  | Run (fiber : Z)
  | Switch (fiber : Z)
  | ReturnToThread
  | GetSelf (out : Z).

Definition exec (c : call) (s : t) : Outcome :=
  match c with
  | Initialize g f n e a b z => sceFiberInitializeImpl g f n e a b z s
  | Finalize f => sceFiberFinalize f s
  | Run f => sceFiberRun f s
  | Switch f => sceFiberSwitch f s
  | ReturnToThread => sceFiberReturnToThread s
  | GetSelf out => sceFiberGetSelf out s
  end.

(** The states between the calls of a thread that is on its own stack. *)
Inductive reachable : t -> Prop :=
| reach_start : reachable initial
| reach_call c s s' v out : reachable s -> exec c s = Returns s' v out -> reachable s'.

End SceFiber.

Section Properties.
Import SceFiber.

(** Every context is at the trampoline and nothing ever sets the pending fiber. *)
Definition untouched (s : t) : Prop :=
  g_pendingFiber s = None /\ inFiber (ts s) = false /\
  map_Forall (fun _ f => Fiber.m_ctx f = Fiber.AtTrampoline) (g_fibers s).

Lemma run_untouched f s :
  untouched s ->
  match g_fibers s !! f with
  | None => sceFiberRun f s = Returns s kErrNotFound None
  | Some _ => exists s', sceFiberRun f s = ThreadExits s'
  end.
Proof.
  intros (Hp & Hi & Hf). unfold sceFiberRun, lookup_fiber. destruct (g_fibers s !! f) as [impl|] eqn:E; [|done].
  rewrite Hi, (Hf _ _ E). unfold jump, fiberTrampoline. simpl. rewrite Hp. by eexists.
Qed.

Lemma init_result g name entry arg base size :
  match Fiber.init Fiber.make g name entry arg base size with
  | (f, true) => Fiber.m_ctx f = Fiber.AtTrampoline
  | (_, false) => True
  end.
Proof. unfold Fiber.init. simpl. destruct (_ || _); [done|]. by destruct g. Qed.

Lemma exec_untouched c s :
  untouched s ->
  match exec c s with
  | Returns s' _ _ => untouched s'
  | ThreadExits _ =>
      exists f, (c = Run f \/ c = Switch f) /\ is_Some (g_fibers s !! f)
  | _ => False
  end.
Proof.
  intros Hu. pose proof Hu as (Hp & Hi & Hf). pose proof run_untouched as Hrun.
  destruct c as [g f n e a b z|f|f|f| |o]; simpl.
  - unfold sceFiberInitializeImpl. destruct (_ || _ || _ || _); [done|].
    destruct (lookup_fiber s f); [done|]. pose proof (init_result g n e a b z) as Hr.
    destruct (Fiber.init _ _ _ _ _ _ _) as [impl []]; simpl; [|done].
    split_and!; try done. by apply map_Forall_insert_2.
  - unfold sceFiberFinalize. destruct (f =? 0); [done|]. destruct (lookup_fiber s f); [|done].
    split_and!; try done. by apply map_Forall_delete.
  - specialize (Hrun f s Hu). destruct (g_fibers s !! f) eqn:E; [|by rewrite Hrun].
    destruct Hrun as [s' ->]. exists f. split; [by left|by rewrite E].
  - specialize (Hrun f s Hu). unfold sceFiberSwitch, lookup_fiber. rewrite Hi.
    destruct (g_fibers s !! f) eqn:E; [|done].
    destruct Hrun as [s' ->]. exists f. split; [by right|by rewrite E].
  - unfold sceFiberReturnToThread. by rewrite Hi.
  - unfold sceFiberGetSelf. destruct (o =? 0); [done|]. by rewrite Hi.
Qed.

Lemma fibers_reachable_untouched s : reachable s -> untouched s.
Proof.
  induction 1 as [|c s s' v out _ IH He]; [by split_and!|].
  pose proof (exec_untouched c s IH) as H. by rewrite He in H.
Qed.

(** No fiber ever runs.  The trampoline takes its fiber from
    [g_pendingFiber], which nothing sets, so whatever calls a thread has made,
    running or switching to an initialised fiber ends the thread, the guest's
    entry point is never entered, and every other call returns to its caller. *)
Theorem fibers_never_run c s :
  reachable s ->
  (forall s' entry arg, exec c s <> EntersGuest s' entry arg) /\
  (forall f, c = Run f \/ c = Switch f -> is_Some (g_fibers s !! f) -> exists s', exec c s = ThreadExits s') /\
  ((forall f, c = Run f \/ c = Switch f -> g_fibers s !! f = None) ->
     exists s' v out, exec c s = Returns s' v out).
Proof.
  intros Hu%fibers_reachable_untouched. pose proof (exec_untouched c s Hu) as He. split_and!.
  - intros s' entry arg E. by rewrite E in He.
  - intros f Hc [impl Hf]. pose proof (run_untouched f s Hu) as Hr. rewrite Hf in Hr.
    destruct Hc as [-> | ->]; simpl; [done|]. unfold sceFiberSwitch, lookup_fiber.
    destruct Hu as (_ & -> & _). by rewrite Hf.
  - intros Hn. destruct (exec c s); try done; [by do 3 eexists|].
    destruct He as (f & Hc & Hs). rewrite (Hn f Hc) in Hs. by destruct Hs.
Qed.

Lemma fibers_never_run_witness :
  exists s, reachable s /\ is_Some (g_fibers s !! 32) /\ exists s', exec (Run 32) s = ThreadExits s'.
Proof.
  set (c := Initialize true 32 [] 4096 7 8192 65536).
  set (s := match exec c initial with Returns s _ _ => s | _ => initial end).
  assert (reachable s) as Hr by (eapply (reach_call c initial s kOk None); [constructor|reflexivity]).
  assert (is_Some (g_fibers s !! 32)) as Hs by (eexists; vm_compute; reflexivity).
  exists s. split; [exact Hr|]. split; [exact Hs|].
  destruct (fibers_never_run (Run 32) s Hr) as (_ & H & _). exact (H 32 (or_introl eq_refl) Hs).
Defined.

End Properties.
