(* ===== verification/TrapRing.v ===== *)
(** * The trap ring

    [syscall/trap/TrapRing.cpp]: 256 slots through which the guest threads
    hand their calls to the runtime's server thread.  First the ring's
    operations, as the code runs them alone; then a step relation in which any
    number of [submit] calls and the server loop interleave at every access to
    a slot.  A futex wait returns spuriously, so it never disables a step. *)
From S2P Require Import Prelude.

Module TrapRing.

Record TrapRequest := mkReq { number : Z; args : list Z; threadId : Z; kind : Z }.
Record TrapResponse := mkResp { retval : Z; isError : Z }.

Definition empty_req : TrapRequest := mkReq 0 [0; 0; 0; 0; 0; 0] 0 0.
Definition empty_resp : TrapResponse := mkResp 0 0.

Inductive SlotState := Free | Pending | Done.
#[export] Instance SlotState_eq_dec : EqDecision SlotState.
Proof. solve_decision. Defined.

Record TrapSlot := mkSlot {
  state : SlotState;
  req : TrapRequest;
  resp : TrapResponse;
  guestWaitFutex : Z
}.

Definition kTrapSlotCount : nat := 256.

Record t := mkRing { slots : list TrapSlot; serverFutex : Z; shutdown : Z }.

Definition fresh_slot : TrapSlot := mkSlot Free empty_req empty_resp 0.
Definition initial : t := mkRing (replicate kTrapSlotCount fresh_slot) 0 0.

Definition set_slots (sl : list TrapSlot) (r : t) : t := mkRing sl (serverFutex r) (shutdown r).

Definition on_slot (f : TrapSlot -> TrapSlot) (i : nat) (r : t) : t :=
  set_slots (alter f i (slots r)) r.

Definition set_state (st : SlotState) (s : TrapSlot) : TrapSlot :=
  mkSlot st (req s) (resp s) (guestWaitFutex s).
Definition set_req (rq : TrapRequest) (s : TrapSlot) : TrapSlot :=
  mkSlot (state s) rq (resp s) (guestWaitFutex s).
Definition set_resp (rs : TrapResponse) (s : TrapSlot) : TrapSlot :=
  mkSlot (state s) (req s) rs (guestWaitFutex s).
Definition set_futex (v : Z) (s : TrapSlot) : TrapSlot :=
  mkSlot (state s) (req s) (resp s) v.

(** ** The operations *)

Definition initialize (r : t) : t :=
  mkRing ((fun s => set_futex 0 (set_state Free s)) <$> slots r) 0 0.

Fixpoint first_slot (st : SlotState) (sl : list TrapSlot) : option nat :=
  match sl with
  | [] => None
  | s :: rest => if bool_decide (state s = st) then Some 0%nat else S <$> first_slot st rest
  end.

(** [None] is [UINT32_MAX]: no slot is free. *)
Definition claimSlot (r : t) : t * option nat :=
  match first_slot Free (slots r) with
  | None => (r, None)
  | Some i => (on_slot (set_state Pending) i r, Some i)
  end.

Definition releaseSlot (i : nat) (r : t) : t :=
  if (kTrapSlotCount <=? i)%nat then r else on_slot (set_state Free) i r.

Definition wakeServer (r : t) : t := mkRing (slots r) (u32 (serverFutex r + 1)) (shutdown r).

(** What [submit] writes between its claim and its wait. *)
Definition publish (i : nat) (rq : TrapRequest) (r : t) : t :=
  wakeServer (on_slot (fun s => set_futex 0 (set_resp empty_resp (set_req rq s))) i r).

(** One look of the waiting loop: the response once the slot is Done. *)
Definition poll (i : nat) (r : t) : option (t * TrapResponse) :=
  s ← slots r !! i;
  if bool_decide (state s = Done) then Some (releaseSlot i r, resp s) else None.

Definition tryConsume (r : t) : option (TrapRequest * nat) :=
  i ← first_slot Pending (slots r); s ← slots r !! i; Some (req s, i).

Definition complete (i : nat) (rs : TrapResponse) (r : t) : t :=
  if (kTrapSlotCount <=? i)%nat then r
  else on_slot (fun s => set_futex (u32 (guestWaitFutex s + 1)) (set_state Done (set_resp rs s))) i r.

Definition requestShutdown (r : t) : t := mkRing (slots r) (serverFutex r) 1.

(** The answer of [waitForWork] once its futex wait is over. *)
Definition waitForWork (r : t) : bool := shutdown r =? 0.

(** A whole exchange when nothing else runs: submit, serve, collect. *)
Definition exchange (serve : TrapRequest -> TrapResponse) (rq : TrapRequest) (r : t)
    : option (t * TrapResponse) :=
  let '(r1, slot) := claimSlot r in
  i ← slot;
  let r2 := publish i rq r1 in
  '(rq', j) ← tryConsume r2;
  poll i (complete j (serve rq') r2).

End TrapRing.

(** ** Interleavings *)
Module RingRun.
Import TrapRing.

(** Where a guest thread is inside [submit]. *)
Inductive ProducerPc :=
  | PIdle
  | PScan (i : nat) (rq : TrapRequest)
  | PWriteReq (i : nat) (rq : TrapRequest)
  | PWriteResp (i : nat) (rq : TrapRequest)
  | PWait (i : nat) (rq : TrapRequest)
  | PTake (i : nat) (rq : TrapRequest)
  | PRelease (i : nat) (rq : TrapRequest) (rs : TrapResponse).

(** Where the server is inside [tryConsume] and [complete]. *)
Inductive ServerPc :=
  | SScan (i : nat)
  | SRead (i : nat)
  | SHave (i : nat) (rq : TrapRequest)
  | SWriteResp (i : nat) (rs : TrapResponse)
  | SStore (i : nat).

(** [served] and [returned] are histories: what the server answered to which
    request, and what each finished [submit] returned. *)
Record conf := mkConf {
  ring : list TrapSlot;
  producers : list ProducerPc;
  server : ServerPc;
  served : list (TrapRequest * TrapResponse);
  returned : list (TrapRequest * TrapResponse)
}.

Definition owner (pc : ProducerPc) : option nat :=
  match pc with
  | PIdle | PScan _ _ => None
  | PWriteReq i _ | PWriteResp i _ | PWait i _ | PTake i _ | PRelease i _ _ => Some i
  end.

(** The owner of slot [i] has finished writing its request. *)
Definition published (c : conf) (i : nat) : Prop :=
  exists t rq, producers c !! t = Some (PWait i rq).

Definition next (i : nat) : nat := if (S i <? kTrapSlotCount)%nat then S i else 0%nat.

Section Step.
(** [disciplined] runs are those whose server never picks a slot that is
    claimed but not yet published; the code does nothing to ensure it. *)
Variable disciplined : bool.

Inductive step : conf -> conf -> Prop :=
| p_submit c t rq :
    producers c !! t = Some PIdle ->
    step c (mkConf (ring c) (<[t := PScan 0 rq]> (producers c)) (server c) (served c) (returned c))
| p_cas_ok c t i rq s :
    producers c !! t = Some (PScan i rq) -> ring c !! i = Some s -> state s = Free ->
    step c (mkConf (<[i := set_state Pending s]> (ring c)) (<[t := PWriteReq i rq]> (producers c))
              (server c) (served c) (returned c))
| p_cas_fail c t i rq s :
    producers c !! t = Some (PScan i rq) -> ring c !! i = Some s -> state s <> Free ->
    step c (mkConf (ring c) (<[t := PScan (next i) rq]> (producers c)) (server c) (served c) (returned c))
| p_write_req c t i rq s :
    producers c !! t = Some (PWriteReq i rq) -> ring c !! i = Some s ->
    step c (mkConf (<[i := set_req rq s]> (ring c)) (<[t := PWriteResp i rq]> (producers c))
              (server c) (served c) (returned c))
| p_write_resp c t i rq s :
    producers c !! t = Some (PWriteResp i rq) -> ring c !! i = Some s ->
    step c (mkConf (<[i := set_futex 0 (set_resp empty_resp s)]> (ring c))
              (<[t := PWait i rq]> (producers c)) (server c) (served c) (returned c))
| p_wait_done c t i rq s :
    producers c !! t = Some (PWait i rq) -> ring c !! i = Some s -> state s = Done ->
    step c (mkConf (ring c) (<[t := PTake i rq]> (producers c)) (server c) (served c) (returned c))
| p_take c t i rq s :
    producers c !! t = Some (PTake i rq) -> ring c !! i = Some s ->
    step c (mkConf (ring c) (<[t := PRelease i rq (resp s)]> (producers c))
              (server c) (served c) (returned c))
| p_release c t i rq rs s :
    producers c !! t = Some (PRelease i rq rs) -> ring c !! i = Some s ->
    step c (mkConf (<[i := set_state Free s]> (ring c)) (<[t := PIdle]> (producers c))
              (server c) (served c) (returned c ++ [(rq, rs)]))
| s_see c i s :
    server c = SScan i -> ring c !! i = Some s -> state s = Pending ->
    (disciplined = true -> published c i) ->
    step c (mkConf (ring c) (producers c) (SRead i) (served c) (returned c))
| s_skip c i s :
    server c = SScan i -> ring c !! i = Some s -> state s <> Pending ->
    step c (mkConf (ring c) (producers c) (SScan (next i)) (served c) (returned c))
| s_read c i s :
    server c = SRead i -> ring c !! i = Some s ->
    step c (mkConf (ring c) (producers c) (SHave i (req s)) (served c) (returned c))
| s_serve c i rq rs :
    server c = SHave i rq ->
    step c (mkConf (ring c) (producers c) (SWriteResp i rs) (served c ++ [(rq, rs)]) (returned c))
| s_write_resp c i rs s :
    server c = SWriteResp i rs -> ring c !! i = Some s ->
    step c (mkConf (<[i := set_resp rs s]> (ring c)) (producers c) (SStore i) (served c) (returned c))
| s_store c i s :
    server c = SStore i -> ring c !! i = Some s ->
    step c (mkConf (<[i := set_futex (u32 (guestWaitFutex s + 1)) (set_state Done s)]> (ring c))
              (producers c) (SScan 0) (served c) (returned c)).

Definition start_conf (n : nat) : conf :=
  mkConf (slots initial) (replicate n PIdle) (SScan 0) [] [].

Definition reachable (n : nat) (c : conf) : Prop := rtc step (start_conf n) c.

End Step.

(** No slot has two owners, and an owned slot is never Free. *)
Record excl (c : conf) : Prop := mkExcl {
  excl_distinct : forall t1 t2 pc1 pc2 i,
    producers c !! t1 = Some pc1 -> producers c !! t2 = Some pc2 ->
    owner pc1 = Some i -> owner pc2 = Some i -> t1 = t2;
  excl_busy : forall t pc i s,
    producers c !! t = Some pc -> owner pc = Some i -> ring c !! i = Some s -> state s <> Free
}.

(** What a producer may rely on, in a disciplined run. *)
Definition pc_ok (sv : list (TrapRequest * TrapResponse)) (pc : ProducerPc) (s : TrapSlot) : Prop :=
  match pc with
  | PIdle | PScan _ _ => True
  | PWriteReq _ _ => state s = Pending
  | PWriteResp _ rq => state s = Pending /\ req s = rq
  | PWait _ rq => req s = rq /\ (state s = Pending \/ (state s = Done /\ (rq, resp s) ∈ sv))
  | PTake _ rq => state s = Done /\ (rq, resp s) ∈ sv
  | PRelease _ rq rs => state s = Done /\ (rq, rs) ∈ sv
  end.

(** The slot the server works on is Pending and its owner waits. *)
Definition serving (c : conf) (i : nat) (P : TrapRequest -> TrapSlot -> Prop) : Prop :=
  exists t rq s, producers c !! t = Some (PWait i rq) /\ ring c !! i = Some s /\
    state s = Pending /\ req s = rq /\ P rq s.

Definition server_ok (c : conf) : Prop :=
  match server c with
  | SScan _ => True
  | SRead i => serving c i (fun _ _ => True)
  | SHave i rq => serving c i (fun rq' _ => rq' = rq)
  | SWriteResp i rs => serving c i (fun rq _ => (rq, rs) ∈ served c)
  | SStore i => serving c i (fun rq s => (rq, resp s) ∈ served c)
  end.

Record faithful (c : conf) : Prop := mkFaithful {
  faithful_pc : forall t pc i s,
    producers c !! t = Some pc -> owner pc = Some i -> ring c !! i = Some s -> pc_ok (served c) pc s;
  faithful_server : server_ok c;
  faithful_returned : Forall (fun x => x ∈ served c) (returned c)
}.

End RingRun.

(** ** Lemmas *)
Section Lemmas.
Import TrapRing RingRun.

(** Nobody gains a slot, and no slot that stays owned becomes Free. *)
Lemma excl_update c c' :
  excl c ->
  (forall t pc i, producers c' !! t = Some pc -> owner pc = Some i ->
     exists pc0, producers c !! t = Some pc0 /\ owner pc0 = Some i) ->
  (forall t pc i s', producers c' !! t = Some pc -> owner pc = Some i -> ring c' !! i = Some s' ->
     exists s, ring c !! i = Some s /\ (state s <> Free -> state s' <> Free)) ->
  excl c'.
Proof.
  intros [Hd Hb] Hp Hr. constructor.
  - intros t1 t2 pc1 pc2 i H1 H2 O1 O2.
    destruct (Hp _ _ _ H1 O1) as (? & ? & ?), (Hp _ _ _ H2 O2) as (? & ? & ?). by eapply Hd.
  - intros t pc i s' H1 O1 Hs. destruct (Hr _ _ _ _ H1 O1 Hs) as (s & ? & Himp).
    destruct (Hp _ _ _ H1 O1) as (? & ? & ?). apply Himp. by eapply Hb.
Qed.

(** A producer moves on, keeping its slot or having none. *)
Lemma excl_move c t pc pc' rg sv se rt :
  excl c -> producers c !! t = Some pc -> (owner pc' = None \/ owner pc' = owner pc) ->
  (forall i s', owner pc' <> None \/ owner pc <> Some i -> rg !! i = Some s' ->
     exists s, ring c !! i = Some s /\ (state s <> Free -> state s' <> Free)) ->
  excl (mkConf rg (<[t := pc']> (producers c)) sv se rt).
Proof.
  intros He Ht Ho Hr. eapply excl_update; [done|..]; simpl.
  - intros t' pc0 i [(<- & <- & _)|[? H]]%list_lookup_insert_Some Hi; [|by eexists].
    exists pc. split; [done|]. destruct Ho; congruence.
  - intros t' pc0 i s' [(<- & <- & _)|[Hne H]]%list_lookup_insert_Some Hi Hs.
    + apply Hr; [left; congruence|done].
    + apply Hr; [right|done]. intros Hpc. apply Hne. by eapply excl_distinct.
Qed.

(** One slot changes without becoming Free. *)
Lemma busy_insert (rg : list TrapSlot) i s0 s1 j s' :
  rg !! i = Some s0 -> (state s0 <> Free -> state s1 <> Free) -> <[i := s1]> rg !! j = Some s' ->
  exists s, rg !! j = Some s /\ (state s <> Free -> state s' <> Free).
Proof. intros ? ? [(<- & <- & _)|[? ?]]%list_lookup_insert_Some; eauto. Qed.

Lemma excl_ring c rg sv se rt :
  excl c -> (forall i s', rg !! i = Some s' ->
    exists s, ring c !! i = Some s /\ (state s <> Free -> state s' <> Free)) ->
  excl (mkConf rg (producers c) sv se rt).
Proof. intros He Hr. eapply excl_update; [done|..]; simpl; eauto. Qed.

Lemma step_excl d c c' : step d c c' -> excl c -> excl c'.
Proof.
  intros Hs He. destruct Hs; simpl.
  - eapply excl_move; [done..|by left|eauto].
  - constructor; simpl.
    + intros t1 t2 pc1 pc2 j.
      intros [(<- & <- & _)|[? H3]]%list_lookup_insert_Some [(<- & <- & _)|[? H4]]%list_lookup_insert_Some;
        simpl; intros; simplify_eq; try done.
      * exfalso. by eapply (excl_busy c He t2).
      * exfalso. by eapply (excl_busy c He t1).
      * by eapply excl_distinct.
    + intros t' pc j s' [(<- & <- & _)|[? H3]]%list_lookup_insert_Some Ho
        [(<- & <- & _)|[? H4]]%list_lookup_insert_Some; simplify_eq/=; try done.
      by eapply (excl_busy c He t').
  - eapply excl_move; [done..|by left|eauto].
  - eapply excl_move; [done..|by right|]. intros j s' _. eapply busy_insert; [done|]. done.
  - eapply excl_move; [done..|by right|]. intros j s' _. eapply busy_insert; [done|]. done.
  - eapply excl_move; [done..|by right|eauto].
  - eapply excl_move; [done..|by right|eauto].
  - eapply excl_move; [done..|by left|]. simpl. intros j s' [?|?]; [done|].
    intros [(<- & _)|[? ?]]%list_lookup_insert_Some; [done|eauto].
  - by apply excl_ring; [|eauto].
  - by apply excl_ring; [|eauto].
  - by apply excl_ring; [|eauto].
  - by apply excl_ring; [|eauto].
  - apply excl_ring; [done|]. intros j s'. eapply busy_insert; [done|]. done.
  - apply excl_ring; [done|]. intros j s'. by eapply busy_insert.
Qed.

Lemma start_excl n : excl (start_conf n).
Proof.
  constructor; simpl.
  - intros t1 t2 pc1 pc2 i H1%lookup_replicate H2. by destruct H1 as [-> _].
  - intros t pc i s H1%lookup_replicate. by destruct H1 as [-> _].
Qed.

Lemma reachable_excl d n c : reachable d n c -> excl c.
Proof.
  intros H. unfold reachable in H. remember (start_conf n) as c0 eqn:E.
  assert (excl c0) as H0 by (subst; apply start_excl). clear E.
  induction H; [done|]. eauto using step_excl.
Qed.

Lemma pc_ok_mono sv sv' pc s : (forall x, x ∈ sv -> x ∈ sv') -> pc_ok sv pc s -> pc_ok sv' pc s.
Proof. intros H. destruct pc; simpl; intuition. Qed.

(** A producer step changes only the slot it owns, or a Free one. *)
Lemma producer_faithful c t pc pc' rg rt :
  excl c -> faithful c -> producers c !! t = Some pc ->
  (forall i rq s, pc = PWait i rq -> ring c !! i = Some s -> state s <> Pending) ->
  (forall i, rg !! i = ring c !! i \/ owner pc = Some i \/
     exists s, ring c !! i = Some s /\ state s = Free) ->
  (forall i s, owner pc' = Some i -> rg !! i = Some s -> pc_ok (served c) pc' s) ->
  Forall (fun x => x ∈ served c) rt ->
  faithful (mkConf rg (<[t := pc']> (producers c)) (server c) (served c) rt).
Proof.
  intros He [Hpc Hs Hrt] Ht Hw Hrg Hnew Hrt'.
  assert (forall t' pc0 i s, t' <> t -> producers c !! t' = Some pc0 -> owner pc0 = Some i ->
    ring c !! i = Some s -> rg !! i = Some s) as Hframe.
  { intros t' pc0 i s Hne H0 Ho Hi. destruct (Hrg i) as [->|[Hpo|(s' & ? & ?)]]; [done|..].
    - destruct Hne. by eapply (excl_distinct c He).
    - simplify_eq. exfalso. by eapply (excl_busy c He t'). }
  assert (forall i P, serving c i P ->
    serving (mkConf rg (<[t := pc']> (producers c)) (server c) (served c) rt) i P) as Hserving.
  { intros i P (t0 & rq & s & H0 & Hi & Hst & Hrq & HP). destruct (decide (t0 = t)) as [->|Hne].
    - rewrite Ht in H0. simplify_eq. exfalso. by eapply Hw.
    - exists t0, rq, s. simpl. rewrite list_lookup_insert_ne by done. split_and!; eauto. }
  constructor; [|unfold server_ok in *; simpl; destruct (server c); eauto|done].
  simpl. intros t' pc0 i s [(<- & <- & _)|[Hne H0]]%list_lookup_insert_Some Ho Hi; [eauto|].
  destruct (Hrg i) as [Hsame|[Hpo|(s' & Hs' & ?)]].
  - rewrite Hsame in Hi. by eapply Hpc.
  - destruct Hne. symmetry. by eapply (excl_distinct c He).
  - exfalso. by eapply (excl_busy c He t').
Qed.

Lemma insert_frame (rg : list TrapSlot) (i : nat) s1 (P : nat -> Prop) :
  P i -> forall j, <[i := s1]> rg !! j = rg !! j \/ P j.
Proof.
  intros HP j. destruct (decide (i = j)) as [<-|?]; [by right|]. left. by apply list_lookup_insert_ne.
Qed.

(** The server changes only the slot it serves. *)
Lemma server_faithful c i t rq s s1 srv :
  excl c -> faithful c -> producers c !! t = Some (PWait i rq) -> ring c !! i = Some s ->
  pc_ok (served c) (PWait i rq) s1 ->
  server_ok (mkConf (<[i := s1]> (ring c)) (producers c) srv (served c) (returned c)) ->
  faithful (mkConf (<[i := s1]> (ring c)) (producers c) srv (served c) (returned c)).
Proof.
  intros He [Hpc Hs Hrt] Ht Hi Hok Hsrv. constructor; [|done|done]. simpl.
  intros t' pc0 j s' H0 Ho [(<- & <- & _)|[Hne Hj]]%list_lookup_insert_Some; [|by eapply Hpc].
  assert (t' = t) as -> by (by eapply (excl_distinct c He)). by simplify_eq.
Qed.

Lemma step_faithful c c' : step true c c' -> excl c -> faithful c -> faithful c'.
Proof.
  intros Hst He Hf. pose proof Hf as [Hpc Hs Hrt]. unfold server_ok in Hs. destruct Hst.
  - eapply producer_faithful; try done; by left.
  - eapply producer_faithful; try done.
    + intros j. destruct (insert_frame (ring c) i (set_state Pending s) (fun j => j = i) eq_refl j)
        as [?| ->]; [by left|]. right. right. by exists s.
    + simpl. intros j s' [= <-] Hj. rewrite list_lookup_insert_eq in Hj by (by eapply lookup_lt_Some).
      by simplify_eq.
  - eapply producer_faithful; try done; by left.
  - eapply producer_faithful; try done.
    + intros j. destruct (insert_frame (ring c) i (set_req rq s) (fun j => j = i) eq_refl j)
        as [?| ->]; [by left|]. right. by left.
    + simpl. intros j s' [= <-] Hj. rewrite list_lookup_insert_eq in Hj by (by eapply lookup_lt_Some).
      simplify_eq. split; [|done]. exact (Hpc t0 (PWriteReq i rq) i s H eq_refl H0).
  - eapply producer_faithful; try done.
    + intros j. destruct (insert_frame (ring c) i (set_futex 0 (set_resp empty_resp s)) (fun j => j = i) eq_refl j)
        as [?| ->]; [by left|]. right. by left.
    + simpl. intros j s' [= <-] Hj. rewrite list_lookup_insert_eq in Hj by (by eapply lookup_lt_Some).
      simplify_eq. destruct (Hpc t0 (PWriteResp i rq) i s) as [? ?]; [done..|]. split; [done|by left].
  - eapply producer_faithful; try done.
    + intros j rq' s' [= -> ->] Hj. simplify_eq. congruence.
    + by left.
    + simpl. intros j s' [= <-] Hj. simplify_eq.
      destruct (Hpc t0 (PWait i rq) i s) as [? [?|?]]; [done..|congruence|done].
  - eapply producer_faithful; try done; [by left|].
    simpl. intros j s' [= <-] Hj. simplify_eq. by apply (Hpc t0 (PTake i rq) i s).
  - eapply producer_faithful; try done.
    + intros j. destruct (insert_frame (ring c) i (set_state Free s) (fun j => j = i) eq_refl j)
        as [?| ->]; [by left|]. right. by left.
    + apply Forall_app. split; [done|]. constructor; [|done].
      by apply (Hpc t0 (PRelease i rq rs) i s).
  - destruct H2 as (t & rq & Ht); [done|]. constructor; [done| |done].
    unfold server_ok. simpl. exists t, rq, s. split_and!; try done.
    by apply (Hpc t (PWait i rq) i s).
  - by constructor.
  - constructor; [done| |done]. rewrite H in Hs. destruct Hs as (t & rq & s' & ? & ? & ? & ? & _).
    simplify_eq. exists t, (req s), s. by split_and!.
  - rewrite H in Hs. constructor; simpl.
    + intros. eapply pc_ok_mono; [|by eapply Hpc]. set_solver.
    + destruct Hs as (t & rq' & s & ? & ? & ? & ? & ->). exists t, rq, s. split_and!; try done. simpl. set_solver.
    + eapply Forall_impl; [exact Hrt|]. set_solver.
  - rewrite H in Hs. destruct Hs as (t & rq & s' & Ht & Hi & Hp & Hrq & Hsv). simplify_eq.
    eapply server_faithful; try done; [split; [done|by left]|].
    exists t, (req s), (set_resp rs s). split_and!; try done.
    apply list_lookup_insert_eq. by eapply lookup_lt_Some.
  - rewrite H in Hs. destruct Hs as (t & rq & s' & Ht & Hi & Hp & Hrq & Hsv). simplify_eq.
    eapply server_faithful; try done. split; [done|]. by right.
Qed.

Lemma reachable_faithful n c : reachable true n c -> faithful c.
Proof.
  intros H. unfold reachable in H. remember (start_conf n) as c0 eqn:E.
  assert (excl c0 /\ faithful c0) as [H0 H1].
  { subst. split; [apply start_excl|]. constructor; [|done|constructor].
    simpl. intros t pc i s Ht%lookup_replicate. by destruct Ht as [-> _]. }
  clear E. induction H; [done|]. eauto using step_excl, step_faithful.
Qed.

End Lemmas.

(** ** Properties *)
Section Properties.
Import TrapRing RingRun.

(** C40: in every interleaving of any number of guest threads and the server,
    a slot has at most one owner, from its claim to its release, and an owned
    slot is never Free, so no second thread can claim it. *)
Theorem ring_exclusive n c :
  reachable false n c ->
  (forall t1 t2 pc1 pc2 i, producers c !! t1 = Some pc1 -> producers c !! t2 = Some pc2 ->
     owner pc1 = Some i -> owner pc2 = Some i -> t1 = t2) /\
  (forall t pc i s, producers c !! t = Some pc -> owner pc = Some i -> ring c !! i = Some s ->
     state s <> Free).
Proof. intros H%reachable_excl. split; [apply (excl_distinct c H)|apply (excl_busy c H)]. Qed.

(** A first claim by thread 0. *)
Definition claimed_conf (rq : TrapRequest) : conf :=
  mkConf (<[0%nat := set_state Pending fresh_slot]> (slots initial)) [PWriteReq 0 rq; PIdle]
    (SScan 0) [] [].

Lemma claimed_reachable d rq : reachable d 2 (claimed_conf rq).
Proof.
  eapply rtc_l; [by apply (p_submit d _ 0 rq)|]. simpl.
  eapply rtc_l; [by eapply (p_cas_ok d _ 0 0 rq)|]. apply rtc_refl.
Qed.

Lemma ring_exclusive_witness :
  exists s, ring (claimed_conf empty_req) !! 0%nat = Some s /\ state s <> Free.
Proof.
  eexists. split; [reflexivity|].
  apply (proj2 (ring_exclusive 2 _ (claimed_reachable false empty_req)) 0%nat
    (PWriteReq 0 empty_req) 0%nat); reflexivity.
Defined.

(** If the server never picked a slot between its claim and its
    publication, every finished [submit] would return exactly what the server
    answered to that very request, in every interleaving. *)
Theorem disciplined_submit n c rq rs :
  reachable true n c -> (rq, rs) ∈ returned c -> (rq, rs) ∈ served c.
Proof.
  intros H Hin. pose proof (faithful_returned c (reachable_faithful _ _ H)) as Hall.
  rewrite Forall_forall in Hall. by apply Hall.
Qed.

(** The end of one undisturbed exchange. *)
Definition exchanged_conf (rq : TrapRequest) (rs : TrapResponse) : conf :=
  mkConf (<[0%nat := mkSlot Free rq rs 1]> (slots initial)) [PIdle] (SScan 0) [(rq, rs)] [(rq, rs)].

Lemma exchanged_reachable d rq rs : reachable d 1 (exchanged_conf rq rs).
Proof.
  eapply rtc_l; [by apply (p_submit d _ 0 rq)|]. simpl.
  eapply rtc_l; [by eapply (p_cas_ok d _ 0 0 rq)|]. simpl.
  eapply rtc_l; [by eapply (p_write_req d _ 0 0 rq)|]. simpl.
  eapply rtc_l; [by eapply (p_write_resp d _ 0 0 rq)|]. simpl.
  eapply rtc_l; [eapply (s_see d _ 0); [done..|]; intros _; by exists 0%nat, rq|]. simpl.
  eapply rtc_l; [by eapply (s_read d _ 0)|]. simpl.
  eapply rtc_l; [by apply (s_serve d _ 0 rq rs)|]. simpl.
  eapply rtc_l; [by eapply (s_write_resp d _ 0)|]. simpl.
  eapply rtc_l; [by eapply (s_store d _ 0)|]. simpl.
  eapply rtc_l; [by eapply (p_wait_done d _ 0 0 rq)|]. simpl.
  eapply rtc_l; [by eapply (p_take d _ 0 0 rq)|]. simpl.
  eapply rtc_l; [by eapply (p_release d _ 0 0 rq rs)|]. simpl. apply rtc_refl.
Qed.

Lemma disciplined_submit_witness :
  (mkReq 20 [] 1 0, mkResp 7 0) ∈ served (exchanged_conf (mkReq 20 [] 1 0) (mkResp 7 0)).
Proof.
  apply (disciplined_submit 1 _ _ _ (exchanged_reachable true (mkReq 20 [] 1 0) (mkResp 7 0))).
  apply list_elem_of_singleton. reflexivity.
Defined.

(** The code's protocol does not ensure that discipline.  A slot is
    marked Pending by the claim itself, before its request is written, so the
    server can serve the stale request of the slot's previous life; the guest
    thread then overwrites the answer with an empty response, finds the slot
    Done, and its [submit] returns success 0 for a call that was never
    executed. *)
Theorem submit_can_lose_request rq rs :
  exists c, reachable false 1 c /\
    served c = [(empty_req, rs)] /\ returned c = [(rq, empty_resp)].
Proof.
  eexists. split; [|split].
  - eapply rtc_l; [by apply (p_submit false _ 0 rq)|]. simpl.
    eapply rtc_l; [by eapply (p_cas_ok false _ 0 0 rq)|]. simpl.
    eapply rtc_l; [by eapply (s_see false _ 0)|]. simpl.
    eapply rtc_l; [by eapply (s_read false _ 0)|]. simpl.
    eapply rtc_l; [by apply (s_serve false _ 0 empty_req rs)|]. simpl.
    eapply rtc_l; [by eapply (s_write_resp false _ 0)|]. simpl.
    eapply rtc_l; [by eapply (s_store false _ 0)|]. simpl.
    eapply rtc_l; [by eapply (p_write_req false _ 0 0 rq)|]. simpl.
    eapply rtc_l; [by eapply (p_write_resp false _ 0 0 rq)|]. simpl.
    eapply rtc_l; [by eapply (p_wait_done false _ 0 0 rq)|]. simpl.
    eapply rtc_l; [by eapply (p_take false _ 0 0 rq)|]. simpl.
    eapply rtc_l; [by eapply (p_release false _ 0 0 rq empty_resp)|]. simpl. apply rtc_refl.
  - reflexivity.
  - reflexivity.
Qed.

Lemma first_slot_spec st sl i :
  first_slot st sl = Some i <->
  (exists s, sl !! i = Some s /\ state s = st) /\
  (forall j s, (j < i)%nat -> sl !! j = Some s -> state s <> st).
Proof.
  revert i. induction sl as [|s sl IH]; intros i; simpl.
  - split; [done|]. intros [(s & H & _) _]. done.
  - case_bool_decide as E.
    + split.
      * intros [= <-]. split; [by exists s|]. intros; lia.
      * intros [_ H]. destruct i as [|i]; [done|]. exfalso. by apply (H 0%nat s); [lia|..].
    + rewrite fmap_Some. setoid_rewrite IH. split.
      * intros (k & [(s' & ? & ?) Hk] & ->). split; [by exists s'|].
        intros [|j] s'' Hj Hl; simplify_eq/=; [done|]. apply (Hk j); [lia|done].
      * intros [(s' & Hl & Hst) Hk]. destruct i as [|i]; [by simplify_eq/=|]. simpl in Hl.
        exists i. split; [|done]. split; [by exists s'|]. intros j s'' Hj Hl'.
        apply (Hk (S j)); [lia|done].
Qed.

(** On a quiescent ring (256 slots, none Pending, one Free) a request
    that nothing else interferes with is served exactly once, its submitter
    gets the server's answer to it, and every slot is again in the state it had
    before. *)
Theorem exchange_correct serve rq r :
  length (slots r) = kTrapSlotCount ->
  Forall (fun s => state s <> Pending) (slots r) -> Exists (fun s => state s = Free) (slots r) ->
  exists r', exchange serve rq r = Some (r', serve rq) /\ state <$> slots r' = state <$> slots r.
Proof.
  intros Hlen Hnp Hfree.
  assert (exists i, first_slot Free (slots r) = Some i) as [i Hi].
  { revert Hfree. generalize (slots r). induction 1 as [s sl Hs|s sl _ [i IH]]; simpl.
    - rewrite bool_decide_true by done. by eexists.
    - case_bool_decide; [by eexists|]. rewrite IH. by eexists. }
  pose proof Hi as [(s & Hs & Hst) _]%first_slot_spec.
  pose proof (lookup_lt_Some _ _ _ Hs) as Hlt. rewrite Hlen in Hlt.
  unfold exchange, claimSlot. rewrite Hi. simpl.
  unfold on_slot at 1, set_slots. simpl.
  set (sl1 := alter (set_state Pending) i (slots r)).
  set (sl2 := alter (fun s => set_futex 0 (set_resp empty_resp (set_req rq s))) i sl1).
  assert (Hs2 : sl2 !! i = Some (mkSlot Pending rq empty_resp 0)).
  { unfold sl2, sl1. rewrite !list_lookup_alter_eq, Hs. done. }
  assert (Hcons : first_slot Pending sl2 = Some i).
  { apply first_slot_spec. split; [by eexists|]. intros j s' Hj Hl.
    unfold sl2, sl1 in Hl. rewrite !list_lookup_alter_ne in Hl by lia.
    rewrite Forall_forall in Hnp. apply Hnp. by eapply list_elem_of_lookup_2. }
  unfold tryConsume, publish, wakeServer, on_slot, set_slots. cbn [slots]. fold sl1. fold sl2.
  rewrite Hcons. simpl. rewrite Hs2. simpl.
  unfold complete, poll, releaseSlot.
  rewrite (proj2 (Nat.leb_gt _ _)) by done. simpl.
  rewrite list_lookup_alter_eq, Hs2. simpl.
  eexists. split; [reflexivity|]. simpl. apply list_eq. intros j.
  rewrite !list_lookup_fmap. destruct (decide (i = j)) as [<-|Hne].
  - rewrite !list_lookup_alter_eq, Hs2, Hs. simpl. by rewrite Hst.
  - rewrite !list_lookup_alter_ne by done. unfold sl2, sl1. by rewrite !list_lookup_alter_ne by done.
Qed.

Lemma exchange_correct_witness :
  exists r', exchange (fun rq => mkResp (number rq) 0) (mkReq 20 [] 1 0) initial =
    Some (r', mkResp 20 0).
Proof.
  destruct (exchange_correct (fun rq => mkResp (number rq) 0) (mkReq 20 [] 1 0) initial eq_refl)
    as (r' & H & _).
  - apply Forall_replicate. discriminate.
  - apply Exists_exists. exists fresh_slot. split; [|reflexivity]. constructor.
  - exists r'. exact H.
Defined.

End Properties.
