(* ===== verification/Trap.v ===== *)
(** * From a guest instruction to the runtime

    The way of a call out of the guest: the trampoline the loader emits
    ([loader/trampolines/SceTrampolineEmitter.cpp]), the numbering of SCE calls
    ([syscall/trap/SceCallIds.hpp]), the SIGSYS handler
    ([syscall/trap/TrapGate.cpp], [TrapTriggers.hpp]), the server's treatment
    of a request ([syscall/trap/TrapServer.cpp]), the stub table
    ([sce/SceStubTable.cpp]) and the invoker [PS4Process::start] binds.  The
    ring in between is [TrapRing]. *)
From S2P Require Import Prelude FreeBsd Vfs AddressSpace Handles Threads Host Isolation Process Handlers TrapRing.

(** ** [SceCallIds.hpp] *)
Definition kSceCallBase : Z := 0x50000000.
Definition kSceCallMask : Z := 0x0FFFFFFF.

Definition isSceCall (number : Z) : bool := Z.land (u32 number) 0xF0000000 =? kSceCallBase.
Definition sceCallId (number : Z) : Z := Z.land (u32 number) kSceCallMask.
Definition makeSceCall (id : Z) : Z := Z.lor kSceCallBase (Z.land id kSceCallMask).

(** ** The registers a SIGSYS handler sees *)
Record TrapRegisters := mkRegs {
  rax : Z; rdi : Z; rsi : Z; rdx : Z; rcx : Z; r10 : Z; r8 : Z; r9 : Z; eflags : Z
}.

Definition reg_arg (r : TrapRegisters) (i : nat) : Z :=
  match i with
  | 0%nat => rdi r | 1%nat => rsi r | 2%nat => rdx r
  | 3%nat => r10 r | 4%nat => r8 r | 5%nat => r9 r
  | _ => 0
  end.

Definition setResult (v : Z) (r : TrapRegisters) : TrapRegisters :=
  mkRegs (u64 v) (rdi r) (rsi r) (rdx r) (rcx r) (r10 r) (r8 r) (r9 r) (eflags r).

Definition setCarryFlag (on : bool) (r : TrapRegisters) : TrapRegisters :=
  mkRegs (rax r) (rdi r) (rsi r) (rdx r) (rcx r) (r10 r) (r8 r) (r9 r)
    (if on then Z.lor (eflags r) 1 else Z.ldiff (eflags r) 1).

(** ** The SIGSYS handler *)

(** The request it submits; [tid] is the thread-local [g_currentTid]. *)
Definition trap_request (regs : TrapRegisters) (tid : Z) : TrapRing.TrapRequest :=
  let number := rax regs in
  TrapRing.mkReq number (reg_arg regs <$> seq 0 6) tid (if isSceCall number then 1 else 0).

(** The handler around a [submit] that answered [resp]. *)
Definition trap_result (regs : TrapRegisters) (resp : TrapRing.TrapResponse) : TrapRegisters :=
  setCarryFlag (negb (TrapRing.isError resp =? 0)) (setResult (TrapRing.retval resp) regs).

(** ** The stub table *)
Module SceStubTable.

Record t := mkTable { m_stubs : gmap bytes Z; m_byId : gmap Z Z; m_nextId : Z }.
Definition initial : t := mkTable ∅ ∅ 1.

Definition key (lib fn : bytes) : bytes := lib ++ cstr "::" ++ fn.

Definition registerStub (lib fn : bytes) (addr : Z) (s : t) : t :=
  if addr =? 0 then s
  else
    let stubs := <[key lib fn := addr]> (m_stubs s) in
    if Z.of_nat (size (m_byId s)) <? 0x0FFFFFFF
    then mkTable stubs (<[m_nextId s := addr]> (m_byId s)) (u32 (m_nextId s + 1))
    else mkTable stubs (m_byId s) (m_nextId s).

(** [0] is [nullptr]. *)
Definition resolve (s : t) (lib fn : bytes) : Z := default 0 (m_stubs s !! key lib fn).
Definition resolveSymbol (s : t) (qualified : bytes) : Z := default 0 (m_stubs s !! qualified).
Definition table_size (s : t) : nat := size (m_stubs s).

(** The first id whose pointer matches; [unordered_map] iterates in an
    unspecified order, the model in that of the map. *)
Definition getOrAssignId (s : t) (qualified : bytes) : Z :=
  match m_stubs s !! qualified with
  | None => 0
  | Some p => default 0 ((fun x => x.2.1) <$> list_find (fun e => e.2 = p) (map_to_list (m_byId s)))
  end.

Definition resolveById (s : t) (id : Z) : Z := default 0 (m_byId s !! id).

(** Registrations in order. *)
Definition register_all (rs : list (bytes * bytes * Z)) : t :=
  foldl (fun s r => registerStub r.1.1 r.1.2 r.2 s) initial rs.

(** Ids are dense from 1 and fit the 28 bits of a call number; pointers are
    not null. *)
Record wf (s : t) : Prop := mkWf {
  wf_next : m_nextId s = Z.of_nat (size (m_byId s)) + 1;
  wf_bound : Z.of_nat (size (m_byId s)) <= 0x0FFFFFFF;
  wf_ids : forall id p, m_byId s !! id = Some p -> 1 <= id < m_nextId s /\ p <> 0;
  wf_stubs : forall q p, m_stubs s !! q = Some p -> p <> 0
}.

End SceStubTable.

(** ** The server's treatment of one request *)

(** [PS4Process::start]: the invoker handed to the server; [call] is the call of a
    guest-ABI function pointer. *)
Definition start_invoker (tbl : SceStubTable.t) (call : Z -> list Z -> Z)
    (id : Z) (args : list Z) : Z * bool :=
  let fn := SceStubTable.resolveById tbl id in
  if fn =? 0 then (-1, true) else (call fn args, false).

(** [ctx.thread] for a request. *)
Definition request_thread (proc : option PS4Process.t) (tid : Z) : option Z :=
  p ← proc;
  if tid =? 0 then None
  else _ ← ThreadManager.get (PS4Process.m_threads p) tid; Some tid.

(** The body of the drain loop of [TrapServer::run]. *)
Definition serve_one (d : SyscallDispatcher.t) (sceInvoker : Z -> list Z -> Z * bool)
    (proc : option PS4Process.t) (rq : TrapRing.TrapRequest)
    : IO (SyscallDispatcher.t * option PS4Process.t * TrapRing.TrapResponse) :=
  if TrapRing.kind rq =? 1 then
    let '(v, isError) := sceInvoker (u32 (TrapRing.number rq)) (TrapRing.args rq) in
    mret (d, proc, TrapRing.mkResp v (if (isError : bool) then 1 else 0))
  else
    let ctx := mkCtx (i64 (TrapRing.number rq)) (TrapRing.args rq) 0 false proc
                 (request_thread proc (TrapRing.threadId rq)) (cstr "unknown") in
    '(d', ctx') ← SyscallDispatcher.dispatch d ctx;
    mret (d', process ctx',
          TrapRing.mkResp (retval ctx') (if isError ctx' then 1 else 0)).

(** [TrapServer] as an object: whether a ring is bound, whether its thread
    exists, and [m_running]. *)
Module TrapServer.
Record t := mkServer { m_ring : bool; m_thread : bool; m_running : bool }.
Definition initial : t := mkServer false false false.
Definition bindRing (s : t) : t := mkServer true (m_thread s) (m_running s).
Definition start (s : t) : t * bool :=
  if m_thread s then (s, true)
  else if negb (m_ring s) then (s, false)
  else (mkServer (m_ring s) true true, true).
(** The ring is asked to shut down only when the server was running. *)
Definition stop (s : t) (ring : TrapRing.t) : t * TrapRing.t :=
  if negb (m_running s) then (mkServer (m_ring s) false false, ring)
  else (mkServer (m_ring s) false false,
        if m_ring s then TrapRing.requestShutdown ring else ring).
End TrapServer.

(** ** The trampolines *)
Module SceTrampolineEmitter.

Definition kSlotStride : nat := 16.
Definition kSlotsPerPage : nat := 256.
Definition kPage : nat := kSlotsPerPage * kSlotStride.

(** The address of the page and its bytes. *)
Definition reservePage (a : AddressSpace.t) : AddressSpace.t * option (Z * bytes) :=
  let '(a', base) := AddressSpace.map a 0 4096
    (AddressSpace.prot_or AddressSpace.Prot_Read AddressSpace.Prot_Execute)
    (cstr "sce-trampolines") in
  if base =? 0 then (a', None) else (a', Some (base, replicate kPage 0xCC)).

Definition stub_bytes (sceId : Z) : bytes :=
  [0x49; 0x89; 0xCA] ++ [0xB8] ++ le_encode 4 (Z.lor kSceCallBase (Z.land sceId kSceCallMask)) ++
  [0x0F; 0x05] ++ [0xC3].

Definition emit (pageBase : Z) (page : bytes) (slot : nat) (sceId : Z) : bytes * Z :=
  if (pageBase =? 0) || (kSlotsPerPage <=? slot)%nat then (page, 0)
  else (list_inserts (slot * kSlotStride) (stub_bytes sceId) page,
        u64 (pageBase + Z.of_nat (slot * kSlotStride))).

Definition variable_bytes (sceVarId : Z) : bytes :=
  [0xB8] ++ le_encode 4 (u32 sceVarId) ++ [0xC3] ++ replicate (kSlotStride - 6) 0xCC.

Definition emitVariable (pageBase : Z) (page : bytes) (slot : nat) (sceVarId : Z) : bytes * Z :=
  if (pageBase =? 0) || (kSlotsPerPage <=? slot)%nat then (page, 0)
  else (list_inserts (slot * kSlotStride) (variable_bytes sceVarId) page,
        u64 (pageBase + Z.of_nat (slot * kSlotStride))).

End SceTrampolineEmitter.

(** ** What the emitted bytes do

    The four instructions the emitter uses, on the registers above; a
    [syscall] of a call the filter traps is answered by [os].  [None] is any
    other byte (0xCC traps). *)
Section Cpu.
Variable os : TrapRegisters -> TrapRegisters.

Fixpoint exec (fuel : nat) (code : bytes) (r : TrapRegisters) : option TrapRegisters :=
  match fuel with
  | O => None
  | S fuel' =>
      match code with
      | op :: rest =>
          if op =? 0xC3 then Some r
          else if op =? 0xB8 then
            exec fuel' (drop 4 rest)
              (mkRegs (le_decode (take 4 rest)) (rdi r) (rsi r) (rdx r) (rcx r) (r10 r) (r8 r) (r9 r)
                 (eflags r))
          else if (op =? 0x49) && bool_decide (take 2 rest = [0x89; 0xCA]) then
            exec fuel' (drop 2 rest)
              (mkRegs (rax r) (rdi r) (rsi r) (rdx r) (rcx r) (rcx r) (r8 r) (r9 r) (eflags r))
          else if (op =? 0x0F) && bool_decide (take 1 rest = [0x05]) then
            exec fuel' (drop 1 rest) (os r)
          else None
      | [] => None
      end
  end.
End Cpu.

(** ** Lemmas *)
Section Lemmas.
Import SceStubTable.

Lemma land_mask_range id : 0 <= Z.land id kSceCallMask < 2 ^ 28.
Proof. change kSceCallMask with (Z.ones 28). rewrite Z.land_ones by lia. apply Z.mod_pos_bound. lia. Qed.

Lemma makeSceCall_add id : makeSceCall id = kSceCallBase + Z.land id kSceCallMask.
Proof.
  assert (Z.land kSceCallBase (Z.land id kSceCallMask) = 0) as H.
  { rewrite (Z.land_comm id), Z.land_assoc. apply Z.land_0_l. }
  unfold makeSceCall. by rewrite Z.add_nocarry_lxor, Z.lxor_lor by done.
Qed.

Lemma makeSceCall_range id : in_width 32 (makeSceCall id).
Proof.
  rewrite makeSceCall_add. pose proof (land_mask_range id). unfold in_width, kSceCallBase. lia.
Qed.

Lemma isSceCall_make id : isSceCall (makeSceCall id) = true.
Proof.
  unfold isSceCall. rewrite wrap_id by apply makeSceCall_range. unfold makeSceCall.
  rewrite Z.land_lor_distr_l, <- Z.land_assoc.
  change (Z.land kSceCallMask 0xF0000000) with 0. by rewrite Z.land_0_r.
Qed.

Lemma sceCallId_make id : sceCallId (makeSceCall id) = Z.land id kSceCallMask.
Proof.
  unfold sceCallId. rewrite wrap_id by apply makeSceCall_range. unfold makeSceCall.
  by rewrite Z.land_lor_distr_l, <- Z.land_assoc, Z.land_diag.
Qed.

Lemma mask_small id : 0 <= id < 2 ^ 28 -> Z.land id kSceCallMask = id.
Proof. intros. change kSceCallMask with (Z.ones 28). rewrite Z.land_ones by lia. by apply Z.mod_small. Qed.

Lemma registerStub_wf lib fn addr s : wf s -> wf (registerStub lib fn addr s).
Proof.
  intros [H1 H2 H3 H4]. unfold registerStub. destruct (addr =? 0) eqn:Ea; [done|].
  apply Z.eqb_neq in Ea.
  assert (forall q p, <[key lib fn:=addr]> (m_stubs s) !! q = Some p -> p <> 0) as Hst.
  { intros q p [[_ <-]|[_ ?]]%lookup_insert_Some; [done|by eapply H4]. }
  destruct (_ <? _) eqn:E; [|by constructor].
  assert (m_byId s !! m_nextId s = None) as Hnone.
  { destruct (m_byId s !! m_nextId s) eqn:El; [|done]. apply H3 in El. lia. }
  constructor; simpl; rewrite ?map_size_insert_None by done.
  - rewrite wrap_id by (unfold in_width; lia). lia.
  - lia.
  - rewrite wrap_id by (unfold in_width; lia).
    intros id p [[<- <-]|[_ ?%H3]]%lookup_insert_Some; [split; [lia|done]|lia].
  - done.
Qed.

Lemma register_all_wf rs : wf (register_all rs).
Proof.
  unfold register_all. assert (wf initial) as H.
  { constructor; simpl; try (by intros ? ? ?%lookup_empty_Some); rewrite map_size_empty; lia. }
  revert H. generalize initial. induction rs as [|r rs IH]; intros s Hs; simpl; [done|].
  apply IH. by apply registerStub_wf.
Qed.

Lemma getOrAssignId_Some s q :
  getOrAssignId s q <> 0 -> exists p, m_stubs s !! q = Some p /\ m_byId s !! getOrAssignId s q = Some p.
Proof.
  unfold getOrAssignId. destruct (m_stubs s !! q) as [p|]; [|done].
  destruct (list_find _ _) as [[i [id p']]|] eqn:E; simpl; [|done]. intros _.
  apply list_find_Some in E as (Hl & Hp & _). simpl in Hp. subst. exists p. split; [done|].
  apply elem_of_map_to_list. by eapply list_elem_of_lookup_2.
Qed.

(** Reading back what was just written. *)
Lemma drop_inserts {A} (l k : list A) i :
  (i + length k <= length l)%nat -> drop i (list_inserts i k l) = k ++ drop (i + length k) l.
Proof.
  intros H. rewrite <- (take_drop i l) at 1.
  assert (length (take i l) = i) as Hi by (rewrite length_take; lia).
  rewrite <- Hi at 2. rewrite <- (Nat.add_0_r (length _)), list_inserts_app_r.
  rewrite <- (take_drop (length k) (drop i l)), list_inserts_0_r by (rewrite length_take, length_drop; lia).
  rewrite <- Hi at 1. by rewrite drop_app_length, drop_drop.
Qed.

Lemma list_inserts_lookup_out {A} (l k : list A) i j :
  (j < i \/ i + length k <= j)%nat -> list_inserts i k l !! j = l !! j.
Proof.
  intros [?|?]; [by apply list_lookup_inserts_lt|]. by apply list_lookup_inserts_ge.
Qed.

End Lemmas.

(** ** The four instructions *)
Section Exec.
Variable os : TrapRegisters -> TrapRegisters.

Lemma exec_mov_r10 n rest r :
  exec os (S n) (0x49 :: 0x89 :: 0xCA :: rest) r =
  exec os n rest (mkRegs (rax r) (rdi r) (rsi r) (rdx r) (rcx r) (rcx r) (r8 r) (r9 r) (eflags r)).
Proof. reflexivity. Qed.

Lemma exec_mov_eax n imm rest r :
  length imm = 4%nat ->
  exec os (S n) (0xB8 :: imm ++ rest) r =
  exec os n rest (mkRegs (le_decode imm) (rdi r) (rsi r) (rdx r) (rcx r) (r10 r) (r8 r) (r9 r) (eflags r)).
Proof.
  intros H. cbn [exec]. rewrite <- H. simpl (0xB8 =? _). cbv iota.
  by rewrite drop_app_length, take_app_length.
Qed.

Lemma exec_syscall n rest r : exec os (S n) (0x0F :: 0x05 :: rest) r = exec os n rest (os r).
Proof. reflexivity. Qed.

Lemma exec_ret n rest r : exec os (S n) (0xC3 :: rest) r = Some r.
Proof. reflexivity. Qed.

End Exec.

(** ** Properties *)
Section Properties.
Import SceStubTable SceTrampolineEmitter.

Definition demo_stubs : list (bytes * bytes * Z) :=
  [(cstr "libScePad", cstr "scePadOpen", 0x1000); (cstr "libScePad", cstr "scePadRead", 0x2000)].

(** The stub table is consistent whatever was registered: ids are dense,
    non-zero and fit the 28 bits of a call number; and an id handed out for a
    name leads back to the pointer registered for that name. *)
Theorem stub_id_roundtrip rs q :
  let s := register_all rs in
  wf s /\
  (getOrAssignId s q <> 0 ->
     resolveById s (getOrAssignId s q) = resolveSymbol s q /\ resolveSymbol s q <> 0 /\
     sceCallId (makeSceCall (getOrAssignId s q)) = getOrAssignId s q).
Proof.
  intros s. pose proof (register_all_wf rs) as Hwf. fold s in Hwf. split; [done|].
  intros H. destruct (getOrAssignId_Some _ _ H) as (p & Hq & Hid).
  unfold resolveById, resolveSymbol. rewrite Hq, Hid. simpl.
  split; [done|]. destruct Hwf as [W1 W2 W3 W4]. split; [by eapply W4|].
  destruct (W3 _ _ Hid) as [? _]. rewrite sceCallId_make, mask_small; [done|]. lia.
Qed.

Lemma stub_id_roundtrip_witness :
  getOrAssignId (register_all demo_stubs) (cstr "libScePad::scePadRead") <> 0 /\
  resolveById (register_all demo_stubs)
    (getOrAssignId (register_all demo_stubs) (cstr "libScePad::scePadRead")) =
  resolveSymbol (register_all demo_stubs) (cstr "libScePad::scePadRead").
Proof.
  assert (H : getOrAssignId (register_all demo_stubs) (cstr "libScePad::scePadRead") <> 0)
    by (vm_compute; discriminate).
  split; [exact H|].
  exact (proj1 (proj2 (stub_id_roundtrip demo_stubs (cstr "libScePad::scePadRead")) H)).
Defined.

(** A trampoline is faithful to the calling convention: running the
    bytes emitted in a slot issues exactly one system call, numbered
    [makeSceCall id], with the six integer arguments of the C call in place (the
    fourth moved from rcx to r10), which the SIGSYS handler turns into an SCE
    request carrying that number and those arguments; and no byte outside the
    slot changes, so earlier trampolines survive. *)
Theorem trampoline_roundtrip os pageBase page slot sceId page' addr regs :
  pageBase <> 0 -> (slot < kSlotsPerPage)%nat -> length page = kPage ->
  emit pageBase page slot sceId = (page', addr) ->
  let call := mkRegs (makeSceCall sceId) (rdi regs) (rsi regs) (rdx regs) (rcx regs) (rcx regs)
                (r8 regs) (r9 regs) (eflags regs) in
  exec os 4 (drop (slot * kSlotStride) page') regs = Some (os call) /\
  (forall tid, trap_request call tid = TrapRing.mkReq (makeSceCall sceId)
     [rdi regs; rsi regs; rdx regs; rcx regs; r8 regs; r9 regs] tid 1) /\
  (forall i, (i < slot * kSlotStride \/ (slot + 1) * kSlotStride <= i)%nat -> page' !! i = page !! i).
Proof.
  intros Hb Hs Hl He call. revert He. unfold emit.
  rewrite (proj2 (Z.eqb_neq _ _) Hb), (proj2 (Nat.leb_gt _ _) Hs). simpl orb. cbv iota.
  intros [<- _]%pair_equal_spec.
  assert (length (stub_bytes sceId) = 11%nat) as H11 by reflexivity.
  assert (length page = 4096%nat) as Hl' by (rewrite Hl; reflexivity).
  unfold kSlotStride, kSlotsPerPage in *. split_and!.
  - rewrite drop_inserts by (rewrite Hl', H11; lia).
    unfold stub_bytes. fold (makeSceCall sceId). rewrite <- !app_assoc. cbn [app].
    rewrite exec_mov_r10, exec_mov_eax, exec_syscall, exec_ret by apply length_le_encode.
    rewrite (le_decode_encode 4 (makeSceCall sceId) (makeSceCall_range sceId)). reflexivity.
  - intros tid. unfold trap_request, call. simpl. by rewrite isSceCall_make.
  - intros i Hi. apply list_inserts_lookup_out. rewrite H11. lia.
Qed.

Lemma trampoline_roundtrip_witness :
  let page' := fst (emit 0x100000010000 (replicate kPage 0xCC) 2 7) in
  exec id 4 (drop 32 page') (mkRegs 0 1 2 3 4 0 5 6 0) = Some (mkRegs 0x50000007 1 2 3 4 4 5 6 0).
Proof.
  exact (proj1 (trampoline_roundtrip id 0x100000010000 (replicate kPage 0xCC) 2 7 _ _
    (mkRegs 0 1 2 3 4 0 5 6 0) ltac:(discriminate) ltac:(unfold kSlotsPerPage; lia)
    (length_replicate _ _) (surjective_pairing _))).
Defined.

(** The way back is broken: the server passes the whole call number,
    not its id, to the invoker, which looks it up in the stub table, so no SCE
    call ever reaches its function; every one is answered -1 with the error
    flag, whatever is registered, although the id alone would resolve. *)
Theorem sce_trap_never_resolves rs call d proc id args tid :
  let tbl := register_all rs in
  serve_one d (start_invoker tbl call) proc (TrapRing.mkReq (makeSceCall id) args tid 1) =
    mret (d, proc, TrapRing.mkResp (-1) 1) /\
  (forall q, getOrAssignId tbl q <> 0 ->
     start_invoker tbl call (sceCallId (makeSceCall (getOrAssignId tbl q))) args =
       (call (resolveSymbol tbl q) args, false)).
Proof.
  intros tbl. pose proof (register_all_wf rs) as Hwf. fold tbl in Hwf.
  pose proof Hwf as [W1 W2 W3 W4]. split.
  - unfold serve_one. simpl. rewrite wrap_id by apply makeSceCall_range.
    unfold start_invoker, resolveById.
    destruct (m_byId tbl !! makeSceCall id) as [p|] eqn:E; [|done].
    apply W3 in E as [E _]. rewrite makeSceCall_add in E. pose proof (land_mask_range id).
    unfold kSceCallBase in E. lia.
  - intros q H. destruct (getOrAssignId_Some _ _ H) as (p & Hq & Hid).
    destruct (W3 _ _ Hid) as [? Hp]. rewrite sceCallId_make, mask_small by lia.
    unfold start_invoker, resolveById, resolveSymbol. rewrite Hq, Hid. simpl.
    by rewrite (proj2 (Z.eqb_neq _ _) Hp).
Qed.

Lemma sce_trap_never_resolves_witness :
  start_invoker (register_all demo_stubs) (fun fn _ => fn)
    (sceCallId (makeSceCall (getOrAssignId (register_all demo_stubs) (cstr "libScePad::scePadOpen")))) []
  = (0x1000, false).
Proof.
  assert (H : getOrAssignId (register_all demo_stubs) (cstr "libScePad::scePadOpen") <> 0)
    by (vm_compute; discriminate).
  rewrite (proj2 (sce_trap_never_resolves demo_stubs (fun fn _ => fn)
    SyscallDispatcher.initial None 0 [] 0) _ H). vm_compute. reflexivity.
Defined.

(** Under the default seccomp filter every FreeBSD call the runtime
    implements traps to it, except [unlink]: its number 10 is Linux's mprotect,
    which the allowlist lets through, so the host kernel runs mprotect instead. *)
Theorem registered_calls_trap n :
  n ∈ registered_numbers ->
  SeccompFilter.verdict default_config n =
    Some (if n =? 10 then SECCOMP_RET_ALLOW else SECCOMP_RET_TRAP).
Proof.
  assert (H : Forall (fun n => SeccompFilter.verdict default_config n =
    Some (if n =? 10 then SECCOMP_RET_ALLOW else SECCOMP_RET_TRAP)) registered_numbers)
    by (apply (bool_decide_unpack _); vm_compute; exact I).
  rewrite Forall_forall in H. apply H.
Qed.

Lemma registered_calls_trap_witness :
  SeccompFilter.verdict default_config kSysOpen = Some SECCOMP_RET_TRAP /\
  SeccompFilter.verdict default_config 10 = Some SECCOMP_RET_ALLOW.
Proof.
  split; rewrite registered_calls_trap; first [reflexivity|apply (bool_decide_unpack _); exact I].
Defined.

End Properties.
