(* ===== verification/Elf.v ===== *)
(** * ELF images

    [loader/elf/ElfTypes.hpp] (the packed on-disk structures),
    [loader/elf/ElfReader.cpp] (validation of the header and of the program
    header table) and the accessors of [ElfImage].  A file is its list of
    bytes; pointer arithmetic that leaves the buffer is an outcome of its own,
    [OutOfBounds], because the C++ then reads foreign memory. *)
From S2P Require Import Prelude.

(** ** Constants of [ElfTypes.hpp] *)
Definition kElfMagic : bytes := [0x7F; 69; 76; 70].
Definition kElfClass64 := 2.
Definition kElfDataLsb := 1.
Definition kElfVersionCur := 1.
Definition kElfOsAbiFreeBsd := 9.
Definition kEmX86_64 := 62.
Definition kEtExec := 2.
Definition kEtDyn := 3.
Definition kEtSceExec := 0xFE00.
Definition kEtSceRelExec := 0xFE04.
Definition kEtSceStubLib := 0xFE0C.
Definition kEtSceDynExec := 0xFE10.
Definition kEtSceDynamic := 0xFE18.
Definition kPtNull := 0.
Definition kPtLoad := 1.
Definition kPtDynamic := 2.
Definition kPtInterp := 3.
Definition kPtNote := 4.
Definition kPtTls := 7.
Definition kPtSceRel := 0x61000000.
Definition kPtSceProcParam := 0x61000001.
Definition kPtSceDynlibData := 0x61000010.
Definition kPtSceComment := 0x6FFFFF00.
Definition kPtSceLibVer := 0x6FFFFF01.
Definition kPfX := 1.
Definition kPfW := 2.
Definition kPfR := 4.
Definition kDtStrtab := 5.
Definition kDtSymtab := 6.
Definition kDtRela := 7.
Definition kDtRelaSz := 8.
Definition kDtRelaEnt := 9.
Definition kDtStrtabSz := 10.
Definition kDtSymtabSz := 11.
Definition kDtPltRelSz := 2.
Definition kDtJmpRel := 23.
Definition kDtSceSymtab := 0x6100000D.
Definition kDtSceStrtab := 0x6100000F.
Definition kDtSceSymtabSz := 0x61000011.
Definition kDtSceStrtabSz := 0x61000013.
Definition kDtSceRela := 0x61000019.
Definition kDtSceRelaSz := 0x6100001B.
Definition kDtSceRelaEnt := 0x6100001D.
Definition kDtSceImportLib := 0x61000009.
Definition kDtSceImportLibAttr := 0x6100000B.
Definition kShnUndef := 0.

(** ** Packed structures *)
Record Elf64_Ehdr := mkEhdr {
  e_ident : bytes; e_type : Z; e_machine : Z; e_version : Z; e_entry : Z; e_phoff : Z; e_shoff : Z;
  e_flags : Z; e_ehsize : Z; e_phentsize : Z; e_phnum : Z; e_shentsize : Z; e_shnum : Z; e_shstrndx : Z
}.
Definition ehdr_size : nat := 64.

Definition read_ehdr (bs : bytes) : Elf64_Ehdr :=
  mkEhdr (take 16 bs) (field bs 16 2) (field bs 18 2) (field bs 20 4) (field bs 24 8) (field bs 32 8)
    (field bs 40 8) (field bs 48 4) (field bs 52 2) (field bs 54 2) (field bs 56 2) (field bs 58 2)
    (field bs 60 2) (field bs 62 2).

(** [Elf64_Phdr], without the [p_paddr] nobody reads, is a [SegmentInfo]. *)
Record SegmentInfo := mkSegment {
  seg_type : Z; seg_flags : Z; seg_offset : Z; seg_vaddr : Z; seg_filesz : Z; seg_memsz : Z; seg_align : Z
}.
Definition phdr_size : nat := 56.

Definition read_phdr (bs : bytes) : SegmentInfo :=
  mkSegment (field bs 0 4) (field bs 4 4) (field bs 8 8) (field bs 16 8) (field bs 32 8) (field bs 40 8)
    (field bs 48 8).

Record Elf64_Dyn := mkDyn { d_tag : Z; d_val : Z }.
Definition dyn_size : nat := 16.
Definition read_dyn (bs : bytes) : Elf64_Dyn := mkDyn (i64 (field bs 0 8)) (field bs 8 8).

Record Elf64_Sym := mkSym {
  st_name : Z; st_info : Z; st_other : Z; st_shndx : Z; st_value : Z; st_size : Z
}.
Definition sym_size : nat := 24.
Definition read_sym (bs : bytes) : Elf64_Sym :=
  mkSym (field bs 0 4) (field bs 4 1) (field bs 5 1) (field bs 6 2) (field bs 8 8) (field bs 16 8).

Record Elf64_Rela := mkRela { r_offset : Z; r_info : Z; r_addend : Z }.
Definition rela_size : nat := 24.
Definition read_rela (bs : bytes) : Elf64_Rela :=
  mkRela (field bs 0 8) (field bs 8 8) (i64 (field bs 16 8)).

Definition elfRelSym (info : Z) : Z := u32 (Z.shiftr info 32).
Definition elfRelType (info : Z) : Z := u32 (Z.land info 0xFFFFFFFF).

(** ** [ElfImage] *)
Record ElfImage := mkImage { data : bytes; ehdr : Elf64_Ehdr; phdrs : list SegmentInfo }.

Definition img_size (im : ElfImage) : Z := Z.of_nat (length (data im)).

Definition findFirst (im : ElfImage) (type : Z) : option SegmentInfo :=
  snd <$> list_find (fun s => seg_type s = type) (phdrs im).

(** The file offset behind the pointer [at] returns. *)
Definition at_ (im : ElfImage) (fileOffset : Z) : option Z :=
  if img_size im <=? fileOffset then None else Some fileOffset.

Definition as_ (im : ElfImage) (size fileOffset : Z) : option Z :=
  if img_size im <? u64 (fileOffset + size) then None else Some fileOffset.

(** ** [ElfReader::parse] *)
Inductive ParseResult := Rejected | OutOfBounds | Parsed (im : ElfImage).

Definition isSceType (t : Z) : bool :=
  (t =? kEtSceExec) || (t =? kEtSceRelExec) || (t =? kEtSceDynExec) || (t =? kEtSceDynamic)
  || (t =? kEtSceStubLib).

Definition ident (e : Elf64_Ehdr) (i : nat) : Z := nth i (e_ident e) 0.

(** The checks on the header, in the order of the code. *)
Definition header_ok (e : Elf64_Ehdr) : bool :=
  if negb (bool_decide (take 4 (e_ident e) = kElfMagic)) then false
  else if negb (ident e 4 =? kElfClass64) then false
  else if negb (ident e 5 =? kElfDataLsb) then false
  else if negb (ident e 6 =? kElfVersionCur) then false
  else if negb (e_machine e =? kEmX86_64) then false
  else if negb (ident e 7 =? kElfOsAbiFreeBsd) && negb (isSceType (e_type e)) then false
  else negb (negb (e_phentsize e =? Z.of_nat phdr_size) || (e_phnum e =? 0)).

(** [data.data() + off], [n] bytes. *)
Definition read_at (bs : bytes) (off : Z) (n : nat) : option bytes :=
  if (0 <=? off) && (off + Z.of_nat n <=? Z.of_nat (length bs))
  then slice bs (Z.to_nat off) n else None.

Fixpoint read_phdrs (bs : bytes) (off : Z) (count : nat) : option (list SegmentInfo) :=
  match count with
  | O => Some []
  | S count' =>
      raw ← read_at bs off phdr_size;
      rest ← read_phdrs bs (off + Z.of_nat phdr_size) count';
      Some (read_phdr raw :: rest)
  end.

Definition parse (bs : bytes) : ParseResult :=
  if (length bs <? ehdr_size)%nat then Rejected
  else
    let e := read_ehdr bs in
    if negb (header_ok e) then Rejected
    else if Z.of_nat (length bs) <? u64 (e_phoff e + e_phnum e * Z.of_nat phdr_size) then Rejected
    else
      match read_phdrs bs (e_phoff e) (Z.to_nat (e_phnum e)) with
      | None => OutOfBounds
      | Some phs => Parsed (mkImage bs e phs)
      end.

(** ** The name tables *)
Fixpoint name_switch (tbl : list (Z * string)) (dflt : string) (t : Z) : string :=
  match tbl with
  | [] => dflt
  | (k, n) :: rest => if t =? k then n else name_switch rest dflt t
  end.

Definition typeName : Z -> string :=
  name_switch [(kEtExec, "ET_EXEC"); (kEtDyn, "ET_DYN"); (kEtSceExec, "ET_SCE_EXEC");
    (kEtSceRelExec, "ET_SCE_RELEXEC"); (kEtSceStubLib, "ET_SCE_STUBLIB");
    (kEtSceDynExec, "ET_SCE_DYNEXEC"); (kEtSceDynamic, "ET_SCE_DYNAMIC")]%string "ET_UNKNOWN".

Definition machineName (m : Z) : string := if m =? kEmX86_64 then "x86_64" else "unknown".

Definition phdrTypeName : Z -> string :=
  name_switch [(kPtNull, "PT_NULL"); (kPtLoad, "PT_LOAD"); (kPtDynamic, "PT_DYNAMIC");
    (kPtInterp, "PT_INTERP"); (kPtNote, "PT_NOTE"); (kPtTls, "PT_TLS"); (kPtSceRel, "PT_SCE_RELA");
    (kPtSceProcParam, "PT_SCE_PROCPARAM"); (kPtSceDynlibData, "PT_SCE_DYNLIBDATA");
    (kPtSceComment, "PT_SCE_COMMENT"); (kPtSceLibVer, "PT_SCE_LIBVERSION")]%string "PT_?".

(** ** An encoder: the layout of the standard, for the round trip *)
Module ElfEncode.

Definition ehdr_bytes (e : Elf64_Ehdr) : bytes :=
  e_ident e ++ le_encode 2 (e_type e) ++ le_encode 2 (e_machine e) ++ le_encode 4 (e_version e) ++
  le_encode 8 (e_entry e) ++ le_encode 8 (e_phoff e) ++ le_encode 8 (e_shoff e) ++
  le_encode 4 (e_flags e) ++ le_encode 2 (e_ehsize e) ++ le_encode 2 (e_phentsize e) ++
  le_encode 2 (e_phnum e) ++ le_encode 2 (e_shentsize e) ++ le_encode 2 (e_shnum e) ++
  le_encode 2 (e_shstrndx e).

Definition phdr_bytes (s : SegmentInfo) : bytes :=
  le_encode 4 (seg_type s) ++ le_encode 4 (seg_flags s) ++ le_encode 8 (seg_offset s) ++
  le_encode 8 (seg_vaddr s) ++ le_encode 8 0 ++ le_encode 8 (seg_filesz s) ++
  le_encode 8 (seg_memsz s) ++ le_encode 8 (seg_align s).

Record ehdr_wf (e : Elf64_Ehdr) : Prop := mkEhdrWf {
  ew_ident : length (e_ident e) = 16%nat;
  ew_16 : Forall (in_width 16) [e_type e; e_machine e; e_ehsize e; e_phentsize e; e_phnum e;
                                e_shentsize e; e_shnum e; e_shstrndx e];
  ew_32 : Forall (in_width 32) [e_version e; e_flags e];
  ew_64 : Forall (in_width 64) [e_entry e; e_phoff e; e_shoff e]
}.

Definition phdr_wf (s : SegmentInfo) : Prop :=
  Forall (in_width 32) [seg_type s; seg_flags s] /\
  Forall (in_width 64) [seg_offset s; seg_vaddr s; seg_filesz s; seg_memsz s; seg_align s].

(** Header, padding up to [e_phoff], program headers, contents. *)
Definition file_bytes (e : Elf64_Ehdr) (pad : bytes) (phs : list SegmentInfo) (rest : bytes) : bytes :=
  ehdr_bytes e ++ pad ++ concat (phdr_bytes <$> phs) ++ rest.

End ElfEncode.

(** ** Lemmas *)
Section Lemmas.
Import ElfEncode.

Lemma le16 v : in_width 16 v -> le_decode (le_encode 2 v) = v.
Proof. apply (le_decode_encode 2). Qed.
Lemma le32 v : in_width 32 v -> le_decode (le_encode 4 v) = v.
Proof. apply (le_decode_encode 4). Qed.
Lemma le64 v : in_width 64 v -> le_decode (le_encode 8 v) = v.
Proof. apply (le_decode_encode 8). Qed.

Lemma read_ehdr_bytes e rest : ehdr_wf e -> read_ehdr (ehdr_bytes e ++ rest) = e.
Proof.
  intros [Hi H16 H32 H64]. destruct e as [id ? ? ? ? ? ? ? ? ? ? ? ? ?]. simpl in *.
  repeat (apply Forall_cons in H16 as [? H16]). repeat (apply Forall_cons in H32 as [? H32]).
  repeat (apply Forall_cons in H64 as [? H64]).
  do 16 (destruct id as [|? id]; [done|]). destruct id; [|done].
  unfold read_ehdr, ehdr_bytes. simpl e_ident. f_equal.
  all: first [apply le16; assumption|apply le32; assumption|apply le64; assumption|reflexivity].
Qed.

Lemma read_phdr_bytes s : phdr_wf s -> read_phdr (phdr_bytes s) = s.
Proof.
  intros [H32 H64]. destruct s. simpl in *.
  repeat (apply Forall_cons in H32 as [? H32]). repeat (apply Forall_cons in H64 as [? H64]).
  unfold read_phdr, phdr_bytes. f_equal;
    first [apply le32; assumption|apply le64; assumption].
Qed.

Lemma length_phdr_bytes s : length (phdr_bytes s) = phdr_size.
Proof. reflexivity. Qed.

Lemma length_ehdr_bytes e : length (e_ident e) = 16%nat -> length (ehdr_bytes e) = ehdr_size.
Proof. intros H. unfold ehdr_bytes. rewrite length_app, H. reflexivity. Qed.

Lemma read_at_Some bs off n r :
  read_at bs off n = Some r ->
  0 <= off /\ off + Z.of_nat n <= Z.of_nat (length bs) /\ r = take n (drop (Z.to_nat off) bs).
Proof.
  unfold read_at. destruct (_ && _) eqn:E; [|done]. intros (? & -> & ?)%slice_Some. split_and!; [lia|lia|done].
Qed.

Lemma read_at_ok bs off n :
  0 <= off -> off + Z.of_nat n <= Z.of_nat (length bs) ->
  read_at bs off n = Some (take n (drop (Z.to_nat off) bs)).
Proof.
  intros. unfold read_at. rewrite (proj2 (andb_true_iff _ _)) by lia.
  unfold slice. by rewrite decide_True by lia.
Qed.

(** The table read is the table of the file, entry by entry. *)
Lemma read_phdrs_spec bs off n :
  0 <= off ->
  match read_phdrs bs off n with
  | Some phs => (n = 0%nat \/ off + Z.of_nat n * Z.of_nat phdr_size <= Z.of_nat (length bs)) /\
      length phs = n /\
      forall i s, phs !! i = Some s ->
        s = read_phdr (take phdr_size (drop (Z.to_nat off + i * phdr_size) bs))
  | None => Z.of_nat (length bs) < off + Z.of_nat n * Z.of_nat phdr_size
  end.
Proof.
  revert off. induction n as [|n IH]; intros off Ho; simpl.
  { split; [by left|]. split; [done|]. intros i s H. by rewrite lookup_nil in H. }
  destruct (read_at bs off phdr_size) as [raw|] eqn:E; simpl.
  - apply read_at_Some in E as (_ & Hle & ->).
    specialize (IH (off + Z.of_nat phdr_size) ltac:(lia)).
    destruct (read_phdrs _ _ _) as [phs|]; simpl; [|lia].
    destruct IH as (Hb & Hl & Hs). split; [right; destruct Hb; lia|]. split; [by rewrite Hl|].
    intros [|i] s H; simplify_eq/=; [by rewrite Nat.add_0_r|].
    rewrite (Hs i s H). unfold phdr_size in *. do 3 f_equal. lia.
  - destruct (decide (off + Z.of_nat phdr_size <= Z.of_nat (length bs)));
      [by rewrite read_at_ok in E|]. unfold phdr_size in *. nia.
Qed.

Lemma read_phdrs_bytes pre phs rest :
  Forall phdr_wf phs ->
  read_phdrs (pre ++ concat (phdr_bytes <$> phs) ++ rest) (Z.of_nat (length pre)) (length phs) = Some phs.
Proof.
  intros H. revert pre. induction H as [|s phs Hs _ IH]; intros pre; [done|].
  cbn [length read_phdrs fmap list_fmap concat].
  rewrite read_at_ok; [|lia|rewrite !length_app, length_phdr_bytes; unfold phdr_size; lia].
  rewrite Nat2Z.id, drop_app_length, <- app_assoc.
  rewrite take_app_length' by reflexivity. cbn [mbind option_bind].
  specialize (IH (pre ++ phdr_bytes s)). rewrite <- app_assoc in IH.
  rewrite length_app, length_phdr_bytes, Nat2Z.inj_add in IH. rewrite IH. simpl.
  by rewrite read_phdr_bytes.
Qed.

End Lemmas.

(** ** Properties *)
Section Properties.
Import ElfEncode.

Lemma phoff_range bs : Forall is_byte bs -> 0 <= e_phoff (read_ehdr bs) < 2 ^ 64.
Proof. intros H. apply (field_in_width bs 32 8 H). Qed.

Lemma phnum_range bs : Forall is_byte bs -> 0 <= e_phnum (read_ehdr bs) < 2 ^ 16.
Proof. intros H. apply (field_in_width bs 56 2 H). Qed.

(** The header that the parser asks for. *)
Definition valid_header (e : Elf64_Ehdr) : Prop :=
  take 4 (e_ident e) = [0x7F; 69; 76; 70] /\ ident e 4 = 2 /\ ident e 5 = 1 /\ ident e 6 = 1 /\
  e_machine e = 62 /\ (ident e 7 = 9 \/ isSceType (e_type e) = true) /\ e_phentsize e = 56 /\ e_phnum e <> 0.

Lemma header_ok_valid e : header_ok e = true <-> valid_header e.
Proof.
  unfold header_ok, valid_header. change (Z.of_nat phdr_size) with 56.
  destruct (bool_decide (take 4 (e_ident e) = kElfMagic)) eqn:E1;
    [apply bool_decide_eq_true in E1|apply bool_decide_eq_false in E1]; cbn [negb]; [|by split; [|intros [? _]]].
  unfold kElfClass64, kElfDataLsb, kElfVersionCur, kEmX86_64, kElfOsAbiFreeBsd, kElfMagic in *.
  destruct (Z.eqb_spec (ident e 4) 2); cbn [negb]; [|by split; [|intros (_ & ? & _)]].
  destruct (Z.eqb_spec (ident e 5) 1); cbn [negb]; [|by split; [|intros (_ & _ & ? & _)]].
  destruct (Z.eqb_spec (ident e 6) 1); cbn [negb]; [|by split; [|intros (_ & _ & _ & ? & _)]].
  destruct (Z.eqb_spec (e_machine e) 62); cbn [negb]; [|by split; [|intros (_ & _ & _ & _ & ? & _)]].
  destruct (Z.eqb_spec (ident e 7) 9), (isSceType (e_type e)), (Z.eqb_spec (e_phentsize e) 56), (Z.eqb_spec (e_phnum e) 0);
    cbn [negb andb orb]; naive_solver.
Qed.

(** C21: the outcome of [parse] on any file below [2^63] bytes is exact. It is
    accepted exactly when it holds a header, the header is a valid 64-bit
    little-endian x86-64 one of FreeBSD or of an SCE type with entries of 56
    bytes, and its program header table ends inside the file; the parsed
    headers are then the file's, in order. The read of the table leaves the
    buffer exactly when the header is there and valid, the table ends past the
    file, but its end taken modulo 2^64, which is what the check looks at, does
    not. Every other file is rejected. *)
Theorem parse_exact bs :
  Forall is_byte bs -> Z.of_nat (length bs) < 2 ^ 63 ->
  let e := read_ehdr bs in
  let n := Z.of_nat (length bs) in
  let table_end := e_phoff e + e_phnum e * 56 in
  let headed := 64 <= n /\ valid_header e in
  ((exists im, parse bs = Parsed im) <-> headed /\ table_end <= n) /\
  (parse bs = OutOfBounds <-> headed /\ table_end mod 2 ^ 64 <= n < table_end) /\
  (parse bs = Rejected <-> ~ headed \/ n < table_end mod 2 ^ 64) /\
  forall im, parse bs = Parsed im ->
    data im = bs /\ ehdr im = e /\ length (phdrs im) = Z.to_nat (e_phnum e) /\
    forall i s, phdrs im !! i = Some s ->
      s = read_phdr (take phdr_size (drop (Z.to_nat (e_phoff e) + i * phdr_size) bs)).
Proof.
  intros Hb Hlen e n table_end headed. pose proof (phoff_range bs Hb). pose proof (phnum_range bs Hb).
  fold e in H, H0. assert (0 <= table_end) as Ht by (unfold table_end; lia).
  pose proof (Z.mod_le table_end (2 ^ 64) Ht ltac:(lia)) as Hmod.
  assert (headed \/ ~ headed) as [Hh|Hh].
  { unfold headed. rewrite <- header_ok_valid. destruct (header_ok e), (Z.leb_spec 64 n); naive_solver lia. }
  2: { assert (parse bs = Rejected) as ->; [|naive_solver].
       unfold parse. destruct (_ <? _)%nat eqn:E1; [done|]. fold e. destruct (header_ok e) eqn:E2; [|done].
       destruct Hh. split; [apply Nat.ltb_ge in E1; unfold ehdr_size in E1; lia|by apply header_ok_valid]. }
  assert (parse bs = if n <? table_end mod 2 ^ 64 then Rejected
    else match read_phdrs bs (e_phoff e) (Z.to_nat (e_phnum e)) with None => OutOfBounds | Some phs => Parsed (mkImage bs e phs) end) as Hp.
  { unfold parse. destruct Hh as [Hh1 Hh2%header_ok_valid].
    destruct (_ <? _)%nat eqn:E1; [apply Nat.ltb_lt in E1; unfold ehdr_size in E1; lia|]. fold e. by rewrite Hh2. }
  rewrite Hp. clear Hp. destruct (Z.ltb_spec n (table_end mod 2 ^ 64)) as [Hn|Hn].
  { split_and!; [split; [by intros [? ?]|lia]|split; [done|lia]|split; [by right|done]|done]. }
  pose proof (read_phdrs_spec bs (e_phoff e) (Z.to_nat (e_phnum e)) ltac:(lia)) as Hs.
  rewrite Z2Nat.id in Hs by lia. change (Z.of_nat phdr_size) with 56 in Hs. fold table_end n in Hs.
  destruct (read_phdrs _ _ _) as [phs|].
  - destruct Hs as (Hbound & Hl & Hall). assert (table_end <= n) as Hin.
    { destruct Hbound as [Hz|?]; [|done]. destruct Hh as (_ & _ & _ & _ & _ & _ & _ & _ & Hz'). lia. }
    split_and!; [split; [done|by eexists]|split; [done|lia]|split; [done|intros [?|?]; [done|lia]]|].
    intros im [= <-]. by split_and!.
  - split_and!; [split; [by intros [? ?]|intros [_ ?]; lia]|split; [intros _; split; [done|lia]|done]|
      split; [done|intros [?|?]; [done|lia]]|done].
Qed.

Lemma elf_roundtrip_bytes e pad phs rest :
  ehdr_wf e -> Forall phdr_wf phs -> header_ok e = true ->
  e_phnum e = Z.of_nat (length phs) -> e_phoff e = Z.of_nat (ehdr_size + length pad) ->
  Z.of_nat (length (file_bytes e pad phs rest)) < 2 ^ 64 ->
  parse (file_bytes e pad phs rest) = Parsed (mkImage (file_bytes e pad phs rest) e phs).
Proof.
  intros He Hps Hok Hn Ho Hlen. unfold parse.
  assert (length (ehdr_bytes e) = ehdr_size) as Hel by apply length_ehdr_bytes, He.
  assert (length (concat (phdr_bytes <$> phs)) = length phs * phdr_size)%nat as Hcl.
  { clear. induction phs as [|s phs IH]; [done|].
    rewrite fmap_cons. cbn [concat length]. by rewrite length_app, length_phdr_bytes, IH. }
  assert (length (file_bytes e pad phs rest) =
    ehdr_size + length pad + length phs * phdr_size + length rest)%nat as Hfl
    by (unfold file_bytes; rewrite !length_app; lia).
  rewrite (proj2 (Nat.ltb_ge _ _)) by (rewrite Hfl; lia).
  assert (read_ehdr (file_bytes e pad phs rest) = e) as -> by (by apply read_ehdr_bytes).
  rewrite Hok. simpl negb. cbv iota.
  rewrite Hn, Ho. rewrite wrap_id by (unfold in_width; rewrite Hfl in Hlen; unfold phdr_size in *; lia).
  rewrite (proj2 (Z.ltb_ge _ _)) by (rewrite Hfl; unfold phdr_size; lia).
  rewrite Nat2Z.id. unfold file_bytes at 1. rewrite app_assoc.
  rewrite <- Hel, <- length_app. by rewrite read_phdrs_bytes.
Qed.

(** Parsing inverts encoding: the file made of a well-formed accepted
    header, any padding, the program headers it announces and any contents
    parses to exactly that header and those program headers. *)
Theorem elf_roundtrip e pad phs rest :
  ehdr_wf e -> Forall phdr_wf phs -> header_ok e = true ->
  e_phnum e = Z.of_nat (length phs) -> e_phoff e = Z.of_nat (ehdr_size + length pad) ->
  Z.of_nat (length (file_bytes e pad phs rest)) < 2 ^ 64 ->
  parse (file_bytes e pad phs rest) = Parsed (mkImage (file_bytes e pad phs rest) e phs).
Proof. apply elf_roundtrip_bytes. Qed.

Definition demo_ehdr (phoff : Z) : Elf64_Ehdr :=
  mkEhdr ([0x7F; 69; 76; 70; 2; 1; 1; 9] ++ replicate 8 0) kEtSceExec kEmX86_64 1 0x400000 phoff 0 0
    64 56 1 0 0 0.
Definition demo_phdr : SegmentInfo := mkSegment kPtLoad 7 0 0x400000 16 32 0x1000.

Lemma demo_phdr_wf : phdr_wf demo_phdr.
Proof. split; apply (bool_decide_unpack _); vm_compute; exact I. Qed.

Lemma demo_ehdr_wf phoff : in_width 64 phoff -> ehdr_wf (demo_ehdr phoff).
Proof.
  intros H. constructor; [reflexivity|..]; simpl;
    repeat (apply Forall_cons_2; [unfold in_width, kEtSceExec, kEmX86_64 in *; lia|]);
    apply Forall_nil_2.
Qed.

Lemma elf_roundtrip_witness :
  parse (file_bytes (demo_ehdr 64) [] [demo_phdr] (replicate 16 0x90)) =
    Parsed (mkImage (file_bytes (demo_ehdr 64) [] [demo_phdr] (replicate 16 0x90))
              (demo_ehdr 64) [demo_phdr]).
Proof.
  apply (elf_roundtrip (demo_ehdr 64) [] [demo_phdr] (replicate 16 0x90)).
  - apply demo_ehdr_wf. unfold in_width. lia.
  - constructor; [apply demo_phdr_wf|constructor].
  - reflexivity.
  - reflexivity.
  - reflexivity.
  - reflexivity.
Defined.

Lemma parse_exact_witness :
  let bs := file_bytes (demo_ehdr 64) [] [demo_phdr] [] in
  exists im, parse bs = Parsed im /\ length (phdrs im) = 1%nat.
Proof.
  intros bs. assert (Hb : Forall is_byte bs)
    by (apply forallb_is_byte; vm_compute; reflexivity).
  pose proof (parse_exact bs Hb eq_refl) as H. exists (mkImage bs (demo_ehdr 64) [demo_phdr]).
  assert (E : parse bs = Parsed (mkImage bs (demo_ehdr 64) [demo_phdr])) by (vm_compute; reflexivity).
  split; [exact E|]. destruct H as (_ & _ & _ & H). destruct (H _ E) as (_ & _ & Hl & _). exact Hl.
Defined.

(** The bounds check on the program header table can be passed with a
    table outside the file: an offset 56 bytes below 2^64 and one entry sum to
    0, and the reader follows a pointer before its buffer; an offset that only
    lies past the end is rejected. *)
Theorem parse_wraps :
  let file phoff := ehdr_bytes (demo_ehdr phoff) in
  parse (file (2 ^ 64 - 56)) = OutOfBounds /\ parse (file 65) = Rejected /\
  as_ (mkImage (file 65) (demo_ehdr 65) []) 16 (2 ^ 64 - 16) = Some (2 ^ 64 - 16).
Proof. split; [|split]; vm_compute; reflexivity. Qed.

End Properties.
