(* ===== verification/Loader.v ===== *)
(** * Modules, symbols and relocations

    [loader/elf/TlsBlock.cpp], [loader/modules/Module.cpp],
    [loader/modules/ModuleRegistry.cpp], [loader/symbols/SymbolResolver.cpp] and
    [loader/symbols/RelocationProcessor.cpp].  Symbol and relocation tables are
    read from memory through raw pointers, so every reader may fault ([None]);
    relocations are applied in order to the same memory. *)
From S2P Require Import Prelude Memory Elf.

(** ** [TlsBlock] *)
Module TlsBlock.

Definition kPageSize : Z := 0x1000.
Definition kTcbSize : Z := 64.

Record t := mkTls {
  m_configured : bool; m_memsz : Z; m_align : Z; m_blockSize : Z; m_bytes : bytes
}.
Definition reset : t := mkTls false 0 1 0 [].

(** [tmpl] is the bytes readable at the template pointer, [None] for a null
    pointer.  The copy of [filesz] bytes into a buffer of [memsz] overruns it
    when [filesz] is larger: that outcome, and reading past the template, is
    [None]. *)
Definition configure (tmpl : option bytes) (filesz memsz align0 : Z) : option t :=
  if memsz =? 0 then Some (mkTls true 0 1 0 [])
  else
    let align := if align0 =? 0 then 1 else align0 in
    let zeros := replicate (Z.to_nat memsz) 0 in
    let finish bs :=
      let tailAligned := align_up memsz align in
      mkTls true memsz align (align_up (u64 (tailAligned + kTcbSize)) kPageSize) bs in
    if filesz <=? 0 then Some (finish zeros)
    else
      match tmpl with
      | None => Some (mkTls false memsz align 0 zeros)
      | Some src =>
          if memsz <? filesz then None
          else
            bs ← slice src 0 (Z.to_nat filesz);
            Some (finish (bs ++ drop (Z.to_nat filesz) zeros))
      end.

(** The image of a new thread's block: the template placed to end at the TCB,
    whose first word points at itself; [host] is the block's address. *)
Definition thread_image (t : t) (host : Z) : bytes * Z :=
  let tailAligned := align_up (m_memsz t) (m_align t) in
  let tcb := host + tailAligned in
  (replicate (Z.to_nat (tailAligned - m_memsz t)) 0 ++ m_bytes t ++ le_encode 8 tcb ++
   replicate (Z.to_nat (m_blockSize t - tailAligned - 8)) 0, tcb).

End TlsBlock.

(** ** [Module] *)
Record LoadedSegment := mkLoaded { ls_vaddr : Z; ls_filesz : Z; ls_memsz : Z; ls_prot : Z }.

Record Module_ := mkModule {
  m_name : bytes;
  m_image : option ElfImage;
  m_segments : list LoadedSegment;
  m_dynamics : list Elf64_Dyn;
  m_preferredBase : Z;
  m_actualBase : Z;
  m_delta : Z;
  m_entry : Z;
  m_tls : TlsBlock.t;
  m_dynsym : Z;
  m_dynstr : Z;
  m_dynsymCount : Z
}.

Definition new_module : Module_ := mkModule [] None [] [] 0 0 0 0 TlsBlock.reset 0 0 0.

Definition setup (name : bytes) (image : ElfImage) (preferred actual : Z) (m : Module_) : Module_ :=
  mkModule name (Some image) (m_segments m) (m_dynamics m) preferred actual (u64 (actual - preferred))
    (m_entry m) (m_tls m) (m_dynsym m) (m_dynstr m) (m_dynsymCount m).

Definition appendSegment (s : LoadedSegment) (m : Module_) : Module_ :=
  mkModule (m_name m) (m_image m) (m_segments m ++ [s]) (m_dynamics m) (m_preferredBase m)
    (m_actualBase m) (m_delta m) (m_entry m) (m_tls m) (m_dynsym m) (m_dynstr m) (m_dynsymCount m).

Definition set_symtab (sym str count : Z) (m : Module_) : Module_ :=
  mkModule (m_name m) (m_image m) (m_segments m) (m_dynamics m) (m_preferredBase m)
    (m_actualBase m) (m_delta m) (m_entry m) (m_tls m) sym str count.

Definition setEntryPoint (e : Z) (m : Module_) : Module_ :=
  mkModule (m_name m) (m_image m) (m_segments m) (m_dynamics m) (m_preferredBase m)
    (m_actualBase m) (m_delta m) e (m_tls m) (m_dynsym m) (m_dynstr m) (m_dynsymCount m).

Definition relocate (m : Module_) (preferredVaddr : Z) : Z := u64 (preferredVaddr + m_delta m).

(** The switch of a dynamic-table walk keeps the last value of its tags. *)
Definition last_dyn (tags : list Z) (dyns : list Elf64_Dyn) : option Z :=
  foldl (fun acc d => if bool_decide (d_tag d ∈ tags) then Some (d_val d) else acc) None dyns.

Definition read_sym_at (mem : Memory) (addr : Z) : option Elf64_Sym :=
  read_sym <$> load_bytes mem addr sym_size.

(** The scan of a table without a size entry; [fuel] bounds it by the limit the
    code itself sets, [2^20] entries. *)
Fixpoint count_symbols (fuel : nat) (mem : Memory) (sym str count : Z) : option Z :=
  match fuel with
  | O => Some count
  | S fuel' =>
      let s := u64 (sym + count * Z.of_nat sym_size) in
      if str <? u64 (s + Z.of_nat sym_size) then Some count
      else
        e ← read_sym_at mem s;
        if (st_name e =? 0) && (st_info e =? 0) && (st_shndx e =? 0) && (st_value e =? 0) then Some count
        else
          let count' := count + 1 in
          if 2 ^ 20 <? count' then Some count' else count_symbols fuel' mem sym str count'
  end.

Definition populateSymbolTableFromDynamic (mem : Memory) (m : Module_) : option Module_ :=
  let m0 := set_symtab 0 0 0 m in
  match last_dyn [kDtSymtab; kDtSceSymtab] (m_dynamics m),
        last_dyn [kDtStrtab; kDtSceStrtab] (m_dynamics m) with
  | Some symVal, Some strVal =>
      let sym := relocate m symVal in
      let str := relocate m strVal in
      count ← match last_dyn [kDtSymtabSz; kDtSceSymtabSz] (m_dynamics m) with
              | Some sz => Some (sz / Z.of_nat sym_size)
              | None => count_symbols (Z.to_nat (2 ^ 20 + 2)) mem sym str 0
              end;
      Some (set_symtab sym str count m0)
  | _, _ => Some m0
  end.

(** The loop of [lookupExport] from entry [i], [n] entries left. *)
Fixpoint lookup_loop (n : nat) (mem : Memory) (m : Module_) (name : bytes) (i : Z) : option Z :=
  match n with
  | O => Some 0
  | S n' =>
      s ← read_sym_at mem (u64 (m_dynsym m + i * Z.of_nat sym_size));
      if (st_shndx s =? kShnUndef) || (st_name s =? 0) then lookup_loop n' mem m name (i + 1)
      else
        symName ← strz mem (u64 (m_dynstr m + st_name s));
        if bool_decide (name = symName) then Some (u64 (st_value s + m_delta m))
        else lookup_loop n' mem m name (i + 1)
  end.

Definition lookupExport (mem : Memory) (m : Module_) (name : bytes) : option Z :=
  if (m_dynsym m =? 0) || (m_dynstr m =? 0) || (m_dynsymCount m =? 0) then Some 0
  else lookup_loop (Z.to_nat (m_dynsymCount m)) mem m name 0.

(** ** [ModuleRegistry] and [SymbolResolver] *)

(** An [unordered_map]: iteration is in the order of the model's map. *)
Definition ModuleRegistry := gmap bytes Module_.

Definition registry_add (name : bytes) (m : option Module_) (r : ModuleRegistry) : ModuleRegistry :=
  match m with None => r | Some m => <[name := m]> r end.
Definition registry_find (r : ModuleRegistry) (name : bytes) : option Module_ := r !! name.

Fixpoint resolve_in (mem : Memory) (mods : list (bytes * Module_)) (symbol : bytes) : option (Z * bytes) :=
  match mods with
  | [] => Some (0, [])
  | (n, m) :: rest =>
      addr ← lookupExport mem m symbol;
      if (addr : Z) =? 0 then resolve_in mem rest symbol else Some (addr, n)
  end.

Definition resolveExport (mem : Memory) (r : ModuleRegistry) (symbol : bytes) : option (Z * bytes) :=
  resolve_in mem (map_to_list r) symbol.

(** The requester first, then every registered module. *)
Definition resolve_symbol (mem : Memory) (r : ModuleRegistry) (requester : Module_) (symbol : bytes)
    : option Z :=
  self ← lookupExport mem requester symbol;
  if negb ((self : Z) =? 0) then Some self
  else fst <$> resolveExport mem r symbol.

(** ** [RelocationProcessor] *)
Definition kRX86_64None := 0.
Definition kRX86_64_64 := 1.
Definition kRX86_64GlobDat := 6.
Definition kRX86_64JumpSlot := 7.
Definition kRX86_64Relative := 8.

Record RelocationStats := mkStats {
  total : Z; relative : Z; globDat : Z; jumpSlot : Z; abs64 : Z; skipped : Z; failed : Z
}.
Definition no_stats : RelocationStats := mkStats 0 0 0 0 0 0 0.

Definition count_total (s : RelocationStats) :=
  mkStats (u64 (total s + 1)) (relative s) (globDat s) (jumpSlot s) (abs64 s) (skipped s) (failed s).
Definition count_relative (s : RelocationStats) :=
  mkStats (total s) (u64 (relative s + 1)) (globDat s) (jumpSlot s) (abs64 s) (skipped s) (failed s).
Definition count_globDat (s : RelocationStats) :=
  mkStats (total s) (relative s) (u64 (globDat s + 1)) (jumpSlot s) (abs64 s) (skipped s) (failed s).
Definition count_jumpSlot (s : RelocationStats) :=
  mkStats (total s) (relative s) (globDat s) (u64 (jumpSlot s + 1)) (abs64 s) (skipped s) (failed s).
Definition count_abs64 (s : RelocationStats) :=
  mkStats (total s) (relative s) (globDat s) (jumpSlot s) (u64 (abs64 s + 1)) (skipped s) (failed s).
Definition count_skipped (s : RelocationStats) :=
  mkStats (total s) (relative s) (globDat s) (jumpSlot s) (abs64 s) (u64 (skipped s + 1)) (failed s).
Definition count_failed (s : RelocationStats) :=
  mkStats (total s) (relative s) (globDat s) (jumpSlot s) (abs64 s) (skipped s) (u64 (failed s + 1)).

Definition in_loaded (addr : Z) (s : LoadedSegment) : bool :=
  (ls_vaddr s <=? addr) && (addr <? u64 (ls_vaddr s + ls_memsz s)).

Fixpoint writable_in (segs : list LoadedSegment) (addr : Z) : bool :=
  match segs with
  | [] => false
  | s :: rest =>
      if in_loaded addr s then negb (Z.land (ls_prot s) kPfW =? 0) else writable_in rest addr
  end.
Definition isWritableAddress (m : Module_) (addr : Z) : bool := writable_in (m_segments m) addr.

Section Relocation.
Context (m : Module_) (registry : ModuleRegistry).

(** The value of symbol number [sym]: 0 when it cannot be resolved. *)
Definition symbol_value (mem : Memory) (sym : Z) : option Z :=
  if (m_dynsym m =? 0) || (m_dynstr m =? 0) || (m_dynsymCount m <=? sym) then Some 0
  else
    s ← read_sym_at mem (u64 (m_dynsym m + sym * Z.of_nat sym_size));
    name ← strz mem (u64 (m_dynstr m + st_name s));
    resolve_symbol mem registry m name.

Definition applyOne (mem : Memory) (r : Elf64_Rela) (stats0 : RelocationStats)
    : option (Memory * RelocationStats * bool) :=
  let type := elfRelType (r_info r) in
  let sym := elfRelSym (r_info r) in
  let target := relocate m (r_offset r) in
  let stats := count_total stats0 in
  if negb (isWritableAddress m target) then Some (mem, count_failed stats, false)
  else if type =? kRX86_64None then Some (mem, stats, true)
  else if type =? kRX86_64Relative then
    mem' ← writeU64 mem target (u64 (m_delta m + r_addend r));
    Some (mem', count_relative stats, true)
  else if type =? kRX86_64_64 then
    symAddr ← symbol_value mem sym;
    if (symAddr : Z) =? 0 then Some (mem, count_failed stats, false)
    else
      mem' ← writeU64 mem target (u64 (symAddr + u64 (r_addend r)));
      Some (mem', count_abs64 stats, true)
  else if (type =? kRX86_64GlobDat) || (type =? kRX86_64JumpSlot) then
    symAddr ← symbol_value mem sym;
    if (symAddr : Z) =? 0 then Some (mem, count_failed stats, false)
    else
      mem' ← writeU64 mem target symAddr;
      Some (mem', if type =? kRX86_64GlobDat then count_globDat stats else count_jumpSlot stats, true)
  else Some (mem, count_failed (count_skipped stats), false).

(** [count] entries from address [addr]; the entries are read as they are
    reached. *)
Fixpoint applyRelaRange (count : nat) (addr : Z) (mem : Memory) (stats : RelocationStats) (allOk : bool)
    : option (Memory * RelocationStats * bool) :=
  match count with
  | O => Some (mem, stats, allOk)
  | S count' =>
      raw ← load_bytes mem addr rela_size;
      '(mem', stats', ok) ← applyOne mem (read_rela raw) stats;
      applyRelaRange count' (u64 (addr + Z.of_nat rela_size)) mem' stats'
        (if (ok : bool) then allOk else false)
  end.

Definition rela_range (count addr : Z) (mem : Memory) (stats : RelocationStats)
    : option (Memory * RelocationStats * bool) :=
  if (addr =? 0) || (count =? 0) then Some (mem, stats, true)
  else applyRelaRange (Z.to_nat count) addr mem stats true.

(** The DT_JMPREL part, after the DT_RELA part left [st]. *)
Definition apply_jmprel (st : Memory * RelocationStats * bool)
    : option (Memory * RelocationStats * bool) :=
  let '(mem1, stats1, ok1) := st in
  let pltrelsz := default 0 (last_dyn [kDtPltRelSz] (m_dynamics m)) in
  match last_dyn [kDtJmpRel] (m_dynamics m) with
  | Some jmprel =>
      if pltrelsz =? 0 then Some st
      else
        '(mem2, stats2, ok2) ←
          rela_range (pltrelsz / Z.of_nat rela_size) (relocate m jmprel) mem1 stats1;
        Some (mem2, stats2, if (ok2 : bool) then ok1 else false)
  | None => Some st
  end.

Definition applyAll (mem : Memory) : option (Memory * RelocationStats * bool) :=
  let dyns := m_dynamics m in
  let relaSize := default 0 (last_dyn [kDtRelaSz; kDtSceRelaSz] dyns) in
  let relaEnt := default (Z.of_nat rela_size) (last_dyn [kDtRelaEnt; kDtSceRelaEnt] dyns) in
  match last_dyn [kDtRela; kDtSceRela] dyns with
  | Some relaAddr =>
      if relaSize =? 0 then apply_jmprel (mem, no_stats, true)
      else if negb (relaEnt =? Z.of_nat rela_size) then Some (mem, no_stats, false)
      else st ← rela_range (relaSize / relaEnt) (relocate m relaAddr) mem no_stats; apply_jmprel st
  | None => apply_jmprel (mem, no_stats, true)
  end.

End Relocation.

(** ** Specification *)

(** The counters are consistent: what was counted as applied or failed was
    counted in the total. *)
Record counted (s : RelocationStats) : Prop := mkCounted {
  cnt_pos : 0 <= relative s /\ 0 <= globDat s /\ 0 <= jumpSlot s /\ 0 <= abs64 s /\ 0 <= skipped s;
  cnt_failed : skipped s <= failed s;
  cnt_total : relative s + globDat s + jumpSlot s + abs64 s + failed s <= total s
}.

(** [a] is in a writable segment, or among the 7 bytes after one. *)
Definition near_writable (m : Module_) (a : Z) : Prop :=
  exists s, s ∈ m_segments m /\ Z.land (ls_prot s) kPfW <> 0 /\
    ls_vaddr s <= a < ls_vaddr s + ls_memsz s + 7.

Definition confined (m : Module_) (mem mem' : Memory) : Prop :=
  forall a, mem' !! a <> mem !! a -> near_writable m a.

(** Entry [i] of the symbol table defines [name]. *)
Definition exports (mem : Memory) (m : Module_) (name : bytes) (i : Z) (s : Elf64_Sym) : Prop :=
  read_sym_at mem (u64 (m_dynsym m + i * Z.of_nat sym_size)) = Some s /\
  st_shndx s <> kShnUndef /\ st_name s <> 0 /\ strz mem (u64 (m_dynstr m + st_name s)) = Some name.

(** The module's RELA table is not empty and gives its entries a size other
    than that of [Elf64_Rela]. *)
Definition unsupported_rela (m : Module_) : bool :=
  let value tags := last_dyn tags (m_dynamics m) in
  bool_decide (is_Some (value [kDtRela; kDtSceRela])) &&
  negb (default 0 (value [kDtRelaSz; kDtSceRelaSz]) =? 0) && negb (default 24 (value [kDtRelaEnt; kDtSceRelaEnt]) =? 24).

(** No segment of the module wraps around the address space. *)
Definition segments_wf (m : Module_) : Prop :=
  Forall (fun s => 0 <= ls_vaddr s /\ 0 <= ls_memsz s /\ ls_vaddr s + ls_memsz s < two64) (m_segments m).

(** ** Lemmas *)
Section Lemmas.
Context (m : Module_) (registry : ModuleRegistry).
Hypothesis Hsegs : segments_wf m.

Lemma writable_near target a :
  isWritableAddress m target = true -> target <= a < target + 8 -> near_writable m a.
Proof.
  unfold isWritableAddress, near_writable. unfold segments_wf in Hsegs. revert Hsegs.
  induction (m_segments m) as [|s segs IH]; simpl; [done|].
  intros [(? & ? & ?) Hw]%Forall_cons. destruct (in_loaded target s) eqn:E.
  - unfold in_loaded in E. rewrite wrap_id in E by (unfold in_width, two64 in *; lia).
    rewrite negb_true_iff, Z.eqb_neq. intros. exists s. split; [by left|]. split; [done|]. lia.
  - intros Ht Ha. destruct (IH Hw Ht Ha) as (s' & ? & ?). exists s'. split; [by right|done].
Qed.

Lemma confined_refl mem : confined m mem mem.
Proof. by intros a H. Qed.

Lemma confined_trans mem1 mem2 mem3 : confined m mem1 mem2 -> confined m mem2 mem3 -> confined m mem1 mem3.
Proof.
  intros H1 H2 a Ha. destruct (decide (mem2 !! a = mem1 !! a)) as [E|?]; [|by apply H1].
  apply H2. by rewrite E.
Qed.

Lemma write_confined mem target v mem' :
  isWritableAddress m target = true -> writeU64 mem target v = Some mem' -> confined m mem mem'.
Proof.
  intros Ht [_ Hout]%writeU64_inv a Ha. apply (writable_near target); [done|].
  destruct (decide (target <= a < target + 8)); [done|]. destruct Ha. apply Hout. lia.
Qed.

(** What one relocation does to the counters and to memory. *)
Definition one_step (mem : Memory) (s : RelocationStats) (mem' : Memory) (s' : RelocationStats) (ok : bool) : Prop :=
  counted s' /\ total s' = total s + 1 /\ failed s' = failed s + (if ok then 0 else 1) /\
  confined m mem mem'.

Ltac counters :=
  match goal with H : counted ?s |- _ => destruct H as [(? & ? & ? & ? & ?) ? ?]; destruct s end;
  unfold count_total, count_relative, count_globDat, count_jumpSlot, count_abs64, count_skipped,
    count_failed in *; simpl in *;
  rewrite ?wrap_id by (unfold in_width, two64 in *; lia).

Lemma applyOne_step mem r s mem' s' ok :
  applyOne m registry mem r s = Some (mem', s', ok) -> counted s -> total s < two64 - 1 ->
  one_step mem s mem' s' ok.
Proof.
  intros E Hc Ht. unfold applyOne in E.
  destruct (isWritableAddress m _) eqn:Ew; simpl in E.
  2: { simplify_eq. unfold one_step. split_and!; [|by counters; lia|by counters; lia|apply confined_refl].
       counters. constructor; simpl; lia. }
  set (target := relocate m (r_offset r)) in *.
  assert (forall v mem'', writeU64 mem target v = Some mem'' -> confined m mem mem'') as Hw
    by (intros; by eapply write_confined).
  repeat (case_match || (apply bind_Some in E as (? & ? & E))); simplify_eq;
    unfold one_step; (split_and!; [|by counters; lia|by counters; lia|first [apply confined_refl|by eapply Hw]]);
    counters; constructor; simpl; lia.
Qed.

(** The same for a range of relocations. *)
Definition range_step (mem : Memory) (s : RelocationStats) (n : Z) (ok0 : bool)
    (mem' : Memory) (s' : RelocationStats) (ok : bool) : Prop :=
  counted s' /\ total s' = total s + n /\ failed s <= failed s' /\
  ok = ok0 && (failed s' =? failed s) /\ confined m mem mem'.

Lemma applyRelaRange_step count addr mem s ok0 mem' s' ok :
  applyRelaRange m registry count addr mem s ok0 = Some (mem', s', ok) ->
  counted s -> total s + Z.of_nat count < two64 ->
  range_step mem s (Z.of_nat count) ok0 mem' s' ok.
Proof.
  revert addr mem s ok0. induction count as [|n IH]; intros addr mem s ok0 E Hc Ht; simpl in E.
  - simplify_eq. split_and!; [done|lia|lia| |apply confined_refl]. by rewrite Z.eqb_refl, andb_true_r.
  - apply bind_Some in E as (raw & _ & E). apply bind_Some in E as ([[mem1 s1] ok1] & E1 & E).
    destruct (applyOne_step _ _ _ _ _ _ E1 Hc ltac:(lia)) as (Hc1 & Ht1 & Hf1 & Hm1).
    destruct (IH _ _ _ _ E Hc1 ltac:(lia)) as (Hc2 & Ht2 & Hf2 & Hok & Hm2).
    split_and!; [done|lia|destruct ok1; lia| |by eapply confined_trans].
    rewrite Hok. destruct ok1, ok0; simpl; try done; [f_equal; lia|].
    symmetry. apply Z.eqb_neq. lia.
Qed.

Lemma rela_range_step count addr mem s mem' s' ok :
  rela_range m registry count addr mem s = Some (mem', s', ok) -> 0 <= count ->
  counted s -> total s + count < two64 ->
  counted s' /\ total s' <= total s + count /\ failed s <= failed s' /\
  ok = (failed s' =? failed s) /\ confined m mem mem'.
Proof.
  intros E H0 Hc Ht. unfold rela_range in E. destruct (_ || _) eqn:Ez.
  - simplify_eq. split_and!; [done|lia|lia|by rewrite Z.eqb_refl|apply confined_refl].
  - destruct (applyRelaRange_step _ _ _ _ _ _ _ _ E Hc ltac:(lia)) as (? & ? & ? & ? & ?).
    split_and!; [done|lia|done|done|done].
Qed.

Lemma last_dyn_elem tags dyns v :
  last_dyn tags dyns = Some v -> exists d, d ∈ dyns /\ d_val d = v.
Proof.
  unfold last_dyn. assert (forall acc, foldl (fun acc d => if bool_decide (d_tag d ∈ tags)
    then Some (d_val d) else acc) acc dyns = Some v -> acc = Some v \/ exists d, d ∈ dyns /\ d_val d = v) as H.
  { induction dyns as [|d dyns IH]; intros acc; simpl; [by left|].
    intros [Ha|(d' & ? & ?)]%IH; [|right; exists d'; split; [by right|done]].
    case_bool_decide; simplify_eq; [right; exists d; split; [by left|done]|by left]. }
  intros [?|?]%H; [done|done].
Qed.

Lemma dyn_value_range tags :
  Forall (fun d => in_width 64 (d_val d)) (m_dynamics m) ->
  0 <= default 0 (last_dyn tags (m_dynamics m)) < 2 ^ 64.
Proof.
  intros Hd. destruct (last_dyn tags (m_dynamics m)) as [v|] eqn:El; simpl; [|lia].
  apply last_dyn_elem in El as (d & Hin & <-). rewrite Forall_forall in Hd. by apply Hd.
Qed.

Lemma apply_jmprel_step mem s mem' s' ok :
  Forall (fun d => in_width 64 (d_val d)) (m_dynamics m) ->
  counted s -> 0 <= total s < 2 ^ 62 ->
  apply_jmprel m registry (mem, s, failed s =? 0) = Some (mem', s', ok) ->
  counted s' /\ ok = (failed s' =? 0) /\ confined m mem mem'.
Proof.
  intros Hd Hc Ht. unfold apply_jmprel. pose proof (dyn_value_range [kDtPltRelSz] Hd) as Hp.
  set (pltrelsz := default 0 _) in *.
  destruct (last_dyn [kDtJmpRel] _);
    [|intros; simplify_eq; split_and!; [done|done|apply confined_refl]].
  destruct (pltrelsz =? 0); [intros; simplify_eq; split_and!; [done|done|apply confined_refl]|].
  intros ([[mem2 s2] ok2] & E2 & E3)%bind_Some. simplify_eq.
  destruct (rela_range_step _ _ _ _ _ _ _ E2) as (? & ? & ? & Hok2 & ?);
    [apply Z.div_pos; unfold rela_size; lia|done|unfold rela_size, two64; dm_lia|].
  split; [done|]. split; [|done].
  pose proof (cnt_failed _ Hc). pose proof (cnt_pos _ Hc). rewrite Hok2.
  destruct (failed s' =? failed s) eqn:?, (failed s =? 0) eqn:?, (failed s' =? 0) eqn:?; lia.
Qed.

Lemma no_stats_counted : counted no_stats.
Proof. constructor; simpl; lia. Qed.

End Lemmas.

(** ** Symbol lookup and TLS lemmas *)
Section LookupLemmas.

Lemma lookup_loop_spec n mem m name i a :
  lookup_loop n mem m name i = Some a ->
  (exists j s, i <= j < i + Z.of_nat n /\ exports mem m name j s /\ a = u64 (st_value s + m_delta m) /\
     forall k s', i <= k < j -> ~ exports mem m name k s') \/
  (a = 0 /\ forall k s', i <= k < i + Z.of_nat n -> ~ exports mem m name k s').
Proof.
  revert i. induction n as [|n IH]; intros i E; simpl in E.
  { simplify_eq. right. split; [done|]. intros; lia. }
  apply bind_Some in E as (s & Hs & E).
  assert ((forall s', ~ exports mem m name i s') -> lookup_loop n mem m name (i + 1) = Some a ->
    (exists j s, i <= j < i + Z.of_nat (S n) /\ exports mem m name j s /\ a = u64 (st_value s + m_delta m) /\
       forall k s', i <= k < j -> ~ exports mem m name k s') \/
    (a = 0 /\ forall k s', i <= k < i + Z.of_nat (S n) -> ~ exports mem m name k s')) as Hnext.
  { intros Hno E'. destruct (IH _ E') as [(j & sj & ? & ? & ? & Hk)|[? Hk]].
    - left. exists j, sj. split_and!; [lia|lia|done|done|]. intros k s' ?.
      destruct (decide (k = i)) as [->|?]; [done|apply Hk; lia].
    - right. split; [done|]. intros k s' ?. destruct (decide (k = i)) as [->|?]; [done|apply Hk; lia]. }
  destruct (_ || _) eqn:Eu.
  { apply Hnext; [|done]. intros s' (Hs' & ? & ? & _). rewrite Hs in Hs'. simplify_eq. lia. }
  apply bind_Some in E as (symName & Hn & E). case_bool_decide as Hname.
  - simplify_eq. left. exists i, s. split_and!; [lia|lia| |done|intros; lia].
    apply orb_false_iff in Eu as [? ?]. split_and!; [done|lia|lia|done].
  - apply Hnext; [|done]. intros s' (Hs' & _ & _ & Hn'). rewrite Hs in Hs'. simplify_eq.
Qed.

Lemma align_up_tail memsz k :
  0 <= memsz <= 2 ^ 40 -> 0 <= k <= 20 ->
  memsz <= align_up memsz (2 ^ k) < memsz + 2 ^ k /\ align_up memsz (2 ^ k) mod 2 ^ k = 0 /\ 2 ^ k <= 2 ^ 20.
Proof.
  intros Hm Hk. assert (2 ^ k <= 2 ^ 20) by (apply Z.pow_le_mono_r; lia).
  pose proof (align_up_spec memsz k). unfold two64 in *. lia.
Qed.

End LookupLemmas.

Section ApplyAll.

Lemma applyAll_facts m registry mem mem' s ok :
  segments_wf m -> Forall (fun d => in_width 64 (d_val d)) (m_dynamics m) ->
  applyAll m registry mem = Some (mem', s, ok) ->
  counted s /\
  (if unsupported_rela m then ok = false /\ s = no_stats /\ mem' = mem else ok = (failed s =? 0)) /\
  confined m mem mem'.
Proof.
  intros Hs Hd E. unfold applyAll in E. unfold unsupported_rela. cbv zeta.
  pose proof (dyn_value_range m [kDtRelaSz; kDtSceRelaSz] Hd) as Hr.
  set (relaSize := default 0 (last_dyn [kDtRelaSz; kDtSceRelaSz] _)) in *.
  assert (apply_jmprel m registry (mem, no_stats, true) = Some (mem', s, ok) ->
    counted s /\ ok = (failed s =? 0) /\ confined m mem mem') as Hnone
    by (apply (apply_jmprel_step m registry Hs mem no_stats); [done|apply no_stats_counted|simpl; lia]).
  destruct (last_dyn [kDtRela; kDtSceRela] _) as [relaAddr|]; [|by apply Hnone].
  destruct (relaSize =? 0); [by apply Hnone|]. change (Z.of_nat rela_size) with 24 in E. simpl.
  destruct (negb _) eqn:Ee.
  { simplify_eq. split_and!; [apply no_stats_counted|done..|apply confined_refl]. }
  apply negb_false_iff, Z.eqb_eq in Ee. rewrite Ee in E.
  apply bind_Some in E as ([[mem1 s1] ok1] & E1 & E).
  destruct (rela_range_step m registry Hs _ _ _ _ _ _ _ E1) as (Hc1 & Ht1 & _ & -> & Hm1);
    [apply Z.div_pos; unfold rela_size; lia|apply no_stats_counted|unfold rela_size, two64; simpl; dm_lia|].
  pose proof (cnt_total _ Hc1). pose proof (cnt_pos _ Hc1). pose proof (cnt_failed _ Hc1).
  apply (apply_jmprel_step m registry Hs) in E as (? & ? & ?);
    [|done|done|unfold rela_size in *; simpl in *; dm_lia].
  split_and!; [done|done|by eapply confined_trans].
Qed.

End ApplyAll.

(** ** Properties *)
Section Properties.

(** C6: applying all relocations of a module changes memory only in its
    writable segments (and the 7 bytes an 8-byte store at a segment's last byte
    can reach after it) and keeps the counters consistent. A RELA table whose
    entry size is not that of [Elf64_Rela] answers false with nothing counted
    and nothing written; any other module answers true exactly when no
    relocation failed. The segments of the module do not wrap around the
    address space, its dynamic values are 64-bit, and no access faults. *)
Theorem applyAll_sound m registry mem mem' s ok :
  segments_wf m -> Forall (fun d => in_width 64 (d_val d)) (m_dynamics m) ->
  applyAll m registry mem = Some (mem', s, ok) ->
  counted s /\
  (if unsupported_rela m then ok = false /\ s = no_stats /\ mem' = mem else ok = (failed s =? 0)) /\
  confined m mem mem'.
Proof. apply applyAll_facts. Qed.

(** A relocation that succeeds stores the value the ABI gives its type:
    B + A for RELATIVE, S + A for 64, S for GLOB_DAT and JUMP_SLOT with S the
    resolved, non-zero symbol value, all modulo 2^64; NONE stores nothing; and
    no other type succeeds. *)
Theorem relocation_values m registry mem r s mem' s' :
  applyOne m registry mem r s = Some (mem', s', true) ->
  let type := elfRelType (r_info r) in
  let stored v := readU64 mem' (relocate m (r_offset r)) = Some (u64 v) in
  (type = kRX86_64None /\ mem' = mem) \/
  (type = kRX86_64Relative /\ stored (m_delta m + r_addend r)) \/
  exists S, symbol_value m registry mem (elfRelSym (r_info r)) = Some S /\ S <> 0 /\
    ((type = kRX86_64_64 /\ stored (S + r_addend r)) \/
     ((type = kRX86_64GlobDat \/ type = kRX86_64JumpSlot) /\ stored S)).
Proof.
  intros E type stored. unfold applyOne in E. fold type in E.
  destruct (negb _); [done|].
  destruct (type =? kRX86_64None) eqn:T0; [left; simplify_eq; split; [lia|done]|].
  destruct (type =? kRX86_64Relative) eqn:T1.
  { apply bind_Some in E as (mem1 & Hw & E). simplify_eq. right. left. split; [lia|].
    apply writeU64_inv in Hw as [Hw _]. unfold stored. by rewrite Hw, wrap_wrap. }
  right. right.
  destruct (type =? kRX86_64_64) eqn:T2.
  { apply bind_Some in E as (S & HS & E). destruct (S =? 0) eqn:E0; [done|].
    apply bind_Some in E as (mem1 & Hw & E). simplify_eq. exists S. split; [done|]. split; [lia|].
    left. split; [lia|]. apply writeU64_inv in Hw as [Hw _]. unfold stored. rewrite Hw. f_equal.
    unfold wrap. by rewrite Zmod_mod, Zplus_mod_idemp_r. }
  destruct (_ || _) eqn:T3; [|done].
  apply bind_Some in E as (S & HS & E). destruct (S =? 0) eqn:E0; [done|].
  apply bind_Some in E as (mem1 & Hw & E). simplify_eq. exists S. split; [done|]. split; [lia|].
  right. split; [lia|]. by apply writeU64_inv in Hw as [Hw _].
Qed.

(** A module of one writable segment of [memsz] bytes at 0x1000. *)
Definition demo_module (memsz : Z) : Module_ :=
  appendSegment (mkLoaded 0x1000 0 memsz 6) new_module.
Definition demo_memory : Memory := store_bytes ∅ 0x1000 (replicate 16 0xFF).

Lemma relocation_values_witness :
  exists mem' s', applyOne (demo_module 16) ∅ demo_memory (mkRela 0x1000 8 5) no_stats = Some (mem', s', true) /\
    readU64 mem' 0x1000 = Some 5.
Proof.
  assert (P : snd <$> applyOne (demo_module 16) ∅ demo_memory (mkRela 0x1000 8 5) no_stats = Some true)
    by (vm_compute; reflexivity).
  destruct (applyOne (demo_module 16) ∅ demo_memory (mkRela 0x1000 8 5) no_stats) as [[[mem' s'] ok]|] eqn:E;
    [|discriminate P].
  injection P as ->. exists mem', s'. split; [reflexivity|].
  destruct (relocation_values _ _ _ _ _ _ _ E) as [[H _]|[[_ H]|(S & _ & _ & [[H _]|[[H|H] _]])]];
    [discriminate H| |discriminate H..].
  exact H.
Defined.

(** A module that relocates its own first word. *)
Definition reloc_module : Module_ :=
  mkModule (cstr "m") None [mkLoaded 0x1000 0 64 6] [mkDyn kDtRela 0x1020; mkDyn kDtRelaSz 24] 0 0 0 0
    TlsBlock.reset 0 0 0.
Definition reloc_memory : Memory :=
  store_bytes ∅ 0x1000 (replicate 32 0 ++ le_encode 8 0x1000 ++ le_encode 8 8 ++ le_encode 8 7 ++ replicate 8 0).

Lemma applyAll_sound_witness :
  exists mem' s, applyAll reloc_module ∅ reloc_memory = Some (mem', s, true) /\
    relative s = 1 /\ failed s = 0.
Proof.
  assert (P : match applyAll reloc_module ∅ reloc_memory with
              | Some (_, s, ok) => Some (relative s, ok) | None => None end = Some (1, true))
    by (vm_compute; reflexivity).
  destruct (applyAll reloc_module ∅ reloc_memory) as [[[mem' s] ok]|] eqn:E; [|discriminate P].
  injection P as Hr ->. exists mem', s. split; [reflexivity|]. split; [exact Hr|].
  assert (true = (failed s =? 0)) as Hf; [|by apply Z.eqb_eq].
  apply (applyAll_sound reloc_module ∅ reloc_memory mem' s true); [| |exact E].
  - apply Forall_singleton. unfold two64. simpl. lia.
  - apply Forall_cons_2; [unfold in_width; simpl; lia|].
    apply Forall_cons_2; [unfold in_width; simpl; lia|]. apply Forall_nil_2.
Defined.

(** The check looks at the first byte of a relocation only: with a
    writable segment of 4 bytes, a relocation at its start succeeds and
    overwrites 4 bytes that belong to no segment of the module. *)
Theorem relocation_spills :
  exists mem' s', applyOne (demo_module 4) ∅ demo_memory (mkRela 0x1000 8 5) no_stats = Some (mem', s', true) /\
    isWritableAddress (demo_module 4) 0x1004 = false /\
    demo_memory !! 0x1004 = Some 0xFF /\ mem' !! 0x1004 = Some 0.
Proof. do 2 eexists. split; [reflexivity|]. by split_and!; vm_compute. Qed.

(** A symbol lookup that does not fault finds the first entry of the
    table that defines the name (undefined and nameless entries are skipped)
    and answers its value shifted by the module's load offset; it answers 0
    when there is no such entry. *)
Theorem lookupExport_first mem m name a :
  m_dynsym m <> 0 -> m_dynstr m <> 0 -> 0 < m_dynsymCount m ->
  lookupExport mem m name = Some a ->
  (exists i s, 0 <= i < m_dynsymCount m /\ exports mem m name i s /\ a = u64 (st_value s + m_delta m) /\
     forall k s', 0 <= k < i -> ~ exports mem m name k s') \/
  (a = 0 /\ forall k s', 0 <= k < m_dynsymCount m -> ~ exports mem m name k s').
Proof.
  intros H1 H2 H3 E. unfold lookupExport in E.
  rewrite (proj2 (Z.eqb_neq _ _) H1), (proj2 (Z.eqb_neq _ _) H2) in E.
  rewrite (proj2 (Z.eqb_neq (m_dynsymCount m) 0)) in E by lia.
  apply lookup_loop_spec in E. rewrite Z2Nat.id in E by lia. exact E.
Qed.

(** Two symbols at 0x2000 (the null entry, and "f" = 0x40), names at 0x2030. *)
Definition sym_memory : Memory :=
  store_bytes ∅ 0x2000 (replicate 24 0 ++
    le_encode 4 1 ++ [0x12; 0] ++ le_encode 2 1 ++ le_encode 8 0x40 ++ le_encode 8 0 ++
    [0; 102; 0]).
Definition sym_module (dyns : list Elf64_Dyn) (count : Z) : Module_ :=
  mkModule (cstr "lib") None [] dyns 0 0x1000 0x1000 0 TlsBlock.reset 0x2000 0x2030 count.

Lemma lookupExport_first_witness :
  exists i s, exports sym_memory (sym_module [] 2) (cstr "f") i s /\ u64 (st_value s + 0x1000) = 0x1040.
Proof.
  destruct (lookupExport_first sym_memory (sym_module [] 2) (cstr "f") 0x1040) as [(i & s & _ & H & Ha & _)|[H _]];
    [discriminate|discriminate|reflexivity|vm_compute; reflexivity| |discriminate H].
  exists i, s. split; [exact H|]. symmetry. exact Ha.
Defined.

(** Tag 11 is DT_SYMENT in the ELF standard, the size of one symbol (24),
    but the loader takes it as the size of the table: for every image with a
    standard dynamic section the table is thought to have one entry, the
    mandatory null symbol, and no export is ever found. *)
Theorem dt_syment_hides_exports mem m m' name s0 :
  last_dyn [kDtSymtabSz; kDtSceSymtabSz] (m_dynamics m) = Some 24 ->
  populateSymbolTableFromDynamic mem m = Some m' ->
  m_dynsymCount m' <> 0 ->
  read_sym_at mem (u64 (m_dynsym m')) = Some s0 -> st_shndx s0 = kShnUndef ->
  m_dynsymCount m' = 1 /\ lookupExport mem m' name = Some 0.
Proof.
  intros Hsz E Hc Hs H0. unfold populateSymbolTableFromDynamic in E. rewrite Hsz in E.
  destruct (last_dyn [kDtSymtab; kDtSceSymtab] _) as [symVal|],
    (last_dyn [kDtStrtab; kDtSceStrtab] (m_dynamics m)) as [strVal|];
    [|by injection E as <-..].
  injection E as <-. simpl in Hs |- *. split; [done|]. unfold lookupExport. simpl. destruct (_ || _); [done|].
  change (Z.to_nat 1) with 1%nat. cbn [lookup_loop]. simpl m_dynsym. rewrite Z.add_0_r, Hs. simpl.
  by rewrite H0.
Qed.

Lemma dt_syment_hides_exports_witness :
  exists m', populateSymbolTableFromDynamic sym_memory
      (sym_module [mkDyn kDtSymtab 0x1000; mkDyn kDtStrtab 0x1030; mkDyn 11 24] 0) = Some m' /\
    lookupExport sym_memory m' (cstr "f") = Some 0 /\
    lookupExport sym_memory (sym_module [] 2) (cstr "f") = Some 0x1040.
Proof.
  eexists. split; [reflexivity|]. split; [|vm_compute; reflexivity].
  eapply (proj2 (dt_syment_hides_exports sym_memory
    (sym_module [mkDyn kDtSymtab 0x1000; mkDyn kDtStrtab 0x1030; mkDyn 11 24] 0) _ (cstr "f")
    (mkSym 0 0 0 0 0 0) eq_refl eq_refl _ _ _)).
Unshelve.
  all: vm_compute; first [reflexivity|discriminate].
Defined.

(** For a power-of-two alignment and a template that fits, the TLS block
    holds the template followed by zeros, is a whole number of pages, and a
    thread's image ends its data exactly at a TCB whose first word points at
    itself; but a template longer than the block (filesz > memsz, which nothing
    checks) is copied past the end of the buffer. *)
Theorem tls_layout src filesz memsz k host :
  0 < memsz <= 2 ^ 40 -> 0 < filesz -> filesz <= Z.of_nat (length src) -> 0 <= k <= 20 ->
  0 <= host < 2 ^ 62 ->
  match TlsBlock.configure (Some src) filesz memsz (2 ^ k) with
  | Some t => filesz <= memsz /\
      TlsBlock.m_bytes t = take (Z.to_nat filesz) src ++ replicate (Z.to_nat (memsz - filesz)) 0 /\
      TlsBlock.m_blockSize t mod 0x1000 = 0 /\
      let '(img, tcb) := TlsBlock.thread_image t host in
      Z.of_nat (length img) = TlsBlock.m_blockSize t /\ host + memsz <= tcb /\ tcb mod 2 ^ k = host mod 2 ^ k /\
      field img (Z.to_nat (tcb - host)) 8 = tcb /\
      take (Z.to_nat memsz) (drop (Z.to_nat (tcb - host - memsz)) img) = TlsBlock.m_bytes t
  | None => memsz < filesz
  end.
Proof.
  intros Hm Hf Hsrc Hk Hh. unfold TlsBlock.configure.
  assert (0 < 2 ^ k) by lia.
  rewrite (proj2 (Z.eqb_neq memsz 0)), (proj2 (Z.eqb_neq (2 ^ k) 0)), (proj2 (Z.leb_gt filesz 0)) by lia.
  destruct (memsz <? filesz) eqn:E; [lia|].
  unfold slice. rewrite decide_True by lia. rewrite drop_0.
  cbn [mbind option_bind TlsBlock.m_bytes TlsBlock.m_blockSize].
  unfold TlsBlock.thread_image. cbn [TlsBlock.m_bytes TlsBlock.m_blockSize TlsBlock.m_memsz TlsBlock.m_align].
  destruct (align_up_tail memsz k ltac:(lia) Hk) as (Ht & Hmod & Hk20).
  set (tail := align_up memsz (2 ^ k)) in *.
  assert (u64 (tail + TlsBlock.kTcbSize) = tail + 64) as Hu
    by (apply wrap_id; unfold in_width, TlsBlock.kTcbSize; lia).
  rewrite Hu. destruct (align_up_spec (tail + 64) 12) as [Hb Hbm]; [lia|lia|unfold two64; lia|].
  change (2 ^ 12) with 0x1000 in *. unfold TlsBlock.kPageSize. set (block := align_up (tail + 64) 0x1000) in *.
  assert (length (take (Z.to_nat filesz) src ++ drop (Z.to_nat filesz) (replicate (Z.to_nat memsz) 0)) =
    Z.to_nat memsz) as Hlen
    by (rewrite length_app, length_take, length_drop, length_replicate; lia).
  split; [lia|]. split; [by rewrite drop_replicate, Z2Nat.inj_sub by lia|]. split; [done|].
  set (bs := take _ src ++ _) in *. fold tail.
  replace (host + tail - host) with tail by lia. split_and!.
  - rewrite !length_app, !length_replicate, length_le_encode, Hlen. lia.
  - lia.
  - by rewrite Z.add_mod, Hmod, Z.add_0_r, Zmod_mod by lia.
  - rewrite app_assoc.
    replace (Z.to_nat tail) with (length (replicate (Z.to_nat (tail - memsz)) 0 ++ bs))
      by (rewrite length_app, length_replicate, Hlen; lia).
    apply field_le_encode. change (8 * Z.of_nat 8) with 64. lia.
  - rewrite drop_app_length' by (rewrite length_replicate; lia).
    by rewrite take_app_length' by lia.
Qed.

Lemma tls_layout_witness :
  let t := TlsBlock.mkTls true 5 4 0x1000 [1; 2; 0; 0; 0] in
  TlsBlock.configure (Some [1; 2]) 2 5 4 = Some t /\
  field (TlsBlock.thread_image t 0x10000).1 8 8 = 0x10008.
Proof.
  intros t. assert (E : TlsBlock.configure (Some [1; 2]) 2 5 (2 ^ 2) = Some t) by (vm_compute; reflexivity).
  split; [exact E|].
  pose proof (tls_layout [1; 2] 2 5 2 0x10000 ltac:(lia) ltac:(lia) ltac:(simpl; lia) ltac:(lia) ltac:(lia)) as H.
  rewrite E in H. exact (proj1 (proj2 (proj2 (proj2 (proj2 (proj2 (proj2 H))))))).
Defined.

End Properties.
