(* ===== verification/SaveContainer.v ===== *)
(** * Save containers

    [sce/savedata/SaveContainer.cpp]: the file format of saved games, its
    serializer and its parser.  A file is a list of bytes.  [deserialize]
    overwrites its output argument step by step, so a failure answers what was
    written so far; reading outside the buffer, or an allocation of more than the
    buffer's size for an entry, is the outcome [Faulted]. *)
From S2P Require Import Prelude.

(** ** CRC-32 *)
Definition crc_bit (crc : Z) : Z :=
  Z.lxor (Z.shiftr crc 1)
    (Z.land 0xEDB88320 (u32 (Z.lnot (u32 (Z.land crc 1 - 1))))).

Definition crc_byte (crc b : Z) : Z := Nat.iter 8 crc_bit (Z.lxor crc b).

Definition crc32 (data : bytes) : Z := u32 (Z.lnot (foldl crc_byte 0xFFFFFFFF data)).

(** ** Fixed-size strings *)

(** [copyStr] into a zeroed field of [cap] bytes. *)
Definition copyStr (cap : nat) (s : bytes) : bytes :=
  let n := Nat.min (cap - 1) (length s) in take n s ++ replicate (cap - n) 0.

Fixpoint readStr (src : bytes) : bytes :=
  match src with
  | [] => []
  | c :: rest => if c =? 0 then [] else c :: readStr rest
  end.

Module SaveContainer.

Definition kMagic : Z := 0x54414453.
Definition kVersion : Z := 1.

Record Entry := mkEntry { name : bytes; data : bytes; flags : Z }.

Record t := mkContainer {
  m_titleId : Z; m_titleName : bytes; m_subtitle : bytes; m_detail : bytes;
  m_createdAt : Z; m_modifiedAt : Z; m_entries : list Entry
}.
Definition empty : t := mkContainer 0 [] [] [] 0 0 [].

(** [now1] and [now2] are the clock readings of the two [nowMicros] calls; a
    null data pointer leaves the zeroes of [resize]. *)
Definition addEntry (nm : bytes) (src : option bytes) (size : nat) (fl now1 now2 : Z) (c : t) : t :=
  let d := match src with Some bs => take size bs | None => replicate size 0 end in
  mkContainer (m_titleId c) (m_titleName c) (m_subtitle c) (m_detail c)
    (if m_createdAt c =? 0 then now1 else m_createdAt c) now2 (m_entries c ++ [mkEntry nm d fl]).

Definition entry (c : t) (nm : bytes) : option Entry :=
  snd <$> list_find (fun e => name e = nm) (m_entries c).
Definition hasEntry (c : t) (nm : bytes) : bool := bool_decide (is_Some (entry c nm)).
Definition entryNames (c : t) : list bytes := name <$> m_entries c.

(** ** Serialization *)
Definition header_size : nat := 496.
Definition entry_size : nat := 88.

Definition entry_on_disk (offset : Z) (e : Entry) : bytes :=
  le_encode 8 (u64 offset) ++ le_encode 8 (u64 (Z.of_nat (length (data e)))) ++
  le_encode 4 (u32 (flags e)) ++ le_encode 4 0 ++ copyStr 64 (name e).

Fixpoint entries_on_disk (offset : Z) (es : list Entry) : bytes :=
  match es with
  | [] => []
  | e :: rest =>
      entry_on_disk offset e ++ entries_on_disk (u64 (offset + Z.of_nat (length (data e)))) rest
  end.

Definition payload_of (es : list Entry) : bytes := concat (data <$> es).

Definition header_on_disk (c : t) (payload : bytes) : bytes :=
  le_encode 4 kMagic ++ le_encode 4 kVersion ++ le_encode 8 (u64 (m_titleId c)) ++
  le_encode 8 (u64 (m_createdAt c)) ++ le_encode 8 (u64 (m_modifiedAt c)) ++
  le_encode 4 (u32 (Z.of_nat (length (m_entries c)))) ++ le_encode 4 0 ++
  copyStr 64 (m_titleName c) ++ copyStr 128 (m_subtitle c) ++ copyStr 256 (m_detail c) ++
  le_encode 4 (u32 (Z.of_nat (length payload))) ++ le_encode 4 (crc32 payload).

Definition serialize (c : t) : bytes :=
  let payload := payload_of (m_entries c) in
  header_on_disk c payload ++ entries_on_disk 0 (m_entries c) ++ payload.

(** ** Parsing *)
Inductive Result := Failed (out : t) | Faulted | Succeeded (out : t).

Definition sub (bs : bytes) (off n : nat) : bytes := take n (drop off bs).

(** The bytes at [payload + offset]: the sum of pointer and offset wraps. *)
Definition payload_read (bs : bytes) (payloadAt offset size : Z) : option bytes :=
  let at_ := payloadAt + i64 offset in
  if (0 <=? at_) && (at_ + size <=? Z.of_nat (length bs))
  then Some (take (Z.to_nat size) (drop (Z.to_nat at_) bs)) else None.

Definition add_parsed (c : t) (e : Entry) : t :=
  mkContainer (m_titleId c) (m_titleName c) (m_subtitle c) (m_detail c) (m_createdAt c)
    (m_modifiedAt c) (m_entries c ++ [e]).

Fixpoint parse_entries (n : nat) (bs : bytes) (at_ : nat) (payloadAt payloadSize : Z) (out : t) : Result :=
  match n with
  | O => Succeeded out
  | S n' =>
      let ed := sub bs at_ entry_size in
      let offset := field ed 0 8 in
      let size := field ed 8 8 in
      if payloadSize <? u64 (offset + size) then Failed out
      else
        match (if size =? 0 then Some [] else payload_read bs payloadAt offset size) with
        | None => Faulted
        | Some d =>
            parse_entries n' bs (at_ + entry_size) payloadAt payloadSize
              (add_parsed out (mkEntry (readStr (sub ed 24 64)) d (field ed 16 4)))
        end
  end.

Definition deserialize (bs : bytes) (out0 : t) : Result :=
  if (length bs <? header_size)%nat then Failed out0
  else if negb (field bs 0 4 =? kMagic) then Failed out0
  else if negb (field bs 4 4 =? kVersion) then Failed out0
  else
    let entryCount := field bs 32 4 in
    let payloadSize := field bs 488 4 in
    let entriesBytes := u64 (entryCount * Z.of_nat entry_size) in
    if Z.of_nat (length bs) <? u64 (Z.of_nat header_size + entriesBytes + payloadSize) then Failed out0
    else
      let out := mkContainer (field bs 8 8) (readStr (sub bs 40 64)) (readStr (sub bs 104 128))
                   (readStr (sub bs 232 256)) (field bs 16 8) (field bs 24 8) [] in
      let payloadAt := Z.of_nat header_size + entriesBytes in
      if negb (crc32 (sub bs (Z.to_nat payloadAt) (Z.to_nat payloadSize)) =? field bs 492 4)
      then Failed out
      else parse_entries (Z.to_nat entryCount) bs header_size payloadAt payloadSize out.

(** ** Well-formed containers: what the fixed-size fields can carry *)
Definition string_fits (cap : nat) (s : bytes) : Prop :=
  (length s < cap)%nat /\ Forall (fun c => c <> 0) s.

Record wf (c : t) : Prop := mkWf {
  wf_ids : Forall (in_width 64) [m_titleId c; m_createdAt c; m_modifiedAt c];
  wf_title : string_fits 64 (m_titleName c);
  wf_subtitle : string_fits 128 (m_subtitle c);
  wf_detail : string_fits 256 (m_detail c);
  wf_count : Z.of_nat (length (m_entries c)) < 2 ^ 32;
  wf_payload : Z.of_nat (length (payload_of (m_entries c))) < 2 ^ 32;
  wf_entries : Forall (fun e => string_fits 64 (name e) /\ in_width 32 (flags e)) (m_entries c)
}.

End SaveContainer.

(** ** Lemmas *)
Section Crc.

Lemma crc_bit_cases crc :
  crc_bit crc = Z.lxor (Z.shiftr crc 1) (if Z.testbit crc 0 then 0xEDB88320 else 0).
Proof.
  unfold crc_bit. f_equal. pose proof (Z.land_ones crc 1 ltac:(lia)) as E.
  change (Z.ones 1) with 1 in E. rewrite E. change (2 ^ 1) with 2.
  rewrite <- Z.bit0_mod. by destruct (Z.testbit crc 0).
Qed.

Lemma crc_bit_range crc : in_width 32 crc -> in_width 32 (crc_bit crc).
Proof.
  intros H. rewrite crc_bit_cases. unfold in_width in *.
  assert (0 <= Z.shiftr crc 1 < 2 ^ 31) by (rewrite Z.shiftr_div_pow2 by lia; dm_lia).
  split; [apply Z.lxor_nonneg; destruct (Z.testbit crc 0); lia|].
  destruct (decide (0 < Z.lxor (Z.shiftr crc 1) (if Z.testbit crc 0 then 0xEDB88320 else 0))) as [Hp|]; [|lia].
  apply Z.log2_lt_pow2; [done|].
  eapply Z.le_lt_trans; [apply Z.log2_lxor; destruct (Z.testbit crc 0); lia|].
  apply Z.max_lub_lt; [|by destruct (Z.testbit crc 0)].
  destruct (decide (0 < Z.shiftr crc 1)); [apply Z.log2_lt_pow2; lia|].
  by replace (Z.shiftr crc 1) with 0 by lia.
Qed.

(** One step loses nothing: the bit shifted out is the top bit of the result. *)
Lemma crc_bit_inj a b : in_width 32 a -> in_width 32 b -> crc_bit a = crc_bit b -> a = b.
Proof.
  intros Ha Hb. rewrite !crc_bit_cases. unfold in_width in *. intros H.
  assert (forall x, 0 <= x < 2 ^ 32 -> Z.testbit (Z.shiftr x 1) 31 = false) as Htop.
  { intros x Hx. rewrite Z.shiftr_spec by lia. apply Z.testbit_false; [lia|].
    rewrite Z.div_small; [done|]. change (31 + 1) with 32. lia. }
  assert (Z.testbit a 0 = Z.testbit b 0) as H0.
  { assert (Z.testbit (Z.lxor (Z.shiftr a 1) (if Z.testbit a 0 then 0xEDB88320 else 0)) 31 =
      Z.testbit (Z.lxor (Z.shiftr b 1) (if Z.testbit b 0 then 0xEDB88320 else 0)) 31) as H31 by (by rewrite H).
    rewrite !Z.lxor_spec, !Htop in H31 by done.
    by destruct (Z.testbit a 0), (Z.testbit b 0). }
  rewrite H0 in H.
  assert (Z.shiftr a 1 = Z.shiftr b 1) as Hs.
  { rewrite <- (Z.lxor_0_r (Z.shiftr a 1)), <- (Z.lxor_0_r (Z.shiftr b 1)).
    rewrite <- (Z.lxor_nilpotent (if Z.testbit b 0 then 0xEDB88320 else 0)).
    rewrite <- !Z.lxor_assoc. by rewrite H. }
  apply Z.bits_inj'. intros n Hn. destruct (decide (n = 0)) as [->|?]; [done|].
  replace n with ((n - 1) + 1) by lia. rewrite <- !Z.shiftr_spec by lia. by rewrite Hs.
Qed.

Lemma lxor_byte_range crc b : in_width 32 crc -> is_byte b -> in_width 32 (Z.lxor crc b).
Proof.
  unfold in_width, is_byte. intros Hc Hb. split; [apply Z.lxor_nonneg; lia|].
  destruct (decide (0 < Z.lxor crc b)); [|lia]. apply Z.log2_lt_pow2; [done|].
  eapply Z.le_lt_trans; [apply Z.log2_lxor; lia|]. apply Z.max_lub_lt.
  - destruct (decide (0 < crc)); [apply Z.log2_lt_pow2; lia|]. by replace crc with 0 by lia.
  - destruct (decide (0 < b)); [apply Z.log2_lt_pow2; lia|]. by replace b with 0 by lia.
Qed.

Lemma crc_iter n a b :
  in_width 32 a -> in_width 32 b ->
  in_width 32 (Nat.iter n crc_bit a) /\ (Nat.iter n crc_bit a = Nat.iter n crc_bit b -> a = b).
Proof.
  intros Ha Hb. assert (forall x, in_width 32 x -> in_width 32 (Nat.iter n crc_bit x)) as Hr.
  { intros x Hx. induction n; simpl; [done|]. by apply crc_bit_range. }
  split; [by apply Hr|]. clear Hr. induction n as [|n IH]; simpl; [done|]. intros H. apply IH.
  apply crc_bit_inj; [| |done]; clear -Ha Hb; induction n; simpl; auto using crc_bit_range.
Qed.

Lemma crc_byte_range crc b : in_width 32 crc -> is_byte b -> in_width 32 (crc_byte crc b).
Proof.
  intros Hc Hb. pose proof (lxor_byte_range _ _ Hc Hb). by apply (crc_iter 8 _ (Z.lxor crc b)).
Qed.

(** A byte of the message, and the state before it, can be recovered. *)
Lemma crc_byte_inj c1 c2 b1 b2 :
  in_width 32 c1 -> in_width 32 c2 -> is_byte b1 -> is_byte b2 ->
  crc_byte c1 b1 = crc_byte c2 b2 -> Z.lxor c1 b1 = Z.lxor c2 b2.
Proof.
  intros H1 H2 Hb1 Hb2. unfold crc_byte.
  exact (proj2 (crc_iter 8 _ _ (lxor_byte_range _ _ H1 Hb1) (lxor_byte_range _ _ H2 Hb2))).
Qed.

Lemma lxor_cancel_l a b c : Z.lxor a b = Z.lxor a c -> b = c.
Proof.
  intros H. rewrite <- (Z.lxor_0_l b), <- (Z.lxor_0_l c), <- (Z.lxor_nilpotent a).
  by rewrite !Z.lxor_assoc, H.
Qed.

Lemma lxor_cancel_r a b c : Z.lxor a c = Z.lxor b c -> a = b.
Proof. rewrite !(Z.lxor_comm _ c). apply lxor_cancel_l. Qed.

Lemma crc_fold_range bs crc : in_width 32 crc -> Forall is_byte bs -> in_width 32 (foldl crc_byte crc bs).
Proof.
  intros Hc H. revert crc Hc. induction H as [|b bs Hb _ IH]; intros crc Hc; simpl; [done|].
  apply IH. by apply crc_byte_range.
Qed.

Lemma crc_fold_inj bs c1 c2 :
  in_width 32 c1 -> in_width 32 c2 -> Forall is_byte bs ->
  foldl crc_byte c1 bs = foldl crc_byte c2 bs -> c1 = c2.
Proof.
  intros H1 H2 H. revert c1 c2 H1 H2. induction H as [|b bs Hb _ IH]; intros c1 c2 H1 H2 E; simpl in *; [done|].
  apply IH in E; [|by apply crc_byte_range..].
  apply crc_byte_inj in E; [|done..]. by apply lxor_cancel_r in E.
Qed.

(** Messages that differ in exactly one byte have different checksums. *)
Lemma crc32_one_byte pre b1 b2 post :
  Forall is_byte (pre ++ b1 :: post) -> is_byte b2 -> b1 <> b2 ->
  crc32 (pre ++ b1 :: post) <> crc32 (pre ++ b2 :: post).
Proof.
  intros [Hpre [Hb1 Hpost]%Forall_cons]%Forall_app Hb2 Hne E. unfold crc32 in E. rewrite !foldl_app in E.
  assert (in_width 32 0xFFFFFFFF) as Hi by (unfold in_width; lia).
  pose proof (crc_fold_range pre _ Hi Hpre) as Hc. set (c := foldl crc_byte _ pre) in *. simpl in E.
  pose proof (crc_fold_range post _ (crc_byte_range c b1 Hc Hb1) Hpost) as R1.
  pose proof (crc_fold_range post _ (crc_byte_range c b2 Hc Hb2) Hpost) as R2.
  apply Hne, (lxor_cancel_l c), crc_byte_inj; [done..|].
  apply (crc_fold_inj post); [by apply crc_byte_range..|done|].
  unfold wrap, in_width, Z.lnot in *. dm_lia.
Qed.

End Crc.

Section Format.
Import SaveContainer.

Lemma sub_at bs a b c off n :
  bs = a ++ b ++ c -> length a = off -> length b = n -> sub bs off n = b.
Proof. intros -> <- <-. unfold sub. by rewrite drop_app_length, take_app_length. Qed.

Lemma field_sub bs off n : field bs off n = le_decode (sub bs off n).
Proof. done. Qed.

Lemma length_copyStr cap s : (0 < cap)%nat -> length (copyStr cap s) = cap.
Proof. intros. unfold copyStr. rewrite length_app, length_take, length_replicate. lia. Qed.

Lemma readStr_copyStr cap s : string_fits cap s -> readStr (copyStr cap s) = s.
Proof.
  intros [Hl Hz]. unfold copyStr. rewrite Nat.min_r, firstn_all by lia.
  assert (0 < cap - length s)%nat as Hp by lia. revert Hp. generalize (cap - length s)%nat as n.
  clear Hl. induction Hz as [|c s Hc _ IH]; intros n Hn; simpl.
  - by destruct n; [lia|].
  - destruct (c =? 0) eqn:E; [lia|]. by rewrite IH.
Qed.

Lemma length_entry_on_disk offset e : length (entry_on_disk offset e) = entry_size.
Proof. unfold entry_on_disk. rewrite !length_app, !length_le_encode, length_copyStr by lia. done. Qed.

Lemma length_entries_on_disk offset es : length (entries_on_disk offset es) = (length es * entry_size)%nat.
Proof.
  revert offset. induction es as [|e es IH]; intros offset; cbn [entries_on_disk length]; [done|].
  by rewrite length_app, length_entry_on_disk, IH.
Qed.

Lemma entry_fields offset e :
  string_fits 64 (name e) -> in_width 32 (flags e) ->
  let ed := entry_on_disk offset e in
  field ed 0 8 = u64 offset /\ field ed 8 8 = u64 (Z.of_nat (length (data e))) /\
  field ed 16 4 = flags e /\ readStr (sub ed 24 64) = name e.
Proof.
  intros Hn Hf ed. split_and!.
  - apply (le_decode_encode 8), (wrap_range 64). lia.
  - apply (le_decode_encode 8), (wrap_range 64). lia.
  - rewrite <- (wrap_id 32 (flags e) Hf) at 1. apply (le_decode_encode 4), (wrap_range 32). lia.
  - rewrite (sub_at ed (le_encode 8 (u64 offset) ++ le_encode 8 (u64 (Z.of_nat (length (data e)))) ++
      le_encode 4 (u32 (flags e)) ++ le_encode 4 0) (copyStr 64 (name e)) []);
      [by apply readStr_copyStr| |reflexivity|by apply length_copyStr; lia].
    unfold ed, entry_on_disk. by rewrite <- !app_assoc, app_nil_r.
Qed.

(** Parsing the descriptors the serializer wrote. *)
Lemma parse_entries_on_disk es : forall pre p1 out size,
  Forall (fun e => string_fits 64 (name e) /\ in_width 32 (flags e)) es ->
  Z.of_nat (length p1 + length (payload_of es)) = size -> size < 2 ^ 32 ->
  Z.of_nat (length pre + length es * entry_size) < 2 ^ 62 ->
  parse_entries (length es)
    (pre ++ entries_on_disk (Z.of_nat (length p1)) es ++ p1 ++ payload_of es) (length pre)
    (Z.of_nat (length pre + length es * entry_size)) size out
  = Succeeded (foldl add_parsed out es).
Proof.
  induction es as [|e es IH]; intros pre p1 out size Hes Hsize Hmax Hpre; [done|].
  apply Forall_cons in Hes as [[Hn Hf] Hes].
  cbn [length parse_entries entries_on_disk foldl] in Hpre |- *.
  unfold payload_of in *. cbn [fmap list_fmap concat] in *. fold (data <$> es) in *.
  rewrite length_app in Hsize.
  set (ents := entries_on_disk (u64 (Z.of_nat (length p1) + Z.of_nat (length (data e)))) es).
  set (bs := pre ++ (entry_on_disk (Z.of_nat (length p1)) e ++ ents) ++ p1 ++ data e ++ concat (data <$> es)).
  assert (Hed : sub bs (length pre) entry_size = entry_on_disk (Z.of_nat (length p1)) e).
  { eapply (sub_at bs pre _ (ents ++ p1 ++ data e ++ concat (data <$> es))); [|done|apply length_entry_on_disk].
    unfold bs. by rewrite <- !app_assoc. }
  rewrite Hed. destruct (entry_fields (Z.of_nat (length p1)) e Hn Hf) as (F0 & F8 & F16 & Fs).
  rewrite F0, F8, F16, Fs. clear F0 F8 F16 Fs.
  rewrite (wrap_id 64 (Z.of_nat (length p1))), (wrap_id 64 (Z.of_nat (length (data e)))),
    wrap_id by (unfold in_width; lia).
  rewrite (proj2 (Z.ltb_ge _ _)) by lia.
  assert (length ents = length es * entry_size)%nat as Hents by apply length_entries_on_disk.
  assert ((if Z.of_nat (length (data e)) =? 0 then Some []
    else payload_read bs (Z.of_nat (length pre + S (length es) * entry_size)) (Z.of_nat (length p1))
           (Z.of_nat (length (data e)))) = Some (data e)) as ->.
  { destruct (_ =? 0) eqn:E0; [by destruct (data e)|]. unfold payload_read.
    rewrite (swrap_id 64) by lia. rewrite (proj2 (andb_true_iff _ _)).
    2: { unfold bs. rewrite !length_app, length_entry_on_disk, Hents. unfold entry_size. lia. }
    f_equal. rewrite Nat2Z.id.
    apply (sub_at bs (pre ++ (entry_on_disk (Z.of_nat (length p1)) e ++ ents) ++ p1) (data e)
      (concat (data <$> es))); [unfold bs; by rewrite <- !app_assoc| |done].
    rewrite !length_app, length_entry_on_disk, Hents. unfold entry_size. lia. }
  specialize (IH (pre ++ entry_on_disk (Z.of_nat (length p1)) e) (p1 ++ data e)
    (add_parsed out (mkEntry (name e) (data e) (flags e))) size Hes).
  rewrite !length_app, length_entry_on_disk in IH.
  replace (length pre + S (length es) * entry_size)%nat
    with (length pre + entry_size + length es * entry_size)%nat by lia.
  assert (bs = (pre ++ entry_on_disk (Z.of_nat (length p1)) e) ++
    entries_on_disk (Z.of_nat (length p1 + length (data e))) es ++ (p1 ++ data e) ++ concat (data <$> es)) as ->.
  { unfold bs, ents. rewrite Nat2Z.inj_add, wrap_id by (unfold in_width; lia). by rewrite <- !app_assoc. }
  rewrite IH; [by destruct e|lia|lia|unfold entry_size in *; lia].
Qed.

Lemma foldl_add_parsed out es :
  foldl add_parsed out es =
    mkContainer (m_titleId out) (m_titleName out) (m_subtitle out) (m_detail out) (m_createdAt out)
      (m_modifiedAt out) (m_entries out ++ es).
Proof.
  revert out. induction es as [|e es IH]; intros out; simpl.
  - rewrite app_nil_r. by destruct out.
  - rewrite IH. simpl. by rewrite <- app_assoc.
Qed.

End Format.

Section Parse.
Import SaveContainer.

(** The fixed part of the header. *)
Definition header_ints (c : t) : bytes :=
  le_encode 4 kMagic ++ le_encode 4 kVersion ++ le_encode 8 (u64 (m_titleId c)) ++
  le_encode 8 (u64 (m_createdAt c)) ++ le_encode 8 (u64 (m_modifiedAt c)) ++
  le_encode 4 (u32 (Z.of_nat (length (m_entries c)))) ++ le_encode 4 0.

Lemma header_split c payload rest :
  header_on_disk c payload ++ rest =
    header_ints c ++ copyStr 64 (m_titleName c) ++ copyStr 128 (m_subtitle c) ++
    copyStr 256 (m_detail c) ++ le_encode 4 (u32 (Z.of_nat (length payload))) ++
    le_encode 4 (crc32 payload) ++ rest.
Proof. unfold header_on_disk, header_ints. by rewrite <- !app_assoc. Qed.

Lemma length_header_on_disk c payload : length (header_on_disk c payload) = header_size.
Proof.
  rewrite <- (app_nil_r (header_on_disk c payload)), header_split. unfold header_ints.
  rewrite !length_app, !length_le_encode, !length_copyStr by lia. done.
Qed.

Lemma header_int_fields c payload rest :
  wf c ->
  let bs := header_on_disk c payload ++ rest in
  field bs 0 4 = kMagic /\ field bs 4 4 = kVersion /\ field bs 8 8 = m_titleId c /\
  field bs 16 8 = m_createdAt c /\ field bs 24 8 = m_modifiedAt c /\
  field bs 32 4 = Z.of_nat (length (m_entries c)).
Proof.
  intros [Hids _ _ _ Hc _ _] bs. repeat (apply Forall_cons in Hids as [? Hids]).
  split_and!; try reflexivity.
  - rewrite <- (wrap_id 64 (m_titleId c)) by done. apply (le_decode_encode 8), (wrap_range 64). lia.
  - rewrite <- (wrap_id 64 (m_createdAt c)) by done. apply (le_decode_encode 8), (wrap_range 64). lia.
  - rewrite <- (wrap_id 64 (m_modifiedAt c)) by done. apply (le_decode_encode 8), (wrap_range 64). lia.
  - rewrite <- (wrap_id 32 (Z.of_nat (length (m_entries c)))) by (unfold in_width; lia).
    apply (le_decode_encode 4), (wrap_range 32). lia.
Qed.

Lemma header_string_fields c payload rest :
  wf c -> Z.of_nat (length payload) < 2 ^ 32 ->
  let bs := header_on_disk c payload ++ rest in
  readStr (sub bs 40 64) = m_titleName c /\ readStr (sub bs 104 128) = m_subtitle c /\
  readStr (sub bs 232 256) = m_detail c /\
  field bs 488 4 = Z.of_nat (length payload) /\ field bs 492 4 = crc32 payload.
Proof.
  intros [_ Ht Hs Hd _ _ _] Hp bs. unfold bs. rewrite header_split.
  set (A := header_ints c). assert (length A = 40%nat) as HA by reflexivity.
  pose proof (length_copyStr 64 (m_titleName c) ltac:(lia)) as HT.
  pose proof (length_copyStr 128 (m_subtitle c) ltac:(lia)) as HS.
  pose proof (length_copyStr 256 (m_detail c) ltac:(lia)) as HD.
  set (T := copyStr 64 _) in *. set (S := copyStr 128 _) in *. set (D := copyStr 256 _) in *.
  set (P := le_encode 4 (u32 (Z.of_nat (length payload)))). set (C := le_encode 4 (crc32 payload)).
  assert (length P = 4%nat /\ length C = 4%nat) as [HP HC] by done.
  assert (forall pre x post off n, A ++ T ++ S ++ D ++ P ++ C ++ rest = pre ++ x ++ post ->
    length pre = off -> length x = n -> sub (A ++ T ++ S ++ D ++ P ++ C ++ rest) off n = x) as Hsub
    by (intros; by eapply sub_at).
  rewrite !field_sub.
  rewrite (Hsub A T (S ++ D ++ P ++ C ++ rest)), (Hsub (A ++ T) S (D ++ P ++ C ++ rest)),
    (Hsub (A ++ T ++ S) D (P ++ C ++ rest)), (Hsub (A ++ T ++ S ++ D) P (C ++ rest)),
    (Hsub (A ++ T ++ S ++ D ++ P) C rest)
    by (rewrite ?length_app, ?HA, ?HT, ?HS, ?HD, ?HP, ?HC, <- ?app_assoc; reflexivity).
  unfold T, S, D, P, C. rewrite !readStr_copyStr by done. split_and!; try done.
  - rewrite wrap_id by (unfold in_width; lia). apply (le_decode_encode 4). change (8 * Z.of_nat 4) with 32. lia.
  - apply (le_decode_encode 4), (wrap_range 32). lia.
Qed.

(** A file with the header and descriptors of [c] and a payload of the announced
    length is parsed down to its checksum. *)
Lemma deserialize_checked c p out0 :
  wf c -> length p = length (payload_of (m_entries c)) ->
  let ents := entries_on_disk 0 (m_entries c) in
  let bs := header_on_disk c (payload_of (m_entries c)) ++ ents ++ p in
  let out := mkContainer (m_titleId c) (m_titleName c) (m_subtitle c) (m_detail c) (m_createdAt c)
               (m_modifiedAt c) [] in
  deserialize bs out0 =
    if crc32 p =? crc32 (payload_of (m_entries c))
    then parse_entries (length (m_entries c)) bs header_size
           (Z.of_nat (header_size + length (m_entries c) * entry_size)) (Z.of_nat (length p)) out
    else Failed out.
Proof.
  intros Hwf Hp ents bs out. pose proof (wf_count _ Hwf) as Hc. pose proof (wf_payload _ Hwf) as Hpl.
  destruct (header_int_fields c (payload_of (m_entries c)) (ents ++ p) Hwf) as (F0 & F4 & F8 & F16 & F24 & F32).
  destruct (header_string_fields c (payload_of (m_entries c)) (ents ++ p) Hwf Hpl) as (F40 & F104 & F232 & F488 & F492).
  fold bs in F0, F4, F8, F16, F24, F32, F40, F104, F232, F488, F492.
  assert (length ents = length (m_entries c) * entry_size)%nat as Hents by apply length_entries_on_disk.
  assert (length bs = header_size + length (m_entries c) * entry_size + length p)%nat as Hbs
    by (unfold bs; rewrite !length_app, length_header_on_disk, Hents; lia).
  unfold deserialize. rewrite (proj2 (Nat.ltb_ge _ _)) by lia.
  rewrite F0, F4, F8, F16, F24, F32, F40, F104, F232, F488, F492, !Z.eqb_refl. cbn [negb].
  assert (u64 (Z.of_nat (length (m_entries c)) * Z.of_nat entry_size) =
    Z.of_nat (length (m_entries c) * entry_size)) as ->
    by (rewrite Nat2Z.inj_mul; apply wrap_id; unfold in_width, entry_size; lia).
  rewrite <- Nat2Z.inj_add, wrap_id by (unfold in_width, header_size, entry_size; lia).
  rewrite (proj2 (Z.ltb_ge _ _)) by (rewrite Hbs, Hp; lia). rewrite !Nat2Z.id.
  assert (sub bs (header_size + length (m_entries c) * entry_size) (length (payload_of (m_entries c))) = p) as ->.
  { apply (sub_at bs (header_on_disk c (payload_of (m_entries c)) ++ ents) p []);
      [unfold bs; by rewrite <- app_assoc, app_nil_r|by rewrite length_app, length_header_on_disk, Hents|done]. }
  rewrite Hp. by destruct (crc32 p =? _).
Qed.

(** A file cut short fails the size checks. *)
Lemma deserialize_cut c k out0 :
  wf c -> (k < length (serialize c))%nat -> deserialize (take k (serialize c)) out0 = Failed out0.
Proof.
  intros Hwf Hk. pose proof (wf_count _ Hwf) as Hc. pose proof (wf_payload _ Hwf) as Hpl.
  unfold serialize in *. cbv zeta in *. set (P := payload_of (m_entries c)) in *.
  set (H := header_on_disk c P) in *. pose proof (length_header_on_disk c P) as HH. fold H in HH.
  rewrite !length_app, length_entries_on_disk in Hk. fold H in Hk. rewrite HH in Hk.
  unfold deserialize. destruct (length (take k _) <? header_size)%nat eqn:E; [done|].
  rewrite length_take in E. rewrite take_app, (take_ge H) by lia. rewrite HH.
  set (rest := take _ _). assert (length rest = (k - header_size))%nat as Hr.
  { unfold rest. rewrite length_take, length_app, length_entries_on_disk. lia. }
  destruct (header_int_fields c P rest Hwf) as (F0 & F4 & _ & _ & _ & F32).
  destruct (header_string_fields c P rest Hwf Hpl) as (_ & _ & _ & F488 & _).
  fold H in F0, F4, F32, F488. rewrite F0, F4, F32, F488, !Z.eqb_refl. cbn [negb].
  assert (u64 (Z.of_nat (length (m_entries c)) * Z.of_nat entry_size) =
    Z.of_nat (length (m_entries c) * entry_size)) as ->
    by (rewrite Nat2Z.inj_mul; apply wrap_id; unfold in_width, entry_size; lia).
  rewrite wrap_id by (unfold in_width, header_size, entry_size; lia).
  rewrite length_app, HH, Hr. destruct (_ <? _) eqn:E2; [done|lia].
Qed.

(** A file that starts with another magic is refused. *)
Lemma deserialize_magic bs out0 :
  (header_size <= length bs)%nat -> field bs 0 4 <> kMagic -> deserialize bs out0 = Failed out0.
Proof.
  intros Hl Hm. unfold deserialize. rewrite (proj2 (Nat.ltb_ge _ _)) by done.
  by rewrite (proj2 (Z.eqb_neq _ _)).
Qed.

End Parse.

(** ** Properties *)
Section Properties.
Import SaveContainer.

Definition demo_save : t :=
  mkContainer 0x4355534130303031 (cstr "Title") (cstr "Chapter 1") (cstr "detail") 10 20
    [mkEntry (cstr "slot0") [1; 2; 3] 7; mkEntry (cstr "slot1") [] 0; mkEntry (cstr "slot2") [255; 0] 1].

Lemma demo_save_wf : wf demo_save.
Proof.
  assert (forall cap s, (length s <? cap)%nat && forallb (fun c => negb (c =? 0)) s = true ->
    string_fits cap s) as Hfits.
  { intros cap s [Hl Hz]%andb_true_iff. split; [by apply Nat.ltb_lt|].
    apply forallb_Forall in Hz. eapply Forall_impl; [exact Hz|]. simpl. intros x Hx. lia. }
  constructor; try (apply Hfits; reflexivity); try reflexivity.
  - apply (bool_decide_unpack _). vm_compute. exact I.
  - repeat (apply Forall_cons_2; [split; [apply Hfits; reflexivity|apply (bool_decide_unpack _); vm_compute; exact I]|]).
    apply Forall_nil_2.
Qed.

(** What the serializer wrote is parsed back. *)
Lemma deserialize_serialize c out0 : wf c -> deserialize (serialize c) out0 = Succeeded c.
Proof.
  intros Hwf. unfold serialize. rewrite deserialize_checked by done. rewrite Z.eqb_refl.
  pose proof (parse_entries_on_disk (m_entries c) (header_on_disk c (payload_of (m_entries c))) []
    (mkContainer (m_titleId c) (m_titleName c) (m_subtitle c) (m_detail c) (m_createdAt c) (m_modifiedAt c) [])
    (Z.of_nat (length (payload_of (m_entries c)))) (wf_entries _ Hwf) eq_refl (wf_payload _ Hwf)) as H.
  rewrite length_header_on_disk, app_nil_l in H. change (Z.of_nat (length [])) with 0 in H.
  rewrite H, foldl_add_parsed; [by destruct c|].
  pose proof (wf_count _ Hwf). unfold header_size, entry_size. lia.
Qed.

(** Loading a saved container gives back exactly the container that was
    saved, for every container whose names fit their fields: metadata, entry
    names, flags and data in order. *)
Theorem save_roundtrip c out0 : wf c -> deserialize (serialize c) out0 = Succeeded c.
Proof. apply deserialize_serialize. Qed.

Lemma save_roundtrip_witness : deserialize (serialize demo_save) empty = Succeeded demo_save.
Proof. exact (save_roundtrip demo_save empty demo_save_wf). Defined.

(** A saved container whose payload has been altered in exactly one byte
    is never loaded: the CRC differs and the parse fails. *)
Theorem corruption_detected c out0 i b b' :
  wf c -> Forall is_byte (payload_of (m_entries c)) ->
  (header_size + length (m_entries c) * entry_size <= i)%nat ->
  serialize c !! i = Some b -> is_byte b' -> b' <> b ->
  exists out, deserialize (<[i := b']> (serialize c)) out0 = Failed out.
Proof.
  intros Hwf Hbytes Hi Hb Hb' Hne. unfold serialize in *.
  set (P := payload_of (m_entries c)) in *. set (H := header_on_disk c P) in *.
  set (E := entries_on_disk 0 (m_entries c)) in *.
  assert (length (H ++ E) = header_size + length (m_entries c) * entry_size)%nat as Hl
    by (unfold H, E; by rewrite length_app, length_header_on_disk, length_entries_on_disk).
  rewrite app_assoc in *. rewrite lookup_app_r in Hb by lia.
  replace i with (length (H ++ E) + (i - length (H ++ E)))%nat by lia.
  rewrite insert_app_r. set (j := (i - length (H ++ E))%nat) in *. rewrite <- app_assoc.
  eexists. unfold H, E, P. rewrite deserialize_checked by (by rewrite ?length_insert). fold P.
  destruct (crc32 (<[j:=b']> P) =? crc32 P) eqn:Ec; [|reflexivity]. exfalso.
  apply Z.eqb_eq in Ec. rewrite <- (take_drop_middle P j b Hb) in Ec at 2, Hbytes.
  rewrite insert_take_drop in Ec by (by eapply lookup_lt_Some).
  by apply (crc32_one_byte (take j P) b b' (drop (S j) P)).
Qed.

Lemma corruption_detected_witness :
  serialize demo_save !! 762%nat = Some 3 /\
  exists out, deserialize (<[762%nat := 4]> (serialize demo_save)) empty = Failed out.
Proof.
  assert (H : serialize demo_save !! 762%nat = Some 3) by (vm_compute; reflexivity).
  split; [exact H|].
  apply (corruption_detected demo_save empty 762 3 4 demo_save_wf).
  - apply forallb_is_byte. reflexivity.
  - vm_compute. lia.
  - exact H.
  - unfold is_byte. lia.
  - discriminate.
Defined.

(** A one-entry file with an empty payload whose descriptor names [offset] and
    [size]. *)
Definition forged (offset size : Z) : bytes :=
  header_on_disk (mkContainer 0 [] [] [] 0 0 [mkEntry [] [] 0]) [] ++
  le_encode 8 offset ++ le_encode 8 size ++ le_encode 4 0 ++ le_encode 4 0 ++ copyStr 64 [].

(** The bounds check of a descriptor wraps: an entry at offset 2^64 - n of
    n bytes passes it, with n = 88 the parser returns the descriptor table as
    entry data, and with n = 1000 it reads before the file buffer. *)
Theorem entry_offset_wraps :
  (exists out, deserialize (forged (2 ^ 64 - 88) 88) empty = Succeeded out /\
     data <$> m_entries out = [drop header_size (forged (2 ^ 64 - 88) 88)]) /\
  deserialize (forged (2 ^ 64 - 1000) 1000) empty = Faulted.
Proof.
  split; [eexists; split|]; vm_compute; reflexivity.
Qed.

(** The checksum is the standard CRC-32. *)
Example crc32_check_value : crc32 (cstr "123456789") = 0xCBF43926.
Proof. vm_compute. reflexivity. Qed.

End Properties.
