(* ===== verification/Nid.v ===== *)
(** * NIDs: the names of imported functions

    [loader/sce/SceNid.cpp] (the embedded SHA-256, the legacy NID and its
    hexadecimal form) and [loader/sce/NidDatabase.cpp] (the NID database and
    its text format).  The hash context is the source's: a 64-byte buffer that
    is filled byte by byte and compressed when full; its initial contents, which
    the C++ leaves uninitialised, are an argument. *)
From S2P Require Import Prelude.

(** ** SHA-256 *)
Module Sha256.

(** The round constants [K], four to a row, in decimal. *)
Definition kSha256K : list Z := List.concat [
  [1116352408; 1899447441; 3049323471; 3921009573];
  [961987163; 1508970993; 2453635748; 2870763221];
  [3624381080; 310598401; 607225278; 1426881987];
  [1925078388; 2162078206; 2614888103; 3248222580];
  [3835390401; 4022224774; 264347078; 604807628];
  [770255983; 1249150122; 1555081692; 1996064986];
  [2554220882; 2821834349; 2952996808; 3210313671];
  [3336571891; 3584528711; 113926993; 338241895];
  [666307205; 773529912; 1294757372; 1396182291];
  [1695183700; 1986661051; 2177026350; 2456956037];
  [2730485921; 2820302411; 3259730800; 3345764771];
  [3516065817; 3600352804; 4094571909; 275423344];
  [430227734; 506948616; 659060556; 883997877];
  [958139571; 1322822218; 1537002063; 1747873779];
  [1955562222; 2024104815; 2227730452; 2361852424];
  [2428436474; 2756734187; 3204031479; 3329325298]].

(** The IV of [sha256_init], in the same notation. *)
Definition initial_state : list Z :=
  List.concat [[1779033703; 3144134277; 1013904242; 2773480762];
               [1359893119; 2600822924; 528734635; 1541459225]].

Record Sha256Ctx := mkSha { data : bytes; datalen : nat; bitlen : Z; state : list Z }.

Definition init_ctx (junk : bytes) : Sha256Ctx := mkSha junk 0 0 initial_state.

Definition rotr (x n : Z) : Z := Z.lor (Z.shiftr x n) (u32 (Z.shiftl x (32 - n))).

(** [w[i]] of an array; every index the code uses is inside. *)
Definition at_index (w : list Z) (i : nat) : Z := nth i w 0.

Definition load_word (chunk : bytes) (i : nat) : Z :=
  Z.lor (Z.lor (Z.lor (u32 (Z.shiftl (at_index chunk (i * 4)) 24))
    (Z.shiftl (at_index chunk (i * 4 + 1)) 16)) (Z.shiftl (at_index chunk (i * 4 + 2)) 8))
    (at_index chunk (i * 4 + 3)).

(** One more word of the schedule; [w] holds the words before it. *)
Definition schedule_step (w : list Z) : list Z :=
  let i := length w in
  let w15 := at_index w (i - 15) in
  let w2 := at_index w (i - 2) in
  let s0 := Z.lxor (Z.lxor (rotr w15 7) (rotr w15 18)) (Z.shiftr w15 3) in
  let s1 := Z.lxor (Z.lxor (rotr w2 17) (rotr w2 19)) (Z.shiftr w2 10) in
  w ++ [u32 (u32 (u32 (at_index w (i - 16) + s0) + at_index w (i - 7)) + s1)].

Definition schedule (chunk : bytes) : list Z :=
  Nat.iter 48 schedule_step (load_word chunk <$> seq 0 16).

(** One round on the working variables [a .. h]. *)
Definition round (w : list Z) (v : list Z) (i : nat) : list Z :=
  match v with
  | [a; b; c; d; e; f; g; h] =>
      let S1 := Z.lxor (Z.lxor (rotr e 6) (rotr e 11)) (rotr e 25) in
      let ch := Z.lxor (Z.land e f) (Z.land (u32 (Z.lnot e)) g) in
      let t1 := u32 (u32 (u32 (u32 (h + S1) + ch) + at_index kSha256K i) + at_index w i) in
      let S0 := Z.lxor (Z.lxor (rotr a 2) (rotr a 13)) (rotr a 22) in
      let maj := Z.lxor (Z.lxor (Z.land a b) (Z.land a c)) (Z.land b c) in
      let t2 := u32 (S0 + maj) in
      [u32 (t1 + t2); a; b; c; u32 (d + t1); e; f; g]
  | _ => v
  end.

(** The compression of one 64-byte chunk into the state. *)
Definition compress (st : list Z) (chunk : bytes) : list Z :=
  zip_with (fun s x => u32 (s + x)) st (foldl (round (schedule chunk)) st (seq 0 64)).

Definition sha256Transform (ctx : Sha256Ctx) : Sha256Ctx :=
  mkSha (data ctx) (datalen ctx) (bitlen ctx) (compress (state ctx) (data ctx)).

Definition update_byte (ctx : Sha256Ctx) (b : Z) : Sha256Ctx :=
  let ctx1 := mkSha (<[datalen ctx := b]> (data ctx)) (datalen ctx + 1) (bitlen ctx) (state ctx) in
  if (datalen ctx1 =? 64)%nat
  then let ctx2 := sha256Transform ctx1 in
       mkSha (data ctx2) 0 (u64 (bitlen ctx2 + 512)) (state ctx2)
  else ctx1.

Definition sha256Update (ctx : Sha256Ctx) (msg : bytes) : Sha256Ctx := foldl update_byte ctx msg.

(** [data[from .. upto) = 0]. *)
Definition zero_range (from upto : nat) (d : bytes) : bytes :=
  take from d ++ replicate (upto - from) 0 ++ drop (Nat.max from upto) d.

Definition be64 (v : Z) : bytes := rev (le_encode 8 v).
Definition be32 (v : Z) : bytes := rev (le_encode 4 v).

Definition sha256Final (ctx : Sha256Ctx) : bytes :=
  let i := datalen ctx in
  let d := <[i := 0x80]> (data ctx) in
  let ctx1 :=
    if (i <? 56)%nat then mkSha (zero_range (i + 1) 56 d) i (bitlen ctx) (state ctx)
    else
      let c := sha256Transform (mkSha (zero_range (i + 1) 64 d) i (bitlen ctx) (state ctx)) in
      mkSha (replicate 56 0 ++ drop 56 (data c)) (datalen c) (bitlen c) (state c) in
  let bits := u64 (bitlen ctx1 + Z.of_nat (datalen ctx1) * 8) in
  let ctx2 := mkSha (take 56 (data ctx1) ++ be64 bits) (datalen ctx1) bits (state ctx1) in
  concat (be32 <$> state (sha256Transform ctx2)).

(** *** Reference: the padded message, compressed chunk by chunk *)
Definition padding (n : nat) : bytes :=
  0x80 :: replicate (Z.to_nat ((55 - Z.of_nat n) mod 64)) 0 ++ be64 (Z.of_nat n * 8).

Definition chunks64 (l : bytes) : list bytes :=
  (fun i => take 64 (drop (64 * i) l)) <$> seq 0 (length l / 64).

Definition sha256 (msg : bytes) : bytes :=
  concat (be32 <$> foldl compress initial_state (chunks64 (msg ++ padding (length msg)))).

End Sha256.

(** ** [SceNid] *)
Module SceNid.
Import Sha256.

Definition computeLegacy (junk functionName : bytes) : Z :=
  let digest := sha256Final (sha256Update (init_ctx junk) functionName) in
  foldl (fun v i => Z.lor v (Z.shiftl (at_index digest i) (Z.of_nat (i * 8)))) 0 (seq 0 8).

Definition hex_digit (d : Z) : Z := if d <? 10 then 48 + d else 87 + d.

(** [snprintf("%016llx")]: at least 16 digits, most significant first. *)
Fixpoint hex_digits (n : nat) (v : Z) : bytes :=
  match n with
  | O => []
  | S n' => hex_digits n' (v / 16) ++ [hex_digit (v mod 16)]
  end.
Definition toHex (nid : Z) : bytes := hex_digits 16 nid.

(** ['0'..'9'], ['a'..'f'], ['A'..'F']. *)
Definition digit_value (c : Z) : option Z :=
  if (48 <=? c) && (c <=? 57) then Some (c - 48)
  else if (97 <=? c) && (c <=? 102) then Some (c - 97 + 10)
  else if (65 <=? c) && (c <=? 70) then Some (c - 65 + 10)
  else None.

Fixpoint from_digits (hex : bytes) (v : Z) : option Z :=
  match hex with
  | [] => Some v
  | c :: rest => d ← digit_value c; from_digits rest (Z.lor (u64 (Z.shiftl v 4)) d)
  end.

Definition fromHex (hex : bytes) : option Z :=
  if negb (length hex =? 16)%nat then None else from_digits hex 0.

End SceNid.

(** ** [NidDatabase] *)
Module NidDatabase.
Import SceNid.

Record NidEntry := mkEntry { nid : Z; library : bytes; function : bytes }.

#[export] Instance NidEntry_eq_dec : EqDecision NidEntry.
Proof. solve_decision. Defined.

Record t := mkDb { m_entries : gmap Z NidEntry; m_builtinLoaded : bool }.
Definition initial : t := mkDb ∅ false.

Definition insert (n : Z) (lib fn : bytes) (db : t) : t :=
  mkDb (<[n := mkEntry n lib fn]> (m_entries db)) (m_builtinLoaded db).

(** [std::getline] until it fails: the pieces between newlines; a last piece
    without a newline counts when it is not empty. *)
Fixpoint getlines (cur : bytes) (content : bytes) : list bytes :=
  match content with
  | [] => if bool_decide (cur = []) then [] else [cur]
  | c :: rest => if c =? 10 then cur :: getlines [] rest else getlines (cur ++ [c]) rest
  end.

(** [find_first_not_of] over space, tab, CR and LF, then [substr]. *)
Definition is_blank (c : Z) : bool := (c =? 32) || (c =? 9) || (c =? 13) || (c =? 10).
Fixpoint trim_left (line : bytes) : bytes :=
  match line with
  | c :: rest => if is_blank c then trim_left rest else line
  | [] => []
  end.

(** [isspace] in the C locale. *)
Definition is_space (c : Z) : bool := (c =? 32) || ((9 <=? c) && (c <=? 13)).

(** [ss >> word]: skip white space, then at least one other character. *)
Fixpoint skip_space (s : bytes) : bytes :=
  match s with
  | c :: rest => if is_space c then skip_space rest else s
  | [] => []
  end.
Fixpoint word (s : bytes) : bytes * bytes :=
  match s with
  | c :: rest => if is_space c then ([], s) else let '(w, r) := word rest in (c :: w, r)
  | [] => ([], [])
  end.
Definition extract (s : bytes) : option (bytes * bytes) :=
  let '(w, r) := word (skip_space s) in if bool_decide (w = []) then None else Some (w, r).

(** One line of the file: [Some] an entry to insert. *)
Definition parse_line (line0 : bytes) : option (Z * bytes * bytes) :=
  match trim_left line0 with
  | [] => None
  | c :: rest =>
      if c =? 35 then None
      else
        '(nidHex, s1) ← extract (c :: rest);
        '(lib, s2) ← extract s1;
        '(fn, _) ← extract s2;
        n ← fromHex nidHex;
        Some (n, lib, fn)
  end.

Definition load_line (db : t) (line : bytes) : t :=
  match parse_line line with
  | Some (n, lib, fn) => insert n lib fn db
  | None => db
  end.

(** [None]: the file cannot be opened.  The counters are only logged. *)
Definition loadFromFile (file : option bytes) (db : t) : t * bool :=
  match file with
  | None => (db, false)
  | Some content => (foldl load_line db (getlines [] content), true)
  end.

Definition kKnown : list (string * string) := [
  ("libSceKernel", "sceKernelCreateSema"); ("libSceKernel", "sceKernelDeleteSema");
  ("libSceKernel", "sceKernelWaitSema"); ("libSceKernel", "sceKernelPollSema");
  ("libSceKernel", "sceKernelSignalSema"); ("libSceKernel", "sceKernelCreateEqueue");
  ("libSceKernel", "sceKernelDeleteEqueue"); ("libSceKernel", "sceKernelWaitEqueue");
  ("libSceKernel", "sceKernelPrintf"); ("libSceKernel", "sceKernelDebugOutText");
  ("libSceKernel", "sceKernelGetProcessTime"); ("libSceKernel", "scePthreadCreate");
  ("libSceKernel", "scePthreadJoin"); ("libScePad", "scePadInit"); ("libScePad", "scePadOpen");
  ("libScePad", "scePadClose"); ("libScePad", "scePadReadState"); ("libScePad", "scePadRead");
  ("libScePad", "scePadSetVibration"); ("libSceAudioOut", "sceAudioOutInit");
  ("libSceAudioOut", "sceAudioOutOpen"); ("libSceAudioOut", "sceAudioOutClose");
  ("libSceAudioOut", "sceAudioOutOutput"); ("libSceAudioOut", "sceAudioOutSetVolume");
  ("libSceNet", "sceNetInit"); ("libSceNet", "sceNetTerm"); ("libSceNet", "sceNetSocket");
  ("libSceNet", "sceNetClose"); ("libSceNet", "sceNetConnect"); ("libSceNet", "sceNetSend");
  ("libSceNet", "sceNetRecv"); ("libSceVideoOut", "sceVideoOutOpen");
  ("libSceVideoOut", "sceVideoOutClose"); ("libSceVideoOut", "sceVideoOutRegisterBuffers");
  ("libSceVideoOut", "sceVideoOutUnregisterBuffers"); ("libSceVideoOut", "sceVideoOutSubmitFlip");
  ("libSceVideoOut", "sceVideoOutSetFlipRate"); ("libSceVideoOut", "sceVideoOutGetFlipStatus");
  ("libSceGnm", "sceGnmInit"); ("libSceGnm", "sceGnmTerminate"); ("libSceGnm", "sceGnmSubmitDone")]%string.

Definition insert_known (junk : bytes) (db : t) (k : string * string) : t :=
  insert (computeLegacy junk (cstr k.2)) (cstr k.1) (cstr k.2) db.

Definition loadBuiltinFallback (junk : bytes) (db : t) : t :=
  if m_builtinLoaded db then db
  else foldl (insert_known junk) (mkDb (m_entries db) true) kKnown.

Definition lookup_nid (db : t) (n : Z) : option NidEntry := m_entries db !! n.
Definition db_size (db : t) : nat := size (m_entries db).

End NidDatabase.

(** ** Lemmas: the buffered hash against the reference *)
Section Sha256Lemmas.
Import Sha256.

Lemma chunks64_concat blocks :
  Forall (fun b => length b = 64%nat) blocks -> chunks64 (concat blocks) = blocks.
Proof.
  intros H. unfold chunks64.
  assert (length (concat blocks) = 64 * length blocks)%nat as Hl.
  { induction H as [|b bs Hb _ IH]; simpl; [done|]. rewrite length_app, Hb, IH. lia. }
  rewrite Hl, Nat.mul_comm, Nat.div_mul by done. clear Hl.
  induction H as [|b bs Hb _ IH]; [done|]. cbn [length seq fmap list_fmap concat].
  rewrite Nat.mul_0_r, drop_0, take_app_length' by done. f_equal.
  rewrite <- IH at 2. rewrite <- fmap_S_seq, <- list_fmap_compose. apply list_fmap_ext.
  intros _ i _. unfold compose. cbn beta.
  rewrite drop_app_ge by (rewrite Hb; lia). rewrite Hb. do 2 f_equal. lia.
Qed.

Lemma take_insert_next (d : bytes) i b :
  (i < length d)%nat -> take (i + 1) (<[i := b]> d) = take i d ++ [b].
Proof.
  intros Hi. rewrite insert_take_drop by done.
  rewrite take_app_ge by (rewrite length_take; lia).
  rewrite length_take, Nat.min_l by lia. replace (i + 1 - i)%nat with 1%nat by lia. done.
Qed.

(** What the context holds after a message: its full chunks are compressed, the
    rest is at the front of the buffer. *)
Record holds (c : Sha256Ctx) (blocks : list bytes) (rest : bytes) : Prop := mkHolds {
  h_blocks : Forall (fun b => length b = 64%nat) blocks;
  h_rest : (length rest < 64)%nat;
  h_data : length (data c) = 64%nat;
  h_prefix : take (length rest) (data c) = rest;
  h_datalen : datalen c = length rest;
  h_bitlen : bitlen c = u64 (512 * Z.of_nat (length blocks));
  h_state : state c = foldl compress initial_state blocks
}.

Lemma update_byte_holds c blocks rest b :
  holds c blocks rest ->
  exists blocks' rest', holds (update_byte c b) blocks' rest' /\
    concat blocks' ++ rest' = concat blocks ++ rest ++ [b].
Proof.
  intros [Hb Hr Hd Hp Hl Hbits Hst]. unfold update_byte. cbn [data datalen bitlen state]. rewrite Hl.
  assert (take (length rest + 1) (<[length rest := b]> (data c)) = rest ++ [b]) as Ht
    by (rewrite take_insert_next by lia; by rewrite Hp).
  destruct (_ =? 64)%nat eqn:E.
  - apply Nat.eqb_eq in E. rewrite E, firstn_all2 in Ht by (rewrite length_insert; lia).
    exists (blocks ++ [rest ++ [b]]), []. split.
    + constructor; cbn [data datalen bitlen state sha256Transform].
      * apply Forall_app. split; [done|]. apply Forall_singleton. rewrite length_app. done.
      * simpl. lia.
      * by rewrite length_insert.
      * done.
      * done.
      * rewrite Hbits, length_app. simpl length. unfold wrap. rewrite Zplus_mod_idemp_l. f_equal. lia.
      * rewrite foldl_app, Hst, Ht. done.
    + rewrite concat_app. simpl. by rewrite !app_nil_r.
  - apply Nat.eqb_neq in E. exists blocks, (rest ++ [b]). split; [|done].
    constructor; cbn [data datalen bitlen state]; rewrite ?length_app, ?length_insert; simpl length; try done; lia.
Qed.

Lemma sha256Update_holds junk msg :
  length junk = 64%nat ->
  exists blocks rest, holds (sha256Update (init_ctx junk) msg) blocks rest /\ msg = concat blocks ++ rest.
Proof.
  intros Hj. unfold sha256Update. induction msg as [|b msg (blocks & rest & H & E)] using rev_ind.
  - exists [], []. split; [|done]. constructor; simpl; try done; lia.
  - rewrite foldl_snoc. destruct (update_byte_holds _ _ _ b H) as (bs' & r' & H' & E').
    exists bs', r'. split; [done|]. rewrite E', E. by rewrite <- app_assoc.
Qed.

Lemma le_encode_wrap n v : le_encode n (wrap (8 * Z.of_nat n) v) = le_encode n v.
Proof.
  revert v. induction n as [|n IH]; intros v; [done|]. cbn [le_encode].
  assert (2 ^ (8 * Z.of_nat (S n)) = 256 * 2 ^ (8 * Z.of_nat n)) as Hp
    by (replace (8 * Z.of_nat (S n)) with (8 + 8 * Z.of_nat n) by lia; rewrite Z.pow_add_r by lia; done).
  unfold wrap in *. rewrite Hp, Z.rem_mul_r by lia.
  assert (0 < 2 ^ (8 * Z.of_nat n)) by lia. f_equal.
  - by rewrite (Z.mul_comm 256), Z_mod_plus_full, Zmod_mod.
  - rewrite (Z.mul_comm 256), Z.div_add, (Z.div_small (v mod 256)) by dm_lia. apply IH.
Qed.

Lemma take_zero_range r d :
  length d = 64%nat -> (r < 56)%nat ->
  take 56 (zero_range (r + 1) 56 (<[r := 0x80]> d)) = take r d ++ 0x80 :: replicate (55 - r) 0.
Proof.
  intros Hd Hr. unfold zero_range. rewrite take_insert_next by lia.
  rewrite <- !app_assoc. cbn [app]. rewrite app_comm_cons, app_assoc, take_app_length'; [|].
  - by replace (56 - (r + 1))%nat with (55 - r)%nat by lia.
  - rewrite length_app. cbn [length]. rewrite length_take, length_replicate. lia.
Qed.

Lemma zero_range_full r d :
  length d = 64%nat -> (r < 64)%nat ->
  zero_range (r + 1) 64 (<[r := 0x80]> d) = take r d ++ 0x80 :: replicate (63 - r) 0.
Proof.
  intros Hd Hr. unfold zero_range. rewrite take_insert_next by lia.
  rewrite (drop_ge _ (Nat.max (r + 1) 64)) by (rewrite length_insert; lia).
  rewrite app_nil_r, <- app_assoc. by replace (64 - (r + 1))%nat with (63 - r)%nat by lia.
Qed.

Lemma sha256Final_holds c blocks rest :
  holds c blocks rest ->
  sha256Final c = sha256 (concat blocks ++ rest).
Proof.
  intros [Hb Hr Hd Hp Hl Hbits Hst]. set (n := length (concat blocks ++ rest)).
  assert (n = 64 * length blocks + length rest)%nat as Hn.
  { unfold n. rewrite length_app. f_equal. clear -Hb.
    induction Hb as [|b bs E _ IH]; simpl; [done|]. rewrite length_app, E, IH. lia. }
  unfold sha256. fold n. rewrite <- app_assoc. unfold sha256Final. rewrite Hl.
  assert (be64 (u64 (bitlen c + Z.of_nat (length rest) * 8)) = be64 (Z.of_nat n * 8)) as Hbits'.
  { unfold be64. f_equal. change 64 with (8 * Z.of_nat 8) at 1. rewrite le_encode_wrap.
    rewrite Hbits. rewrite <- (le_encode_wrap 8), <- (le_encode_wrap 8 (Z.of_nat n * 8)).
    change (8 * Z.of_nat 8) with 64. f_equal. unfold wrap. rewrite Zplus_mod_idemp_l. f_equal. lia. }
  unfold padding. destruct (_ <? 56)%nat eqn:E; cbn [data datalen bitlen state sha256Transform]; rewrite Hbits'.
  - apply Nat.ltb_lt in E. rewrite take_zero_range, Hp by done.
    assert ((55 - Z.of_nat n) mod 64 = 55 - Z.of_nat (length rest)) as ->.
    { rewrite Hn. replace (55 - _) with (55 - Z.of_nat (length rest) + (- Z.of_nat (length blocks)) * 64) by lia.
      rewrite Z_mod_plus_full. apply Z.mod_small. lia. }
    replace (Z.to_nat (55 - Z.of_nat (length rest))) with (55 - length rest)%nat by lia.
    set (tl := rest ++ 0x80 :: replicate (55 - length rest) 0 ++ be64 (Z.of_nat n * 8)).
    assert (length tl = 64%nat).
    { unfold tl, be64. rewrite length_app. cbn [length].
      rewrite length_app, length_replicate, length_rev, length_le_encode. lia. }
    assert (concat blocks ++ tl = concat (blocks ++ [tl])) as -> by (rewrite concat_app; simpl; by rewrite app_nil_r).
    rewrite chunks64_concat by (apply Forall_app; split; [done|by apply Forall_singleton]).
    rewrite foldl_snoc, Hst. rewrite <- app_assoc. done.
  - apply Nat.ltb_ge in E. rewrite zero_range_full, Hp by done.
    assert ((55 - Z.of_nat n) mod 64 = 119 - Z.of_nat (length rest)) as ->.
    { rewrite Hn. replace (55 - _) with (119 - Z.of_nat (length rest) + (- Z.of_nat (length blocks) - 1) * 64) by lia.
      rewrite Z_mod_plus_full. apply Z.mod_small. lia. }
    replace (Z.to_nat (119 - Z.of_nat (length rest))) with ((63 - length rest) + 56)%nat by lia.
    rewrite replicate_add, <- app_assoc.
    set (t1 := rest ++ 0x80 :: replicate (63 - length rest) 0). set (t2 := replicate 56 0 ++ be64 (Z.of_nat n * 8)).
    assert (length t1 = 64%nat) by (unfold t1; rewrite length_app; cbn [length]; rewrite length_replicate; lia).
    assert (length t2 = 64%nat)
      by (unfold t2, be64; rewrite length_app, length_replicate, length_rev, length_le_encode; lia).
    assert (concat blocks ++ rest ++ 0x80 :: replicate (63 - length rest) 0 ++ t2 = concat (blocks ++ [t1; t2])) as ->.
    { rewrite concat_app. cbn [concat]. unfold t1. by rewrite app_nil_r, <- !app_assoc. }
    rewrite chunks64_concat by (apply Forall_app; split; [done|by repeat constructor]).
    rewrite foldl_app, Hst. cbn [foldl]. rewrite take_app_length' by (by rewrite length_replicate). done.
Qed.

End Sha256Lemmas.

(** ** Lemmas: the numeric and hexadecimal forms *)
Section NidLemmas.
Import Sha256 SceNid.

Lemma lor_shift v b n : 0 <= n -> 0 <= v < 2 ^ n -> Z.lor v (Z.shiftl b n) = v + b * 2 ^ n.
Proof.
  intros Hn Hv. rewrite <- Z.shiftl_mul_pow2 by done.
  rewrite <- Z.lxor_lor, <- Z.add_nocarry_lxor; [done| |];
    (apply Z.bits_inj'; intros m Hm; rewrite Z.land_spec, Z.bits_0;
     destruct (decide (m < n)); [rewrite Z.shiftl_spec_low by done; by rewrite andb_false_r|];
     rewrite <- (Z.mod_small v (2 ^ n)) by done; rewrite Z.mod_pow2_bits_high by lia; done).
Qed.

Lemma le_decode_snoc bs b : le_decode (bs ++ [b]) = le_decode bs + b * 2 ^ (8 * Z.of_nat (length bs)).
Proof.
  induction bs as [|c bs IH]; cbn [app le_decode length]; [lia|]. rewrite IH.
  replace (8 * Z.of_nat (S (length bs))) with (8 + 8 * Z.of_nat (length bs)) by lia.
  rewrite Z.pow_add_r by lia. lia.
Qed.

Lemma foldl_lor_bytes d n :
  Forall is_byte d -> (n <= length d)%nat ->
  foldl (fun v i => Z.lor v (Z.shiftl (at_index d i) (Z.of_nat (i * 8)))) 0 (seq 0 n) = le_decode (take n d).
Proof.
  intros Hd. induction n as [|n IH]; intros Hn; [done|].
  rewrite seq_S, foldl_snoc, IH by lia. simpl.
  destruct (lookup_lt_is_Some_2 d n) as [b Hb]; [lia|].
  assert (at_index d n = b) as -> by (by apply nth_lookup_Some).
  rewrite (take_S_r _ _ b Hb), le_decode_snoc, length_take, Nat.min_l by lia.
  pose proof (le_decode_range (take n d) ltac:(by apply Forall_take)) as Hr.
  rewrite length_take, Nat.min_l in Hr by lia.
  replace (Z.of_nat (n * 8)) with (8 * Z.of_nat n) by lia. apply lor_shift; [lia|done].
Qed.

Lemma length_compress st chunk : length st = 8%nat -> length (compress st chunk) = 8%nat.
Proof.
  intros H. unfold compress. rewrite length_zip_with, H.
  assert (forall l v, length v = 8%nat -> length (foldl (round (schedule chunk)) v l) = 8%nat) as ->; [|done|done].
  induction l as [|i l IH]; intros v Hv; [done|]. cbn [foldl]. apply IH.
  do 9 (destruct v as [|? v]; [done|]). done.
Qed.

Lemma length_sha256 msg : length (sha256 msg) = 32%nat.
Proof.
  unfold sha256. generalize (chunks64 (msg ++ padding (length msg))). intros cs.
  assert (forall st, length st = 8%nat -> length (foldl compress st cs) = 8%nat) as H.
  { induction cs as [|c cs IH]; intros st Hst; [done|]. cbn [foldl]. by apply IH, length_compress. }
  specialize (H initial_state eq_refl). revert H. generalize (foldl compress initial_state cs). intros l Hl.
  do 9 (destruct l as [|? l]; try done).
Qed.

Lemma sha256_bytes msg : Forall is_byte (sha256 msg).
Proof.
  unfold sha256. generalize (foldl compress initial_state (chunks64 (msg ++ padding (length msg)))). intros l.
  induction l as [|x l IH]; [constructor|]. cbn [fmap list_fmap concat].
  apply Forall_app. split; [|done]. unfold be32. apply Forall_rev, le_encode_bytes.
Qed.

Lemma sha256Final_reference junk msg :
  length junk = 64%nat -> sha256Final (sha256Update (init_ctx junk) msg) = sha256 msg.
Proof.
  intros Hj. destruct (sha256Update_holds junk msg Hj) as (blocks & rest & H & Hm).
  rewrite Hm at 2. by apply sha256Final_holds.
Qed.

Lemma computeLegacy_reference junk s :
  length junk = 64%nat -> computeLegacy junk s = le_decode (take 8 (sha256 s)).
Proof.
  intros Hj. unfold computeLegacy. rewrite sha256Final_reference by done.
  apply foldl_lor_bytes; [by apply sha256_bytes|by rewrite length_sha256; lia].
Qed.

Lemma digit_value_hex d : 0 <= d < 16 -> digit_value (hex_digit d) = Some d.
Proof.
  intros Hd. unfold digit_value, hex_digit.
  destruct (d <? 10) eqn:?; repeat (case_match; try lia); f_equal; lia.
Qed.

(** The lower-case form of a character. *)
Definition lower (c : Z) : Z := if (65 <=? c) && (c <=? 90) then c + 32 else c.

Lemma digit_value_inv c d : digit_value c = Some d -> 0 <= d < 16 /\ hex_digit d = lower c.
Proof.
  unfold digit_value, hex_digit, lower. intros H.
  repeat (case_match; try lia); simplify_eq; lia.
Qed.

Lemma from_digits_snoc hex c v :
  from_digits (hex ++ [c]) v =
  r ← from_digits hex v; d ← digit_value c; Some (Z.lor (u64 (Z.shiftl r 4)) d).
Proof.
  revert v. induction hex as [|c' hex IH]; intros v; cbn [app from_digits]; [done|].
  destruct (digit_value c'); [|done]. apply IH.
Qed.

(** One more digit, while the number still fits. *)
Lemma push_digit r d n :
  (n < 16)%nat -> 0 <= r < 16 ^ Z.of_nat n -> 0 <= d < 16 -> Z.lor (u64 (Z.shiftl r 4)) d = 16 * r + d.
Proof.
  intros Hn Hr Hd.
  assert (16 ^ Z.of_nat n <= 16 ^ 15) by (apply Z.pow_le_mono_r; lia).
  rewrite wrap_id by (rewrite Z.shiftl_mul_pow2 by lia; unfold in_width; lia).
  rewrite Z.lor_comm, lor_shift by lia. lia.
Qed.

Lemma from_hex_digits n v :
  (n <= 16)%nat -> 0 <= v -> from_digits (hex_digits n v) 0 = Some (v mod 16 ^ Z.of_nat n).
Proof.
  revert v. induction n as [|n IH]; intros v Hn Hv; cbn [hex_digits]; [by rewrite Z.mod_1_r|].
  rewrite from_digits_snoc, IH by (try apply Z.div_pos; lia). cbn [mbind option_bind].
  rewrite digit_value_hex by dm_lia. cbn [mbind option_bind]. f_equal.
  rewrite (push_digit _ _ n) by (try apply Z.mod_pos_bound; lia).
  rewrite Nat2Z.inj_succ, Z.pow_succ_r, Z.rem_mul_r by lia. lia.
Qed.

Lemma from_digits_inv hex r :
  (length hex <= 16)%nat -> from_digits hex 0 = Some r ->
  0 <= r < 16 ^ Z.of_nat (length hex) /\ hex_digits (length hex) r = lower <$> hex.
Proof.
  revert r. induction hex as [|c hex IH] using rev_ind; intros r Hn H; [simpl in *; by simplify_eq|].
  rewrite length_app in Hn |- *. simpl length in Hn |- *. rewrite from_digits_snoc in H.
  apply bind_Some in H as (r0 & H0 & (d & Hd & H)%bind_Some).
  destruct (IH r0 ltac:(lia) H0) as [Hr0 Hx]. destruct (digit_value_inv _ _ Hd) as [Hd' Hl].
  rewrite (push_digit _ _ (length hex)) in H by lia. simplify_eq.
  replace (length hex + 1)%nat with (S (length hex)) by lia. split.
  - rewrite Nat2Z.inj_succ, Z.pow_succ_r by lia. lia.
  - cbn [hex_digits]. rewrite fmap_app. f_equal.
    + rewrite <- Hx. f_equal. dm_lia.
    + cbn. f_equal. rewrite <- Hl. f_equal. dm_lia.
Qed.

Lemma length_hex_digits n v : length (hex_digits n v) = n.
Proof. revert v. induction n as [|n IH]; intros v; cbn [hex_digits]; [done|]. rewrite length_app, IH. simpl. lia. Qed.

End NidLemmas.

(** ** Lemmas: the text format *)
Section DatabaseLemmas.
Import SceNid NidDatabase.

(** The end of a word: the end of the text or a white-space character. *)
Definition at_space (s : bytes) : Prop := match s with [] => True | c :: _ => is_space c = true end.
Definition spaces (s : bytes) : Prop := Forall (fun c => is_space c = true) s.
Definition is_word (w : bytes) : Prop := w <> [] /\ Forall (fun c => is_space c = false) w.

Lemma word_spec s w r :
  word s = (w, r) <-> s = w ++ r /\ Forall (fun c => is_space c = false) w /\ at_space r.
Proof.
  revert w r. induction s as [|c s IH]; intros w r; simpl.
  - split; [intros; simplify_eq; by repeat constructor|]. intros (H & _ & _). by destruct w, r.
  - destruct (is_space c) eqn:E.
    + split; [intros; simplify_eq; split_and!; [done|constructor|done]|]. intros (H & Hw & Hr).
      destruct w as [|c' w]; simplify_eq/=; [done|]. apply Forall_cons in Hw as [? _]. congruence.
    + destruct (word s) as [w' r'] eqn:Ew. split.
      * intros; simplify_eq. destruct (proj1 (IH w' r) eq_refl) as (-> & Hw & Hr).
        split_and!; [done|by constructor|done].
      * intros (H & Hw & Hr). destruct w as [|c' w]; simplify_eq/=; [congruence|].
        apply Forall_cons in Hw as [_ Hw]. assert ((w', r') = (w, r)) as [= -> ->] by (by apply IH). done.
Qed.

Lemma skip_space_spaces l s : spaces l -> skip_space (l ++ s) = skip_space s.
Proof. induction 1 as [|c l Hc _ IH]; simpl; [done|]. by rewrite Hc. Qed.

Lemma skip_space_split s : exists l, s = l ++ skip_space s /\ spaces l.
Proof.
  induction s as [|c s (l & E & Hl)]; simpl; [exists []; split; [done|constructor]|].
  destruct (is_space c) eqn:Ec; [|exists []; split; [done|constructor]]. exists (c :: l). split; [simpl; by f_equal|by constructor].
Qed.

Lemma skip_space_word w r : is_word w -> skip_space (w ++ r) = w ++ r.
Proof. intros [Hn Hw]. destruct w as [|c w]; [done|]. apply Forall_cons in Hw as [Hc _]. simpl. by rewrite Hc. Qed.

Lemma extract_spec s w r :
  extract s = Some (w, r) <-> exists l, s = l ++ w ++ r /\ spaces l /\ is_word w /\ at_space r.
Proof.
  unfold extract. split.
  - destruct (word (skip_space s)) as [w' r'] eqn:E. case_bool_decide; [done|]. intros; simplify_eq.
    apply word_spec in E as (E & Hw & Hr). destruct (skip_space_split s) as (l & Es & Hl).
    exists l. rewrite <- E. done.
  - intros (l & -> & Hl & Hw & Hr). rewrite skip_space_spaces, skip_space_word by done.
    assert (word (w ++ r) = (w, r)) as -> by (apply word_spec; by destruct Hw).
    rewrite bool_decide_eq_false_2; [done|]. by destruct Hw.
Qed.

Lemma blank_space c : is_blank c = true -> is_space c = true.
Proof. unfold is_blank, is_space. lia. Qed.

Lemma trim_left_split s : exists l, s = l ++ trim_left s /\ spaces l.
Proof.
  induction s as [|c s (l & E & Hl)]; simpl; [exists []; split; [done|constructor]|].
  destruct (is_blank c) eqn:Ec; [|exists []; split; [done|constructor]]. exists (c :: l).
  split; [simpl; by f_equal|constructor; [by apply blank_space|done]].
Qed.

Lemma trim_left_spaces l s :
  spaces l -> match s with c :: _ => is_space c = false | [] => False end ->
  exists l', trim_left (l ++ s) = l' ++ s /\ spaces l'.
Proof.
  intros Hl Hs. induction Hl as [|c l Hc Hl IH]; simpl.
  - exists []. split; [|constructor]. destruct s as [|c s]; [done|]. simpl.
    destruct (is_blank c) eqn:E; [|done]. apply blank_space in E. congruence.
  - destruct (is_blank c); [done|]. exists (c :: l). by split; [|constructor].
Qed.

Lemma fromHex_digits hex n : fromHex hex = Some n -> Forall (fun c => is_Some (digit_value c)) hex.
Proof.
  unfold fromHex. destruct (negb _); [done|]. generalize 0. revert n.
  induction hex as [|c hex IH]; intros n v H; [constructor|]. simpl in H.
  apply bind_Some in H as (d & Hd & H). constructor; [by rewrite Hd|by eapply IH].
Qed.

Lemma fromHex_word hex n : fromHex hex = Some n -> is_word hex.
Proof.
  intros H. split.
  - intros ->. unfold fromHex in H. done.
  - apply fromHex_digits in H. eapply Forall_impl; [exact H|]. cbn beta. intros c [d Hd].
    unfold digit_value in Hd. unfold is_space. repeat (case_match; try lia); done.
Qed.

(** The texts between two newlines are the lines. *)
Lemma getlines_line cur l rest :
  Forall (fun c => c <> 10) l -> getlines cur (l ++ 10 :: rest) = (cur ++ l) :: getlines [] rest.
Proof.
  intros H. revert cur. induction H as [|c l Hc _ IH]; intros cur; simpl; [by rewrite app_nil_r|].
  destruct (c =? 10) eqn:E; [lia|]. by rewrite IH, <- app_assoc.
Qed.

(** The entry a list of lines leaves for [n]. *)
Lemma load_lines_lookup lines db n :
  (exists l1 line l2 lib fn, lines = l1 ++ line :: l2 /\ parse_line line = Some (n, lib, fn) /\
     m_entries (foldl load_line db lines) !! n = Some (mkEntry n lib fn) /\
     forall l lib' fn', l ∈ l2 -> parse_line l <> Some (n, lib', fn')) \/
  ((forall l lib fn, l ∈ lines -> parse_line l <> Some (n, lib, fn)) /\
   m_entries (foldl load_line db lines) !! n = m_entries db !! n).
Proof.
  induction lines as [|l lines IH] using rev_ind; [right; split; [set_solver|done]|].
  rewrite foldl_snoc. unfold load_line at 1 3.
  destruct (parse_line l) as [[[n' lib] fn]|] eqn:E.
  - destruct (decide (n' = n)) as [->|Hn].
    + left. exists lines, l, [], lib, fn. split_and!; [done|done| |set_solver].
      simpl. by rewrite lookup_insert_eq.
    + simpl. rewrite lookup_insert_ne by done. destruct IH as [(l1 & x & l2 & lb & f & -> & Hx & Hl & Hn')|[Hn' Hl]].
      * left. exists l1, x, (l2 ++ [l]), lb, f. rewrite <- app_assoc. split_and!; [done|done|done|].
        intros y ? ? [Hy|Hy%list_elem_of_singleton]%elem_of_app; [by apply Hn'|subst; congruence].
      * right. split; [|done]. intros y ? ? [Hy|Hy%list_elem_of_singleton]%elem_of_app; [by apply Hn'|subst; congruence].
  - destruct IH as [(l1 & x & l2 & lb & f & -> & Hx & Hl & Hn')|[Hn' Hl]].
    + left. exists l1, x, (l2 ++ [l]), lb, f. rewrite <- app_assoc. split_and!; [done|done|done|].
      intros y ? ? [Hy|Hy%list_elem_of_singleton]%elem_of_app; [by apply Hn'|subst; congruence].
    + right. split; [|done]. intros y ? ? [Hy|Hy%list_elem_of_singleton]%elem_of_app; [by apply Hn'|subst; congruence].
Qed.

End DatabaseLemmas.

(** ** Properties *)
Section Properties.
Import Sha256 SceNid NidDatabase.

(** The buffered hash (byte-wise update, two-case finalisation) is
    SHA-256 of the whole message: the padded message, compressed chunk by
    chunk, for every length and whatever the buffer held before; and the legacy
    NID is the little-endian value of its first eight bytes. *)
Theorem sha256_streaming junk msg :
  length junk = 64%nat ->
  sha256Final (sha256Update (init_ctx junk) msg) = sha256 msg /\
  computeLegacy junk msg = le_decode (take 8 (sha256 msg)).
Proof.
  intros Hj. split; [by apply sha256Final_reference|by apply computeLegacy_reference].
Qed.

Lemma sha256_streaming_witness :
  computeLegacy (replicate 64 0) (cstr "scePadInit") = le_decode (take 8 (sha256 (cstr "scePadInit"))) /\
  toHex (computeLegacy (replicate 64 0) (cstr "abc")) = cstr "eacf018fbf1678ba".
Proof.
  split; [|vm_compute; reflexivity].
  apply (sha256_streaming (replicate 64 0) (cstr "scePadInit")). reflexivity.
Defined.

(** The published test vectors of SHA-256. *)
Example sha256_abc :
  sha256 (cstr "abc") = concat (be32 <$> [0xba7816bf; 0x8f01cfea; 0x414140de; 0x5dae2223; 0xb00361a3; 0x96177a9c; 0xb410ff61; 0xf20015ad]).
Proof. vm_compute. reflexivity. Qed.
Example sha256_two_blocks :
  sha256 (cstr "abcdbcdecdefdefgefghfghighijhijkijkljklmklmnlmnomnopnopq") =
  concat (be32 <$> [0x248d6a61; 0xd20638b8; 0xe5c02693; 0x0c3e6039; 0xa33ce459; 0x64ff2167; 0xf6ecedd4; 0x19db06c1]).
Proof. vm_compute. reflexivity. Qed.

(** The hexadecimal form is a bijection between 64-bit NIDs and strings
    of 16 digits up to case: printing then reading gives the NID back, and a
    string that is read prints as its lower-case form. *)
Theorem hex_roundtrip :
  (forall n, in_width 64 n -> fromHex (toHex n) = Some n) /\
  (forall s n, fromHex s = Some n -> in_width 64 n /\ toHex n = lower <$> s).
Proof.
  split.
  - intros n Hn. unfold fromHex, toHex. rewrite length_hex_digits. cbn [Nat.eqb negb].
    unfold in_width in Hn. rewrite from_hex_digits by lia. f_equal. apply Z.mod_small. done.
  - intros s n H. unfold fromHex in H. destruct (negb _) eqn:E; [done|].
    apply negb_false_iff, Nat.eqb_eq in E. apply from_digits_inv in H; [|lia]. rewrite E in H.
    unfold in_width, toHex. exact H.
Qed.

(** A line of the database file is an entry exactly when it is, after
    optional white space, a 16-digit NID, a library and a function separated by
    white space, with anything after that; every other line (blank, comment,
    short, malformed NID) is ignored. *)
Theorem nid_line_grammar line n lib fn :
  parse_line line = Some (n, lib, fn) <->
  exists l0 hex l1 l2 rest, line = l0 ++ hex ++ l1 ++ lib ++ l2 ++ fn ++ rest /\
    spaces l0 /\ spaces l1 /\ l1 <> [] /\ spaces l2 /\ l2 <> [] /\ at_space rest /\
    fromHex hex = Some n /\ is_word lib /\ is_word fn.
Proof.
  unfold parse_line. split.
  - destruct (trim_left_split line) as (t & Ht & Hs). destruct (trim_left line) as [|c s]; [done|].
    destruct (c =? 35); [done|]. intros ([hex s1] & E1 & H)%bind_Some.
    apply bind_Some in H as ([lib' s2] & E2 & H). apply bind_Some in H as ([fn' s3] & E3 & H).
    apply bind_Some in H as (n' & Hh & H). simplify_eq.
    apply extract_spec in E1 as (a & -> & Ha & Hw1 & A1). apply extract_spec in E2 as (b & -> & Hb & Hw2 & A2).
    apply extract_spec in E3 as (d & -> & Hd & Hw3 & A3).
    exists (t ++ a), hex, b, d, s3. split_and!; try done.
    + by rewrite <- app_assoc.
    + by apply Forall_app.
    + intros ->. simpl in A1. destruct Hw2 as [? Hw2]. destruct lib as [|x lib]; [done|].
      apply Forall_cons in Hw2 as [? _]. simpl in A1. congruence.
    + intros ->. simpl in A2. destruct Hw3 as [? Hw3]. destruct fn as [|x fn]; [done|].
      apply Forall_cons in Hw3 as [? _]. simpl in A2. congruence.
  - intros (l0 & hex & l1 & l2 & rest & -> & H0 & H1 & N1 & H2 & N2 & Hr & Hh & Hl & Hf).
    assert (is_word hex) as Hx by (by eapply fromHex_word).
    destruct (trim_left_spaces l0 (hex ++ l1 ++ lib ++ l2 ++ fn ++ rest) H0) as (l0' & -> & H0').
    { destruct Hx as [Hn Hx]. destruct hex; [done|]. by apply Forall_cons in Hx as [? _]. }
    assert (at_space (l1 ++ lib ++ l2 ++ fn ++ rest) /\ at_space (l2 ++ fn ++ rest)) as [A1 A2]
      by (destruct l1, l2; try done; by apply Forall_cons in H1 as [? _], H2 as [? _]).
    destruct (l0' ++ hex ++ _) as [|c s] eqn:E; [by destruct l0', hex, Hx|].
    assert (c <> 35) as Hc.
    { pose proof (fromHex_digits _ _ Hh) as Hd. destruct Hx as [Hn _]. destruct l0' as [|c' l0'], hex as [|h hex];
        simplify_eq/=; try done.
      - apply Forall_cons in Hd as [[d Hd] _]. by intros ->.
      - apply Forall_cons in H0' as [Hs _]. by intros ->. }
    rewrite (proj2 (Z.eqb_neq c 35) Hc), <- E.
    rewrite (proj2 (extract_spec _ hex (l1 ++ lib ++ l2 ++ fn ++ rest))) by (by exists l0').
    cbn [mbind option_bind].
    rewrite (proj2 (extract_spec _ lib (l2 ++ fn ++ rest))) by (by exists l1). cbn [mbind option_bind].
    rewrite (proj2 (extract_spec _ fn rest)) by (by exists l2). cbn [mbind option_bind]. by rewrite Hh.
Qed.

(** After loading a file, a NID is bound by the last line of the file
    that defines it, and by the database as it was when no line does. *)
Theorem nid_last_wins content db n :
  let lines := getlines [] content in
  let db' := (loadFromFile (Some content) db).1 in
  (exists l1 line l2 lib fn, lines = l1 ++ line :: l2 /\ parse_line line = Some (n, lib, fn) /\
     lookup_nid db' n = Some (mkEntry n lib fn) /\
     forall l lib' fn', l ∈ l2 -> parse_line l <> Some (n, lib', fn')) \/
  ((forall l lib fn, l ∈ lines -> parse_line l <> Some (n, lib, fn)) /\ lookup_nid db' n = lookup_nid db n).
Proof. apply load_lines_lookup. Qed.

Lemma reload_builtin junk db :
  loadBuiltinFallback junk (loadBuiltinFallback junk db) = loadBuiltinFallback junk db.
Proof.
  unfold loadBuiltinFallback at 1. destruct (m_builtinLoaded (loadBuiltinFallback junk db)) eqn:E; [done|].
  exfalso. unfold loadBuiltinFallback in E. destruct (m_builtinLoaded db) eqn:E0; [congruence|].
  assert (forall l d, m_builtinLoaded (foldl (insert_known junk) d l) = m_builtinLoaded d) as H
    by (induction l as [|k l IH]; intros d; [done|]; cbn [foldl]; by rewrite IH).
  rewrite H in E. done.
Qed.

(** [k] is found under its own NID. *)
Definition found_under_own_nid (db : t) (k : string * string) : bool :=
  let n := computeLegacy (replicate 64 0) (cstr k.2) in
  bool_decide (lookup_nid db n = Some (mkEntry n (cstr k.1) (cstr k.2))).

Lemma builtin_lookups :
  forallb (found_under_own_nid (loadBuiltinFallback (replicate 64 0) initial)) kKnown = true.
Proof. vm_compute. reflexivity. Qed.

(** The built-in table has no NID collision: after it is loaded into an
    empty database each of its 41 functions is found under its own NID, and
    loading it again changes nothing. *)
Theorem builtin_complete junk :
  length junk = 64%nat ->
  let db := loadBuiltinFallback junk initial in
  db_size db = 41%nat /\ loadBuiltinFallback junk db = db /\
  forall lib fn, (lib, fn) ∈ kKnown ->
    lookup_nid db (computeLegacy junk (cstr fn)) = Some (mkEntry (computeLegacy junk (cstr fn)) (cstr lib) (cstr fn)).
Proof.
  intros Hj db.
  assert (forall s, computeLegacy junk s = computeLegacy (replicate 64 0) s) as Hl
    by (intros s; by rewrite !computeLegacy_reference).
  assert (db = loadBuiltinFallback (replicate 64 0) initial) as Hdb.
  { unfold db, loadBuiltinFallback. simpl m_builtinLoaded. cbv iota.
    generalize (mkDb (m_entries initial) true). generalize kKnown. intros l.
    induction l as [|k l IH]; intros d; [done|]. cbn [foldl]. unfold insert_known at 2 4. by rewrite Hl, IH. }
  split; [rewrite Hdb; vm_compute; reflexivity|]. split; [apply reload_builtin|].
  intros lib fn Hin. rewrite Hl, Hdb.
  pose proof builtin_lookups as H. apply forallb_Forall in H. rewrite Forall_forall in H.
  specialize (H _ Hin). by apply bool_decide_eq_true in H.
Qed.

Lemma builtin_complete_witness :
  lookup_nid (loadBuiltinFallback (replicate 64 0) initial) (computeLegacy (replicate 64 0) (cstr "scePadOpen"))
  = Some (mkEntry (computeLegacy (replicate 64 0) (cstr "scePadOpen")) (cstr "libScePad") (cstr "scePadOpen")).
Proof.
  apply (builtin_complete (replicate 64 0) eq_refl). apply (bool_decide_unpack _). vm_compute. exact I.
Defined.

End Properties.
