(* ===== verification/HostFile.v ===== *)
(** * Reading and writing whole files on the host

    The [writeAll] and [readAll] loops that the persistent stores use
    ([psn/PsnBackend.cpp]) around [write] and [read], which may transfer less
    than asked.  The host is a map from paths to contents; how much one call
    transfers, which opens succeed and how much a file accepts before the device
    is full are arguments, and the theorems hold for all of them. *)
From S2P Require Import Prelude.

Abbreviation Files := (gmap bytes bytes).

(** The answers of the host during one load or save: whether [open] succeeds, at
    most how many bytes a transfer moves, and how many the device takes.  The
    limit of a transfer may be different for every call: it is a function of
    the room left on the device for a write, and of the bytes left in the file
    for a read, which no two calls on one file that transfer something share. *)
Record HostIo := mkIo { io_open : bool; io_burst : nat -> nat; io_room : nat }.

(** A call transfers something when it can. *)
Definition host_ok (io : HostIo) : Prop := forall k, (1 <= io_burst io k)%nat.

(** [write(fd, p, n)]: how many bytes are taken; none is an error. *)
Definition host_write (burst : nat -> nat) (room n : nat) : nat := Nat.min n (Nat.min (burst room) room).

(** [writeAll]: what reaches the file, the room left, and the answer.  Every
    turn writes a byte or ends, so the length of the data is fuel enough. *)
Fixpoint writeAll_loop (fuel : nat) (burst : nat -> nat) (room : nat) (data : bytes) : bytes * nat * bool :=
  match data, fuel with
  | [], _ => ([], room, true)
  | _, O => ([], room, false)
  | _, S fuel' =>
      let w := host_write burst room (length data) in
      if (w <=? 0)%nat then ([], room, false)
      else
        let '(rest, room', ok) := writeAll_loop fuel' burst (room - w) (drop w data) in
        (take w data ++ rest, room', ok)
  end.
Definition writeAll (burst : nat -> nat) (room : nat) (data : bytes) : bytes * nat * bool :=
  writeAll_loop (length data) burst room data.

(** [readAll] of [n] bytes from what is left of the file: the bytes and what is
    left after them. *)
Fixpoint readAll_loop (fuel : nat) (burst : nat -> nat) (left : bytes) (n : nat) : option (bytes * bytes) :=
  match n, fuel with
  | O, _ => Some ([], left)
  | _, O => None
  | _, S fuel' =>
      let r := Nat.min n (Nat.min (burst (length left)) (length left)) in
      if (r <=? 0)%nat then None
      else
        '(got, left') ← readAll_loop fuel' burst (drop r left) (n - r);
        Some (take r left ++ got, left')
  end.
Definition readAll (burst : nat -> nat) (left : bytes) (n : nat) : option (bytes * bytes) :=
  readAll_loop n burst left n.

(** A file opened with [O_TRUNC] after a sequence of [writeAll]s whose answers
    the caller drops. *)
Fixpoint writes (burst : nat -> nat) (room : nat) (chunks : list bytes) : bytes :=
  match chunks with
  | [] => []
  | c :: rest => let '(w, room', _) := writeAll burst room c in w ++ writes burst room' rest
  end.

Definition save_file (io : HostIo) (path : bytes) (chunks : list bytes) (fs : Files) : Files :=
  if io_open io then <[path := writes (io_burst io) (io_room io) chunks]> fs else fs.

Definition open_file (io : HostIo) (path : bytes) (fs : Files) : option bytes :=
  if io_open io then fs !! path else None.

Section Lemmas.

Lemma writeAll_spec burst room data :
  (forall k, (1 <= burst k)%nat) ->
  writeAll burst room data =
    (take room data, (room - length data)%nat, (length data <=? room)%nat).
Proof.
  intros Hb. unfold writeAll.
  assert (forall fuel room data, (length data <= fuel)%nat ->
    writeAll_loop fuel burst room data
    = (take room data, (room - length data)%nat, (length data <=? room)%nat)) as H; [|by apply H].
  clear room data. induction fuel as [|fuel IH]; intros room [|b data] Hf; try (simpl in Hf; lia).
  1, 2: simpl; by rewrite take_nil, Nat.sub_0_r.
  cbn [writeAll_loop]. unfold host_write. pose proof (Hb room). set (w := Nat.min _ _). set (d := b :: data) in *.
  assert (1 <= length d)%nat by (subst d; simpl; lia).
  destruct (w <=? 0)%nat eqn:E.
  - assert (room = 0)%nat as -> by lia. destruct (length d <=? 0)%nat eqn:E'; [lia|]. by rewrite take_0.
  - rewrite IH by (rewrite length_drop; lia). rewrite length_drop. f_equal; [f_equal|].
    + rewrite take_drop_commute, Nat.add_sub_assoc, Nat.add_comm, Nat.add_sub by lia.
      transitivity (take w (take room d) ++ drop w (take room d)); [|by rewrite take_drop].
      f_equal. rewrite take_take. f_equal. lia.
    + lia.
    + lia.
Qed.

Lemma readAll_spec burst left n :
  (forall k, (1 <= burst k)%nat) ->
  readAll burst left n =
    if (n <=? length left)%nat then Some (take n left, drop n left) else None.
Proof.
  intros Hb. unfold readAll.
  assert (forall fuel n left, (n <= fuel)%nat ->
    readAll_loop fuel burst left n
    = if (n <=? length left)%nat then Some (take n left, drop n left) else None) as H; [|by apply H].
  clear left n. induction fuel as [|fuel IH]; intros [|n] left Hf; try lia; [done..|].
  cbn [readAll_loop]. pose proof (Hb (length left)). set (r := Nat.min _ _). destruct (r <=? 0)%nat eqn:E.
  - assert (length left = 0)%nat as Hl by lia. by rewrite Hl.
  - rewrite IH by lia. rewrite length_drop.
    destruct (S n - r <=? length left - r)%nat eqn:E1, (S n <=? length left)%nat eqn:E2; try lia; [|done].
    simpl. rewrite drop_drop. do 2 f_equal.
    + rewrite take_drop_commute. replace (r + (S n - r))%nat with (S n) by lia.
      transitivity (take r (take (S n) left) ++ drop r (take (S n) left)); [|by rewrite take_drop].
      f_equal. rewrite take_take. f_equal. lia.
    + f_equal. lia.
Qed.

Lemma writes_spec burst room chunks :
  (forall k, (1 <= burst k)%nat) -> writes burst room chunks = take room (concat chunks).
Proof.
  intros Hb. revert room. induction chunks as [|c chunks IH]; intros room; simpl; [by rewrite take_nil|].
  rewrite writeAll_spec by done. rewrite IH, take_app. done.
Qed.

(** A file with room for all of it holds exactly what was written. *)
Lemma save_open io io' path chunks fs :
  io_open io = true -> io_open io' = true -> host_ok io -> (length (concat chunks) <= io_room io)%nat ->
  open_file io' path (save_file io path chunks fs) = Some (concat chunks).
Proof.
  intros Ho Ho' Hb Hr. unfold open_file, save_file. rewrite Ho, Ho', lookup_insert_eq, writes_spec by done.
  f_equal. by apply take_ge.
Qed.

Lemma save_other io path path' chunks fs :
  path' <> path -> save_file io path chunks fs !! path' = fs !! path'.
Proof. intros. unfold save_file. destruct (io_open io); [|done]. by rewrite lookup_insert_ne. Qed.

Lemma readAll_app burst a b : (forall k, (1 <= burst k)%nat) -> readAll burst (a ++ b) (length a) = Some (a, b).
Proof.
  intros Hb. rewrite readAll_spec, length_app by done.
  destruct (length a <=? _)%nat eqn:E; [|lia]. by rewrite take_app_length, drop_app_length.
Qed.

End Lemmas.
