(* ===== verification/Psn.v ===== *)
(** * The local PSN account, trophies and leaderboards

    [psn/PsnBackend.cpp]: the simulated account and its persistent stores, with
    the three binary file formats.  The files are a map from paths to contents
    ([HostFile]); the answers of the host during each load and save, the clock,
    and the creation of the directories are arguments.  [std::sort] is an
    argument too: it promises an ordered permutation and leaves the order of
    equal scores open. *)
From stdpp Require Import sorting.
From S2P Require Import Prelude HostFile SaveContainer Nid.
Import SaveContainer (sub).

(** ** Data ([psn/PsnTypes.hpp]) *)
Record AccountInfo := mkAccount {
  accountId : Z; onlineId : bytes; region : bytes; language : bytes; age : Z; acc_flags : Z
}.
Definition default_account : AccountInfo := mkAccount 0 (cstr "Player1") (cstr "us") (cstr "en") 25 0.

(** [grade] is the value of the enum, which a file may set to anything. *)
Record TrophyDef := mkDef { def_id : Z; grade : Z; title : bytes; description : bytes; hidden : bool }.
Record TrophyState := mkState { st_id : Z; unlocked : bool; unlockedAt : Z }.
Record ScoreEntry := mkScore { se_board : Z; score : Z; comment : bytes; timestamp : Z; rank : Z }.

Definition default_def : TrophyDef := mkDef 0 3 [] [] false.
Definition default_state : TrophyState := mkState 0 false 0.
Definition default_score : ScoreEntry := mkScore 0 0 [] 0 0.

(** ** File formats *)
Definition kAccountMagic : Z := 0x4E435041.
Definition kTrophyMagic : Z := 0x50485254.
Definition kScoreMagic : Z := 0x52435350.
Definition kFormatVersion : Z := 1.

Definition fnv1a (data : bytes) : Z :=
  foldl (fun h b => u32 (Z.lxor h b * 0x01000193)) 0x811C9DC5 data.

(** The packed structures, as the list of their fields. *)
Definition account_fields (a : AccountInfo) (crc : Z) : list bytes :=
  [le_encode 4 kAccountMagic; le_encode 4 kFormatVersion; le_encode 8 (accountId a);
   le_encode 4 (age a); le_encode 4 (acc_flags a); copyStr 32 (onlineId a); copyStr 8 (region a);
   copyStr 8 (language a); le_encode 4 crc; le_encode 4 0].
Definition account_crc (a : AccountInfo) : Z :=
  Z.lxor (Z.lxor (fnv1a (copyStr 32 (onlineId a))) (fnv1a (copyStr 8 (region a))))
    (fnv1a (copyStr 8 (language a))).
Definition AccountHeader (a : AccountInfo) : list bytes := account_fields a (account_crc a).

Definition TrophyHeader (titleId : Z) (defCount stateCount : Z) : list bytes :=
  [le_encode 4 kTrophyMagic; le_encode 4 kFormatVersion; le_encode 8 titleId;
   le_encode 4 (u32 defCount); le_encode 4 (u32 stateCount); replicate 16 0].
Definition TrophyDefRecord (d : TrophyDef) : list bytes :=
  [le_encode 4 (def_id d); le_encode 4 (grade d); le_encode 4 (if hidden d then 1 else 0);
   le_encode 4 0; copyStr 64 (title d); copyStr 128 (description d)].
Definition TrophyStateRecord (s : TrophyState) : list bytes :=
  [le_encode 4 (st_id s); le_encode 4 (if unlocked s then 1 else 0); le_encode 8 (unlockedAt s)].

Definition ScoreHeader (boardId entryCount : Z) : list bytes :=
  [le_encode 4 kScoreMagic; le_encode 4 kFormatVersion; le_encode 4 boardId;
   le_encode 4 (u32 entryCount); replicate 16 0].
Definition ScoreRecord (e : ScoreEntry) : list bytes :=
  [le_encode 8 (score e); le_encode 8 (timestamp e); le_encode 4 (rank e); le_encode 4 0;
   copyStr 64 (comment e)].

Definition account_size : nat := 80.
Definition trophy_header_size : nat := 40.
Definition def_size : nat := 208.
Definition state_size : nat := 16.
Definition score_header_size : nat := 32.
Definition score_size : nat := 88.

Definition parse_account (h : bytes) : AccountInfo :=
  mkAccount (field h 8 8) (readStr (sub h 24 32)) (readStr (sub h 56 8)) (readStr (sub h 64 8))
    (field h 16 4) (field h 20 4).
Definition parse_def (r : bytes) : TrophyDef :=
  mkDef (field r 0 4) (field r 4 4) (readStr (sub r 16 64)) (readStr (sub r 80 128))
    (negb (field r 8 4 =? 0)).
Definition parse_state (r : bytes) : TrophyState :=
  mkState (field r 0 4) (negb (field r 4 4 =? 0)) (field r 8 8).
Definition parse_score (boardId : Z) (r : bytes) : ScoreEntry :=
  mkScore boardId (field r 0 8) (readStr (sub r 24 64)) (field r 8 8) (field r 16 4).

(** ** The backend *)
Record TitleState := mkTitle { defs : list TrophyDef; states : list TrophyState; t_loaded : bool }.
Record BoardState := mkBoard { entries : list ScoreEntry; b_loaded : bool }.

Record PsnBackend := mkPsn {
  m_persistRoot : bytes;
  m_accountDir : bytes;
  m_account : AccountInfo;
  m_signedIn : bool;
  m_titles : gmap Z TitleState;
  m_boards : gmap Z BoardState;
  m_files : Files
}.

(** A new process on the files of an earlier one. *)
Definition new_backend (fs : Files) : PsnBackend := mkPsn [] [] default_account false ∅ ∅ fs.

Definition with_account (a : AccountInfo) (s : PsnBackend) : PsnBackend :=
  mkPsn (m_persistRoot s) (m_accountDir s) a (m_signedIn s) (m_titles s) (m_boards s) (m_files s).
Definition with_signed (b : bool) (s : PsnBackend) : PsnBackend :=
  mkPsn (m_persistRoot s) (m_accountDir s) (m_account s) b (m_titles s) (m_boards s) (m_files s).
Definition with_title (id : Z) (t : TitleState) (s : PsnBackend) : PsnBackend :=
  mkPsn (m_persistRoot s) (m_accountDir s) (m_account s) (m_signedIn s) (<[id := t]> (m_titles s))
    (m_boards s) (m_files s).
Definition with_board (id : Z) (b : BoardState) (s : PsnBackend) : PsnBackend :=
  mkPsn (m_persistRoot s) (m_accountDir s) (m_account s) (m_signedIn s) (m_titles s)
    (<[id := b]> (m_boards s)) (m_files s).
Definition with_files (fs : Files) (s : PsnBackend) : PsnBackend :=
  mkPsn (m_persistRoot s) (m_accountDir s) (m_account s) (m_signedIn s) (m_titles s) (m_boards s) fs.

Definition account_path (s : PsnBackend) : bytes := m_accountDir s ++ cstr "/account.dat".
Definition trophy_path (s : PsnBackend) (titleId : Z) : bytes :=
  m_accountDir s ++ cstr "/trophies/" ++ SceNid.hex_digits 16 titleId ++ cstr ".dat".
Definition score_path (s : PsnBackend) (boardId : Z) : bytes :=
  m_accountDir s ++ cstr "/scores/" ++ SceNid.hex_digits 8 boardId ++ cstr ".dat".

Definition hashTitleId (s : bytes) : Z :=
  foldl (fun h c => u64 (Z.lxor h c * 0x100000001B3)) 0xCBF29CE484222325 s.

(** *** Account *)
Definition loadAccount (io : HostIo) (s : PsnBackend) : PsnBackend * bool :=
  match open_file io (account_path s) (m_files s) with
  | None => (s, false)
  | Some f =>
      match readAll (io_burst io) f account_size with
      | None => (s, false)
      | Some (h, _) =>
          if negb (field h 0 4 =? kAccountMagic) || negb (field h 4 4 =? kFormatVersion) then (s, false)
          else (with_account (parse_account h) s, true)
      end
  end.

Definition saveAccount (io : HostIo) (s : PsnBackend) : PsnBackend :=
  with_files (save_file io (account_path s) [concat (AccountHeader (m_account s))] (m_files s)) s.

(** [dirs_ok]: the four [ensureDirectory] calls succeed; [a] and [b] answer the
    load and the save. *)
Definition initialize (dirs_ok : bool) (a b : HostIo) (persistRoot onlineId : bytes) (s : PsnBackend)
    : PsnBackend * bool :=
  if negb (bool_decide (m_persistRoot s = [])) then (s, true)
  else
    let s := mkPsn persistRoot (persistRoot ++ cstr "/" ++ onlineId) (m_account s) (m_signedIn s)
               (m_titles s) (m_boards s) (m_files s) in
    if negb dirs_ok then (s, false)
    else
      let acc := m_account s in
      let s := with_account (mkAccount (accountId acc) onlineId (region acc) (language acc) (age acc)
                               (acc_flags acc)) s in
      let '(s, loaded) := loadAccount a s in
      let s :=
        if loaded then s
        else saveAccount b (with_account
               (mkAccount (Z.land (hashTitleId onlineId) 0x7FFFFFFF) onlineId (cstr "us") (cstr "en") 25 0) s) in
      (with_signed true s, true).

Definition signIn (s : PsnBackend) : PsnBackend * bool := (with_signed true s, true).
Definition signOut (s : PsnBackend) : PsnBackend := with_signed false s.

(** *** Trophies *)
Definition resize {A} (n : nat) (d : A) (l : list A) : list A := take n l ++ replicate (n - length l) d.

(** Reads a record into each place of a vector, in order, until one is short. *)
Fixpoint read_records {A} (burst : nat -> nat) (size : nat) (parse : bytes -> A) (rest0 : bytes) (vec : list A)
    : list A * option bytes :=
  match vec with
  | [] => ([], Some rest0)
  | v :: rest =>
      match readAll burst rest0 size with
      | None => (v :: rest, None)
      | Some (r, tl1) =>
          let '(vec', tl2) := read_records burst size parse tl1 rest in (parse r :: vec', tl2)
      end
  end.

Definition no_title : TitleState := mkTitle [] [] false.

Definition loadTrophies (io : HostIo) (titleId : Z) (s : PsnBackend) : PsnBackend * bool :=
  let ts := default no_title (m_titles s !! titleId) in
  if t_loaded ts then (with_title titleId ts s, true)
  else
    match open_file io (trophy_path s titleId) (m_files s) with
    | None => (with_title titleId (mkTitle (defs ts) (states ts) true) s, true)
    | Some f =>
        match readAll (io_burst io) f trophy_header_size with
        | None => (with_title titleId (mkTitle (defs ts) (states ts) true) s, false)
        | Some (h, rest0) =>
            if negb (field h 0 4 =? kTrophyMagic) || negb (field h 4 4 =? kFormatVersion)
               || negb (field h 8 8 =? titleId)
            then (with_title titleId (mkTitle (defs ts) (states ts) true) s, false)
            else
              let '(ds, rest1) := read_records (io_burst io) def_size parse_def rest0
                                    (resize (Z.to_nat (field h 16 4)) default_def (defs ts)) in
              match rest1 with
              | None => (with_title titleId (mkTitle ds (states ts) false) s, false)
              | Some rest1 =>
                  let '(ss, rest2) := read_records (io_burst io) state_size parse_state rest1
                                        (resize (Z.to_nat (field h 20 4)) default_state (states ts)) in
                  match rest2 with
                  | None => (with_title titleId (mkTitle ds ss false) s, false)
                  | Some _ => (with_title titleId (mkTitle ds ss true) s, true)
                  end
              end
        end
    end.

Definition trophy_chunks (titleId : Z) (ts : TitleState) : list bytes :=
  concat (TrophyHeader titleId (Z.of_nat (length (defs ts))) (Z.of_nat (length (states ts)))) ::
  ((fun d => concat (TrophyDefRecord d)) <$> defs ts) ++
  ((fun x => concat (TrophyStateRecord x)) <$> states ts).

Definition saveTrophies (io : HostIo) (titleId : Z) (s : PsnBackend) : PsnBackend :=
  match m_titles s !! titleId with
  | None => s
  | Some ts => with_files (save_file io (trophy_path s titleId) (trophy_chunks titleId ts) (m_files s)) s
  end.

(** The unlock flag of the last state with this id: what [prior] holds. *)
Definition prior (ss : list TrophyState) (id : Z) : option bool :=
  foldl (fun acc x => if st_id x =? id then Some (unlocked x) else acc) None ss.

Definition reconcile (ss : list TrophyState) (ds : list TrophyDef) : list TrophyState :=
  (fun d => mkState (def_id d) (default false (prior ss (def_id d))) 0) <$> ds.

Definition registerTitle (a b : HostIo) (titleId : Z) (ds : list TrophyDef) (s : PsnBackend) : PsnBackend :=
  let s := fst (loadTrophies a titleId s) in
  let ts := default no_title (m_titles s !! titleId) in
  saveTrophies b titleId (with_title titleId (mkTitle ds (reconcile (states ts) ds) (t_loaded ts)) s).

Definition find_state (ss : list TrophyState) (trophyId : Z) : option (nat * TrophyState) :=
  list_find (fun x => st_id x = trophyId) ss.

Definition isTrophyUnlocked (s : PsnBackend) (titleId trophyId : Z) : bool :=
  match m_titles s !! titleId with
  | None => false
  | Some ts => match find_state (states ts) trophyId with Some (_, x) => unlocked x | None => false end
  end.

Definition unlockTrophy (io : HostIo) (now titleId trophyId : Z) (s : PsnBackend) : PsnBackend * bool :=
  match m_titles s !! titleId with
  | None => (s, false)
  | Some ts =>
      match find_state (states ts) trophyId with
      | None => (s, false)
      | Some (i, x) =>
          if unlocked x then (s, false)
          else
            let ss := <[i := mkState (st_id x) true now]> (states ts) in
            (saveTrophies io titleId (with_title titleId (mkTitle (defs ts) ss (t_loaded ts)) s), true)
      end
  end.

Definition trophyStates (s : PsnBackend) (titleId : Z) : list TrophyState :=
  default [] (states <$> m_titles s !! titleId).
Definition trophyDefs (s : PsnBackend) (titleId : Z) : list TrophyDef :=
  default [] (defs <$> m_titles s !! titleId).

Record TrophyCounts := mkCounts { platinum : Z; gold : Z; silver : Z; bronze : Z }.

Definition count_grade (g : Z) (c : TrophyCounts) : TrophyCounts :=
  if g =? 0 then mkCounts (u32 (platinum c + 1)) (gold c) (silver c) (bronze c)
  else if g =? 1 then mkCounts (platinum c) (u32 (gold c + 1)) (silver c) (bronze c)
  else if g =? 2 then mkCounts (platinum c) (gold c) (u32 (silver c + 1)) (bronze c)
  else if g =? 3 then mkCounts (platinum c) (gold c) (silver c) (u32 (bronze c + 1))
  else c.

Definition count_state (ds : list TrophyDef) (c : TrophyCounts) (x : TrophyState) : TrophyCounts :=
  if unlocked x then
    match list_find (fun d => def_id d = st_id x) ds with
    | Some (_, d) => count_grade (grade d) c
    | None => c
    end
  else c.

Definition trophyCounts (s : PsnBackend) (titleId : Z) : TrophyCounts :=
  match m_titles s !! titleId with
  | None => mkCounts 0 0 0 0
  | Some ts => foldl (count_state (defs ts)) (mkCounts 0 0 0 0) (states ts)
  end.

(** *** Scores *)
Definition no_board : BoardState := mkBoard [] false.

Definition loadScores (io : HostIo) (boardId : Z) (s : PsnBackend) : PsnBackend * bool :=
  let bs := default no_board (m_boards s !! boardId) in
  if b_loaded bs then (with_board boardId bs s, true)
  else
    match open_file io (score_path s boardId) (m_files s) with
    | None => (with_board boardId (mkBoard (entries bs) true) s, true)
    | Some f =>
        match readAll (io_burst io) f score_header_size with
        | None => (with_board boardId (mkBoard (entries bs) true) s, false)
        | Some (h, rest0) =>
            if negb (field h 0 4 =? kScoreMagic) || negb (field h 4 4 =? kFormatVersion)
            then (with_board boardId (mkBoard (entries bs) true) s, false)
            else
              let '(es, rest1) := read_records (io_burst io) score_size (parse_score boardId) rest0
                                    (resize (Z.to_nat (field h 12 4)) default_score (entries bs)) in
              match rest1 with
              | None => (with_board boardId (mkBoard es false) s, false)
              | Some _ => (with_board boardId (mkBoard es true) s, true)
              end
        end
    end.

Definition score_chunks (boardId : Z) (es : list ScoreEntry) : list bytes :=
  concat (ScoreHeader boardId (Z.of_nat (length es))) :: ((fun e => concat (ScoreRecord e)) <$> es).

Definition saveScores (io : HostIo) (boardId : Z) (s : PsnBackend) : PsnBackend :=
  match m_boards s !! boardId with
  | None => s
  | Some bs => with_files (save_file io (score_path s boardId) (score_chunks boardId (entries bs)) (m_files s)) s
  end.

Definition set_rank (i : nat) (e : ScoreEntry) : ScoreEntry :=
  mkScore (se_board e) (score e) (comment e) (timestamp e) (u32 (Z.of_nat i + 1)).

Definition submitScore (sort : list ScoreEntry -> list ScoreEntry) (a b : HostIo)
    (now boardId sc : Z) (cm : bytes) (s : PsnBackend) : PsnBackend :=
  let s := fst (loadScores a boardId s) in
  let bs := default no_board (m_boards s !! boardId) in
  let es := imap set_rank (sort (entries bs ++ [mkScore boardId sc cm now 0])) in
  saveScores b boardId (with_board boardId (mkBoard es (b_loaded bs)) s).

(** *** Shutdown *)
Definition shutdown (io : HostIo) (s : PsnBackend) : PsnBackend :=
  let s := foldr (fun '(id, t) s => if t_loaded t then saveTrophies io id s else s) s (map_to_list (m_titles s)) in
  let s := foldr (fun '(id, b) s => if b_loaded b then saveScores io id s else s) s (map_to_list (m_boards s)) in
  mkPsn (m_persistRoot s) (m_accountDir s) (m_account s) false ∅ ∅ (m_files s).

(** ** Records and their fields *)
Section Records.

(** A field of a structure written as the list of its fields. *)
Lemma sub_field parts i p off :
  parts !! i = Some p -> length (concat (take i parts)) = off ->
  sub (concat parts) off (length p) = p.
Proof.
  intros Hi <-. apply take_drop_middle in Hi. rewrite <- Hi at 1. rewrite concat_app.
  unfold sub. rewrite drop_app_length. simpl. by rewrite take_app_length.
Qed.

Lemma field_at parts i n v off :
  parts !! i = Some (le_encode n v) -> 0 <= v < 2 ^ (8 * Z.of_nat n) ->
  length (concat (take i parts)) = off -> field (concat parts) off n = v.
Proof.
  intros Hi Hv Hoff. rewrite field_sub. pose proof (sub_field parts i _ off Hi Hoff) as H.
  rewrite length_le_encode in H. rewrite H. by apply le_decode_encode.
Qed.

Lemma sub_str parts i cap s off :
  parts !! i = Some (copyStr cap s) -> (0 < cap)%nat -> length (concat (take i parts)) = off ->
  sub (concat parts) off cap = copyStr cap s.
Proof.
  intros Hi Hc Hoff. pose proof (sub_field parts i _ off Hi Hoff) as H.
  by rewrite length_copyStr in H.
Qed.

(** What a fixed-size field keeps of a string. *)
Definition clip (cap : nat) (s : bytes) : bytes := readStr (copyStr cap s).

Lemma clip_fits cap s : SaveContainer.string_fits cap s -> clip cap s = s.
Proof. apply readStr_copyStr. Qed.

End Records.

(** Lengths of concatenations of fields. *)
Ltac field_len :=
  unfold TrophyDefRecord, TrophyStateRecord, ScoreRecord, account_fields, TrophyHeader, ScoreHeader; cbv zeta;
  cbn [concat take app length];
  repeat first [rewrite length_app | rewrite length_le_encode | rewrite length_replicate
               | rewrite length_copyStr by lia];
  try reflexivity; lia.

Section Formats.

Definition def_ok (d : TrophyDef) : Prop := in_width 32 (def_id d) /\ in_width 32 (grade d).
Definition state_ok (x : TrophyState) : Prop := in_width 32 (st_id x) /\ in_width 64 (unlockedAt x).
Definition score_ok (e : ScoreEntry) : Prop :=
  in_width 64 (score e) /\ in_width 64 (timestamp e) /\ in_width 32 (rank e).
Definition account_ok (a : AccountInfo) : Prop :=
  in_width 64 (accountId a) /\ in_width 32 (age a) /\ in_width 32 (acc_flags a).

Definition clip_def (d : TrophyDef) : TrophyDef :=
  mkDef (def_id d) (grade d) (clip 64 (title d)) (clip 128 (description d)) (hidden d).
Definition clip_score (e : ScoreEntry) : ScoreEntry :=
  mkScore (se_board e) (score e) (clip 64 (comment e)) (timestamp e) (rank e).
Definition clip_account (a : AccountInfo) : AccountInfo :=
  mkAccount (accountId a) (clip 32 (onlineId a)) (clip 8 (region a)) (clip 8 (language a)) (age a) (acc_flags a).

Lemma flag_width (b : bool) : 0 <= (if b then 1 else 0) < 2 ^ (8 * Z.of_nat 4).
Proof. by destruct b. Qed.
Lemma flag_back (b : bool) : negb ((if b then 1 else 0) =? 0) = b.
Proof. by destruct b. Qed.

Lemma def_roundtrip d : def_ok d -> parse_def (concat (TrophyDefRecord d)) = clip_def d.
Proof.
  intros [H1 H2]. unfold parse_def, clip_def, clip.
  rewrite (field_at _ 0 4 (def_id d)), (field_at _ 1 4 (grade d)),
    (field_at _ 2 4 (if hidden d then 1 else 0)), (sub_str _ 4 64 (title d)),
    (sub_str _ 5 128 (description d)), flag_back;
    try reflexivity; try assumption; try apply flag_width; try lia; field_len.
Qed.

Lemma state_roundtrip x : state_ok x -> parse_state (concat (TrophyStateRecord x)) = x.
Proof.
  intros [H1 H2]. unfold parse_state. destruct x as [id un at_]. simpl in H1, H2.
  rewrite (field_at _ 0 4 id), (field_at _ 1 4 (if un then 1 else 0)), (field_at _ 2 8 at_),
    flag_back; try reflexivity; try assumption; try apply flag_width; field_len.
Qed.

Lemma score_roundtrip e : score_ok e -> parse_score (se_board e) (concat (ScoreRecord e)) = clip_score e.
Proof.
  intros (H1 & H2 & H3). unfold parse_score, clip_score, clip.
  rewrite (field_at _ 0 8 (score e)), (field_at _ 1 8 (timestamp e)), (field_at _ 2 4 (rank e)),
    (sub_str _ 4 64 (comment e)); try reflexivity; try assumption; try lia; field_len.
Qed.

Lemma account_roundtrip a crc : account_ok a -> parse_account (concat (account_fields a crc)) = clip_account a.
Proof.
  intros (H1 & H2 & H3). unfold parse_account, clip_account, clip.
  rewrite (field_at _ 2 8 (accountId a)), (field_at _ 3 4 (age a)), (field_at _ 4 4 (acc_flags a)),
    (sub_str _ 5 32 (onlineId a)), (sub_str _ 6 8 (region a)), (sub_str _ 7 8 (language a));
    try reflexivity; try assumption; try lia; field_len.
Qed.

Lemma length_def d : length (concat (TrophyDefRecord d)) = def_size.
Proof. unfold TrophyDefRecord, def_size. field_len. Qed.
Lemma length_state x : length (concat (TrophyStateRecord x)) = state_size.
Proof. unfold TrophyStateRecord, state_size. field_len. Qed.
Lemma length_score e : length (concat (ScoreRecord e)) = score_size.
Proof. unfold ScoreRecord, score_size. field_len. Qed.

(** Reading back a run of records. *)
Lemma read_records_app {A} burst size (parse : bytes -> A) (recs : list bytes) (vec : list A) tail :
  (forall k, (1 <= burst k)%nat) -> Forall (fun r => length r = size) recs -> length vec = length recs ->
  read_records burst size parse (concat recs ++ tail) vec = (parse <$> recs, Some tail).
Proof.
  intros Hb Hr. revert vec. induction Hr as [|r recs Hl Hr IH]; intros [|v vec] Hv; try done.
  cbn [read_records concat fmap list_fmap]. rewrite <- app_assoc, <- Hl, readAll_app by done.
  rewrite Hl, IH by (simpl in Hv; lia). done.
Qed.

Lemma length_resize {A} n (d : A) l : length (resize n d l) = n.
Proof. unfold resize. rewrite length_app, length_take, length_replicate. lia. Qed.

End Formats.

(** ** Loading what was saved *)
Section Stores.

Definition title_ok (ts : TitleState) : Prop :=
  Forall def_ok (defs ts) /\ Forall state_ok (states ts) /\
  Z.of_nat (length (defs ts)) < 2 ^ 32 /\ Z.of_nat (length (states ts)) < 2 ^ 32.

(** A host that opens the file and has room for [n] bytes. *)
Definition good (io : HostIo) (n : nat) : Prop :=
  io_open io = true /\ host_ok io /\ (n <= io_room io)%nat.

Lemma concat_chunks titleId ts :
  concat (trophy_chunks titleId ts) =
  concat (TrophyHeader titleId (Z.of_nat (length (defs ts))) (Z.of_nat (length (states ts)))) ++
  concat ((fun d => concat (TrophyDefRecord d)) <$> defs ts) ++
  concat ((fun x => concat (TrophyStateRecord x)) <$> states ts) ++ [].
Proof. unfold trophy_chunks. cbn [concat]. by rewrite concat_app, app_nil_r. Qed.

Lemma length_concat_records {A} (f : A -> bytes) n (l : list A) :
  (forall x, length (f x) = n) -> length (concat (f <$> l)) = (n * length l)%nat.
Proof.
  intros Hf. induction l as [|x l IH]; [simpl; lia|]. rewrite fmap_cons. cbn [concat length].
  rewrite length_app, Hf, IH. lia.
Qed.

Lemma length_trophy_header titleId x y : length (concat (TrophyHeader titleId x y)) = trophy_header_size.
Proof. unfold trophy_header_size. field_len. Qed.

Lemma length_trophy_chunks titleId ts :
  length (concat (trophy_chunks titleId ts))
  = (trophy_header_size + def_size * length (defs ts) + state_size * length (states ts))%nat.
Proof.
  rewrite concat_chunks, !length_app, length_trophy_header.
  rewrite (length_concat_records _ def_size), (length_concat_records _ state_size)
    by (apply length_def || apply length_state). simpl. lia.
Qed.

Lemma trophy_header_fields titleId x y :
  in_width 64 titleId -> 0 <= x < 2 ^ 32 -> 0 <= y < 2 ^ 32 ->
  let h := concat (TrophyHeader titleId x y) in
  field h 0 4 = kTrophyMagic /\ field h 4 4 = kFormatVersion /\ field h 8 8 = titleId /\
  field h 16 4 = x /\ field h 20 4 = y.
Proof.
  intros Ht Hx Hy h. unfold h.
  rewrite (field_at _ 0 4 kTrophyMagic), (field_at _ 1 4 kFormatVersion), (field_at _ 2 8 titleId),
    (field_at _ 3 4 x), (field_at _ 4 4 y); [by split_and!|..];
    try reflexivity; try assumption; try field_len; try (unfold kTrophyMagic, kFormatVersion; lia);
    unfold TrophyHeader; simpl; by rewrite (wrap_id 32) by (unfold in_width; lia).
Qed.

Lemma parse_records {A} (parse : bytes -> A) (enc : A -> bytes) (norm : A -> A) (P : A -> Prop) l :
  (forall x, P x -> parse (enc x) = norm x) -> Forall P l -> parse <$> (enc <$> l) = norm <$> l.
Proof. intros Hp. induction 1 as [|x l Hx Hl IH]; [done|]. rewrite !fmap_cons. by rewrite Hp, IH. Qed.

(** A store of trophies read by a backend that has not loaded the title. *)
Lemma load_saved_trophies io titleId ts s :
  in_width 64 titleId -> title_ok ts -> host_ok io -> m_titles s !! titleId = None ->
  open_file io (trophy_path s titleId) (m_files s) = Some (concat (trophy_chunks titleId ts)) ->
  loadTrophies io titleId s
  = (with_title titleId (mkTitle (clip_def <$> defs ts) (states ts) true) s, true).
Proof.
  intros Hid (Hd & Hs & Hnd & Hns) Hio Hnone Hopen. unfold loadTrophies. rewrite Hnone. cbn [default].
  simpl t_loaded. cbv iota. rewrite Hopen, concat_chunks.
  destruct (trophy_header_fields titleId (Z.of_nat (length (defs ts))) (Z.of_nat (length (states ts)))
    Hid ltac:(lia) ltac:(lia)) as (H0 & H1 & H2 & H3 & H4).
  set (h := concat (TrophyHeader _ _ _)) in *.
  replace trophy_header_size with (length h) by apply length_trophy_header.
  rewrite readAll_app by done. rewrite H0, H1, H2, H3, H4, !Z.eqb_refl. cbn [negb orb].
  rewrite !Nat2Z.id. cbn [defs states no_title].
  rewrite read_records_app; [|done| |by rewrite length_resize, length_fmap].
  2: { apply Forall_fmap, Forall_forall. intros d _. apply length_def. }
  rewrite read_records_app; [|done| |by rewrite length_resize, length_fmap].
  2: { apply Forall_fmap, Forall_forall. intros x _. apply length_state. }
  rewrite (parse_records parse_def _ clip_def def_ok) by (done || apply def_roundtrip).
  rewrite (parse_records parse_state _ id state_ok) by (done || apply state_roundtrip).
  by rewrite list_fmap_id.
Qed.

(** [files s] holds what the title's state says. *)
Definition synced (s : PsnBackend) (titleId : Z) (ts : TitleState) : Prop :=
  m_titles s !! titleId = Some ts /\
  m_files s !! trophy_path s titleId = Some (concat (trophy_chunks titleId ts)).

Lemma save_synced io titleId ts s :
  m_titles s !! titleId = Some ts ->
  good io (trophy_header_size + def_size * length (defs ts) + state_size * length (states ts)) ->
  synced (saveTrophies io titleId s) titleId ts.
Proof.
  intros Hs (Ho & Hb & Hr). unfold saveTrophies. rewrite Hs. split; [done|].
  cbn [with_files m_files]. change (trophy_path (with_files _ s) titleId) with (trophy_path s titleId).
  pose proof (save_open io io (trophy_path s titleId) (trophy_chunks titleId ts) (m_files s) Ho Ho Hb) as H.
  rewrite length_trophy_chunks in H. specialize (H Hr). unfold open_file in H. by rewrite Ho in H.
Qed.

(** *** Reconciliation *)
Lemma prior_snoc ss x id : prior (ss ++ [x]) id = if st_id x =? id then Some (unlocked x) else prior ss id.
Proof. unfold prior. by rewrite foldl_app. Qed.

Lemma find_state_Some ss id i x :
  find_state ss id = Some (i, x) -> ss !! i = Some x /\ st_id x = id.
Proof. intros (H1 & H2 & _)%list_find_Some. done. Qed.

(** With one state per trophy, the flag kept is the flag there is. *)
Lemma prior_find ss id :
  NoDup (st_id <$> ss) -> prior ss id = unlocked <$> (snd <$> find_state ss id).
Proof.
  induction ss as [|x ss IH] using rev_ind; [done|]. rewrite fmap_app, prior_snoc.
  intros (Hnd & Hx & _)%NoDup_app. specialize (IH Hnd). unfold find_state in *.
  destruct (st_id x =? id) eqn:E.
  - apply Z.eqb_eq in E. subst id. rewrite list_find_app_r.
    + simpl. by rewrite decide_True.
    + apply list_find_None, Forall_forall. intros y Hy Heq. apply (Hx (st_id x)).
      * rewrite <- Heq. by apply list_elem_of_fmap_2.
      * by apply list_elem_of_singleton.
  - destruct (list_find _ ss) as [[j y]|] eqn:Ef.
    + erewrite list_find_app_l by exact Ef. exact IH.
    + rewrite list_find_app_r by done. simpl. rewrite decide_False by lia. exact IH.
Qed.

Lemma reconcile_ids ss ds : st_id <$> reconcile ss ds = def_id <$> ds.
Proof. unfold reconcile. rewrite <- list_fmap_compose. by apply list_fmap_ext. Qed.

Lemma reconcile_flag ss ds t :
  t ∈ def_id <$> ds ->
  exists i x, find_state (reconcile ss ds) t = Some (i, x) /\ unlocked x = default false (prior ss t).
Proof.
  intros Ht. destruct (find_state (reconcile ss ds) t) as [[i x]|] eqn:E.
  - exists i, x. split; [done|]. apply find_state_Some in E as [Hi Hid]. unfold reconcile in Hi.
    rewrite list_lookup_fmap in Hi. destruct (ds !! i) as [d|]; simplify_eq/=. done.
  - exfalso. unfold find_state in E. apply list_find_None in E. rewrite Forall_forall in E.
    rewrite <- (reconcile_ids ss) in Ht. apply list_elem_of_fmap in Ht as (x & -> & Hx). by apply (E x).
Qed.

Lemma reconcile_state_ok ss ds : Forall def_ok ds -> Forall state_ok (reconcile ss ds).
Proof.
  intros Hd. unfold reconcile. apply Forall_fmap. eapply Forall_impl; [exact Hd|].
  intros d [H _]. split; [done|]. unfold in_width; simpl; lia.
Qed.

Definition trophy_bytes (ds : list TrophyDef) : nat :=
  (trophy_header_size + def_size * length ds + state_size * length ds)%nat.

(** The state [registerTitle] leaves for its title, in memory and on disk. *)
Lemma register_synced a b titleId ds s :
  good b (trophy_bytes ds) ->
  exists ss l, synced (registerTitle a b titleId ds s) titleId (mkTitle ds (reconcile ss ds) l) /\
    ss = states (default no_title (m_titles (fst (loadTrophies a titleId s)) !! titleId)) /\
    m_accountDir (registerTitle a b titleId ds s) = m_accountDir s.
Proof.
  intros Hb. unfold registerTitle. set (s1 := fst (loadTrophies a titleId s)).
  set (ts := default no_title (m_titles s1 !! titleId)).
  exists (states ts), (t_loaded ts). split; [|split; [done|]].
  - apply save_synced; [simpl; by rewrite lookup_insert_eq|]. simpl.
    unfold reconcile. by rewrite length_fmap.
  - unfold saveTrophies. simpl. rewrite lookup_insert_eq. simpl. unfold s1, loadTrophies.
    repeat case_match; simplify_eq/=; done.
Qed.

End Stores.

(** ** Unlocking, and a restart *)
Section Restart.

Lemma find_state_insert ss t i x now t' :
  find_state ss t = Some (i, x) ->
  find_state (<[i := mkState (st_id x) true now]> ss) t'
  = (fun '(j, y) => (j, if decide (j = i) then mkState (st_id x) true now else y)) <$> find_state ss t'.
Proof.
  intros Hf. apply find_state_Some in Hf as [Hi Hid]. unfold find_state.
  revert i Hi. induction ss as [|y ss IH]; intros [|i] Hi; simplify_eq/=.
  - case_decide; [done|]. destruct (list_find _ ss) as [[j z]|]; done.
  - case_decide; [done|]. rewrite (IH i Hi). destruct (list_find _ ss) as [[j z]|]; simpl; [|done].
    do 2 f_equal. destruct (decide (j = i)), (decide (S j = S i)); done || lia.
Qed.

(** What [unlockTrophy] does to a title it knows. *)
Lemma unlock_spec io now titleId t s ts i x :
  m_titles s !! titleId = Some ts -> find_state (states ts) t = Some (i, x) -> unlocked x = false ->
  exists s', unlockTrophy io now titleId t s = (s', true) /\
    m_titles s' !! titleId =
      Some (mkTitle (defs ts) (<[i := mkState (st_id x) true now]> (states ts)) (t_loaded ts)) /\
    m_accountDir s' = m_accountDir s /\
    (good io (trophy_header_size + def_size * length (defs ts) + state_size * length (states ts)) ->
     synced s' titleId (mkTitle (defs ts) (<[i := mkState (st_id x) true now]> (states ts)) (t_loaded ts))).
Proof.
  intros Hs Hf Hx. unfold unlockTrophy. rewrite Hs, Hf, Hx. eexists. split; [done|].
  split_and!.
  - unfold saveTrophies. simpl. rewrite lookup_insert_eq. simpl. by rewrite lookup_insert_eq.
  - unfold saveTrophies. simpl. by rewrite lookup_insert_eq.
  - intros Hg. apply save_synced; [simpl; by rewrite lookup_insert_eq|]. simpl.
    by rewrite length_insert.
Qed.

(** After registering a title and unlocking one of its trophies the trophy is
    unlocked and the file is up to date. *)
Lemma register_unlock a b now titleId ds t s :
  Forall def_ok ds -> good b (trophy_bytes ds) -> in_width 64 now -> t ∈ def_id <$> ds ->
  let s2 := fst (unlockTrophy b now titleId t (registerTitle a b titleId ds s)) in
  exists ts, synced s2 titleId ts /\ defs ts = ds /\ st_id <$> states ts = def_id <$> ds /\
    Forall state_ok (states ts) /\ m_accountDir s2 = m_accountDir s /\
    isTrophyUnlocked s2 titleId t = true.
Proof.
  intros Hd Hb Hnow Ht s2.
  destruct (register_synced a b titleId ds s Hb) as (ss & l & [Hm Hfile] & _ & Hdir).
  set (s1 := registerTitle a b titleId ds s) in *.
  destruct (reconcile_flag ss ds t Ht) as (i & x & Hf & _).
  pose proof (find_state_Some _ _ _ _ Hf) as [Hi Hid].
  pose proof (reconcile_state_ok ss ds Hd) as Hok. pose proof (reconcile_ids ss ds) as Hids.
  destruct (unlocked x) eqn:Hx.
  - assert (s2 = s1) as -> by (unfold s2, unlockTrophy; by rewrite Hm; simpl; rewrite Hf, Hx).
    eexists. split; [by split|]. split_and!; try done. unfold isTrophyUnlocked. rewrite Hm. simpl.
    by rewrite Hf.
  - destruct (unlock_spec b now titleId t s1 _ i x Hm Hf Hx) as (s' & Hu & Hm' & Hd' & Hsync).
    assert (s2 = s') as -> by (unfold s2; by rewrite Hu). simpl in Hm', Hsync.
    eexists. split; [apply Hsync; unfold reconcile; by rewrite length_fmap|]. simpl. split_and!; try done.
    + rewrite list_fmap_insert. simpl. rewrite list_insert_id; [done|]. by rewrite list_lookup_fmap, Hi.
    + apply Forall_insert; [done|]. eapply Forall_lookup_1 in Hok; [|exact Hi]. by split; [apply Hok|].
    + by rewrite Hd'.
    + unfold isTrophyUnlocked. rewrite Hm'. simpl. rewrite (find_state_insert _ _ _ _ _ _ Hf), Hf. simpl.
      by rewrite decide_True.
Qed.

(** The files of an account do not collide. *)
Lemma account_trophy_path dir rest : dir ++ cstr "/account.dat" <> dir ++ cstr "/trophies/" ++ rest.
Proof. by intros [_ H]%app_inj_1. Qed.

(** A new process that signs in to the same directory keeps the trophy files. *)
Lemma initialize_keeps a b root onlineId fs titleId :
  let s := fst (initialize true a b root onlineId (new_backend fs)) in
  m_accountDir s = root ++ cstr "/" ++ onlineId /\ m_titles s = ∅ /\
  m_files s !! trophy_path s titleId = fs !! trophy_path s titleId.
Proof.
  intros s. unfold s, initialize. cbn [m_persistRoot new_backend]. cbn [bool_decide].
  rewrite bool_decide_eq_true_2 by done. cbn [negb]. cbv zeta. cbn [m_account with_account m_signedIn].
  destruct (loadAccount a _) as [s1 loaded] eqn:E.
  assert (m_accountDir s1 = root ++ cstr "/" ++ onlineId /\ m_titles s1 = ∅ /\ m_files s1 = fs) as (H1 & H2 & H3).
  { unfold loadAccount in E. repeat case_match; simplify_eq/=; done. }
  destruct loaded; simpl; [by rewrite H3|]. split_and!; [done..|].
  rewrite save_other; [by rewrite H3|]. intros H. symmetry in H.
  exact (account_trophy_path _ _ H).
Qed.

End Restart.

(** ** Leaderboards *)
Section Scores.

(** What [std::sort] with [a.score > b.score] promises. *)
Definition std_sort (sort : list ScoreEntry -> list ScoreEntry) : Prop :=
  forall l, sort l ≡ₚ l /\ StronglySorted (fun x y => score y <= score x) (sort l).

(** An entry without its rank. *)
Definition unranked (e : ScoreEntry) : ScoreEntry := mkScore (se_board e) (score e) (comment e) (timestamp e) 0.

Lemma unranked_imap l : unranked <$> imap set_rank l = unranked <$> l.
Proof.
  apply list_eq. intros i. rewrite !list_lookup_fmap, list_lookup_imap. by destruct (l !! i).
Qed.

Lemma sorted_imap l :
  StronglySorted (fun x y => score y <= score x) l ->
  StronglySorted (fun x y => score y <= score x) (imap set_rank l).
Proof.
  assert (forall k, StronglySorted (fun x y => score y <= score x) l ->
    StronglySorted (fun x y => score y <= score x) (imap (fun i => set_rank (k + i)) l)) as H.
  { induction l as [|e l IH]; intros k Hs; simpl; [constructor|].
    apply StronglySorted_inv in Hs as [Hs He]. constructor.
    - replace (imap _ l) with (imap (fun i => set_rank (S k + i)) l); [by apply IH|].
      apply imap_ext. intros i x _. simpl. f_equal. lia.
    - apply Forall_lookup. intros i x Hx. rewrite list_lookup_imap in Hx.
      destruct (l !! i) as [y|] eqn:Hy; simplify_eq/=. by eapply Forall_lookup_1 in He. }
  intros Hs. specialize (H 0%nat Hs). by rewrite (imap_ext _ set_rank) in H by done.
Qed.

Lemma ranks_imap l i e :
  Z.of_nat (length l) < 2 ^ 32 -> imap set_rank l !! i = Some e -> rank e = Z.of_nat i + 1.
Proof.
  intros Hl. rewrite list_lookup_imap. destruct (l !! i) as [x|] eqn:Hx; intros; simplify_eq/=.
  apply lookup_lt_Some in Hx. apply (wrap_id 32). unfold in_width. lia.
Qed.

End Scores.

(** ** Properties *)
Section Properties.

(** C12: an unlocked trophy survives a restart.  When a title registers fewer
    than [2^32] well-formed trophies with distinct ids, one is unlocked, the
    host opens the files and the disk has room for the whole trophy file, and a
    new process signs in to the same account directory and registers the same
    trophies, then exactly the trophies that were unlocked before are unlocked
    after, whatever earlier files there were and however many bytes each single
    read and write moves. Nothing is claimed of a
    disk that fills up, or of two trophies with one id. *)
Theorem trophies_survive_restart a b now titleId ds t s root onlineId t' :
  in_width 64 titleId -> in_width 64 now -> Forall def_ok ds -> NoDup (def_id <$> ds) ->
  Z.of_nat (length ds) < 2 ^ 32 -> io_open a = true -> host_ok a -> good b (trophy_bytes ds) ->
  t ∈ def_id <$> ds -> t' ∈ def_id <$> ds ->
  m_accountDir s = root ++ cstr "/" ++ onlineId ->
  let s2 := fst (unlockTrophy b now titleId t (registerTitle a b titleId ds s)) in
  let s3 := fst (initialize true a b root onlineId (new_backend (m_files s2))) in
  isTrophyUnlocked s2 titleId t = true /\
  isTrophyUnlocked (registerTitle a b titleId ds s3) titleId t' = isTrophyUnlocked s2 titleId t'.
Proof.
  intros Hid Hnow Hd Hnd Hlen Hao Ha Hb Ht Ht' Hdir s2 s3.
  destruct (register_unlock a b now titleId ds t s Hd Hb Hnow Ht)
    as (ts & [Hm Hfile] & Hds & Hids & Hok & Hdir2 & Hun). fold s2 in Hm, Hfile, Hdir2, Hun.
  split; [done|].
  destruct (initialize_keeps a b root onlineId (m_files s2) titleId) as (Hdir3 & Ht3 & Hf3). fold s3 in Hdir3, Ht3, Hf3.
  assert (trophy_path s3 titleId = trophy_path s2 titleId) as Hpath by (unfold trophy_path; congruence).
  assert (open_file a (trophy_path s3 titleId) (m_files s3) = Some (concat (trophy_chunks titleId ts))) as Hopen.
  { unfold open_file. by rewrite Hao, Hf3, Hpath. }
  assert (length (states ts) = length ds) as Hls.
  { rewrite <- (length_fmap st_id), Hids. by rewrite length_fmap. }
  assert (title_ok ts) as Hts by (split_and!; rewrite ?Hds, ?Hls; done).
  pose proof (load_saved_trophies a titleId ts s3 Hid Hts Ha ltac:(by rewrite Ht3) Hopen) as Hload.
  destruct (register_synced a b titleId ds s3 Hb) as (ss & l & [Hm3 _] & Hss & _). rewrite Hload in Hss.
  cbn [fst with_title m_titles] in Hss. rewrite lookup_insert_eq in Hss. cbn in Hss. subst ss.
  unfold isTrophyUnlocked. rewrite Hm3, Hm. cbn [states].
  destruct (reconcile_flag (states ts) ds t' Ht') as (i & x & -> & Hx). rewrite Hx.
  rewrite prior_find by (by rewrite Hids).
  destruct (find_state (states ts) t') as [[j y]|]; done.
Qed.

Definition demo_io : HostIo := mkIo true (fun left => 1 + left mod 7)%nat 4096.
Definition demo_defs : list TrophyDef :=
  [mkDef 1 0 (cstr "All") (cstr "Everything") false; mkDef 2 3 (cstr "First") (cstr "A start") true].
Definition demo_backend : PsnBackend := fst (initialize true demo_io demo_io (cstr "/p") (cstr "me") (new_backend ∅)).

Lemma trophies_survive_restart_witness :
  let s2 := fst (unlockTrophy demo_io 5 9 2 (registerTitle demo_io demo_io 9 demo_defs demo_backend)) in
  let s3 := fst (initialize true demo_io demo_io (cstr "/p") (cstr "me") (new_backend (m_files s2))) in
  isTrophyUnlocked (registerTitle demo_io demo_io 9 demo_defs s3) 9 2 = isTrophyUnlocked s2 9 2.
Proof.
  apply (trophies_survive_restart demo_io demo_io 5 9 demo_defs 2 demo_backend (cstr "/p") (cstr "me") 2).
  - unfold in_width; lia.
  - unfold in_width; lia.
  - repeat constructor; simpl; lia.
  - apply (bool_decide_unpack _). vm_compute. exact I.
  - simpl; lia.
  - reflexivity.
  - unfold host_ok; simpl; intros; lia.
  - unfold good, host_ok; simpl. split_and!; [reflexivity|intros; lia|vm_compute; lia].
  - apply (bool_decide_unpack _). vm_compute. exact I.
  - apply (bool_decide_unpack _). vm_compute. exact I.
  - reflexivity.
Defined.

(** Unlocking is exact: it answers true once, for a registered trophy that
    is locked, and afterwards that trophy is unlocked and no other one's state
    has changed; otherwise it answers false and changes nothing. *)
Theorem unlock_once io now titleId t s :
  let '(s', b) := unlockTrophy io now titleId t s in
  if b then
    isTrophyUnlocked s titleId t = false /\ isTrophyUnlocked s' titleId t = true /\
    snd (unlockTrophy io now titleId t s') = false /\
    forall title t', (title, t') <> (titleId, t) -> isTrophyUnlocked s' title t' = isTrophyUnlocked s title t'
  else
    s' = s /\
    (isTrophyUnlocked s titleId t = true \/
     forall ts, m_titles s !! titleId = Some ts -> find_state (states ts) t = None).
Proof.
  destruct (unlockTrophy io now titleId t s) as [s' b] eqn:E.
  destruct (m_titles s !! titleId) as [ts|] eqn:Hs.
  2: { unfold unlockTrophy in E. rewrite Hs in E. simplify_eq. split; [done|]. right. by intros. }
  destruct (find_state (states ts) t) as [[i x]|] eqn:Hf.
  2: { unfold unlockTrophy in E. rewrite Hs, Hf in E. simplify_eq. split; [done|]. right. by intros; simplify_eq. }
  destruct (unlocked x) eqn:Hx.
  { unfold unlockTrophy in E. rewrite Hs, Hf, Hx in E. simplify_eq. split; [done|]. left.
    unfold isTrophyUnlocked. by rewrite Hs, Hf. }
  destruct (unlock_spec io now titleId t s ts i x Hs Hf Hx) as (s1 & Hu & Hm & _ & _).
  assert (b = true) as -> by congruence. assert (s1 = s') as -> by congruence. clear Hu.
  assert (find_state (<[i:=mkState (st_id x) true now]> (states ts)) t = Some (i, mkState (st_id x) true now)) as Hf'.
  { rewrite (find_state_insert _ _ _ _ _ _ Hf), Hf. simpl. by rewrite decide_True. }
  split_and!.
  - unfold isTrophyUnlocked. by rewrite Hs, Hf.
  - unfold isTrophyUnlocked. rewrite Hm. cbn [states]. by rewrite Hf'.
  - unfold unlockTrophy. rewrite Hm. cbn [states]. by rewrite Hf'.
  - intros title1 t1 Hne. unfold isTrophyUnlocked. destruct (decide (title1 = titleId)) as [->|Hd].
    + rewrite Hm, Hs. cbn [states]. rewrite (find_state_insert _ _ _ _ _ _ Hf).
      destruct (find_state (states ts) t1) as [[j y]|] eqn:Hf1; simpl; [|done].
      case_decide; [|done]. subst. apply find_state_Some in Hf1 as [Hj1 <-], Hf as [Hj <-]. congruence.
    + unfold unlockTrophy in E. rewrite Hs, Hf, Hx in E. injection E as <-.
      unfold saveTrophies. simpl. rewrite lookup_insert_eq. simpl. by rewrite lookup_insert_ne.
Qed.

(** A submitted score is added to the board and nothing is lost: the board
    afterwards is the board that was loaded and the new entry, in descending
    order of score, ranked 1, 2, 3 and so on, whatever order the sort gives
    equal scores. *)
Theorem submit_score_ranks sort a b now boardId sc cm s :
  std_sort sort ->
  let old := entries (default no_board (m_boards (fst (loadScores a boardId s)) !! boardId)) in
  Z.of_nat (length old) + 1 < 2 ^ 32 ->
  exists es, entries <$> (m_boards (submitScore sort a b now boardId sc cm s) !! boardId) = Some es /\
    (unranked <$> es) ≡ₚ (unranked <$> old ++ [mkScore boardId sc cm now 0]) /\
    StronglySorted (fun x y => score y <= score x) es /\
    (forall i e, es !! i = Some e -> rank e = Z.of_nat i + 1).
Proof.
  intros Hsort old Hlen. unfold submitScore. set (s1 := fst (loadScores a boardId s)) in *.
  set (bs := default no_board (m_boards s1 !! boardId)) in *.
  set (all := old ++ [mkScore boardId sc cm now 0]). destruct (Hsort all) as [Hp Hs].
  exists (imap set_rank (sort all)). split_and!.
  - unfold saveScores. simpl. rewrite lookup_insert_eq. simpl. by rewrite lookup_insert_eq.
  - rewrite unranked_imap. by apply fmap_Permutation.
  - by apply sorted_imap.
  - intros i e. apply ranks_imap. rewrite (Permutation_length Hp). unfold all.
    rewrite length_app. simpl. lia.
Qed.

Definition higher (x y : ScoreEntry) : Prop := score y <= score x.
#[local] Instance higher_dec : RelDecision higher.
Proof. intros x y. unfold higher. apply _. Defined.
#[local] Instance higher_total : Total higher.
Proof. intros x y. unfold higher. lia. Qed.
#[local] Instance higher_trans : Transitive higher.
Proof. intros x y z. unfold higher. lia. Qed.

Lemma merge_sort_std : std_sort (merge_sort higher).
Proof.
  intros l. split; [apply merge_sort_Permutation|].
  apply (StronglySorted_merge_sort higher).
Qed.

Lemma submit_score_ranks_witness :
  exists es, entries <$> (m_boards (submitScore (merge_sort higher) demo_io demo_io 8 1 50 [] 
    (submitScore (merge_sort higher) demo_io demo_io 7 1 30 [] demo_backend)) !! 1) = Some es /\
    StronglySorted (fun x y => score y <= score x) es.
Proof.
  destruct (submit_score_ranks (merge_sort higher) demo_io demo_io 8 1 50 []
    (submitScore (merge_sort higher) demo_io demo_io 7 1 30 [] demo_backend) merge_sort_std)
    as (es & H & _ & Hs & _).
  - vm_compute. reflexivity.
  - exists es. split; [exact H|exact Hs].
Defined.

(** A board file that was cut after its header is not rejected: the board
    is padded with as many blank entries as the header claims, and the next
    submit ranks them and writes them back as scores. *)
Theorem truncated_board_padded sort a b now boardId n sc cm s :
  std_sort sort -> in_width 32 boardId -> 0 < n < 2 ^ 32 -> host_ok a ->
  m_boards s !! boardId = None ->
  open_file a (score_path s boardId) (m_files s) = Some (concat (ScoreHeader boardId n)) ->
  exists es, entries <$> (m_boards (submitScore sort a b now boardId sc cm s) !! boardId) = Some es /\
    (unranked <$> es) ≡ₚ replicate (Z.to_nat n) default_score ++ [mkScore boardId sc cm now 0].
Proof.
  intros Hsort Hid Hn Ha Hnone Hopen.
  assert (fst (loadScores a boardId s)
    = with_board boardId (mkBoard (replicate (Z.to_nat n) default_score) false) s) as Hload.
  { unfold loadScores. rewrite Hnone. cbn [default]. simpl b_loaded. cbv iota. rewrite Hopen.
    set (h := concat (ScoreHeader boardId n)).
    assert (length h = score_header_size) as Hl by (unfold h, score_header_size; field_len).
    rewrite <- Hl, <- (app_nil_r h), readAll_app by done. rewrite app_nil_r.
    unfold h. rewrite (field_at _ 0 4 kScoreMagic), (field_at _ 1 4 kFormatVersion), (field_at _ 3 4 n);
      try reflexivity; try (unfold kScoreMagic, kFormatVersion; lia); try field_len;
      try (unfold ScoreHeader; simpl; by rewrite (wrap_id 32) by (unfold in_width; lia)).
    rewrite !Z.eqb_refl. cbn [negb orb entries no_board]. unfold resize. rewrite take_nil, Nat.sub_0_r. simpl app.
    destruct (Z.to_nat n) as [|k] eqn:Ek; [lia|]. cbn [replicate read_records].
    rewrite readAll_spec by done. done. }
  unfold submitScore. rewrite Hload. cbn [with_board m_boards]. rewrite lookup_insert_eq. cbn [default entries].
  set (all := replicate _ _ ++ _). destruct (Hsort all) as [Hp _].
  exists (imap set_rank (sort all)). split.
  - unfold saveScores. simpl. rewrite lookup_insert_eq. simpl. by rewrite lookup_insert_eq.
  - rewrite unranked_imap. rewrite (fmap_Permutation unranked _ _ Hp). unfold all.
    rewrite fmap_app, fmap_replicate. done.
Qed.

Definition demo_cut : PsnBackend :=
  with_files {[score_path demo_backend 1 := concat (ScoreHeader 1 2)]} demo_backend.

Lemma truncated_board_padded_witness :
  exists es, entries <$> (m_boards (submitScore (merge_sort higher) demo_io demo_io 8 1 50 [] demo_cut) !! 1) = Some es /\
    (unranked <$> es) ≡ₚ [default_score; default_score; mkScore 1 50 [] 8 0].
Proof.
  apply (truncated_board_padded (merge_sort higher) demo_io demo_io 8 1 2 50 [] demo_cut merge_sort_std).
  - unfold in_width; lia.
  - lia.
  - unfold host_ok; simpl; intros; lia.
  - vm_compute. reflexivity.
  - vm_compute. reflexivity.
Defined.

(** The account file round-trips, up to the bytes its fixed-size fields
    cut off; its checksum is written but never read: the file with any other
    checksum loads as the same account. *)
Theorem account_file io io' s :
  account_ok (m_account s) -> good io account_size -> host_ok io' -> io_open io' = true ->
  (let s' := saveAccount io s in
   loadAccount io' s' = (with_account (clip_account (m_account s)) s', true)) /\
  (forall s' crc, m_files s' !! account_path s' = Some (concat (account_fields (m_account s) crc)) ->
   loadAccount io' s' = (with_account (clip_account (m_account s)) s', true)).
Proof.
  intros Hok (Ho & Hb & Hr) Hio' Ho'.
  assert (forall s' crc, m_files s' !! account_path s' = Some (concat (account_fields (m_account s) crc)) ->
    loadAccount io' s' = (with_account (clip_account (m_account s)) s', true)) as Hload; [|split; [|done]].
  { intros s' crc Hf. unfold loadAccount, open_file. rewrite Ho', Hf.
    set (h := concat _). assert (length h = account_size) as Hl by (unfold h, account_size; field_len).
    rewrite <- Hl, <- (app_nil_r h) at 1. rewrite readAll_app by done.
    assert (parse_account h = clip_account (m_account s)) as -> by (by apply account_roundtrip).
    unfold h. rewrite (field_at _ 0 4 kAccountMagic), (field_at _ 1 4 kFormatVersion);
      try reflexivity; unfold kAccountMagic, kFormatVersion; lia. }
  apply (Hload _ (account_crc (m_account s))).
  change (account_path (saveAccount io s)) with (account_path s). unfold saveAccount. cbn [m_files with_files].
  pose proof (save_open io io (account_path s) [concat (AccountHeader (m_account s))] (m_files s) Ho Ho Hb) as H.
  cbn [concat] in H. rewrite app_nil_r in H. unfold open_file in H. rewrite Ho in H. apply H.
  etransitivity; [|exact Hr]. apply Nat.eq_le_incl. unfold AccountHeader, account_size. field_len.
Qed.

Lemma account_file_witness :
  loadAccount demo_io (saveAccount demo_io demo_backend)
  = (with_account (clip_account (m_account demo_backend)) (saveAccount demo_io demo_backend), true).
Proof.
  apply (account_file demo_io demo_io demo_backend).
  - unfold account_ok, in_width. vm_compute. done.
  - unfold good, host_ok; simpl. split_and!; [reflexivity|intros; lia|vm_compute; lia].
  - unfold host_ok; simpl; intros; lia.
  - reflexivity.
Defined.

End Properties.
