(* ===== verification/NpLibs.v ===== *)
(** * The trophy and score libraries

    [sce/np/SceNpTrophy.cpp] and [SceNpScore.cpp], on the local backend of
    [Psn].  A call answers its code and the writes it makes through the guest's
    pointers, as addresses with bytes.  [PsnBackend::scoreboard] is declared and
    used but its definition is missing from the source, so it is an argument. *)
From S2P Require Import Prelude HostFile SaveContainer Psn.

Abbreviation Writes := (list (Z * bytes)).

(** ** [SceNpTrophy] *)
Module SceNpTrophy.

Definition kOk : Z := 0.
Definition kErrInvalidArg : Z := i32 0x80020005.
Definition kErrNotFound : Z := i32 0x80020004.
Definition kErrAlreadyUnlocked : Z := i32 0x80551604.
Definition kErrNotSignedIn : Z := i32 0x80550008.

Record t := mkNp {
  g_contexts : gmap Z Z;
  g_handles : gmap Z (list Z);
  g_handleToTrophy : gmap Z Z;
  g_nextCtx : Z;
  g_nextHandle : Z;
  psn : PsnBackend
}.

Definition start (b : PsnBackend) : t := mkNp ∅ ∅ ∅ 1 1 b.

Definition with_psn (b : PsnBackend) (s : t) : t :=
  mkNp (g_contexts s) (g_handles s) (g_handleToTrophy s) (g_nextCtx s) (g_nextHandle s) b.

(** A guest function the call runs, with its arguments. *)
Definition Callback := option (Z * Z * Z).

Record answer := mkAnswer { state : t; code : Z; writes : Writes; calls : Callback }.
Definition ret (s : t) (c : Z) : answer := mkAnswer s c [] None.

Definition sceNpTrophyCreateContext (outContext : Z) (s : t) : answer :=
  if outContext =? 0 then ret s kErrInvalidArg
  else
    mkAnswer (mkNp (g_contexts s) (g_handles s) (g_handleToTrophy s) (u32 (g_nextCtx s + 1)) (g_nextHandle s) (psn s))
      kOk [(outContext, le_encode 4 (g_nextCtx s))] None.

Definition sceNpTrophyDestroyContext (context : Z) (s : t) : answer :=
  ret (mkNp (delete context (g_contexts s)) (delete context (g_handles s)) (g_handleToTrophy s)
         (g_nextCtx s) (g_nextHandle s) (psn s)) kOk.

Definition sceNpTrophyRegisterContext (context handle callback userdata : Z) (s : t) : answer :=
  if context =? 0 then ret s kErrInvalidArg
  else
    mkAnswer (mkNp (<[context := handle]> (g_contexts s)) (g_handles s) (g_handleToTrophy s)
                (g_nextCtx s) (g_nextHandle s) (psn s)) kOk []
      (if callback =? 0 then None else Some (callback, context, userdata)).

(** [details] is the trophy id the structure holds, if the pointer is not null. *)
Definition sceNpTrophyCreateHandle (context : Z) (details : option Z) (outHandle : Z) (s : t) : answer :=
  match details with
  | None => ret s kErrInvalidArg
  | Some trophyId =>
      if outHandle =? 0 then ret s kErrInvalidArg
      else
        match g_contexts s !! context with
        | None => ret s kErrInvalidArg
        | Some _ =>
            let h := g_nextHandle s in
            mkAnswer (mkNp (g_contexts s)
                        (<[context := default [] (g_handles s !! context) ++ [h]]> (g_handles s))
                        (<[h := trophyId]> (g_handleToTrophy s)) (g_nextCtx s) (u32 (h + 1)) (psn s))
              kOk [(outHandle, le_encode 4 h)] None
        end
  end.

(** The title of the context and the trophy of the handle. *)
Definition resolve (context handle : Z) (s : t) : Z + Z * Z :=
  match g_contexts s !! context with
  | None => inl kErrInvalidArg
  | Some titleId =>
      match g_handleToTrophy s !! handle with
      | None => inl kErrNotFound
      | Some trophyId => inr (titleId, trophyId)
      end
  end.

Definition sceNpTrophyGetTrophyUnlockState (context handle outFlags : Z) (s : t) : answer :=
  if outFlags =? 0 then ret s kErrInvalidArg
  else
    match resolve context handle s with
    | inl e => ret s e
    | inr (titleId, trophyId) =>
        mkAnswer s kOk [(outFlags, le_encode 4 (if isTrophyUnlocked (psn s) titleId trophyId then 1 else 0))] None
    end.

Definition sceNpTrophyUnlockTrophy (io : HostIo) (now context handle outPlatinumId : Z) (s : t) : answer :=
  match resolve context handle s with
  | inl e => ret s e
  | inr (titleId, trophyId) =>
      let w := if outPlatinumId =? 0 then [] else [(outPlatinumId, le_encode 4 0xFFFFFFFF)] in
      if negb (m_signedIn (psn s)) then mkAnswer s kErrNotSignedIn w None
      else if isTrophyUnlocked (psn s) titleId trophyId then mkAnswer s kErrAlreadyUnlocked w None
      else
        mkAnswer (with_psn (fst (unlockTrophy io now titleId trophyId (psn s))) s) kOk w None
  end.

Definition sceNpTrophyGetGameInfo (context outInfo : Z) (s : t) : answer :=
  if outInfo =? 0 then ret s kErrInvalidArg
  else
    match g_contexts s !! context with
    | None => ret s kErrInvalidArg
    | Some titleId =>
        let c := trophyCounts (psn s) titleId in
        mkAnswer s kOk
          [(outInfo, le_encode 4 (platinum c) ++ le_encode 4 (gold c) ++ le_encode 4 (silver c) ++
                     le_encode 4 (bronze c) ++ replicate 16 0)] None
    end.

(** [snprintf(dst, cap, "%s", s.c_str())] into a zeroed field. *)
Definition print_str (cap : nat) (s : bytes) : bytes := copyStr cap (readStr s).

Definition sceNpTrophyGetTrophyInfo (context handle outInfo : Z) (s : t) : answer :=
  if outInfo =? 0 then ret s kErrInvalidArg
  else
    match resolve context handle s with
    | inl e => ret s e
    | inr (titleId, trophyId) =>
        let u := le_encode 4 (if isTrophyUnlocked (psn s) titleId trophyId then 1 else 0) in
        let info :=
          match list_find (fun d => def_id d = trophyId) (trophyDefs (psn s) titleId) with
          | Some (_, d) =>
              le_encode 4 (grade d) ++ le_encode 4 (if hidden d then 1 else 0) ++ u ++ le_encode 4 0 ++
              print_str 128 (title d) ++ print_str 512 (description d) ++ replicate 64 0
          | None => replicate 8 0 ++ u ++ replicate 708 0
          end in
        mkAnswer s kOk [(outInfo, info)] None
    end.

Definition sceNpTrophyDestroyHandle (context handle : Z) (s : t) : answer :=
  ret (mkNp (g_contexts s)
         (alter (filter (fun h => h <> handle)) context (g_handles s))
         (delete handle (g_handleToTrophy s)) (g_nextCtx s) (g_nextHandle s) (psn s)) kOk.

(** The exported calls. *)
Inductive call :=
  | CreateContext (out : Z)
  | DestroyContext (context : Z)
  | RegisterContext (context handle callback userdata : Z)
  | CreateHandle (context : Z) (details : option Z) (out : Z)
  | DestroyHandle (context handle : Z)
  | GetUnlockState (context handle out : Z)
  | Unlock (io : HostIo) (now context handle out : Z)
  | GetGameInfo (context out : Z)
  | GetTrophyInfo (context handle out : Z).

Definition exec (c : call) (s : t) : answer :=
  match c with
  | CreateContext o => sceNpTrophyCreateContext o s
  | DestroyContext x => sceNpTrophyDestroyContext x s
  | RegisterContext x h f u => sceNpTrophyRegisterContext x h f u s
  | CreateHandle x d o => sceNpTrophyCreateHandle x d o s
  | DestroyHandle x h => sceNpTrophyDestroyHandle x h s
  | GetUnlockState x h o => sceNpTrophyGetTrophyUnlockState x h o s
  | Unlock io now x h o => sceNpTrophyUnlockTrophy io now x h o s
  | GetGameInfo x o => sceNpTrophyGetGameInfo x o s
  | GetTrophyInfo x h o => sceNpTrophyGetTrophyInfo x h o s
  end.

Definition session (cs : list call) (s : t) : t := foldl (fun s c => state (exec c s)) s cs.

End SceNpTrophy.

(** ** [SceNpScore] *)
Module SceNpScore.

Definition kOk : Z := 0.
Definition kErrInvalidArg : Z := i32 0x80020005.
Definition kErrNotSignedIn : Z := i32 0x80550008.

(** The static counter of request handles. *)
Definition sceNpScoreCreateRequest (next : Z) : Z * Z := (u32 (next + 1), i32 next).

(** [comment] is the string behind the pointer, if it is not null. *)
Definition sceNpScoreSetScore (sort : list ScoreEntry -> list ScoreEntry) (a b : HostIo) (now : Z)
    (boardId score : Z) (comment : option bytes) (psn : PsnBackend) : PsnBackend * Z :=
  if negb (m_signedIn psn) then (psn, kErrNotSignedIn)
  else (submitScore sort a b now boardId score (default [] comment) psn, kOk).

(** The size of the structure [RankEntry]. *)
Definition kSizeofRankEntry : nat := 120.

Definition RankEntry (account : Z) (e : ScoreEntry) : bytes :=
  le_encode 4 (rank e) ++ le_encode 4 0 ++ le_encode 8 (Psn.score e) ++ le_encode 8 account ++
  copyStr 32 (readStr (Psn.comment e)) ++ replicate 64 0.

(** The loop over the board from index [i]; [n] entries have been written. *)
Fixpoint fill (account outEntries outEntrySize : Z) (n : nat) (es : list ScoreEntry) : Writes * nat :=
  match es with
  | [] => ([], n)
  | e :: rest =>
      if outEntrySize <? Z.of_nat ((n + 1) * kSizeofRankEntry) then ([], n)
      else
        let '(ws, k) := fill account outEntries outEntrySize (n + 1) rest in
        ((outEntries + Z.of_nat (n * kSizeofRankEntry), RankEntry account e) :: ws, k)
  end.

(** [scoreboard] answers the entries of a board. *)
Definition sceNpScoreGetRankingByRange (scoreboard : Z -> list ScoreEntry) (psn : PsnBackend)
    (boardId startRank numRanks outEntries outEntrySize outCount : Z) : Z * Writes :=
  if (outEntries =? 0) || (outCount =? 0) then (kErrInvalidArg, [])
  else if negb (m_signedIn psn) then (kErrNotSignedIn, [])
  else if outEntrySize <? Z.of_nat kSizeofRankEntry then (kErrInvalidArg, [])
  else
    let '(ws, n) := fill (accountId (m_account psn)) outEntries outEntrySize 0
                      (drop (Z.to_nat (u32 (startRank - 1))) (scoreboard boardId)) in
    (kOk, ws ++ [(outCount, le_encode 8 (Z.of_nat n))]).

Definition sceNpScoreGetRankingByNpId (outEntries outCount : Z) : Z * Writes :=
  (kOk, (if outEntries =? 0 then [] else [(outEntries, replicate 128 0)]) ++
        (if outCount =? 0 then [] else [(outCount, le_encode 8 0)])).

End SceNpScore.

Section Properties.
Import SceNpTrophy.

Lemma exec_no_titles c s : m_titles (psn s) = ∅ -> m_titles (psn (state (exec c s))) = ∅.
Proof.
  intros H. destruct c; simpl; unfold sceNpTrophyCreateContext, sceNpTrophyRegisterContext,
    sceNpTrophyCreateHandle, sceNpTrophyGetTrophyUnlockState, sceNpTrophyUnlockTrophy,
    sceNpTrophyGetGameInfo, sceNpTrophyGetTrophyInfo; repeat case_match; simpl; try done;
    unfold unlockTrophy; by rewrite H, lookup_empty.
Qed.

Lemma session_no_titles cs s : m_titles (psn s) = ∅ -> m_titles (psn (session cs s)) = ∅.
Proof.
  revert s. induction cs as [|c cs IH]; intros s H; simpl; [done|]. apply IH. by apply exec_no_titles.
Qed.

(** Through the exported calls no trophy is ever unlocked.  Nothing they
    do registers a title with the backend, so after any session the unlock call
    of a signed-in user answers success and changes nothing, and the unlock
    state of every trophy is reported as locked. *)
Theorem trophies_never_unlock cs b io now context handle out titleId trophyId :
  m_titles b = ∅ ->
  let s := session cs (start b) in
  resolve context handle s = inr (titleId, trophyId) -> m_signedIn (psn s) = true ->
  let r := exec (Unlock io now context handle out) s in
  code r = kOk /\ psn (state r) = psn s /\
  forall ptr, ptr <> 0 ->
    writes (exec (GetUnlockState context handle ptr) (state r)) = [(ptr, le_encode 4 0)].
Proof.
  intros Hb s Hr Hs r. assert (m_titles (psn s) = ∅) as Ht by (by apply session_no_titles).
  assert (forall x y, isTrophyUnlocked (psn s) x y = false) as Hl.
  { intros x y. unfold isTrophyUnlocked. by rewrite Ht, lookup_empty. }
  assert (unlockTrophy io now titleId trophyId (psn s) = (psn s, false)) as Hu.
  { unfold unlockTrophy. by rewrite Ht, lookup_empty. }
  unfold r. simpl. unfold sceNpTrophyUnlockTrophy. rewrite Hr, Hs, Hl, Hu. cbn [negb fst code state].
  assert (psn (with_psn (psn s) s) = psn s) as -> by done. split_and!; [done..|].
  intros ptr Hp. unfold sceNpTrophyGetTrophyUnlockState. destruct (ptr =? 0) eqn:E; [lia|].
  change (resolve context handle (with_psn (psn s) s)) with (resolve context handle s). rewrite Hr.
  change (psn (with_psn (psn s) s)) with (psn s). by rewrite Hl.
Qed.

Definition demo_calls : list call := [CreateContext 16; RegisterContext 1 77 0 0; CreateHandle 1 (Some 5) 24].

Lemma trophies_never_unlock_witness :
  code (exec (Unlock demo_io 3 1 1 0) (session demo_calls (start (fst (signIn (new_backend ∅)))))) = kOk.
Proof.
  apply (trophies_never_unlock demo_calls (fst (signIn (new_backend ∅))) demo_io 3 1 1 0 77 5).
  - reflexivity.
  - vm_compute. reflexivity.
  - reflexivity.
Defined.

Import SceNpScore.

Lemma length_RankEntry acc e : length (RankEntry acc e) = kSizeofRankEntry.
Proof.
  unfold RankEntry, kSizeofRankEntry. rewrite !length_app, !length_le_encode, length_copyStr, length_replicate by lia.
  reflexivity.
Qed.

(** What the loop writes: consecutive entries, as many as fit. *)
Lemma fill_spec acc out size es n :
  Z.of_nat (n * kSizeofRankEntry) <= size ->
  let k := Nat.min (length es) (Z.to_nat size / kSizeofRankEntry - n) in
  fill acc out size n es =
    (imap (fun i e => (out + Z.of_nat ((n + i) * kSizeofRankEntry), RankEntry acc e)) (take k es), (n + k)%nat).
Proof.
  intros Hn. unfold kSizeofRankEntry in *. revert n Hn. induction es as [|e es IH]; intros n Hn; cbn [fill length].
  - rewrite take_nil. simpl. f_equal. lia.
  - unfold kSizeofRankEntry. destruct (size <? _) eqn:E.
    + replace (Z.to_nat size / 120 - n)%nat with 0%nat; [simpl; f_equal; lia|].
      assert (Z.to_nat size / 120 < n + 1)%nat; [|lia]. apply Nat.Div0.div_lt_upper_bound. lia.
    + assert (n + 1 <= Z.to_nat size / 120)%nat as Hle by (apply Nat.div_le_lower_bound; lia).
      rewrite IH by lia. replace (Z.to_nat size / 120 - n)%nat with (S (Z.to_nat size / 120 - (n + 1))) by lia.
      simpl Nat.min. cbn [take imap]. f_equal; [|lia]. rewrite Nat.add_0_r. f_equal.
      apply imap_ext. intros i x _. simpl. do 3 f_equal. lia.
Qed.

(** A ranking query writes the board from the start rank, one entry after
    another, as many as fit in the size given, and never past it; the number of
    ranks asked is ignored, and a start rank of zero finds none. *)
Theorem ranking_in_bounds scoreboard p boardId startRank numRanks out size cnt :
  out <> 0 -> cnt <> 0 -> m_signedIn p = true -> Z.of_nat kSizeofRankEntry <= size -> 0 <= startRank < 2 ^ 32 ->
  Z.of_nat (length (scoreboard boardId)) < 2 ^ 32 - 1 ->
  let es := if startRank =? 0 then [] else drop (Z.to_nat (startRank - 1)) (scoreboard boardId) in
  let k := Nat.min (length es) (Z.to_nat size / kSizeofRankEntry) in
  let ws := imap (fun i e => (out + Z.of_nat (i * kSizeofRankEntry), RankEntry (accountId (m_account p)) e)) (take k es) in
  sceNpScoreGetRankingByRange scoreboard p boardId startRank numRanks out size cnt
    = (kOk, ws ++ [(cnt, le_encode 8 (Z.of_nat k))]) /\
  Forall (fun '(a, bs) => out <= a /\ a + Z.of_nat (length bs) <= out + size) ws.
Proof.
  intros Hout Hcnt Hp Hsize Hsr Hlen es k ws.
  assert (drop (Z.to_nat (u32 (startRank - 1))) (scoreboard boardId) = es) as Hes.
  { unfold es. destruct (startRank =? 0) eqn:E.
    - assert (startRank = 0) as -> by lia. apply drop_ge. change (u32 (0 - 1)) with (2 ^ 32 - 1). lia.
    - by rewrite (wrap_id 32) by (unfold in_width; lia). }
  split.
  - unfold sceNpScoreGetRankingByRange. destruct (out =? 0) eqn:E1; [lia|]. destruct (cnt =? 0) eqn:E2; [lia|].
    cbn [orb]. rewrite Hp. cbn [negb]. destruct (size <? _) eqn:E3; [lia|].
    rewrite Hes, fill_spec by (simpl; lia). rewrite Nat.sub_0_r, !Nat.add_0_l. fold k.
    unfold ws. done.
  - apply Forall_lookup. intros i [a bs] Hi. unfold ws in Hi. rewrite list_lookup_imap in Hi.
    destruct (take k es !! i) as [e|] eqn:He; [|done].
    cbn [fmap option_fmap option_map] in Hi. injection Hi as <- <-. rewrite length_RankEntry.
    apply lookup_lt_Some in He. rewrite length_take in He. unfold kSizeofRankEntry in *.
    pose proof (Nat.Div0.mul_div_le (Z.to_nat size) 120). split; [lia|].
    assert (i + 1 <= Z.to_nat size / 120)%nat by (unfold k in He; lia). nia.
Qed.

Lemma ranking_in_bounds_witness :
  fst (sceNpScoreGetRankingByRange (fun _ => [mkScore 1 50 [] 8 1; mkScore 1 30 [] 7 2])
         demo_backend 1 1 10 4096 128 8192) = kOk.
Proof.
  rewrite (proj1 (ranking_in_bounds (fun _ => [mkScore 1 50 [] 8 1; mkScore 1 30 [] 7 2])
    demo_backend 1 1 10 4096 128 8192 ltac:(lia) ltac:(lia) eq_refl ltac:(unfold kSizeofRankEntry; lia)
    ltac:(lia) ltac:(simpl; lia))).
  reflexivity.
Defined.

End Properties.
