(* ===== verification/SaveData.v ===== *)
(** * Saved games

    [sce/savedata/SceSaveData.cpp]: the calls by which a title keeps its saves.
    A save is a [SaveContainer] in memory; committing serializes it to a file
    whose guest path the virtual filesystem translates, loading parses that file.
    The library composes [Vfs], [SaveContainer] and [HostFile]. *)
From S2P Require Import Prelude Vfs HostFile SaveContainer.

Definition kOk : Z := 0.
Definition kErrInvalidArg : Z := i32 0x80020005.
Definition kErrNotFound : Z := i32 0x80020004.
Definition kErrNoMemory : Z := i32 0x80020002.

(** [std::stoull] of decimal digits. *)
Definition stoull (s : bytes) : Z := foldl (fun v c => v * 10 + (c - 48)) 0 s.

(** [SaveDir] without its dates and block count, which nothing reads. *)
Record SaveDir := mkSave {
  dirName : bytes;
  titleId : bytes;
  subtitle : bytes;
  detail : bytes;
  container : SaveContainer.t
}.

(** [g_saves], [g_nextSaveId], the policy of the process, if one is bound, the
    host's files, and the directories the host was asked to make. *)
Record SaveState := mkSaveState {
  g_saves : gmap Z SaveDir;
  g_nextSaveId : Z;
  s_vfs : option FsPolicy.t;
  s_files : Files;
  s_mkdirs : list bytes
}.

Definition with_saves (m : gmap Z SaveDir) (s : SaveState) : SaveState :=
  mkSaveState m (g_nextSaveId s) (s_vfs s) (s_files s) (s_mkdirs s).
Definition with_save (id : Z) (d : SaveDir) (s : SaveState) : SaveState :=
  with_saves (<[id := d]> (g_saves s)) s.
Definition with_container (c : SaveContainer.t) (d : SaveDir) : SaveDir :=
  mkSave (dirName d) (titleId d) (subtitle d) (detail d) c.

Definition resolveSavePath (titleId dirName : bytes) : bytes :=
  cstr "/save/" ++ titleId ++ cstr "/" ++ dirName ++ cstr "/sd.img".

Definition guestToHost (s : SaveState) (guestPath : bytes) : bytes :=
  match s_vfs s with
  | None => []
  | Some p =>
      let tr := fst (VirtualFileSystem.resolve p guestPath FsPolicy.Write) in
      if VirtualFileSystem.ok tr then VirtualFileSystem.tr_hostPath tr else []
  end.

(** [SetupParams]: the title id and the three strings as the library reads
    them, each up to its terminator. *)
Record SetupParams := mkParams { p_titleId : Z; p_dirName : bytes; p_subtitle : bytes; p_detail : bytes }.

Definition same_save (p : SetupParams) (x : Z * SaveDir) : Prop :=
  dirName x.2 = p_dirName p /\ titleId x.2 = to_string (p_titleId p).
#[export] Instance same_save_dec p x : Decision (same_save p x).
Proof. unfold same_save. apply _. Defined.

Definition sceSaveDataSetupSaveDataMemory (params : option SetupParams) (s : SaveState) : SaveState * Z :=
  match params with
  | None => (s, kErrInvalidArg)
  | Some p =>
      match list_find (same_save p) (map_to_list (g_saves s)) with
      | Some (_, (id, _)) => (s, i32 id)
      | None =>
          let id := g_nextSaveId s in
          let sd := mkSave (p_dirName p) (to_string (p_titleId p)) (p_subtitle p) (p_detail p) SaveContainer.empty in
          (mkSaveState (<[id := sd]> (g_saves s)) (u32 (id + 1)) (s_vfs s) (s_files s) (s_mkdirs s), i32 id)
      end
  end.

(** [setTitleId], [setSubtitle] and [setDetail]. *)
Definition stamp (d : SaveDir) : SaveContainer.t :=
  let c := container d in
  SaveContainer.mkContainer (stoull (titleId d)) (SaveContainer.m_titleName c) (subtitle d) (detail d)
    (SaveContainer.m_createdAt c) (SaveContainer.m_modifiedAt c) (SaveContainer.m_entries c).

(** [ensureHostDir]: the directories passed to [mkdir], outermost first; the
    answers are not looked at. *)
Fixpoint ensure_loop (acc rest : bytes) : list bytes :=
  match rest with
  | [] => [acc]
  | c :: rest => (if (c =? 47) && (1 <? S (length acc))%nat then [acc] else []) ++ ensure_loop (acc ++ [c]) rest
  end.
Definition ensureHostDir (hostDir : bytes) : list bytes := ensure_loop [] hostDir.

Definition parent_dir (hostPath : bytes) : bytes :=
  match rfind_char 47 hostPath with Some i => take i hostPath | None => hostPath end.
Definition with_mkdirs (l : list bytes) (s : SaveState) : SaveState :=
  mkSaveState (g_saves s) (g_nextSaveId s) (s_vfs s) (s_files s) (s_mkdirs s ++ l).

(** The answers of the stream's [write] and [close] are not looked at. *)
Definition sceSaveDataCommitSaveData (io : HostIo) (saveId : Z) (s : SaveState) : SaveState * Z :=
  match g_saves s !! saveId with
  | None => (s, kErrNotFound)
  | Some sd =>
      let sd := with_container (stamp sd) sd in
      let s := with_save saveId sd s in
      let hostPath := guestToHost s (resolveSavePath (titleId sd) (dirName sd)) in
      if bool_decide (hostPath = []) then (s, kErrNotFound)
      else
        let s := with_mkdirs (ensureHostDir (parent_dir hostPath)) s in
        if negb (io_open io) then (s, kErrNoMemory)
        else
          (mkSaveState (g_saves s) (g_nextSaveId s) (s_vfs s)
             (save_file io hostPath [SaveContainer.serialize (container sd)] (s_files s)) (s_mkdirs s), kOk)
  end.

(** [None] is a fault inside [deserialize]. *)
Definition sceSaveDataLoadSaveData (io : HostIo) (saveId : Z) (s : SaveState) : option (SaveState * Z) :=
  match g_saves s !! saveId with
  | None => Some (s, kErrNotFound)
  | Some sd =>
      let hostPath := guestToHost s (resolveSavePath (titleId sd) (dirName sd)) in
      if bool_decide (hostPath = []) then Some (s, kErrNotFound)
      else
        match open_file io hostPath (s_files s) with
        | None => Some (with_save saveId (with_container SaveContainer.empty sd) s, kOk)
        | Some f =>
            match SaveContainer.deserialize f SaveContainer.empty with
            | SaveContainer.Failed _ => Some (s, kErrNotFound)
            | SaveContainer.Faulted => None
            | SaveContainer.Succeeded c => Some (with_save saveId (with_container c sd) s, kOk)
            end
        end
  end.

(** The bytes copied to the guest and the code. *)
Definition sceSaveDataGetSaveDataMemory (saveId outSize offset : Z) (s : SaveState) : bytes * Z :=
  match g_saves s !! saveId with
  | None => ([], kErrNotFound)
  | Some sd =>
      let bs := SaveContainer.serialize (container sd) in
      let n := Z.of_nat (length bs) in
      if n <=? offset then ([], kOk)
      else
        let take_ := Z.min outSize (n - offset) in
        (take (Z.to_nat take_) (drop (Z.to_nat offset) bs), i32 take_)
  end.

(** [memcpy(bytes.data() + offset, buf, size)]: [None] when it leaves the
    vector. *)
Definition overwrite (bs buf : bytes) (offset : Z) : option bytes :=
  if offset + Z.of_nat (length buf) <=? Z.of_nat (length bs)
  then Some (take (Z.to_nat offset) bs ++ buf ++ drop (Z.to_nat offset + length buf) bs) else None.

Definition sceSaveDataSetSaveDataMemory (saveId : Z) (buf : bytes) (offset : Z) (s : SaveState)
    : option (SaveState * Z) :=
  match g_saves s !! saveId with
  | None => Some (s, kErrNotFound)
  | Some sd =>
      let bs := SaveContainer.serialize (container sd) in
      let end_ := u64 (offset + Z.of_nat (length buf)) in
      let bs := if Z.of_nat (length bs) <? end_
                then bs ++ replicate (Z.to_nat end_ - length bs) 0 else bs in
      bs ← overwrite bs buf offset;
      match SaveContainer.deserialize bs SaveContainer.empty with
      | SaveContainer.Succeeded c => Some (with_save saveId (with_container c sd) s, kOk)
      | SaveContainer.Failed _ => Some (s, kErrInvalidArg)
      | SaveContainer.Faulted => None
      end
  end.

Definition sceSaveDataDeleteSaveDataMemory (saveId : Z) (s : SaveState) : SaveState * Z :=
  match g_saves s !! saveId with
  | None => (s, kErrNotFound)
  | Some sd =>
      let hostPath := guestToHost s (resolveSavePath (titleId sd) (dirName sd)) in
      let fs := if bool_decide (hostPath = []) then s_files s else delete hostPath (s_files s) in
      (mkSaveState (<[saveId := with_container SaveContainer.empty sd]> (g_saves s)) (g_nextSaveId s)
         (s_vfs s) fs (s_mkdirs s), kOk)
  end.

Definition sceSaveDataGetSaveDataMemorySize (saveId outSize : Z) (s : SaveState) : option Z * Z :=
  if outSize =? 0 then (None, kErrInvalidArg)
  else
    match g_saves s !! saveId with
    | None => (None, kErrNotFound)
    | Some sd => (Some (Z.of_nat (length (SaveContainer.serialize (container sd)))), kOk)
    end.

Section Lemmas.

Lemma stoull_dec fuel n :
  0 <= n < 10 ^ Z.of_nat fuel -> stoull (dec_digits fuel n) = n.
Proof.
  revert n. induction fuel as [|fuel IH]; intros n Hn;
    [change (10 ^ Z.of_nat 0) with 1 in Hn; unfold stoull; simpl; lia|].
  cbn [dec_digits]. unfold stoull. rewrite foldl_app. simpl foldl at 1. fold (stoull (if n <? 10 then [] else dec_digits fuel (n / 10))).
  destruct (n <? 10) eqn:E.
  - unfold stoull. simpl. rewrite Z.mod_small by lia. lia.
  - rewrite IH; [dm_lia|]. rewrite Nat2Z.inj_succ, Z.pow_succ_r in Hn by lia.
    split; [dm_lia|]. apply Z.div_lt_upper_bound; lia.
Qed.

Lemma stoull_to_string n : in_width 64 n -> stoull (to_string n) = n.
Proof. intros H. apply stoull_dec. unfold in_width in H. lia. Qed.

Lemma guestToHost_save s id d path : guestToHost (with_save id d s) path = guestToHost s path.
Proof. done. Qed.

(** Where a save's file is: below the host directory of a mount that may be
    written. *)
Lemma guestToHost_below s path hp :
  guestToHost s path = hp -> hp <> [] ->
  exists p mp comps, s_vfs s = Some p /\ FsPolicy.op_permitted mp FsPolicy.Write = true /\
    mp ∈ FsPolicy.m_mounts p /\ Forall VfsSpec.good_component comps /\
    hp = VfsSpec.below (VfsSpec.mount_dir (FsPolicy.m_vfsRoot p) (FsPolicy.hostSubdir mp)) comps.
Proof.
  unfold guestToHost. intros <- Hne. destruct (s_vfs s) as [p|]; [|done].
  destruct (VirtualFileSystem.ok _) eqn:E; [|done].
  destruct (resolve_below _ _ _ E) as (mp & comps & Ho & Hm & Hg & Hb). by exists p, mp, comps.
Qed.

Lemma commit_file io saveId s sd hp :
  g_saves s !! saveId = Some sd -> guestToHost s (resolveSavePath (titleId sd) (dirName sd)) = hp ->
  hp <> [] -> io_open io = true ->
  let d := with_container (stamp sd) sd in
  sceSaveDataCommitSaveData io saveId s =
    (mkSaveState (<[saveId := d]> (g_saves s)) (g_nextSaveId s) (s_vfs s)
       (save_file io hp [SaveContainer.serialize (container d)] (s_files s))
       (s_mkdirs s ++ ensureHostDir (parent_dir hp)), kOk).
Proof.
  intros Hs Hp Hne Ho d. unfold sceSaveDataCommitSaveData. rewrite Hs. cbv zeta.
  change (titleId (with_container (stamp sd) sd)) with (titleId sd).
  change (dirName (with_container (stamp sd) sd)) with (dirName sd).
  rewrite guestToHost_save, Hp, bool_decide_eq_false_2 by done. by rewrite Ho.
Qed.

(** The directories made are prefixes of the path, and its parent is the last. *)
Lemma ensure_above hp :
  Forall (fun d => exists rest, hp = d ++ rest) (ensureHostDir (parent_dir hp)) /\
  last (ensureHostDir (parent_dir hp)) = Some (parent_dir hp).
Proof.
  assert (forall rest acc, Forall (fun d => exists r, acc ++ rest = d ++ r) (ensure_loop acc rest) /\
    last (ensure_loop acc rest) = Some (acc ++ rest)) as H.
  { induction rest as [|c rest IH]; intros acc; cbn [ensure_loop].
    - rewrite app_nil_r. split; [apply Forall_singleton; by exists []; rewrite app_nil_r|done].
    - destruct (IH (acc ++ [c])) as [H1 H2]. rewrite <- app_assoc in H1, H2. split.
      + apply Forall_app. split; [|exact H1]. destruct (_ && _); [apply Forall_singleton; by exists (c :: rest)|constructor].
      + rewrite last_app. by rewrite H2. }
  destruct (H (parent_dir hp) []) as [H1 H2]. split; [|exact H2].
  assert (exists r, hp = parent_dir hp ++ r) as [r Hr].
  { unfold parent_dir. destruct (rfind_char 47 hp) as [i|]; [exists (drop i hp); by rewrite take_drop|exists []; by rewrite app_nil_r]. }
  eapply Forall_impl; [exact H1|]. intros d [r' Hd]. exists (r' ++ r). rewrite app_assoc, <- Hd. exact Hr.
Qed.

Lemma overwrite_self bs : overwrite bs bs 0 = Some bs.
Proof.
  unfold overwrite. destruct (_ <=? _) eqn:E; [|lia]. simpl. by rewrite drop_all, app_nil_r.
Qed.

End Lemmas.

(** ** Titles that reach each other *)
Section Paths.
Import VirtualPath VfsSpec.

Lemma loop_component c rest st :
  Forall (fun x => x <> slash) c ->
  normalize_loop (c ++ slash :: rest) [] st = (st' ← close_component c st; normalize_loop rest [] st').
Proof. intros Hc. rewrite normalize_loop_component by done. done. Qed.

Lemma dec_digits_good fuel n : (0 < fuel)%nat -> good_component (dec_digits fuel n).
Proof.
  intros Hf. assert (Forall (fun c => 48 <= c <= 57) (dec_digits fuel n)) as Hd.
  { clear Hf. revert n. induction fuel as [|fuel IH]; intros n; cbn [dec_digits]; [constructor|].
    apply Forall_app. split; [destruct (n <? 10); [constructor|apply IH]|].
    apply Forall_singleton. pose proof (Z.mod_pos_bound n 10). lia. }
  assert (dec_digits fuel n <> []) as Hne.
  { destruct fuel; [lia|]. cbn [dec_digits]. by destruct (if n <? 10 then _ else _). }
  split_and!; [done| | |].
  - intros E. rewrite E in Hd. apply Forall_inv in Hd. vm_compute in Hd. by destruct Hd.
  - intros E. rewrite E in Hd. apply Forall_inv in Hd. vm_compute in Hd. by destruct Hd.
  - eapply Forall_impl; [exact Hd|]. intros x Hx. cbv beta in Hx. split; [|unfold slash; lia].
    unfold isPrintablePathChar. destruct (x =? 0) eqn:E; lia.
Qed.

(** A directory name that climbs out of the title's folder is resolved. *)
Lemma climbing_path m n d :
  normalize (resolveSavePath (to_string m) (cstr "../" ++ to_string n ++ cstr "/" ++ d))
  = normalize (resolveSavePath (to_string n) d).
Proof.
  pose proof (dec_digits_good 20 m ltac:(lia)) as Hm. fold (to_string m) in Hm.
  pose proof (path_char_no_slash _ (proj2 (proj2 (proj2 Hm)))) as Hms.
  pose proof (good_component_nonnul _ Hm) as Hm0.
  unfold resolveSavePath. change (cstr "/save/") with (slash :: cstr "save" ++ slash :: []).
  change (cstr "/") with ([slash]). change (cstr "../") with (cstr ".." ++ [slash]).
  set (T := to_string n ++ [slash] ++ d ++ cstr "/sd.img").
  replace ((slash :: cstr "save" ++ [slash]) ++ to_string m ++ [slash] ++
            ((cstr ".." ++ [slash]) ++ to_string n ++ [slash] ++ d) ++ cstr "/sd.img")
    with (slash :: cstr "save" ++ slash :: (to_string m ++ slash :: (cstr ".." ++ slash :: T)))
    by (unfold T; rewrite <- ?app_assoc; simpl; rewrite <- ?app_assoc; done).
  change ((slash :: cstr "save" ++ [slash]) ++ T)
    with (slash :: cstr "save" ++ slash :: T).
  unfold normalize. rewrite !Z.eqb_refl.
  assert (existsb (Z.eqb 0) (slash :: cstr "save" ++ slash :: to_string m ++ slash :: cstr ".." ++ slash :: T)
    = existsb (Z.eqb 0) (slash :: cstr "save" ++ slash :: T)) as ->.
  { set (P := slash :: cstr "save" ++ [slash]).
    change (existsb (Z.eqb 0) (P ++ to_string m ++ slash :: cstr ".." ++ slash :: T) = existsb (Z.eqb 0) (P ++ T)).
    rewrite !existsb_app. rewrite (existsb_nul_false (to_string m)) by exact Hm0. done. }
  destruct (existsb _ _); [done|]. f_equal.
  rewrite !loop_component by (repeat constructor; done).
  destruct (close_component (cstr "save") []) as [st|] eqn:E; [|done]. cbn [mbind option_bind].
  rewrite loop_component by done. rewrite close_component_push by done. cbn [mbind option_bind].
  rewrite loop_component by (repeat constructor; done).
  assert (close_component (cstr "..") (st ++ [to_string m]) = Some st) as ->; [|done].
  unfold close_component. rewrite !bool_decide_false by done. rewrite bool_decide_true by done.
  by rewrite removelast_last.
Qed.

Lemma guestToHost_normalize s p1 p2 : normalize p1 = normalize p2 -> guestToHost s p1 = guestToHost s p2.
Proof.
  intros H. unfold guestToHost. destruct (s_vfs s) as [p|]; [|done].
  unfold VirtualFileSystem.resolve. rewrite H. destruct (normalize p2) as [c|]; [|done].
  destruct (FsPolicy.match_mount p c) as [mp|]; [|done].
  destruct (VirtualPath.translate _ _ _); [|done]. by destruct (FsPolicy.isAllowed _ _ _).
Qed.

End Paths.

(** ** Properties *)
Section Properties.

(** C14: what a title commits is what it loads, also in a later process: after
    a commit whose path the policy accepts, whose container, stamped, is well
    formed (its strings and counts fit their fields), whose file the host opens
    and takes whole, a load of any save with the same title and directory on
    the same files puts back the container committed, with the title id,
    subtitle and detail the commit stamped on it. No other file is touched, and
    the host is asked to make only directories above the file, its parent last.
    A disk that fills up loses the save ([full_disk_loses_save]). *)
Theorem commit_then_load io io' saveId s sd hp :
  g_saves s !! saveId = Some sd -> guestToHost s (resolveSavePath (titleId sd) (dirName sd)) = hp -> hp <> [] ->
  SaveContainer.wf (stamp sd) -> io_open io = true -> host_ok io -> io_open io' = true ->
  (length (SaveContainer.serialize (stamp sd)) <= io_room io)%nat ->
  exists s', sceSaveDataCommitSaveData io saveId s = (s', kOk) /\
    (forall path, path <> hp -> s_files s' !! path = s_files s !! path) /\
    (exists dirs, s_mkdirs s' = s_mkdirs s ++ dirs /\ Forall (fun d => exists rest, hp = d ++ rest) dirs /\
       last dirs = Some (parent_dir hp)) /\
    (forall s2 id2 sd2, s_vfs s2 = s_vfs s -> s_files s2 = s_files s' -> g_saves s2 !! id2 = Some sd2 ->
       titleId sd2 = titleId sd -> dirName sd2 = dirName sd ->
       sceSaveDataLoadSaveData io' id2 s2 = Some (with_save id2 (with_container (stamp sd) sd2) s2, kOk)).
Proof.
  intros Hs Hp Hne Hwf Ho Hb Ho' Hroom. eexists. split; [by apply commit_file|]. split; [|split].
  - intros path Hd. simpl. by apply save_other.
  - eexists. split; [done|]. apply ensure_above.
  - intros s2 id2 sd2 Hv Hf H2 Ht Hd. unfold sceSaveDataLoadSaveData. rewrite H2, Ht, Hd.
    assert (guestToHost s2 (resolveSavePath (titleId sd) (dirName sd)) = hp) as ->.
    { rewrite <- Hp. unfold guestToHost. by rewrite Hv. }
    rewrite bool_decide_eq_false_2 by done. rewrite Hf. cbn [s_files].
    rewrite (save_open io io'); try done; [|cbn [concat]; by rewrite app_nil_r].
    cbn [concat]. rewrite app_nil_r. cbn [container with_container].
    by rewrite deserialize_serialize.
Qed.

Definition demo_state : SaveState :=
  fst (sceSaveDataSetupSaveDataMemory (Some (mkParams 42 (cstr "SLOT") (cstr "sub") (cstr "det")))
    (mkSaveState ∅ 1 (Some FsPolicy.default_policy) ∅ [])).
Definition demo_dir : SaveDir := mkSave (cstr "SLOT") (cstr "42") (cstr "sub") (cstr "det") SaveContainer.empty.
Definition demo_host : bytes := cstr "virtual_fs/save/42/SLOT/sd.img".
Definition roomy : HostIo := mkIo true (fun left => 1 + left mod 64)%nat 4096.

Lemma demo_stamp_wf : SaveContainer.wf (stamp demo_dir).
Proof.
  split; try (simpl; lia); try constructor; try (apply (bool_decide_unpack _); vm_compute; exact I);
    try (unfold SaveContainer.string_fits; simpl; lia).
  all: repeat (apply Forall_cons; split; [apply (bool_decide_unpack _); vm_compute; exact I|]); constructor.
Qed.

Lemma commit_then_load_witness :
  exists s', sceSaveDataCommitSaveData roomy 1 demo_state = (s', kOk) /\
    sceSaveDataLoadSaveData roomy 1 (with_save 1 demo_dir s')
    = Some (with_save 1 (with_container (stamp demo_dir) demo_dir) (with_save 1 demo_dir s'), kOk).
Proof.
  destruct (commit_then_load roomy roomy 1 demo_state demo_dir demo_host) as (s' & Hc & _ & _ & Hl);
    try reflexivity; try exact demo_stamp_wf; try (unfold host_ok; simpl; intros; lia).
  - discriminate.
  - exists s'. split; [exact Hc|]. apply Hl; try reflexivity.
    + vm_compute in Hc. injection Hc as <-. reflexivity.
    + apply lookup_insert_eq.
Defined.

(** Whatever directory name the guest chose, a commit changes at most one
    host file, below the host directory of a mount that may be written; a commit
    that does not answer success changes none.  What directories it makes, it
    makes above such a file. *)
Theorem commit_confined io saveId s s' code :
  sceSaveDataCommitSaveData io saveId s = (s', code) ->
  (s_mkdirs s' = s_mkdirs s \/ exists p mp comps dirs, s_vfs s = Some p /\
     FsPolicy.op_permitted mp FsPolicy.Write = true /\ mp ∈ FsPolicy.m_mounts p /\
     Forall VfsSpec.good_component comps /\ s_mkdirs s' = s_mkdirs s ++ dirs /\
     Forall (fun d => exists rest, VfsSpec.below (VfsSpec.mount_dir (FsPolicy.m_vfsRoot p) (FsPolicy.hostSubdir mp)) comps
       = d ++ rest) dirs) /\
  (s_files s' = s_files s \/
  (code = kOk /\ exists p mp comps data, s_vfs s = Some p /\
     FsPolicy.op_permitted mp FsPolicy.Write = true /\ mp ∈ FsPolicy.m_mounts p /\
     Forall VfsSpec.good_component comps /\
     s_files s' = <[VfsSpec.below (VfsSpec.mount_dir (FsPolicy.m_vfsRoot p) (FsPolicy.hostSubdir mp)) comps
                    := data]> (s_files s))).
Proof.
  unfold sceSaveDataCommitSaveData. destruct (g_saves s !! saveId) as [sd|]; [|intros [= <- <-]; by split; left].
  cbv zeta. set (s1 := with_save _ _ s). set (path := resolveSavePath _ _).
  case_bool_decide as Hne; [intros [= <- <-]; by split; left|].
  destruct (guestToHost_below s1 path _ eq_refl Hne) as (p & mp & comps & Hp & Hop & Hm & Hg & Hb).
  intros E. assert (s_mkdirs s' = s_mkdirs s ++ ensureHostDir (parent_dir (guestToHost s1 path))) as Hd
    by (destruct (negb _); by injection E as <- _).
  split; [right; exists p, mp, comps; eexists; do 4 (split; [done|]); split; [exact Hd|]; rewrite <- Hb; apply ensure_above|].
  revert E. destruct (io_open io) eqn:Ho; cbn [negb]; intros [= <- <-]; [|by left]. right. split; [done|].
  exists p, mp, comps. eexists. do 4 (split; [done|]). cbn [s_files]. unfold save_file. by rewrite Ho, Hb.
Qed.

Lemma commit_confined_witness :
  exists s', sceSaveDataCommitSaveData roomy 1 demo_state = (s', kOk) /\
    (s_files s' = s_files demo_state \/ exists p, s_vfs demo_state = Some p).
Proof.
  destruct (sceSaveDataCommitSaveData roomy 1 demo_state) as [s' code] eqn:E.
  assert (code = kOk) as -> by (change code with (snd (s', code)); rewrite <- E; vm_compute; reflexivity).
  exists s'. split; [reflexivity|].
  destruct (commit_confined roomy 1 demo_state s' kOk E) as [_ [H|(_ & p & _ & _ & _ & H & _)]]; [by left|right].
  by exists p.
Defined.

(** Titles are not kept apart.  The directory name may climb out of the
    title's folder, so a save of title [m] with the directory "../n/d" is the
    same host file as the save of title [n] with the directory [d], under every
    policy. *)
Theorem save_crosses_titles s m n d :
  guestToHost s (resolveSavePath (to_string m) (cstr "../" ++ to_string n ++ cstr "/" ++ d))
  = guestToHost s (resolveSavePath (to_string n) d).
Proof. apply guestToHost_normalize, climbing_path. Qed.

(** A commit to a full disk answers success.  When the host takes only
    part of the file the commit still answers success, the file is left cut, and
    a load refuses it: the earlier save is lost. *)
Theorem full_disk_loses_save io io' saveId s sd hp :
  g_saves s !! saveId = Some sd -> guestToHost s (resolveSavePath (titleId sd) (dirName sd)) = hp -> hp <> [] ->
  SaveContainer.wf (stamp sd) -> io_open io = true -> host_ok io -> io_open io' = true ->
  (io_room io < length (SaveContainer.serialize (stamp sd)))%nat ->
  exists s', sceSaveDataCommitSaveData io saveId s = (s', kOk) /\
    sceSaveDataLoadSaveData io' saveId s' = Some (s', kErrNotFound).
Proof.
  intros Hs Hp Hne Hwf Ho Hb Ho' Hroom. eexists. split; [by apply commit_file|].
  unfold sceSaveDataLoadSaveData. cbn [g_saves]. rewrite lookup_insert_eq. cbn [titleId dirName with_container].
  assert (guestToHost (mkSaveState (<[saveId := with_container (stamp sd) sd]> (g_saves s)) (g_nextSaveId s) (s_vfs s)
    (save_file io hp [SaveContainer.serialize (container (with_container (stamp sd) sd))] (s_files s))
    (s_mkdirs s ++ ensureHostDir (parent_dir hp)))
    (resolveSavePath (titleId sd) (dirName sd)) = hp) as -> by (rewrite <- Hp; done).
  rewrite bool_decide_eq_false_2 by done. unfold open_file, save_file. cbn [s_files]. rewrite Ho, Ho', lookup_insert_eq.
  rewrite writes_spec by done. cbn [concat container with_container]. rewrite app_nil_r.
  by rewrite deserialize_cut.
Qed.

Lemma full_disk_loses_save_witness :
  exists s', sceSaveDataCommitSaveData (mkIo true (fun _ => 64%nat) 100) 1 demo_state = (s', kOk) /\
    sceSaveDataLoadSaveData roomy 1 s' = Some (s', kErrNotFound).
Proof.
  apply (full_disk_loses_save (mkIo true (fun _ => 64%nat) 100) roomy 1 demo_state demo_dir demo_host);
    try reflexivity; try exact demo_stamp_wf; try (unfold host_ok; simpl; intros; lia).
  - discriminate.
Defined.

(** The memory calls take the serialized container, not the title's own
    data: writing back what was read changes nothing, and a write at the start
    whose first four bytes are not the container's magic is refused and changes
    nothing, so a title cannot store its bytes. *)
Theorem save_memory_is_container saveId s sd :
  g_saves s !! saveId = Some sd -> SaveContainer.wf (container sd) ->
  Z.of_nat (length (SaveContainer.serialize (container sd))) < 2 ^ 31 ->
  let '(bs, n) := sceSaveDataGetSaveDataMemory saveId (2 ^ 31) 0 s in
  n = Z.of_nat (length bs) /\
  sceSaveDataSetSaveDataMemory saveId bs 0 s = Some (with_save saveId (with_container (container sd) sd) s, kOk) /\
  forall buf, (4 <= length buf)%nat -> Z.of_nat (length buf) < 2 ^ 64 -> field buf 0 4 <> SaveContainer.kMagic ->
    sceSaveDataSetSaveDataMemory saveId buf 0 s = Some (s, kErrInvalidArg).
Proof.
  intros Hs Hwf Hlen. unfold sceSaveDataGetSaveDataMemory, sceSaveDataSetSaveDataMemory. rewrite Hs.
  set (bs := SaveContainer.serialize (container sd)) in *.
  assert (SaveContainer.header_size <= length bs)%nat as Hhs.
  { unfold bs, SaveContainer.serialize. rewrite length_app, length_header_on_disk. lia. }
  assert (0 < Z.of_nat (length bs)) as Hpos by (unfold SaveContainer.header_size in Hhs; lia).
  destruct (Z.of_nat (length bs) <=? 0) eqn:E; [lia|].
  rewrite Z.sub_0_r, Z.min_r by lia. change (Z.to_nat 0) with 0%nat. rewrite drop_0, take_ge by lia.
  split_and!.
  - apply (swrap_id 32); lia.
  - rewrite Z.add_0_l, (wrap_id 64) by (unfold in_width; lia). rewrite (proj2 (Z.ltb_ge _ _)) by lia.
    rewrite overwrite_self. cbn [mbind option_bind]. unfold bs. by rewrite deserialize_serialize.
  - intros buf Hb Hb64 Hm. rewrite Z.add_0_l, (wrap_id 64) by (unfold in_width; lia).
    set (bs' := if Z.of_nat (length bs) <? _ then _ else bs).
    assert (length bs <= length bs' /\ length buf <= length bs')%nat as [Hl1 Hl2].
    { unfold bs'. destruct (_ <? _) eqn:E2; rewrite ?length_app, ?length_replicate; lia. }
    unfold overwrite. rewrite Z.add_0_l, (proj2 (Z.leb_le _ _)) by lia. cbn [mbind option_bind].
    change (Z.to_nat 0) with 0%nat. rewrite take_0, app_nil_l.
    rewrite deserialize_magic; [done| |].
    + rewrite length_app, length_drop. lia.
    + by rewrite field_app_l by lia.
Qed.

Lemma save_memory_is_container_witness :
  sceSaveDataSetSaveDataMemory 1 [1; 2; 3; 4] 0 demo_state = Some (demo_state, kErrInvalidArg).
Proof.
  pose proof (save_memory_is_container 1 demo_state demo_dir eq_refl) as H.
  destruct (sceSaveDataGetSaveDataMemory 1 (2 ^ 31) 0 demo_state) as [bs n].
  destruct H as (_ & _ & H).
  - split; try (simpl; lia); try constructor; try (unfold SaveContainer.string_fits; simpl; lia);
      try (apply (bool_decide_unpack _); vm_compute; exact I).
    all: repeat (apply Forall_cons; split; [apply (bool_decide_unpack _); vm_compute; exact I|]); constructor.
  - vm_compute. reflexivity.
  - apply H; [simpl; lia|simpl; lia|vm_compute; discriminate].
Defined.

End Properties.
