(* ===== verification/Imports.v ===== *)
(** * SCE import tables

    [loader/sce/SceImportTable.cpp]: the libraries a module imports, read from
    its dynamic section and from the tables its attributes point at.  The parser
    follows raw pointers into the loaded module, so it may fault ([None]).  *)
From S2P Require Import Prelude Memory Elf Loader.

Record SceImportsEntry := mkImport { i_type : Z; i_reserved0 : Z; i_reserved1 : Z; i_nid : Z; i_address : Z; i_reserved2 : Z }.
Definition import_entry_size : nat := 32.
Definition read_import (bs : bytes) : SceImportsEntry :=
  mkImport (field bs 0 2) (field bs 2 2) (field bs 4 4) (field bs 8 8) (field bs 16 8) (field bs 24 8).

(** The three counts of a [SceImportsTable]; its entries follow at 16. *)
Definition import_table_size : nat := 16.
Definition read_counts (bs : bytes) : Z * Z * Z := (field bs 0 2, field bs 2 2, field bs 4 2).

Record ImportLibrary := mkLibrary {
  l_name : bytes; funcImports : list SceImportsEntry; varImports : list SceImportsEntry; tlsImports : list SceImportsEntry
}.
Definition totalFuncs (libs : list ImportLibrary) : nat := sum_list_with (fun l => length (funcImports l)) libs.

(** The bounded scan: it stops at a NUL or at [limit] bytes.  Every step is a
    mapped address, so one step more than memory has addresses is enough. *)
Fixpoint scan_str (fuel : nat) (m : Memory) (addr limit : Z) : option bytes :=
  match fuel with
  | O => None
  | S fuel' =>
      if limit <=? 0 then Some []
      else
        b ← m !! addr;
        if (b : Z) =? 0 then Some [] else rest ← scan_str fuel' m (addr + 1) (limit - 1); Some (b :: rest)
  end.

Definition readStr (mem : Memory) (strtab strtabSize offset : Z) : option bytes :=
  if (strtab =? 0) || (strtabSize <=? offset) then Some []
  else scan_str (S (size mem)) mem (u64 (strtab + offset)) (strtabSize - offset).

Definition locateStrtab (dynamics : list Elf64_Dyn) (delta : Z) : Z * Z :=
  let strtab := match last_dyn [kDtStrtab; kDtSceStrtab] dynamics with Some v => u64 (v + delta) | None => 0 end in
  let strsz := default 0 (last_dyn [kDtStrtabSz; kDtSceStrtabSz] dynamics) in
  if strtab =? 0 then (0, 0) else (strtab, if strsz =? 0 then 64 * 1024 else strsz).

(** [reloc]: the address of an entry is a preferred one. *)
Definition reloc (delta : Z) (e : SceImportsEntry) : SceImportsEntry :=
  mkImport (i_type e) (i_reserved0 e) (i_reserved1 e) (i_nid e) (u64 (i_address e + delta)) (i_reserved2 e).

(** [n] entries from index [idx] of the table whose entries start at [entries]. *)
Fixpoint read_imports (n : nat) (mem : Memory) (delta entries idx : Z) : option (list SceImportsEntry) :=
  match n with
  | O => Some []
  | S n' =>
      bs ← load_bytes mem (u64 (entries + idx * Z.of_nat import_entry_size)) import_entry_size;
      rest ← read_imports n' mem delta entries (idx + 1);
      Some (reloc delta (read_import bs) :: rest)
  end.

Definition read_library (mem : Memory) (delta : Z) (nm : bytes) (tbl : Z) : option ImportLibrary :=
  hdr ← load_bytes mem tbl 6;
  let '(nf, nv, nt) := read_counts hdr in
  let entries := u64 (tbl + Z.of_nat import_table_size) in
  fs ← read_imports (Z.to_nat nf) mem delta entries 0;
  vs ← read_imports (Z.to_nat nv) mem delta entries nf;
  ts ← read_imports (Z.to_nat nt) mem delta entries (nf + nv);
  Some (mkLibrary nm fs vs ts).

(** A null table is skipped. *)
Fixpoint read_libraries (mem : Memory) (delta : Z) (pend : list (bytes * Z)) : option (list ImportLibrary) :=
  match pend with
  | [] => Some []
  | (nm, tbl) :: rest =>
      if tbl =? 0 then read_libraries mem delta rest
      else
        l ← read_library mem delta nm tbl;
        ls ← read_libraries mem delta rest;
        Some (l :: ls)
  end.

Fixpoint read_names (mem : Memory) (strtab size : Z) (dynamics : list Elf64_Dyn) : option (list bytes) :=
  match dynamics with
  | [] => Some []
  | d :: rest =>
      if d_tag d =? kDtSceImportLib then
        nm ← readStr mem strtab size (d_val d);
        ns ← read_names mem strtab size rest;
        Some (nm :: ns)
      else read_names mem strtab size rest
  end.

Definition table_addrs (delta : Z) (dynamics : list Elf64_Dyn) : list Z :=
  (fun d => u64 (d_val d + delta)) <$>
    filter (fun d => d_tag d = kDtSceImportLibAttr) dynamics.

(** [SceImportParser::parse]: the answer and the libraries collected. *)
Definition parse_imports (mem : Memory) (delta : Z) (dynamics : list Elf64_Dyn)
    : option (bool * list ImportLibrary) :=
  let '(ptr, size) := locateStrtab dynamics delta in
  if ptr =? 0 then Some (true, [])
  else
    names ← read_names mem ptr size dynamics;
    let tables := table_addrs delta dynamics in
    if negb (length names =? length tables)%nat then Some (false, [])
    else libs ← read_libraries mem delta (zip names tables); Some (true, libs).

(** ** The encoding the tables follow *)
Definition encode_import (e : SceImportsEntry) : bytes :=
  le_encode 2 (i_type e) ++ le_encode 2 (i_reserved0 e) ++ le_encode 4 (i_reserved1 e) ++
  le_encode 8 (i_nid e) ++ le_encode 8 (i_address e) ++ le_encode 8 (i_reserved2 e).

Definition entry_fits (e : SceImportsEntry) : Prop :=
  in_width 16 (i_type e) /\ in_width 16 (i_reserved0 e) /\ in_width 32 (i_reserved1 e) /\
  in_width 64 (i_nid e) /\ in_width 64 (i_address e) /\ in_width 64 (i_reserved2 e).

Definition all_imports (l : ImportLibrary) : list SceImportsEntry :=
  funcImports l ++ varImports l ++ tlsImports l.

Definition encode_table (reserved : bytes) (l : ImportLibrary) : bytes :=
  le_encode 2 (Z.of_nat (length (funcImports l))) ++ le_encode 2 (Z.of_nat (length (varImports l))) ++
  le_encode 2 (Z.of_nat (length (tlsImports l))) ++ reserved ++ concat (encode_import <$> all_imports l).

Definition library_fits (l : ImportLibrary) : Prop :=
  Z.of_nat (length (funcImports l)) < 2 ^ 16 /\ Z.of_nat (length (varImports l)) < 2 ^ 16 /\
  Z.of_nat (length (tlsImports l)) < 2 ^ 16 /\ Forall entry_fits (all_imports l).

Definition reloc_library (delta : Z) (l : ImportLibrary) : ImportLibrary :=
  mkLibrary (l_name l) (reloc delta <$> funcImports l) (reloc delta <$> varImports l) (reloc delta <$> tlsImports l).

(** The module in memory declares [l] with the name at offset [off] of the
    string table and the table at the preferred address [a]. *)
Record declares (mem : Memory) (delta strtab size : Z) (l : ImportLibrary) (off a : Z) : Prop := mkDeclares {
  d_off : 0 <= off /\ off + Z.of_nat (length (l_name l)) < size /\ strtab + size <= two64;
  d_name : load_bytes mem (strtab + off) (length (l_name l) + 1) = Some (l_name l ++ [0]);
  d_noz : Forall (fun c => c <> 0) (l_name l);
  d_fits : library_fits l;
  d_nonnull : u64 (a + delta) <> 0;
  d_table : exists reserved, length reserved = 10%nat /\
    load_bytes mem (u64 (a + delta)) (length (encode_table reserved l)) = Some (encode_table reserved l) /\
    u64 (a + delta) + Z.of_nat (length (encode_table reserved l)) < two64
}.

(** ** Lemmas *)
Section Lemmas.

Lemma length_encode_import e : length (encode_import e) = import_entry_size.
Proof. unfold encode_import. by rewrite !length_app, !length_le_encode. Qed.

Lemma length_encode_imports es : length (concat (encode_import <$> es)) = (length es * import_entry_size)%nat.
Proof.
  induction es as [|e es IH]; [done|]. cbn [fmap list_fmap concat length].
  by rewrite length_app, length_encode_import, IH.
Qed.

Lemma read_encode_import e : entry_fits e -> read_import (encode_import e) = e.
Proof.
  intros (H1 & H2 & H3 & H4 & H5 & H6). destruct e as [t r0 r1 n a r2]. cbn in H1, H2, H3, H4, H5, H6.
  unfold read_import, field. f_equal.
  - by apply (le_decode_encode 2).
  - by apply (le_decode_encode 2).
  - by apply (le_decode_encode 4).
  - by apply (le_decode_encode 8).
  - by apply (le_decode_encode 8).
  - by apply (le_decode_encode 8).
Qed.

Lemma read_imports_encoded mem delta entries n pre es post :
  load_bytes mem entries n = Some (concat (encode_import <$> pre ++ es ++ post)) ->
  0 <= entries -> entries + Z.of_nat (length (pre ++ es ++ post) * import_entry_size) <= two64 ->
  Forall entry_fits es ->
  read_imports (length es) mem delta entries (Z.of_nat (length pre)) = Some (reloc delta <$> es).
Proof.
  intros Hl H0 Hm Hf. revert pre Hl Hm. induction Hf as [|e es He _ IH]; intros pre Hl Hm; [done|].
  cbn [length read_imports].
  assert (length (encode_import <$> pre) = length pre) as Hlp by apply length_fmap.
  pose proof Hl as Hl'. cbn [app] in Hl. rewrite fmap_app, concat_app in Hl. cbn [fmap list_fmap concat] in Hl.
  apply load_bytes_part in Hl. rewrite length_encode_imports, length_encode_import in Hl.
  rewrite !length_app in Hm. cbn [length] in Hm. unfold two64 in Hm.
  rewrite wrap_id by (unfold in_width, import_entry_size in *; lia).
  rewrite <- Nat2Z.inj_mul, Hl. cbn [mbind option_bind]. rewrite read_encode_import by done.
  assert (Z.of_nat (length pre) + 1 = Z.of_nat (length (pre ++ [e]))) as -> by (rewrite length_app; simpl; lia).
  rewrite IH; [done| |].
  - rewrite Hl'. by rewrite <- app_assoc.
  - rewrite !length_app. unfold two64. simpl length. lia.
Qed.

Lemma read_library_encoded mem delta reserved l tbl :
  length reserved = 10%nat -> library_fits l -> 0 <= tbl ->
  load_bytes mem tbl (length (encode_table reserved l)) = Some (encode_table reserved l) ->
  tbl + Z.of_nat (length (encode_table reserved l)) < two64 ->
  read_library mem delta (l_name l) tbl = Some (reloc_library delta l).
Proof.
  intros Hr (Hf & Hv & Ht & Hall) H0 Hl Hm. unfold read_library.
  set (body := concat (encode_import <$> all_imports l)).
  set (counts := le_encode 2 (Z.of_nat (length (funcImports l))) ++ le_encode 2 (Z.of_nat (length (varImports l))) ++
    le_encode 2 (Z.of_nat (length (tlsImports l)))).
  assert (encode_table reserved l = [] ++ counts ++ (reserved ++ body)) as E1
    by (unfold encode_table, counts; by rewrite <- !app_assoc).
  assert (encode_table reserved l = (counts ++ reserved) ++ body ++ []) as E2
    by (rewrite E1, app_nil_r; cbn [app]; by rewrite app_assoc).
  assert (length (encode_table reserved l) = import_table_size + length (all_imports l) * import_entry_size)%nat as Hlen.
  { rewrite E2, app_nil_r, !length_app, Hr. unfold counts, body. rewrite !length_app, !length_le_encode.
    by rewrite length_encode_imports. }
  pose proof Hl as Hl2. rewrite E1 in Hl at 2. rewrite E2 in Hl2 at 2.
  apply load_bytes_part in Hl, Hl2.
  assert (length counts = 6%nat) as Hc6 by (unfold counts; by rewrite !length_app, !length_le_encode).
  rewrite Hc6 in Hl. cbn [length] in Hl. rewrite Z.add_0_r in Hl. rewrite Hl. cbn [mbind option_bind].
  assert (read_counts counts = (Z.of_nat (length (funcImports l)), Z.of_nat (length (varImports l)),
    Z.of_nat (length (tlsImports l)))) as ->.
  { unfold read_counts, field, counts. rewrite !pair_equal_spec.
    split_and!; apply (le_decode_encode 2); change (8 * Z.of_nat 2) with 16; lia. }
  rewrite !Nat2Z.id.
  assert (length (counts ++ reserved) = import_table_size) as Hcr by (rewrite length_app, Hc6, Hr; done).
  rewrite Hcr in Hl2. rewrite Hlen in Hm. unfold two64 in Hm.
  rewrite wrap_id by (unfold in_width, import_table_size in *; lia).
  set (entries := tbl + Z.of_nat import_table_size) in *.
  unfold all_imports in Hall. apply Forall_app in Hall as [Hf' [Hv' Ht']%Forall_app].
  assert (entries + Z.of_nat (length (all_imports l) * import_entry_size) <= two64) as Hm'
    by (unfold entries, two64; lia).
  unfold body, all_imports in Hl2. unfold all_imports in Hm'.
  assert (forall pre es post, all_imports l = pre ++ es ++ post -> Forall entry_fits es ->
    read_imports (length es) mem delta entries (Z.of_nat (length pre)) = Some (reloc delta <$> es)) as Hread.
  { intros pre es post E Hes. unfold all_imports in E. rewrite E in Hl2, Hm'.
    eapply read_imports_encoded; [exact Hl2|unfold entries; lia|exact Hm'|done]. }
  change 0 with (Z.of_nat (length (@nil SceImportsEntry))).
  rewrite (Hread [] (funcImports l) (varImports l ++ tlsImports l)) by done. cbn [mbind option_bind].
  rewrite (Hread (funcImports l) (varImports l) (tlsImports l)) by done. cbn [mbind option_bind].
  rewrite <- Nat2Z.inj_add, <- length_app.
  rewrite (Hread (funcImports l ++ varImports l) (tlsImports l) []); [done| |done].
  unfold all_imports. by rewrite app_nil_r, app_assoc.
Qed.

Lemma scan_str_found mem s : forall fuel a limit,
  load_bytes mem a (length s + 1) = Some (s ++ [0]) -> Forall (fun c => c <> 0) s ->
  (length s < fuel)%nat -> Z.of_nat (length s) < limit ->
  scan_str fuel mem a limit = Some s.
Proof.
  induction s as [|c s IH]; intros fuel a limit Hl Hz Hfuel Hlim; (destruct fuel as [|fuel]; [simpl in Hfuel; lia|]);
    cbn [scan_str]; simpl in Hlim; (destruct (limit <=? 0) eqn:E; [lia|]);
    pose proof (proj1 (load_bytes_lookup _ _ _ _) Hl) as [_ Hb];
    pose proof (Hb 0%nat) as H0; rewrite Z.add_0_r in H0; cbn [app] in H0; rewrite (H0 _ eq_refl);
    cbn [mbind option_bind].
  - done.
  - apply Forall_cons in Hz as [Hc Hz]. rewrite (proj2 (Z.eqb_neq c 0) Hc).
    rewrite (IH fuel (a + 1) (limit - 1)); [done| |done|simpl in Hfuel; lia|lia].
    rewrite load_bytes_lookup. split; [rewrite length_app; simpl; lia|]. intros i b Hi.
    replace (a + 1 + Z.of_nat i) with (a + Z.of_nat (S i)) by lia. by apply Hb.
Qed.

Lemma readStr_declared mem delta strtab size l off a :
  declares mem delta strtab size l off a -> 0 < strtab -> readStr mem strtab size off = Some (l_name l).
Proof.
  intros [(H0 & H1 & H2) Hl Hz _ _ _] Hs. unfold readStr.
  rewrite (proj2 (Z.eqb_neq strtab 0)), (proj2 (Z.leb_gt size off)) by lia. cbn [orb].
  unfold two64 in H2. rewrite wrap_id by (unfold in_width; lia).
  apply scan_str_found; [done|done| |lia].
  assert (length (l_name l) + 1 <= stdpp.base.size mem)%nat; [|lia].
  apply (mapped_run_size mem (strtab + off)). intros i Hi. apply load_bytes_lookup in Hl as [_ Hl].
  destruct (lookup_lt_is_Some_2 (l_name l ++ [0]) i) as [b Hb]; [rewrite length_app; simpl; lia|].
  rewrite (Hl i b Hb). done.
Qed.

Lemma read_names_declared mem strtab size dyns libs :
  Forall2 (fun l off => readStr mem strtab size off = Some (l_name l)) libs
    (d_val <$> filter (fun d => d_tag d = kDtSceImportLib) dyns) ->
  read_names mem strtab size dyns = Some (l_name <$> libs).
Proof.
  revert libs. induction dyns as [|d dyns IH]; intros libs H; [by apply Forall2_nil_inv_r in H as ->|].
  cbn [read_names]. rewrite filter_cons in H. case_decide as Hd.
  - rewrite (proj2 (Z.eqb_eq _ _) Hd). rewrite fmap_cons in H.
    apply Forall2_cons_inv_r in H as (l & libs' & Hl & H & ->). rewrite Hl. cbn [mbind option_bind].
    by rewrite (IH libs' H).
  - rewrite (proj2 (Z.eqb_neq _ _) Hd). by apply IH.
Qed.

Lemma read_libraries_declared mem delta strtab size libs offs addrs :
  Forall3 (declares mem delta strtab size) libs offs addrs ->
  read_libraries mem delta (zip (l_name <$> libs) ((fun a => u64 (a + delta)) <$> addrs)) =
    Some (reloc_library delta <$> libs).
Proof.
  induction 1 as [|l off a libs offs addrs [_ _ _ Hf Hn (reserved & Hr & Hl & Hm)] _ IH]; [done|].
  rewrite !fmap_cons. change (zip (?x :: ?xs) (?y :: ?ys)) with ((x, y) :: zip xs ys).
  cbn [read_libraries]. rewrite (proj2 (Z.eqb_neq _ _) Hn).
  rewrite (read_library_encoded mem delta reserved l _ Hr Hf) by (try apply wrap_range; done).
  cbn [mbind option_bind]. by rewrite IH.
Qed.

End Lemmas.

(** ** Properties *)
Section Properties.

(** A module whose i-th import name and i-th table attribute describe
    the i-th library in memory, wherever these entries stand in the dynamic
    section, is parsed to exactly those libraries, every entry in its kind's
    list and order and with its address moved by the load offset. *)
Theorem import_roundtrip mem delta dyns strtab size libs offs addrs :
  locateStrtab dyns delta = (strtab, size) -> 0 < strtab ->
  d_val <$> filter (fun d => d_tag d = kDtSceImportLib) dyns = offs ->
  d_val <$> filter (fun d => d_tag d = kDtSceImportLibAttr) dyns = addrs ->
  Forall3 (declares mem delta strtab size) libs offs addrs ->
  parse_imports mem delta dyns = Some (true, reloc_library delta <$> libs).
Proof.
  intros Hs H0 Ho Ha H. unfold parse_imports. rewrite Hs, (proj2 (Z.eqb_neq strtab 0)) by lia.
  rewrite (read_names_declared mem strtab size dyns libs).
  2: { rewrite Ho. clear -H H0. induction H; constructor; [by eapply readStr_declared|done]. }
  cbn [mbind option_bind]. pose proof (Forall3_length_lm _ _ _ _ H). pose proof (Forall3_length_lr _ _ _ _ H).
  assert (table_addrs delta dyns = (fun a => u64 (a + delta)) <$> addrs) as ->
    by (unfold table_addrs; rewrite <- Ha, <- list_fmap_compose; done).
  rewrite !length_fmap, (proj2 (Nat.eqb_eq _ _)) by congruence. cbn [negb].
  by rewrite (read_libraries_declared mem delta strtab size libs offs addrs).
Qed.

(** A module loaded 0x1000 above its preferred base, with one library. *)
Definition demo_lib : ImportLibrary :=
  mkLibrary (cstr "libScePad") [mkImport 1 0 0 0x1122 0x500 0; mkImport 1 0 0 0x3344 0x508 0] [mkImport 2 0 0 5 0x510 0] [].
Definition demo_import_mem : Memory :=
  store_bytes (store_bytes ∅ 0x2000 (0 :: cstr "libScePad" ++ [0])) 0x3000 (encode_table (replicate 10 0) demo_lib).
Definition demo_dyns : list Elf64_Dyn :=
  [mkDyn kDtSceImportLibAttr 0x2000; mkDyn kDtStrtab 0x1000; mkDyn kDtStrtabSz 16; mkDyn kDtSceImportLib 1].

Lemma import_roundtrip_witness :
  parse_imports demo_import_mem 0x1000 demo_dyns = Some (true, reloc_library 0x1000 <$> [demo_lib]) /\
  (i_address <$> funcImports (reloc_library 0x1000 demo_lib)) = [0x1500; 0x1508].
Proof.
  split; [|reflexivity].
  apply (import_roundtrip demo_import_mem 0x1000 demo_dyns 0x2000 16 [demo_lib] [1] [0x2000]);
    [reflexivity|reflexivity|vm_compute; reflexivity|vm_compute; reflexivity|].
  constructor; [|constructor]. constructor.
  - unfold two64. simpl. lia.
  - vm_compute. reflexivity.
  - apply (bool_decide_unpack _). vm_compute. exact I.
  - unfold library_fits, entry_fits. split_and!; [simpl; lia..|]. simpl.
    repeat (apply Forall_cons_2; [apply (bool_decide_unpack _); vm_compute; exact I|]). apply Forall_nil_2.
  - vm_compute. discriminate.
  - exists (replicate 10 0). split_and!; [reflexivity|vm_compute; reflexivity|vm_compute; reflexivity].
Defined.

End Properties.
