(* ===== verification/Image.v ===== *)
(** * Loading an image

    [loader/ElfLoader.cpp]: the layout of an image, the mapping of its
    segments, its dynamic section, its TLS template, registration and
    relocation.  Two functions the file calls are declared nowhere in the
    repository, [AddressSpace::findFreeRange] and [Module::setDynamics]: they
    are parameters, with the behaviour the calls rely on as hypotheses.  The
    contents of the file are an argument; a fault is [None]. *)
From S2P Require Import Prelude Memory AddressSpace Elf Loader.

Module ElfLoader.

Definition kPageSize : Z := 0x1000.
Definition kMaxAlign : Z := Z.shiftl 1 21.

Definition alignUp (v a : Z) : Z := align_up v (if a =? 0 then 1 else a).

Definition fromFlags (pf : Z) : Z :=
  let p0 := AddressSpace.Prot_None in
  let p1 := if Z.land pf kPfR =? 0 then p0 else AddressSpace.prot_or p0 AddressSpace.Prot_Read in
  let p2 := if Z.land pf kPfW =? 0 then p1 else AddressSpace.prot_or p1 AddressSpace.Prot_Write in
  if Z.land pf kPfX =? 0 then p2 else AddressSpace.prot_or p2 AddressSpace.Prot_Execute.

Definition is_load (s : SegmentInfo) : bool := seg_type s =? kPtLoad.

(** The layout: lowest page of a loaded segment, largest alignment, extent. *)
Definition preferredBase (phdrs : list SegmentInfo) : Z :=
  foldl (fun b s => if is_load s then Z.min b (Z.land (seg_vaddr s) (u64 (Z.lnot (kPageSize - 1)))) else b)
    (2 ^ 64 - 1) phdrs.
Definition imageAlign (phdrs : list SegmentInfo) : Z :=
  Z.min kMaxAlign (foldl (fun a s => if is_load s
    then Z.max a (if seg_align s =? 0 then kPageSize else seg_align s) else a) kPageSize phdrs).
Definition imageSize (pb : Z) (phdrs : list SegmentInfo) : Z :=
  alignUp (foldl (fun n s => if is_load s
    then Z.max n (u64 (u64 (seg_vaddr s - pb) + alignUp (seg_memsz s) kPageSize)) else n) 0 phdrs) kPageSize.

Record State := mkState { addressSpace : AddressSpace.t; registry : ModuleRegistry; memory : Memory }.

Definition set_tls (t : TlsBlock.t) (m : Module_) : Module_ :=
  mkModule (m_name m) (m_image m) (m_segments m) (m_dynamics m) (m_preferredBase m)
    (m_actualBase m) (m_delta m) (m_entry m) t (m_dynsym m) (m_dynstr m) (m_dynsymCount m).

Definition with_dynamics (d : list Elf64_Dyn) (m : Module_) : Module_ :=
  mkModule (m_name m) (m_image m) (m_segments m) d (m_preferredBase m)
    (m_actualBase m) (m_delta m) (m_entry m) (m_tls m) (m_dynsym m) (m_dynstr m) (m_dynsymCount m).

(** A step answers the state and, unless it failed, the module. *)
Definition Outcome : Type := option (State * option Module_).

(** The bytes of a segment: copied from the file, the tail zeroed. *)
Definition copy_segment (image : ElfImage) (mem : Memory) (segActual : Z) (s : SegmentInfo)
    : option (option Memory) :=
  if seg_filesz s =? 0 then Some (Some mem)
  else
    match at_ image (seg_offset s) with
    | None => Some None
    | Some src =>
        if img_size image <? u64 (seg_offset s + seg_filesz s) then Some None
        else
          bs ← slice (data image) (Z.to_nat src) (Z.to_nat (seg_filesz s));
          m1 ← write_bytes mem segActual bs;
          m2 ← (if seg_filesz s <? seg_memsz s
                then write_bytes m1 (u64 (segActual + seg_filesz s)) (replicate (Z.to_nat (seg_memsz s - seg_filesz s)) 0)
                else Some m1);
          Some (Some m2)
    end.

Definition load_segment (path : bytes) (image : ElfImage) (delta : Z) (st : State) (m : Module_) (s : SegmentInfo)
    : Outcome :=
  let segActual := u64 (seg_vaddr s + delta) in
  let segMem := alignUp (seg_memsz s) kPageSize in
  let '(sp, mapped) := AddressSpace.map (addressSpace st) segActual segMem (fromFlags (seg_flags s))
                         (cstr "seg:" ++ path) in
  let st1 := mkState sp (registry st) (memory st) in
  if negb (mapped =? segActual) then Some (st1, None)
  else
    r ← copy_segment image (memory st) segActual s;
    match r with
    | None => Some (st1, None)
    | Some mem => Some (mkState sp (registry st) mem,
        Some (appendSegment (mkLoaded segActual (seg_filesz s) (seg_memsz s) (seg_flags s)) m))
    end.

Fixpoint load_segments (path : bytes) (image : ElfImage) (delta : Z) (st : State) (m : Module_)
    (phdrs : list SegmentInfo) : Outcome :=
  match phdrs with
  | [] => Some (st, Some m)
  | s :: rest =>
      if is_load s then
        '(st', m') ← load_segment path image delta st m s;
        match m' with
        | None => Some (st', None)
        | Some m1 => load_segments path image delta st' m1 rest
        end
      else load_segments path image delta st m rest
  end.

Definition read_dyns (bs : bytes) (count : nat) : list Elf64_Dyn :=
  (fun i => read_dyn (take dyn_size (drop (i * dyn_size) bs))) <$> seq 0 count.

(** The entries of PT_DYNAMIC: [Some None] when the section is refused. *)
Definition dynamic_entries (image : ElfImage) (s : SegmentInfo) : option (option (list Elf64_Dyn)) :=
  if negb (seg_filesz s mod Z.of_nat dyn_size =? 0) then Some None
  else
    match as_ image (Z.of_nat dyn_size) (seg_offset s) with
    | None => Some None
    | Some src =>
        let count := Z.to_nat (seg_filesz s / Z.of_nat dyn_size) in
        bs ← slice (data image) (Z.to_nat src) (count * dyn_size);
        Some (Some (read_dyns bs count))
    end.

Definition configureTls (image : ElfImage) (m : Module_) : option Module_ :=
  match findFirst image kPtTls with
  | None => Some m
  | Some tls =>
      let tmpl := (fun off => drop (Z.to_nat off) (data image)) <$> at_ image (seg_offset tls) in
      t ← TlsBlock.configure tmpl (seg_filesz tls) (seg_memsz tls) (seg_align tls);
      Some (set_tls t m)
  end.

Section Load.
Variable findFreeRange : AddressSpace.t -> Z -> Z -> Z.
Variable setDynamics : Module_ -> list Elf64_Dyn -> Module_.

(** From the segments on: dynamic section, symbols, TLS, registration,
    relocation, entry point.  The registry shares the module, so the entry
    point set last shows in it; a module that fails to relocate stays in it. *)
Definition finish_load (path : bytes) (image : ElfImage) (delta : Z) (st : State) (m0 : Module_) : Outcome :=
  dyn ← match findFirst image kPtDynamic with
        | None => Some (Some m0)
        | Some s =>
            d ← dynamic_entries image s;
            Some (match d with None => None | Some dyns => Some (setDynamics m0 dyns) end)
        end;
  match dyn with
  | None => Some (st, None)
  | Some m1 =>
      m2 ← populateSymbolTableFromDynamic (memory st) m1;
      m3 ← configureTls image m2;
      let reg := registry_add path (Some m3) (registry st) in
      '(mem, stats, ok) ← applyAll m3 reg (memory st);
      if negb (ok : bool) then Some (mkState (addressSpace st) reg mem, None)
      else
        let m4 := setEntryPoint (u64 (e_entry (ehdr image) + delta)) m3 in
        Some (mkState (addressSpace st) (registry_add path (Some m4) reg) mem, Some m4)
  end.

(** [ElfLoader::load]; [file] is what [readFile] read. *)
Definition load (st : State) (path : bytes) (file : option bytes) : Outcome :=
  match file with
  | None => Some (st, None)
  | Some bs =>
      match parse bs with
      | Rejected => Some (st, None)
      | OutOfBounds => None
      | Parsed image =>
          let pb := preferredBase (phdrs image) in
          if pb =? 2 ^ 64 - 1 then Some (st, None)
          else
            let size := imageSize pb (phdrs image) in
            let actualBase := findFreeRange (addressSpace st) size (imageAlign (phdrs image)) in
            if actualBase =? 0 then Some (st, None)
            else
              let m := setup path image pb actualBase new_module in
              let delta := u64 (actualBase - pb) in
              '(st1, m1) ← load_segments path image delta st m (phdrs image);
              match m1 with
              | None => Some (st1, None)
              | Some m' => finish_load path image delta st1 m'
              end
      end
  end.

End Load.
End ElfLoader.

(** ** Specification *)
Module LoadSpec.
Import ElfLoader.

(** The files the theorem is about: loaded segments of at most [2^61] bytes at
    preferred addresses below [2^61], with no more file bytes than memory. *)
Definition modest (s : SegmentInfo) : Prop :=
  is_load s = true -> 0 <= seg_vaddr s <= 2 ^ 61 /\ 0 <= seg_memsz s <= 2 ^ 61 /\ 0 <= seg_filesz s <= seg_memsz s.

Definition loads (image : ElfImage) : list SegmentInfo := filter (fun s => is_load s = true) (phdrs image).

Definition seg_addr (delta : Z) (s : SegmentInfo) : Z := u64 (seg_vaddr s + delta).
Definition seg_span (delta : Z) (s : SegmentInfo) : Z * Z := (seg_addr delta s, alignUp (seg_memsz s) kPageSize).
Definition region_span (r : AddressSpace.MemoryRegion) : Z * Z := (AddressSpace.base r, AddressSpace.size r).

Definition in_segment (delta : Z) (s : SegmentInfo) (a : Z) : Prop :=
  seg_addr delta s <= a < seg_addr delta s + seg_memsz s.

(** The segment is in memory: its file bytes, then zeroes.  A segment without
    file bytes is not written: its bytes are those of [mem0]. *)
Definition in_memory (image : ElfImage) (delta : Z) (mem0 mem : Memory) (s : SegmentInfo) : Prop :=
  (seg_filesz s = 0 -> forall k, in_segment delta s k -> mem !! k = mem0 !! k) /\
  (seg_filesz s <> 0 ->
   exists bs, slice (data image) (Z.to_nat (seg_offset s)) (Z.to_nat (seg_filesz s)) = Some bs /\
     load_bytes mem (seg_addr delta s) (Z.to_nat (seg_memsz s)) =
       Some (bs ++ replicate (Z.to_nat (seg_memsz s - seg_filesz s)) 0)).

Definition in_some_region (sp : AddressSpace.t) (a : Z) : Prop :=
  exists r, r ∈ AddressSpace.m_regions sp /\ AddressSpace.base r <= a < AddressSpace.base r + AddressSpace.size r.

Definition loaded_segment (delta : Z) (s : SegmentInfo) : LoadedSegment :=
  mkLoaded (seg_addr delta s) (seg_filesz s) (seg_memsz s) (seg_flags s).

(** What the loader relies on of the two undeclared functions. *)
Definition finds_free (find : AddressSpace.t -> Z -> Z -> Z) : Prop :=
  forall sp size align, Reachable.reachable sp ->
    find sp size align = 0 \/ AddressSpace.free_range sp (find sp size align) size.
Definition sets_dynamics (set : Module_ -> list Elf64_Dyn -> Module_) : Prop :=
  forall m d, set m d = with_dynamics d m.

End LoadSpec.

(** ** Lemmas *)
Section Lemmas.
Import ElfLoader LoadSpec Reachable.

Lemma page_floor_le v : in_width 64 v -> 0 <= Z.land v (u64 (Z.lnot (kPageSize - 1))) <= v.
Proof.
  intros Hv. rewrite land_wrap_r by (done || lia). unfold kPageSize, in_width in *.
  change (0x1000 - 1) with (Z.ones 12). rewrite <- Z.ldiff_land, Z.ldiff_ones_r by lia.
  rewrite Z.shiftl_mul_pow2, Z.shiftr_div_pow2 by lia. dm_lia.
Qed.

Lemma alignUp_page v : 0 <= v <= 2 ^ 61 -> v <= alignUp v kPageSize <= 2 ^ 62.
Proof.
  intros Hv. unfold alignUp, kPageSize. cbn [Z.eqb]. change 0x1000 with (2 ^ 12).
  destruct (align_up_spec v 12) as [? _]; [lia|lia|unfold two64; lia|]. lia.
Qed.

Lemma preferredBase_le l s :
  s ∈ l -> is_load s = true -> in_width 64 (seg_vaddr s) -> preferredBase l <= seg_vaddr s.
Proof.
  intros Hin Hl Hw. unfold preferredBase. generalize (2 ^ 64 - 1).
  assert (forall l b, foldl (fun b s => if is_load s
    then Z.min b (Z.land (seg_vaddr s) (u64 (Z.lnot (kPageSize - 1)))) else b) b l <= b) as Hmono.
  { clear. induction l as [|s l IH]; intros b; simpl; [lia|]. destruct (is_load s); [|by apply IH].
    etrans; [apply IH|]. lia. }
  induction Hin as [s l|s s' l Hin IH]; intros b; simpl.
  - rewrite Hl. etrans; [apply Hmono|]. pose proof (page_floor_le _ Hw). lia.
  - by apply IH.
Qed.

Lemma preferredBase_nonneg l :
  Forall (fun s => is_load s = true -> in_width 64 (seg_vaddr s)) l -> 0 <= preferredBase l.
Proof.
  intros H. unfold preferredBase. assert (0 <= 2 ^ 64 - 1) as Hb by lia. revert Hb. generalize (2 ^ 64 - 1).
  induction H as [|s l Hs _ IH]; intros b Hb; simpl; [done|]. destruct (is_load s); [|by apply IH].
  apply IH. pose proof (page_floor_le _ (Hs eq_refl)). lia.
Qed.

Lemma copy_segment_inv image mem a s mem' :
  0 <= a -> a + seg_memsz s < 2 ^ 64 -> 0 <= seg_filesz s <= seg_memsz s ->
  copy_segment image mem a s = Some (Some mem') ->
  (forall k, ~ (a <= k < a + seg_memsz s) -> mem' !! k = mem !! k) /\
  (seg_filesz s = 0 -> mem' = mem) /\
  (seg_filesz s <> 0 -> exists bs,
    slice (data image) (Z.to_nat (seg_offset s)) (Z.to_nat (seg_filesz s)) = Some bs /\
    load_bytes mem' a (Z.to_nat (seg_memsz s)) = Some (bs ++ replicate (Z.to_nat (seg_memsz s - seg_filesz s)) 0)).
Proof.
  intros H0 Ha Hf E. unfold copy_segment in E. destruct (_ =? 0) eqn:E0; [simplify_eq; split_and!; [done|done|lia]|].
  unfold at_ in E. destruct (_ <=? _); [done|]. destruct (_ <? _); [done|].
  apply bind_Some in E as (bs & Hbs & E). apply bind_Some in E as (m1 & E1 & E).
  apply bind_Some in E as (m2 & E2 & E). simplify_eq. destruct (slice_Some _ _ _ _ Hbs) as (_ & _ & Hlen).
  apply write_bytes_inv in E1 as [L1 F1]. rewrite Hlen in L1.
  destruct (_ <? seg_memsz s) eqn:Em.
  - rewrite (wrap_id 64) in E2 by (unfold in_width; lia). apply write_bytes_inv in E2 as [L2 F2].
    rewrite length_replicate in L2, F2. split_and!.
    + intros k Hk. rewrite F2, F1 by lia. done.
    + lia.
    + intros _. exists bs. split; [done|]. apply load_bytes_lookup. split.
      * rewrite length_app, length_replicate, Hlen. lia.
      * intros i b Hi. apply lookup_app_Some in Hi as [Hi|[Hge Hi]].
        -- pose proof (lookup_lt_Some _ _ _ Hi). rewrite F2 by lia.
           apply load_bytes_lookup in L1 as [_ L1]. by apply L1.
        -- apply load_bytes_lookup in L2 as [_ L2]. apply L2 in Hi. rewrite <- Hi. f_equal. lia.
  - simplify_eq. split_and!; [intros k Hk; apply F1; lia|lia|]. intros _. exists bs. split; [done|].
    replace (seg_memsz s - seg_filesz s) with 0 by lia. rewrite app_nil_r.
    by replace (seg_memsz s) with (seg_filesz s) by lia.
Qed.

Lemma alignUp_page_idem v :
  0 <= v <= 2 ^ 61 -> align_up (alignUp v kPageSize) AddressSpace.kPageSize = alignUp v kPageSize.
Proof.
  intros Hv. unfold alignUp, kPageSize, AddressSpace.kPageSize. cbn [Z.eqb]. change 0x1000 with (2 ^ 12).
  destruct (align_up_spec v 12) as [Hb Hmod]; [lia|lia|unfold two64; lia|].
  set (x := align_up v (2 ^ 12)) in *. rewrite align_up_pow2 by (unfold two64; lia).
  rewrite <- (Z.div_unique (x + (2 ^ 12 - 1)) (2 ^ 12) (x / 2 ^ 12) (2 ^ 12 - 1)); [|lia|dm_lia]. dm_lia.
Qed.

(** One segment: a fresh region, filled from the file, and nothing else. *)
Lemma load_segment_inv path image delta st m s st' m' :
  reachable (addressSpace st) -> 0 < seg_addr delta s <= 2 ^ 62 ->
  0 <= seg_memsz s <= 2 ^ 61 -> 0 <= seg_filesz s <= seg_memsz s ->
  load_segment path image delta st m s = Some (st', Some m') ->
  reachable (addressSpace st') /\ registry st' = registry st /\
  m' = appendSegment (loaded_segment delta s) m /\
  region_span <$> AddressSpace.m_regions (addressSpace st') =
    (region_span <$> AddressSpace.m_regions (addressSpace st)) ++ [seg_span delta s] /\
  (forall k, ~ in_segment delta s k -> memory st' !! k = memory st !! k) /\
  in_memory image delta (memory st) (memory st') s /\
  (forall k, in_some_region (addressSpace st) k -> ~ in_segment delta s k /\ in_some_region (addressSpace st') k) /\
  (forall k, in_segment delta s k -> in_some_region (addressSpace st') k).
Proof.
  intros Hr Ha Hm Hf E. unfold load_segment in E. fold (seg_addr delta s) in E.
  destruct (AddressSpace.map _ _ _ _ _) as [sp mapped] eqn:Emap. destruct (negb _) eqn:Eq; [done|].
  apply negb_false_iff, Z.eqb_eq in Eq as ->.
  apply bind_Some in E as ([mem|] & Ec & E); [|done]. simplify_eq. simpl.
  pose proof (wrap_range 64 (seg_vaddr s + delta) ltac:(lia)) as [Hlo _]. fold (seg_addr delta s) in Hlo.
  pose proof (alignUp_page (seg_memsz s) Hm) as Hpg.
  assert (AddressSpace.small (seg_addr delta s)) as Hs1 by (unfold AddressSpace.small; lia).
  assert (AddressSpace.small (alignUp (seg_memsz s) kPageSize)) as Hs2 by (unfold AddressSpace.small; lia).
  pose proof (alignUp_page_idem (seg_memsz s) Hm) as Hid.
  destruct (copy_segment_inv image (memory st) (seg_addr delta s) s mem Hlo ltac:(lia) Hf Ec) as (Hframe & Hzero & Hcont).
  assert (reachable sp) as Hr' by (replace sp with (AddressSpace.map (addressSpace st) (seg_addr delta s)
    (alignUp (seg_memsz s) kPageSize) (fromFlags (seg_flags s)) (cstr "seg:" ++ path)).1 by (by rewrite Emap); by constructor).
  destruct (map_result _ _ _ _ _ _ _ Hr Hs1 Hs2 Emap) as [[Hz _]|(_ & (_ & _ & Hfree) & hp & Hreg)]; [lia|].
  rewrite Hid in Hreg, Hfree. split_and!; [done|done|done| |exact Hframe|split; [intros H0 k _; by rewrite Hzero|exact Hcont]| |].
  - by rewrite Hreg, fmap_app.
  - intros k (r & Hin & Hk). rewrite Forall_forall in Hfree. specialize (Hfree r Hin). split.
    + unfold in_segment. lia.
    + exists r. rewrite Hreg. split; [|done]. apply elem_of_app. by left.
  - intros k Hk. eexists. rewrite Hreg. split; [apply elem_of_app; right; by apply list_elem_of_singleton|].
    unfold in_segment in Hk. simpl. lia.
Qed.

(** All segments: the regions and the module list them in order, each is in
    memory, and nothing outside them changed. *)
Lemma load_segments_inv path image delta l : forall st m st' m',
  reachable (addressSpace st) ->
  Forall (fun s => is_load s = true -> 0 < seg_addr delta s <= 2 ^ 62 /\
    0 <= seg_memsz s <= 2 ^ 61 /\ 0 <= seg_filesz s <= seg_memsz s) l ->
  load_segments path image delta st m l = Some (st', Some m') ->
  let ls := filter (fun s => is_load s = true) l in
  reachable (addressSpace st') /\ registry st' = registry st /\
  m' = foldl (fun m s => appendSegment (loaded_segment delta s) m) m ls /\
  region_span <$> AddressSpace.m_regions (addressSpace st') =
    (region_span <$> AddressSpace.m_regions (addressSpace st)) ++ (seg_span delta <$> ls) /\
  (forall k, (forall s, s ∈ ls -> ~ in_segment delta s k) -> memory st' !! k = memory st !! k) /\
  Forall (in_memory image delta (memory st) (memory st')) ls /\
  (forall k, in_some_region (addressSpace st) k -> memory st' !! k = memory st !! k) /\
  (forall s k, s ∈ ls -> in_segment delta s k -> ~ in_some_region (addressSpace st) k).
Proof.
  induction l as [|s l IH]; intros st m st' m' Hr Hl E ls.
  { simpl in E. simplify_eq. unfold ls. simpl. rewrite app_nil_r. split_and!; try done; intros s k Hin; by apply elem_of_nil in Hin. }
  apply Forall_cons in Hl as [Hs Hl]. unfold ls. rewrite filter_cons. cbn [load_segments] in E.
  destruct (is_load s) eqn:Els; [rewrite decide_True by done|rewrite decide_False by done; by apply IH].
  destruct (Hs eq_refl) as (Ha & Hm & Hf).
  apply bind_Some in E as ([st1 [m1|]] & E1 & E); [|done].
  destruct (load_segment_inv _ _ _ _ _ _ _ _ Hr Ha Hm Hf E1) as (Hr1 & Hg1 & -> & Hreg1 & Hfr1 & Hin1 & Hk1 & Hself).
  destruct (IH _ _ _ _ Hr1 Hl E) as (Hr2 & Hg2 & -> & Hreg2 & Hfr2 & Hin2 & Hk2 & Hnew2).
  split_and!; [done|congruence|done| | | | |].
  - by rewrite Hreg2, Hreg1, <- app_assoc.
  - intros k Hk. rewrite Hfr2 by (intros s' Hs'; apply Hk; by apply list_elem_of_further).
    apply Hfr1, Hk, list_elem_of_here.
  - destruct Hin1 as [Hz1 Hc1]. constructor; [split|].
    + intros Hz k Hk. rewrite Hk2 by (by apply Hself). by apply Hz1.
    + intros Hne. destruct (Hc1 Hne) as (bs & Hb & Hld). exists bs. split; [done|].
      rewrite <- Hld. apply load_bytes_agree. intros k Hk. apply Hk2, Hself. unfold in_segment. lia.
    + rewrite Forall_forall in Hin2 |- *. intros s' Hs'. destruct (Hin2 s' Hs') as [Hz2 Hc2]. split; [|done].
      intros Hz k Hk. rewrite Hz2 by done. apply Hfr1. intros Hks. by eapply Hnew2, Hself.
  - intros k Hk. destruct (Hk1 k Hk) as [Hn Hk']. rewrite Hk2 by done. by apply Hfr1.
  - intros s' k Hs' Hk Hreg. destruct (Hk1 k Hreg) as [Hn Hk']. apply elem_of_cons in Hs' as [->|Hs']; [done|].
    by apply (Hnew2 s' k).
Qed.

Lemma foldl_append_segments ls delta m :
  let m' := foldl (fun m s => appendSegment (loaded_segment delta s) m) m ls in
  m_segments m' = m_segments m ++ (loaded_segment delta <$> ls) /\
  m_dynamics m' = m_dynamics m /\ m_delta m' = m_delta m.
Proof.
  revert m. induction ls as [|s ls IH]; intros m; simpl; [by rewrite app_nil_r|].
  destruct (IH (appendSegment (loaded_segment delta s) m)) as (-> & -> & ->). simpl. by rewrite <- app_assoc.
Qed.

Lemma parse_data bs image : parse bs = Parsed image -> data image = bs.
Proof.
  unfold parse. destruct (_ <? _)%nat; [done|]. cbv zeta. destruct (negb _); [done|]. destruct (_ <? _); [done|].
  destruct (read_phdrs _ _ _); intros; by simplify_eq.
Qed.

Lemma populate_fields mem m m' :
  populateSymbolTableFromDynamic mem m = Some m' ->
  m_segments m' = m_segments m /\ m_dynamics m' = m_dynamics m /\ m_delta m' = m_delta m.
Proof.
  unfold populateSymbolTableFromDynamic. intros E.
  destruct (last_dyn [kDtSymtab; kDtSceSymtab] (m_dynamics m)), (last_dyn [kDtStrtab; kDtSceStrtab] (m_dynamics m));
    [|by injection E as <-..].
  apply bind_Some in E as (c & _ & E). by injection E as <-.
Qed.

Lemma configureTls_fields image m m' :
  configureTls image m = Some m' ->
  m_segments m' = m_segments m /\ m_dynamics m' = m_dynamics m /\ m_delta m' = m_delta m.
Proof.
  unfold configureTls. destruct (findFirst _ _) as [tls|]; [|by intros [= <-]].
  intros (t & _ & E)%bind_Some. by injection E as <-.
Qed.

Lemma read_dyns_wide bs count : Forall is_byte bs -> Forall (fun d => in_width 64 (d_val d)) (read_dyns bs count).
Proof.
  intros Hb. unfold read_dyns. apply Forall_fmap, Forall_forall. intros i _. cbn.
  apply (field_in_width _ 8 8). apply Forall_take, Forall_drop, Hb.
Qed.

Lemma dynamic_entries_wide image s dyns :
  Forall is_byte (data image) -> dynamic_entries image s = Some (Some dyns) ->
  Forall (fun d => in_width 64 (d_val d)) dyns.
Proof.
  intros Hb E. unfold dynamic_entries in E. destruct (negb _); [done|]. destruct (as_ _ _ _) as [src|]; [|done].
  apply bind_Some in E as (bs & Hbs & E). injection E as <-. apply read_dyns_wide.
  destruct (slice_Some _ _ _ _ Hbs) as (_ & -> & _). by apply Forall_take, Forall_drop.
Qed.

(** The end of a load that succeeds. *)
Lemma finish_load_inv setDynamics path image delta st m0 st' m :
  sets_dynamics setDynamics -> Forall is_byte (data image) -> segments_wf m0 -> m_dynamics m0 = [] ->
  finish_load setDynamics path image delta st m0 = Some (st', Some m) ->
  addressSpace st' = addressSpace st /\ m_segments m = m_segments m0 /\
  m_entry m = u64 (e_entry (ehdr image) + delta) /\ registry st' = <[path := m]> (registry st) /\
  confined m0 (memory st) (memory st').
Proof.
  intros Hset Hb Hsegs Hd0 E. unfold finish_load in E.
  apply bind_Some in E as ([m1|] & E1 & E); [|done].
  assert (m_segments m1 = m_segments m0 /\ Forall (fun d => in_width 64 (d_val d)) (m_dynamics m1)) as [Hs1 Hd1].
  { destruct (findFirst image kPtDynamic) as [s|]; [|injection E1 as <-; by rewrite Hd0].
    apply bind_Some in E1 as ([dyns|] & Ed & E1); [|done]. injection E1 as <-. rewrite Hset. split; [done|].
    by apply dynamic_entries_wide in Ed. }
  apply bind_Some in E as (m2 & E2 & E). destruct (populate_fields _ _ _ E2) as (Hs2 & Hd2 & _).
  apply bind_Some in E as (m3 & E3 & E). destruct (configureTls_fields _ _ _ E3) as (Hs3 & Hd3 & _).
  cbv zeta in E. apply bind_Some in E as ([[mem stats] ok] & Ea & E). destruct (negb ok); [done|].
  injection E as <- <-. simpl.
  assert (m_segments m3 = m_segments m0) as Hs by congruence.
  destruct (applyAll_facts m3 (registry_add path (Some m3) (registry st)) (memory st) mem stats ok) as (_ & _ & Hc);
    [unfold segments_wf in *; by rewrite Hs|congruence|done|].
  split_and!; [done|congruence|done|apply (insert_insert_eq (M := gmap bytes))|].
  intros a Ha. destruct (Hc a Ha) as (sg & Hsg & ? & ?). exists sg. by rewrite Hs in Hsg.
Qed.

End Lemmas.

(** ** Properties *)
Section Properties.
Import ElfLoader LoadSpec Reachable.
Variable findFreeRange : AddressSpace.t -> Z -> Z -> Z.
Variable setDynamics : Module_ -> list Elf64_Dyn -> Module_.
Hypothesis find_free : finds_free findFreeRange.
Hypothesis set_dyn : sets_dynamics setDynamics.

(** C4: a load that answers a module has added to the address space exactly
    one fresh region per loaded segment, at its address moved by one offset;
    the module lists these segments, carries the moved entry point and is
    registered under its path; before relocation every segment that has file
    bytes holds them followed by zeroes, a segment without file bytes is left
    as the mapping gave it (the loader zeroes only after file bytes), and
    memory outside the segments is untouched; and relocation then wrote only
    to writable segments and the up to 7 bytes after one. The file's loaded
    segments have at most [2^61] bytes, at preferred addresses up to [2^61],
    and no more file bytes than memory ([modest]); [findFreeRange] answers
    zero or a free range, and [setDynamics] stores the entries. *)
Theorem load_sound st path file st' m image :
  reachable (addressSpace st) -> Forall is_byte file -> parse file = Parsed image ->
  Forall modest (phdrs image) ->
  load findFreeRange setDynamics st path (Some file) = Some (st', Some m) ->
  exists delta mem1,
    reachable (addressSpace st') /\
    region_span <$> AddressSpace.m_regions (addressSpace st') =
      (region_span <$> AddressSpace.m_regions (addressSpace st)) ++ (seg_span delta <$> loads image) /\
    m_segments m = loaded_segment delta <$> loads image /\
    m_entry m = u64 (e_entry (ehdr image) + delta) /\
    registry_find (registry st') path = Some m /\
    Forall (in_memory image delta (memory st) mem1) (loads image) /\
    (forall k, (forall s, s ∈ loads image -> ~ in_segment delta s k) -> mem1 !! k = memory st !! k) /\
    confined m mem1 (memory st').
Proof.
  intros Hr Hbytes Hp Hmod E. unfold load in E. rewrite Hp in E.
  assert (data image = file) as Hdata by (by eapply parse_data).
  assert (Forall (fun s => is_load s = true -> in_width 64 (seg_vaddr s)) (phdrs image)) as Hw.
  { eapply Forall_impl; [exact Hmod|]. intros s Hs Hl. destruct (Hs Hl). unfold in_width. lia. }
  pose proof (preferredBase_nonneg _ Hw) as Hpb. set (pb := preferredBase (phdrs image)) in *. cbv zeta in E.
  destruct (pb =? _); [done|].
  destruct (find_free (addressSpace st) (imageSize pb (phdrs image)) (imageAlign (phdrs image)) Hr) as [Hz|Hfree];
    [by rewrite Hz in E|].
  set (actual := findFreeRange _ _ _) in *. destruct (actual =? 0) eqn:Ea; [done|].
  destruct (reachable_arena _ Hr) as [Hab Hac].
  assert (0 < actual <= 2 ^ 47) as Hact.
  { destruct Hfree as (H1 & H2 & _). rewrite Hab, Hac in *.
    assert (0 <= imageSize pb (phdrs image)) by (apply align_up_range).
    unfold AddressSpace.kGuestBase, AddressSpace.kGuestSize in *. lia. }
  set (delta := u64 (actual - pb)) in *.
  assert (Forall (fun s => is_load s = true -> 0 < seg_addr delta s <= 2 ^ 62 /\
    0 <= seg_memsz s <= 2 ^ 61 /\ 0 <= seg_filesz s <= seg_memsz s) (phdrs image)) as Hsegs.
  { rewrite Forall_forall in Hmod |- *. intros s Hin Hl. destruct (Hmod s Hin Hl) as (Hv & Hm & Hf).
    split; [|by split]. assert (pb <= seg_vaddr s) by (apply preferredBase_le; [done|done|unfold in_width; lia]).
    assert (seg_addr delta s = seg_vaddr s - pb + actual) as ->; [|lia].
    unfold seg_addr, delta. unfold wrap at 2. unfold wrap. rewrite Zplus_mod_idemp_r.
    replace (seg_vaddr s + (actual - pb)) with (seg_vaddr s - pb + actual) by lia. apply Z.mod_small. lia. }
  apply bind_Some in E as ([st1 [m1|]] & E1 & E); [|done].
  destruct (load_segments_inv _ _ _ _ _ _ _ _ Hr Hsegs E1) as (Hr1 & Hg1 & -> & Hreg & Hfr & Hin & _ & _).
  fold (loads image) in *.
  destruct (foldl_append_segments (loads image) delta (setup path image pb actual new_module)) as (Hms & Hmd & _).
  apply finish_load_inv in E as (Hsp & Hs & He & Hg & Hc); [|done|by rewrite Hdata| |by rewrite Hmd].
  2: { unfold segments_wf. rewrite Hms. apply Forall_fmap, Forall_forall.
       intros s [Hl Hin']%list_elem_of_filter. rewrite Forall_forall in Hsegs.
       destruct (Hsegs s Hin' Hl) as (? & ? & _). simpl. unfold two64. lia. }
  exists delta, (memory st1). rewrite Hsp. split_and!; try done.
  - by rewrite Hs, Hms.
  - rewrite Hg. apply lookup_insert_eq.
  - intros a Ha. destruct (Hc a Ha) as (sg & Hsg & ?). exists sg. by rewrite Hs.
Qed.

End Properties.

(** ** A concrete load *)
Section Demo.
Import ElfLoader LoadSpec Reachable ElfEncode.

(** First fit from the address space, for the sizes it can serve. *)
Definition first_fit (sp : AddressSpace.t) (size align : Z) : Z :=
  if decide (0 <= size <= 2 ^ 62) then AddressSpace.findFreeGap sp size 0 else 0.

Lemma first_fit_finds_free : finds_free first_fit.
Proof.
  intros sp size align Hr. unfold first_fit. destruct (decide _); [|by left].
  destruct (decide (AddressSpace.findFreeGap sp size 0 = 0)); [by left|right].
  apply findFreeGap_free; [by apply addr_reachable_inv|lia|unfold AddressSpace.small; lia|done].
Qed.

Definition store_dynamics (m : Module_) (d : list Elf64_Dyn) : Module_ := with_dynamics d m.

Definition load_base : Z := AddressSpace.kGuestBase + 0x10000.
Definition demo_state : State :=
  mkState (fst (AddressSpace.init AddressSpace.initial (SharedArena.mkReply 5 true (Some AddressSpace.kGuestBase)))) ∅
    (store_bytes ∅ load_base (replicate 32 0xFF)).
Definition demo_file : bytes := file_bytes (demo_ehdr 64) [] [demo_phdr] [].

Lemma load_sound_witness :
  exists st' m delta mem1, load first_fit store_dynamics demo_state (cstr "eboot") (Some demo_file) = Some (st', Some m) /\
    m_segments m = loaded_segment delta <$> [demo_phdr] /\
    Forall (in_memory (mkImage demo_file (demo_ehdr 64) [demo_phdr]) delta (memory demo_state) mem1) [demo_phdr].
Proof.
  assert (P : (r ← load first_fit store_dynamics demo_state (cstr "eboot") (Some demo_file);
      Some (match r.2 with Some _ => true | None => false end)) = Some true) by (vm_compute; reflexivity).
  destruct (load _ _ _ _ _) as [[st' [m|]]|] eqn:E; [|discriminate P|discriminate P].
  assert (Hr : reachable (addressSpace demo_state))
    by (apply (r_init (SharedArena.mkReply 5 true (Some AddressSpace.kGuestBase))); reflexivity).
  assert (Hb : Forall is_byte demo_file) by (apply forallb_is_byte; vm_compute; reflexivity).
  assert (Hp : parse demo_file = Parsed (mkImage demo_file (demo_ehdr 64) [demo_phdr])) by (vm_compute; reflexivity).
  destruct (load_sound first_fit store_dynamics first_fit_finds_free (fun _ _ => eq_refl) demo_state (cstr "eboot")
    demo_file st' m _ Hr Hb Hp) as (delta & mem1 & _ & _ & Hs & _ & _ & Hin & _);
    [|exact E|exists st', m, delta, mem1; split; [reflexivity|]; split; [exact Hs|exact Hin]].
  apply Forall_cons_2; [|apply Forall_nil_2]. intros _. simpl. lia.
Defined.

End Demo.
