(* ===== verification/LibcHeap.v ===== *)
(** * The guest C library's heap

    The allocator of [sce/libc/LibcInternal.cpp]: malloc, free, calloc, realloc
    and memalign over one region of the process's address space.  Blocks carry
    a 16-byte header in guest memory, which the guest can overwrite.  The heap
    reaches the address space through the interface [RegionProvider]; an access
    to unmapped memory is a fault, [None]. *)
From S2P Require Import Prelude Memory AddressSpace.

(** ** What the heap needs of [AddressSpace::map] *)
Class RegionProvider (S : Type) := mkProvider {
  provide : S -> Z -> Z -> Z -> bytes -> S * Z;
  provider_ok : S -> Prop;
  provide_range : forall s len prot nm s' w,
    provider_ok s -> AddressSpace.small len -> provide s 0 len prot nm = (s', w) ->
    provider_ok s' /\ (w = 0 \/ (0 < w /\ w + len <= 2 ^ 63))
}.

#[export] Instance AddressSpace_provider : RegionProvider AddressSpace.t.
Proof.
  refine (mkProvider _ AddressSpace.map Reachable.reachable _).
  intros s len prot nm s' w Hr Hl E. assert (AddressSpace.small 0) as H0 by (unfold AddressSpace.small; lia).
  split; [by replace s' with (AddressSpace.map s 0 len prot nm).1 by (by rewrite E); constructor|].
  pose proof (addr_reachable_inv _ Hr) as Hwf.
  destruct (map_result _ _ _ _ _ _ _ Hr H0 Hl E) as [[-> _]|(Hw & (Hb & Ht & _) & _)]; [by left|right].
  destruct (align_up_page len Hl) as (? & ? & ?). pose proof (AddressSpace.wf_base _ Hwf).
  pose proof (AddressSpace.wf_top _ Hwf). lia.
Defined.

Module LibcHeap.

(** The bit-fields of the first header word, low bits first. *)
Definition hdr_size (w : Z) : Z := w mod 2 ^ 48.
Definition hdr_sizeClass (w : Z) : Z := Z.shiftr w 48 mod 2 ^ 8.
Definition hdr_isFree (w : Z) : bool := Z.testbit w 56.
Definition set_isFree (b : bool) (w : Z) : Z := if b then Z.setbit w 56 else Z.clearbit w 56.
(** [size], [sizeClass]; [isFree], [prevFree] and [reserved] zero. *)
Definition pack_header (size cls : Z) : Z := size mod 2 ^ 48 + Z.shiftl (cls mod 2 ^ 8) 48.

Definition kHeapMagic : Z := 0x4650344845415021.
Definition kHeapHeaderSize : Z := 16.
Definition kHeapAlignment : Z := 16.
Definition kNumSizeClasses : Z := 10.
Definition kSizeClasses : list Z := [16; 32; 64; 128; 256; 512; 1024; 2048; 4096; 8192].
Definition kHeapSize : Z := 256 * 1024 * 1024.

Record HeapState := mkHeap {
  base : Z; size : Z; next : Z; peak : Z; live : Z; allocs : Z; frees : Z
}.
Definition no_heap : HeapState := mkHeap 0 0 0 0 0 0 0.

(** The globals of the file, the bound process's address space (none when no
    process is bound) and memory. *)
Record t (S : Type) := mkLibc {
  g_heap : HeapState; g_freeLists : list Z; space : option S; mem : Memory
}.
Arguments mkLibc {S}.
Arguments g_heap {S}.
Arguments g_freeLists {S}.
Arguments space {S}.
Arguments mem {S}.

Definition with_heap {S} (h : HeapState) (s : t S) : t S := mkLibc h (g_freeLists s) (space s) (mem s).
Definition with_mem {S} (m : Memory) (s : t S) : t S := mkLibc (g_heap s) (g_freeLists s) (space s) m.
Definition with_list {S} (cls : Z) (head : Z) (s : t S) : t S :=
  mkLibc (g_heap s) (<[Z.to_nat cls := head]> (g_freeLists s)) (space s) (mem s).
Definition free_head {S} (s : t S) (cls : Z) : Z := default 0 (g_freeLists s !! Z.to_nat cls).

Definition initial {S} (sp : option S) (m : Memory) : t S := mkLibc no_heap (replicate 10 0) sp m.

(** The class and the rounded size. *)
Definition pickClass (sz : Z) : Z * Z :=
  match list_find (fun c => sz <= c) kSizeClasses with
  | Some (i, c) => (Z.of_nat i, c)
  | None => (255, align_up sz kHeapAlignment)
  end.

Section Ops.
Context {S : Type} `{RegionProvider S}.

Definition ensureHeapInitialized (s : t S) : t S * bool :=
  if negb (base (g_heap s) =? 0) then (s, true)
  else
    match space s with
    | None => (s, false)
    | Some sp =>
        let '(sp', b) := provide sp 0 kHeapSize
          (AddressSpace.prot_or AddressSpace.Prot_Read AddressSpace.Prot_Write) (cstr "libc-heap") in
        if b =? 0 then (mkLibc (g_heap s) (g_freeLists s) (Some sp') (mem s), false)
        else
          let h := g_heap s in
          (mkLibc (mkHeap b kHeapSize b (peak h) (live h) (allocs h) (frees h)) (g_freeLists s) (Some sp') (mem s), true)
    end.

(** A block of the class's free list is popped and then not returned. *)
Definition reuse_block (s : t S) (cls head : Z) : option (t S * Z) :=
  w ← readU64 (mem s) head;
  let s1 := with_list cls (if hdr_isFree w then 0 else head) s in
  m1 ← writeU64 (mem s) head (set_isFree false w);
  m2 ← writeU64 m1 (head + 8) kHeapMagic;
  let h := g_heap s in
  Some (with_mem m2 (with_heap
    (mkHeap (base h) (size h) (next h) (peak h) (u64 (live h + hdr_size w)) (u64 (allocs h + 1)) (frees h)) s1), 0).

Definition bump_alloc (s : t S) (cls rounded : Z) : option (t S * Z) :=
  let h := g_heap s in
  let total := u64 (kHeapHeaderSize + rounded) in
  if u64 (base h + size h) <? u64 (next h + total) then Some (s, 0)
  else
    let hdr := next h in
    m1 ← writeU64 (mem s) hdr (pack_header rounded cls);
    m2 ← writeU64 m1 (hdr + 8) kHeapMagic;
    let live' := u64 (live h + rounded) in
    Some (with_mem m2 (with_heap
      (mkHeap (base h) (size h) (u64 (next h + total)) (Z.max (peak h) live') live' (u64 (allocs h + 1)) (frees h)) s),
      u64 (hdr + kHeapHeaderSize)).

Definition heapAlloc (s0 : t S) (request0 : Z) : option (t S * Z) :=
  let '(s, ok) := ensureHeapInitialized s0 in
  if negb ok then Some (s, 0)
  else
    let request := if request0 =? 0 then 1 else request0 in
    let '(cls, rounded) := pickClass request in
    if (cls <? kNumSizeClasses) && negb (free_head s cls =? 0)
    then reuse_block s cls (free_head s cls)
    else bump_alloc s cls rounded.

Definition heapFree (s : t S) (ptr : Z) : option (t S) :=
  if ptr =? 0 then Some s
  else
    let hdr := u64 (ptr - kHeapHeaderSize) in
    magic ← readU64 (mem s) (hdr + 8);
    if negb (magic =? kHeapMagic) then Some s
    else
      w ← readU64 (mem s) hdr;
      if hdr_isFree w then Some s
      else
        m1 ← writeU64 (mem s) hdr (set_isFree true w);
        let h := g_heap s in
        let sz := hdr_size w in
        let s1 := with_mem m1 (with_heap (mkHeap (base h) (size h) (next h) (peak h)
          (if sz <? live h then live h - sz else 0) (allocs h) (u64 (frees h + 1))) s) in
        if hdr_sizeClass w <? kNumSizeClasses then
          m2 ← writeU64 m1 ptr (free_head s1 (hdr_sizeClass w));
          Some (with_mem m2 (with_list (hdr_sizeClass w) hdr s1))
        else Some s1.

Definition sceLibcMalloc := heapAlloc.
Definition sceLibcFree := heapFree.

Definition sceLibcCalloc (s : t S) (count sz : Z) : option (t S * Z) :=
  let total := u64 (count * sz) in
  if negb (count =? 0) && negb (total / count =? sz) then Some (s, 0)
  else
    '(s1, p) ← heapAlloc s total;
    if (p : Z) =? 0 then Some (s1, 0)
    else m1 ← write_bytes (mem s1) p (replicate (Z.to_nat total) 0); Some (with_mem m1 s1, p).

Definition sceLibcRealloc (s : t S) (ptr newSize : Z) : option (t S * Z) :=
  if ptr =? 0 then heapAlloc s newSize
  else if newSize =? 0 then s1 ← heapFree s ptr; Some (s1, 0)
  else
    let hdr := u64 (ptr - kHeapHeaderSize) in
    magic ← readU64 (mem s) (hdr + 8);
    if negb (magic =? kHeapMagic) then Some (s, 0)
    else
      w ← readU64 (mem s) hdr;
      if newSize <=? hdr_size w then Some (s, ptr)
      else
        '(s1, np) ← heapAlloc s newSize;
        if (np : Z) =? 0 then Some (s1, 0)
        else
          w1 ← readU64 (mem s1) hdr;
          bs ← load_bytes (mem s1) ptr (Z.to_nat (hdr_size w1));
          m1 ← write_bytes (mem s1) np bs;
          s2 ← heapFree (with_mem m1 s1) ptr;
          Some (s2, np).

Definition sceLibcMemalign (s : t S) (alignment sz : Z) : option (t S * Z) :=
  if (alignment =? 0) || negb (Z.land alignment (u64 (alignment - 1)) =? 0) then Some (s, 0)
  else if alignment <=? kHeapAlignment then heapAlloc s sz
  else
    '(s1, raw) ← heapAlloc s (u64 (sz + alignment));
    if (raw : Z) =? 0 then Some (s1, 0)
    else
      let aligned := Z.land (u64 (u64 (raw + alignment) - 1)) (u64 (Z.lnot (alignment - 1))) in
      Some (s1, if aligned =? raw then raw else aligned).

(** ** Histories

    The granted blocks of a history (payload address and usable size), newest
    first.  Between operations the guest may write anything anywhere. *)
Inductive reach : t S -> list (Z * Z) -> Prop :=
| r_start sp m : match sp with Some s => provider_ok s | None => True end -> reach (initial sp m) []
| r_refused s g n s' :
    reach s g -> AddressSpace.small n -> heapAlloc s n = Some (s', 0) -> reach s' g
| r_granted s g n s' p :
    reach s g -> AddressSpace.small n -> heapAlloc s n = Some (s', p) -> p <> 0 ->
    reach s' ((p, (pickClass (if n =? 0 then 1 else n)).2) :: g)
| r_free s g p s' : reach s g -> heapFree s p = Some s' -> reach s' g
| r_guest s g m : reach s g -> reach (with_mem m s) g.

(** The granted blocks, each after its header, fill the heap from its base. *)
Fixpoint tiles (b : Z) (g : list (Z * Z)) (nxt : Z) : Prop :=
  match g with
  | [] => nxt = b
  | (p, n) :: rest => nxt = p + n /\ 0 < n /\ n mod 16 = 0 /\ tiles b rest (p - kHeapHeaderSize)
  end.

Record wf (s : t S) (g : list (Z * Z)) : Prop := mkWf {
  wf_space : match space s with Some sp => provider_ok sp | None => True end;
  wf_lists : length (g_freeLists s) = 10%nat;
  wf_state : (base (g_heap s) = 0 /\ g = []) \/
    (0 < base (g_heap s) /\ size (g_heap s) = kHeapSize /\ base (g_heap s) + kHeapSize <= 2 ^ 63 /\
     next (g_heap s) <= base (g_heap s) + kHeapSize /\ tiles (base (g_heap s)) g (next (g_heap s)))
}.

End Ops.
End LibcHeap.

(** ** Lemmas *)
Section Lemmas.
Import LibcHeap.
Context {S : Type} `{RegionProvider S}.
Implicit Types (s : t S) (g : list (Z * Z)).

Lemma pickClass_spec n :
  0 < n <= 2 ^ 62 ->
  let '(c, r) := pickClass n in
  n <= r /\ r mod 16 = 0 /\ r <= 2 ^ 62 + 8192 /\ 0 <= c < 256 /\
  (c < kNumSizeClasses <-> n <= 8192) /\ (c < kNumSizeClasses -> r <= 8192).
Proof.
  intros Hn. unfold pickClass, kSizeClasses, kNumSizeClasses. simpl list_find.
  repeat (case_decide; [simpl; split_and!; try lia; reflexivity|]). simpl.
  unfold kHeapAlignment. change 16 with (2 ^ 4) at 1 2 3 4.
  destruct (align_up_spec n 4) as [? ?]; [lia|lia|unfold two64; lia|].
  split_and!; lia.
Qed.

Lemma tiles_inside b g nxt :
  tiles b g nxt -> b <= nxt /\ Forall (fun '(q, m) => b + 16 <= q /\ q + m <= nxt /\ 0 < m /\ (q - b) mod 16 = 0) g /\
  (nxt - b) mod 16 = 0.
Proof.
  revert nxt. induction g as [|[p n] g IH]; intros nxt; simpl.
  - intros ->. split_and!; [lia|constructor|]. by rewrite Z.sub_diag.
  - unfold kHeapHeaderSize. intros (-> & Hn & Hm & Ht). destruct (IH _ Ht) as (Hb & Hf & Ha).
    assert ((p - b) mod 16 = 0) as Hp by dm_lia. split_and!; [lia| |dm_lia].
    constructor; [lia|]. eapply Forall_impl; [exact Hf|]. intros [q m]. lia.
Qed.

Lemma tiles_disjoint b g nxt :
  tiles b g nxt -> ForallOrdPairs (fun x y => y.1 + y.2 + kHeapHeaderSize <= x.1) g.
Proof.
  revert nxt. induction g as [|[p n] g IH]; intros nxt; simpl; [constructor|].
  intros (_ & _ & _ & Ht). constructor; [|by eapply IH].
  destruct (tiles_inside _ _ _ Ht) as (_ & Hf & _). eapply Forall_impl; [exact Hf|].
  unfold kHeapHeaderSize in *. intros [q m]. simpl. lia.
Qed.

(** Initialising the heap keeps the invariant and gives it a base. *)
Lemma ensure_wf s g s' ok :
  wf s g -> ensureHeapInitialized s = (s', ok) ->
  wf s' g /\ mem s' = mem s /\ g_freeLists s' = g_freeLists s /\ (ok = true -> 0 < base (g_heap s')).
Proof.
  intros Hwf. pose proof Hwf as [Hsp Hl Hst]. unfold ensureHeapInitialized. destruct (negb _) eqn:E.
  { intros; simplify_eq. split_and!; try done. intros _. destruct Hst as [[? _]|(? & _)]; lia. }
  destruct (space s) as [sp|] eqn:Es; [|by intros; simplify_eq].
  destruct (provide sp 0 kHeapSize _ _) as [sp' b] eqn:Ep.
  assert (AddressSpace.small kHeapSize) as Hsm by (unfold AddressSpace.small, kHeapSize; lia).
  destruct (provide_range _ _ _ _ _ _ Hsp Hsm Ep) as [Hok Hb].
  destruct Hst as [[Hb0 ->]|(? & _)]; [|lia].
  destruct (b =? 0) eqn:E0; intros; simplify_eq; (split_and!; [|done|done|]); try done; simpl; try lia.
  - constructor; simpl; [done|done|by left].
  - constructor; simpl; [done|done|right]. unfold kHeapSize in *. split_and!; try done; lia.
Qed.

Lemma bump_inv s g cls r s' p :
  wf s g -> 0 < base (g_heap s) -> 0 < r <= 2 ^ 62 + 8192 -> r mod 16 = 0 ->
  bump_alloc s cls r = Some (s', p) ->
  (p = 0 /\ s' = s) \/
  (p = next (g_heap s) + kHeapHeaderSize /\ 0 < p /\ wf s' ((p, r) :: g) /\ base (g_heap s') = base (g_heap s) /\
   g_freeLists s' = g_freeLists s /\
   exists m1, writeU64 (mem s) (p - 16) (pack_header r cls) = Some m1 /\ writeU64 m1 (p - 8) kHeapMagic = Some (mem s')).
Proof.
  intros [Hsp Hl [[? _]|(_ & Hsz & Htop & Hnext & Ht)]] Hb Hr Hm E; [lia|]. unfold bump_alloc in E.
  destruct (tiles_inside _ _ _ Ht) as (Hbn & _ & _). unfold kHeapHeaderSize, kHeapSize in *.
  rewrite Hsz in E. rewrite !(wrap_id 64 (16 + r)) in E by (unfold in_width; lia).
  rewrite (wrap_id 64 (base (g_heap s) + _)), (wrap_id 64 (next (g_heap s) + (16 + r))),
    (wrap_id 64 (next (g_heap s) + 16)) in E by (unfold in_width; lia).
  destruct (_ <? _) eqn:Ec; [simplify_eq; by left|]. right.
  apply bind_Some in E as (m1 & E1 & (m2 & E2 & E)%bind_Some). simplify_eq. split_and!; try done; try lia.
  - constructor; simpl; [done|done|right]. unfold kHeapSize, kHeapHeaderSize. split_and!; try done; try lia.
    by replace (next (g_heap s) + 16 - 16) with (next (g_heap s)) by lia.
  - exists m1. replace (next (g_heap s) + 16 - 16) with (next (g_heap s)) by lia.
    by replace (next (g_heap s) + 16 - 8) with (next (g_heap s) + 8) by lia.
Qed.

Lemma reuse_inv s g cls head s' p :
  wf s g -> reuse_block s cls head = Some (s', p) -> p = 0 /\ wf s' g.
Proof.
  intros [Hsp Hl Hst] (w & _ & (m1 & _ & (m2 & _ & E)%bind_Some)%bind_Some)%bind_Some. cbv zeta in E. simplify_eq.
  split; [done|]. constructor; simpl; [done|by rewrite length_insert|done].
Qed.

Lemma heapAlloc_inv s g n s' p :
  wf s g -> AddressSpace.small n -> heapAlloc s n = Some (s', p) ->
  (p = 0 /\ wf s' g) \/
  (0 < p /\ wf s' ((p, (pickClass (if n =? 0 then 1 else n)).2) :: g)).
Proof.
  intros Hwf Hn E. unfold heapAlloc in E. destruct (ensureHeapInitialized s) as [s1 ok] eqn:Ee.
  destruct (ensure_wf _ _ _ _ Hwf Ee) as (Hwf1 & _ & _ & Hb).
  destruct (negb ok) eqn:Eo; [simplify_eq; by left|]. apply negb_false_iff in Eo. specialize (Hb Eo).
  assert (0 < (if n =? 0 then 1 else n) <= 2 ^ 62) as Hq
    by (unfold AddressSpace.small in Hn; destruct (n =? 0) eqn:?; lia).
  set (q := if n =? 0 then 1 else n) in *. pose proof (pickClass_spec q Hq) as Hp.
  destruct (pickClass q) as [cls r]. destruct (_ && _).
  - left. by eapply reuse_inv.
  - eapply bump_inv in E as [[-> ->]|(_ & ? & ? & _)]; [by left|by right|done|done|lia|tauto].
Qed.

Lemma heapFree_inv s g p s' : wf s g -> heapFree s p = Some s' -> wf s' g.
Proof.
  intros Hwf E. unfold heapFree in E. destruct (p =? 0); [by simplify_eq|]. cbv zeta in E.
  apply bind_Some in E as (mg & _ & E). destruct (negb _); [by simplify_eq|].
  apply bind_Some in E as (w & _ & E). destruct (hdr_isFree w); [by simplify_eq|].
  apply bind_Some in E as (m1 & _ & E). destruct Hwf as [Hsp Hl Hst].
  destruct (_ <? kNumSizeClasses).
  - apply bind_Some in E as (m2 & _ & E). injection E as <-. constructor; cbn; [done|by rewrite length_insert|done].
  - injection E as <-. by constructor.
Qed.

Lemma reach_inv s g : reach s g -> wf s g.
Proof.
  induction 1 as [sp m Hsp|s g n s' _ IH Hn E|s g n s' p _ IH Hn E Hp|s g p s' _ IH E|s g m _ [??]].
  - constructor; [done|done|by left].
  - destruct (heapAlloc_inv _ _ _ _ _ IH Hn E) as [[_ ?]|[? _]]; [done|lia].
  - destruct (heapAlloc_inv _ _ _ _ _ IH Hn E) as [[? _]|[_ ?]]; [lia|done].
  - by eapply heapFree_inv.
  - by constructor.
Qed.

(** A call of the allocator extends the history by at most one block. *)
Lemma reach_alloc s g n s' p :
  reach s g -> AddressSpace.small n -> heapAlloc s n = Some (s', p) ->
  exists g', reach s' (g' ++ g) /\
    ((p = 0 /\ g' = []) \/ (p <> 0 /\ exists r, g' = [(p, r)] /\ n <= r)).
Proof.
  intros Hr Hn E. destruct (decide (p = 0)) as [->|Hp].
  - exists []. split; [by eapply r_refused|by left].
  - exists [(p, (pickClass (if n =? 0 then 1 else n)).2)]. split; [by eapply r_granted|]. right.
    split; [done|]. eexists. split; [done|]. unfold AddressSpace.small in Hn.
    pose proof (pickClass_spec (if n =? 0 then 1 else n) ltac:(destruct (n =? 0) eqn:?; lia)) as Hs.
    destruct (pickClass _). simpl. destruct (n =? 0) eqn:?; lia.
Qed.

End Lemmas.

(** ** Lemmas: headers and memory *)
Section HeaderLemmas.
Import LibcHeap.
Context {S : Type} `{RegionProvider S}.
Implicit Types (s : t S) (g : list (Z * Z)).

Lemma pack_header_fields r cls :
  0 <= r < 2 ^ 48 -> 0 <= cls < 256 ->
  in_width 64 (pack_header r cls) /\ hdr_size (pack_header r cls) = r /\
  hdr_sizeClass (pack_header r cls) = cls /\ hdr_isFree (pack_header r cls) = false.
Proof.
  intros Hr Hc. unfold pack_header, hdr_size, hdr_sizeClass, hdr_isFree.
  rewrite (Z.mod_small r), (Z.mod_small cls), Z.shiftl_mul_pow2 by lia. unfold in_width. split_and!.
  - lia.
  - lia.
  - rewrite Z_mod_plus_full. by apply Z.mod_small.
  - rewrite Z.shiftr_div_pow2, Z.div_add, Z.div_small, Z.add_0_l by lia. by apply Z.mod_small.
  - rewrite Z.testbit_false by lia. rewrite Z.div_small; [done|lia].
Qed.

Lemma writeU64_dom (m m' : Memory) a v k : writeU64 m a v = Some m' -> is_Some (m !! k) -> is_Some (m' !! k).
Proof. apply write_bytes_is_Some. Qed.

(** A successful allocation writes its header and nothing else. *)
Lemma heapAlloc_mem s g n s' p :
  wf s g -> AddressSpace.small n -> heapAlloc s n = Some (s', p) -> p <> 0 ->
  let '(cls, r) := pickClass (if n =? 0 then 1 else n) in
  p = next (g_heap s') - r /\ 16 < p /\ g_freeLists s' = g_freeLists s /\
  (cls < kNumSizeClasses -> free_head s cls = 0) /\
  readU64 (mem s') (p - 8) = Some kHeapMagic /\ readU64 (mem s') (p - 16) = Some (u64 (pack_header r cls)) /\
  (forall k, k < p - 16 \/ p <= k -> mem s' !! k = mem s !! k) /\
  (forall i, (i < 8)%nat -> is_Some (mem s' !! (p - 16 + Z.of_nat i))).
Proof.
  intros Hwf Hn E Hp. unfold heapAlloc in E. destruct (ensureHeapInitialized s) as [s1 ok] eqn:Ee.
  destruct (ensure_wf _ _ _ _ Hwf Ee) as (Hwf1 & Hm & Hfl & Hb).
  destruct (negb ok) eqn:Eo; [by simplify_eq|]. apply negb_false_iff in Eo. specialize (Hb Eo).
  assert (0 < (if n =? 0 then 1 else n) <= 2 ^ 62) as Hq
    by (unfold AddressSpace.small in Hn; destruct (n =? 0) eqn:?; lia).
  set (q := if n =? 0 then 1 else n) in *. pose proof (pickClass_spec q Hq) as Hs.
  destruct (pickClass q) as [cls r]. destruct (_ && _) eqn:Ec.
  { eapply reuse_inv in E as [? _]; [done|done]. }
  eapply bump_inv in E as [[? _]|(-> & H0 & Hwf' & _ & Hfl' & m1 & E1 & E2)]; [done| |done|done|lia|tauto].
  destruct Hwf' as [_ _ [[_ ?]|(_ & _ & _ & _ & Hnext & _)]]; [done|]. unfold kHeapHeaderSize in *.
  assert (16 < next (g_heap s1) + 16).
  { destruct Hwf1 as [_ _ [[? _]|(_ & _ & _ & _ & Ht)]]; [lia|]. apply tiles_inside in Ht as [? _]. lia. }
  rewrite Hm in E1. pose proof (writeU64_inv _ _ _ _ E1) as [R1 F1]. pose proof (writeU64_inv _ _ _ _ E2) as [R2 F2].
  split_and!; [lia|lia|congruence| |exact R2| | |].
  - intros Hcl. unfold free_head in *. rewrite <- Hfl. rewrite (proj2 (Z.ltb_lt _ _) Hcl) in Ec.
    apply negb_false_iff, Z.eqb_eq in Ec. done.
  - rewrite <- R1. apply readU64_agree. intros k Hk. apply F2. lia.
  - intros k Hk. rewrite F2, F1 by lia. done.
  - intros i Hi. eapply writeU64_dom; [exact E2|]. eapply writeU64_dom; [exact E1|].
    eapply (write_bytes_mapped _ m1 _ _ i E1). by rewrite length_le_encode.
Qed.

(** [free] touches the header word and the first word of the payload. *)
Lemma heapFree_mem s p s' :
  16 <= p < 2 ^ 64 -> heapFree s p = Some s' ->
  (forall k, k < p - 16 \/ p + 8 <= k -> mem s' !! k = mem s !! k) /\
  (forall k, is_Some (mem s !! k) -> is_Some (mem s' !! k)) /\
  base (g_heap s') = base (g_heap s).
Proof.
  intros Hp E. unfold heapFree in E. destruct (p =? 0) eqn:E0; [by simplify_eq|].
  unfold kHeapHeaderSize in E. rewrite (wrap_id 64 (p - 16)) in E by (unfold in_width; lia).
  cbv zeta in E. apply bind_Some in E as (mg & Hmg & E). destruct (negb _); [by simplify_eq|].
  apply bind_Some in E as (w & Hw & E). destruct (hdr_isFree w); [by simplify_eq|].
  apply bind_Some in E as (m1 & E1 & E). pose proof (writeU64_inv _ _ _ _ E1) as [_ F1].
  destruct (_ <? kNumSizeClasses).
  - apply bind_Some in E as (m2 & E2 & E). injection E as <-. pose proof (writeU64_inv _ _ _ _ E2) as [_ F2].
    cbn. split_and!; [intros k Hk; rewrite F2, F1 by lia; done| |done].
    intros k Hk. eapply writeU64_dom; [exact E2|]. by eapply writeU64_dom.
  - injection E as <-. cbn. split_and!; [intros k Hk; by rewrite F1 by lia| |done].
    intros k Hk. by eapply writeU64_dom.
Qed.

(** Freeing an intact small block puts its header on the list of its class. *)
Lemma heapFree_pushes s p s' w :
  16 < p < 2 ^ 64 -> heapFree s p = Some s' -> length (g_freeLists s) = 10%nat ->
  readU64 (mem s) (p - 8) = Some kHeapMagic -> readU64 (mem s) (p - 16) = Some w ->
  hdr_isFree w = false -> 0 <= hdr_sizeClass w < kNumSizeClasses ->
  free_head s' (hdr_sizeClass w) = p - 16.
Proof.
  intros Hp E Hl Hm Hw Hf Hc. unfold heapFree in E. destruct (p =? 0) eqn:E0; [lia|].
  unfold kHeapHeaderSize in E. rewrite (wrap_id 64 (p - 16)) in E by (unfold in_width; lia).
  cbv zeta in E. replace (p - 16 + 8) with (p - 8) in E by lia.
  rewrite Hm in E. cbn [mbind option_bind] in E. rewrite Z.eqb_refl in E. cbn [negb] in E.
  rewrite Hw in E. cbn [mbind option_bind] in E. rewrite Hf in E.
  apply bind_Some in E as (m1 & E1 & E). rewrite (proj2 (Z.ltb_lt _ _)) in E by lia.
  apply bind_Some in E as (m2 & E2 & E). injection E as <-. unfold free_head, with_list, with_mem. cbn.
  unfold kNumSizeClasses in Hc. rewrite list_lookup_insert_eq; [done|lia].
Qed.

(** With a block on the free list of its class, a request finds no memory. *)
Lemma heapAlloc_listed s n :
  0 < base (g_heap s) -> let '(cls, r) := pickClass (if n =? 0 then 1 else n) in
  cls < kNumSizeClasses -> free_head s cls <> 0 ->
  heapAlloc s n = reuse_block s cls (free_head s cls).
Proof.
  intros Hb. destruct (pickClass _) as [cls r] eqn:Ep. intros Hc Hh. unfold heapAlloc, ensureHeapInitialized.
  rewrite (proj2 (Z.eqb_neq (base (g_heap s)) 0)) by lia. cbn [negb]. rewrite Ep.
  rewrite (proj2 (Z.ltb_lt _ _) Hc), (proj2 (Z.eqb_neq _ _) Hh). done.
Qed.

Lemma reuse_block_null s cls head s' p : reuse_block s cls head = Some (s', p) -> p = 0.
Proof. intros (w & _ & (m1 & _ & (m2 & _ & E)%bind_Some)%bind_Some)%bind_Some. cbv zeta in E. by simplify_eq. Qed.

End HeaderLemmas.

(** ** Properties *)
Section Properties.
Import LibcHeap.
Context {S : Type} `{RegionProvider S}.
Implicit Types (s : t S) (g : list (Z * Z)).

(** C19: in a session in which every request of every call so far asked for at
    most [2^62] bytes, and whatever the guest has written over the heap and
    freed in it, a block malloc grants for such a request has at least the
    requested size, lies inside the heap region, is 16-aligned from its base,
    and starts above every block ever granted with room for its header. A
    larger request can wrap the size and overlap ([malloc_wraps]). *)
Theorem malloc_disjoint s g n s' p :
  reach s g -> AddressSpace.small n -> sceLibcMalloc s n = Some (s', p) -> p <> 0 ->
  exists r, n <= r /\ reach s' ((p, r) :: g) /\
    base (g_heap s') + 16 <= p /\ p + r <= base (g_heap s') + kHeapSize /\ (p - base (g_heap s')) mod 16 = 0 /\
    Forall (fun '(q, m) => q + m + 16 <= p) g.
Proof.
  intros Hr Hn E Hp. destruct (reach_alloc _ _ _ _ _ Hr Hn E) as (g' & Hr' & [[? _]|(_ & r & -> & Hnr)]); [done|].
  exists r. split; [done|]. split; [done|].
  destruct (reach_inv _ _ Hr') as [_ _ [[_ ?]|(_ & _ & _ & Hnx & Ht)]]; [done|].
  destruct (tiles_inside _ _ _ Ht) as (_ & Hf & _). apply Forall_cons in Hf as [Hp' _].
  pose proof (tiles_disjoint _ _ _ Ht) as Hd. inversion Hd as [|x l Hx _]; subst.
  cbn [app fst snd] in Hx, Hp'. split_and!; [lia|lia|lia|].
  eapply Forall_impl; [exact Hx|]. intros [q m]. unfold kHeapHeaderSize. simpl. lia.
Qed.

(** A small block is granted by malloc, and freed intact: the next
    malloc of its size class pops it from the free list and returns null,
    although the heap has memory. *)
Theorem free_then_malloc_null s g n m s1 p s2 :
  reach s g -> 0 < n <= 8192 -> (pickClass n).1 = (pickClass m).1 -> m <> 0 ->
  sceLibcMalloc s n = Some (s1, p) -> p <> 0 -> sceLibcFree s1 p = Some s2 ->
  exists s3, sceLibcMalloc s2 m = Some (s3, 0).
Proof.
  intros Hr Hn Hcls Hm0 E Hp Ef. unfold sceLibcMalloc, sceLibcFree in *.
  assert (AddressSpace.small n) as Hns by (unfold AddressSpace.small; lia).
  pose proof (reach_inv _ _ Hr) as Hwf. pose proof (heapAlloc_mem _ _ _ _ _ Hwf Hns E Hp) as H1.
  pose proof (pickClass_spec n ltac:(lia)) as Hs. rewrite (proj2 (Z.eqb_neq n 0)) in H1 by lia.
  destruct (pickClass n) as [cls r]. destruct H1 as (_ & Hp16 & Hfl & Hfh & Hmg & Hw & _ & Hmap).
  destruct Hs as (Hnr & _ & _ & Hc & Hc10 & Hr8). assert (cls < kNumSizeClasses) as Hcl by tauto.
  specialize (Hr8 Hcl). destruct (pack_header_fields r cls) as (Hpw & _ & Hpc & Hpf); [lia|lia|].
  rewrite (wrap_id 64 _ Hpw) in Hw.
  destruct (heapAlloc_inv _ _ _ _ _ Hwf Hns E) as [[? _]|[_ Hwf1]]; [done|].
  assert (p < 2 ^ 64) as Hp64.
  { destruct Hwf1 as [_ _ [[_ ?]|(_ & _ & ? & ? & Ht)]]; [done|]. simpl in Ht. unfold kHeapSize in *.
    destruct Ht as (? & ? & _). lia. }
  pose proof (heapFree_pushes s1 p s2 _ ltac:(lia) Ef (wf_lists _ _ Hwf1) Hmg Hw Hpf ltac:(lia)) as Hh.
  destruct (heapFree_mem s1 p s2 ltac:(lia) Ef) as (_ & Hdom & Hbase). rewrite Hpc in Hh.
  pose proof (heapAlloc_listed s2 m) as Ha. rewrite (proj2 (Z.eqb_neq m 0) Hm0) in Ha.
  destruct (pickClass m) as [cls' r']. simpl in Hcls. subst cls'. rewrite Ha; [|..|done|lia].
  2: { destruct Hwf1 as [_ _ [[_ ?]|(? & _)]]; [done|]. lia. }
  rewrite Hh. unfold reuse_block.
  assert (forall i, (i < 8)%nat -> is_Some (mem s2 !! (p - 16 + Z.of_nat i))) as M0 by auto.
  assert (forall i, (i < 8)%nat -> is_Some (mem s2 !! (p - 16 + 8 + Z.of_nat i))) as M8.
  { intros i Hi. apply Hdom. unfold readU64 in Hmg. apply fmap_Some in Hmg as (bs & Hbs & _).
    apply load_bytes_lookup in Hbs as [Hl Hb]. destruct (lookup_lt_is_Some_2 bs i) as [b Hbi]; [lia|].
    replace (p - 16 + 8 + Z.of_nat i) with (p - 8 + Z.of_nat i) by lia. rewrite (Hb i b Hbi). done. }
  destruct (load_bytes_total (mem s2) (p - 16) 8 M0) as [bs Hbs]. unfold readU64 at 1. rewrite Hbs.
  cbn [fmap option_fmap option_map mbind option_bind].
  destruct (writeU64_is_Some (mem s2) (p - 16) (set_isFree false (le_decode bs)) M0) as [m1 E1]. rewrite E1.
  cbn [mbind option_bind].
  destruct (writeU64_is_Some m1 (p - 16 + 8) kHeapMagic) as [m2 E2].
  { intros i Hi. eapply writeU64_dom; [exact E1|]. by apply M8. }
  rewrite E2. cbn [mbind option_bind]. by eexists.
Qed.

(** Calloc that answers a pointer multiplied without overflow, granted at
    least the product, and the whole of it reads as zero. *)
Theorem calloc_zeroed s g count sz s' p :
  reach s g -> 0 <= count -> 0 <= sz < 2 ^ 64 -> AddressSpace.small (u64 (count * sz)) ->
  sceLibcCalloc s count sz = Some (s', p) -> p <> 0 ->
  count * sz < 2 ^ 64 /\
  (exists r, count * sz <= r /\ reach s' ((p, r) :: g)) /\
  load_bytes (mem s') p (Z.to_nat (count * sz)) = Some (replicate (Z.to_nat (count * sz)) 0).
Proof.
  intros Hr Hc Hz Hsm E Hp. unfold sceLibcCalloc in E. destruct (_ && _) eqn:Eo; [by simplify_eq|].
  assert (count * sz < 2 ^ 64) as Hlt.
  { destruct (decide (count = 0)) as [->|Hc0]; [lia|].
    rewrite (proj2 (Z.eqb_neq count 0) Hc0) in Eo. cbn [negb andb] in Eo. apply negb_false_iff, Z.eqb_eq in Eo.
    pose proof (Z.mul_div_le (u64 (count * sz)) count ltac:(lia)). rewrite Eo in *.
    pose proof (wrap_range 64 (count * sz) ltac:(lia)) as [_ ?]. lia. }
  assert (u64 (count * sz) = count * sz) as Hw by (apply wrap_id; unfold in_width; nia). rewrite Hw in *.
  split; [done|]. apply bind_Some in E as ([s1 q] & E1 & E). destruct (q =? 0) eqn:E0; [by simplify_eq; lia|].
  apply bind_Some in E as (m1 & E2 & E). simplify_eq.
  destruct (reach_alloc _ _ _ _ _ Hr Hsm E1) as (g' & Hr' & [[? _]|(_ & r & -> & Hnr)]); [done|].
  split; [exists r; split; [done|by apply r_guest]|].
  apply write_bytes_inv in E2 as [E2 _]. by rewrite length_replicate in E2.
Qed.

(** Realloc of a granted block whose header is intact, when it answers a
    pointer, keeps the contents: the old usable bytes read the same at the new
    address, which is the old one or a block above every granted one. *)
Theorem realloc_preserves s g p r w n s' q :
  reach s g -> (p, r) ∈ g -> readU64 (mem s) (p - 16) = Some w -> hdr_size w <= r ->
  AddressSpace.small n -> sceLibcRealloc s p n = Some (s', q) -> q <> 0 ->
  n <= hdr_size w /\ q = p /\ s' = s \/
  hdr_size w < n /\ (exists r', n <= r' /\ reach s' ((q, r') :: g)) /\
  load_bytes (mem s') q (Z.to_nat (hdr_size w)) = load_bytes (mem s) p (Z.to_nat (hdr_size w)).
Proof.
  intros Hr Hpg Hw Hsz Hn E Hq. unfold sceLibcRealloc in E. pose proof (reach_inv _ _ Hr) as Hwf.
  assert (16 < p /\ p + r < 2 ^ 64) as Hp.
  { destruct Hwf as [_ _ [[_ ->]|(? & _ & ? & ? & Ht)]]; [by apply elem_of_nil in Hpg|].
    destruct (tiles_inside _ _ _ Ht) as (_ & Hf & _). rewrite Forall_forall in Hf. specialize (Hf _ Hpg).
    simpl in Hf. unfold kHeapSize in *. lia. }
  assert (0 <= hdr_size w < 2 ^ 48) as Hw48 by (apply Z.mod_pos_bound; lia).
  rewrite (proj2 (Z.eqb_neq p 0)) in E by lia. destruct (n =? 0) eqn:En.
  { apply bind_Some in E as (s1 & _ & E). by simplify_eq. }
  unfold kHeapHeaderSize in E. rewrite (wrap_id 64 (p - 16)) in E by (unfold in_width; lia).
  cbv zeta in E. apply bind_Some in E as (mg & _ & E). destruct (negb _); [by simplify_eq|].
  rewrite Hw in E. cbn [mbind option_bind] in E. destruct (n <=? hdr_size w) eqn:Ele.
  { left. simplify_eq. split_and!; [lia|done|done]. }
  right. apply bind_Some in E as ([s1 np] & E1 & E). destruct (np =? 0) eqn:E0; [by simplify_eq|].
  apply bind_Some in E as (w1 & Hw1 & E). apply bind_Some in E as (bs & Hbs & E).
  apply bind_Some in E as (m1 & Em & E). apply bind_Some in E as (s2 & Ef & E). simplify_eq.
  destruct (reach_alloc _ _ _ _ _ Hr Hn E1) as (g' & Hr' & [[? _]|(_ & r' & -> & Hnr)]); [lia|].
  pose proof (heapAlloc_mem _ _ _ _ _ Hwf Hn E1 Hq) as Hmem. destruct (pickClass _) as [cls rr].
  destruct Hmem as (_ & _ & _ & _ & _ & _ & Hsame & _).
  assert (p + r + 16 <= q) as Hpq.
  { destruct (reach_inv _ _ Hr') as [_ _ [[_ ?]|(_ & _ & _ & _ & Ht)]]; [done|].
    pose proof (tiles_disjoint _ _ _ Ht) as Hd. inversion Hd as [|x l Hx _]; subst.
    rewrite Forall_forall in Hx. specialize (Hx _ Hpg). unfold kHeapHeaderSize in Hx. simpl in Hx. lia. }
  assert (w1 = w) as -> by (rewrite (readU64_agree (mem s)) in Hw1 by (intros k Hk; apply Hsame; lia); congruence).
  split; [lia|]. split; [exists r'; split; [done|]; eapply r_free; [apply r_guest, Hr'|exact Ef]|].
  rewrite (load_bytes_agree (mem s)) in Hbs by (intros k Hk; apply Hsame; lia). rewrite Hbs.
  pose proof (proj1 (load_bytes_lookup _ _ _ _) Hbs) as [Hlen _].
  apply write_bytes_inv in Em as [Em _]. rewrite Hlen in Em. rewrite <- Em.
  destruct (heapFree_mem (with_mem m1 s1) p s' ltac:(lia) Ef) as (Hfree & _).
  apply load_bytes_agree. intros k Hk. apply Hfree. lia.
Qed.

End Properties.

(** ** Runs on the process's address space *)
Section Runs.
Import LibcHeap.

(** The first address a fresh address space grants. *)
Definition heap_base : Z := AddressSpace.kGuestBase + 0x10000.

(** A process whose address space is reserved and whose heap region
    starts with 256 mapped zeroes. *)
Definition demo_space : AddressSpace.t :=
  fst (AddressSpace.init AddressSpace.initial (SharedArena.mkReply 5 true (Some AddressSpace.kGuestBase))).
Definition demo_libc : t AddressSpace.t :=
  initial (Some demo_space) (store_bytes ∅ heap_base (replicate 256 0)).

Lemma demo_reach : reach demo_libc [].
Proof.
  apply r_start. apply (Reachable.r_init (SharedArena.mkReply 5 true (Some AddressSpace.kGuestBase))). reflexivity.
Qed.

(** The pointers a sequence of malloc calls answers. *)
Fixpoint malloc_ptrs (s : t AddressSpace.t) (reqs : list Z) : option (list Z) :=
  match reqs with
  | [] => Some []
  | n :: rest => '(s', p) ← sceLibcMalloc s n; ps ← malloc_ptrs s' rest; Some (p :: ps)
  end.

(** The bump allocation wraps: a request of 2^64 - 48 bytes is granted,
    moves the end of the heap back over the first block, and the next request is
    given the address of that live block; a request of 2^64 - 1 bytes is granted
    a block of size zero. *)
Theorem malloc_wraps :
  let b := heap_base in
  malloc_ptrs demo_libc [16; 2 ^ 64 - 48; 16] = Some [b + 16; b + 48; b + 16] /\
  malloc_ptrs demo_libc [2 ^ 64 - 1; 16] = Some [b + 16; b + 32].
Proof. split; vm_compute; reflexivity. Qed.

Lemma malloc_disjoint_witness :
  exists s' r, 100 <= r /\ reach s' [(heap_base + 16, r)].
Proof.
  assert (P : snd <$> sceLibcMalloc demo_libc 100 = Some (heap_base + 16)) by (vm_compute; reflexivity).
  destruct (sceLibcMalloc demo_libc 100) as [[s' p]|] eqn:E; [|discriminate P]. injection P as ->.
  assert (Hs : AddressSpace.small 100) by (unfold AddressSpace.small; lia).
  destruct (malloc_disjoint _ _ _ _ _ demo_reach Hs E) as (r & Hr & Hr' & _); [discriminate|].
  exists s', r. split; [exact Hr|exact Hr'].
Defined.

Lemma free_then_malloc_null_witness :
  exists s1 s2 s3, sceLibcMalloc demo_libc 100 = Some (s1, heap_base + 16) /\
    sceLibcFree s1 (heap_base + 16) = Some s2 /\ sceLibcMalloc s2 70 = Some (s3, 0).
Proof.
  assert (P : ('(s1, p) ← sceLibcMalloc demo_libc 100; s2 ← sceLibcFree s1 p; Some (p, frees (g_heap s2))) =
    Some (heap_base + 16, 1)) by (vm_compute; reflexivity).
  destruct (sceLibcMalloc demo_libc 100) as [[s1 p]|] eqn:E; [|discriminate P]. cbn [mbind option_bind] in P.
  destruct (sceLibcFree s1 p) as [s2|] eqn:Ef; [|discriminate P]. injection P as -> _.
  destruct (free_then_malloc_null demo_libc [] 100 70 s1 (heap_base + 16) s2 demo_reach) as [s3 E3];
    [lia|vm_compute; reflexivity|discriminate|exact E|discriminate|exact Ef|].
  exists s1, s2, s3. split; [reflexivity|]. split; [exact Ef|exact E3].
Defined.

Lemma calloc_zeroed_witness :
  exists s' : t AddressSpace.t, sceLibcCalloc demo_libc 3 4 = Some (s', heap_base + 16) /\
    load_bytes (mem s') (heap_base + 16) 12 = Some (replicate 12 0).
Proof.
  assert (P : snd <$> sceLibcCalloc demo_libc 3 4 = Some (heap_base + 16)) by (vm_compute; reflexivity).
  destruct (sceLibcCalloc demo_libc 3 4) as [[s' p]|] eqn:E; [|discriminate P]. injection P as ->.
  exists s'. split; [reflexivity|]. assert (Hs : AddressSpace.small (u64 (3 * 4))) by (apply (bool_decide_unpack _); vm_compute; exact I).
  exact (proj2 (proj2 (calloc_zeroed demo_libc [] 3 4 s' (heap_base + 16) demo_reach ltac:(lia) ltac:(lia) Hs E ltac:(discriminate)))).
Defined.

Lemma realloc_preserves_witness :
  exists s1 s2 r, sceLibcMalloc demo_libc 16 = Some (s1, heap_base + 16) /\
    sceLibcRealloc s1 (heap_base + 16) 32 = Some (s2, heap_base + 48) /\
    reach s2 [(heap_base + 48, r); (heap_base + 16, 16)].
Proof.
  assert (P : ('(s1, p) ← sceLibcMalloc demo_libc 16; '(s2, q) ← sceLibcRealloc s1 p 32;
      w ← readU64 (mem s1) (p - 16); Some (p, q, hdr_size w)) =
    Some (heap_base + 16, heap_base + 48, 16)) by (vm_compute; reflexivity).
  assert (Hs16 : AddressSpace.small 16) by (unfold AddressSpace.small; lia).
  assert (Hs32 : AddressSpace.small 32) by (unfold AddressSpace.small; lia).
  destruct (sceLibcMalloc demo_libc 16) as [[s1 p]|] eqn:E; [|discriminate P]. cbn [mbind option_bind] in P.
  destruct (sceLibcRealloc s1 p 32) as [[s2 q]|] eqn:Er; [|discriminate P]. cbn [mbind option_bind] in P.
  destruct (readU64 (mem s1) (p - 16)) as [w|] eqn:Ew; [|discriminate P].
  assert (Ep : p = heap_base + 16) by (cbn in P; congruence).
  assert (Eq : q = heap_base + 48) by (cbn in P; congruence).
  assert (Eh : hdr_size w = 16) by (cbn in P; congruence). subst p q.
  assert (R1 : reach s1 [(heap_base + 16, 16)]).
  { change 16 with ((pickClass (if 16 =? 0 then 1 else 16)).2) at 2.
    eapply r_granted; [exact demo_reach|exact Hs16|exact E|discriminate]. }
  destruct (realloc_preserves s1 [(heap_base + 16, 16)] (heap_base + 16) 16 w 32 s2 (heap_base + 48) R1 ltac:(apply list_elem_of_here) Ew ltac:(lia) Hs32 Er
    ltac:(discriminate)) as [[H _]|[_ [(r & _ & H) _]]]; [lia|].
  exists s1, s2, r. split; [reflexivity|]. split; [exact Er|exact H].
Defined.

End Runs.
