(* ===== verification/Exports.v ===== *)
(** * The exports of the libraries

    Every [registerExports] of [sce/]: the stubs that each library puts into the
    table, in the order of the source, and the table they make together. *)
From S2P Require Import Prelude Trap.

(** [t.registerStub(lib, fn, &sym)]; [sym] names a function of the library's own
    file. *)
Record Export := Stub { e_lib : string; e_fn : string; e_sym : string }.
Record Library := mkLibrary { l_class : string; l_exports : list Export }.

Section Register.
Context (address : string -> string -> Z).

(** The body of [registerExports]: the calls of [registerStub], in order. *)
Definition registerExports (l : Library) (t : SceStubTable.t) : SceStubTable.t :=
  foldl (fun t e => SceStubTable.registerStub (cstr (e_lib e)) (cstr (e_fn e)) (address (l_class l) (e_sym e)) t)
    t (l_exports l).

Definition register_libraries (ls : list Library) (t : SceStubTable.t) : SceStubTable.t :=
  foldl (fun t l => registerExports l t) t ls.

End Register.

Module Sce.

Definition SceAjm : Library := mkLibrary "SceAjm" [
  Stub "libSceAjm" "sceAjmInitialize" "sceAjmInitialize";
  Stub "libSceAjm" "sceAjmFinalize" "sceAjmFinalize";
  Stub "libSceAjm" "sceAjmModuleRegister" "sceAjmModuleRegister";
  Stub "libSceAjm" "sceAjmBatchStartBuffer" "sceAjmBatchStartBuffer";
  Stub "libSceAjm" "sceAjmBatchWait" "sceAjmBatchWait";
  Stub "libSceAjm" "sceAjmBatchJobDecode" "sceAjmBatchJobDecode"]%string.

Definition SceAppContent : Library := mkLibrary "SceAppContent" [
  Stub "libSceAppContent" "sceAppContentInitialize" "sceAppContentInitialize";
  Stub "libSceAppContent" "sceAppContentTerminate" "sceAppContentTerminate";
  Stub "libSceAppContent" "sceAppContentAppParamGetInt" "sceAppContentAppParamGetInt";
  Stub "libSceAppContent" "sceAppContentGetAddcontInfoList" "sceAppContentGetAddcontInfoList";
  Stub "libSceAppContent" "sceAppContentAddcontMount" "sceAppContentAddcontMount";
  Stub "libSceAppContent" "sceAppContentAddcontUnmount" "sceAppContentAddcontUnmount";
  Stub "libSceAppContent" "sceAppContentAddcontDelete" "sceAppContentAddcontDelete";
  Stub "libSceAppContent" "sceAppContentTemporaryDataMount" "sceAppContentTemporaryDataMount";
  Stub "libSceAppContent" "sceAppContentTemporaryDataUnmount" "sceAppContentTemporaryDataUnmount";
  Stub "libSceAppContent" "sceAppContentTemporaryDataFormat" "sceAppContentTemporaryDataFormat";
  Stub "libSceAppContent" "sceAppContentGetEntitlementKey" "sceAppContentGetEntitlementKey"]%string.

Definition SceAudioOut : Library := mkLibrary "SceAudioOut" [
  Stub "libSceAudioOut" "sceAudioOutInit" "sceAudioOutInit";
  Stub "libSceAudioOut" "sceAudioOutOpen" "sceAudioOutOpen";
  Stub "libSceAudioOut" "sceAudioOutClose" "sceAudioOutClose";
  Stub "libSceAudioOut" "sceAudioOutOutput" "sceAudioOutOutput";
  Stub "libSceAudioOut" "sceAudioOutSetVolume" "sceAudioOutSetVolume"]%string.

Definition SceAudiodec : Library := mkLibrary "SceAudiodec" [
  Stub "libSceAudiodec" "sceAudiodecInitLibrary" "sceAudiodecInitLibrary";
  Stub "libSceAudiodec" "sceAudiodecTermLibrary" "sceAudiodecTermLibrary";
  Stub "libSceAudiodec" "sceAudiodecCreateDecoder" "sceAudiodecCreateDecoder";
  Stub "libSceAudiodec" "sceAudiodecDeleteDecoder" "sceAudiodecDeleteDecoder";
  Stub "libSceAudiodec" "sceAudiodecDecode" "sceAudiodecDecode";
  Stub "libSceAudiodec" "sceAudiodecClearContext" "sceAudiodecClearContext"]%string.

Definition SceBgft : Library := mkLibrary "SceBgft" [
  Stub "libSceBgft" "sceBgftInitialize" "sceBgftInitialize";
  Stub "libSceBgft" "sceBgftTerminate" "sceBgftTerminate";
  Stub "libSceBgft" "sceBgftServiceDownloadRegisterTask" "sceBgftServiceDownloadRegisterTask";
  Stub "libSceBgft" "sceBgftServiceDownloadStartTask" "sceBgftServiceDownloadStartTask";
  Stub "libSceBgft" "sceBgftServiceDownloadPauseTask" "sceBgftServiceDownloadPauseTask";
  Stub "libSceBgft" "sceBgftServiceDownloadResumeTask" "sceBgftServiceDownloadResumeTask";
  Stub "libSceBgft" "sceBgftServiceDownloadStopTask" "sceBgftServiceDownloadStopTask";
  Stub "libSceBgft" "sceBgftServiceDownloadUnregisterTask" "sceBgftServiceDownloadUnregisterTask";
  Stub "libSceBgft" "sceBgftServiceDownloadGetTaskInfo" "sceBgftServiceDownloadGetTaskInfo";
  Stub "libSceBgft" "sceBgftServiceIntDownloadRegisterTaskByStorageEx" "sceBgftServiceIntDownloadRegisterTaskByStorageEx"]%string.

Definition SceCamera : Library := mkLibrary "SceCamera" [
  Stub "libSceCamera" "sceCameraOpen" "sceCameraOpen";
  Stub "libSceCamera" "sceCameraClose" "sceCameraClose";
  Stub "libSceCamera" "sceCameraStart" "sceCameraStart";
  Stub "libSceCamera" "sceCameraStop" "sceCameraStop";
  Stub "libSceCamera" "sceCameraIsAttached" "sceCameraIsAttached";
  Stub "libSceCamera" "sceCameraGetDeviceInfo" "sceCameraGetDeviceInfo";
  Stub "libSceCamera" "sceCameraGetStateInfo" "sceCameraGetStateInfo";
  Stub "libSceCamera" "sceCameraSetConfig" "sceCameraSetConfig";
  Stub "libSceCamera" "sceCameraRead" "sceCameraRead"]%string.

Definition SceCommonDialog : Library := mkLibrary "SceCommonDialog" [
  Stub "libSceCommonDialog" "sceCommonDialogInitialize" "sceCommonDialogInitialize";
  Stub "libSceCommonDialog" "sceCommonDialogTerminate" "sceCommonDialogTerminate";
  Stub "libSceCommonDialog" "sceCommonDialogIsUsed" "sceCommonDialogIsUsed";
  Stub "libSceCommonDialog" "sceCommonDialogUpdate" "sceCommonDialogUpdate"]%string.

Definition SceErrorDialog : Library := mkLibrary "SceErrorDialog" [
  Stub "libSceErrorDialog" "sceErrorDialogInitialize" "sceErrorDialogInitialize";
  Stub "libSceErrorDialog" "sceErrorDialogTerminate" "sceErrorDialogTerminate";
  Stub "libSceErrorDialog" "sceErrorDialogOpen" "sceErrorDialogOpen";
  Stub "libSceErrorDialog" "sceErrorDialogGetStatus" "sceErrorDialogGetStatus";
  Stub "libSceErrorDialog" "sceErrorDialogUpdateStatus" "sceErrorDialogUpdateStatus";
  Stub "libSceErrorDialog" "sceErrorDialogClose" "sceErrorDialogClose"]%string.

Definition SceImeDialog : Library := mkLibrary "SceImeDialog" [
  Stub "libSceImeDialog" "sceImeDialogInit" "sceImeDialogInit";
  Stub "libSceImeDialog" "sceImeDialogGetStatus" "sceImeDialogGetStatus";
  Stub "libSceImeDialog" "sceImeDialogGetResult" "sceImeDialogGetResult";
  Stub "libSceImeDialog" "sceImeDialogAbort" "sceImeDialogAbort"]%string.

Definition SceMsgDialog : Library := mkLibrary "SceMsgDialog" [
  Stub "libSceMsgDialog" "sceMsgDialogInit" "sceMsgDialogInit";
  Stub "libSceMsgDialog" "sceMsgDialogTerm" "sceMsgDialogTerm";
  Stub "libSceMsgDialog" "sceMsgDialogOpen" "sceMsgDialogOpen";
  Stub "libSceMsgDialog" "sceMsgDialogGetStatus" "sceMsgDialogGetStatus";
  Stub "libSceMsgDialog" "sceMsgDialogUpdateStatus" "sceMsgDialogUpdateStatus";
  Stub "libSceMsgDialog" "sceMsgDialogGetResult" "sceMsgDialogGetResult";
  Stub "libSceMsgDialog" "sceMsgDialogClose" "sceMsgDialogClose";
  Stub "libSceMsgDialog" "sceMsgDialogAbort" "sceMsgDialogAbort";
  Stub "libSceMsgDialog" "sceMsgDialogRegisterCallback" "sceMsgDialogRegisterCallback";
  Stub "libSceMsgDialog" "sceMsgDialogUnregisterCallback" "sceMsgDialogUnregisterCallback"]%string.

Definition SceSaveDataDialog : Library := mkLibrary "SceSaveDataDialog" [
  Stub "libSceSaveDataDialog" "sceSaveDataDialogInitialize" "sceSaveDataDialogInitialize";
  Stub "libSceSaveDataDialog" "sceSaveDataDialogTerminate" "sceSaveDataDialogTerminate";
  Stub "libSceSaveDataDialog" "sceSaveDataDialogOpen" "sceSaveDataDialogOpen";
  Stub "libSceSaveDataDialog" "sceSaveDataDialogGetStatus" "sceSaveDataDialogGetStatus";
  Stub "libSceSaveDataDialog" "sceSaveDataDialogUpdateStatus" "sceSaveDataDialogUpdateStatus";
  Stub "libSceSaveDataDialog" "sceSaveDataDialogGetResult" "sceSaveDataDialogGetResult";
  Stub "libSceSaveDataDialog" "sceSaveDataDialogClose" "sceSaveDataDialogClose";
  Stub "libSceSaveDataDialog" "sceSaveDataDialogAbort" "sceSaveDataDialogAbort";
  Stub "libSceSaveDataDialog" "sceSaveDataDialogIsReadyToDisplay" "sceSaveDataDialogIsReadyToDisplay"]%string.

Definition SceDownload : Library := mkLibrary "SceDownload" [
  Stub "libSceDownload" "sceDownloadInitialize" "sceDownloadInitialize";
  Stub "libSceDownload" "sceDownloadTerminate" "sceDownloadTerminate";
  Stub "libSceDownload" "sceDownloadInit" "sceDownloadInit";
  Stub "libSceDownload" "sceDownloadDone" "sceDownloadDone";
  Stub "libSceDownload" "sceDownloadCreateTask" "sceDownloadCreateTask";
  Stub "libSceDownload" "sceDownloadStartTask" "sceDownloadStartTask";
  Stub "libSceDownload" "sceDownloadStopTask" "sceDownloadStopTask";
  Stub "libSceDownload" "sceDownloadDeleteTask" "sceDownloadDeleteTask";
  Stub "libSceDownload" "sceDownloadGetTaskInfo" "sceDownloadGetTaskInfo"]%string.

Definition SceFiber : Library := mkLibrary "SceFiber" [
  Stub "libSceFiber" "sceFiberInitializeImpl" "sceFiberInitializeImpl";
  Stub "libSceFiber" "sceFiberInitialize" "sceFiberInitializeImpl";
  Stub "libSceFiber" "sceFiberFinalize" "sceFiberFinalize";
  Stub "libSceFiber" "sceFiberRun" "sceFiberRun";
  Stub "libSceFiber" "sceFiberSwitch" "sceFiberSwitch";
  Stub "libSceFiber" "sceFiberReturnToThread" "sceFiberReturnToThread";
  Stub "libSceFiber" "sceFiberGetSelf" "sceFiberGetSelf"]%string.

Definition SceFont : Library := mkLibrary "SceFont" [
  Stub "libSceFont" "sceFontInit" "sceFontInit";
  Stub "libSceFont" "sceFontDone" "sceFontDone";
  Stub "libSceFont" "sceFontCreateLibraryFromMemory" "sceFontCreateLibraryFromMemory";
  Stub "libSceFont" "sceFontDestroyLibrary" "sceFontDestroyLibrary";
  Stub "libSceFont" "sceFontGetCharGlyphImage" "sceFontGetCharGlyphImage"]%string.

Definition SceFontFt : Library := mkLibrary "SceFontFt" [
  Stub "libSceFontFt" "sceFontFtInit" "sceFontFtInit";
  Stub "libSceFontFt" "sceFontFtDone" "sceFontFtDone"]%string.

Definition SceGameUpdate : Library := mkLibrary "SceGameUpdate" [
  Stub "libSceGameUpdate" "sceGameUpdateInitialize" "sceGameUpdateInitialize";
  Stub "libSceGameUpdate" "sceGameUpdateTerminate" "sceGameUpdateTerminate";
  Stub "libSceGameUpdate" "sceGameUpdateCreateRequest" "sceGameUpdateCreateRequest";
  Stub "libSceGameUpdate" "sceGameUpdateDeleteRequest" "sceGameUpdateDeleteRequest";
  Stub "libSceGameUpdate" "sceGameUpdateCheckUpdate" "sceGameUpdateCheckUpdate";
  Stub "libSceGameUpdate" "sceGameUpdateGetStatus" "sceGameUpdateGetStatus";
  Stub "libSceGameUpdate" "sceGameUpdateAbort" "sceGameUpdateAbort";
  Stub "libSceGameUpdate" "sceGameUpdateGetUpdateInfo" "sceGameUpdateGetUpdateInfo"]%string.

Definition SceGnm : Library := mkLibrary "SceGnm" [
  Stub "libSceGnm" "sceGnmInit" "sceGnmInit";
  Stub "libSceGnm" "sceGnmTerminate" "sceGnmTerminate";
  Stub "libSceGnm" "sceGnmSubmitDone" "sceGnmSubmitDone";
  Stub "libSceGnm" "sceGnmDrawIndex" "sceGnmDrawIndex";
  Stub "libSceGnm" "sceGnmDrawIndexAuto" "sceGnmDrawIndexAuto";
  Stub "libSceGnm" "sceGnmDrawInitDefaultHardwareState" "sceGnmDrawInitDefaultHardwareState"]%string.

Definition SceHttp : Library := mkLibrary "SceHttp" [
  Stub "libSceHttp" "sceHttpInit" "sceHttpInit";
  Stub "libSceHttp" "sceHttpTerm" "sceHttpTerm";
  Stub "libSceHttp" "sceHttpCreateTemplate" "sceHttpCreateTemplate";
  Stub "libSceHttp" "sceHttpDeleteTemplate" "sceHttpDeleteTemplate";
  Stub "libSceHttp" "sceHttpCreateConnectionWithURL" "sceHttpCreateConnectionWithURL";
  Stub "libSceHttp" "sceHttpDeleteConnection" "sceHttpDeleteConnection";
  Stub "libSceHttp" "sceHttpCreateRequestWithURL" "sceHttpCreateRequestWithURL";
  Stub "libSceHttp" "sceHttpDeleteRequest" "sceHttpDeleteRequest";
  Stub "libSceHttp" "sceHttpSendRequest" "sceHttpSendRequest";
  Stub "libSceHttp" "sceHttpGetStatusCode" "sceHttpGetStatusCode";
  Stub "libSceHttp" "sceHttpReadData" "sceHttpReadData";
  Stub "libSceHttp" "sceHttpGetContentLength" "sceHttpGetContentLength";
  Stub "libSceHttp" "sceHttpSetRequestContentLength" "sceHttpSetRequestContentLength";
  Stub "libSceHttp" "sceHttpAddRequestHeader" "sceHttpAddRequestHeader"]%string.

Definition SceKeyboard : Library := mkLibrary "SceKeyboard" [
  Stub "libSceKeyboard" "sceKeyboardInit" "sceKeyboardInit";
  Stub "libSceKeyboard" "sceKeyboardClose" "sceKeyboardClose";
  Stub "libSceKeyboard" "sceKeyboardOpen" "sceKeyboardOpen";
  Stub "libSceKeyboard" "sceKeyboardCloseHandle" "sceKeyboardCloseHandle";
  Stub "libSceKeyboard" "sceKeyboardReadState" "sceKeyboardReadState"]%string.

Definition SceMouse : Library := mkLibrary "SceMouse" [
  Stub "libSceMouse" "sceMouseInit" "sceMouseInit";
  Stub "libSceMouse" "sceMouseClose" "sceMouseClose";
  Stub "libSceMouse" "sceMouseOpen" "sceMouseOpen";
  Stub "libSceMouse" "sceMouseCloseHandle" "sceMouseCloseHandle";
  Stub "libSceMouse" "sceMouseRead" "sceMouseRead";
  Stub "libSceMouse" "sceMouseSetPointerSpeed" "sceMouseSetPointerSpeed"]%string.

Definition SceJpeg : Library := mkLibrary "SceJpeg" [
  Stub "libSceJpeg" "sceJpegInitJpeg" "sceJpegInitJpeg";
  Stub "libSceJpeg" "sceJpegFinishJpeg" "sceJpegFinishJpeg";
  Stub "libSceJpeg" "sceJpegDecodeJpeg" "sceJpegDecodeJpeg";
  Stub "libSceJpeg" "sceJpegCreateDecoder" "sceJpegCreateDecoder";
  Stub "libSceJpeg" "sceJpegDeleteDecoder" "sceJpegDeleteDecoder";
  Stub "libSceJpeg" "sceJpegDecodeJpegInternal" "sceJpegDecodeJpegInternal"]%string.

Definition SceKernel : Library := mkLibrary "SceKernel" [
  Stub "libSceKernel" "sceKernelCreateSema" "sceKernelCreateSema";
  Stub "libSceKernel" "sceKernelDeleteSema" "sceKernelDeleteSema";
  Stub "libSceKernel" "sceKernelWaitSema" "sceKernelWaitSema";
  Stub "libSceKernel" "sceKernelPollSema" "sceKernelPollSema";
  Stub "libSceKernel" "sceKernelSignalSema" "sceKernelSignalSema";
  Stub "libSceKernel" "sceKernelCreateEqueue" "sceKernelCreateEqueue";
  Stub "libSceKernel" "sceKernelDeleteEqueue" "sceKernelDeleteEqueue";
  Stub "libSceKernel" "sceKernelWaitEqueue" "sceKernelWaitEqueue";
  Stub "libSceKernel" "scePthreadCreate" "scePthreadCreate";
  Stub "libSceKernel" "scePthreadJoin" "scePthreadJoin";
  Stub "libSceKernel" "sceKernelPrintf" "sceKernelPrintf";
  Stub "libSceKernel" "sceKernelDebugOutText" "sceKernelDebugOutText"]%string.

Definition LibcInternal : Library := mkLibrary "LibcInternal" [
  Stub "libSceLibcInternal" "malloc" "sceLibcMalloc";
  Stub "libSceLibcInternal" "free" "sceLibcFree";
  Stub "libSceLibcInternal" "calloc" "sceLibcCalloc";
  Stub "libSceLibcInternal" "realloc" "sceLibcRealloc";
  Stub "libSceLibcInternal" "memcpy" "sceLibcMemcpy";
  Stub "libSceLibcInternal" "memmove" "sceLibcMemmove";
  Stub "libSceLibcInternal" "memset" "sceLibcMemset";
  Stub "libSceLibcInternal" "memcmp" "sceLibcMemcmp";
  Stub "libSceLibcInternal" "memchr" "sceLibcMemchr";
  Stub "libSceLibcInternal" "strlen" "sceLibcStrlen";
  Stub "libSceLibcInternal" "strcpy" "sceLibcStrcpy";
  Stub "libSceLibcInternal" "strncpy" "sceLibcStrncpy";
  Stub "libSceLibcInternal" "strcmp" "sceLibcStrcmp";
  Stub "libSceLibcInternal" "strncmp" "sceLibcStrncmp";
  Stub "libSceLibcInternal" "strchr" "sceLibcStrchr";
  Stub "libSceLibcInternal" "strrchr" "sceLibcStrrchr";
  Stub "libSceLibcInternal" "strstr" "sceLibcStrstr";
  Stub "libSceLibcInternal" "strcat" "sceLibcStrcat";
  Stub "libSceLibcInternal" "strncat" "sceLibcStrncat";
  Stub "libSceLibcInternal" "atoi" "sceLibcAtoi";
  Stub "libSceLibcInternal" "atol" "sceLibcAtol";
  Stub "libSceLibcInternal" "atof" "sceLibcAtof";
  Stub "libSceLibcInternal" "printf" "sceLibcPrintf";
  Stub "libSceLibcInternal" "fprintf" "sceLibcFprintf";
  Stub "libSceLibcInternal" "snprintf" "sceLibcSnprintf";
  Stub "libSceLibcInternal" "puts" "sceLibcPuts";
  Stub "libSceLibcInternal" "getchar" "sceLibcGetchar";
  Stub "libSceLibcInternal" "fopen" "sceLibcFopen";
  Stub "libSceLibcInternal" "fclose" "sceLibcFclose";
  Stub "libSceLibcInternal" "fread" "sceLibcFread";
  Stub "libSceLibcInternal" "fwrite" "sceLibcFwrite"]%string.

Definition SceMove : Library := mkLibrary "SceMove" [
  Stub "libSceMove" "sceMoveInit" "sceMoveInit";
  Stub "libSceMove" "sceMoveOpen" "sceMoveOpen";
  Stub "libSceMove" "sceMoveClose" "sceMoveClose";
  Stub "libSceMove" "sceMoveReadState" "sceMoveReadState";
  Stub "libSceMove" "sceMoveGetDeviceInfo" "sceMoveGetDeviceInfo";
  Stub "libSceMove" "sceMoveIsMoveConnected" "sceMoveIsMoveConnected"]%string.

Definition SceNet : Library := mkLibrary "SceNet" [
  Stub "libSceNet" "sceNetInit" "sceNetInit";
  Stub "libSceNet" "sceNetTerm" "sceNetTerm";
  Stub "libSceNet" "sceNetSocket" "sceNetSocket";
  Stub "libSceNet" "sceNetClose" "sceNetClose";
  Stub "libSceNet" "sceNetConnect" "sceNetConnect";
  Stub "libSceNet" "sceNetSend" "sceNetSend";
  Stub "libSceNet" "sceNetRecv" "sceNetRecv"]%string.

Definition SceNetCtl : Library := mkLibrary "SceNetCtl" [
  Stub "libSceNetCtl" "sceNetCtlInit" "sceNetCtlInit";
  Stub "libSceNetCtl" "sceNetCtlTerm" "sceNetCtlTerm";
  Stub "libSceNetCtl" "sceNetCtlGetState" "sceNetCtlGetState";
  Stub "libSceNetCtl" "sceNetCtlGetInfo" "sceNetCtlGetInfo";
  Stub "libSceNetCtl" "sceNetCtlRegisterCallback" "sceNetCtlRegisterCallback";
  Stub "libSceNetCtl" "sceNetCtlUnregisterCallback" "sceNetCtlUnregisterCallback";
  Stub "libSceNetCtl" "sceNetCtlCheckCallback" "sceNetCtlCheckCallback"]%string.

Definition SceNgs2 : Library := mkLibrary "SceNgs2" [
  Stub "libSceNgs2" "sceNgs2SystemCreateWithAllocator" "sceNgs2SystemCreateWithAllocator";
  Stub "libSceNgs2" "sceNgs2SystemDestroy" "sceNgs2SystemDestroy";
  Stub "libSceNgs2" "sceNgs2RackCreate" "sceNgs2RackCreate";
  Stub "libSceNgs2" "sceNgs2RackDestroy" "sceNgs2RackDestroy";
  Stub "libSceNgs2" "sceNgs2VoiceCreate" "sceNgs2VoiceCreate";
  Stub "libSceNgs2" "sceNgs2VoiceDestroy" "sceNgs2VoiceDestroy";
  Stub "libSceNgs2" "sceNgs2VoiceControl" "sceNgs2VoiceControl";
  Stub "libSceNgs2" "sceNgs2VoicePlay" "sceNgs2VoicePlay";
  Stub "libSceNgs2" "sceNgs2VoiceStop" "sceNgs2VoiceStop";
  Stub "libSceNgs2" "sceNgs2RackSetGain" "sceNgs2RackSetGain";
  Stub "libSceNgs2" "sceNgs2SystemRender" "sceNgs2SystemRender"]%string.

Definition SceNpCommon : Library := mkLibrary "SceNpCommon" [
  Stub "libSceNpCommon" "sceNpCreateRequest" "sceNpCreateRequest";
  Stub "libSceNpCommon" "sceNpDeleteRequest" "sceNpDeleteRequest";
  Stub "libSceNpCommon" "sceNpAbortRequest" "sceNpAbortRequest";
  Stub "libSceNpCommon" "sceNpGetAccountLanguageA" "sceNpGetAccountLanguageA"]%string.

Definition SceNpManager : Library := mkLibrary "SceNpManager" [
  Stub "libSceNpManager" "sceNpInit" "sceNpInit";
  Stub "libSceNpManager" "sceNpTerm" "sceNpTerm";
  Stub "libSceNpManager" "sceNpCheckNpReachability" "sceNpCheckNpReachability";
  Stub "libSceNpManager" "sceNpGetAccountIdA" "sceNpGetAccountIdA";
  Stub "libSceNpManager" "sceNpGetAccountId" "sceNpGetAccountId";
  Stub "libSceNpManager" "sceNpGetOnlineId" "sceNpGetOnlineId";
  Stub "libSceNpManager" "sceNpGetAccountCountry" "sceNpGetAccountCountry";
  Stub "libSceNpManager" "sceNpGetAccountLanguage" "sceNpGetAccountLanguage";
  Stub "libSceNpManager" "sceNpIsPlusMember" "sceNpIsPlusMember";
  Stub "libSceNpManager" "sceNpSetNpTitleId" "sceNpSetNpTitleId";
  Stub "libSceNpManager" "sceNpRegisterStateCallback" "sceNpRegisterStateCallback";
  Stub "libSceNpManager" "sceNpUnregisterStateCallback" "sceNpUnregisterStateCallback"]%string.

Definition SceNpScore : Library := mkLibrary "SceNpScore" [
  Stub "libSceNpScore" "sceNpScoreInit" "sceNpScoreInit";
  Stub "libSceNpScore" "sceNpScoreTerm" "sceNpScoreTerm";
  Stub "libSceNpScore" "sceNpScoreCreateTitleCtx" "sceNpScoreCreateTitleCtx";
  Stub "libSceNpScore" "sceNpScoreCreateRequest" "sceNpScoreCreateRequest";
  Stub "libSceNpScore" "sceNpScoreDeleteRequest" "sceNpScoreDeleteRequest";
  Stub "libSceNpScore" "sceNpScoreSetScore" "sceNpScoreSetScore";
  Stub "libSceNpScore" "sceNpScoreGetRankingByRange" "sceNpScoreGetRankingByRange";
  Stub "libSceNpScore" "sceNpScoreGetRankingByNpId" "sceNpScoreGetRankingByNpId"]%string.

Definition SceNpTrophy : Library := mkLibrary "SceNpTrophy" [
  Stub "libSceNpTrophy" "sceNpTrophyCreateContext" "sceNpTrophyCreateContext";
  Stub "libSceNpTrophy" "sceNpTrophyDestroyContext" "sceNpTrophyDestroyContext";
  Stub "libSceNpTrophy" "sceNpTrophyRegisterContext" "sceNpTrophyRegisterContext";
  Stub "libSceNpTrophy" "sceNpTrophyCreateHandle" "sceNpTrophyCreateHandle";
  Stub "libSceNpTrophy" "sceNpTrophyDestroyHandle" "sceNpTrophyDestroyHandle";
  Stub "libSceNpTrophy" "sceNpTrophyGetTrophyUnlockState" "sceNpTrophyGetTrophyUnlockState";
  Stub "libSceNpTrophy" "sceNpTrophyUnlockTrophy" "sceNpTrophyUnlockTrophy";
  Stub "libSceNpTrophy" "sceNpTrophyGetGameInfo" "sceNpTrophyGetGameInfo";
  Stub "libSceNpTrophy" "sceNpTrophyGetTrophyInfo" "sceNpTrophyGetTrophyInfo"]%string.

Definition ScePad : Library := mkLibrary "ScePad" [
  Stub "libScePad" "scePadInit" "scePadInit";
  Stub "libScePad" "scePadOpen" "scePadOpen";
  Stub "libScePad" "scePadClose" "scePadClose";
  Stub "libScePad" "scePadReadState" "scePadReadState";
  Stub "libScePad" "scePadRead" "scePadRead";
  Stub "libScePad" "scePadSetVibration" "scePadSetVibration"]%string.

Definition ScePlayGo : Library := mkLibrary "ScePlayGo" [
  Stub "libScePlayGo" "scePlayGoInitialize" "scePlayGoInitialize";
  Stub "libScePlayGo" "scePlayGoTerminate" "scePlayGoTerminate";
  Stub "libScePlayGo" "scePlayGoGetLocus" "scePlayGoGetLocus";
  Stub "libScePlayGo" "scePlayGoGetChunkId" "scePlayGoGetChunkId";
  Stub "libScePlayGo" "scePlayGoGetInstallSpeed" "scePlayGoGetInstallSpeed";
  Stub "libScePlayGo" "scePlayGoGetProgress" "scePlayGoGetProgress";
  Stub "libScePlayGo" "scePlayGoGetLocusInfo" "scePlayGoGetLocusInfo";
  Stub "libScePlayGo" "scePlayGoGetEta" "scePlayGoGetEta";
  Stub "libScePlayGo" "scePlayGoPrefetch" "scePlayGoPrefetch";
  Stub "libScePlayGo" "scePlayGoOpen" "scePlayGoOpen";
  Stub "libScePlayGo" "scePlayGoClose" "scePlayGoClose";
  Stub "libScePlayGo" "scePlayGoSetWakeupCallback" "scePlayGoSetWakeupCallback"]%string.

Definition ScePng : Library := mkLibrary "ScePng" [
  Stub "libScePng" "scePngInit" "scePngInit";
  Stub "libScePng" "scePngFinish" "scePngFinish";
  Stub "libScePng" "scePngDecode" "scePngDecode"]%string.

Definition SceRandom : Library := mkLibrary "SceRandom" [
  Stub "libSceRandom" "sceRandomGetRandomNumber" "sceRandomGetRandomNumber";
  Stub "libSceRandom" "sceRandomGetRandomValue" "sceRandomGetRandomValue";
  Stub "libSceRandom" "sceRandomGetRandomFloat" "sceRandomGetRandomFloat"]%string.

Definition SceRtc : Library := mkLibrary "SceRtc" [
  Stub "libSceRtc" "sceRtcGetCurrentTick" "sceRtcGetCurrentTick";
  Stub "libSceRtc" "sceRtcGetCurrentClock" "sceRtcGetCurrentClock";
  Stub "libSceRtc" "sceRtcGetCurrentClockLocalTime" "sceRtcGetCurrentClockLocalTime";
  Stub "libSceRtc" "sceRtcSetTick" "sceRtcSetTick";
  Stub "libSceRtc" "sceRtcGetTick" "sceRtcGetTick";
  Stub "libSceRtc" "sceRtcGetTickResolution" "sceRtcGetTickResolution";
  Stub "libSceRtc" "sceRtcConvertUtcToLocalTime" "sceRtcConvertUtcToLocalTime";
  Stub "libSceRtc" "sceRtcConvertLocalTimeToUtc" "sceRtcConvertLocalTimeToUtc";
  Stub "libSceRtc" "sceRtcGetCurrentNetworkTick" "sceRtcGetCurrentNetworkTick"]%string.

Definition SceSaveData : Library := mkLibrary "SceSaveData" [
  Stub "libSceSaveData" "sceSaveDataInitialize" "sceSaveDataInitialize";
  Stub "libSceSaveData" "sceSaveDataTerminate" "sceSaveDataTerminate";
  Stub "libSceSaveData" "sceSaveDataSetupSaveDataMemory" "sceSaveDataSetupSaveDataMemory";
  Stub "libSceSaveData" "sceSaveDataSaveIcon" "sceSaveDataSaveIcon";
  Stub "libSceSaveData" "sceSaveDataCommitSaveData" "sceSaveDataCommitSaveData";
  Stub "libSceSaveData" "sceSaveDataLoadSaveData" "sceSaveDataLoadSaveData";
  Stub "libSceSaveData" "sceSaveDataGetSaveDataMemory" "sceSaveDataGetSaveDataMemory";
  Stub "libSceSaveData" "sceSaveDataSetSaveDataMemory" "sceSaveDataSetSaveDataMemory";
  Stub "libSceSaveData" "sceSaveDataDeleteSaveDataMemory" "sceSaveDataDeleteSaveDataMemory";
  Stub "libSceSaveData" "sceSaveDataGetSaveDataMemorySize" "sceSaveDataGetSaveDataMemorySize"]%string.

Definition SceScreenShot : Library := mkLibrary "SceScreenShot" [
  Stub "libSceScreenShot" "sceScreenShotInit" "sceScreenShotInit";
  Stub "libSceScreenShot" "sceScreenShotTerm" "sceScreenShotTerm";
  Stub "libSceScreenShot" "sceScreenShotCapture" "sceScreenShotCapture";
  Stub "libSceScreenShot" "sceScreenShotDisable" "sceScreenShotDisable";
  Stub "libSceScreenShot" "sceScreenShotEnable" "sceScreenShotEnable";
  Stub "libSceScreenShot" "sceScreenShotSetParam" "sceScreenShotSetParam"]%string.

Definition SceShare : Library := mkLibrary "SceShare" [
  Stub "libSceShare" "sceShareInitialize" "sceShareInitialize";
  Stub "libSceShare" "sceShareTerminate" "sceShareTerminate";
  Stub "libSceShare" "sceShareOpen" "sceShareOpen";
  Stub "libSceShare" "sceShareClose" "sceShareClose";
  Stub "libSceShare" "sceShareGetStatus" "sceShareGetStatus";
  Stub "libSceShare" "sceShareRegisterPostDialog" "sceShareRegisterPostDialog";
  Stub "libSceShare" "sceShareSetVideoToPng" "sceShareSetVideoToPng";
  Stub "libSceShare" "sceShareCaptureScreen" "sceShareCaptureScreen"]%string.

Definition SceSigninDialog : Library := mkLibrary "SceSigninDialog" [
  Stub "libSceSigninDialog" "sceSigninDialogInitialize" "sceSigninDialogInitialize";
  Stub "libSceSigninDialog" "sceSigninDialogTerminate" "sceSigninDialogTerminate";
  Stub "libSceSigninDialog" "sceSigninDialogOpen" "sceSigninDialogOpen";
  Stub "libSceSigninDialog" "sceSigninDialogGetStatus" "sceSigninDialogGetStatus";
  Stub "libSceSigninDialog" "sceSigninDialogUpdateStatus" "sceSigninDialogUpdateStatus";
  Stub "libSceSigninDialog" "sceSigninDialogGetResult" "sceSigninDialogGetResult";
  Stub "libSceSigninDialog" "sceSigninDialogClose" "sceSigninDialogClose"]%string.

Definition SceSsl : Library := mkLibrary "SceSsl" [
  Stub "libSceSsl" "sceSslInit" "sceSslInit";
  Stub "libSceSsl" "sceSslTerm" "sceSslTerm";
  Stub "libSceSsl" "sceSslConnect" "sceSslConnect";
  Stub "libSceSsl" "sceSslGetIssuerName" "sceSslGetIssuerName";
  Stub "libSceSsl" "sceSslGetSubjectName" "sceSslGetSubjectName";
  Stub "libSceSsl" "sceSslGetNotBefore" "sceSslGetNotBefore";
  Stub "libSceSsl" "sceSslGetNotAfter" "sceSslGetNotAfter"]%string.

Definition SceSysmodule : Library := mkLibrary "SceSysmodule" [
  Stub "libSceSysmodule" "sceSysmoduleLoadModule" "sceSysmoduleLoadModule";
  Stub "libSceSysmodule" "sceSysmoduleUnloadModule" "sceSysmoduleUnloadModule";
  Stub "libSceSysmodule" "sceSysmoduleIsLoaded" "sceSysmoduleIsLoaded"]%string.

Definition SceSystemService : Library := mkLibrary "SceSystemService" [
  Stub "libSceSystemService" "sceSystemServiceGetStatus" "sceSystemServiceGetStatus";
  Stub "libSceSystemService" "sceSystemServiceReceiveEvent" "sceSystemServiceReceiveEvent";
  Stub "libSceSystemService" "sceSystemServiceHideSplashScreen" "sceSystemServiceHideSplashScreen";
  Stub "libSceSystemService" "sceSystemServiceLaunchApp" "sceSystemServiceLaunchApp";
  Stub "libSceKernel" "sceKernelGetProcessTime" "sceKernelGetProcessTime"]%string.

Definition SceUlt : Library := mkLibrary "SceUlt" [
  Stub "libSceUlt" "sceUltPoolCreate" "sceUltPoolCreate";
  Stub "libSceUlt" "sceUltPoolDestroy" "sceUltPoolDestroy";
  Stub "libSceUlt" "sceUltPoolAlloc" "sceUltPoolAlloc";
  Stub "libSceUlt" "sceUltPoolFree" "sceUltPoolFree";
  Stub "libSceUlt" "sceUltWaitingQueueInit" "sceUltWaitingQueueInit";
  Stub "libSceUlt" "sceUltWaitingQueueDestroy" "sceUltWaitingQueueDestroy";
  Stub "libSceUlt" "sceUltSpinlockInit" "sceUltSpinlockInit"]%string.

Definition SceVideodec : Library := mkLibrary "SceVideodec" [
  Stub "libSceVideodec" "sceVideodecInitLibrary" "sceVideodecInitLibrary";
  Stub "libSceVideodec" "sceVideodecTermLibrary" "sceVideodecTermLibrary";
  Stub "libSceVideodec" "sceVideodecCreateDecoder" "sceVideodecCreateDecoder";
  Stub "libSceVideodec" "sceVideodecDeleteDecoder" "sceVideodecDeleteDecoder";
  Stub "libSceVideodec" "sceVideodecDecode" "sceVideodecDecode";
  Stub "libSceVideodec" "sceVideodecFlush" "sceVideodecFlush"]%string.

Definition SceVideoOut : Library := mkLibrary "SceVideoOut" [
  Stub "libSceVideoOut" "sceVideoOutOpen" "sceVideoOutOpen";
  Stub "libSceVideoOut" "sceVideoOutClose" "sceVideoOutClose";
  Stub "libSceVideoOut" "sceVideoOutRegisterBuffers" "sceVideoOutRegisterBuffers";
  Stub "libSceVideoOut" "sceVideoOutUnregisterBuffers" "sceVideoOutUnregisterBuffers";
  Stub "libSceVideoOut" "sceVideoOutSubmitFlip" "sceVideoOutSubmitFlip";
  Stub "libSceVideoOut" "sceVideoOutSetFlipRate" "sceVideoOutSetFlipRate";
  Stub "libSceVideoOut" "sceVideoOutGetFlipStatus" "sceVideoOutGetFlipStatus"]%string.

Definition SceVoice : Library := mkLibrary "SceVoice" [
  Stub "libSceVoice" "sceVoiceInit" "sceVoiceInit";
  Stub "libSceVoice" "sceVoiceQuit" "sceVoiceQuit";
  Stub "libSceVoice" "sceVoiceCreatePort" "sceVoiceCreatePort";
  Stub "libSceVoice" "sceVoiceDeletePort" "sceVoiceDeletePort";
  Stub "libSceVoice" "sceVoiceReadFromServer" "sceVoiceReadFromServer";
  Stub "libSceVoice" "sceVoiceWriteToServer" "sceVoiceWriteToServer";
  Stub "libSceVoice" "sceVoiceGetPortInfo" "sceVoiceGetPortInfo";
  Stub "libSceVoice" "sceVoiceGetBitRate" "sceVoiceGetBitRate"]%string.

Definition all_libraries : list Library := [
  SceAjm; SceAppContent; SceAudioOut; SceAudiodec; SceBgft; SceCamera; SceCommonDialog; SceErrorDialog;
  SceImeDialog; SceMsgDialog; SceSaveDataDialog; SceDownload; SceFiber; SceFont; SceFontFt;
  SceGameUpdate; SceGnm; SceHttp; SceKeyboard; SceMouse; SceJpeg; SceKernel; LibcInternal; SceMove;
  SceNet; SceNetCtl; SceNgs2; SceNpCommon; SceNpManager; SceNpScore; SceNpTrophy; ScePad; ScePlayGo;
  ScePng; SceRandom; SceRtc; SceSaveData; SceScreenShot; SceShare; SceSigninDialog; SceSsl;
  SceSysmodule; SceSystemService; SceUlt; SceVideodec; SceVideoOut; SceVoice].

End Sce.

(** ** The table they make *)
Section Table.
Import SceStubTable.
Implicit Types rs : list (bytes * bytes * Z).

Definition row_key (r : bytes * bytes * Z) : bytes := key r.1.1 r.1.2.

Lemma register_all_snoc rs r : register_all (rs ++ [r]) = registerStub r.1.1 r.1.2 r.2 (register_all rs).
Proof. unfold register_all. by rewrite foldl_app. Qed.

(** Registrations under distinct keys: every stub is found, by its name and by
    an id, and there is nothing else. *)
Lemma register_all_distinct rs :
  NoDup (row_key <$> rs) -> Forall (fun r => r.2 <> 0) rs -> Z.of_nat (length rs) < 0x0FFFFFFF ->
  let t := register_all rs in
  size (m_stubs t) = length rs /\ size (m_byId t) = length rs /\
  (forall q, is_Some (m_stubs t !! q) -> q ∈ row_key <$> rs) /\
  forall r, r ∈ rs -> m_stubs t !! row_key r = Some r.2 /\ exists id, m_byId t !! id = Some r.2.
Proof.
  induction rs as [|r rs IH] using rev_ind; intros Hnd Hnz Hlen.
  - simpl. split_and!; try apply map_size_empty; [|by intros r ?%elem_of_nil].
    intros q [x Hx]. by rewrite lookup_empty in Hx.
  - rewrite fmap_app in Hnd. apply NoDup_app in Hnd as (Hnd & Hnew & _).
    apply Forall_app in Hnz as [Hnz Hr]. apply Forall_inv in Hr. rewrite length_app in *. simpl in Hlen.
    destruct (IH Hnd Hnz ltac:(lia)) as (Hs & Hi & Hdom & Hall).
    pose proof (register_all_wf rs) as Hwf. rewrite register_all_snoc. unfold registerStub.
    rewrite (proj2 (Z.eqb_neq _ _) Hr), Hi, (proj2 (Z.ltb_lt _ _)) by lia. cbn [m_stubs m_byId].
    assert (m_stubs (register_all rs) !! row_key r = None) as Hfresh.
    { destruct (m_stubs _ !! row_key r) eqn:E; [|done]. exfalso. apply (Hnew (row_key r)); [apply Hdom; by eexists|].
      by apply list_elem_of_singleton. }
    assert (m_byId (register_all rs) !! m_nextId (register_all rs) = None) as Hid.
    { destruct (m_byId _ !! _) eqn:E; [|done]. apply (wf_ids _ Hwf) in E. lia. }
    rewrite !map_size_insert_None by done. split_and!; [simpl; lia|simpl; lia| |].
    + intros q. rewrite fmap_app, elem_of_app. intros [x [[<- _]|[_ Hx]]%lookup_insert_Some].
      * right. by apply list_elem_of_singleton.
      * left. apply Hdom. by eexists.
    + intros r' [Hin| ->%list_elem_of_singleton]%elem_of_app.
      * destruct (Hall r' Hin) as [H1 [id H2]]. split.
        -- rewrite lookup_insert_ne; [done|]. intros E. fold (row_key r) in E. rewrite <- E in H1. congruence.
        -- exists id. rewrite lookup_insert_ne; [done|]. congruence.
      * split; [by rewrite lookup_insert_eq|]. eexists. by rewrite lookup_insert_eq.
Qed.

Lemma getOrAssignId_bound t q p id :
  m_stubs t !! q = Some p -> m_byId t !! id = Some p -> resolveById t (getOrAssignId t q) = p.
Proof.
  intros Hq Hid. unfold getOrAssignId, resolveById. rewrite Hq.
  destruct (list_find _ _) as [[i [id' p']]|] eqn:E.
  - apply list_find_Some in E as (Hl & Hp & _). simpl in Hp. subst. simpl.
    apply list_elem_of_lookup_2, elem_of_map_to_list in Hl. by rewrite Hl.
  - apply list_find_None in E. rewrite Forall_forall in E. exfalso.
    by apply (E (id, p) (proj2 (elem_of_map_to_list _ _ _) Hid)).
Qed.

Definition rows (address : string -> string -> Z) (l : Library) : list (bytes * bytes * Z) :=
  (fun e => (cstr (e_lib e), cstr (e_fn e), address (l_class l) (e_sym e))) <$> l_exports l.

Lemma register_libraries_all address ls :
  register_libraries address ls initial = register_all (concat (rows address <$> ls)).
Proof.
  unfold register_libraries, register_all. generalize initial.
  induction ls as [|l ls IH]; intros t; [done|]. cbn [foldl fmap list_fmap concat]. rewrite foldl_app, <- IH. f_equal.
  unfold registerExports, rows. generalize (l_exports l). clear. intros es. revert t.
  induction es as [|e es IH]; intros t; [done|]. simpl. apply IH.
Qed.

Lemma rows_keys address l : row_key <$> rows address l = (fun e => key (cstr (e_lib e)) (cstr (e_fn e))) <$> l_exports l.
Proof. unfold rows. by rewrite <- list_fmap_compose. Qed.

Lemma concat_perm {A} (l1 l2 : list (list A)) : l1 ≡ₚ l2 -> concat l1 ≡ₚ concat l2.
Proof.
  induction 1 as [|x l1 l2 _ IH|x y l|l1 l2 l3 _ IH1 _ IH2]; simpl; [done|by rewrite IH| |by rewrite IH1].
  rewrite !(assoc_L (++)). by rewrite (comm (++) y x).
Qed.

Lemma all_keys_NoDup :
  NoDup (concat ((fun l => (fun e => key (cstr (e_lib e)) (cstr (e_fn e))) <$> l_exports l) <$> Sce.all_libraries)).
Proof. apply (bool_decide_unpack _). vm_compute. exact I. Qed.

(** A stub registered among all the libraries is in the table. *)
Lemma exports_lookup address ls l e : (forall c f, address c f <> 0) -> ls ≡ₚ Sce.all_libraries -> l ∈ ls -> e ∈ l_exports l ->
  let t := register_libraries address ls initial in
  size (m_stubs t) = 362%nat /\ (forall q, is_Some (m_stubs t !! q) -> q ∈ row_key <$> concat (rows address <$> ls)) /\
  m_stubs t !! key (cstr (e_lib e)) (cstr (e_fn e)) = Some (address (l_class l) (e_sym e)) /\
  exists id, m_byId t !! id = Some (address (l_class l) (e_sym e)).
Proof.
  intros Hnz Hp Hl He t.
  assert (rows address <$> ls ≡ₚ rows address <$> Sce.all_libraries) as Hrows by (by rewrite Hp).
  assert (length (concat (rows address <$> ls)) = 362%nat) as Hlen.
  { rewrite (concat_perm _ _ Hrows). reflexivity. }
  destruct (register_all_distinct (concat (rows address <$> ls))) as (Hs & _ & Hdom & Hall).
  - rewrite (concat_perm _ _ Hrows).
    change (NoDup (map row_key (concat (map (rows address) Sce.all_libraries)))). rewrite concat_map, map_map.
    rewrite (map_ext _ _ (rows_keys address)). exact all_keys_NoDup.
  - apply Forall_concat, Forall_fmap, Forall_true. intros l'. apply Forall_fmap, Forall_true. intros e'. apply Hnz.
  - rewrite Hlen. done.
  - unfold t. rewrite register_libraries_all. split; [by rewrite Hs|]. split; [done|].
    apply (Hall (cstr (e_lib e), cstr (e_fn e), address (l_class l) (e_sym e))).
    apply list_elem_of_In, in_concat. exists (rows address l). split; apply list_elem_of_In; [by apply list_elem_of_fmap_2|].
    unfold rows. apply list_elem_of_fmap. by exists e.
Qed.

End Table.

Section Properties.
Import SceStubTable.

(** No export hides another.  In whatever order the 47 libraries
    register, the table ends with one stub for each of the 362 exports, found
    under its library and name, and under the id that the trampoline of that
    name carries. *)
Theorem exports_resolve address ls :
  (forall c f, address c f <> 0) -> ls ≡ₚ Sce.all_libraries ->
  let t := register_libraries address ls initial in
  table_size t = 362%nat /\ 
  forall l e, l ∈ ls -> e ∈ l_exports l ->
    let p := address (l_class l) (e_sym e) in
    resolve t (cstr (e_lib e)) (cstr (e_fn e)) = p /\
    resolveById t (getOrAssignId t (key (cstr (e_lib e)) (cstr (e_fn e)))) = p.
Proof.
  intros Hnz Hp t. split.
  - assert (Sce.SceUlt ∈ ls /\ exists e, e ∈ l_exports Sce.SceUlt) as (Hl & e & He).
    { rewrite Hp. split; [apply list_elem_of_In; unfold Sce.all_libraries; repeat (first [left; reflexivity | right])|]. eexists. by left. }
    apply (exports_lookup address ls _ e Hnz Hp Hl He).
  - intros l e Hl He p. destruct (exports_lookup address ls l e Hnz Hp Hl He) as (_ & _ & H1 & id & H2).
    split; [unfold resolve, t; by rewrite H1|]. by eapply getOrAssignId_bound.
Qed.

Definition demo_address (c f : string) : Z := 4096 + Z.of_nat (String.length c + String.length f).

Lemma exports_resolve_witness :
  resolve (register_libraries demo_address (rev Sce.all_libraries) initial) (cstr "libSceRtc") (cstr "sceRtcGetTick")
  = demo_address "SceRtc" "sceRtcGetTick".
Proof.
  destruct (exports_resolve demo_address (rev Sce.all_libraries)) as [_ H].
  - intros c f. unfold demo_address. lia.
  - symmetry. apply Permutation_rev.
  - destruct (H Sce.SceRtc (Stub "libSceRtc" "sceRtcGetTick" "sceRtcGetTick")) as [H1 _]; [| |exact H1].
    + apply list_elem_of_In. apply (in_rev Sce.all_libraries). simpl. do 50 (try (left; reflexivity); right).
    + simpl. repeat (first [left | right]). 
Defined.

End Properties.
