(* ===== verification/Random.v ===== *)
(** * Random numbers

    [sce/random/SceRandom.cpp]: a ChaCha20 generator per thread, seeded from the
    host kernel.  The kernel's answers are a function of the number of the call;
    an answer of the wrong length is the failed system call. *)
From S2P Require Import Prelude.

(** ** ChaCha20 *)
Module ChaCha20.

Definition rotl32 (v n : Z) : Z := Z.lor (u32 (Z.shiftl v n)) (Z.shiftr v (32 - n)).

Definition qr (a b c d : Z) : Z * Z * Z * Z :=
  let a := u32 (a + b) in let d := rotl32 (Z.lxor d a) 16 in
  let c := u32 (c + d) in let b := rotl32 (Z.lxor b c) 12 in
  let a := u32 (a + b) in let d := rotl32 (Z.lxor d a) 8 in
  let c := u32 (c + d) in let b := rotl32 (Z.lxor b c) 7 in
  (a, b, c, d).

(** [qr(x[i], x[j], x[k], x[l])], through references into the array. *)
Definition qr_at (i j k l : nat) (x : list Z) : list Z :=
  let '(a, b, c, d) := qr (x !!! i) (x !!! j) (x !!! k) (x !!! l) in
  <[l := d]> (<[k := c]> (<[j := b]> (<[i := a]> x))).

Definition round (x : list Z) : list Z :=
  let x := qr_at 0 4 8 12 x in
  let x := qr_at 1 5 9 13 x in
  let x := qr_at 2 6 10 14 x in
  let x := qr_at 3 7 11 15 x in
  let x := qr_at 0 5 10 15 x in
  let x := qr_at 1 6 11 12 x in
  let x := qr_at 2 7 8 13 x in
  qr_at 3 4 9 14 x.

Definition chacha20Block (inp : list Z) : list Z :=
  zip_with (fun x i => u32 (x + i)) (Nat.iter 10 round inp) inp.

End ChaCha20.

(** ** The generator of a thread *)
Module Drbg.
Import ChaCha20.

Record t := mk {
  key : list Z;
  nonce : list Z;
  counter : Z;
  buf : bytes;
  bufPos : nat;
  produced : Z;
  seeded : bool
}.

Definition fresh : t := mk (replicate 8 0) (replicate 2 0) 0 (replicate 64 0) 64 0 false.

(** The words of a copied byte array. *)
Definition words (n : nat) (bs : bytes) : list Z := (fun i => field bs (4 * i) 4) <$> seq 0 n.
Definition word_bytes (ws : list Z) : bytes := concat (le_encode 4 <$> ws).

Definition reseedFromKernel (seed : bytes) (d : t) : t * bool :=
  if negb (length seed =? 40)%nat then (d, false)
  else (mk (words 8 seed) (words 2 (drop 32 seed)) 0 (buf d) 64 0 true, true).

Definition state_words (key nonce : list Z) (counter : Z) : list Z :=
  [0x61707865; 0x3320646e; 0x79622d32; 0x6b206574] ++ key ++ [u32 counter; Z.shiftr counter 32] ++ nonce.

Definition refill (d : t) : t :=
  mk (key d) (nonce d) (u64 (counter d + 1))
    (word_bytes (chacha20Block (state_words (key d) (nonce d) (counter d)))) 0 (produced d) (seeded d).

(** One round of the copying loop. *)
Definition copy_some (n : nat) (d : t) : t * bytes * nat :=
  let d := if (64 <=? bufPos d)%nat then refill d else d in
  let avail := (64 - bufPos d)%nat in
  let take_ := if (n <? avail)%nat then n else avail in
  (mk (key d) (nonce d) (counter d) (buf d) (bufPos d + take_) (u64 (produced d + Z.of_nat take_)) (seeded d),
   take take_ (drop (bufPos d) (buf d)), take_).

Fixpoint fill_loop (fuel n : nat) (d : t) : t * bytes :=
  match fuel with
  | O => (d, [])
  | S fuel' =>
      if (n =? 0)%nat then (d, [])
      else
        let '(d, out, take_) := copy_some n d in
        let '(d, out') := fill_loop fuel' (n - take_) d in
        (d, out ++ out')
  end.

End Drbg.

(** ** The library *)
Import Drbg.

(** The thread-local generators and the number of calls made to the kernel. *)
Record RandomState := mkRandom {
  drbgs : gmap Z t;
  kernel_calls : nat;
  m_initialized : bool
}.
Definition random_start : RandomState := mkRandom ∅ 0 false.
Definition drbg (s : RandomState) (tid : Z) : t := default fresh (drbgs s !! tid).
Definition set_drbg (tid : Z) (d : t) (calls : nat) (s : RandomState) : RandomState :=
  mkRandom (<[tid := d]> (drbgs s)) calls (m_initialized s).

Definition kReseedLimit : Z := Z.shiftl 1 20.
Definition kErrInvalidArg : Z := i32 0x80020005.

Section Library.
Context (getrandom : nat -> bytes).

(** The first seeding, when the thread has none. *)
Definition ensure_seeded (calls : nat) (d : t) : t * nat * bool :=
  if seeded d then (d, calls, true)
  else let '(d, ok) := reseedFromKernel (getrandom calls) d in (d, S calls, ok).

Definition fillBytes (tid : Z) (n : nat) (s : RandomState) : RandomState * bytes :=
  let '(d, calls, ok) := ensure_seeded (kernel_calls s) (drbg s tid) in
  if negb ok then (set_drbg tid d calls s, replicate n 0)
  else
    let '(d, calls) :=
      if kReseedLimit <? u64 (produced d + Z.of_nat n)
      then (fst (reseedFromKernel (getrandom calls) d), S calls) else (d, calls) in
    let '(d, out) := fill_loop n n d in
    (set_drbg tid d calls s, out).

(** [initialize] seeds a variable of its own. *)
Definition initialize (s : RandomState) : RandomState * bool :=
  let d := fst (reseedFromKernel (getrandom (kernel_calls s)) fresh) in
  (mkRandom (drbgs s) (S (kernel_calls s)) true, true).

Definition sceRandomGetRandomNumber (tid : Z) (dst_null : bool) (n : nat) (s : RandomState)
    : RandomState * bytes * Z :=
  if dst_null && (0 <? n)%nat then (s, [], kErrInvalidArg)
  else let '(s, out) := fillBytes tid n s in (s, out, 0).

Definition sceRandomGetRandomValue (tid : Z) (s : RandomState) : RandomState * Z :=
  let '(s, out) := fillBytes tid 8 s in (s, le_decode out).

(** [static_cast<float>] of a 32-bit number: rounded to 24 significant bits, to
    nearest, ties to even. *)
Definition to_float (v : Z) : Z :=
  if v <? 2 ^ 24 then v
  else
    let sh := Z.log2 v - 23 in
    let q := v / 2 ^ sh in
    let r := v mod 2 ^ sh in
    let half := 2 ^ (sh - 1) in
    let q := if (half <? r) || ((r =? half) && Z.odd q) then q + 1 else q in
    q * 2 ^ sh.

(** The result, as a number of units of [1 / 4294967296]: the division is by a
    power of two, so it is exact. *)
Definition sceRandomGetRandomFloat (tid : Z) (s : RandomState) : RandomState * Z :=
  let '(s, out) := fillBytes tid 4 s in (s, to_float (le_decode out)).

(** A session: requests by threads, in order, and what each got. *)
Fixpoint requests (reqs : list (Z * nat)) (s : RandomState) : RandomState * list (Z * bytes) :=
  match reqs with
  | [] => (s, [])
  | (tid, n) :: rest =>
      let '(s, out) := fillBytes tid n s in
      let '(s, outs) := requests rest s in
      (s, (tid, out) :: outs)
  end.

End Library.

(** ** Reference: ChaCha20 by its definition

    The cipher as RFC 8439 defines it, with the 64-bit block counter and 64-bit
    nonce of the original: on the four rows of a matrix of 32-bit words, a
    column round works on all the columns at once and a diagonal round is a
    column round on rows turned by one, two and three places. *)
Module ChaChaSpec.

Definition add32 (x y : Z) : Z := (x + y) mod 2 ^ 32.
Definition rot (n x : Z) : Z := (x * 2 ^ n) mod 2 ^ 32 + x / 2 ^ (32 - n).

Definition quarter (a b c d : Z) : Z * Z * Z * Z :=
  let a := add32 a b in let d := rot 16 (Z.lxor d a) in
  let c := add32 c d in let b := rot 12 (Z.lxor b c) in
  let a := add32 a b in let d := rot 8 (Z.lxor d a) in
  let c := add32 c d in let b := rot 7 (Z.lxor b c) in
  (a, b, c, d).

Definition Rows : Type := list Z * list Z * list Z * list Z.
Definition rows (ws : list Z) : Rows := (take 4 ws, take 4 (drop 4 ws), take 4 (drop 8 ws), take 4 (drop 12 ws)).
Definition flat (m : Rows) : list Z := let '(a, b, c, d) := m in a ++ b ++ c ++ d.

Definition column_round (m : Rows) : Rows :=
  let '(a, b, c, d) := m in
  let q i := quarter (a !!! i) (b !!! i) (c !!! i) (d !!! i) in
  let each (f : Z * Z * Z * Z -> Z) := (fun i => f (q i)) <$> [0; 1; 2; 3]%nat in
  (each (fun q => q.1.1.1), each (fun q => q.1.1.2), each (fun q => q.1.2), each (fun q => q.2)).
Definition turn (n : nat) (row : list Z) : list Z := drop n row ++ take n row.
Definition diagonal_round (m : Rows) : Rows :=
  let '(a, b, c, d) := m in
  let '(a, b, c, d) := column_round (a, turn 1 b, turn 2 c, turn 3 d) in
  (a, turn 3 b, turn 2 c, turn 1 d).

Definition block (ws : list Z) : list Z :=
  zip_with add32 (flat (Nat.iter 10 (fun m => diagonal_round (column_round m)) (rows ws))) ws.

(** The 64 bytes of key stream number [counter]. *)
Definition initial (key nonce : bytes) (counter : Z) : list Z :=
  (fun i => field (cstr "expand 32-byte k" ++ key ++ le_encode 8 counter ++ nonce) (4 * i) 4) <$> seq 0 16.
Definition stream_block (key nonce : bytes) (counter : Z) : bytes :=
  concat (le_encode 4 <$> block (initial key nonce counter)).

End ChaChaSpec.

(** The key stream of a seed of forty bytes: a key and a nonce. *)
Definition keystream_block (seed : bytes) (i : nat) : bytes :=
  ChaChaSpec.stream_block (take 32 seed) (drop 32 seed) (u64 (Z.of_nat i)).
Definition keystream (seed : bytes) (blocks : nat) : bytes := concat (keystream_block seed <$> seq 0 blocks).

(** What a thread asked for and what it got. *)
Definition asked_by (tid : Z) (reqs : list (Z * nat)) : nat :=
  foldr (fun r acc => if r.1 =? tid then (r.2 + acc)%nat else acc) 0%nat reqs.
Definition given_to (tid : Z) (outs : list (Z * bytes)) : bytes :=
  concat ((fun o => if o.1 =? tid then o.2 else []) <$> outs).

(** ** The code's block function is the cipher's *)
Section Cipher.
Import ChaCha20.

Lemma rotl32_rot v n : in_width 32 v -> 0 < n < 32 -> rotl32 v n = ChaChaSpec.rot n v /\ in_width 32 (ChaChaSpec.rot n v).
Proof.
  intros Hv Hn. unfold in_width in *. unfold rotl32, ChaChaSpec.rot, wrap.
  rewrite Z.shiftl_mul_pow2, Z.shiftr_div_pow2 by lia.
  assert (2 ^ 32 = 2 ^ n * 2 ^ (32 - n)) as Hp by (rewrite <- Z.pow_add_r by lia; f_equal; lia).
  assert (0 < 2 ^ n /\ 0 < 2 ^ (32 - n)) as [H1 H2] by (split; apply Z.pow_pos_nonneg; lia).
  assert (0 <= v / 2 ^ (32 - n) < 2 ^ n) as Hhi.
  { split; [apply Z.div_pos; lia|]. apply Z.div_lt_upper_bound; lia. }
  assert ((v * 2 ^ n) mod 2 ^ 32 = (v mod 2 ^ (32 - n)) * 2 ^ n) as ->.
  { rewrite Hp, (Z.mul_comm (2 ^ n)). by rewrite Zmult_mod_distr_r. }
  pose proof (Z.mod_pos_bound v (2 ^ (32 - n)) H2) as Hlo. split; [|nia].
  symmetry. apply Z.add_nocarry_lor. apply Z.bits_inj'. intros i Hi. rewrite Z.land_spec, Z.bits_0.
  destruct (Z.lt_ge_cases i n) as [Hin|Hin].
  - rewrite <- Z.shiftl_mul_pow2, Z.shiftl_spec_low by lia. done.
  - assert (v / 2 ^ (32 - n) = (v / 2 ^ (32 - n)) mod 2 ^ n) as -> by (by rewrite Z.mod_small).
    rewrite Z.mod_pow2_bits_high by lia. apply andb_false_r.
Qed.

Lemma lxor_width v w : in_width 32 v -> in_width 32 w -> in_width 32 (Z.lxor v w).
Proof.
  unfold in_width. intros Hv Hw. destruct (Z.eq_dec (Z.lxor v w) 0) as [->|Hne]; [lia|].
  assert (0 <= Z.lxor v w) as H0 by (apply Z.lxor_nonneg; lia). split; [done|].
  apply Z.log2_lt_pow2; [lia|]. pose proof (Z.log2_lxor v w ltac:(lia) ltac:(lia)) as Hl.
  assert (forall x, 0 <= x < 2 ^ 32 -> Z.log2 x < 32) as Hx.
  { intros x Hx. destruct (Z.eq_dec x 0) as [->|]; [done|]. apply Z.log2_lt_pow2; lia. }
  pose proof (Hx v Hv). pose proof (Hx w Hw). lia.
Qed.

Lemma qr_quarter a b c d :
  in_width 32 a -> in_width 32 b -> in_width 32 c -> in_width 32 d ->
  exists a' b' c' d', qr a b c d = (a', b', c', d') /\ ChaChaSpec.quarter a b c d = (a', b', c', d') /\
    in_width 32 a' /\ in_width 32 b' /\ in_width 32 c' /\ in_width 32 d'.
Proof.
  intros Ha Hb Hc Hd. unfold qr, ChaChaSpec.quarter. cbv zeta.
  change (fun x y => u32 (x + y)) with ChaChaSpec.add32.
  repeat match goal with |- context [u32 (?x + ?y)] => change (u32 (x + y)) with (ChaChaSpec.add32 x y) end.
  assert (forall x y, in_width 32 (ChaChaSpec.add32 x y)) as Hadd by (intros; by apply wrap_range).
  assert (forall n x y, in_width 32 x -> in_width 32 y -> 0 < n < 32 ->
    rotl32 (Z.lxor x y) n = ChaChaSpec.rot n (Z.lxor x y) /\ in_width 32 (ChaChaSpec.rot n (Z.lxor x y))) as Hrot
    by (intros; apply rotl32_rot; [by apply lxor_width|done]).
  set (a1 := ChaChaSpec.add32 a b).
  destruct (Hrot 16 d a1) as [-> W1]; [done|apply Hadd|lia|]. set (d1 := ChaChaSpec.rot 16 _) in *. set (c1 := ChaChaSpec.add32 c d1).
  destruct (Hrot 12 b c1) as [-> W2]; [done|apply Hadd|lia|]. set (b1 := ChaChaSpec.rot 12 _) in *. set (a2 := ChaChaSpec.add32 a1 b1).
  destruct (Hrot 8 d1 a2) as [-> W3]; [done|apply Hadd|lia|]. set (d2 := ChaChaSpec.rot 8 _) in *. set (c2 := ChaChaSpec.add32 c1 d2).
  destruct (Hrot 7 b1 c2) as [-> W4]; [done|apply Hadd|lia|].
  do 4 eexists. split; [reflexivity|]. split; [reflexivity|]. split_and!; try done; apply Hadd.
Qed.

(** One quarter round of the code, and the same one of the cipher. *)
Tactic Notation "quarter_step" int_or_var(n) :=
  unfold qr_at at n; cbn [lookup_total list_lookup_total];
  match goal with
  | |- context [qr ?a ?b ?c ?d] =>
      let E1 := fresh "Eq" in let E2 := fresh "Es" in
      destruct (qr_quarter a b c d) as (? & ? & ? & ? & E1 & E2 & ? & ? & ? & ?); [assumption..|];
      rewrite E1; clear E1; cbn [insert list_insert]
  end.

Lemma round_spec x :
  length x = 16%nat -> Forall (in_width 32) x ->
  ChaChaSpec.rows (round x) = ChaChaSpec.diagonal_round (ChaChaSpec.column_round (ChaChaSpec.rows x)) /\
  Forall (in_width 32) (round x).
Proof.
  intros Hl Hf. do 16 (destruct x as [|? x]; [discriminate Hl|]). destruct x; [clear Hl|discriminate Hl].
  repeat match goal with H : Forall _ (_ :: _) |- _ => apply Forall_cons in H as [? H] end.
  remember (round _) as y eqn:Ey. revert Ey. unfold round. cbv zeta. quarter_step 8. quarter_step 7. quarter_step 6. quarter_step 5.
  quarter_step 4. quarter_step 3. quarter_step 2. quarter_step 1. intros ->.
  split; [|repeat (apply Forall_cons_2; [assumption|]); apply Forall_nil_2].
  unfold ChaChaSpec.rows, ChaChaSpec.diagonal_round, ChaChaSpec.column_round, ChaChaSpec.turn.
  cbn [take drop app fmap list_fmap lookup_total list_lookup_total].
  repeat match goal with E : ChaChaSpec.quarter _ _ _ _ = _ |- _ => rewrite !E; cbn [fst snd]; clear E end.
  reflexivity.
Qed.

Lemma length_qr_at i j k l x : length (qr_at i j k l x) = length x.
Proof. unfold qr_at. destruct (qr _ _ _ _) as [[[? ?] ?] ?]. by rewrite !length_insert. Qed.

Lemma length_round x : length (round x) = length x.
Proof. unfold round. cbv zeta. by rewrite !length_qr_at. Qed.

Lemma flat_rows x : length x = 16%nat -> ChaChaSpec.flat (ChaChaSpec.rows x) = x.
Proof. intros Hl. do 16 (destruct x as [|? x]; [discriminate Hl|]). by destruct x. Qed.

Lemma block_spec x : length x = 16%nat -> Forall (in_width 32) x -> chacha20Block x = ChaChaSpec.block x.
Proof.
  intros Hl Hf. unfold chacha20Block, ChaChaSpec.block.
  assert (forall n, length (Nat.iter n round x) = 16%nat /\ Forall (in_width 32) (Nat.iter n round x) /\
    ChaChaSpec.rows (Nat.iter n round x) =
      Nat.iter n (fun m => ChaChaSpec.diagonal_round (ChaChaSpec.column_round m)) (ChaChaSpec.rows x)) as H.
  { intros n. induction n as [|n (IH1 & IH2 & IH3)]; [done|]. rewrite !Nat.iter_succ, length_round.
    destruct (round_spec _ IH1 IH2) as [H1 H2]. split; [done|]. split; [done|]. by rewrite H1, IH3. }
  destruct (H 10%nat) as (H1 & _ & <-). rewrite flat_rows by done. done.
Qed.

(** The test vector of RFC 8439, section 2.3.2. *)
Lemma rfc8439_block :
  ChaChaSpec.block
    [0x61707865; 0x3320646e; 0x79622d32; 0x6b206574; 0x03020100; 0x07060504; 0x0b0a0908; 0x0f0e0d0c;
     0x13121110; 0x17161514; 0x1b1a1918; 0x1f1e1d1c; 0x00000001; 0x09000000; 0x4a000000; 0x00000000]
  = [0xe4e7f110; 0x15593bd1; 0x1fdd0f50; 0xc47120a3; 0xc7f4d1c7; 0x0368c033; 0x9aaa2204; 0x4e6cd4c3;
     0x466482d2; 0x09aa9f07; 0x05d7c214; 0xa2028bd9; 0xd19c12b5; 0xb94e16de; 0xe883d0cb; 0x4e3c50a2].
Proof. vm_compute. reflexivity. Qed.

End Cipher.

(** ** Lemmas *)
Section Stream.
Import ChaCha20.

Lemma length_chacha20Block inp : length (chacha20Block inp) = length inp.
Proof.
  unfold chacha20Block. rewrite length_zip_with.
  assert (forall m, length (Nat.iter m round inp) = length inp) as ->; [|lia].
  intros m. induction m as [|m IH]; [done|]. rewrite Nat.iter_succ. by rewrite length_round.
Qed.

Lemma length_word_bytes ws : length (word_bytes ws) = (4 * length ws)%nat.
Proof.
  unfold word_bytes. induction ws as [|w ws IH]; [done|].
  cbn [fmap list_fmap concat]. rewrite length_app, length_le_encode, IH. simpl. lia.
Qed.

Lemma length_words n bs : length (words n bs) = n.
Proof. unfold words. by rewrite length_fmap, length_seq. Qed.

Lemma length_spec_block ws : length ws = 16%nat -> length (ChaChaSpec.block ws) = 16%nat.
Proof.
  intros Hw. unfold ChaChaSpec.block. rewrite length_zip_with, Hw.
  enough (forall m, length (ChaChaSpec.flat (ChaChaSpec.diagonal_round m)) = 16%nat) as H by (rewrite Nat.iter_succ, H; done).
  intros [[[a b] c] d]. reflexivity.
Qed.

Lemma length_keystream_block seed i : length (keystream_block seed i) = 64%nat.
Proof.
  assert (forall ws, length ws = 16%nat -> length (concat (le_encode 4 <$> ws)) = 64%nat) as H.
  { intros ws Hw. pose proof (length_word_bytes ws) as E. unfold word_bytes in E. by rewrite E, Hw. }
  unfold keystream_block, ChaChaSpec.stream_block. apply H, length_spec_block.
  unfold ChaChaSpec.initial. by rewrite length_fmap, length_seq.
Qed.

(** The words of two byte strings, one after the other. *)
Lemma words_app m n x y : length x = (4 * m)%nat -> words (m + n) (x ++ y) = words m x ++ words n y.
Proof.
  intros Hx. unfold words. rewrite seq_app, fmap_app. f_equal.
  - apply list_fmap_ext. intros i j Hj%lookup_seq. rewrite field_app_l by lia. done.
  - replace (seq (0 + m) n) with (Nat.add m <$> seq 0 n) by (rewrite fmap_add_seq; f_equal; lia).
    rewrite <- list_fmap_compose. apply list_fmap_ext. intros i j Hj. cbn [compose].
    rewrite field_app_r by lia. f_equal. lia.
Qed.

(** The two words of a 64-bit counter. *)
Lemma counter_words i : in_width 64 i -> words 2 (le_encode 8 i) = [u32 i; Z.shiftr i 32].
Proof.
  intros Hi. unfold in_width in Hi. rewrite Z.shiftr_div_pow2 by lia.
  assert (le_encode 8 i = le_encode 4 (u32 i) ++ le_encode 4 (i / 2 ^ 32)) as ->.
  { unfold wrap. cbn [le_encode app]. rewrite !Z.div_div by lia. do 3 (f_equal; [dm_lia|]).
    f_equal. change (256 * 256 * 256) with (2 ^ 24). rewrite (Z.div_mod i (2 ^ 32)) at 1 by lia.
    replace (2 ^ 32 * (i / 2 ^ 32) + i mod 2 ^ 32) with (i mod 2 ^ 32 + (256 * (i / 2 ^ 32)) * 2 ^ 24) by lia.
    rewrite Z.div_add by lia. rewrite (Z.mul_comm 256). apply Z_mod_plus_full. }
  assert (forall x, words 2 x = [field x 0 4; field x 4 4]) as -> by done.
  pose proof (field_le_encode [] (le_encode 4 (i / 2 ^ 32)) 4 (u32 i)) as F1.
  pose proof (field_le_encode (le_encode 4 (u32 i)) [] 4 (i / 2 ^ 32)) as F2.
  rewrite length_le_encode, app_nil_r in F2. cbn [app length] in F1.
  rewrite F1, F2; [done|dm_lia|]. unfold wrap. apply Z.mod_pos_bound. lia.
Qed.

(** The state of the generator is the initial state of the cipher. *)
Lemma state_words_spec seed i :
  length seed = 40%nat -> Forall is_byte seed -> in_width 64 i ->
  state_words (words 8 seed) (words 2 (drop 32 seed)) i = ChaChaSpec.initial (take 32 seed) (drop 32 seed) i /\
  Forall (in_width 32) (ChaChaSpec.initial (take 32 seed) (drop 32 seed) i).
Proof.
  intros Hl Hb Hi. split.
  - unfold ChaChaSpec.initial. fold (words 16 (cstr "expand 32-byte k" ++ take 32 seed ++ le_encode 8 i ++ drop 32 seed)).
    assert (forall x, words 16 x = words (4 + (8 + (2 + 2))) x) as -> by done. rewrite words_app by done.
    rewrite words_app by (rewrite length_take; lia). rewrite words_app by (by rewrite length_le_encode).
    assert (words 4 (cstr "expand 32-byte k") = [0x61707865; 0x3320646e; 0x79622d32; 0x6b206574]) as -> by (vm_compute; reflexivity).
    assert (words 8 (take 32 seed) = words 8 seed) as ->.
    { rewrite <- (take_drop 32 seed) at 2. rewrite <- (app_nil_r (words 8 (take 32 seed))).
      rewrite (words_app 8 0); [done|rewrite length_take; lia]. }
    by rewrite counter_words.
  - unfold ChaChaSpec.initial. apply Forall_fmap, Forall_forall. intros k _. apply (field_in_width _ _ 4).
    repeat (apply Forall_app; split); [apply forallb_is_byte; vm_compute; reflexivity|by apply Forall_take|
      apply le_encode_bytes|by apply Forall_drop].
Qed.

Lemma refill_block seed i :
  length seed = 40%nat -> Forall is_byte seed ->
  word_bytes (chacha20Block (state_words (words 8 seed) (words 2 (drop 32 seed)) (u64 (Z.of_nat i)))) = keystream_block seed i.
Proof.
  intros Hl Hb. destruct (state_words_spec seed (u64 (Z.of_nat i)) Hl Hb) as [-> Hw]; [by apply wrap_range|].
  rewrite block_spec; [|unfold ChaChaSpec.initial; by rewrite length_fmap|exact Hw].
  unfold word_bytes, keystream_block, ChaChaSpec.stream_block. reflexivity.
Qed.

Lemma length_keystream_from seed a k : length (concat (keystream_block seed <$> seq a k)) = (64 * k)%nat.
Proof.
  revert a. induction k as [|k IH]; intros a; [done|].
  cbn [seq fmap list_fmap concat]. rewrite length_app, length_keystream_block, IH. lia.
Qed.

Lemma length_keystream seed k : length (keystream seed k) = (64 * k)%nat.
Proof.
  apply length_keystream_from.
Qed.

#[local] Opaque keystream_block.

(** The generator runs on [seed] and has taken [j] blocks. *)
Record follows (seed : bytes) (j : nat) (d : t) : Prop := mkFollows {
  fo_key : key d = words 8 seed;
  fo_nonce : nonce d = words 2 (drop 32 seed);
  fo_counter : counter d = u64 (Z.of_nat j);
  fo_buf : length (buf d) = 64%nat;
  fo_pos : (bufPos d <= 64)%nat;
  fo_seeded : seeded d = true;
  fo_seed : length seed = 40%nat /\ Forall is_byte seed
}.

(** The bytes to come: what is left of the buffer and [k] further blocks. *)
Definition upcoming (seed : bytes) (j : nat) (d : t) (k : nat) : bytes :=
  drop (bufPos d) (buf d) ++ concat (keystream_block seed <$> seq j k).

Lemma refill_follows seed j d :
  follows seed j d -> bufPos d = 64%nat ->
  follows seed (S j) (refill d) /\ forall k, upcoming seed (S j) (refill d) k = upcoming seed j d (S k).
Proof.
  intros [Hk Hn Hc Hb Hp Hs [Hl Hy]] Hpos.
  assert (buf (refill d) = keystream_block seed j) as Hbuf
    by (rewrite <- refill_block by done; unfold refill; cbn [buf]; by rewrite Hk, Hn, Hc).
  split.
  - constructor; [exact Hk|exact Hn| |by rewrite Hbuf, length_keystream_block|cbn [bufPos refill]; lia|exact Hs|exact (conj Hl Hy)].
    cbn [counter refill]. rewrite Hc. unfold wrap. rewrite Zplus_mod_idemp_l. f_equal. lia.
  - intros k. unfold upcoming. rewrite Hbuf, Hpos. change (bufPos (refill d)) with 0%nat.
    change (keystream_block seed <$> seq j (S k)) with (keystream_block seed j :: (keystream_block seed <$> seq (S j) k)).
    cbn [concat]. rewrite drop_0.
    rewrite (drop_ge (buf d)) by lia. by rewrite app_nil_l.
Qed.

Lemma copy_some_spec seed j d n d' out m :
  follows seed j d -> (0 < n)%nat -> copy_some n d = (d', out, m) ->
  exists j', (j <= j')%nat /\ follows seed j' d' /\ length out = m /\ (0 < m <= n)%nat /\
    produced d' = u64 (produced d + Z.of_nat m) /\
    forall k, out ++ upcoming seed j' d' k = upcoming seed j d (j' - j + k).
Proof.
  intros Hf Hn.
  assert (exists j' d1, (j <= j')%nat /\ (if (64 <=? bufPos d)%nat then refill d else d) = d1 /\ follows seed j' d1 /\
    (bufPos d1 < 64)%nat /\ produced d1 = produced d /\
    forall k, upcoming seed j' d1 k = upcoming seed j d (j' - j + k)) as (j' & d1 & Hj & Hd1 & Hf1 & Hp1 & Hpr & Hu).
  { pose proof (fo_pos _ _ _ Hf) as Hp. destruct (64 <=? bufPos d)%nat eqn:E.
    - destruct (refill_follows seed j d Hf) as [H1 H2]; [lia|].
      exists (S j), (refill d). split_and!; try done; [lia|simpl; lia|].
      intros k. rewrite H2. f_equal. lia.
    - exists j, d. split_and!; try done; [lia|]. intros k. f_equal. lia. }
  unfold copy_some. rewrite Hd1. cbv zeta. set (m1 := if (n <? _)%nat then _ else _). intros [= <- <- <-].
  assert (0 < m1 <= n /\ bufPos d1 + m1 <= 64)%nat as [Hm Hle] by (unfold m1; destruct (n <? _)%nat eqn:E; lia).
  destruct Hf1 as [Hk Hno Hc Hb Hp Hs Hse].
  exists j'. split; [done|]. split; [by constructor; cbn|]. split.
  { rewrite length_take, length_drop. lia. }
  split; [done|]. split; [cbn [produced]; by rewrite Hpr|].
  intros k. rewrite <- Hu. unfold upcoming. cbn [bufPos buf].
  rewrite app_assoc. f_equal. by rewrite <- drop_drop, take_drop.
Qed.

Lemma fill_loop_spec seed fuel : forall j d n d' out,
  follows seed j d -> (n <= fuel)%nat -> fill_loop fuel n d = (d', out) ->
  0 <= produced d -> produced d + Z.of_nat n < 2 ^ 64 ->
  exists j', (j <= j')%nat /\ follows seed j' d' /\ length out = n /\ produced d' = produced d + Z.of_nat n /\
    forall k, out ++ upcoming seed j' d' k = upcoming seed j d (j' - j + k).
Proof.
  induction fuel as [|fuel IH]; intros j d n d' out Hf Hn; cbn [fill_loop].
  - intros [= <- <-] ? ?. exists j. split_and!; try done; try (simpl; lia). intros k. simpl. f_equal. lia.
  - destruct (n =? 0)%nat eqn:E0.
    { intros [= <- <-] ? ?. exists j. split_and!; try done; try (simpl; lia). intros k. simpl. f_equal. lia. }
    destruct (copy_some n d) as [[d1 out1] m] eqn:E1.
    destruct (fill_loop fuel (n - m) d1) as [d2 out2] eqn:E2. intros [= <- <-] Hp Hb.
    destruct (copy_some_spec seed j d n d1 out1 m Hf) as (j1 & Hj1 & Hf1 & Hl1 & Hm & Hpr1 & Hu1); [lia|done|].
    rewrite (wrap_id 64) in Hpr1 by (unfold in_width; lia).
    destruct (IH j1 d1 (n - m)%nat d2 out2) as (j2 & Hj2 & Hf2 & Hl2 & Hpr2 & Hu2); try done; try lia.
    exists j2. split_and!; [lia|done|rewrite length_app; lia|lia|].
    intros k. rewrite <- app_assoc, Hu2, Hu1. f_equal. lia.
Qed.

Lemma reseed_follows seed d :
  length seed = 40%nat -> Forall is_byte seed -> length (buf d) = 64%nat ->
  reseedFromKernel seed d = (mk (words 8 seed) (words 2 (drop 32 seed)) 0 (buf d) 64 0 true, true) /\
  follows seed 0 (fst (reseedFromKernel seed d)).
Proof. intros Hl Hy Hb. unfold reseedFromKernel. rewrite Hl. split; [done|]. constructor; simpl; try done; lia. Qed.

End Stream.

(** ** Threads *)
Section Threads.
Context (getrandom : nat -> bytes) 
  (Hkernel : forall i, length (getrandom i) = 40%nat /\ Forall is_byte (getrandom i)).

Lemma keystream_take seed n a b :
  (n <= 64 * a)%nat -> (a <= b)%nat -> take n (keystream seed b) = take n (keystream seed a).
Proof.
  intros Hn Hab. assert (b = a + (b - a))%nat as -> by lia.
  unfold keystream. rewrite seq_app, fmap_app, concat_app.
  apply take_app_le. fold (keystream seed a). by rewrite length_keystream.
Qed.

(** [G t] is what thread [t] got so far, [owner t] the kernel call that seeded
    it. *)
Record inv (s : RandomState) (G : Z -> bytes) (owner : Z -> nat) : Prop := mkInv {
  inv_none t : drbgs s !! t = None -> G t = [];
  inv_some t d : drbgs s !! t = Some d ->
    (owner t < kernel_calls s)%nat /\ produced d = Z.of_nat (length (G t)) /\
    exists j, follows (getrandom (owner t)) j d /\
      forall k, G t ++ upcoming (getrandom (owner t)) j d k = keystream (getrandom (owner t)) (j + k);
  inv_owner t t' : is_Some (drbgs s !! t) -> is_Some (drbgs s !! t') -> owner t = owner t' -> t = t'
}.

(** A request within the limit, by a thread that has a seed or takes one. *)
Lemma fill_within tid n s G owner s' out :
  inv s G owner -> Z.of_nat (length (G tid)) + Z.of_nat n <= kReseedLimit ->
  fillBytes getrandom tid n s = (s', out) ->
  exists owner', length out = n /\ is_Some (drbgs s' !! tid) /\
    (forall t, is_Some (drbgs s !! t) -> is_Some (drbgs s' !! t)) /\
    inv s' (fun t => if t =? tid then G t ++ out else G t) owner'.
Proof.
  intros [Hnone Hsome Hown] Hlim Hfill.
  assert (exists owner' d calls j, ensure_seeded getrandom (kernel_calls s) (drbg s tid) = (d, calls, true) /\
    (kernel_calls s <= calls)%nat /\ (owner' tid < calls)%nat /\ produced d = Z.of_nat (length (G tid)) /\
    (forall t, is_Some (drbgs s !! t) -> owner' t = owner t) /\
    (drbgs s !! tid = None -> owner' tid = kernel_calls s) /\
    follows (getrandom (owner' tid)) j d /\
    forall k, G tid ++ upcoming (getrandom (owner' tid)) j d k = keystream (getrandom (owner' tid)) (j + k))
    as (owner' & d & calls & j & Hens & Hcalls & Hot & Hpr & Hsame & Hnew & Hf & Hu).
  { unfold ensure_seeded, drbg. destruct (drbgs s !! tid) as [d|] eqn:Ed.
    - change (default fresh (Some d)) with d. destruct (Hsome tid d Ed) as (Ho & Hp & j & Hf & Hu). rewrite (fo_seeded _ _ _ Hf).
      exists owner, d, (kernel_calls s), j. by split_and!.
    - change (default fresh None) with fresh. destruct (reseed_follows (getrandom (kernel_calls s)) fresh (proj1 (Hkernel _)) (proj2 (Hkernel _)) eq_refl) as [Er Hf].
      cbn [seeded fresh]. rewrite Er in Hf |- *.
      exists (fun t => if t =? tid then kernel_calls s else owner t). eexists _, _, 0%nat.
      rewrite Z.eqb_refl, (Hnone tid Ed). split_and!; try done; [lia|lia|].
      intros t [x Ht]. destruct (t =? tid) eqn:E; [|done]. apply Z.eqb_eq in E as ->. congruence. }
  unfold fillBytes in Hfill. rewrite Hens in Hfill. cbn [negb] in Hfill.
  unfold kReseedLimit in Hlim. change (Z.shiftl 1 20) with (2 ^ 20) in Hlim.
  rewrite (proj2 (Z.ltb_ge _ _)) in Hfill; [|unfold kReseedLimit; rewrite Hpr, (wrap_id 64); [done|unfold in_width; lia]].
  destruct (fill_loop n n d) as [d' out'] eqn:El. injection Hfill as <- <-.
  destruct (fill_loop_spec _ n j d n d' out' Hf ltac:(lia) El) as (j' & Hj & Hf' & Hl & Hp' & Hu'); [lia|lia|].
  exists owner'. split; [done|]. cbn [drbgs set_drbg]. split; [by rewrite lookup_insert_eq|].
  split; [intros t Ht; destruct (decide (t = tid)) as [->|]; [by rewrite lookup_insert_eq|by rewrite lookup_insert_ne]|].
  split.
  - intros t. cbn [drbgs set_drbg]. rewrite lookup_insert_None. intros [Ht Hne].
    rewrite (proj2 (Z.eqb_neq _ _)) by congruence. by apply Hnone.
  - intros t x. cbn [drbgs set_drbg kernel_calls]. rewrite lookup_insert_Some. intros [[<- <-]|[Hne Ht]].
    + rewrite Z.eqb_refl. split; [done|]. split; [rewrite length_app; lia|]. exists j'. split; [done|].
      intros k. rewrite <- app_assoc, Hu', Hu. f_equal. lia.
    + rewrite (proj2 (Z.eqb_neq _ _)) by congruence. rewrite Hsame by done.
      destruct (Hsome t x Ht) as (Ho & Hrest). split; [lia|done].
  - intros t t'. cbn [drbgs set_drbg]. intros H1 H2 He.
    assert (forall u, u <> tid -> is_Some (drbgs s !! u) -> owner' u = owner' tid -> False) as Hcl.
    { intros u Hu1 Hu2. destruct (drbgs s !! tid) as [y|] eqn:Ed.
      - rewrite !Hsame by done. intros Ho. apply Hu1. by apply Hown.
      - rewrite Hnew, Hsame by done. destruct Hu2 as [z Hz]. destruct (Hsome u z Hz) as (Ho & _). lia. }
    destruct (decide (t = tid)) as [->|Hn1]; destruct (decide (t' = tid)) as [->|Hn2]; try done.
    + rewrite lookup_insert_ne in H2 by done. exfalso. by apply (Hcl t').
    + rewrite lookup_insert_ne in H1 by done. exfalso. by apply (Hcl t).
    + rewrite lookup_insert_ne in H1, H2 by done. rewrite !Hsame in He by done. by apply Hown.
Qed.

Lemma inv_ext s G G' owner : (forall t, G t = G' t) -> inv s G owner -> inv s G' owner.
Proof.
  intros He [Hn Hs Ho]. constructor; [|intros t d Hd; rewrite <- !He; by apply Hs|exact Ho].
  intros t Ht. rewrite <- He. by apply Hn.
Qed.

Lemma requests_inv reqs : forall s G owner s' outs,
  inv s G owner -> (forall t, Z.of_nat (length (G t)) + Z.of_nat (asked_by t reqs) <= kReseedLimit) ->
  requests getrandom reqs s = (s', outs) ->
  exists owner', inv s' (fun t => G t ++ given_to t outs) owner' /\
    (forall t, length (given_to t outs) = asked_by t reqs) /\
    forall t, t ∈ reqs.*1 \/ is_Some (drbgs s !! t) -> is_Some (drbgs s' !! t).
Proof.
  induction reqs as [|[tid n] rest IH]; intros s G owner s' outs Hinv Hlim; cbn [requests].
  - intros [= <- <-]. exists owner. split_and!; [|done|by intros t [Ht%elem_of_nil|]].
    eapply inv_ext; [|exact Hinv]. intros t. by rewrite app_nil_r.
  - destruct (fillBytes getrandom tid n s) as [s1 out] eqn:E1.
    destruct (requests getrandom rest s1) as [s2 outs2] eqn:E2. intros [= <- <-].
    destruct (fill_within tid n s G owner s1 out Hinv) as (owner1 & Hl & Ht & Hk & Hinv1); [|done|].
    { specialize (Hlim tid). cbn [asked_by foldr fst snd] in Hlim. rewrite Z.eqb_refl in Hlim. lia. }
    destruct (IH s1 _ owner1 s2 outs2 Hinv1) as (owner2 & Hinv2 & Hlen & Hdom); [|done|].
    { intros t. specialize (Hlim t). cbn [asked_by foldr fst snd] in Hlim. fold (asked_by t rest) in Hlim.
      rewrite (Z.eqb_sym tid t) in Hlim.
      destruct (t =? tid) eqn:E; [|done]. rewrite length_app. lia. }
    exists owner2. split_and!.
    + eapply inv_ext; [|exact Hinv2]. intros t. cbv beta. unfold given_to. cbn [fmap list_fmap concat fst snd].
      rewrite (Z.eqb_sym tid t). by destruct (t =? tid); [rewrite app_assoc|].
    + intros t. unfold given_to. cbn [fmap list_fmap concat fst snd asked_by foldr]. rewrite length_app.
      fold (given_to t outs2) (asked_by t rest). rewrite Hlen. by destruct (tid =? t); [rewrite Hl|].
    + intros t [Hin|Hin]; apply Hdom; [|right; by apply Hk].
      apply elem_of_cons in Hin as [->|Hin]; [by right|by left].
Qed.

Lemma random_start_inv : inv random_start (fun _ => []) (fun _ => 0%nat).
Proof. constructor; [done|done|by intros t t' [x Hx]]. Qed.

(** C18: every thread reads a key stream of its own.  However the requests of
    the threads are interleaved, as long as getrandom never fails (each call
    answers forty bytes) and no thread asks for more than 2^20 bytes in all, the
    bytes a thread got, put together, are the first bytes of the ChaCha20 key
    stream - the cipher of RFC 8439 by its definition on the matrix, with the
    64-bit counter and nonce - of the answer to one kernel call, as many as it
    asked for, and no two threads read from the same kernel call. *)
Theorem threads_read_keystreams reqs s' outs :
  (forall t, Z.of_nat (asked_by t reqs) <= kReseedLimit) ->
  requests getrandom reqs random_start = (s', outs) ->
  exists owner : Z -> nat,
    (forall t t', t ∈ reqs.*1 -> t' ∈ reqs.*1 -> owner t = owner t' -> t = t') /\
    forall t, t ∈ reqs.*1 ->
      (owner t < kernel_calls s')%nat /\
      given_to t outs = take (asked_by t reqs) (keystream (getrandom (owner t)) (asked_by t reqs)).
Proof.
  intros Hlim Hr. destruct (requests_inv reqs _ _ _ _ _ random_start_inv Hlim Hr) as (owner & [_ Hs Ho] & Hl & Hd).
  exists owner. split; [intros t t' Ht Ht' He; apply Ho; auto|].
  intros t Ht. destruct (Hd t (or_introl Ht)) as [d Hdt].
  destruct (Hs t d Hdt) as (Hot & _ & j & Hf & Hu). split; [done|].
  specialize (Hu (asked_by t reqs)). simpl in Hu.
  rewrite <- (keystream_take _ _ _ (j + asked_by t reqs)) by lia. rewrite <- Hu, <- (Hl t).
  by rewrite take_app_length.
Qed.

End Threads.

(** ** The other branches *)
Section Properties.
Import ChaCha20.

Lemma fill_loop_prefix seed j n d d' out :
  follows seed j d -> 0 <= produced d -> produced d + Z.of_nat n < 2 ^ 64 -> fill_loop n n d = (d', out) ->
  length out = n /\ out = take n (upcoming seed j d n) /\ produced d' = produced d + Z.of_nat n.
Proof.
  intros Hf Hp Hb El.
  destruct (fill_loop_spec seed n j d n d' out Hf (le_n n) El Hp Hb) as (j2 & Hj & Hf2 & Hl & Hp2 & Hu).
  split_and!; [done| |done]. specialize (Hu n).
  assert (take n (upcoming seed j d (j2 - j + n)) = out) as Ho.
  { rewrite <- Hu. rewrite <- Hl at 1. by rewrite take_app_length. }
  rewrite <- Ho. unfold upcoming. rewrite Nat.add_comm, seq_app, fmap_app, concat_app, app_assoc.
  apply take_app_le. rewrite length_app, length_keystream_from. lia.
Qed.

(** Past 2^20 bytes a thread takes a new seed before the request is
    served, and only then: a request is never split, so one larger than the
    limit is served from one seed; a kernel that fails at that moment leaves the
    old stream going, without an error. *)
Theorem reseed_before_request getrandom tid n s d seed j :
  drbgs s !! tid = Some d -> follows seed j d -> 0 <= produced d ->
  kReseedLimit < produced d + Z.of_nat n < 2 ^ 64 -> Forall is_byte (getrandom (kernel_calls s)) ->
  let k := kernel_calls s in
  exists d' out, fillBytes getrandom tid n s = (set_drbg tid d' (S k) s, out) /\ length out = n /\
    (if (length (getrandom k) =? 40)%nat
     then out = take n (keystream (getrandom k) n) /\ produced d' = Z.of_nat n
     else out = take n (upcoming seed j d n) /\ produced d' = produced d + Z.of_nat n).
Proof.
  intros Hd Hf Hp Hlim Hy k. unfold fillBytes, ensure_seeded, drbg. rewrite Hd. change (default fresh (Some d)) with d.
  rewrite (fo_seeded _ _ _ Hf). cbn [negb].
  rewrite (wrap_id 64) by (unfold in_width, kReseedLimit in *; lia).
  rewrite (proj2 (Z.ltb_lt _ _)) by lia. fold k.
  destruct (length (getrandom k) =? 40)%nat eqn:E.
  - apply Nat.eqb_eq in E. destruct (reseed_follows _ d E Hy (fo_buf _ _ _ Hf)) as [Er Hf1].
    rewrite Er in Hf1 |- *. cbn [fst] in *.
    destruct (fill_loop n n _) as [d' out] eqn:El. exists d', out. split; [done|].
    destruct (fill_loop_prefix _ _ n _ d' out Hf1) as (Hl & Ho & Hp'); [done|cbn [produced]; lia|exact El|]. split; [done|].
    split; [|exact Hp']. rewrite Ho. unfold upcoming. cbn [bufPos buf]. rewrite drop_ge by (rewrite (fo_buf _ _ _ Hf); lia).
    by rewrite app_nil_l.
  - unfold reseedFromKernel. rewrite E. cbn [negb fst].
    destruct (fill_loop n n d) as [d' out] eqn:El. exists d', out. split; [done|].
    apply (fill_loop_prefix _ _ n _ d' out Hf Hp); [lia|exact El].
Qed.

(** [sceRandomGetRandomFloat] is not always below one.  It is the drawn
    32-bit number rounded to 24 bits and divided by 2^32, and it is exactly 1
    when the number is one of the last 128. *)
Theorem float_reaches_one v : in_width 32 v -> to_float v <= 2 ^ 32 /\ (to_float v = 2 ^ 32 <-> 2 ^ 32 - 128 <= v).
Proof.
  intros Hv. unfold in_width in Hv. unfold to_float. destruct (v <? 2 ^ 24) eqn:E; [lia|].
  assert (24 <= Z.log2 v < 32) as Hlog.
  { split; [apply Z.log2_le_pow2; lia|apply Z.log2_lt_pow2; lia]. }
  pose proof (Z.log2_spec v ltac:(lia)) as [Hlo Hhi].
  cbv zeta. set (sh := Z.log2 v - 23). set (q := v / 2 ^ sh). set (r := v mod 2 ^ sh).
  set (up := (2 ^ (sh - 1) <? r) || ((r =? 2 ^ (sh - 1)) && Z.odd q)).
  assert (0 <= q < 2 ^ 24) as Hq.
  { split; [apply Z.div_pos; lia|]. apply Z.div_lt_upper_bound; [lia|].
    rewrite <- Z.pow_add_r by lia. replace (sh + 24) with (Z.succ (Z.log2 v)) by lia. exact Hhi. }
  destruct (Z.eq_dec (Z.log2 v) 31) as [Hl|Hl].
  - assert (sh = 8) as Hsh by lia. subst q r up. rewrite Hsh in *. change (2 ^ 8) with 256 in *. change (2 ^ (8 - 1)) with 128 in *.
    destruct (Z.eq_dec (v / 256) (2 ^ 24 - 1)) as [Ht|Ht]; [rewrite Ht; change (Z.odd (2 ^ 24 - 1)) with true|];
      destruct (_ || _) eqn:Eu; dm_lia.
  - assert (2 ^ sh <= 2 ^ 7) by (apply Z.pow_le_mono_r; lia).
    assert (2 ^ Z.succ (Z.log2 v) <= 2 ^ 31) by (apply Z.pow_le_mono_r; lia).
    assert ((if up then q + 1 else q) * 2 ^ sh <= 2 ^ 24 * 2 ^ 7) by (apply Z.mul_le_mono_nonneg; destruct up; lia).
    lia.
Qed.

Lemma float_reaches_one_witness : to_float (2 ^ 32 - 1) = 2 ^ 32.
Proof. apply (float_reaches_one (2 ^ 32 - 1)); [unfold in_width; lia|lia]. Defined.

(** A kernel that answers the number of the call as a byte, forty times. *)
Definition demo_kernel (i : nat) : bytes := replicate 40 (Z.of_nat i mod 256).
Lemma demo_kernel_bytes i : length (demo_kernel i) = 40%nat /\ Forall is_byte (demo_kernel i).
Proof.
  split; [done|]. apply Forall_replicate. pose proof (Z.mod_pos_bound (Z.of_nat i) 256). unfold is_byte. lia.
Qed.

Lemma threads_read_keystreams_witness :
  exists owner : Z -> nat,
    given_to 7 (snd (requests demo_kernel [(7, 5%nat); (8, 3%nat); (7, 70%nat)] random_start))
    = take 75 (keystream (demo_kernel (owner 7)) 75) /\ owner 7 <> owner 8.
Proof.
  destruct (requests demo_kernel [(7, 5%nat); (8, 3%nat); (7, 70%nat)] random_start) as [s' outs] eqn:E.
  destruct (threads_read_keystreams demo_kernel demo_kernel_bytes [(7, 5%nat); (8, 3%nat); (7, 70%nat)] s' outs)
    as (owner & Hinj & Hout); [|exact E|].
  - intros t. cbn [asked_by foldr fst snd]. unfold kReseedLimit. change (Z.shiftl 1 20) with (2 ^ 20).
    destruct (7 =? t), (8 =? t); lia.
  - exists owner. split; [apply (Hout 7)|intros He; specialize (Hinj 7 8)];
      [apply elem_of_cons; by left|].
    assert (7 = 8) as Hn; [|discriminate Hn]. apply Hinj; [apply elem_of_cons; by left| |exact He].
    apply elem_of_cons; right; apply elem_of_cons; by left.
Defined.

Lemma reseed_before_request_witness :
  exists d' out, fillBytes demo_kernel 7 (Z.to_nat 11)
    (mkRandom {[7 := mk (words 8 (demo_kernel 0)) (words 2 (demo_kernel 0)) 0 (replicate 64 0) 64 (2 ^ 20 - 10) true]} 1 false)
    = (d', out) /\ out = take (Z.to_nat 11) (keystream (demo_kernel 1) (Z.to_nat 11)).
Proof.
  set (d := mk _ _ _ _ _ _ _). set (s := mkRandom _ _ _).
  destruct (reseed_before_request demo_kernel 7 (Z.to_nat 11) s d (demo_kernel 0) 0) as (d' & out & Hf & _ & Ho & _).
  - reflexivity.
  - constructor; [reflexivity..|simpl; lia|simpl; lia|reflexivity|exact (demo_kernel_bytes 0)].
  - simpl. lia.
  - apply (bool_decide_unpack _). vm_compute. exact I.
  - exact (proj2 (demo_kernel_bytes 1)).
  - do 2 eexists. split; [exact Hf|exact Ho].
Defined.

End Properties.
