(* ===== verification/Rtc.v ===== *)
(** * Real-time clock

    [sce/rtc/SceRtc.cpp]: ticks are microseconds since the year 1, a date is a
    structure of binary-coded decimals.  [gmtime_r] and [timegm] of the C
    library are written out in [Calendar], over the proleptic Gregorian
    calendar. *)
From S2P Require Import Prelude.

(** ** The calendar of the C library *)
Module Calendar.

Definition is_leap (y : Z) : bool := (y mod 4 =? 0) && (negb (y mod 100 =? 0) || (y mod 400 =? 0)).

Definition days_in_month (y m : Z) : Z :=
  if m =? 2 then (if is_leap y then 29 else 28)
  else if (m =? 4) || (m =? 6) || (m =? 9) || (m =? 11) then 30 else 31.

(** Days since 1970-01-01 of a date; the year is counted from March and split
    into eras of 400 years. *)
Definition days_from_civil (y m d : Z) : Z :=
  let y' := if m <=? 2 then y - 1 else y in
  let yoe := y' mod 400 in
  let mp := if 2 <? m then m - 3 else m + 9 in
  let doy := (153 * mp + 2) / 5 + d - 1 in
  y' / 400 * 146097 + (yoe * 365 + yoe / 4 - yoe / 100 + doy) - 719468.

Definition civil_from_days (z0 : Z) : Z * Z * Z :=
  let z := z0 + 719468 in
  let doe := z mod 146097 in
  let yoe := (doe - doe / 1460 + doe / 36524 - doe / 146096) / 365 in
  let doy := doe - (365 * yoe + yoe / 4 - yoe / 100) in
  let mp := (5 * doy + 2) / 153 in
  let d := doy - (153 * mp + 2) / 5 + 1 in
  let m := if mp <? 10 then mp + 3 else mp - 9 in
  ((if m <=? 2 then yoe + z / 146097 * 400 + 1 else yoe + z / 146097 * 400), m, d).

Record tm := mkTm { tm_sec : Z; tm_min : Z; tm_hour : Z; tm_mday : Z; tm_mon : Z; tm_year : Z }.

Definition gmtime (t : Z) : tm :=
  let '(y, m, d) := civil_from_days (t / 86400) in
  let s := t mod 86400 in
  mkTm (s mod 60) (s / 60 mod 60) (s / 3600) d (m - 1) (y - 1900).

(** [timegm] accepts fields out of range and carries them over. *)
Definition timegm (x : tm) : Z :=
  let y := tm_year x + 1900 + tm_mon x / 12 in
  let m := tm_mon x mod 12 + 1 in
  (days_from_civil y m 1 + (tm_mday x - 1)) * 86400 + tm_hour x * 3600 + tm_min x * 60 + tm_sec x.

Definition valid_date (y m d : Z) : Prop := 1 <= m <= 12 /\ 1 <= d <= days_in_month y m.

(** Decides the conditions that hold no variable. *)
Ltac ground_ifs :=
  repeat match goal with
  | |- context [if ?b then _ else _] =>
      let b' := eval vm_compute in b in
      match b' with true => change b with true | false => change b with false end; cbv iota
  end.

Lemma yoe_spec doe :
  0 <= doe < 146097 ->
  let yoe := (doe - doe / 1460 + doe / 36524 - doe / 146096) / 365 in
  0 <= yoe < 400 /\ 365 * yoe + yoe / 4 - yoe / 100 <= doe /\
  (doe < 365 * (yoe + 1) + (yoe + 1) / 4 - (yoe + 1) / 100 \/ yoe = 399).
Proof.
  intros H yoe.
  assert (0 <= doe / 36524 <= 4) by dm_lia.
  assert (0 <= yoe < 400) by (subst yoe; dm_lia).
  split; [done|]. subst yoe.
  assert ((doe / 146096 = 0) \/ (doe / 146096 = 1)) as [E|E] by dm_lia; rewrite E in *.
  - assert ((doe / 36524 = 0) \/ (doe / 36524 = 1) \/ (doe / 36524 = 2) \/ (doe / 36524 = 3)) as H3 by dm_lia.
    destruct H3 as [E1|[E1|[E1|E1]]]; rewrite E1 in *; split; dm_lia.
  - assert (doe = 146096) as -> by dm_lia. vm_compute. split; [intros X; discriminate X|by right].
Qed.

(** Days before the year [y] of an era. *)
Definition year_start (y : Z) : Z := 365 * y + y / 4 - y / 100.

Lemma year_start_mono a b : a < b -> year_start (a + 1) <= year_start b.
Proof. unfold year_start. dm_lia. Qed.

(** The last day of a March year is a 29th of February. *)
Lemma leap_day yoe era :
  0 <= yoe < 400 -> year_start (yoe + 1) = year_start yoe + 366 \/ yoe = 399 <-> is_leap (yoe + era * 400 + 1) = true.
Proof. unfold year_start, is_leap. intros H. split; dm_lia. Qed.

Lemma year_unique doe y y' :
  0 <= y < 400 -> 0 <= y' < 400 -> year_start y <= doe -> year_start y' <= doe ->
  doe < year_start (y + 1) \/ y = 399 -> doe < year_start (y' + 1) \/ y' = 399 -> y = y'.
Proof.
  intros Hy Hy' H1 H2 H3 H4. destruct (Z.lt_trichotomy y y') as [L|[E|L]]; [|exact E|];
    pose proof (year_start_mono _ _ L); lia.
Qed.

(** Era, year of the era and day of the March year of a day number. *)
Lemma day_parts z :
  let doe := (z + 719468) mod 146097 in
  let yoe := (doe - doe / 1460 + doe / 36524 - doe / 146096) / 365 in
  let doy := doe - (365 * yoe + yoe / 4 - yoe / 100) in
  z + 719468 = (z + 719468) / 146097 * 146097 + doe /\ 0 <= doe < 146097 /\ 0 <= yoe < 400 /\
  year_start yoe <= doe /\ (doe < year_start (yoe + 1) \/ yoe = 399) /\ 0 <= doy <= 365 /\
  (doy = 365 -> is_leap (yoe + (z + 719468) / 146097 * 400 + 1) = true).
Proof.
  intros doe yoe doy.
  assert (0 <= doe < 146097) as Hd by (apply Z.mod_pos_bound; lia).
  destruct (yoe_spec doe Hd) as (Hy & Hlo & Hhi). fold yoe in Hy, Hlo, Hhi.
  assert (year_start (yoe + 1) = year_start yoe + 365 \/ year_start (yoe + 1) = year_start yoe + 366) as Hlen
    by (unfold year_start; dm_lia).
  assert (yoe = 399 -> doy <= 365) as Hlast.
  { intros E. subst doy. rewrite E. change (399 / 4) with 99. change (399 / 100) with 3. lia. }
  fold (year_start yoe) in Hlo. fold (year_start (yoe + 1)) in Hhi. fold (year_start yoe) in doy.
  split_and!; try done; try (subst doy; lia).
  - pose proof (Z.div_mod (z + 719468) 146097). subst doe. lia.
  - intros Hdoy. apply (leap_day yoe _ Hy). subst doy. lia.
Qed.

Lemma days_civil_days z : let '(y, m, d) := civil_from_days z in days_from_civil y m d = z.
Proof.
  unfold civil_from_days, days_from_civil.
  destruct (day_parts z) as (Hz & Hd & Hy & _ & _ & Hdoy & _). cbv zeta in *.
  set (era := (z + 719468) / 146097) in *. set (doe := (z + 719468) mod 146097) in *.
  set (yoe := (doe - doe / 1460 + doe / 36524 - doe / 146096) / 365) in *.
  set (doy := doe - (365 * yoe + yoe / 4 - yoe / 100)) in *.
  set (mp := (5 * doy + 2) / 153). assert (0 <= mp <= 11) by (subst mp; dm_lia).
  assert ((yoe + era * 400) / 400 = era /\ (yoe + era * 400) mod 400 = yoe) as [Hq Hr] by (split; dm_lia).
  destruct (mp <? 10) eqn:Em.
  - assert ((mp + 3 <=? 2) = false) as -> by lia. assert ((2 <? mp + 3) = true) as -> by lia.
    rewrite Hq, Hr. replace (mp + 3 - 3) with mp by lia. subst doy. lia.
  - assert ((mp - 9 <=? 2) = true) as -> by lia. assert ((2 <? mp - 9) = false) as -> by lia.
    replace (yoe + era * 400 + 1 - 1) with (yoe + era * 400) by lia.
    rewrite Hq, Hr. replace (mp - 9 + 9) with mp by lia. subst doy. lia.
Qed.

Lemma civil_valid z : let '(y, m, d) := civil_from_days z in valid_date y m d.
Proof.
  unfold civil_from_days, valid_date, days_in_month.
  destruct (day_parts z) as (Hz & Hd & Hy & _ & _ & Hdoy & Hleap). cbv zeta in *.
  set (era := (z + 719468) / 146097) in *. set (doe := (z + 719468) mod 146097) in *.
  set (yoe := (doe - doe / 1460 + doe / 36524 - doe / 146096) / 365) in *.
  set (doy := doe - (365 * yoe + yoe / 4 - yoe / 100)) in *. clearbody doy yoe era doe.
  set (mp := (5 * doy + 2) / 153). assert (0 <= mp <= 11) by (subst mp; dm_lia).
  assert (153 * mp <= 5 * doy + 2 < 153 * mp + 153) as Hmp by (subst mp; dm_lia). clearbody mp.
  assert (Hc : mp = 0 \/ mp = 1 \/ mp = 2 \/ mp = 3 \/ mp = 4 \/ mp = 5 \/ mp = 6 \/ mp = 7 \/ mp = 8 \/ mp = 9 \/
    mp = 10 \/ mp = 11) by lia.
  repeat (destruct Hc as [->|Hc]; [ground_ifs; split; dm_lia|]). subst mp.
  ground_ifs. split; [lia|]. change ((153 * 11 + 2) / 5) with 337.
  destruct (is_leap _); [lia|]. destruct (Z.eq_dec doy 365) as [E|E]; [specialize (Hleap E); discriminate Hleap|lia].
Qed.

Lemma civil_days_civil y m d : valid_date y m d -> civil_from_days (days_from_civil y m d) = (y, m, d).
Proof.
  intros [Hm Hd]. unfold days_from_civil.
  set (y' := if m <=? 2 then y - 1 else y). set (mp := if 2 <? m then m - 3 else m + 9).
  set (doy := (153 * mp + 2) / 5 + d - 1). set (yoe := y' mod 400).
  assert (0 <= yoe < 400) as Hy by (apply Z.mod_pos_bound; lia).
  assert (y' = yoe + y' / 400 * 400) as Hyy by (pose proof (Z.div_mod y' 400); subst yoe; lia).
  assert (0 <= mp <= 11 /\ (5 * doy + 2) / 153 = mp /\ 0 <= doy <= 365 /\ (doy = 365 -> is_leap (y' + 1) = true))
    as (Hmp & Hmd & Hdoy & Hleap).
  { assert (Hc : m = 1 \/ m = 2 \/ m = 3 \/ m = 4 \/ m = 5 \/ m = 6 \/ m = 7 \/ m = 8 \/ m = 9 \/ m = 10 \/ m = 11 \/
      m = 12) by lia.
    unfold days_in_month in Hd. subst doy mp y'. clear Hyy. clearbody yoe.
    repeat (destruct Hc as [->|Hc]; [revert Hd; ground_ifs; replace (y - 1 + 1) with y by lia;
      try destruct (is_leap y) eqn:El; intros Hd; split_and!; try done; dm_lia|]). subst m.
    revert Hd. ground_ifs. intros Hd. split_and!; dm_lia. }
  set (doe := yoe * 365 + yoe / 4 - yoe / 100 + doy).
  set (z := y' / 400 * 146097 + doe - 719468).
  assert (year_start yoe <= doe /\ (doe < year_start (yoe + 1) \/ yoe = 399)) as [Hlo Hhi].
  { subst doe. split; [unfold year_start; lia|].
    assert (year_start (yoe + 1) = year_start yoe + 365 \/ year_start (yoe + 1) = year_start yoe + 366) as [Hl|Hl]
      by (unfold year_start; dm_lia); [|left; unfold year_start in *; lia].
    destruct (Z.eq_dec doy 365) as [E|E]; [|left; unfold year_start in *; lia].
    specialize (Hleap E). rewrite Hyy in Hleap. apply (leap_day yoe _ Hy) in Hleap. lia. }
  assert (0 <= doe < 146097) as Hdoe by (subst doe; unfold year_start in *; dm_lia).
  destruct (day_parts z) as (Hz & _ & Hy2 & Hlo2 & Hhi2 & _ & _). cbv zeta in *.
  assert ((z + 719468) mod 146097 = doe) as Hmod by (subst z; dm_lia).
  assert ((z + 719468) / 146097 = y' / 400) as Hdiv by (subst z; dm_lia).
  unfold civil_from_days. fold z. cbv zeta. rewrite Hmod, Hdiv in *.
  set (yoe2 := (doe - doe / 1460 + doe / 36524 - doe / 146096) / 365) in *.
  assert (yoe2 = yoe) as -> by (by apply (year_unique doe)).
  assert (doe - (365 * yoe + yoe / 4 - yoe / 100) = doy) as -> by (subst doe; lia).
  rewrite Hmd. subst y' mp. destruct (2 <? m) eqn:E2.
  - assert ((m <=? 2) = false) as E3 by lia. rewrite E3 in *. assert ((m - 3 <? 10) = true) as -> by lia.
    replace (m - 3 + 3) with m by lia. rewrite E3. f_equal; [f_equal; lia|subst doy; lia].
  - assert ((m <=? 2) = true) as E3 by lia. rewrite E3 in *. assert ((m + 9 <? 10) = false) as -> by lia.
    replace (m + 9 - 9) with m by lia. rewrite E3. f_equal; [f_equal; lia|subst doy; lia].
Qed.

Lemma days_in_month_range y m : 28 <= days_in_month y m <= 31.
Proof. unfold days_in_month. repeat destr; lia. Qed.

Definition jan1 (y : Z) : Z := 365 * (y - 1) + (y - 1) / 4 - (y - 1) / 100 + (y - 1) / 400 - 719162.

Lemma jan1_mono a b : a <= b -> jan1 a <= jan1 b.
Proof. unfold jan1. dm_lia. Qed.

Lemma days_linear y m d :
  let y' := if m <=? 2 then y - 1 else y in
  let mp := if 2 <? m then m - 3 else m + 9 in
  days_from_civil y m d =
    365 * y' + y' / 4 - y' / 100 + y' / 400 + ((153 * mp + 2) / 5 + d - 1) - 719468.
Proof.
  intros y' mp. unfold days_from_civil. fold y' mp. cbv zeta. clearbody y'. clearbody mp.
  pose proof (Z.div_mod y' 400 ltac:(lia)) as Hdm. pose proof (Z.mod_pos_bound y' 400 ltac:(lia)) as Hr.
  set (e := y' / 400) in *. set (r := y' mod 400) in *. clearbody e r.
  assert (y' / 4 = 100 * e + r / 4) as -> by dm_lia. assert (y' / 100 = 4 * e + r / 100) as -> by dm_lia. lia.
Qed.

Lemma days_jan1 y : days_from_civil y 1 1 = jan1 y.
Proof. rewrite days_linear. unfold jan1. ground_ifs. change ((153 * (1 + 9) + 2) / 5) with 306. lia. Qed.

(** A date is in its year. *)
Lemma days_in_year y m d : valid_date y m d -> jan1 y <= days_from_civil y m d < jan1 (y + 1).
Proof.
  intros [Hm Hd]. pose proof (days_in_month_range y m). assert (1 <= d <= 31) as Hd31 by lia. clear Hd.
  rewrite days_linear. unfold jan1. replace (y + 1 - 1) with y by lia.
  destruct (m <=? 2) eqn:E1, (2 <? m) eqn:E2; try lia; dm_lia.
Qed.

Lemma year_range y m d a b : valid_date y m d -> jan1 a <= days_from_civil y m d < jan1 b -> a <= y < b.
Proof.
  intros Hv H. pose proof (days_in_year _ _ _ Hv). split.
  - destruct (Z.le_gt_cases a y) as [|L]; [done|]. pose proof (jan1_mono (y + 1) a). lia.
  - destruct (Z.lt_ge_cases y b) as [|L]; [done|]. pose proof (jan1_mono b y). lia.
Qed.

End Calendar.

(** ** The library *)
Module SceRtc.
Import Calendar.

Definition kOk : Z := 0.
Definition kErrInvalidArg : Z := i32 0x80020005.
Definition kErrOverflow : Z := i32 0x80020002.
Definition kUnixToSceEpochSeconds : Z := 62135596800.

Record SceRtcDateTime := mkDate {
  second_bcd : Z;
  minute_bcd : Z;
  hour_bcd : Z;
  day_bcd : Z;
  month_bcd : Z;
  year_bcd : Z;
  reserved0 : bytes;
  microsecond : Z;
  reserved1 : bytes
}.

(** On [int]: quotient and remainder towards zero. *)
Definition toBcd (v : Z) : Z := u8 (Z.lor (Z.shiftl (Z.quot v 10) 4) (Z.rem v 10)).
Definition fromBcd (b : Z) : Z := Z.land (Z.shiftr b 4) 0xF * 10 + Z.land b 0xF.

Definition tickToCivil (ticks : Z) : SceRtcDateTime :=
  let totalSeconds := ticks / 1000000 in
  let micros := u32 (ticks mod 1000000) in
  let unixSec := i64 (i64 totalSeconds - i64 kUnixToSceEpochSeconds) in
  let x := gmtime unixSec in
  mkDate (toBcd (tm_sec x)) (toBcd (tm_min x)) (toBcd (tm_hour x)) (toBcd (tm_mday x)) (toBcd (tm_mon x + 1))
    (toBcd (Z.rem (tm_year x + 1900) 100)) (replicate 2 0) micros (replicate 4 0).

Definition civilToTick (inp : SceRtcDateTime) : Z :=
  let x := mkTm (fromBcd (second_bcd inp)) (fromBcd (minute_bcd inp)) (fromBcd (hour_bcd inp))
             (fromBcd (day_bcd inp)) (fromBcd (month_bcd inp) - 1) (fromBcd (year_bcd inp) + 100) in
  let seconds := u64 (u64 (timegm x) + kUnixToSceEpochSeconds) in
  u64 (u64 (seconds * 1000000) + microsecond inp).

(** [tv] is what [gettimeofday] answers; a null pointer is [true]. *)
Definition sceRtcGetCurrentTick (tick_null : bool) (tv : option (Z * Z)) : option Z * Z :=
  if tick_null then (None, kErrInvalidArg)
  else
    match tv with
    | None => (None, kErrOverflow)
    | Some (tv_sec, tv_usec) =>
        let s := u64 (u64 tv_sec + kUnixToSceEpochSeconds) in
        (Some (u64 (u64 (s * 1000000) + u64 tv_usec)), kOk)
    end.

(** The answer of the tick is not looked at: a failure leaves 0. *)
Definition sceRtcGetCurrentClock (dt_null : bool) (tzMinutes : Z) (tv : option (Z * Z)) : option SceRtcDateTime * Z :=
  if dt_null then (None, kErrInvalidArg)
  else
    let ticks := default 0 (fst (sceRtcGetCurrentTick false tv)) in
    let ticks := if negb (tzMinutes =? 0)
                 then u64 (ticks + u64 (u64 (u64 tzMinutes * 60) * 1000000)) else ticks in
    (Some (tickToCivil ticks), kOk).

Definition sceRtcGetCurrentClockLocalTime (dt_null : bool) (tv : option (Z * Z)) : option SceRtcDateTime * Z :=
  sceRtcGetCurrentClock dt_null 0 tv.

Definition sceRtcSetTick (dt_null : bool) (tick : option Z) : option SceRtcDateTime * Z :=
  match dt_null, tick with
  | false, Some t => (Some (tickToCivil t), kOk)
  | _, _ => (None, kErrInvalidArg)
  end.

Definition sceRtcGetTick (dt : option SceRtcDateTime) (tick_null : bool) : option Z * Z :=
  match dt, tick_null with
  | Some d, false => (Some (civilToTick d), kOk)
  | _, _ => (None, kErrInvalidArg)
  end.

Definition sceRtcGetTickResolution (resolution_null : bool) : option Z * Z :=
  if resolution_null then (None, kErrInvalidArg) else (Some 1000000, kOk).

Definition sceRtcConvertUtcToLocalTime (utcTick : option Z) (out_null : bool) : option Z * Z :=
  match utcTick, out_null with
  | Some t, false => (Some t, kOk)
  | _, _ => (None, kErrInvalidArg)
  end.
Definition sceRtcConvertLocalTimeToUtc (localTick : option Z) (out_null : bool) : option Z * Z :=
  sceRtcConvertUtcToLocalTime localTick out_null.
Definition sceRtcGetCurrentNetworkTick (tick_null : bool) (tv : option (Z * Z)) : option Z * Z :=
  sceRtcGetCurrentTick tick_null tv.

(** The date fields of a structure, and what it means for them to be well
    formed: two decimal digits each, a date of the calendar in the years the
    structure can say, a time of day and a fraction of a second. *)
Definition bcd_ok (b : Z) : Prop := exists v, 0 <= v < 100 /\ b = 16 * (v / 10) + v mod 10.
Definition year_of (d : SceRtcDateTime) : Z := 2000 + fromBcd (year_bcd d).

Record well_formed (d : SceRtcDateTime) : Prop := mkWf {
  wf_bcd : Forall bcd_ok [second_bcd d; minute_bcd d; hour_bcd d; day_bcd d; month_bcd d; year_bcd d];
  wf_date : valid_date (year_of d) (fromBcd (month_bcd d)) (fromBcd (day_bcd d));
  wf_time : fromBcd (hour_bcd d) < 24 /\ fromBcd (minute_bcd d) < 60 /\ fromBcd (second_bcd d) < 60;
  wf_micro : 0 <= microsecond d < 1000000;
  wf_reserved : reserved0 d = replicate 2 0 /\ reserved1 d = replicate 4 0
}.

(** The first tick of a year. *)
Definition year_tick (y : Z) : Z := (days_from_civil y 1 1 * 86400 + kUnixToSceEpochSeconds) * 1000000.

End SceRtc.

Section Lemmas.
Import Calendar SceRtc.

Lemma toBcd_val v : 0 <= v < 100 -> toBcd v = 16 * (v / 10) + v mod 10 /\ fromBcd (toBcd v) = v.
Proof.
  intros H. assert (Hall : Forall (fun v => toBcd v = 16 * (v / 10) + v mod 10 /\ fromBcd (toBcd v) = v) (seqZ 0 100)).
  { apply (bool_decide_unpack _). vm_compute. exact I. }
  rewrite Forall_forall in Hall. apply Hall. apply elem_of_seqZ. lia.
Qed.

Lemma toBcd_ok v : 0 <= v < 100 -> bcd_ok (toBcd v) /\ fromBcd (toBcd v) = v.
Proof. intros H. destruct (toBcd_val v H) as [H1 H2]. split; [by exists v|done]. Qed.

(** The leap years of a century are those of 2000 to 2099, 1900 apart. *)
Lemma days_in_month_century y m :
  days_in_month y m <= days_in_month (2000 + y mod 100) m.
Proof.
  unfold days_in_month. destruct (m =? 2); [|done].
  assert (is_leap y = true -> is_leap (2000 + y mod 100) = true) as H by (unfold is_leap; dm_lia).
  destruct (is_leap y); [by rewrite H|]. destruct (is_leap _); lia.
Qed.

(** Seconds of a tick, and the fields of its structure. *)
Lemma tick_fields t :
  in_width 64 t ->
  let sec := t / 1000000 - kUnixToSceEpochSeconds in
  let '(y, m, d) := civil_from_days (sec / 86400) in
  1 <= y /\ valid_date y m d /\ days_from_civil y m d = sec / 86400 /\
  let x := tickToCivil t in
  fromBcd (year_bcd x) = y mod 100 /\ fromBcd (month_bcd x) = m /\ fromBcd (day_bcd x) = d /\
  fromBcd (hour_bcd x) = sec mod 86400 / 3600 /\ fromBcd (minute_bcd x) = sec mod 86400 / 60 mod 60 /\
  fromBcd (second_bcd x) = sec mod 86400 mod 60 /\ microsecond x = t mod 1000000 /\
  Forall bcd_ok [second_bcd x; minute_bcd x; hour_bcd x; day_bcd x; month_bcd x; year_bcd x] /\
  reserved0 x = replicate 2 0 /\ reserved1 x = replicate 4 0.
Proof.
  intros Ht sec. unfold in_width in Ht.
  assert (- kUnixToSceEpochSeconds <= sec < 20000000000000) as Hsec by (subst sec; unfold kUnixToSceEpochSeconds; dm_lia).
  pose proof (days_civil_days (sec / 86400)) as Hinv. pose proof (civil_valid (sec / 86400)) as Hval.
  unfold tickToCivil, gmtime. cbv zeta.
  assert (i64 (i64 (t / 1000000) - i64 kUnixToSceEpochSeconds) = sec) as ->.
  { assert (0 <= t / 1000000 < 2 ^ 62) as Hq by (clear -Ht; dm_lia).
    rewrite (swrap_id 64 (t / 1000000)), (swrap_id 64 kUnixToSceEpochSeconds), swrap_id by (change (2 ^ (64 - 1)) with (2 ^ 63); unfold kUnixToSceEpochSeconds; lia). done. }
  destruct (civil_from_days (sec / 86400)) as [[y m] d] eqn:Eciv. cbn [tm_sec tm_min tm_hour tm_mday tm_mon tm_year].
  assert (1 <= y) as Hy.
  { apply (year_range _ _ _ 1 1000000 Hval). rewrite Hinv. change (jan1 1) with (-719162).
    change (jan1 1000000) with 364522972. unfold kUnixToSceEpochSeconds in *. dm_lia. }
  assert (0 <= d < 100 /\ 0 <= m < 100) as [Hd Hm].
  { destruct Hval as [Hm Hd]. pose proof (days_in_month_range y m). lia. }
  replace (y - 1900 + 1900) with y by lia. replace (m - 1 + 1) with m by lia.
  rewrite Z.rem_mod_nonneg by lia.
  pose proof (toBcd_ok (y mod 100) ltac:(dm_lia)) as [By Fy]. pose proof (toBcd_ok m Hm) as [Bm Fm].
  pose proof (toBcd_ok d Hd) as [Bd Fd].
  pose proof (toBcd_ok (sec mod 86400 / 3600) ltac:(dm_lia)) as [Bh Fh].
  pose proof (toBcd_ok (sec mod 86400 / 60 mod 60) ltac:(dm_lia)) as [Bmi Fmi].
  pose proof (toBcd_ok (sec mod 86400 mod 60) ltac:(dm_lia)) as [Bs Fs].
  cbn [second_bcd minute_bcd hour_bcd day_bcd month_bcd year_bcd microsecond reserved0 reserved1].
  split; [done|]. split; [done|]. split; [done|]. repeat (split; [done|]).
  split; [apply (wrap_id 32); unfold in_width; dm_lia|]. split; [by repeat constructor|]. done.
Qed.

(** The tick of a structure whose fields are in range. *)
Lemma civilToTick_fields x :
  valid_date (year_of x) (fromBcd (month_bcd x)) (fromBcd (day_bcd x)) ->
  0 <= fromBcd (hour_bcd x) < 24 -> 0 <= fromBcd (minute_bcd x) < 60 -> 0 <= fromBcd (second_bcd x) < 60 ->
  0 <= microsecond x < 1000000 -> 0 <= fromBcd (year_bcd x) < 100 ->
  civilToTick x =
    (days_from_civil (year_of x) (fromBcd (month_bcd x)) (fromBcd (day_bcd x)) * 86400 + fromBcd (hour_bcd x) * 3600
     + fromBcd (minute_bcd x) * 60 + fromBcd (second_bcd x) + kUnixToSceEpochSeconds) * 1000000 + microsecond x /\
  year_tick 2000 <= civilToTick x < year_tick 2100.
Proof.
  intros [Hm Hd] Hh Hmi Hs Hus Hy. unfold year_of in *. unfold civilToTick, timegm.
  cbn [tm_sec tm_min tm_hour tm_mday tm_mon tm_year].
  set (y := fromBcd (year_bcd x)) in *. set (m := fromBcd (month_bcd x)) in *. set (d := fromBcd (day_bcd x)) in *.
  replace ((m - 1) / 12) with 0 by dm_lia. replace ((m - 1) mod 12 + 1) with m by dm_lia.
  replace (y + 100 + 1900 + 0) with (2000 + y) by lia.
  assert (days_from_civil (2000 + y) m 1 + (d - 1) = days_from_civil (2000 + y) m d) as -> by (unfold days_from_civil; lia).
  assert (10957 <= days_from_civil (2000 + y) m d < 47482) as Hdays.
  { pose proof (days_in_year (2000 + y) m d (conj Hm Hd)).
    pose proof (jan1_mono 2000 (2000 + y)). pose proof (jan1_mono (2000 + y + 1) 2100).
    change (jan1 2000) with 10957 in *. change (jan1 2100) with 47482 in *. lia. }
  set (days := days_from_civil (2000 + y) m d) in *. unfold year_tick, kUnixToSceEpochSeconds.
  change (days_from_civil 2000 1 1) with 10957. change (days_from_civil 2100 1 1) with 47482.
  set (S := days * 86400 + _ + _ + _). assert (946684800 <= S < 4102444800) as HS by (subst S; lia).
  rewrite (wrap_id 64 S), (wrap_id 64 (S + _)), (wrap_id 64 (_ * 1000000)), wrap_id by (unfold in_width; lia). lia.
Qed.

End Lemmas.

Section Properties.
Import Calendar SceRtc.

Lemma bcd_inj a b : bcd_ok a -> bcd_ok b -> fromBcd a = fromBcd b -> a = b.
Proof.
  intros (x & Hx & ->) (y & Hy & ->).
  destruct (toBcd_val x Hx) as [<- ->], (toBcd_val y Hy) as [<- ->]. by intros ->.
Qed.

(** Structures with the same date, time and fraction are the same. *)
Lemma date_ext a b :
  well_formed a -> well_formed b -> year_of a = year_of b -> fromBcd (month_bcd a) = fromBcd (month_bcd b) ->
  fromBcd (day_bcd a) = fromBcd (day_bcd b) -> fromBcd (hour_bcd a) = fromBcd (hour_bcd b) ->
  fromBcd (minute_bcd a) = fromBcd (minute_bcd b) -> fromBcd (second_bcd a) = fromBcd (second_bcd b) ->
  microsecond a = microsecond b -> a = b.
Proof.
  unfold year_of. intros [Ha _ _ _ [Ra0 Ra1]] [Hb _ _ _ [Rb0 Rb1]] Hy Hm Hd Hh Hmi Hs Hus.
  assert (fromBcd (year_bcd a) = fromBcd (year_bcd b)) as Hy' by lia.
  apply Forall_cons in Ha as [A1 Ha], Hb as [B1 Hb]. apply Forall_cons in Ha as [A2 Ha], Hb as [B2 Hb].
  apply Forall_cons in Ha as [A3 Ha], Hb as [B3 Hb]. apply Forall_cons in Ha as [A4 Ha], Hb as [B4 Hb].
  apply Forall_cons in Ha as [A5 Ha], Hb as [B5 Hb]. apply Forall_cons in Ha as [A6 _], Hb as [B6 _].
  destruct a, b; simpl in *. f_equal; try (by apply bcd_inj); congruence.
Qed.

Lemma tick_well_formed t : in_width 64 t -> well_formed (tickToCivil t).
Proof.
  intros Ht. pose proof (tick_fields t Ht) as H. cbv zeta in H.
  set (sec := t / 1000000 - kUnixToSceEpochSeconds) in *.
  destruct (civil_from_days (sec / 86400)) as [[y m] d]. unfold in_width in Ht.
  destruct H as (Hy & [Hm Hd] & _ & Fy & Fm & Fd & Fh & Fmi & Fs & Fus & Hb & Hr).
  constructor; [done| | | |done].
  - unfold year_of. rewrite Fy, Fm, Fd. split; [done|]. pose proof (days_in_month_century y m). lia.
  - rewrite Fh, Fmi, Fs. clearbody sec. split; [|split]; dm_lia.
  - rewrite Fus. dm_lia.
Qed.

(** C22: every structure the library fills is well formed, for all 2^64
    ticks: two decimal digits in every date field, a day that the month has in
    the year the structure names, a time below 24:00:00 and a fraction below a
    second. *)
Theorem clock_well_formed t : in_width 64 t -> well_formed (tickToCivil t).
Proof. apply tick_well_formed. Qed.

(** Setting a date from a tick and reading it back gives the same tick
    exactly for the years 2000 to 2099.  Any other tick comes back as the tick
    of those years with the same structure: the century is lost. *)
Theorem tick_roundtrip t :
  in_width 64 t ->
  let t' := civilToTick (tickToCivil t) in
  year_tick 2000 <= t' < year_tick 2100 /\ tickToCivil t' = tickToCivil t /\
  (t' = t <-> year_tick 2000 <= t < year_tick 2100).
Proof.
  intros Ht t'. pose proof (tick_fields t Ht) as H. pose proof (tick_well_formed t Ht) as Hwf. cbv zeta in H.
  set (x := tickToCivil t) in *. set (sec := t / 1000000 - kUnixToSceEpochSeconds) in *.
  destruct (civil_from_days (sec / 86400)) as [[y m] d].
  destruct H as (Hy & Hv & Hdays & Fy & Fm & Fd & Fh & Fmi & Fs & Fus & _).
  destruct (civilToTick_fields x (wf_date _ Hwf)) as [Et' Hrange];
    [rewrite Fh; dm_lia|rewrite Fmi; dm_lia|rewrite Fs; dm_lia|apply (wf_micro _ Hwf)|rewrite Fy; dm_lia|].
  fold t' in Et', Hrange. split; [exact Hrange|].
  set (days := days_from_civil (year_of x) (fromBcd (month_bcd x)) (fromBcd (day_bcd x))) in *.
  assert (in_width 64 t') as Ht'.
  { unfold in_width. unfold year_tick, kUnixToSceEpochSeconds in Hrange. rewrite !days_jan1 in Hrange.
    change (jan1 2000) with 10957 in Hrange. change (jan1 2100) with 47482 in Hrange. lia. }
  set (sec' := t' / 1000000 - kUnixToSceEpochSeconds).
  assert (sec' = days * 86400 + sec mod 86400 /\ t' mod 1000000 = t mod 1000000) as [Es' Em'].
  { rewrite Fh, Fmi, Fs, Fus in Et'. subst sec'. rewrite Et'. clearbody sec days. dm_lia. }
  split.
  - pose proof (tick_fields t' Ht') as H'. pose proof (tick_well_formed t' Ht') as Hwf'. cbv zeta in H'.
    fold sec' in H'. replace (sec' / 86400) with days in H' by (rewrite Es'; clearbody sec; dm_lia).
    replace (sec' mod 86400) with (sec mod 86400) in H' by (rewrite Es'; clearbody sec; dm_lia).
    assert (civil_from_days days = (year_of x, fromBcd (month_bcd x), fromBcd (day_bcd x))) as Ec
      by (apply civil_days_civil, (wf_date _ Hwf)).
    rewrite Ec in H'.
    destruct H' as (_ & _ & _ & Gy & Gm & Gd & Gh & Gmi & Gs & Gus & _).
    apply date_ext; try done; try congruence. unfold year_of at 1. rewrite Gy. unfold year_of. rewrite Fy. dm_lia.
  - split; [intros E; rewrite <- E; exact Hrange|]. intros Hin.
    assert (2000 <= y < 2100) as Hyr.
    { apply (year_range _ _ _ _ _ Hv). rewrite Hdays. unfold year_tick in Hin. rewrite !days_jan1 in Hin.
      subst sec. clear -Hin. unfold kUnixToSceEpochSeconds in *. dm_lia. }
    assert (days = sec / 86400) as Hd'.
    { rewrite <- Hdays. subst days. unfold year_of. rewrite Fy, Fm, Fd. f_equal. clear -Hyr. dm_lia. }
    rewrite (Z.div_mod t' 1000000), (Z.div_mod t 1000000), Em' by lia. subst sec sec'. rewrite Hd' in Es'.
    clear -Es'. dm_lia.
Qed.

Lemma clock_well_formed_witness : well_formed (tickToCivil (2 ^ 64 - 1)).
Proof. apply clock_well_formed. unfold in_width. lia. Defined.

(** 2024-02-29 and 1970-01-01. *)
Definition leap_tick : Z := 63844761600000000 + 1.
Definition unix_tick : Z := kUnixToSceEpochSeconds * 1000000.

Lemma tick_roundtrip_witness :
  civilToTick (tickToCivil leap_tick) = leap_tick /\
  year_of (tickToCivil leap_tick) = 2024 /\ civilToTick (tickToCivil unix_tick) <> unix_tick.
Proof.
  destruct (tick_roundtrip leap_tick) as (_ & _ & [_ H]); [unfold in_width, leap_tick; lia|].
  destruct (tick_roundtrip unix_tick) as (_ & _ & [H' _]); [unfold in_width, unix_tick, kUnixToSceEpochSeconds; lia|].
  split; [apply H; apply (bool_decide_unpack _); vm_compute; exact I|].
  split; [vm_compute; reflexivity|]. intros E. apply H' in E. destruct E as [E _]. vm_compute in E. by apply E.
Defined.

End Properties.
