(* ===== verification/Network.v ===== *)
(** * Network policy, sockets and HTTP

    [network/NetworkPolicy.cpp], [network/HttpClient.cpp], [sce/net/SceNet.cpp]
    and [sce/http/SceHttp.cpp]: which connections a title may open.  The
    answers of the host's socket calls and libcurl are arguments; the calls made
    to them are a trace. *)
From S2P Require Import Prelude Handles.

(** ** The policy *)
Module NetworkPolicy.

Inductive PolicyMode := Disabled | LocalhostOnly | Restricted | FullAccess.
#[export] Instance PolicyMode_eq_dec : EqDecision PolicyMode.
Proof. solve_decision. Defined.

Record Endpoint := mkEndpoint { ep_host : bytes; ep_port : Z }.
Record t := mkPolicy { m_mode : PolicyMode; m_allowlist : list Endpoint }.
Definition initial : t := mkPolicy LocalhostOnly [].

Definition setMode (mode : PolicyMode) (p : t) : t := mkPolicy mode (m_allowlist p).
Definition mode (p : t) : PolicyMode := m_mode p.
Definition allowEndpoint (host : bytes) (port : Z) (p : t) : t :=
  mkPolicy (m_mode p) (m_allowlist p ++ [mkEndpoint host port]).
Definition clearAllowlist (p : t) : t := mkPolicy (m_mode p) [].

Definition isLocalhost (host : bytes) : bool :=
  bool_decide (host = cstr "127.0.0.1") || bool_decide (host = cstr "::1") || bool_decide (host = cstr "localhost").

(** The answer and the reason, when one is given. *)
Definition allowConnect (p : t) (host : bytes) (port : Z) : bool * option bytes :=
  match m_mode p with
  | Disabled => (false, Some (cstr "network disabled by policy"))
  | LocalhostOnly =>
      if negb (isLocalhost host) then (false, Some (cstr "only localhost connections permitted")) else (true, None)
  | Restricted =>
      if isLocalhost host then (true, None)
      else if existsb (fun ep => bool_decide (ep_host ep = host) && (ep_port ep =? port)) (m_allowlist p)
      then (true, None)
      else (false, Some (cstr "destination not in allowlist"))
  | FullAccess => (true, None)
  end.

Definition allowBind (p : t) (port : Z) : bool * option bytes :=
  match m_mode p with
  | Disabled => (false, Some (cstr "network disabled by policy"))
  | _ => (true, None)
  end.

End NetworkPolicy.

(** ** Calls made to the host *)
Inductive HostCall :=
  | HSocket (domain type_ protocol : Z)
  | HConnect (fd addr port : Z)
  | HSend (fd : Z) (data : bytes) (flags : Z)
  | HRecv (fd len flags : Z)
  | HCloseFd (fd : Z)
  | HCurl (url : bytes).

(** ** The HTTP client *)
Module HttpClient.
Import NetworkPolicy.

Record HttpRequest := mkRequest {
  rq_method : bytes; rq_url : bytes; rq_headers : list (bytes * bytes); rq_body : bytes; rq_timeoutMs : Z
}.
Record HttpResponse := mkResponse { rs_statusCode : Z; rs_body : bytes; rs_headers : list (bytes * bytes) }.

(** What libcurl hands back: the status, the header lines and the body, in the
    pieces in which it calls back. *)
Record CurlAnswer := mkCurl { cu_code : Z; cu_lines : list bytes; cu_chunks : list bytes }.

(** [m_curl] with its handle; a client without one is [false]. *)
Record t := mkClient { c_handle : bool; c_initialized : bool }.
Definition new_client : t := mkClient false false.

Definition initialize (global_ok easy_ok : bool) (c : t) : t * bool :=
  if negb global_ok then (c, false)
  else if negb easy_ok then (mkClient false (c_initialized c), false)
  else (mkClient true true, true).

Definition writeBody (out chunk : bytes) : bytes := out ++ chunk.

(** [while (!line.empty() && back is CR or LF) line.pop_back()]. *)
Fixpoint drop_crlf (rev_line : bytes) : bytes :=
  match rev_line with
  | c :: rest => if (c =? 13) || (c =? 10) then drop_crlf rest else rev_line
  | [] => []
  end.
Fixpoint drop_spaces (v : bytes) : bytes :=
  match v with c :: rest => if c =? 32 then drop_spaces rest else v | [] => [] end.

Definition writeHeader (out : list (bytes * bytes)) (raw : bytes) : list (bytes * bytes) :=
  let line := rev (drop_crlf (rev raw)) in
  match find_char 58 line with
  | None => out
  | Some colon => out ++ [(take colon line, drop_spaces (drop (S colon) line))]
  end.

(** [std::stoi]: [None] when it throws. *)
Definition isspace (c : Z) : bool := (c =? 32) || ((9 <=? c) && (c <=? 13)).
Fixpoint skip_isspace (s : bytes) : bytes :=
  match s with c :: rest => if isspace c then skip_isspace rest else s | [] => [] end.
Fixpoint digits_prefix (s : bytes) : bytes :=
  match s with c :: rest => if (48 <=? c) && (c <=? 57) then c :: digits_prefix rest else [] | [] => [] end.
Definition stoi (s0 : bytes) : option Z :=
  let s := skip_isspace s0 in
  let '(neg, s) := match s with
                   | c :: rest => if c =? 45 then (true, rest) else if c =? 43 then (false, rest) else (false, s)
                   | [] => (false, [])
                   end in
  match digits_prefix s with
  | [] => None
  | ds =>
      let n := foldl (fun v c => v * 10 + (c - 48)) 0 ds in
      let v := if neg : bool then - n else n in
      if (- 2 ^ 31 <=? v) && (v <? 2 ^ 31) then Some v else None
  end.

(** Host and port as [checkPolicy] reads them from a URL. *)
Definition split_url (url : bytes) : bytes * Z :=
  let hostPort := match find_str (cstr "://") url with Some i => drop (i + 3) url | None => url end in
  let hostPort := match find_char 47 hostPort with Some i => take i hostPort | None => hostPort end in
  match rfind_char 58 hostPort with
  | None => (hostPort, 443)
  | Some colon => (take colon hostPort, default 443 (u16 <$> stoi (drop (S colon) hostPort)))
  end.

Definition checkPolicy (policy : option NetworkPolicy.t) (url : bytes) : bool * option bytes :=
  let '(host, port) := split_url url in
  match policy with
  | None => (false, Some (cstr "no NetworkPolicy bound to the runtime"))
  | Some p => allowConnect p host port
  end.

Inductive Performed :=
  | Denied
  | Unlinked
  | NoHandle
  | Failed (sent : HostCall)
  | Answered (sent : HostCall) (resp : HttpResponse).

(** [Unlinked]: a build without libcurl; [NoHandle]: the null handle is used. *)
Definition perform (have_curl : bool) (curl : HttpRequest -> option CurlAnswer)
    (policy : option NetworkPolicy.t) (c : t) (req : HttpRequest) : Performed :=
  if negb (fst (checkPolicy policy (rq_url req))) then Denied
  else if negb have_curl then Unlinked
  else if negb (c_handle c) then NoHandle
  else
    match curl req with
    | None => Failed (HCurl (rq_url req))
    | Some a => Answered (HCurl (rq_url req))
                  (mkResponse (cu_code a) (foldl writeBody [] (cu_chunks a)) (foldl writeHeader [] (cu_lines a)))
    end.

End HttpClient.

(** ** The state the libraries share

    The process's handle table and the policy of the runtime context, each
    [None] when not bound, and the trace of host calls. *)
Record NetState := mkNet {
  n_table : option HandleTable.t;
  n_policy : option NetworkPolicy.t;
  n_trace : list HostCall
}.

Definition issue (h : HostCall) (s : NetState) : NetState :=
  mkNet (n_table s) (n_policy s) (n_trace s ++ [h]).
Definition with_table (t : HandleTable.t) (s : NetState) : NetState :=
  mkNet (Some t) (n_policy s) (n_trace s).

(** [Aborts]: [requireProcess] or [requireNetwork] without a bound object. *)
Inductive NetOutcome := Aborts (s : NetState) | Returns (s : NetState) (code : Z) (out : bytes).

Definition state_of (o : NetOutcome) : NetState := match o with Aborts s | Returns s _ _ => s end.

(** ** Sockets *)
Module SceNet.
Import NetworkPolicy.

Definition kSceOk : Z := 0.
Definition kSceErrorInvalidArg : Z := i32 0x80020005.
Definition kSceErrorNotFound : Z := i32 0x80020004.
Definition kSceErrorConnect : Z := i32 0x8041010C.
Definition kSceErrorGeneric : Z := i32 0x80410101.

Record SceNetSockaddrIn := mkAddr { sa_len : Z; sa_family : Z; sa_port : Z; sa_addr : Z }.
Definition sockaddr_size : Z := 16.

(** [SOCK_STREAM], [SOCK_DGRAM] and [SOCK_RAW] of Linux are 1, 2 and 3. *)
Definition convertSocketType (sceType : Z) : Z :=
  let type := Z.land sceType 0x0F in
  if type =? 1 then 1 else if type =? 2 then 2 else if type =? 3 then 3 else sceType.
Definition convertSocketProtocol (sceProto : Z) : Z := sceProto.

Definition ntohs (v : Z) : Z := Z.lor (Z.shiftl (Z.land v 255) 8) (Z.shiftr v 8).

(** [inet_ntop(AF_INET, ...)] of an address in network order. *)
Definition inet_ntop (addr : Z) : bytes :=
  let b i := to_string (u8 (Z.shiftr addr (8 * i))) in
  b 0 ++ cstr "." ++ b 1 ++ cstr "." ++ b 2 ++ cstr "." ++ b 3.

Definition sceNetSocket (fd sceFamily sceType sceProto : Z) (s0 : NetState) : NetOutcome :=
  let type := convertSocketType sceType in
  let protocol := convertSocketProtocol sceProto in
  let s := issue (HSocket sceFamily type protocol) s0 in
  if fd <? 0 then Returns s kSceErrorGeneric []
  else
    match n_table s with
    | None => Aborts s
    | Some t =>
        let '(t, h) := HandleTable.registerObject t (Some (SocketHandle fd sceFamily type protocol)) in
        Returns (with_table t s) h []
    end.

Definition sceNetClose (handle : Z) (s : NetState) : NetOutcome :=
  match n_table s with
  | None => Aborts s
  | Some t =>
      match HandleTable.get t handle with
      | None => Returns s kSceErrorNotFound []
      | Some _ =>
          let '(t, _, dropped) := HandleTable.close t handle in
          let s := with_table t s in
          Returns (match dropped ≫= owned_fd with Some fd => issue (HCloseFd fd) s | None => s end) kSceOk []
      end
  end.

Definition socket_of (t : HandleTable.t) (handle : Z) : option Z :=
  match HandleTable.get t handle with Some (SocketHandle fd _ _ _) => Some fd | _ => None end.

Definition sceNetConnect (answer handle : Z) (addr : option SceNetSockaddrIn) (addrLen : Z) (s : NetState)
    : NetOutcome :=
  match addr with
  | None => Returns s kSceErrorInvalidArg []
  | Some a =>
      if addrLen <? sockaddr_size then Returns s kSceErrorInvalidArg []
      else
        match n_table s with
        | None => Aborts s
        | Some t =>
            match socket_of t handle with
            | None => Returns s kSceErrorNotFound []
            | Some fd =>
                let ipStr := inet_ntop (sa_addr a) in
                let port := ntohs (sa_port a) in
                match n_policy s with
                | None => Aborts s
                | Some p =>
                    if negb (fst (allowConnect p ipStr port)) then Returns s kSceErrorConnect []
                    else
                      let s := issue (HConnect fd (sa_addr a) (sa_port a)) s in
                      Returns s (if answer =? 0 then kSceOk else kSceErrorGeneric) []
                end
            end
        end
  end.

Definition sceNetSend (answer handle : Z) (buf : bytes) (flags : Z) (s : NetState) : NetOutcome :=
  match n_table s with
  | None => Aborts s
  | Some t =>
      match socket_of t handle with
      | None => Returns s kSceErrorNotFound []
      | Some fd => Returns (issue (HSend fd buf flags) s) (if answer <? 0 then kSceErrorGeneric else i32 answer) []
      end
  end.

(** [received] is what [recv] put into the buffer, [None] when it failed. *)
Definition sceNetRecv (received : option bytes) (handle len flags : Z) (s : NetState) : NetOutcome :=
  match n_table s with
  | None => Aborts s
  | Some t =>
      match socket_of t handle with
      | None => Returns s kSceErrorNotFound []
      | Some fd =>
          let s := issue (HRecv fd len flags) s in
          match received with
          | None => Returns s kSceErrorGeneric []
          | Some bs => Returns s (i32 (Z.of_nat (length bs))) bs
          end
      end
  end.

End SceNet.

(** ** The HTTP library *)
Module SceHttp.
Import HttpClient.

Definition kOk : Z := 0.
Definition kErrInvalidArg : Z := i32 0x80020005.
Definition kErrNotFound : Z := i32 0x80020004.
Definition kErrNotSupport : Z := i32 0x80020003.
Definition kErrDenied : Z := i32 0x80431077.

Inductive Kind := Template | Connection | Request.
#[export] Instance Kind_eq_dec : EqDecision Kind.
Proof. solve_decision. Defined.

Record HttpHandle := mkHandle {
  kind : Kind;
  url : bytes;
  method : bytes;
  responseBody : bytes;
  readCursor : nat;
  statusCode : Z;
  requestSent : bool
}.
Definition new_handle (k : Kind) (url method : bytes) : HttpHandle := mkHandle k url method [] 0 0 false.

Record t := mkHttp { g_handles : gmap Z HttpHandle; g_nextHandle : Z; g_client : option HttpClient.t; m_initialized : bool }.
Definition start : t := mkHttp ∅ 1 None false.
Definition with_handles (m : gmap Z HttpHandle) (s : t) : t := mkHttp m (g_nextHandle s) (g_client s) (m_initialized s).

(** The client's own answer is not looked at. *)
Definition initialize (global_ok easy_ok : bool) (s : t) : t * bool :=
  (mkHttp (g_handles s) (g_nextHandle s) (Some (fst (HttpClient.initialize global_ok easy_ok new_client))) true, true).
Definition shutdown (s : t) : t := mkHttp (g_handles s) (g_nextHandle s) None false.

Definition lookup_handle (h : Z) (want : Kind) (s : t) : option HttpHandle :=
  match g_handles s !! h with
  | Some x => if bool_decide (kind x = want) then Some x else None
  | None => None
  end.

(** [g_handles[g_nextHandle++] = h]. *)
Definition add_handle (x : HttpHandle) (s : t) : t * Z :=
  let id := g_nextHandle s in
  (mkHttp (<[id := x]> (g_handles s)) (u64 (id + 1)) (g_client s) (m_initialized s), id).

Definition sceHttpCreateTemplate (out_null : bool) (s : t) : t * Z * option Z :=
  if out_null then (s, kErrInvalidArg, None)
  else let '(s, id) := add_handle (new_handle Template [] []) s in (s, kOk, Some id).

(** The three deletions erase a handle of any kind. *)
Definition sceHttpDeleteTemplate (h : Z) (s : t) : t * Z := (with_handles (delete h (g_handles s)) s, kOk).
Definition sceHttpDeleteConnection (h : Z) (s : t) : t * Z := (with_handles (delete h (g_handles s)) s, kOk).
Definition sceHttpDeleteRequest (h : Z) (s : t) : t * Z := (with_handles (delete h (g_handles s)) s, kOk).

Definition sceHttpCreateConnectionWithURL (tpl : Z) (url : option bytes) (out_null : bool) (s : t) : t * Z * option Z :=
  match url, out_null with
  | Some u, false =>
      match lookup_handle tpl Template s with
      | None => (s, kErrNotFound, None)
      | Some _ => let '(s, id) := add_handle (new_handle Connection u []) s in (s, kOk, Some id)
      end
  | _, _ => (s, kErrInvalidArg, None)
  end.

Definition method_name (m : Z) : option bytes :=
  if m =? 0 then Some (cstr "GET") else if m =? 1 then Some (cstr "POST")
  else if m =? 2 then Some (cstr "HEAD") else if m =? 3 then Some (cstr "OPTIONS")
  else if m =? 4 then Some (cstr "PUT") else if m =? 5 then Some (cstr "DELETE")
  else if m =? 6 then Some (cstr "TRACE") else if m =? 7 then Some (cstr "CONNECT")
  else None.

Definition sceHttpCreateRequestWithURL (conn method : Z) (url : option bytes) (contentLength : Z) (out_null : bool)
    (s : t) : t * Z * option Z :=
  match url, out_null with
  | Some u, false =>
      match lookup_handle conn Connection s with
      | None => (s, kErrNotFound, None)
      | Some _ =>
          match method_name method with
          | None => (s, kErrInvalidArg, None)
          | Some m => let '(s, id) := add_handle (new_handle Request u m) s in (s, kOk, Some id)
          end
      end
  | _, _ => (s, kErrInvalidArg, None)
  end.

(** A request as [sceHttpSendRequest] builds it: no headers, the default
    timeout. *)
Definition request_of (x : HttpHandle) (postData : option bytes) : HttpRequest :=
  mkRequest (method x) (url x) [] (default [] postData) 30000.

(** [None]: the fault of a client without a handle.  The calls made to libcurl
    are returned. *)
Definition sceHttpSendRequest (have_curl : bool) (curl : HttpRequest -> option CurlAnswer)
    (policy : option NetworkPolicy.t) (req : Z) (postData : option bytes) (s : t) : option (t * Z * list HostCall) :=
  match lookup_handle req Request s with
  | None => Some (s, kErrNotFound, [])
  | Some x =>
      match g_client s with
      | None => Some (s, kErrNotSupport, [])
      | Some c =>
          match perform have_curl curl policy c (request_of x postData) with
          | Denied | Unlinked => Some (s, kErrDenied, [])
          | NoHandle => None
          | Failed sent => Some (s, kErrDenied, [sent])
          | Answered sent r =>
              let x' := mkHandle (kind x) (url x) (method x) (rs_body r) 0 (rs_statusCode r) true in
              Some (with_handles (<[req := x']> (g_handles s)) s, kOk, [sent])
          end
      end
  end.

Definition sceHttpGetStatusCode (req : Z) (out_null : bool) (s : t) : Z * option Z :=
  if out_null then (kErrInvalidArg, None)
  else match lookup_handle req Request s with
       | None => (kErrNotFound, None)
       | Some x => (kOk, Some (i32 (statusCode x)))
       end.

Definition sceHttpReadData (req : Z) (out_null : bool) (outSize : nat) (s : t) : t * Z * bytes :=
  if out_null || (outSize =? 0)%nat then (s, kErrInvalidArg, [])
  else
    match lookup_handle req Request s with
    | None => (s, kErrNotFound, [])
    | Some x =>
        if negb (requestSent x) then (s, kErrInvalidArg, [])
        else
          let remaining := (length (responseBody x) - readCursor x)%nat in
          let take_ := Nat.min remaining outSize in
          let data := take take_ (drop (readCursor x) (responseBody x)) in
          let x' := mkHandle (kind x) (url x) (method x) (responseBody x) (readCursor x + take_) (statusCode x)
                      (requestSent x) in
          (with_handles (<[req := x']> (g_handles s)) s, i32 (Z.of_nat take_), data)
    end.

Definition sceHttpGetContentLength (req : Z) (out_null : bool) (s : t) : Z * option Z :=
  if out_null then (kErrInvalidArg, None)
  else match lookup_handle req Request s with
       | None => (kErrNotFound, None)
       | Some x => (kOk, Some (Z.of_nat (length (responseBody x))))
       end.

Definition sceHttpSetRequestContentLength (req length : Z) (s : t) : Z :=
  match lookup_handle req Request s with None => kErrNotFound | Some _ => kOk end.

Definition sceHttpAddRequestHeader (req : Z) (name value : option bytes) (s : t) : Z := kErrNotSupport.

(** Reads of a title, one after the other. *)
Fixpoint reads (req : Z) (sizes : list nat) (s : t) : t * list bytes :=
  match sizes with
  | [] => (s, [])
  | n :: rest =>
      let '(s, _, data) := sceHttpReadData req false n s in
      let '(s, more) := reads req rest s in
      (s, data :: more)
  end.

End SceHttp.

(** ** A title's session

    Socket calls and HTTP requests in any order, on any arguments and with any
    answers of the host; policy and process are bound. *)
Inductive net_call :=
  | CSocket (fd domain type_ protocol : Z)
  | CClose (handle : Z)
  | CConnect (answer handle : Z) (addr : option SceNet.SceNetSockaddrIn) (addrLen : Z)
  | CSend (answer handle : Z) (buf : bytes) (flags : Z)
  | CRecv (received : option bytes) (handle len flags : Z)
  | CHttpSend (have_curl : bool) (answer : option HttpClient.CurlAnswer) (req : Z) (post : option bytes) (http : SceHttp.t).

Definition net_exec (c : net_call) (s : NetState) : NetState :=
  match c with
  | CSocket fd d ty pr => state_of (SceNet.sceNetSocket fd d ty pr s)
  | CClose h => state_of (SceNet.sceNetClose h s)
  | CConnect a h addr len => state_of (SceNet.sceNetConnect a h addr len s)
  | CSend a h buf fl => state_of (SceNet.sceNetSend a h buf fl s)
  | CRecv r h len fl => state_of (SceNet.sceNetRecv r h len fl s)
  | CHttpSend hc a req post http =>
      match SceHttp.sceHttpSendRequest hc (fun _ => a) (n_policy s) req post http with
      | None => s
      | Some (_, _, calls) => foldl (fun s h => issue h s) s calls
      end
  end.

(** A URL with a plain authority: a scheme, a host name without the
    separators of RFC 3986, a decimal port or none, and a path or nothing. *)
Definition host_char (c : Z) : Prop := c <> 47 /\ c <> 58 /\ c <> 64 /\ c <> 63 /\ c <> 35.
Inductive plain_url (host : bytes) : option Z -> bytes -> Prop :=
  | plain scheme port path :
      58 ∉ scheme -> Forall host_char host -> (forall n, port = Some n -> in_width 16 n) ->
      (path = [] \/ exists r, path = 47 :: r) ->
      plain_url host port
        (scheme ++ cstr "://" ++ (host ++ match port with Some n => 58 :: to_string n | None => [] end) ++ path).

(** What the policy must have said for a call to be made: it allows the
    address and port of a connection, and the host and port that a plain URL
    names, 443 when it names none. *)
Definition permitted (p : NetworkPolicy.t) (h : HostCall) : Prop :=
  match h with
  | HConnect _ addr port => fst (NetworkPolicy.allowConnect p (SceNet.inet_ntop addr) (SceNet.ntohs port)) = true
  | HCurl u => NetworkPolicy.m_mode p <> NetworkPolicy.Disabled /\
      forall host port, plain_url host port u ->
        fst (NetworkPolicy.allowConnect p host (default 443 port)) = true
  | _ => True
  end.

Section Lemmas.
Import NetworkPolicy SceNet.

Lemma to_string_byte v : in_width 8 v -> 46 ∉ to_string v.
Proof.
  intros H. assert (Hall : Forall (fun v => 46 ∉ to_string v) (seqZ 0 256)).
  { apply (bool_decide_unpack _). vm_compute. exact I. }
  rewrite Forall_forall in Hall. apply Hall. apply elem_of_seqZ. unfold in_width in H. lia.
Qed.

Lemma to_string_inj v w : in_width 8 v -> in_width 8 w -> to_string v = to_string w -> v = w.
Proof.
  intros Hv Hw. assert (Hall : Forall (fun v => foldl (fun v c => v * 10 + (c - 48)) 0 (to_string v) = v) (seqZ 0 256)).
  { apply (bool_decide_unpack _). vm_compute. exact I. }
  rewrite Forall_forall in Hall. intros E. unfold in_width in *.
  rewrite <- (Hall v), <- (Hall w) by (apply elem_of_seqZ; lia). by rewrite E.
Qed.

Lemma u8_width v : in_width 8 (u8 v).
Proof. by apply wrap_range. Qed.

(** The only address whose text is that of the local host is 127.0.0.1. *)
Lemma inet_ntop_localhost a : in_width 32 a -> isLocalhost (inet_ntop a) = true -> a = 0x0100007F.
Proof.
  intros Ha H. unfold isLocalhost in H.
  assert (46 ∈ inet_ntop a) as Hdot.
  { unfold inet_ntop. apply elem_of_app. right. apply elem_of_app. left. left. }
  assert (inet_ntop a = cstr "127.0.0.1") as E.
  { apply orb_true_iff in H as [H|H]; [apply orb_true_iff in H as [H|H]|]; apply bool_decide_eq_true in H; [done| |];
      rewrite H in Hdot; vm_compute in Hdot; repeat (apply elem_of_cons in Hdot as [Hdot|Hdot]; [discriminate Hdot|]);
      by apply elem_of_nil in Hdot. }
  unfold inet_ntop in E. change (cstr ".") with [46] in E. cbn [app] in E.
  change (cstr "127.0.0.1") with (to_string 127 ++ 46 :: to_string 0 ++ 46 :: to_string 0 ++ 46 :: to_string 1) in E.
  assert (forall v w r r', in_width 8 w -> to_string (u8 v) ++ 46 :: r = to_string w ++ 46 :: r' -> u8 v = w /\ r = r') as Hcut.
  { intros v w r r' Hw Eq. apply cut_unique in Eq as [E1 E2]; [|apply to_string_byte, u8_width|by apply to_string_byte].
    split; [|done]. apply to_string_inj; [apply u8_width|done|done]. }
  apply Hcut in E as [E0 E]; [|done]. apply Hcut in E as [E1 E]; [|done]. apply Hcut in E as [E2 E]; [|done].
  apply to_string_inj in E; [|apply u8_width|done].
  change (8 * 0) with 0 in E0. change (8 * 1) with 8 in E1. change (8 * 2) with 16 in E2. change (8 * 3) with 24 in E.
  unfold wrap, in_width in *. rewrite !Z.shiftr_div_pow2 in * by lia.
  change (2 ^ 0) with 1 in E0. change (2 ^ 8) with 256 in *. change (2 ^ 16) with 65536 in *. change (2 ^ 24) with 16777216 in *.
  dm_lia.
Qed.

Lemma foldl_issue s calls :
  n_policy (foldl (fun s h => issue h s) s calls) = n_policy s /\
  n_trace (foldl (fun s h => issue h s) s calls) = n_trace s ++ calls.
Proof.
  revert s. induction calls as [|h calls IH]; intros s; simpl; [by rewrite app_nil_r|].
  destruct (IH (issue h s)) as [-> ->]. simpl. by rewrite <- app_assoc.
Qed.

Lemma find_str_scheme scheme rest :
  58 ∉ scheme -> find_str (cstr "://") (scheme ++ cstr "://" ++ rest) = Some (length scheme).
Proof.
  induction scheme as [|c scheme IH]; intros Hn; [done|].
  apply not_elem_of_cons in Hn as [Hc Hn]. change ((c :: scheme) ++ cstr "://" ++ rest) with (c :: (scheme ++ cstr "://" ++ rest)).
  cbn [find_str]. rewrite bool_decide_eq_false_2; [by rewrite IH|].
  change (length (cstr "://")) with 3%nat. change (cstr "://") with [58; 47; 47]. cbn [take]. congruence.
Qed.

(** A decimal port has only digits, and [stoi] reads it back. *)
Lemma digits_prefix_all s : Forall (fun c => 48 <= c <= 57) s -> HttpClient.digits_prefix s = s.
Proof.
  induction 1 as [|c s Hc _ IH]; [done|]. cbn [HttpClient.digits_prefix].
  destruct (Z.leb_spec 48 c), (Z.leb_spec c 57); [|lia..]. simpl. by rewrite IH.
Qed.

Lemma port_text n :
  in_width 16 n -> 58 ∉ to_string n /\ 47 ∉ to_string n /\ u16 <$> HttpClient.stoi (to_string n) = Some n.
Proof.
  intros Hn. assert (forall c, c ∈ to_string n -> 48 <= c <= 57) as Hd by (intros c; apply dec_digits_range).
  pose proof (dec_digits_value 20 n ltac:(unfold in_width in Hn; lia)) as Hv. fold (to_string n) in Hv.
  split_and!; [intros H%Hd; lia..|].
  assert (to_string n <> []) as Hne.
  { unfold to_string. generalize 19%nat. intros k. cbn [dec_digits]. by intros [_ ?]%app_eq_nil. }
  unfold HttpClient.stoi. destruct (to_string n) as [|c s] eqn:E; [done|].
  assert (48 <= c <= 57) as Hc by (apply Hd; left). cbn [HttpClient.skip_isspace]. unfold HttpClient.isspace.
  destruct (Z.eqb_spec c 32), (Z.leb_spec 9 c), (Z.leb_spec c 13); try lia. cbn [orb andb].
  destruct (Z.eqb_spec c 45), (Z.eqb_spec c 43); try lia.
  rewrite digits_prefix_all by (apply Forall_forall; intros x Hx; by apply Hd). rewrite Hv.
  unfold in_width in Hn. destruct (Z.leb_spec (- 2 ^ 31) n), (Z.ltb_spec n (2 ^ 31)); try lia. simpl. f_equal.
  apply wrap_id. unfold in_width. lia.
Qed.

Lemma split_plain host port url :
  plain_url host port url -> HttpClient.split_url url = (host, default 443 port).
Proof.
  intros [scheme port' path Hs Hh Hp Hpath]. set (suffix := match port' with Some n => 58 :: to_string n | None => [] end).
  assert (forall c, (c = 47 \/ c = 58) -> c ∉ host) as Hnot.
  { intros c Hc Hin. rewrite Forall_forall in Hh. specialize (Hh c Hin). unfold host_char in Hh. lia. }
  assert (47 ∉ suffix) as Hslash.
  { unfold suffix. destruct port' as [n|]; [|apply not_elem_of_nil]. apply not_elem_of_cons. split; [done|].
    by destruct (port_text n (Hp n eq_refl)) as (_ & ? & _). }
  assert (47 ∉ host ++ suffix) as Hn by (rewrite not_elem_of_app; auto).
  unfold HttpClient.split_url. rewrite find_str_scheme by done.
  replace (drop (length scheme + 3) (scheme ++ cstr "://" ++ (host ++ suffix) ++ path)) with ((host ++ suffix) ++ path)
    by (by rewrite <- drop_drop, drop_app_length).
  assert (match find_char 47 ((host ++ suffix) ++ path) with Some i => take i ((host ++ suffix) ++ path) | None => (host ++ suffix) ++ path end
    = host ++ suffix) as ->.
  { destruct Hpath as [->|[r ->]]; [rewrite app_nil_r, find_char_none by done; done|].
    rewrite find_char_first by done. by rewrite take_app_length. }
  unfold suffix. destruct port' as [n|]; [|by rewrite app_nil_r, rfind_char_none by auto].
  destruct (port_text n (Hp n eq_refl)) as (E1 & _ & E2). rewrite rfind_char_last by done.
  change (host ++ 58 :: to_string n) with (host ++ [58] ++ to_string n).
  rewrite take_app_length. f_equal. rewrite app_assoc.
  replace (S (length host)) with (length (host ++ [58])) by (rewrite length_app; simpl; lia).
  by rewrite drop_app_length, E2.
Qed.

(** One call leaves the policy alone and adds only permitted host calls. *)
Lemma net_exec_spec p c s :
  n_policy s = Some p ->
  n_policy (net_exec c s) = Some p /\
  exists new, n_trace (net_exec c s) = n_trace s ++ new /\ Forall (permitted p) new.
Proof.
  intros Hp.
  assert (forall h s1, permitted p h -> n_policy s1 = Some p -> n_trace s1 = n_trace s ->
    n_policy (issue h s1) = Some p /\ exists new, n_trace (issue h s1) = n_trace s ++ new /\ Forall (permitted p) new) as Hissue.
  { intros h s1 Hh Hs1 Ht. split; [done|]. exists [h]. simpl. rewrite Ht. split; [done|by constructor]. }
  assert (forall s1, n_policy s1 = Some p -> n_trace s1 = n_trace s ->
    n_policy s1 = Some p /\ exists new, n_trace s1 = n_trace s ++ new /\ Forall (permitted p) new) as Hquiet.
  { intros s1 Hs1 Ht. split; [done|]. exists []. rewrite Ht, app_nil_r. split; [done|constructor]. }
  destruct c as [fd d ty pr|h|a h addr len|a h buf fl|r h len fl|hc a req post http]; simpl.
  - unfold sceNetSocket. destruct (fd <? 0); [by apply Hissue|].
    change (n_table (issue _ s)) with (n_table s). destruct (n_table s) as [t|]; [|by apply Hissue].
    destruct (HandleTable.registerObject _ _). simpl.
    exact (Hissue (HSocket d (convertSocketType ty) (convertSocketProtocol pr)) s I Hp eq_refl).
  - unfold sceNetClose. destruct (n_table s) as [t|]; [|by apply Hquiet].
    destruct (HandleTable.get t h); [|by apply Hquiet]. destruct (HandleTable.close t h) as [[t' b] dr].
    simpl. destruct (dr ≫= owned_fd); [by apply Hissue|by apply Hquiet].
  - unfold sceNetConnect. destruct addr as [x|]; [|by apply Hquiet]. destruct (len <? _); [by apply Hquiet|].
    destruct (n_table s) as [t|]; [|by apply Hquiet]. destruct (socket_of t h); [|by apply Hquiet].
    rewrite Hp. destruct (allowConnect p _ _) as [b reason] eqn:E. destruct b; simpl; [|by apply Hquiet].
    apply Hissue; [|done|done]. simpl. by rewrite E.
  - unfold sceNetSend. destruct (n_table s) as [t|]; [|by apply Hquiet]. destruct (socket_of t h); [by apply Hissue|by apply Hquiet].
  - unfold sceNetRecv. destruct (n_table s) as [t|]; [|by apply Hquiet]. destruct (socket_of t h); [|by apply Hquiet].
    destruct r; by apply Hissue.
  - unfold SceHttp.sceHttpSendRequest. destruct (SceHttp.lookup_handle _ _ _) as [x|]; [|by apply Hquiet].
    destruct (SceHttp.g_client http) as [cl|]; [|by apply Hquiet].
    unfold HttpClient.perform. rewrite Hp. unfold HttpClient.checkPolicy.
    destruct (HttpClient.split_url _) as [host port] eqn:Eu.
    destruct (allowConnect p host port) as [b reason] eqn:E. destruct b; cbn [fst negb]; [|by apply Hquiet].
    assert (permitted p (HCurl (HttpClient.rq_url (SceHttp.request_of x post)))) as Hperm.
    { split; [intros Hm; unfold allowConnect in E; by rewrite Hm in E|].
      intros host' port' Hu%split_plain. rewrite Hu in Eu. injection Eu as -> ->. by rewrite E. }
    destruct hc; cbn [negb]; [|by apply Hquiet]. destruct (HttpClient.c_handle cl); cbn [negb]; [|by apply Hquiet].
    destruct a; cbn [foldl]; by apply Hissue.
Qed.

Lemma body_concat acc chunks : foldl HttpClient.writeBody acc chunks = acc ++ concat chunks.
Proof.
  revert acc. induction chunks as [|c chunks IH]; intros acc; simpl; [by rewrite app_nil_r|].
  rewrite IH. unfold HttpClient.writeBody. by rewrite <- app_assoc.
Qed.

Lemma lookup_handle_Some h want s x :
  SceHttp.lookup_handle h want s = Some x -> SceHttp.g_handles s !! h = Some x /\ SceHttp.kind x = want.
Proof.
  unfold SceHttp.lookup_handle. destruct (_ !! h) as [y|]; [|done]. case_bool_decide; [|done]. by intros [= <-].
Qed.

Lemma lookup_handle_new h want s x :
  SceHttp.kind x = want ->
  SceHttp.lookup_handle h want (SceHttp.with_handles (<[h := x]> (SceHttp.g_handles s)) s) = Some x.
Proof.
  intros Hk. unfold SceHttp.lookup_handle. cbn [SceHttp.g_handles SceHttp.with_handles].
  rewrite lookup_insert_eq. by rewrite bool_decide_true.
Qed.

Lemma reads_body req sizes : forall s x,
  SceHttp.lookup_handle req SceHttp.Request s = Some x -> SceHttp.requestSent x = true ->
  Forall (fun n => n <> 0%nat) sizes ->
  concat (SceHttp.reads req sizes s).2 = take (list_sum sizes) (drop (SceHttp.readCursor x) (SceHttp.responseBody x)).
Proof.
  induction sizes as [|n sizes IH]; intros s x Hx Hs Hn; [done|].
  apply Forall_cons in Hn as [Hn Hrest]. cbn [SceHttp.reads].
  unfold SceHttp.sceHttpReadData. rewrite (proj2 (Nat.eqb_neq _ _) Hn), Hx, Hs. cbn [orb negb].
  set (t := Nat.min _ n). set (x' := SceHttp.mkHandle _ _ _ _ _ _ _).
  destruct (lookup_handle_Some _ _ _ _ Hx) as [_ Hk].
  specialize (IH _ x' (lookup_handle_new req SceHttp.Request s x' Hk) eq_refl Hrest).
  destruct (SceHttp.reads req sizes _) as [s2 more]. cbn [fst snd concat] in *. rewrite IH.
  subst x'. cbn [SceHttp.readCursor SceHttp.responseBody].
  set (b := drop (SceHttp.readCursor x) (SceHttp.responseBody x)).
  assert (t = Nat.min (length b) n) as Ht by (subst b t; by rewrite length_drop).
  rewrite <- drop_drop. fold b. change (list_sum (n :: sizes)) with (n + list_sum sizes)%nat.
  rewrite Ht. destruct (Nat.le_ge_cases (length b) n).
  - rewrite Nat.min_l, firstn_all, drop_all, take_nil, app_nil_r by done. by rewrite take_ge by lia.
  - rewrite Nat.min_r by done. rewrite <- (take_drop n b) at 3. rewrite take_app.
    rewrite length_take, Nat.min_l by done. rewrite take_take, Nat.min_r by lia. f_equal. f_equal. lia.
Qed.

End Lemmas.

Section Properties.
Import NetworkPolicy SceNet.

(** C8: in any session of socket calls and HTTP requests the policy never
    changes; every address a socket connects to was allowed by it, by the text
    of the address and the port; every URL of the form
    scheme://host[:port][/path] handed to libcurl names a host and port it
    allows (a URL without a port is checked as port 443, whatever the scheme);
    with [Disabled] there is no connection and no URL is handed over; and with
    [LocalhostOnly] every socket connects to 127.0.0.1 and every such URL names
    127.0.0.1, ::1 or localhost. URLs of another form, those with user
    information above all, may pass the check and name any host
    ([http_userinfo_bypass]), and libcurl follows the redirects of an answer
    without asking the policy. *)
Theorem network_confined calls p s :
  n_policy s = Some p -> n_trace s = [] ->
  let s' := foldl (fun s c => net_exec c s) s calls in
  n_policy s' = Some p /\ Forall (permitted p) (n_trace s') /\
  (m_mode p = Disabled -> forall h, h ∈ n_trace s' -> match h with HConnect _ _ _ | HCurl _ => False | _ => True end) /\
  (m_mode p = LocalhostOnly ->
     (forall fd addr port, HConnect fd addr port ∈ n_trace s' -> in_width 32 addr -> addr = 0x0100007F) /\
     (forall url host port, HCurl url ∈ n_trace s' -> plain_url host port url -> isLocalhost host = true)).
Proof.
  intros Hp Ht s'.
  assert (n_policy s' = Some p /\ Forall (permitted p) (n_trace s')) as [Hp' Hf].
  { assert (Forall (permitted p) (n_trace s)) as Hf by (rewrite Ht; constructor). clear Ht. unfold s'. clear s'.
    revert s Hp Hf. induction calls as [|c calls IH]; intros s Hp Hf; [done|]. simpl.
    destruct (net_exec_spec p c s Hp) as [Hp1 (new & Ht & Hnew)]. apply IH; [done|]. rewrite Ht. by apply Forall_app. }
  rewrite Forall_forall in Hf. split_and!; [done|by apply Forall_forall| |].
  - intros Hm h Hin. specialize (Hf h Hin). destruct h; try done; simpl in Hf; unfold allowConnect in Hf; rewrite Hm in Hf; [done|].
    by destruct Hf.
  - intros Hm. split.
    + intros fd addr port Hin Ha. specialize (Hf _ Hin). simpl in Hf. unfold allowConnect in Hf. rewrite Hm in Hf.
      destruct (isLocalhost _) eqn:E; [|done]. by apply inet_ntop_localhost.
    + intros url host port Hin Hu. destruct (Hf _ Hin) as [_ Hall]. specialize (Hall _ _ Hu). unfold allowConnect in Hall.
      rewrite Hm in Hall. by destruct (isLocalhost host).
Qed.

(** The host that the authority of a URL names, by RFC 3986: what follows the
    user information and precedes the port. *)
Definition authority_host (url : bytes) : bytes :=
  let rest := match find_str (cstr "://") url with Some i => drop (i + 3) url | None => url end in
  let cut c s := match find_char c s with Some i => take i s | None => s end in
  let authority := cut 35 (cut 63 (cut 47 rest)) in
  let hostport := match rfind_char 64 authority with Some i => drop (S i) authority | None => authority end in
  cut 58 hostport.

(** C20: the policy check of an HTTP request can be led astray.  For any host
    name there is a URL whose authority names that host and which the check
    reads as 127.0.0.1, so the request is handed to libcurl even under
    [LocalhostOnly]. *)
Theorem http_userinfo_bypass host rest p :
  Forall (fun c => c <> 47 /\ c <> 58 /\ c <> 64 /\ c <> 63 /\ c <> 35) host ->
  m_mode p = LocalhostOnly ->
  let url := cstr "http://127.0.0.1:x@" ++ host ++ cstr "/" ++ rest in
  authority_host url = host /\ HttpClient.checkPolicy (Some p) url = (true, None).
Proof.
  intros Hh Hm url.
  assert (forall c, c = 47 \/ c = 58 \/ c = 64 \/ c = 63 \/ c = 35 -> c ∉ host) as Hnot.
  { intros c Hc Hin. rewrite Forall_forall in Hh. specialize (Hh c Hin). lia. }
  assert (forall c pre, (c = 47 \/ c = 58 \/ c = 64 \/ c = 63 \/ c = 35) -> c ∉ pre -> c ∉ pre ++ host) as Hpre.
  { intros c pre Hc Hp' [H|H]%elem_of_app; [done|]. by apply (Hnot c Hc). }
  set (pre := cstr "127.0.0.1:x@").
  assert (match find_str (cstr "://") url with Some i => drop (i + 3) url | None => url end
    = (pre ++ host) ++ 47 :: rest) as Hrest.
  { assert (find_str (cstr "://") url = Some 4%nat) as -> by done. unfold url, pre. rewrite <- app_assoc. done. }
  assert (find_char 47 ((pre ++ host) ++ 47 :: rest) = Some (length (pre ++ host))) as Hslash.
  { apply find_char_first, Hpre; [lia|]. apply (bool_decide_unpack _). vm_compute. exact I. }
  split.
  - unfold authority_host. rewrite Hrest, Hslash, take_app_length.
    rewrite (find_char_none 63) by (apply Hpre; [lia|]; apply (bool_decide_unpack _); vm_compute; exact I).
    rewrite (find_char_none 35) by (apply Hpre; [lia|]; apply (bool_decide_unpack _); vm_compute; exact I).
    change (pre ++ host) with (cstr "127.0.0.1:x" ++ 64 :: host). rewrite rfind_char_last by (apply Hnot; lia).
    change (drop (S (length (cstr "127.0.0.1:x"))) (cstr "127.0.0.1:x" ++ 64 :: host)) with host.
    rewrite find_char_none by (apply Hnot; lia). done.
  - unfold HttpClient.checkPolicy, HttpClient.split_url. rewrite Hrest, Hslash, take_app_length.
    change (pre ++ host) with (cstr "127.0.0.1" ++ 58 :: cstr "x@" ++ host).
    rewrite rfind_char_last; [|apply Hpre; [lia|]; apply (bool_decide_unpack _); vm_compute; exact I].
    rewrite take_app_length. unfold allowConnect. by rewrite Hm.
Qed.

(** What a title reads is the body of the answer.  After a request that
    libcurl answered, the pieces that successive reads of non-zero sizes hand
    out are the body from its start, without gap or repetition, and the status
    and length are those of the answer. *)
Theorem http_reads_body hc curl policy req post s s' sent a sizes :
  SceHttp.sceHttpSendRequest hc curl policy req post s = Some (s', SceHttp.kOk, sent) ->
  (exists x, SceHttp.lookup_handle req SceHttp.Request s = Some x /\ curl (SceHttp.request_of x post) = Some a) ->
  Forall (fun n => n <> 0%nat) sizes ->
  concat (SceHttp.reads req sizes s').2 = take (list_sum sizes) (concat (HttpClient.cu_chunks a)) /\
  SceHttp.sceHttpGetStatusCode req false s' = (SceHttp.kOk, Some (i32 (HttpClient.cu_code a))) /\
  SceHttp.sceHttpGetContentLength req false s' =
    (SceHttp.kOk, Some (Z.of_nat (length (concat (HttpClient.cu_chunks a))))).
Proof.
  intros Hsend (x & Hx & Hcurl) Hsizes. unfold SceHttp.sceHttpSendRequest in Hsend. rewrite Hx in Hsend.
  destruct (SceHttp.g_client s) as [c|]; [|discriminate Hsend].
  destruct (HttpClient.perform hc curl policy c (SceHttp.request_of x post)) as [| | |h|h r] eqn:Ep; try discriminate Hsend.
  injection Hsend as <- _. unfold HttpClient.perform in Ep. rewrite Hcurl in Ep.
  repeat (destr_in Ep; try discriminate Ep). injection Ep as _ <-.
  destruct (lookup_handle_Some _ _ _ _ Hx) as [_ Hk].
  cbn [HttpClient.rs_body HttpClient.rs_statusCode]. rewrite body_concat.
  set (x' := SceHttp.mkHandle _ _ _ _ _ _ _).
  assert (SceHttp.lookup_handle req SceHttp.Request (SceHttp.with_handles (<[req := x']> (SceHttp.g_handles s)) s) = Some x') as Hx'
    by (by apply lookup_handle_new).
  split; [by rewrite (reads_body _ _ _ x')|].
  unfold SceHttp.sceHttpGetStatusCode, SceHttp.sceHttpGetContentLength. by rewrite Hx'.
Qed.

Definition demo_policy : NetworkPolicy.t := NetworkPolicy.initial.
Definition demo_net : NetState := mkNet (Some HandleTable.initial) (Some demo_policy) [].

Lemma network_confined_witness :
  Forall (permitted demo_policy)
    (n_trace (foldl (fun s c => net_exec c s) demo_net
       [CSocket 5 2 1 6; CConnect 0 3 (Some (mkAddr 16 2 0x5000 0x0100007F)) 16;
        CConnect 0 3 (Some (mkAddr 16 2 0x5000 0x08080808)) 16])).
Proof. apply (network_confined _ demo_policy demo_net); reflexivity. Defined.

Lemma http_userinfo_bypass_witness :
  HttpClient.checkPolicy (Some demo_policy) (cstr "http://127.0.0.1:x@example.com/data") = (true, None).
Proof.
  apply (http_userinfo_bypass (cstr "example.com") (cstr "data") demo_policy); [|reflexivity].
  apply (bool_decide_unpack _). vm_compute. exact I.
Defined.

Definition demo_answer : HttpClient.CurlAnswer := HttpClient.mkCurl 200 [cstr "A: b"] [cstr "hello "; cstr "world"].
Definition demo_http : SceHttp.t :=
  SceHttp.mkHttp {[1 := SceHttp.new_handle SceHttp.Request (cstr "http://localhost/") (cstr "GET")]} 2
    (Some (HttpClient.mkClient true true)) true.

Lemma http_reads_body_witness :
  exists s' sent, SceHttp.sceHttpSendRequest true (fun _ => Some demo_answer) (Some demo_policy) 1 None demo_http
    = Some (s', SceHttp.kOk, sent) /\
  concat (SceHttp.reads 1 [4; 20; 1]%nat s').2 = cstr "hello world".
Proof.
  destruct (SceHttp.sceHttpSendRequest true (fun _ => Some demo_answer) (Some demo_policy) 1 None demo_http)
    as [[[s' code] sent]|] eqn:E; [|vm_compute in E; discriminate E].
  assert (code = SceHttp.kOk) as -> by (vm_compute in E; by injection E).
  exists s', sent. split; [reflexivity|].
  destruct (http_reads_body true (fun _ => Some demo_answer) (Some demo_policy) 1 None demo_http s' sent demo_answer
    [4; 20; 1]%nat E) as [H _].
  - eexists. split; reflexivity.
  - repeat constructor; discriminate.
  - rewrite H. reflexivity.
Defined.

End Properties.
