(* ===== verification/Bgft.v ===== *)
(** * Background transfers

    [sce/bgft/BgftTransfer.cpp] and [sce/bgft/SceBgft.cpp]: a worker thread that
    copies files for the guest, one job at a time, between paths that the virtual
    filesystem resolves.  Guest calls and the worker interleave; the host decides
    which files open (after their parent directories are made) and how much of a
    write it takes; what it takes is in the file at once. *)
From S2P Require Import Prelude Vfs HostFile.

(** ** The worker and the calls of the guest *)
Module BgftTransfer.

Record Transfer := mkTransfer {
  guestSrc : bytes;
  guestDst : bytes;
  totalBytes : Z;
  copiedBytes : Z;
  state : Z;
  errorCode : Z;
  cancelRequested : bool
}.

Definition kPending : Z := 0.
Definition kRunning : Z := 1.
Definition kDone : Z := 2.
Definition kFailed : Z := 3.

Definition with_state (v : Z) (t : Transfer) : Transfer :=
  mkTransfer (guestSrc t) (guestDst t) (totalBytes t) (copiedBytes t) v (errorCode t) (cancelRequested t).
Definition with_error (v : Z) (t : Transfer) : Transfer :=
  mkTransfer (guestSrc t) (guestDst t) (totalBytes t) (copiedBytes t) (state t) v (cancelRequested t).
Definition with_total (v : Z) (t : Transfer) : Transfer :=
  mkTransfer (guestSrc t) (guestDst t) v (copiedBytes t) (state t) (errorCode t) (cancelRequested t).
Definition add_copied (n : Z) (t : Transfer) : Transfer :=
  mkTransfer (guestSrc t) (guestDst t) (totalBytes t) (u64 (copiedBytes t + n)) (state t) (errorCode t) (cancelRequested t).
Definition with_cancel (t : Transfer) : Transfer :=
  mkTransfer (guestSrc t) (guestDst t) (totalBytes t) (copiedBytes t) (state t) (errorCode t) true.

(** Where the worker is.  [Failing] is between the two stores of a failure;
    [bad] is the output stream's sticky error. *)
Inductive Pc :=
  | NoThread
  | Waiting
  | Popped (id : Z)
  | Opening (id : Z)
  | Failing (id code : Z)
  | Copying (id : Z) (src dst : bytes) (pos : nat) (bad : bool)
  | Closing (id : Z) (src dst : bytes) (bad : bool).

Record t := mkBgft {
  m_transfers : gmap Z Transfer;
  m_pending : list Z;
  m_running : bool;
  m_nextId : Z;
  m_files : Files;
  m_pc : Pc
}.
Definition start_state (fs : Files) : t := mkBgft ∅ [] false 1 fs NoThread.

Definition update (id : Z) (f : Transfer -> Transfer) (c : t) : t :=
  mkBgft (alter f id (m_transfers c)) (m_pending c) (m_running c) (m_nextId c) (m_files c) (m_pc c).
Definition with_pc (p : Pc) (c : t) : t :=
  mkBgft (m_transfers c) (m_pending c) (m_running c) (m_nextId c) (m_files c) p.
Definition with_files (fs : Files) (c : t) : t :=
  mkBgft (m_transfers c) (m_pending c) (m_running c) (m_nextId c) fs (m_pc c).

Definition new_transfer (src dst : bytes) : Transfer := mkTransfer src dst 0 0 kPending 0 false.

Definition submit (src dst : bytes) (c : t) : t * Z :=
  let id := m_nextId c in
  (mkBgft (<[id := new_transfer src dst]> (m_transfers c)) (m_pending c ++ [id]) (m_running c) (id + 1) (m_files c)
     (m_pc c), id).

(** Total, copied, state and error. *)
Definition query (id : Z) (c : t) : option (Z * Z * Z * Z) :=
  (fun x => (totalBytes x, copiedBytes x, state x, errorCode x)) <$> m_transfers c !! id.

Definition cancel (id : Z) (c : t) : t * bool :=
  match m_transfers c !! id with
  | None => (c, false)
  | Some _ => (update id with_cancel c, true)
  end.

Definition kChunk : nat := Z.to_nat (256 * 1024).

(** [state.store(3)] with the error to follow. *)
Definition fail_job (id code : Z) (c : t) : t := with_pc (Failing id code) (update id (with_state kFailed) c).

Definition host_path (p : FsPolicy.t) (guest : bytes) (op : FsPolicy.FsOp) : option bytes :=
  let tr := fst (VirtualFileSystem.resolve p guest op) in
  if VirtualFileSystem.ok tr then Some (VirtualFileSystem.tr_hostPath tr) else None.

(** From the running state to the head of the copying loop. *)
Definition open_job (proc : option FsPolicy.t) (in_ok out_ok : bool) (id : Z) (job : Transfer) (c : t) : t :=
  match proc with
  | None => fail_job id 0x80020005 c
  | Some p =>
      match host_path p (guestSrc job) FsPolicy.Read with
      | None => fail_job id 0x80020004 c
      | Some src =>
          match host_path p (guestDst job) FsPolicy.Create with
          | None => fail_job id 0x80020004 c
          | Some dst =>
              match (if in_ok then m_files c !! src else None) with
              | None => fail_job id 0x80020004 c
              | Some content =>
                  let c := update id (with_total (Z.of_nat (length content))) c in
                  if negb out_ok then fail_job id 0x80020002 c
                  else with_pc (Copying id src dst 0 false) (with_files (<[dst := []]> (m_files c)) c)
              end
          end
      end
  end.

(** One turn of the copying loop; the host takes [accepted] bytes. *)
Definition copy_chunk (accepted : nat) (id : Z) (src dst : bytes) (pos : nat) (bad : bool) (job : Transfer) (c : t) : t :=
  if cancelRequested job then fail_job id 0x8002000C c
  else
    let got := take kChunk (drop pos (default [] (m_files c !! src))) in
    let written := if bad then [] else take accepted got in
    let bad' := bad || (accepted <? length got)%nat in
    let c := with_files (<[dst := default [] (m_files c !! dst) ++ written]> (m_files c)) c in
    let c := update id (add_copied (Z.of_nat (length got))) c in
    with_pc (if (length got <? kChunk)%nat then Closing id src dst bad' else Copying id src dst (pos + length got) bad') c.

Definition finish_job (id : Z) (job : Transfer) (c : t) : t :=
  with_pc Waiting (if negb (cancelRequested job) then update id (with_state kDone) c else c).

Section Steps.
Context (proc : option FsPolicy.t).

Inductive worker_step : t -> t -> Prop :=
| w_take c id rest :
    m_pc c = Waiting -> m_running c = true -> m_pending c = id :: rest ->
    worker_step c (mkBgft (m_transfers c) rest (m_running c) (m_nextId c) (m_files c) (Popped id))
| w_exit c : m_pc c = Waiting -> m_running c = false -> worker_step c (with_pc NoThread c)
| w_begin c id : m_pc c = Popped id -> worker_step c (with_pc (Opening id) (update id (with_state kRunning) c))
| w_open c id job in_ok out_ok :
    m_pc c = Opening id -> m_transfers c !! id = Some job -> worker_step c (open_job proc in_ok out_ok id job c)
| w_fail c id code : m_pc c = Failing id code -> worker_step c (with_pc Waiting (update id (with_error code) c))
| w_copy c id src dst pos bad job accepted :
    m_pc c = Copying id src dst pos bad -> m_transfers c !! id = Some job ->
    worker_step c (copy_chunk accepted id src dst pos bad job c)
| w_finish c id src dst bad job :
    m_pc c = Closing id src dst bad -> m_transfers c !! id = Some job -> worker_step c (finish_job id job c).

(** The calls of the guest; a query changes nothing.  [stop] waits for the thread,
    so a new one is started when the old one is gone.  The id counter has 32
    bits: the relation stops before it wraps. *)
Inductive guest_step : t -> t -> Prop :=
| g_submit c src dst : m_nextId c < 2 ^ 32 - 1 -> guest_step c (fst (submit src dst c))
| g_cancel c id : guest_step c (fst (cancel id c))
| g_start c : m_running c = false -> m_pc c = NoThread ->
    guest_step c (mkBgft (m_transfers c) (m_pending c) true (m_nextId c) (m_files c) Waiting)
| g_stop c : guest_step c (mkBgft (m_transfers c) (m_pending c) false (m_nextId c) (m_files c) (m_pc c)).

Definition step (c c' : t) : Prop := worker_step c c' \/ guest_step c c'.
Definition reach : t -> t -> Prop := rtc step.

End Steps.

End BgftTransfer.

(** ** The exports *)
Module SceBgft.
Import BgftTransfer.

Definition kOk : Z := 0.
Definition kErrInvalidArg : Z := i32 0x80020005.
Definition kErrNotFound : Z := i32 0x80020004.

(** The strings of [InstallParam], each up to its terminator. *)
Record InstallParam := mkInstall { contentUrl : bytes; contentName : bytes; dstPath : bytes }.

Definition install_destination (p : InstallParam) : bytes :=
  let dst := dstPath p in
  let dst := match last dst with Some c => if c =? 47 then dst else dst ++ [47] | None => dst end in
  dst ++ contentName p.

Definition sceBgftServiceDownloadRegisterTask (p : option InstallParam) (out_null : bool) (c : t) : t * Z * option Z :=
  match p, out_null with
  | Some p, false => let '(c, id) := submit (contentUrl p) (install_destination p) c in (c, kOk, Some (i32 id))
  | _, _ => (c, kErrInvalidArg, None)
  end.

(** The 64 bytes of a task. *)
Definition sceBgftServiceDownloadGetTaskInfo (taskId : Z) (out_null : bool) (c : t) : Z * option bytes :=
  if out_null then (kErrInvalidArg, None)
  else
    match query (u32 taskId) c with
    | None => (kErrNotFound, None)
    | Some (total, copied, st, err) =>
        (kOk, Some (le_encode 4 (u32 taskId) ++ le_encode 4 st ++ le_encode 8 total ++ le_encode 8 copied
                    ++ le_encode 4 err ++ replicate 36 0))
    end.

Definition sceBgftServiceIntDownloadRegisterTaskByStorageEx (out_null : bool) : Z * option Z :=
  (kOk, if out_null then None else Some (-1)).

End SceBgft.

(** ** Invariants *)
Section Invariant.
Import BgftTransfer.

Definition pc_job (p : Pc) : option Z :=
  match p with
  | NoThread | Waiting => None
  | Popped id | Opening id | Failing id _ | Copying id _ _ _ _ | Closing id _ _ _ => Some id
  end.
Definition pc_state (p : Pc) : Z :=
  match p with
  | Failing _ _ => kFailed
  | Opening _ | Copying _ _ _ _ _ | Closing _ _ _ _ => kRunning
  | _ => kPending
  end.

(** A transfer that the worker has left. *)
Definition settled (x : Transfer) : Prop :=
  state x = kDone \/ state x = kFailed \/ (state x = kRunning /\ cancelRequested x = true).

Record inv (c : t) : Prop := mkInv {
  inv_ids id x : m_transfers c !! id = Some x -> id < m_nextId c;
  inv_nodup : NoDup (m_pending c);
  inv_pending id : id ∈ m_pending c ->
    pc_job (m_pc c) <> Some id /\ exists x, m_transfers c !! id = Some x /\ state x = kPending;
  inv_current id : pc_job (m_pc c) = Some id ->
    exists x, m_transfers c !! id = Some x /\ state x = pc_state (m_pc c);
  inv_rest id x : m_transfers c !! id = Some x -> id ∉ m_pending c -> pc_job (m_pc c) <> Some id -> settled x
}.

Lemma alter_Some (m : gmap Z Transfer) id f x : m !! id = Some x -> alter f id m = <[id := f x]> m.
Proof.
  intros H. apply map_eq. intros j. destruct (decide (j = id)) as [->|Hn].
  - by rewrite lookup_alter_eq, H, lookup_insert_eq.
  - by rewrite lookup_alter_ne, lookup_insert_ne by done.
Qed.

(** A step of the worker on its own job. *)
Lemma inv_own c c' id x x' :
  inv c -> pc_job (m_pc c) = Some id -> m_transfers c !! id = Some x ->
  m_transfers c' = <[id := x']> (m_transfers c) -> m_pending c' = m_pending c -> m_nextId c' = m_nextId c ->
  (pc_job (m_pc c') = Some id /\ state x' = pc_state (m_pc c')) \/ (pc_job (m_pc c') = None /\ settled x') ->
  inv c'.
Proof.
  intros [Hid Hnd Hp Hc Hr] Hj Hx Ht Hpe Hn Hpc.
  assert (forall j, pc_job (m_pc c') = Some j -> j = id) as Hj' by (intros j; destruct Hpc as [[-> _]|[-> _]]; [by intros [= <-]|done]).
  constructor; rewrite ?Ht, ?Hpe, ?Hn.
  - intros j y [[<- _]|[_ Hy]]%lookup_insert_Some; eauto.
  - done.
  - intros j Hj2. destruct (Hp j Hj2) as [Hne (y & Hy & Hs)].
    assert (j <> id) by (intros ->; congruence).
    split; [intros E; apply Hj' in E; done|]. exists y. by rewrite lookup_insert_ne.
  - intros j Hj2. pose proof (Hj' j Hj2) as ->. exists x'. rewrite lookup_insert_eq. split; [done|].
    destruct Hpc as [[_ H]|[H _]]; [done|congruence].
  - intros j y [[<- <-]|[Hne Hy]]%lookup_insert_Some Hnp Hnj.
    + destruct Hpc as [[H _]|[_ H]]; [congruence|done].
    + apply (Hr j y Hy Hnp). congruence.
Qed.

Lemma bgft_start_inv fs : inv (start_state fs).
Proof.
  constructor; simpl; [intros id x; by rewrite lookup_empty|constructor|by intros id ?%elem_of_nil|done|].
  intros id x; by rewrite lookup_empty.
Qed.

Lemma open_job_inv proc in_ok out_ok id job c :
  inv c -> m_pc c = Opening id -> m_transfers c !! id = Some job -> inv (open_job proc in_ok out_ok id job c).
Proof.
  intros Hinv Hpc Hx. assert (pc_job (m_pc c) = Some id) as Hj by (by rewrite Hpc).
  assert (forall code c1 y, inv c1 -> pc_job (m_pc c1) = Some id -> m_transfers c1 !! id = Some y -> inv (fail_job id code c1)) as Hfail.
  { intros code c1 y H1 H2 H3. eapply (inv_own c1 _ id y (with_state kFailed y)); try done; [|by left].
    simpl. by apply alter_Some. }
  unfold open_job. destruct proc as [p|]; [|by eapply Hfail].
  destruct (host_path p _ _) as [src|]; [|by eapply Hfail]. destruct (host_path p _ _) as [dst|]; [|by eapply Hfail].
  destruct (if in_ok then _ else _) as [content|]; [|by eapply Hfail].
  destruct (inv_current _ Hinv id Hj) as (y & Hy & Hs). rewrite Hpc in Hs. rewrite Hx in Hy. injection Hy as <-.
  set (job' := with_total (Z.of_nat (length content)) job).
  assert (m_transfers (update id (with_total (Z.of_nat (length content))) c) = <[id := job']> (m_transfers c)) as Ht
    by (simpl; by apply alter_Some).
  cbv zeta. destruct out_ok; cbn [negb].
  - eapply (inv_own c _ id job job'); try done. left. done.
  - eapply (Hfail _ _ job'); [|done|by rewrite Ht, lookup_insert_eq].
    eapply (inv_own c _ id job job'); try done. left. simpl. by rewrite Hpc.
Qed.

Lemma copy_chunk_inv accepted id src dst pos bad job c :
  inv c -> m_pc c = Copying id src dst pos bad -> m_transfers c !! id = Some job ->
  inv (copy_chunk accepted id src dst pos bad job c).
Proof.
  intros Hinv Hpc Hx. assert (pc_job (m_pc c) = Some id) as Hj by (by rewrite Hpc).
  destruct (inv_current _ Hinv id Hj) as (y & Hy & Hs). rewrite Hpc in Hs. rewrite Hx in Hy. injection Hy as <-.
  unfold copy_chunk. destruct (cancelRequested job) eqn:Ec.
  - eapply (inv_own c _ id job (with_state kFailed job)); try done; [simpl; by apply alter_Some|by left].
  - cbv zeta. eapply (inv_own c _ id job); try done; [simpl; by apply alter_Some|].
    left. cbn [m_pc with_pc]. by destruct (_ <? _)%nat.
Qed.

Lemma step_inv_bgft proc c c' : step proc c c' -> inv c -> inv c'.
Proof.
  intros [Hw|Hg] Hinv; [destruct Hw as [c id rest Hpc Hr Hp|c Hpc Hr|c id Hpc|c id job i o Hpc Hx|c id code Hpc|c id src dst pos bad job a Hpc Hx|c id src dst bad job Hpc Hx]|destruct Hg as [c src dst Hn|c id|c Hr Hpc|c]].
  - destruct Hinv as [Hid Hnd Hpe Hc Hre]. rewrite Hp in *. apply NoDup_cons in Hnd as [Hni Hnd].
    destruct (Hpe id) as [_ (x & Hx & Hs)]; [by left|].
    constructor; cbn [m_transfers m_pending m_nextId m_pc pc_job]; try done.
    + intros j Hj. destruct (Hpe j) as [_ Hy]; [by right|]. split; [congruence|done].
    + intros j [= <-]. by exists x.
    + intros j y Hy Hnj Hne. apply (Hre j y Hy); [|by rewrite Hpc].
      intros [->|Hin]%elem_of_cons; [done|done].
  - destruct Hinv as [Hid Hnd Hpe Hc Hre]. constructor; cbn [m_transfers m_pending m_nextId m_pc pc_job with_pc]; try done;
      rewrite Hpc in *; eauto.
  - destruct (inv_current _ Hinv id) as (x & Hx & Hs); [by rewrite Hpc|].
    eapply (inv_own c _ id x (with_state kRunning x)); try done; [by rewrite Hpc|simpl; by apply alter_Some|by left].
  - by apply open_job_inv.
  - destruct (inv_current _ Hinv id) as (x & Hx & Hs); [by rewrite Hpc|]. rewrite Hpc in Hs.
    eapply (inv_own c _ id x (with_error code x)); try done; [by rewrite Hpc|simpl; by apply alter_Some|].
    right. split; [done|]. right. by left.
  - by apply copy_chunk_inv.
  - destruct (inv_current _ Hinv id) as (x & Hx' & Hs); [by rewrite Hpc|]. rewrite Hpc in Hs. rewrite Hx in Hx'. injection Hx' as <-.
    unfold finish_job. destruct (cancelRequested job) eqn:Ec; cbn [negb].
    + eapply (inv_own c _ id job job); try done; [by rewrite Hpc|by rewrite insert_id|]. right. split; [done|]. by right; right.
    + eapply (inv_own c _ id job (with_state kDone job)); try done; [by rewrite Hpc|simpl; by apply alter_Some|].
      right. split; [done|]. by left.
  - destruct Hinv as [Hid Hnd Hpe Hc Hre].
    assert (m_transfers c !! m_nextId c = None) as Hfresh.
    { destruct (m_transfers c !! m_nextId c) eqn:E; [|done]. apply Hid in E. lia. }
    assert (m_nextId c ∉ m_pending c) as Hnp.
    { intros Hin. destruct (Hpe _ Hin) as [_ (x & Hx & _)]. congruence. }
    constructor; cbn [submit fst m_transfers m_pending m_nextId m_pc].
    + intros j y [[<- _]|[_ Hy]]%lookup_insert_Some; [lia|]. apply Hid in Hy. lia.
    + apply NoDup_app. split; [done|]. split; [|apply NoDup_singleton]. intros j Hj ->%list_elem_of_singleton. done.
    + intros j [Hj| ->%list_elem_of_singleton]%elem_of_app.
      * destruct (Hpe j Hj) as [Hne (x & Hx & Hs)]. split; [done|]. exists x. rewrite lookup_insert_ne by congruence. done.
      * split; [|eexists; by rewrite lookup_insert_eq]. intros Hj. destruct (Hc _ Hj) as (x & Hx & _). congruence.
    + intros j Hj. destruct (Hc j Hj) as (x & Hx & Hs). exists x. rewrite lookup_insert_ne by congruence. done.
    + intros j y [[<- _]|[Hne Hy]]%lookup_insert_Some Hnj Hj.
      * exfalso. apply Hnj. apply elem_of_app. right. by apply list_elem_of_singleton.
      * apply (Hre j y Hy); [|done]. intros Hin. apply Hnj. apply elem_of_app. by left.
  - unfold cancel. destruct (m_transfers c !! id) as [x|] eqn:Hx; [|done]. cbn [fst].
    destruct Hinv as [Hid Hnd Hpe Hc Hre].
    constructor; cbn [update m_transfers m_pending m_nextId m_pc]; rewrite ?(alter_Some _ _ _ x Hx).
    + intros j y [[<- _]|[_ Hy]]%lookup_insert_Some; eauto.
    + done.
    + intros j Hj. destruct (Hpe j Hj) as [Hne (y & Hy & Hs)]. split; [done|].
      destruct (decide (j = id)) as [->|]; [|exists y; by rewrite lookup_insert_ne].
      exists (with_cancel x). rewrite lookup_insert_eq. split; [done|]. simpl. congruence.
    + intros j Hj. destruct (Hc j Hj) as (y & Hy & Hs).
      destruct (decide (j = id)) as [->|]; [|exists y; by rewrite lookup_insert_ne].
      exists (with_cancel x). rewrite lookup_insert_eq. split; [done|]. simpl. congruence.
    + intros j y [[<- <-]|[_ Hy]]%lookup_insert_Some Hnj Hj; [|eauto].
      destruct (Hre _ _ Hx Hnj Hj) as [H|[H|[H _]]]; [by left|right; by left|by right; right].
  - destruct Hinv as [Hid Hnd Hpe Hc Hre]. constructor; cbn [m_transfers m_pending m_nextId m_pc pc_job]; try done;
      rewrite Hpc in *; eauto.
  - destruct Hinv as [Hid Hnd Hpe Hc Hre]. constructor; eauto.
Qed.

Lemma bgft_reach_inv proc c c' : reach proc c c' -> inv c -> inv c'.
Proof. induction 1 as [|c c1 c2 Hs _ IH]; [done|]. intros Hi. apply IH. by eapply step_inv_bgft. Qed.

End Invariant.

(** ** What a copy does to the files *)
Section Copies.
Import BgftTransfer.
Context (proc : option FsPolicy.t) (fs0 : Files).

(** A path below a mount that permits creation. *)
Definition writable_path (path : bytes) : Prop :=
  exists p mp comps, proc = Some p /\ FsPolicy.op_permitted mp FsPolicy.Create = true /\
    mp ∈ FsPolicy.m_mounts p /\ Forall VfsSpec.good_component comps /\
    path = VfsSpec.below (VfsSpec.mount_dir (FsPolicy.m_vfsRoot p) (FsPolicy.hostSubdir mp)) comps.

Lemma host_path_create p guest path :
  proc = Some p -> host_path p guest FsPolicy.Create = Some path -> writable_path path.
Proof.
  unfold host_path. intros Hp H. destruct (VirtualFileSystem.ok _) eqn:E; [|done]. injection H as <-.
  destruct (resolve_below _ _ _ E) as (mp & comps & Ho & Hm & Hg & Hb). by exists p, mp, comps.
Qed.

(** The job being copied: [pos content] bytes are done. *)
Definition copy_facts (c : t) (id : Z) (src dst : bytes) (pos : bytes -> nat) (bad : bool) : Prop :=
  exists p x content, proc = Some p /\ m_transfers c !! id = Some x /\
    host_path p (guestSrc x) FsPolicy.Read = Some src /\ host_path p (guestDst x) FsPolicy.Create = Some dst /\
    totalBytes x = Z.of_nat (length content) /\
    (src <> dst -> m_files c !! src = Some content /\ (pos content <= length content)%nat /\
       copiedBytes x = u64 (Z.of_nat (pos content)) /\
       (bad = false -> m_files c !! dst = Some (take (pos content) content))).

Definition copy_ok (c : t) : Prop :=
  match m_pc c with
  | Copying id src dst pos bad => copy_facts c id src dst (fun _ => pos) bad
  | Closing id src dst bad => copy_facts c id src dst length bad
  | _ => True
  end.

Definition untouched (c : t) : Prop :=
  (forall id x, m_transfers c !! id = Some x -> state x = kPending -> copiedBytes x = 0) /\
  (forall id x, m_pc c = Opening id -> m_transfers c !! id = Some x -> copiedBytes x = 0).

Record winv (c : t) : Prop := mkWinv {
  w_inv : inv c;
  w_untouched : untouched c;
  w_copy_ok : copy_ok c;
  w_files path : m_files c !! path <> fs0 !! path -> writable_path path
}.

Lemma copy_facts_ext c c' id src dst pos bad f :
  copy_facts c id src dst pos bad ->
  m_files c' = m_files c -> m_transfers c' !! id = f <$> m_transfers c !! id ->
  (forall x, guestSrc (f x) = guestSrc x /\ guestDst (f x) = guestDst x /\ totalBytes (f x) = totalBytes x /\
     copiedBytes (f x) = copiedBytes x) ->
  copy_facts c' id src dst pos bad.
Proof.
  intros (p & x & content & Hp & Hx & Hs & Hd & Ht & Hc) Hf Hx' Hf'. exists p, (f x), content.
  destruct (Hf' x) as (E1 & E2 & E3 & E4). rewrite Hx', Hx, E1, E2, E3, E4, Hf. by split_and!.
Qed.

Lemma open_job_winv in_ok out_ok id job c :
  winv c -> m_pc c = Opening id -> m_transfers c !! id = Some job -> winv (open_job proc in_ok out_ok id job c).
Proof.
  intros [Hinv [Hu1 Hu2] Hco Hfi] Hpc Hx. pose proof (open_job_inv proc in_ok out_ok id job c Hinv Hpc Hx) as Hinv'.
  assert (forall code c1, inv (fail_job id code c1) -> m_files c1 = m_files c ->
    (forall j y, j <> id -> m_transfers c1 !! j = Some y -> m_transfers c !! j = Some y) -> winv (fail_job id code c1)) as Hfail.
  { intros code c1 H1 H2 H3. constructor; [done| |done|simpl; by rewrite H2].
    split; [|done]. cbn [fail_job with_pc m_transfers update]. intros j y Hy Hs.
    destruct (decide (j = id)) as [->|Hn].
    - rewrite lookup_alter_eq in Hy. destruct (m_transfers c1 !! id); [|done]. injection Hy as <-. done.
    - rewrite lookup_alter_ne in Hy by done. by apply (Hu1 j); [apply H3|]. }
  unfold open_job in *. destruct proc as [p|] eqn:Ep; [|by apply Hfail].
  destruct (host_path p (guestSrc job) _) as [src|] eqn:Es; [|by apply Hfail].
  destruct (host_path p (guestDst job) _) as [dst|] eqn:Ed; [|by apply Hfail].
  destruct (if in_ok then _ else _) as [content|] eqn:Ec; [|by apply Hfail].
  assert (m_files c !! src = Some content) as Hcont by (by destruct in_ok).
  cbv zeta in *. destruct out_ok; cbn [negb] in *.
  - constructor; [done| | |].
    + split; [|done]. cbn [with_pc m_transfers with_files update]. intros j y Hy Hs.
      destruct (decide (j = id)) as [->|Hn]; [|rewrite lookup_alter_ne in Hy by done; by apply (Hu1 j)].
      rewrite lookup_alter_eq, Hx in Hy. injection Hy as <-. simpl. by apply (Hu2 id).
    + unfold copy_ok. cbn [with_pc m_pc]. exists p, (with_total (Z.of_nat (length content)) job), content.
      cbn [with_pc with_files m_transfers m_files update]. split; [done|].
      split; [by rewrite lookup_alter_eq, Hx|]. split_and!; try done.
      intros Hne. split_and!; [by rewrite lookup_insert_ne|lia| |intros _; by rewrite lookup_insert_eq].
      simpl. by apply (Hu2 id).
    + cbn [with_pc with_files m_files]. intros path Hp. destruct (decide (path = dst)) as [->|Hn].
      * by apply (host_path_create p (guestDst job)).
      * rewrite lookup_insert_ne in Hp by done. by apply Hfi.
  - apply Hfail; [done|done|]. intros j y Hn. cbn [update m_transfers]. by rewrite lookup_alter_ne.
Qed.

Lemma chunk_take (content : bytes) (pos : nat) (got : bytes) :
  (pos <= length content)%nat -> got = take kChunk (drop pos content) ->
  take pos content ++ got = take (pos + length got) content /\ (pos + length got <= length content)%nat /\
  ((length got < kChunk)%nat -> (pos + length got)%nat = length content).
Proof.
  intros Hp ->. rewrite length_take, length_drop.
  assert (take kChunk (drop pos content) = take (Nat.min kChunk (length content - pos)) (drop pos content)) as Ht.
  { destruct (Nat.le_ge_cases kChunk (length content - pos)); [by rewrite Nat.min_l|].
    rewrite Nat.min_r by done. rewrite !take_ge; rewrite ?length_drop; done. }
  split_and!; [|lia|lia]. rewrite Ht. generalize (Nat.min kChunk (length content - pos)). intros n.
  rewrite <- (take_drop pos content) at 3. rewrite take_app, length_take, Nat.min_l by done.
  rewrite take_take, Nat.min_r by lia. f_equal. f_equal. lia.
Qed.

Lemma copy_chunk_winv accepted id src dst pos bad job c :
  winv c -> m_pc c = Copying id src dst pos bad -> m_transfers c !! id = Some job ->
  winv (copy_chunk accepted id src dst pos bad job c).
Proof.
  intros [Hinv [Hu1 Hu2] Hco Hfi] Hpc Hx. pose proof (copy_chunk_inv accepted id src dst pos bad job c Hinv Hpc Hx) as Hinv'.
  unfold copy_ok in Hco. rewrite Hpc in Hco. destruct Hco as (p & x & content & Hp & Hx' & Hs & Hd & Ht & Hc).
  rewrite Hx in Hx'. injection Hx' as <-.
  destruct (inv_current _ Hinv id) as (y & Hy & Hst); [by rewrite Hpc|]. rewrite Hpc, Hx in *. injection Hy as <-.
  assert (forall f j y, state (f job) <> kPending -> alter f id (m_transfers c) !! j = Some y -> state y = kPending -> copiedBytes y = 0) as Hfresh.
  { intros f j y Hf Hy Hys. rewrite (alter_Some _ _ _ _ Hx) in Hy.
    apply lookup_insert_Some in Hy as [[<- <-]|[_ Hy]]; [done|by apply (Hu1 j)]. }
  unfold copy_chunk in *. destruct (cancelRequested job) eqn:Ec.
  - constructor; [done| |done|done]. split; [|done]. cbn [fail_job with_pc m_transfers update].
    intros j y. by apply Hfresh.
  - cbv zeta in *. set (got := take kChunk (drop pos (default [] (m_files c !! src)))) in *.
    set (written := if bad then [] else take accepted got) in *. set (bad' := bad || (accepted <? length got)%nat) in *.
    constructor; [done| | |].
    + cbn [with_pc with_files m_transfers update m_pc]. split.
      * intros j y. apply Hfresh. simpl. rewrite Hst. done.
      * intros j y Hj. by destruct (length got <? kChunk)%nat.
    + assert (forall q, (src <> dst -> forall content', m_files c !! src = Some content' -> q content' = (pos + length got)%nat) ->
        copy_facts (with_pc (if (length got <? kChunk)%nat then Closing id src dst bad' else Copying id src dst (pos + length got) bad')
          (update id (add_copied (Z.of_nat (length got)))
            (with_files (<[dst:=default [] (m_files c !! dst) ++ written]> (m_files c)) c))) id src dst q bad') as Hfacts.
      { intros q Hq. exists p, (add_copied (Z.of_nat (length got)) job), content.
        cbn [with_pc with_files m_transfers m_files update]. split; [done|].
        split; [by rewrite (alter_Some _ _ _ _ Hx), lookup_insert_eq|]. split_and!; try done.
        intros Hne. destruct (Hc Hne) as (Hsrc & Hpos & Hcop & Hdst). rewrite (Hq Hne content Hsrc).
        destruct (chunk_take content pos got Hpos) as (E1 & E2 & _); [subst got; by rewrite Hsrc|].
        split_and!; [by rewrite lookup_insert_ne|done| |].
        - cbn [copiedBytes add_copied]. rewrite Hcop. unfold wrap. rewrite Zplus_mod_idemp_l. f_equal. lia.
        - intros Hb. apply orb_false_iff in Hb as [-> Hb]. specialize (Hdst eq_refl). rewrite lookup_insert_eq, Hdst.
          change (default [] (Some (take pos content))) with (take pos content). subst written. rewrite (take_ge got) by lia. by rewrite <- E1. }
      unfold copy_ok. cbn [with_pc m_pc]. destruct (length got <? kChunk)%nat eqn:El.
      * apply (Hfacts length). intros Hne content' Hsrc. destruct (Hc Hne) as (Hsrc' & Hpos & _).
        rewrite Hsrc in Hsrc'. injection Hsrc' as ->.
        destruct (chunk_take content pos got Hpos) as (_ & _ & E3); [subst got; by rewrite Hsrc|]. symmetry. apply E3. lia.
      * apply (Hfacts (fun _ => (pos + length got)%nat)). done.
    + cbn [with_pc with_files update m_files]. intros path Hpath. destruct (decide (path = dst)) as [->|Hn].
      * by eapply host_path_create.
      * rewrite lookup_insert_ne in Hpath by done. by apply Hfi.
Qed.

(** Steps that leave the files alone and keep names and counts. *)
Lemma winv_quiet c c' :
  winv c -> inv c' -> m_files c' = m_files c -> untouched c' -> copy_ok c' -> winv c'.
Proof. intros [_ _ _ Hf] H1 H2 H3 H4. constructor; [done..|]. rewrite H2. exact Hf. Qed.

Lemma step_winv c c' : step proc c c' -> winv c -> winv c'.
Proof.
  intros Hstep Hw. assert (inv c') as Hinv' by (eapply step_inv_bgft; [done|apply Hw]).
  destruct Hw as [Hinv [Hu1 Hu2] Hco Hfi]. assert (winv c) as Hw by done.
  destruct Hstep as [Hs|Hs];
    [destruct Hs as [c id rest Hpc Hr Hp|c Hpc Hr|c id Hpc|c id job i o Hpc Hx|c id code Hpc|c id src dst pos bad job a Hpc Hx|c id src dst bad job Hpc Hx]
    |destruct Hs as [c src dst Hn|c id|c Hr Hpc|c]].
  - by apply (winv_quiet c).
  - by apply (winv_quiet c).
  - destruct (inv_current _ Hinv id) as (x & Hx & Hst); [by rewrite Hpc|]. rewrite Hpc in Hst.
    apply (winv_quiet c); try done. split; cbn [with_pc update m_transfers m_pc]; rewrite (alter_Some _ _ _ _ Hx).
    + intros j y [[<- <-]|[_ Hy]]%lookup_insert_Some Hs; [done|by apply (Hu1 j)].
    + intros j y [= <-]. rewrite lookup_insert_eq. intros [= <-]. simpl. by apply (Hu1 id).
  - by apply open_job_winv.
  - destruct (inv_current _ Hinv id) as (x & Hx & Hst); [by rewrite Hpc|]. rewrite Hpc in Hst.
    apply (winv_quiet c); try done. split; [|done]. cbn [with_pc update m_transfers m_pc]. rewrite (alter_Some _ _ _ _ Hx).
    intros j y [[<- <-]|[_ Hy]]%lookup_insert_Some Hs; [|by apply (Hu1 j)]. simpl in Hs. rewrite Hst in Hs. done.
  - by apply copy_chunk_winv.
  - apply (winv_quiet c); try done; [by unfold finish_job; destruct (cancelRequested job)|]. split; [|done].
    destruct (inv_current _ Hinv id) as (x & Hx' & Hst); [by rewrite Hpc|]. rewrite Hpc, Hx in *. injection Hx' as <-.
    unfold finish_job. destruct (cancelRequested job); cbn [negb with_pc update m_transfers]; [done|].
    rewrite (alter_Some _ _ _ _ Hx). intros j y [[<- <-]|[_ Hy]]%lookup_insert_Some Hs; [done|by apply (Hu1 j)].
  - apply (winv_quiet c); try done.
    + split; cbn [submit fst m_transfers m_pc].
      * intros j y [[<- <-]|[_ Hy]]%lookup_insert_Some Hs; [done|by apply (Hu1 j)].
      * intros j y Hj [[<- <-]|[_ Hy]]%lookup_insert_Some; [done|by apply (Hu2 j)].
    + assert (forall id src0 dst0 q b, copy_facts c id src0 dst0 q b -> copy_facts (fst (submit src dst c)) id src0 dst0 q b) as Hmono.
      { intros id src0 dst0 q b (p & x & content & Hp & Hx & Hrest). exists p, x, content. split; [done|]. split; [|done].
        cbn [submit fst m_transfers]. rewrite lookup_insert_ne; [done|]. apply (inv_ids _ Hinv) in Hx. lia. }
      unfold copy_ok in *. cbn [submit fst m_pc]. destruct (m_pc c); try done; by apply Hmono.
  - unfold cancel in *. destruct (m_transfers c !! id) as [x|] eqn:Hx; [|done]. cbn [fst] in *.
    apply (winv_quiet c); try done.
    + split; cbn [update m_transfers m_pc]; rewrite (alter_Some _ _ _ _ Hx).
      * intros j y [[<- <-]|[_ Hy]]%lookup_insert_Some Hs; [exact (Hu1 id x Hx Hs)|by apply (Hu1 j)].
      * intros j y Hj [[<- <-]|[_ Hy]]%lookup_insert_Some; [exact (Hu2 id x Hj Hx)|by apply (Hu2 j)].
    + assert (forall j src0 dst0 q b, copy_facts c j src0 dst0 q b -> copy_facts (update id with_cancel c) j src0 dst0 q b) as Hmono.
      { intros j src0 dst0 q b Hc. destruct (decide (j = id)) as [->|Hne].
        - apply (copy_facts_ext c _ _ _ _ _ _ with_cancel Hc); [done| |done]. cbn [update m_transfers]. apply lookup_alter_eq.
        - apply (copy_facts_ext c _ _ _ _ _ _ (fun x => x) Hc); [done| |done]. cbn [update m_transfers].
          rewrite lookup_alter_ne by done. by destruct (m_transfers c !! j). }
      unfold copy_ok in *. cbn [update m_pc]. destruct (m_pc c); try done; by apply Hmono.
  - by apply (winv_quiet c).
  - by apply (winv_quiet c).
Qed.

Lemma reach_winv c : reach proc (start_state fs0) c -> winv c.
Proof.
  intros H. assert (winv (start_state fs0)) as Hs.
  { constructor; [apply bgft_start_inv| |done|done]. split; simpl; [|done]. intros id x. by rewrite lookup_empty. }
  revert Hs. induction H as [|c1 c2 c3 Hst _ IH]; [done|]. intros Hw. apply IH. by eapply step_winv.
Qed.

End Copies.

(** ** Termination of the worker *)
Section Termination.
Import BgftTransfer.
Context (proc : option FsPolicy.t).

Definition dst_of (p : Pc) : option (bytes * nat) :=
  match p with Copying _ _ dst pos _ => Some (dst, pos) | _ => None end.

(** No file is larger than [M]; what is being written is not longer than what
    was read. *)
Record bounded (M : nat) (c : t) : Prop := mkBounded {
  b_files path bs : m_files c !! path = Some bs -> (length bs <= M)%nat;
  b_pos dst pos : dst_of (m_pc c) = Some (dst, pos) ->
    (pos <= M)%nat /\ (length (default [] (m_files c !! dst)) <= pos)%nat
}.

Definition job_cost (M : nat) : nat := (M + 8)%nat.
Definition pc_cost (M : nat) (p : Pc) : nat :=
  match p with
  | NoThread => 0
  | Waiting => 1
  | Failing _ _ | Closing _ _ _ _ => 2
  | Copying _ _ _ pos _ => (M - pos) + 4
  | Opening _ => M + 5
  | Popped _ => M + 6
  end.
Definition work (M : nat) (c : t) : nat := (length (m_pending c) * job_cost M + pc_cost M (m_pc c))%nat.

Lemma kChunk_pos : (0 < kChunk)%nat.
Proof. unfold kChunk. lia. Qed.

Lemma copy_chunk_bounded M accepted id src dst pos bad job c :
  bounded M c -> m_pc c = Copying id src dst pos bad -> 
  let c' := copy_chunk accepted id src dst pos bad job c in
  bounded M c' /\ (work M c' < work M c)%nat.
Proof.
  intros [Hf Hp] Hpc. destruct (Hp dst pos) as [Hpos Hdst]; [by rewrite Hpc|]. unfold copy_chunk, work. rewrite Hpc.
  destruct (cancelRequested job).
  { split; [constructor; [exact Hf|done]|]. cbn [fail_job with_pc update m_pending m_pc pc_cost]. lia. }
  cbv zeta. set (file := default [] (m_files c !! src)). set (got := take kChunk (drop pos file)).
  assert (length got <= kChunk /\ length got <= length file - pos)%nat as [Hg1 Hg2]
    by (subst got; rewrite length_take, length_drop; lia).
  assert (length file <= M)%nat as Hfile.
  { subst file. destruct (m_files c !! src) eqn:E; simpl; [by eapply Hf|lia]. }
  set (new := default [] (m_files c !! dst) ++ _).
  assert (length new <= pos + length got)%nat as Hnew.
  { subst new. rewrite length_app. destruct bad; simpl; [lia|]. rewrite length_take. lia. }
  assert (pos + length got <= M)%nat as HM by lia.
  pose proof kChunk_pos.
  split; [constructor|].
  - cbn [with_pc update with_files m_files]. intros path bs [[<- <-]|[_ H1]]%lookup_insert_Some; [lia|by eapply Hf].
  - cbn [with_pc update with_files m_files m_pc]. destruct (_ <? _)%nat; [done|]. intros d q [= <- <-].
    split; [lia|]. by rewrite lookup_insert_eq.
  - cbn [with_pc update with_files m_pending m_pc]. destruct (length got <? kChunk)%nat eqn:E; cbn [pc_cost]; lia.
Qed.

Lemma fail_job_bounded M id code c :
  bounded M c -> bounded M (fail_job id code c).
Proof. intros [Hf _]. by constructor. Qed.

Lemma worker_bounded M c c' :
  worker_step proc c c' -> bounded M c -> bounded M c' /\ (work M c' < work M c)%nat.
Proof.
  intros Hs Hb.
  destruct Hs as [c id rest Hpc Hr Hp|c Hpc Hr|c id Hpc|c id job i o Hpc Hx|c id code Hpc|c id src dst pos bad job a Hpc Hx|c id src dst bad job Hpc Hx];
    pose proof Hb as [Hf Hpos].
  - split; [by constructor|]. unfold work. rewrite Hpc, Hp. cbn [m_pending m_pc length pc_cost]. unfold job_cost. lia.
  - split; [by constructor|]. unfold work. rewrite Hpc. cbn [with_pc m_pending m_pc pc_cost]. lia.
  - split; [by constructor|]. unfold work. rewrite Hpc. cbn [with_pc update m_pending m_pc pc_cost]. lia.
  - assert (forall code c1, m_pending c1 = m_pending c -> m_files c1 = m_files c ->
      bounded M (fail_job id code c1) /\ (work M (fail_job id code c1) < work M c)%nat) as Hfail.
    { intros code c1 E1 E2. split; [constructor; [by rewrite <- E2 in Hf|done]|]. unfold work.
      cbn [fail_job with_pc update m_pending m_pc pc_cost]. rewrite E1, Hpc. cbn [pc_cost]. lia. }
    unfold open_job. destruct proc as [p|]; [|by apply Hfail].
    destruct (host_path p _ _); [|by apply Hfail]. destruct (host_path p _ _) as [dst|]; [|by apply Hfail].
    destruct (if i then _ else _) as [content|]; [|by apply Hfail]. cbv zeta. destruct o; cbn [negb]; [|by apply Hfail].
    split; [constructor|].
    + cbn [with_pc with_files m_files]. intros path bs [[<- <-]|[_ H1]]%lookup_insert_Some; [simpl; lia|by eapply Hf].
    + intros d q [= <- <-]. cbn [with_pc with_files m_files]. rewrite lookup_insert_eq. simpl. lia.
    + unfold work. rewrite Hpc. cbn [with_pc with_files update m_pending m_pc pc_cost]. lia.
  - split; [by constructor|]. unfold work. rewrite Hpc. cbn [with_pc update m_pending m_pc pc_cost]. lia.
  - by apply copy_chunk_bounded.
  - unfold finish_job. split; [constructor; [|done]; by destruct (cancelRequested job)|]. unfold work. rewrite Hpc.
    destruct (cancelRequested job); cbn [negb with_pc update m_pending m_pc pc_cost]; lia.
Qed.

Lemma guest_bounded M c c' : guest_step c c' -> bounded M c -> bounded M c'.
Proof.
  intros Hs [Hf Hp]. destruct Hs as [c src dst Hn|c id|c Hr Hpc|c]; try by constructor.
  unfold cancel. destruct (m_transfers c !! id); by constructor.
Qed.

Lemma reach_bounded M c c' : reach proc c c' -> bounded M c -> bounded M c'.
Proof.
  induction 1 as [|c c1 c2 [Hs|Hs] _ IH]; [done| |]; intros Hb; apply IH.
  - by eapply worker_bounded.
  - by eapply guest_bounded.
Qed.

(** A worker with a thread and something to do has a step. *)
Lemma worker_progress c :
  inv c -> (m_running c = true -> m_pc c <> NoThread) ->
  (forall c', ~ worker_step proc c c') -> m_running c = true -> m_pc c = Waiting /\ m_pending c = [].
Proof.
  intros Hinv Halive Hstuck Hr. specialize (Halive Hr).
  destruct (m_pc c) as [| |id|id|id code|id src dst pos bad|id src dst bad] eqn:Hpc; [done| | | | | |].
  - split; [done|]. destruct (m_pending c) as [|id rest] eqn:Hp; [done|]. exfalso. eapply Hstuck. by apply w_take.
  - exfalso. eapply Hstuck. by apply w_begin.
  - destruct (inv_current _ Hinv id) as (x & Hx & _); [by rewrite Hpc|]. exfalso. eapply Hstuck.
    by apply (w_open _ c id x true true).
  - exfalso. eapply Hstuck. by apply (w_fail _ c id code).
  - destruct (inv_current _ Hinv id) as (x & Hx & _); [by rewrite Hpc|]. exfalso. eapply Hstuck.
    by apply (w_copy _ c id src dst pos bad x 0%nat).
  - destruct (inv_current _ Hinv id) as (x & Hx & _); [by rewrite Hpc|]. exfalso. eapply Hstuck.
    by apply (w_finish _ c id src dst bad x).
Qed.

(** A running worker has its thread. *)
Lemma reach_alive c c' :
  reach proc c c' -> (m_running c = true -> m_pc c <> NoThread) -> m_running c' = true -> m_pc c' <> NoThread.
Proof.
  induction 1 as [|c c1 c2 Hs _ IH]; [done|]. intros Ha. apply IH. clear IH.
  destruct Hs as [Hs|Hs];
    [destruct Hs as [c id rest Hpc Hr Hp|c Hpc Hr|c id Hpc|c id job i o Hpc Hx|c id code Hpc|c id src dst pos bad job a Hpc Hx|c id src dst bad job Hpc Hx]
    |destruct Hs as [c src dst Hn|c id|c Hr Hpc|c]]; simpl; try done.
  - congruence.
  - intros _. unfold open_job, fail_job. repeat destr; done.
  - intros _. unfold copy_chunk, fail_job. repeat destr; try done; simpl; by destruct (_ <? _)%nat.
  - unfold cancel. by destruct (m_transfers c !! id).
Qed.

End Termination.

(** ** Properties *)
Section Properties.
Import BgftTransfer.

(** A transfer that is not queued and not the worker's is left as it is. *)
Lemma stuck_step proc c c' id :
  step proc c c' -> inv c -> id ∉ m_pending c -> pc_job (m_pc c) <> Some id ->
  (exists x, m_transfers c !! id = Some x /\ state x = kRunning) ->
  (id ∉ m_pending c') /\ pc_job (m_pc c') <> Some id /\ exists x, m_transfers c' !! id = Some x /\ state x = kRunning.
Proof.
  intros Hs Hinv Hn Hj (x & Hx & Hst).
  assert (forall j f, pc_job (m_pc c) = Some j -> alter f j (m_transfers c) !! id = Some x) as Hother.
  { intros j f Hjj. rewrite lookup_alter_ne; [done|]. congruence. }
  destruct Hs as [Hs|Hs];
    [destruct Hs as [c j rest Hpc Hru Hp|c Hpc Hru|c j Hpc|c j job i o Hpc Hjob|c j code Hpc|c j src dst pos bad job a Hpc Hjob|c j src dst bad job Hpc Hjob]
    |destruct Hs as [c src dst Hlt|c j|c Hru Hpc|c]]; rewrite ?Hpc in *; cbn [pc_job] in *.
  - rewrite Hp in Hn. apply not_elem_of_cons in Hn as [Hne Hn]. cbn [m_pending m_pc m_transfers pc_job].
    split; [done|]. split; [congruence|]. by exists x.
  - split_and!; try done. by exists x.
  - split_and!; try done. exists x. split; [|done]. cbn [with_pc update m_transfers]. by apply Hother.
  - unfold open_job, fail_job. repeat destr; cbn [with_pc with_files update m_pending m_pc m_transfers pc_job];
      (split; [done|]); (split; [done|]); exists x;
      (split; [by rewrite ?lookup_alter_ne by congruence|done]).
  - split_and!; try done. exists x. split; [|done]. cbn [with_pc update m_transfers]. by apply Hother.
  - unfold copy_chunk, fail_job. destruct (cancelRequested job); cbv zeta;
      cbn [with_pc with_files update m_pending m_pc m_transfers pc_job]; (split; [done|]); (split; [by try destruct (_ <? _)%nat|]);
      exists x; (split; [by apply Hother|done]).
  - unfold finish_job. split; [by destruct (cancelRequested job)|]. split; [done|]. exists x. split; [|done].
    destruct (cancelRequested job); cbn [negb with_pc update m_transfers]; [done|by apply Hother].
  - assert (id <> m_nextId c) as Hne by (apply (inv_ids _ Hinv) in Hx; lia).
    cbn [submit fst m_pending m_pc m_transfers]. split; [|split; [done|]].
    + intros [Hin| ->%list_elem_of_singleton]%elem_of_app; done.
    + exists x. by rewrite lookup_insert_ne.
  - unfold cancel. destruct (m_transfers c !! j) as [y|] eqn:Ey; cbn [fst]; [|split_and!; [done|done|by exists x]].
    cbn [update m_pending m_pc m_transfers]. split; [done|]. split; [done|].
    destruct (decide (j = id)) as [->|Hne]; [exists (with_cancel x); by rewrite lookup_alter_eq, Hx|].
    exists x. by rewrite lookup_alter_ne.
  - split_and!; try done. by exists x.
  - split_and!; try done. by exists x.
Qed.

Definition not_done (m : gmap Z Transfer) (id : Z) : Prop := forall x, m !! id = Some x -> state x <> kDone.
Lemma not_done_alter (j : Z) (f : Transfer -> Transfer) (m : gmap Z Transfer) id :
  (forall y, state y <> kDone -> state (f y) <> kDone) -> not_done m id -> not_done (alter f j m) id.
Proof.
  intros Hf Hm x Hx. destruct (decide (id = j)) as [->|Hn].
  - rewrite lookup_alter_eq in Hx. apply fmap_Some in Hx as (y & Hy & ->). apply Hf. by apply Hm.
  - rewrite lookup_alter_ne in Hx by done. by apply Hm.
Qed.

(** ** A run: [/data/a] is copied, chunk by chunk, until the worker closes it *)
Definition ex_proc : option FsPolicy.t := Some FsPolicy.default_policy.
Definition ex_src : bytes := cstr "virtual_fs/data/a".
Definition ex_files : Files := {[ex_src := [1; 2; 3]]}.
Section Run.
Context (to : bytes).
Definition ex_dst : bytes := cstr "virtual_fs" ++ to.
Definition ex_job : Transfer := mkTransfer (cstr "/data/a") to 0 0 kRunning 0 false.
Definition ex_open_job : Transfer := with_total 3 ex_job.
Definition ex_submitted : t := fst (submit (cstr "/data/a") to (start_state ex_files)).
Definition ex_started : t :=
  mkBgft (m_transfers ex_submitted) (m_pending ex_submitted) true (m_nextId ex_submitted) (m_files ex_submitted) Waiting.
Definition ex_popped : t :=
  mkBgft (m_transfers ex_started) [] (m_running ex_started) (m_nextId ex_started) (m_files ex_started) (Popped 1).
Definition ex_opening : t := with_pc (Opening 1) (update 1 (with_state kRunning) ex_popped).
Definition ex_copying : t := open_job ex_proc true true 1 ex_job ex_opening.
Definition ex_closing : t := copy_chunk 3 1 ex_src ex_dst 0 false ex_open_job ex_copying.

Lemma ex_opening_reach : reach ex_proc (start_state ex_files) ex_opening.
Proof.
  apply (rtc_l _ _ ex_submitted); [right; by apply (g_submit _ (cstr "/data/a") to)|].
  apply (rtc_l _ _ ex_started); [right; by apply g_start|].
  apply (rtc_l _ _ ex_popped); [left; by apply (w_take _ _ 1 [])|].
  apply (rtc_l _ _ ex_opening); [left; by apply (w_begin _ ex_popped 1)|]. apply rtc_refl.
Qed.
End Run.

Definition ex_to : bytes := cstr "/data/b".
Lemma ex_closing_steps : rtc (worker_step ex_proc) (ex_opening ex_to) (ex_closing ex_to).
Proof.
  apply (rtc_l _ _ (ex_copying ex_to)); [apply (w_open _ _ 1 (ex_job ex_to) true true); by vm_compute|].
  apply (rtc_l _ _ (ex_closing ex_to)); [|apply rtc_refl].
  apply (w_copy _ _ 1 ex_src (ex_dst ex_to) 0 false (ex_open_job ex_to) 3); by vm_compute.
Qed.
Lemma ex_closing_reach : reach ex_proc (start_state ex_files) (ex_closing ex_to).
Proof.
  unfold reach. etrans; [apply ex_opening_reach|]. eapply rtc_subrel; [|apply ex_closing_steps]. intros a b Hab. by left.
Qed.

(** Transfers stay in the sandbox.  Whatever the guest submits and cancels
    and whenever, the only host files that ever differ are below the host
    directory of a mount whose policy permits creation. *)
Theorem bgft_confined proc fs c path :
  reach proc (start_state fs) c -> m_files c !! path <> fs !! path -> writable_path proc path.
Proof. intros Hr. by apply (w_files _ _ _ (reach_winv proc fs c Hr)). Qed.

Lemma bgft_confined_witness :
  m_files (ex_closing ex_to) !! ex_dst ex_to = Some [1; 2; 3] /\ writable_path ex_proc (ex_dst ex_to).
Proof.
  split; [by vm_compute|]. apply (bgft_confined ex_proc ex_files (ex_closing ex_to)); [apply ex_closing_reach|].
  vm_compute. discriminate.
Defined.



(** C38: the worker finishes its work: from any reachable state in which it has not been
    stopped, once the guest is quiet, it makes at most as many steps as its work measure for
    files of at most [M] bytes, and when it can make no more the queue is empty and every
    transfer reports done or failed, or is one that the guest cancelled too late and that
    still reports running - for ever, [late_cancel_never_ends]. (A worker that was stopped leaves
    its queue as it is.) *)
Theorem transfers_settle proc fs M c c' n :
  (forall path bs, fs !! path = Some bs -> (length bs <= M)%nat) ->
  reach proc (start_state fs) c -> m_running c = true -> nsteps (worker_step proc) n c c' ->
  (n <= work M c)%nat /\
  ((forall c2, ~ worker_step proc c' c2) ->
     m_pending c' = [] /\ forall id x, m_transfers c' !! id = Some x -> settled x).
Proof.
  intros Hfs Hr Hrun Hn.
  assert (bounded M c) as Hb by (apply (reach_bounded proc M _ _ Hr); by constructor).
  assert (reach proc (start_state fs) c') as Hr'.
  { unfold reach in *; etrans; [exact Hr|]. clear -Hn. induction Hn as [|n c c1 c2 H1 _ IH]; [reflexivity|].
    eapply rtc_l; [left; exact H1|exact IH]. }
  split.
  - clear -Hb Hn. induction Hn as [|n c c1 c2 H1 _ IH]; [lia|].
    destruct (worker_bounded proc M _ _ H1 Hb) as [Hb1 Hlt]. specialize (IH Hb1). lia.
  - intros Hstuck. assert (inv c') as Hinv by apply (reach_winv proc fs c' Hr').
    assert (m_running c' = true) as Hrun'.
    { clear -Hn Hrun. induction Hn as [|n c c1 c2 H1 _ IH]; [done|]. apply IH.
      destruct H1; simpl; try done; [unfold open_job, fail_job|unfold copy_chunk, fail_job|unfold finish_job]; repeat destr; done. }
    destruct (worker_progress proc c' Hinv) as [Hpc Hp]; [|done|done|].
    + by apply (reach_alive proc _ _ Hr').
    + split; [done|]. intros id x Hx. apply (inv_rest _ Hinv id x Hx); [rewrite Hp; by intros ?%elem_of_nil|by rewrite Hpc].
Qed.

Lemma transfers_settle_witness :
  exists n, nsteps (worker_step ex_proc) n (ex_opening ex_to) (ex_closing ex_to) /\ (n <= work 3 (ex_opening ex_to))%nat.
Proof.
  destruct (rtc_nsteps_1 _ _ ex_closing_steps) as [n Hn]. exists n. split; [exact Hn|].
  apply (transfers_settle ex_proc ex_files 3 (ex_opening ex_to) (ex_closing ex_to) n); [|apply ex_opening_reach|done|exact Hn].
  unfold ex_files. intros path bs [_ <-]%lookup_singleton_Some. simpl. lia.
Defined.

(** A file copied onto itself is lost.  When source and destination
    resolve to the same host file, opening the destination empties it before it
    is read: the transfer ends as done with nothing copied, its total still the
    old length, and the file is empty. *)
Theorem self_copy_destroys p c id job path content :
  m_pc c = Opening id -> m_transfers c !! id = Some job -> cancelRequested job = false -> copiedBytes job = 0 ->
  host_path p (guestSrc job) FsPolicy.Read = Some path -> host_path p (guestDst job) FsPolicy.Create = Some path ->
  m_files c !! path = Some content ->
  exists c', rtc (worker_step (Some p)) c c' /\ m_files c' !! path = Some [] /\
    query id c' = Some (Z.of_nat (length content), 0, kDone, errorCode job).
Proof.
  intros Hpc Hx Hc Hz Hs Hd Hf.
  set (c1 := open_job (Some p) true true id job c).
  assert (m_pc c1 = Copying id path path 0 false /\ m_files c1 = <[path := []]> (m_files c) /\
    m_transfers c1 !! id = Some (with_total (Z.of_nat (length content)) job)) as (Hpc1 & Hf1 & Hx1).
  { unfold c1, open_job. rewrite Hs, Hd, Hf. cbn [negb with_pc with_files update m_pc m_files m_transfers].
    by rewrite lookup_alter_eq, Hx. }
  set (job1 := with_total (Z.of_nat (length content)) job) in *.
  set (c2 := copy_chunk 0 id path path 0 false job1 c1).
  assert (m_pc c2 = Closing id path path false /\ m_files c2 !! path = Some [] /\
    m_transfers c2 !! id = Some (add_copied 0 job1)) as (Hpc2 & Hf2 & Hx2).
  { unfold c2, copy_chunk. change (cancelRequested job1) with (cancelRequested job). rewrite Hc. cbv zeta.
    rewrite Hf1, lookup_insert_eq. change (default [] (Some [])) with (@nil Z). rewrite drop_nil, take_nil.
    pose proof kChunk_pos. rewrite (proj2 (Nat.ltb_lt _ _)) by (simpl; lia).
    cbn [with_pc with_files update m_pc m_files m_transfers]. rewrite lookup_insert_eq, lookup_alter_eq, Hx1. done. }
  exists (finish_job id (add_copied 0 job1) c2). split.
  - eapply rtc_l; [by apply (w_open _ c id job true true)|]. eapply rtc_l; [by apply (w_copy _ c1 id path path 0 false job1 0)|].
    eapply rtc_l; [by apply (w_finish _ c2 id path path false)|]. reflexivity.
  - unfold finish_job. change (cancelRequested (add_copied 0 job1)) with (cancelRequested job). rewrite Hc. cbn [negb].
    split; [exact Hf2|]. unfold query. cbn [with_pc update m_transfers]. rewrite lookup_alter_eq, Hx2. simpl. by rewrite Hz.
Qed.

Lemma self_copy_destroys_witness :
  exists c', rtc (worker_step ex_proc) (ex_opening (cstr "/data/a")) c' /\ m_files c' !! ex_src = Some [] /\
    query 1 c' = Some (3, 0, kDone, 0).
Proof.
  apply (self_copy_destroys FsPolicy.default_policy (ex_opening (cstr "/data/a")) 1 (ex_job (cstr "/data/a")) ex_src [1; 2; 3]);
    by vm_compute.
Defined.

(** A cancel that comes late hangs the transfer.  If the guest cancels
    while the worker is closing the file, the transfer is neither done nor
    failed afterwards: it stays running in every later state. *)
Theorem late_cancel_never_ends proc fs c id src dst bad :
  reach proc (start_state fs) c -> m_pc c = Closing id src dst bad ->
  exists c2, reach proc c c2 /\
    forall c3, reach proc c2 c3 -> exists x, m_transfers c3 !! id = Some x /\ state x = kRunning.
Proof.
  intros Hr Hpc. pose proof (w_inv _ _ _ (reach_winv proc fs c Hr)) as Hinv.
  destruct (inv_current _ Hinv id) as (x & Hx & Hst); [by rewrite Hpc|]. rewrite Hpc in Hst.
  set (c1 := update id with_cancel c).
  assert (step proc c c1) as H1.
  { right. replace c1 with (fst (cancel id c)); [apply g_cancel|]. unfold cancel. by rewrite Hx. }
  assert (m_transfers c1 !! id = Some (with_cancel x)) as Hx1 by (unfold c1; simpl; by rewrite lookup_alter_eq, Hx).
  set (c2 := finish_job id (with_cancel x) c1).
  assert (step proc c1 c2) as H2 by (left; by apply (w_finish _ c1 id src dst bad)).
  assert (inv c2) as Hinv2 by (eapply step_inv_bgft; [exact H2|]; by eapply step_inv_bgft).
  exists c2. split; [eapply rtc_l; [exact H1|]; eapply rtc_l; [exact H2|reflexivity]|].
  assert (forall c3, reach proc c2 c3 -> inv c3 /\ (id ∉ m_pending c3) /\ pc_job (m_pc c3) <> Some id /\
    exists x, m_transfers c3 !! id = Some x /\ state x = kRunning) as H.
  { intros c3 Hr3. 
    assert (id ∉ m_pending c2) as Hn2.
    { intros Hin. destruct (inv_pending _ Hinv id Hin) as [Hne _]. rewrite Hpc in Hne. done. }
    assert (inv c2 /\ (id ∉ m_pending c2) /\ pc_job (m_pc c2) <> Some id /\
      exists x, m_transfers c2 !! id = Some x /\ state x = kRunning) as Hbase.
    { split_and!; try done. exists (with_cancel x). done. }
    clear -Hr3 Hbase. induction Hr3 as [|a b d Hs _ IH]; [done|]. apply IH. clear IH.
    destruct Hbase as (Hi & Hn & Hj & y & Hy & Hys). split; [by eapply step_inv_bgft|]. apply (stuck_step proc a b id Hs Hi Hn Hj). by exists y. }
  intros c3 Hr3. apply (H c3 Hr3).
Qed.

Lemma late_cancel_never_ends_witness :
  exists c2, reach ex_proc (ex_closing ex_to) c2 /\
    forall c3, reach ex_proc c2 c3 -> exists x, m_transfers c3 !! 1 = Some x /\ state x = kRunning.
Proof.
  apply (late_cancel_never_ends ex_proc ex_files (ex_closing ex_to) 1 ex_src (ex_dst ex_to) false);
    [apply ex_closing_reach|by vm_compute].
Defined.

End Properties.
