(* ===== verification/Gal.v ===== *)
(** * The graphics abstraction layer

    [graphics/abstraction/]: the types every back end shares, and the contract of
    a device as the class [GraphicsDevice]: which resources it holds and what
    creating and destroying one does to them (only views may be destroyed by a handle
    that is the device's own).  [Vulkan] and [OpenGl] implement it;
    [Gnm] is proved against it. *)
From S2P Require Import Prelude.

(** ** GraphicsTypes.hpp *)
Module Gal.

Inductive Format :=
  | Unknown
  | R8G8B8A8_Unorm
  | B8G8R8A8_Unorm
  | R8G8B8A8_Srgb
  | B8G8R8A8_Srgb
  | R16G16B16A16_Sfloat
  | R32G32B32A32_Sfloat
  | D32_Sfloat
  | D24_Unorm_S8_Uint.
#[global] Instance Format_eq_dec : EqDecision Format.
Proof. solve_decision. Defined.

(** [enum class ResourceUsage : std::uint32_t]. *)
Definition Sampled : Z := 1.
Definition Storage : Z := 2.
Definition Color : Z := 4.
Definition Depth : Z := 8.
Definition Vertex : Z := 16.
Definition Index : Z := 32.
Definition Uniform : Z := 64.
Definition Transfer : Z := 128.
Definition hasUsage (v f : Z) : bool := negb (Z.land v f =? 0).

Inductive ShaderStage := StageVertex | StageFragment | StageCompute.
#[global] Instance ShaderStage_eq_dec : EqDecision ShaderStage.
Proof. solve_decision. Defined.

(** Descriptions, without their debug names. *)
Record BufferDesc := mkBufferDesc { bd_size : Z; bd_usage : Z }.
Record ImageDesc := mkImageDesc {
  id_width : Z; id_height : Z; id_depth : Z; id_mips : Z; id_layers : Z; id_format : Format; id_usage : Z
}.
(** [sd_aniso] is [maxAniso > 1]. *)
Record SamplerDesc := mkSamplerDesc { sd_nearest : bool; sd_repeat : bool; sd_aniso : bool }.
Record SwapchainDesc := mkSwapchainDesc { sw_width : Z; sw_height : Z; sw_vsync : bool }.

(** Floats as their bit patterns. *)
Record ClearColor := mkClear { cc_r : Z; cc_g : Z; cc_b : Z; cc_a : Z }.
Record Viewport := mkViewport { vp_x : Z; vp_y : Z; vp_w : Z; vp_h : Z; vp_minDepth : Z; vp_maxDepth : Z }.
Record Scissor := mkScissor { sc_x : Z; sc_y : Z; sc_w : Z; sc_h : Z }.
Definition one_f : Z := 0x3F800000.

Record FrameContext := mkFrame {
  fc_imageView : Z; fc_width : Z; fc_height : Z; fc_imageIndex : Z; fc_format : Format
}.

(** The kinds of handles. *)
Inductive Kind := KBuffer | KImage | KView | KSampler | KShader | KPipeline | KFence | KSemaphore.
#[global] Instance Kind_eq_dec : EqDecision Kind.
Proof. solve_decision. Defined.
Definition kind_code (k : Kind) : Z :=
  match k with
  | KBuffer => 0 | KImage => 1 | KView => 2 | KSampler => 3 | KShader => 4 | KPipeline => 5 | KFence => 6 | KSemaphore => 7
  end.
Definition kind_of (n : Z) : Kind :=
  match n with
  | 0 => KBuffer | 1 => KImage | 2 => KView | 3 => KSampler | 4 => KShader | 5 => KPipeline | 6 => KFence | _ => KSemaphore
  end.
#[global] Instance Kind_countable : Countable Kind.
Proof. apply (inj_countable' kind_code kind_of). by intros []. Defined.

Definition all_kinds : list Kind := [KBuffer; KImage; KView; KSampler; KShader; KPipeline; KFence; KSemaphore].

(** Exactly the handles a device has given out and not taken back. *)
Definition Live := gset (Kind * Z).

Lemma elem_of_kinds (X : Kind -> gset Z) k h : (k, h) ∈ ⋃ ((fun k => set_map (D := Live) (pair k) (X k)) <$> all_kinds) <-> h ∈ X k.
Proof.
  rewrite elem_of_union_list. setoid_rewrite list_elem_of_fmap. split.
  - intros (Y & (k' & -> & _) & H). apply elem_of_map in H as (h' & [= -> ->] & H). done.
  - intros H. exists (set_map (pair k) (X k)). split; [|by apply elem_of_map; exists h].
    exists k. split; [done|]. unfold all_kinds. destruct k; set_solver.
Qed.

End Gal.

(** ** The contract of a device

    The operations that the resource registry uses.  A call may leave no state
    ([None]: it faults or never returns); the laws say when it does not. *)
Class GraphicsDevice (D : Type) := {
  gd_createBuffer : Gal.BufferDesc -> D -> option (D * Z);
  gd_createImage : Gal.ImageDesc -> D -> option (D * Z);
  gd_createImageView : Z -> D -> option (D * Z);
  gd_destroy : Gal.Kind -> Z -> D -> option D;
  gd_ok : D -> Prop;
  gd_live : D -> Gal.Live
}.

(** What a creation did: nothing, answering the null handle, or one new resource. *)
Definition created `{GraphicsDevice D} (k : Gal.Kind) (d : D) (r : option (D * Z)) : Prop :=
  exists d' h, r = Some (d', h) /\ gd_ok d' /\
    ((h = 0 /\ gd_live d' = gd_live d) \/
     (h <> 0 /\ ((k, h) ∉ gd_live d) /\ gd_live d' = {[(k, h)]} ∪ gd_live d)).

Class GraphicsDeviceLaws (D : Type) `{GraphicsDevice D} := {
  gd_createBuffer_law desc d : gd_ok d -> created Gal.KBuffer d (gd_createBuffer desc d);
  gd_createImage_law desc d : gd_ok d -> created Gal.KImage d (gd_createImage desc d);
  gd_createImageView_law image d : gd_ok d -> created Gal.KView d (gd_createImageView image d);
  gd_destroy_law k h d : gd_ok d -> k <> Gal.KView \/ (k, h) ∈ gd_live d ->
    exists d', gd_destroy k h d = Some d' /\ gd_ok d' /\ gd_live d' = gd_live d ∖ {[(k, h)]}
}.

(** ** What the entries of a table hold *)

Definition flat {A B} (g : Z * A -> list B) (m : gmap Z A) : list B := concat (g <$> map_to_list m).

Lemma flat_insert {A B} (g : Z * A -> list B) m k x : m !! k = None -> flat g (<[k := x]> m) ≡ₚ g (k, x) ++ flat g m.
Proof. intros H. unfold flat. by rewrite map_to_list_insert by done. Qed.
Lemma flat_delete {A B} (g : Z * A -> list B) m k x : m !! k = Some x -> flat g m ≡ₚ g (k, x) ++ flat g (delete k m).
Proof. intros H. unfold flat. by rewrite <- (map_to_list_delete m k x H). Qed.
Lemma flat_elem {A B} (g : Z * A -> list B) m k x y : m !! k = Some x -> y ∈ g (k, x) -> y ∈ flat g m.
Proof.
  intros H Hy. rewrite (flat_delete g m k x H). apply elem_of_app. by left.
Qed.
Lemma flat_ext {A B} (g1 g2 : Z * A -> list B) m :
  (forall k x, m !! k = Some x -> g1 (k, x) = g2 (k, x)) -> flat g1 m = flat g2 m.
Proof.
  intros H. unfold flat. f_equal. apply list_fmap_ext. intros i [k x] Hi. apply H.
  apply elem_of_map_to_list. by eapply list_elem_of_lookup_2.
Qed.
