(* ===== verification/Vulkan.v ===== *)
(** * The Vulkan back end

    [graphics/vulkan/VulkanDevice.cpp]: the device's tables of resources, its
    swapchain and its frames.  The Vulkan loader is an environment: [World] says
    what it answers, and [Driver] keeps what it holds for the caller -- which
    objects are alive, the bytes of mapped memory, the state of each fence, the
    command buffers that were submitted. *)
From S2P Require Import Prelude Gal.
Import Gal.

(** ** The driver *)

Inductive VkResult := VK_SUCCESS | VK_SUBOPTIMAL_KHR | VK_ERROR_OUT_OF_DATE_KHR | VK_OTHER (code : Z).
#[global] Instance VkResult_eq_dec : EqDecision VkResult.
Proof. solve_decision. Defined.

Inductive VkFormat :=
  | VK_FORMAT_UNDEFINED
  | VK_FORMAT_R8G8B8A8_UNORM
  | VK_FORMAT_B8G8R8A8_UNORM
  | VK_FORMAT_R8G8B8A8_SRGB
  | VK_FORMAT_B8G8R8A8_SRGB
  | VK_FORMAT_R16G16B16A16_SFLOAT
  | VK_FORMAT_R32G32B32A32_SFLOAT
  | VK_FORMAT_D32_SFLOAT
  | VK_FORMAT_D24_UNORM_S8_UINT
  | VK_FORMAT_OTHER (code : Z).
#[global] Instance VkFormat_eq_dec : EqDecision VkFormat.
Proof. solve_decision. Defined.

(** Usage flags, as the list of those set. *)
Inductive VkUsage :=
  | USE_SAMPLED | USE_STORAGE | USE_COLOR_ATTACHMENT | USE_DEPTH_STENCIL_ATTACHMENT
  | USE_VERTEX_BUFFER | USE_INDEX_BUFFER | USE_UNIFORM_BUFFER | USE_STORAGE_BUFFER
  | USE_TRANSFER_DST | USE_TRANSFER_SRC.

(** The objects a caller owns, with what they were created from. *)
Inductive Obj :=
  | OInstance (validation : bool)
  | OSurface
  | ODevice (families : list Z)
  | OCommandPool (family : Z)
  | OFence
  | OSemaphore
  | OSwapchain (images : Z) (format : VkFormat) (width height : Z) (shared vsync : bool)
  | OImageView (image : Z) (format : VkFormat)
  | OBuffer (size : Z) (usage : list VkUsage)
  | OImage (three_d : bool) (format : VkFormat) (width height depth mips layers : Z) (usage : list VkUsage)
  | OMemory (size typeIndex : Z)
  | OSampler (nearest repeat aniso : bool)
  | OShaderModule (code : bytes)
  | OPipelineLayout
  | OPipeline (vs fs layout : Z).

Inductive Class_ :=
  | CInstance | CSurface | CDevice | CCommandPool | CFence | CSemaphore | CSwapchain | CImageView
  | CBuffer | CImage | CMemory | CSampler | CShaderModule | CPipelineLayout | CPipeline.
#[global] Instance Class_eq_dec : EqDecision Class_.
Proof. solve_decision. Defined.

Definition class (o : Obj) : Class_ :=
  match o with
  | OInstance _ => CInstance | OSurface => CSurface | ODevice _ => CDevice | OCommandPool _ => CCommandPool
  | OFence => CFence | OSemaphore => CSemaphore | OSwapchain _ _ _ _ _ _ => CSwapchain
  | OImageView _ _ => CImageView | OBuffer _ _ => CBuffer | OImage _ _ _ _ _ _ _ _ => CImage
  | OMemory _ _ => CMemory | OSampler _ _ _ => CSampler | OShaderModule _ => CShaderModule
  | OPipelineLayout => CPipelineLayout | OPipeline _ _ _ => CPipeline
  end.

Inductive FenceState := Signaled | Unsignaled | InFlight.
#[global] Instance FenceState_eq_dec : EqDecision FenceState.
Proof. solve_decision. Defined.

Inductive Layout := L_UNDEFINED | L_TRANSFER_DST | L_PRESENT_SRC | L_SHADER_READ_ONLY.
Inductive Cmd :=
  | CmdBarrier (image : Z) (from to : Layout)
  | CmdClear (image : Z) (color : ClearColor)
  | CmdCopy (buffer image width height : Z).

(** A handle is a number the driver has not used before; 0 is the null handle. *)
Record Driver := mkDriver {
  d_next : Z;
  d_live : gmap Z Obj;
  d_mem : gmap Z bytes;
  d_fences : gmap Z FenceState;
  d_submitted : list (list Cmd);
  d_calls : nat
}.

(** What the host answers: the result of each fallible call by its number, and the
    data of the queries. *)
Record Caps := mkCaps {
  currentExtent : Z * Z; minImageExtent : Z * Z; maxImageExtent : Z * Z; minImageCount : Z; maxImageCount : Z
}.
Record World := mkWorld {
  w_result : nat -> VkResult;
  w_validation : bool;
  w_surface : bool;
  w_devices : list (list (bool * bool));
  w_reqs : Obj -> Z * Z;
  w_memTypes : list (bool * bool);
  w_caps : Caps;
  w_formats : list (VkFormat * bool);
  w_swapImages : list Z;
  w_acquire : nat -> Z
}.

(** How a call ends without returning: a mutex locked twice by one thread, a wait
    on a fence that nothing will signal, an object or a range the driver does not
    have, a command for a buffer that is not recording, the first element of an
    empty list. *)
Inductive Fault := SelfDeadlock | NeverSignaled | InvalidObject (h : Z) (c : Class_) | InvalidRange | NotRecording | NoElement.

(** ** Conversions *)

Definition toVkFormat (f : Format) : VkFormat :=
  match f with
  | R8G8B8A8_Unorm => VK_FORMAT_R8G8B8A8_UNORM
  | B8G8R8A8_Unorm => VK_FORMAT_B8G8R8A8_UNORM
  | R8G8B8A8_Srgb => VK_FORMAT_R8G8B8A8_SRGB
  | B8G8R8A8_Srgb => VK_FORMAT_B8G8R8A8_SRGB
  | R16G16B16A16_Sfloat => VK_FORMAT_R16G16B16A16_SFLOAT
  | R32G32B32A32_Sfloat => VK_FORMAT_R32G32B32A32_SFLOAT
  | D32_Sfloat => VK_FORMAT_D32_SFLOAT
  | D24_Unorm_S8_Uint => VK_FORMAT_D24_UNORM_S8_UINT
  | Unknown => VK_FORMAT_UNDEFINED
  end.

Definition fromVkFormat (f : VkFormat) : Format :=
  match f with
  | VK_FORMAT_R8G8B8A8_UNORM => R8G8B8A8_Unorm
  | VK_FORMAT_B8G8R8A8_UNORM => B8G8R8A8_Unorm
  | VK_FORMAT_R8G8B8A8_SRGB => R8G8B8A8_Srgb
  | VK_FORMAT_B8G8R8A8_SRGB => B8G8R8A8_Srgb
  | VK_FORMAT_R16G16B16A16_SFLOAT => R16G16B16A16_Sfloat
  | VK_FORMAT_R32G32B32A32_SFLOAT => R32G32B32A32_Sfloat
  | VK_FORMAT_D32_SFLOAT => D32_Sfloat
  | VK_FORMAT_D24_UNORM_S8_UINT => D24_Unorm_S8_Uint
  | VK_FORMAT_UNDEFINED | VK_FORMAT_OTHER _ => Unknown
  end.

Definition toVkImageUsage (u : Z) : list VkUsage :=
  let out :=
    (if hasUsage u Sampled then [USE_SAMPLED] else []) ++
    (if hasUsage u Storage then [USE_STORAGE] else []) ++
    (if hasUsage u Color then [USE_COLOR_ATTACHMENT] else []) ++
    (if hasUsage u Depth then [USE_DEPTH_STENCIL_ATTACHMENT] else []) ++
    (if hasUsage u Transfer then [USE_TRANSFER_DST; USE_TRANSFER_SRC] else []) in
  match out with [] => [USE_SAMPLED; USE_TRANSFER_DST] | _ => out end.

Definition toVkBufferUsage (u : Z) : list VkUsage :=
  let out :=
    (if hasUsage u Vertex then [USE_VERTEX_BUFFER] else []) ++
    (if hasUsage u Index then [USE_INDEX_BUFFER] else []) ++
    (if hasUsage u Uniform then [USE_UNIFORM_BUFFER] else []) ++
    (if hasUsage u Storage then [USE_STORAGE_BUFFER] else []) ++
    (if hasUsage u Transfer then [USE_TRANSFER_DST; USE_TRANSFER_SRC] else []) in
  match out with [] => [USE_TRANSFER_DST] | _ => out end.

(** ** The state of a device *)

Module VulkanDevice.

Definition kMaxFramesInFlight : nat := 2.
Definition UINT32_MAX : Z := 2 ^ 32 - 1.

Record Base := mkBase {
  hasValidation : bool;
  instance : Z;
  surface : Z;
  device : Z;
  graphicsFamily : Z;
  presentFamily : Z;
  transferPool : Z
}.
Record PerFrame := mkPerFrame { cmdPool : Z; inFlight : Z; imageAvailable : Z; renderFinished : Z; cmdBuffer : list Cmd; recording : bool }.
Record Frames := mkFrames { perFrame : list PerFrame; frameIndex : nat; inFrame : bool; framebufferResized : bool }.
Record Chain := mkChain {
  swapchain : Z;
  swapImages : list Z;
  swapViews : list Z;
  swapViewHandles : list Z;
  swapFormat : VkFormat;
  swapExtent : Z * Z;
  swapIndex : Z
}.
Record BufferEntry := mkBufferEntry { be_buffer : Z; be_memory : Z; be_size : Z }.
Record ImageEntry := mkImageEntry { ie_image : Z; ie_memory : Z; ie_format : VkFormat; ie_width : Z; ie_height : Z }.
Record Tables := mkTables {
  nextHandle : Z;
  buffers : gmap Z BufferEntry;
  images : gmap Z ImageEntry;
  views : gmap Z Z;
  samplers : gmap Z Z;
  shaders : gmap Z (Z * ShaderStage);
  pipelines : gmap Z Z;
  fences : gmap Z Z;
  semaphores : gmap Z Z
}.

Record Vk := mkVk { locked : bool; drv : Driver; base : Base; chain : Chain; frames : Frames; tabs : Tables }.

Definition no_frame : PerFrame := mkPerFrame 0 0 0 0 [] false.
Definition initial : Vk :=
  mkVk false (mkDriver 1 ∅ ∅ ∅ [] 0) (mkBase false 0 0 0 0 0 0) (mkChain 0 [] [] [] VK_FORMAT_UNDEFINED (0, 0) 0)
    (mkFrames (replicate kMaxFramesInFlight no_frame) 0 false false) (mkTables 1 ∅ ∅ ∅ ∅ ∅ ∅ ∅ ∅).

(** ** The monad of a call *)

Inductive Res (A : Type) := Done (a : A) (s : Vk) | Stopped (f : Fault).
Arguments Done {A} a s.
Arguments Stopped {A} f.
Definition V (A : Type) : Type := Vk -> Res A.

#[global] Instance V_ret : MRet V := fun A a s => Done a s.
#[global] Instance V_bind : MBind V := fun A B f m s => match m s with Done a s' => f a s' | Stopped e => Stopped e end.
Definition stop {A} (e : Fault) : V A := fun _ => Stopped e.
Definition read {A} (f : Vk -> A) : V A := fun s => Done (f s) s.
Definition set_drv (f : Driver -> Driver) : V () := fun s =>
  Done tt (mkVk (locked s) (f (drv s)) (base s) (chain s) (frames s) (tabs s)).
Definition set_base (b : Base) : V () := fun s => Done tt (mkVk (locked s) (drv s) b (chain s) (frames s) (tabs s)).
Definition set_chain (c : Chain) : V () := fun s => Done tt (mkVk (locked s) (drv s) (base s) c (frames s) (tabs s)).
Definition set_frames (f : Frames) : V () := fun s => Done tt (mkVk (locked s) (drv s) (base s) (chain s) f (tabs s)).
Definition set_tabs (t : Tables) : V () := fun s => Done tt (mkVk (locked s) (drv s) (base s) (chain s) (frames s) t).

(** [std::lock_guard lock(m_mutex)] around the rest of the function. *)
Definition with_lock {A} (m : V A) : V A := fun s =>
  if locked s then Stopped SelfDeadlock
  else
    match m (mkVk true (drv s) (base s) (chain s) (frames s) (tabs s)) with
    | Done a s' => Done a (mkVk false (drv s') (base s') (chain s') (frames s') (tabs s'))
    | Stopped e => Stopped e
    end.

Fixpoint for_each {A} (l : list A) (f : A -> V ()) : V () :=
  match l with [] => mret tt | x :: l => _ ← f x; for_each l f end.

(** *** Calls of the driver *)

Section WithWorld.
Context (w : World).

Definition d_tick (d : Driver) : Driver :=
  mkDriver (d_next d) (d_live d) (d_mem d) (d_fences d) (d_submitted d) (S (d_calls d)).
(** The result of the next fallible call. *)
Definition answer : V VkResult :=
  n ← read (fun s => d_calls (drv s));
  _ ← set_drv d_tick;
  mret (w_result w n).

Definition d_add (o : Obj) (d : Driver) : Driver :=
  mkDriver (d_next d + 1) (<[d_next d := o]> (d_live d))
    (match o with OMemory size _ => <[d_next d := replicate (Z.to_nat size) 0]> (d_mem d) | _ => d_mem d end)
    (match o with OFence => <[d_next d := Unsignaled]> (d_fences d) | _ => d_fences d end) (d_submitted d) (d_calls d).
Definition d_remove (h : Z) (d : Driver) : Driver :=
  mkDriver (d_next d) (delete h (d_live d)) (delete h (d_mem d)) (delete h (d_fences d)) (d_submitted d) (d_calls d).
Definition d_set_fence (h : Z) (f : FenceState) (d : Driver) : Driver :=
  mkDriver (d_next d) (d_live d) (d_mem d) (<[h := f]> (d_fences d)) (d_submitted d) (d_calls d).
Definition d_submit (c : list Cmd) (d : Driver) : Driver :=
  mkDriver (d_next d) (d_live d) (d_mem d) (d_fences d) (d_submitted d ++ [c]) (d_calls d).
Definition d_write (h : Z) (content : bytes) (d : Driver) : Driver :=
  mkDriver (d_next d) (d_live d) (<[h := content]> (d_mem d)) (d_fences d) (d_submitted d) (d_calls d).

(** [vkCreate*], [vkAllocateMemory]: a new object, or none. *)
Definition create (o : Obj) : V (option Z) :=
  r ← answer;
  if decide (r = VK_SUCCESS) then h ← read (fun s => d_next (drv s)); _ ← set_drv (d_add o); mret (Some h)
  else mret None.

(** [vkDestroy*], [vkFreeMemory]: the null handle is allowed. *)
Definition destroy (c : Class_) (h : Z) : V () :=
  if h =? 0 then mret tt
  else
    live ← read (fun s => d_live (drv s));
    match live !! h with
    | Some o => if decide (class o = c) then set_drv (d_remove h) else stop (InvalidObject h c)
    | None => stop (InvalidObject h c)
    end.

(** [vkWaitForFences] without a time limit: the driver finishes what was submitted. *)
Definition wait_forever (h : Z) : V () :=
  fs ← read (fun s => d_fences (drv s));
  match fs !! h with
  | Some Signaled => mret tt
  | Some InFlight => set_drv (d_set_fence h Signaled)
  | Some Unsignaled => stop NeverSignaled
  | None => stop (InvalidObject h CFence)
  end.
Definition reset_fence (h : Z) : V () :=
  fs ← read (fun s => d_fences (drv s));
  match fs !! h with Some _ => set_drv (d_set_fence h Unsignaled) | None => stop (InvalidObject h CFence) end.

(** [vkMapMemory], [std::memcpy] and [vkUnmapMemory]. *)
Definition write_mapped (memory offset : Z) (data : bytes) : V bool :=
  r ← answer;
  if decide (r <> VK_SUCCESS) then mret false
  else
    mem ← read (fun s => d_mem (drv s));
    match mem !! memory with
    | None => stop (InvalidObject memory CMemory)
    | Some content =>
        if offset + Z.of_nat (length data) <=? Z.of_nat (length content)
        then
          let o := Z.to_nat offset in
          _ ← set_drv (d_write memory (take o content ++ data ++ drop (o + length data) content));
          mret true
        else stop InvalidRange
    end.

(** *** Initialisation *)

Fixpoint first_index {A} (p : A -> bool) (l : list A) (i : Z) : option Z :=
  match l with [] => None | x :: l => if p x then Some i else first_index p l (i + 1) end.

(** The first device with a graphics queue and a presentation queue. *)
Fixpoint choose_device (l : list (list (bool * bool))) : option (Z * Z) :=
  match l with
  | [] => None
  | qs :: l =>
      match first_index fst qs 0, first_index snd qs 0 with
      | Some g, Some p => Some (g, p)
      | _, _ => choose_device l
      end
  end.

(** [std::sort] and [std::unique] on the two families. *)
Definition unique_families (g p : Z) : list Z := if g =? p then [g] else [Z.min g p; Z.max g p].

Definition create_fence (signaled : bool) : V (option Z) :=
  r ← create OFence;
  match r with
  | Some h => _ ← (if signaled then set_drv (d_set_fence h Signaled) else mret tt); mret (Some h)
  | None => mret None
  end.

Definition frame_at (i : nat) (f : Frames) : PerFrame := default no_frame (perFrame f !! i).
Definition with_frame (i : nat) (p : PerFrame) (f : Frames) : Frames :=
  mkFrames (<[i := p]> (perFrame f)) (frameIndex f) (inFrame f) (framebufferResized f).

(** The pools, fences and semaphores of frame [i]; only the pool is looked at. *)
Definition init_frame (family : Z) (i : nat) : V bool :=
  pool ← create (OCommandPool family);
  f ← read frames;
  let p := frame_at i f in
  match pool with
  | None => mret false
  | Some pool =>
      let p := mkPerFrame pool (inFlight p) (imageAvailable p) (renderFinished p) (cmdBuffer p) (recording p) in
      _ ← set_frames (with_frame i p f);
      fence ← create_fence true;
      let p := mkPerFrame pool (default (inFlight p) fence) (imageAvailable p) (renderFinished p) (cmdBuffer p) (recording p) in
      _ ← set_frames (with_frame i p f);
      avail ← create OSemaphore;
      let p := mkPerFrame pool (inFlight p) (default (imageAvailable p) avail) (renderFinished p) (cmdBuffer p) (recording p) in
      _ ← set_frames (with_frame i p f);
      fin ← create OSemaphore;
      let p := mkPerFrame pool (inFlight p) (imageAvailable p) (default (renderFinished p) fin) (cmdBuffer p) (recording p) in
      _ ← set_frames (with_frame i p f);
      mret true
  end.

Fixpoint init_frames (family : Z) (l : list nat) : V bool :=
  match l with
  | [] => mret true
  | i :: l => ok ← init_frame family i; if negb ok then mret false else init_frames family l
  end.

Definition initialize : V bool :=
  with_lock (
    b ← read base;
    let validation := hasValidation b || w_validation w in
    inst ← create (OInstance validation);
    match inst with
    | None => _ ← set_base (mkBase validation (instance b) (surface b) (device b) (graphicsFamily b) (presentFamily b) (transferPool b)); mret false
    | Some inst =>
        if negb (w_surface w) then
          _ ← destroy CInstance inst;
          _ ← set_base (mkBase validation 0 (surface b) (device b) (graphicsFamily b) (presentFamily b) (transferPool b));
          mret false
        else
          surf ← read (fun s => d_next (drv s));
          _ ← set_drv (d_add OSurface);
          _ ← set_base (mkBase validation inst surf (device b) (graphicsFamily b) (presentFamily b) (transferPool b));
          match choose_device (w_devices w) with
          | None => mret false
          | Some (g, p) =>
              _ ← set_base (mkBase validation inst surf (device b) g p (transferPool b));
              dev ← create (ODevice (unique_families g p));
              match dev with
              | None => mret false
              | Some dev =>
                  _ ← set_base (mkBase validation inst surf dev g p (transferPool b));
                  ok ← init_frames g (seq 0 kMaxFramesInFlight);
                  if negb ok then mret false
                  else
                    tpool ← create (OCommandPool g);
                    match tpool with
                    | None => mret false
                    | Some tpool => _ ← set_base (mkBase validation inst surf dev g p tpool); mret true
                    end
              end
          end
    end).

(** *** Swapchain *)

Definition clamp (v lo hi : Z) : Z := if v <? lo then lo else if hi <? v then hi else v.

Definition chain_extent (c : Caps) (desc : SwapchainDesc) : Z * Z :=
  if negb (fst (currentExtent c) =? UINT32_MAX) then currentExtent c
  else (clamp (sw_width desc) (fst (minImageExtent c)) (fst (maxImageExtent c)),
        clamp (sw_height desc) (snd (minImageExtent c)) (snd (maxImageExtent c))).
Definition chain_images (c : Caps) : Z :=
  let n := u32 (minImageCount c + 1) in
  if (0 <? maxImageCount c) && (maxImageCount c <? n) then maxImageCount c else n.
Definition chain_format (first : VkFormat * bool) (l : list (VkFormat * bool)) : VkFormat :=
  match List.find (fun f => bool_decide (fst f = VK_FORMAT_B8G8R8A8_UNORM) && snd f) l with
  | Some f => fst f
  | None => fst first
  end.

Definition with_swapchain (h : Z) (c : Chain) : Chain :=
  mkChain h (swapImages c) (swapViews c) (swapViewHandles c) (swapFormat c) (swapExtent c) (swapIndex c).
Definition add_view (v : Z) (t : Tables) : Tables :=
  mkTables (nextHandle t + 1) (buffers t) (images t) (<[nextHandle t := v]> (views t)) (samplers t) (shaders t)
    (pipelines t) (fences t) (semaphores t).

(** The view of image [i]; a failure to create it is not looked at. *)
Definition chain_view (format : VkFormat) (i : nat) : V () :=
  c ← read chain;
  r ← create (OImageView (default 0 (swapImages c !! i)) format);
  let v := default (default 0 (swapViews c !! i)) r in
  t ← read tabs;
  _ ← set_tabs (add_view v t);
  set_chain (mkChain (swapchain c) (swapImages c) (<[i := v]> (swapViews c)) (<[i := nextHandle t]> (swapViewHandles c))
               (swapFormat c) (swapExtent c) (swapIndex c)).

Definition createSwapchain (desc : SwapchainDesc) : V bool :=
  with_lock (
    let caps := w_caps w in
    let extent := chain_extent caps desc in
    match w_formats w with
    | [] => stop NoElement
    | first :: _ =>
        let format := chain_format first (w_formats w) in
        b ← read base;
        sc ← create (OSwapchain (chain_images caps) format (fst extent) (snd extent)
                       (negb (graphicsFamily b =? presentFamily b)) (sw_vsync desc));
        match sc with
        | None => mret false
        | Some sc =>
            c ← read chain;
            let n := length (w_swapImages w) in
            _ ← set_chain (mkChain sc (w_swapImages w) (resize n 0 (swapViews c)) (resize n 0 (swapViewHandles c))
                             (swapFormat c) (swapExtent c) (swapIndex c));
            _ ← for_each (seq 0 n) (chain_view format);
            c ← read chain;
            _ ← set_chain (mkChain (swapchain c) (swapImages c) (swapViews c) (swapViewHandles c) format extent (swapIndex c));
            mret true
        end
    end).

(** [vkDeviceWaitIdle]: all that was submitted finishes. *)
Definition d_idle (d : Driver) : Driver :=
  mkDriver (d_next d) (d_live d) (d_mem d) ((fun f => match f with InFlight => Signaled | f => f end) <$> d_fences d)
    (d_submitted d) (d_calls d).
Definition wait_idle : V () := set_drv d_idle.

Definition destroySwapchain : V () :=
  c ← read chain;
  if swapchain c =? 0 then mret tt
  else
    _ ← wait_idle;
    _ ← for_each (swapViews c) (destroy CImageView);
    _ ← destroy CSwapchain (swapchain c);
    set_chain (mkChain 0 [] [] [] (swapFormat c) (swapExtent c) (swapIndex c)).

Definition recreateSwapchain (width height : Z) : V () :=
  with_lock (
    _ ← destroySwapchain;
    _ ← createSwapchain (mkSwapchainDesc width height true);
    mret tt).

(** *** Frames *)

Definition set_cmds (p : PerFrame) (l : list Cmd) (r : bool) : PerFrame :=
  mkPerFrame (cmdPool p) (inFlight p) (imageAvailable p) (renderFinished p) l r.
Definition set_in_frame (b : bool) (f : Frames) : Frames := mkFrames (perFrame f) (frameIndex f) b (framebufferResized f).
Definition set_resized (b : bool) (f : Frames) : Frames := mkFrames (perFrame f) (frameIndex f) (inFrame f) b.
Definition next_frame (f : Frames) : Frames :=
  mkFrames (perFrame f) ((frameIndex f + 1) mod kMaxFramesInFlight) (inFrame f) (framebufferResized f).

(** The image the frame renders to. *)
Definition chain_image (c : Chain) : Z := default 0 (swapImages c !! Z.to_nat (swapIndex c)).

(** Adds to the command buffer of the current frame. *)
Definition record_cmd (cmd : Cmd) : V () :=
  f ← read frames;
  let p := frame_at (frameIndex f) f in
  if negb (recording p) then stop NotRecording
  else set_frames (with_frame (frameIndex f) (set_cmds p (cmdBuffer p ++ [cmd]) true) f).

Definition beginFrame : V (option FrameContext) :=
  with_lock (
    c ← read chain;
    if swapchain c =? 0 then mret None
    else
      f ← read frames;
      let p := frame_at (frameIndex f) f in
      _ ← wait_forever (inFlight p);
      n ← read (fun s => d_calls (drv s));
      acq ← answer;
      if negb (bool_decide (acq = VK_SUCCESS) || bool_decide (acq = VK_SUBOPTIMAL_KHR)) then mret None
      else
        let c := mkChain (swapchain c) (swapImages c) (swapViews c) (swapViewHandles c) (swapFormat c) (swapExtent c) (w_acquire w n) in
        _ ← set_chain c;
        _ ← reset_fence (inFlight p);
        _ ← set_frames (with_frame (frameIndex f) (set_cmds p [] true) f);
        _ ← record_cmd (CmdBarrier (chain_image c) L_UNDEFINED L_TRANSFER_DST);
        f ← read frames;
        _ ← set_frames (set_in_frame true f);
        mret (Some (mkFrame (default 0 (swapViewHandles c !! Z.to_nat (swapIndex c))) (fst (swapExtent c)) (snd (swapExtent c))
                      (swapIndex c) (fromVkFormat (swapFormat c))))).

Definition presentFrame : V bool :=
  with_lock (
    f ← read frames;
    if negb (inFrame f) then mret false
    else
      c ← read chain;
      _ ← record_cmd (CmdBarrier (chain_image c) L_TRANSFER_DST L_PRESENT_SRC);
      f ← read frames;
      let p := frame_at (frameIndex f) f in
      let f := with_frame (frameIndex f) (set_cmds p (cmdBuffer p) false) f in
      _ ← set_frames f;
      r ← answer;
      if decide (r <> VK_SUCCESS) then mret false
      else
        _ ← set_drv (fun d => d_set_fence (inFlight p) InFlight (d_submit (cmdBuffer p) d));
        r ← answer;
        if bool_decide (r = VK_ERROR_OUT_OF_DATE_KHR) || bool_decide (r = VK_SUBOPTIMAL_KHR) || framebufferResized f then
          _ ← set_frames (set_in_frame false (set_resized false f)); mret false
        else if decide (r <> VK_SUCCESS) then _ ← set_frames (set_in_frame false f); mret false
        else _ ← set_frames (set_in_frame false (next_frame f)); mret true).

Definition clearCurrentFrame (color : ClearColor) : V () :=
  with_lock (
    f ← read frames;
    if negb (inFrame f) then mret tt
    else c ← read chain; record_cmd (CmdClear (chain_image c) color)).

(** *** Resources *)

Definition with_buffers (m : gmap Z BufferEntry) (t : Tables) : Tables :=
  mkTables (nextHandle t) m (images t) (views t) (samplers t) (shaders t) (pipelines t) (fences t) (semaphores t).
Definition with_images (m : gmap Z ImageEntry) (t : Tables) : Tables :=
  mkTables (nextHandle t) (buffers t) m (views t) (samplers t) (shaders t) (pipelines t) (fences t) (semaphores t).
Definition with_views (m : gmap Z Z) (t : Tables) : Tables :=
  mkTables (nextHandle t) (buffers t) (images t) m (samplers t) (shaders t) (pipelines t) (fences t) (semaphores t).
Definition with_samplers (m : gmap Z Z) (t : Tables) : Tables :=
  mkTables (nextHandle t) (buffers t) (images t) (views t) m (shaders t) (pipelines t) (fences t) (semaphores t).
Definition with_shaders (m : gmap Z (Z * ShaderStage)) (t : Tables) : Tables :=
  mkTables (nextHandle t) (buffers t) (images t) (views t) (samplers t) m (pipelines t) (fences t) (semaphores t).
Definition with_pipelines (m : gmap Z Z) (t : Tables) : Tables :=
  mkTables (nextHandle t) (buffers t) (images t) (views t) (samplers t) (shaders t) m (fences t) (semaphores t).
Definition with_fences (m : gmap Z Z) (t : Tables) : Tables :=
  mkTables (nextHandle t) (buffers t) (images t) (views t) (samplers t) (shaders t) (pipelines t) m (semaphores t).
Definition with_semaphores (m : gmap Z Z) (t : Tables) : Tables :=
  mkTables (nextHandle t) (buffers t) (images t) (views t) (samplers t) (shaders t) (pipelines t) (fences t) m.
Definition bump (t : Tables) : Tables :=
  mkTables (nextHandle t + 1) (buffers t) (images t) (views t) (samplers t) (shaders t) (pipelines t) (fences t) (semaphores t).

(** [const auto h = I.nextHandle++], the entry under [h], and [h]. *)
Definition enter (put : Z -> Tables -> Tables) : V Z :=
  t ← read tabs;
  _ ← set_tabs (bump (put (nextHandle t) t));
  mret (nextHandle t).

(** The memory types from [i] on: the first that the object admits and that has the property. *)
Fixpoint find_type (bits : Z) (l : list bool) (i : Z) : option Z :=
  match l with
  | [] => None
  | has :: l => if Z.testbit bits i && has then Some i else find_type bits l (i + 1)
  end.

Definition createBuffer (desc : BufferDesc) : V Z :=
  with_lock (
    let o := OBuffer (bd_size desc) (toVkBufferUsage (bd_usage desc)) in
    buf ← create o;
    match buf with
    | None => mret 0
    | Some buf =>
        let '(size, bits) := w_reqs w o in
        match find_type bits (fst <$> w_memTypes w) 0 with
        | None => _ ← destroy CBuffer buf; mret 0
        | Some ty =>
            mem ← create (OMemory size ty);
            match mem with
            | None => _ ← destroy CBuffer buf; mret 0
            | Some mem => enter (fun h t => with_buffers (<[h := mkBufferEntry buf mem (bd_size desc)]> (buffers t)) t)
            end
        end
    end).

Definition destroyBuffer (h : Z) : V () :=
  with_lock (
    t ← read tabs;
    match buffers t !! h with
    | None => mret tt
    | Some e =>
        _ ← destroy CBuffer (be_buffer e);
        _ ← destroy CMemory (be_memory e);
        set_tabs (with_buffers (delete h (buffers t)) t)
    end).

Definition createImage (desc : ImageDesc) : V Z :=
  with_lock (
    let o := OImage (1 <? id_depth desc) (toVkFormat (id_format desc)) (id_width desc) (id_height desc) (id_depth desc)
               (id_mips desc) (id_layers desc) (toVkImageUsage (id_usage desc)) in
    img ← create o;
    match img with
    | None => mret 0
    | Some img =>
        let '(size, bits) := w_reqs w o in
        let ty := default 0 (find_type bits (snd <$> w_memTypes w) 0) in
        mem ← create (OMemory size ty);
        match mem with
        | None => _ ← destroy CImage img; mret 0
        | Some mem =>
            enter (fun h t =>
              with_images (<[h := mkImageEntry img mem (toVkFormat (id_format desc)) (id_width desc) (id_height desc)]> (images t)) t)
        end
    end).

Definition destroyImage (h : Z) : V () :=
  with_lock (
    t ← read tabs;
    match images t !! h with
    | None => mret tt
    | Some e =>
        _ ← destroy CImage (ie_image e);
        _ ← destroy CMemory (ie_memory e);
        set_tabs (with_images (delete h (images t)) t)
    end).

Definition createImageView (image : Z) : V Z :=
  with_lock (
    t ← read tabs;
    match images t !! image with
    | None => mret 0
    | Some e =>
        v ← create (OImageView (ie_image e) (ie_format e));
        match v with None => mret 0 | Some v => enter (fun h t => with_views (<[h := v]> (views t)) t) end
    end).

Definition destroyImageView (h : Z) : V () :=
  with_lock (
    t ← read tabs;
    match views t !! h with
    | None => mret tt
    | Some v => _ ← destroy CImageView v; set_tabs (with_views (delete h (views t)) t)
    end).

Definition createSampler (desc : SamplerDesc) : V Z :=
  with_lock (
    r ← create (OSampler (sd_nearest desc) (sd_repeat desc) (sd_aniso desc));
    match r with None => mret 0 | Some v => enter (fun h t => with_samplers (<[h := v]> (samplers t)) t) end).

Definition destroySampler (h : Z) : V () :=
  with_lock (
    t ← read tabs;
    match samplers t !! h with
    | None => mret tt
    | Some v => _ ← destroy CSampler v; set_tabs (with_samplers (delete h (samplers t)) t)
    end).

(** *** Uploads *)

Definition uploadBuffer (h offset : Z) (data : bytes) : V bool :=
  with_lock (
    t ← read tabs;
    match buffers t !! h with
    | None => mret false
    | Some e =>
        if be_size e <? u64 (offset + Z.of_nat (length data)) then mret false
        else write_mapped (be_memory e) offset data
    end).

(** The one-shot copy from the staging buffer. *)
Definition copy_to_image (image staging : Z) (width height : Z) : V () :=
  fence ← create_fence false;
  r ← answer;
  _ ← set_drv (fun d =>
        let d := d_submit [CmdBarrier image L_UNDEFINED L_TRANSFER_DST; CmdCopy staging image width height;
                           CmdBarrier image L_TRANSFER_DST L_SHADER_READ_ONLY] d in
        if decide (r = VK_SUCCESS) then d_set_fence (default 0 fence) InFlight d else d);
  _ ← wait_forever (default 0 fence);
  destroy CFence (default 0 fence).

Definition uploadImage (image : Z) (data : bytes) : V bool :=
  with_lock (
    t ← read tabs;
    match images t !! image with
    | None => mret false
    | Some e =>
        staging ← createBuffer (mkBufferDesc (Z.of_nat (length data)) Transfer);
        if staging =? 0 then mret false
        else
          ok ← uploadBuffer staging 0 data;
          if negb ok then _ ← destroyBuffer staging; mret false
          else
            t ← read tabs;
            _ ← copy_to_image (ie_image e) (default 0 (be_buffer <$> buffers t !! staging)) (ie_width e) (ie_height e);
            _ ← destroyBuffer staging;
            mret true
    end).

(** *** Shaders, pipelines, synchronisation *)

Definition createShader (stage : ShaderStage) (spirv : bytes) : V Z :=
  with_lock (
    r ← create (OShaderModule spirv);
    match r with None => mret 0 | Some v => enter (fun h t => with_shaders (<[h := (v, stage)]> (shaders t)) t) end).

Definition destroyShader (h : Z) : V () :=
  with_lock (
    t ← read tabs;
    match shaders t !! h with
    | None => mret tt
    | Some v => _ ← destroy CShaderModule (fst v); set_tabs (with_shaders (delete h (shaders t)) t)
    end).

Definition createGraphicsPipeline (vs fs : Z) : V Z :=
  with_lock (
    t ← read tabs;
    match shaders t !! vs, shaders t !! fs with
    | Some v, Some f =>
        layout ← create OPipelineLayout;
        pipe ← create (OPipeline (fst v) (fst f) (default 0 layout));
        _ ← destroy CPipelineLayout (default 0 layout);
        match pipe with None => mret 0 | Some p => enter (fun h t => with_pipelines (<[h := p]> (pipelines t)) t) end
    | _, _ => mret 0
    end).

Definition destroyPipeline (h : Z) : V () :=
  with_lock (
    t ← read tabs;
    match pipelines t !! h with
    | None => mret tt
    | Some v => _ ← destroy CPipeline v; set_tabs (with_pipelines (delete h (pipelines t)) t)
    end).

Definition createFence (signaled : bool) : V Z :=
  with_lock (
    r ← create_fence signaled;
    match r with None => mret 0 | Some v => enter (fun h t => with_fences (<[h := v]> (fences t)) t) end).

Definition destroyFence (h : Z) : V () :=
  with_lock (
    t ← read tabs;
    match fences t !! h with
    | None => mret tt
    | Some v => _ ← destroy CFence v; set_tabs (with_fences (delete h (fences t)) t)
    end).

(** An unsignalled fence is waited for until the time is over. *)
Definition waitFence (h timeoutNs : Z) : V bool :=
  with_lock (
    t ← read tabs;
    match fences t !! h with
    | None => mret false
    | Some v =>
        fs ← read (fun s => d_fences (drv s));
        match fs !! v with
        | Some Unsignaled => if timeoutNs =? 2 ^ 64 - 1 then stop NeverSignaled else mret false
        | Some _ => _ ← wait_forever v; mret true
        | None => stop (InvalidObject v CFence)
        end
    end).

Definition resetFence (h : Z) : V () :=
  with_lock (
    t ← read tabs;
    match fences t !! h with None => mret tt | Some v => reset_fence v end).

Definition createSemaphore : V Z :=
  with_lock (
    r ← create OSemaphore;
    match r with None => mret 0 | Some v => enter (fun h t => with_semaphores (<[h := v]> (semaphores t)) t) end).

Definition destroySemaphore (h : Z) : V () :=
  with_lock (
    t ← read tabs;
    match semaphores t !! h with
    | None => mret tt
    | Some v => _ ← destroy CSemaphore v; set_tabs (with_semaphores (delete h (semaphores t)) t)
    end).

(** *** Shutdown *)

Definition no_tables (t : Tables) : Tables := mkTables (nextHandle t) ∅ ∅ ∅ ∅ ∅ ∅ ∅ ∅.

Definition destroy_frame (p : PerFrame) : V () :=
  _ ← destroy CFence (inFlight p);
  _ ← destroy CSemaphore (imageAvailable p);
  _ ← destroy CSemaphore (renderFinished p);
  destroy CCommandPool (cmdPool p).

Definition destroy_tables (t : Tables) : V () :=
  _ ← for_each (map_to_list (buffers t)) (fun x => _ ← destroy CBuffer (be_buffer x.2); destroy CMemory (be_memory x.2));
  _ ← for_each (map_to_list (images t)) (fun x => _ ← destroy CImage (ie_image x.2); destroy CMemory (ie_memory x.2));
  _ ← for_each (map_to_list (views t)) (fun x => destroy CImageView x.2);
  _ ← for_each (map_to_list (samplers t)) (fun x => destroy CSampler x.2);
  _ ← for_each (map_to_list (shaders t)) (fun x => destroy CShaderModule x.2.1);
  _ ← for_each (map_to_list (pipelines t)) (fun x => destroy CPipeline x.2);
  _ ← for_each (map_to_list (fences t)) (fun x => destroy CFence x.2);
  for_each (map_to_list (semaphores t)) (fun x => destroy CSemaphore x.2).

Definition shutdown : V () :=
  with_lock (
    b ← read base;
    if device b =? 0 then mret tt
    else
      _ ← wait_idle;
      _ ← destroySwapchain;
      t ← read tabs;
      _ ← destroy_tables t;
      _ ← set_tabs (no_tables t);
      f ← read frames;
      _ ← for_each (perFrame f) destroy_frame;
      _ ← destroy CCommandPool (transferPool b);
      _ ← destroy CDevice (device b);
      _ ← (if surface b =? 0 then mret tt else destroy CSurface (surface b));
      _ ← (if instance b =? 0 then mret tt else destroy CInstance (instance b));
      set_base (mkBase (hasValidation b) 0 0 0 (graphicsFamily b) (presentFamily b) (transferPool b))).

End WithWorld.

End VulkanDevice.
