(* ===== verification/VulkanRules.v ===== *)
(** * Reasoning about the Vulkan back end

    Weakest preconditions for the calls of [Vulkan], the ownership invariant
    [vinv] -- the driver's live objects are those the device's tables, frames and
    swapchain own -- and one lemma per operation that keeps it.  [wpf] is the dual
    for calls that stop. *)
From S2P Require Import Prelude Gal Vulkan.
Import Gal.

(** ** Reasoning about calls *)
Import VulkanDevice.

Definition wp {A} (m : V A) (Q : A -> Vk -> Prop) (s : Vk) : Prop :=
  match m s with Done a s' => Q a s' | Stopped _ => False end.

Lemma vwp_ret {A} (a : A) (Q : A -> Vk -> Prop) s : Q a s -> wp (mret a) Q s.
Proof. done. Qed.
Lemma vwp_bind {A B} (m : V A) (f : A -> V B) (Q : B -> Vk -> Prop) s :
  wp m (fun a s' => wp (f a) Q s') s -> wp (m ≫= f) Q s.
Proof. unfold wp, mbind, V_bind. by destruct (m s). Qed.
Lemma wp_read {A} (f : Vk -> A) (Q : A -> Vk -> Prop) s : Q (f s) s -> wp (read f) Q s.
Proof. done. Qed.
Lemma vwp_mono {A} (m : V A) (Q Q' : A -> Vk -> Prop) s : wp m Q s -> (forall a s', Q a s' -> Q' a s') -> wp m Q' s.
Proof. unfold wp. destruct (m s); auto. Qed.

Definition owned_objects : Type := list (Z * Class_).
Definition live_list (d : Driver) : owned_objects := (fun p => (p.1, class p.2)) <$> map_to_list (d_live d).

(** What is known of fences and of the sizes of memory blocks; all of them owned. *)
Record Known := mkKnown { k_fences : list (Z * FenceState); k_sizes : list (Z * Z); k_submitted : list (list Cmd) }.
Definition known_in (K : Known) (L : owned_objects) : Prop :=
  (forall h st, (h, st) ∈ k_fences K -> (h, CFence) ∈ L) /\ (forall h n, (h, n) ∈ k_sizes K -> (h, CMemory) ∈ L).
Definition holds (K : Known) (d : Driver) : Prop :=
  (forall h st, (h, st) ∈ k_fences K -> d_fences d !! h = Some st) /\
  (forall h n, (h, n) ∈ k_sizes K -> exists content, d_mem d !! h = Some content /\ n <= Z.of_nat (length content)) /\
  d_submitted d = k_submitted K.

(** The driver holds exactly the objects of [L], and what [K] says is so. *)
Record DI (L : owned_objects) (K : Known) (d : Driver) : Prop := mkDI {
  di_live : live_list d ≡ₚ L;
  di_fresh h : is_Some (d_live d !! h) -> 0 < h < d_next d;
  di_next : 0 < d_next d;
  di_fences h : (h, CFence) ∈ L -> is_Some (d_fences d !! h);
  di_known : known_in K L;
  di_holds : holds K d
}.

Lemma elem_live_list h c d : (h, c) ∈ live_list d <-> exists o, d_live d !! h = Some o /\ class o = c.
Proof.
  unfold live_list. rewrite list_elem_of_fmap. split.
  - intros ([h' o] & [= -> ->] & Hin). apply elem_of_map_to_list in Hin. by exists o.
  - intros (o & Ho & <-). exists (h, o). split; [done|]. by apply elem_of_map_to_list.
Qed.

Lemma DI_elem h c L K d : DI L K d -> (h, c) ∈ L -> exists o, d_live d !! h = Some o /\ class o = c.
Proof. intros HD Hin. apply elem_live_list. by rewrite (di_live _ _ _ HD). Qed.
Lemma DI_range h c L K d : DI L K d -> (h, c) ∈ L -> 0 < h < d_next d.
Proof. intros HD Hin. destruct (DI_elem _ _ _ _ _ HD Hin) as (o & Ho & _). apply (di_fresh _ _ _ HD). by eexists. Qed.

Lemma DI_perm L L' K d : L ≡ₚ L' -> DI L K d -> DI L' K d.
Proof.
  intros HL []. constructor; try done; [by rewrite <- HL|intros h; rewrite <- HL; apply di_fences0|].
  destruct di_known0 as [H1 H2]. split; intros h x Hx; rewrite <- HL; eauto.
Qed.
Lemma DI_tick L K d : DI L K d -> DI L K (d_tick d).
Proof. intros []. by constructor. Qed.
Lemma DI_submit L K c d :
  DI L K d -> DI L (mkKnown (k_fences K) (k_sizes K) (k_submitted K ++ [c])) (d_submit c d).
Proof. intros [? ? ? ? ? (B1 & B2 & B3)]. constructor; try done. split_and!; [done..|]. simpl. by rewrite B3. Qed.
(** Knowing less. *)
Lemma DI_forget L K K' d : k_fences K' ⊆ k_fences K -> k_sizes K' ⊆ k_sizes K -> k_submitted K' = k_submitted K -> DI L K d -> DI L K' d.
Proof.
  intros H1 H2 H3 []. destruct di_known0 as [A1 A2], di_holds0 as (B1 & B2 & B3).
  constructor; try done; [split; intros h x Hx; eauto|]. split_and!; [intros h x Hx; eauto..|congruence].
Qed.

Lemma DI_add L K o d : DI L K d -> DI ((d_next d, class o) :: L) K (d_add o d).
Proof.
  intros HD. pose proof HD as [Hl Hf Hn Hfe [A1 A2] (B1 & B2 & B3)].
  assert (d_live d !! d_next d = None) as Hnone.
  { destruct (d_live d !! d_next d) eqn:E; [|done]. pose proof (Hf (d_next d) (ltac:(by eexists))). lia. }
  constructor; cbn [d_add d_live d_next d_mem d_fences].
  - unfold live_list. cbn [d_add d_live]. rewrite map_to_list_insert by done. by rewrite fmap_cons, Hl.
  - intros h [x [[<- _]|[Hne Hx]]%lookup_insert_Some]; [lia|]. pose proof (Hf h (ltac:(by eexists))). lia.
  - lia.
  - intros h [[= -> Hc]|Hin]%elem_of_cons.
    + destruct o; try done. rewrite lookup_insert_eq. by eexists.
    + pose proof (DI_range _ _ _ _ _ HD Hin). destruct o; rewrite ?lookup_insert_ne by lia; by apply Hfe.
  - split; intros h x Hx; right; eauto.
  - split_and!; [| |done].
    + intros h st Hx. pose proof (DI_range _ _ _ _ _ HD (A1 _ _ Hx)).
      destruct o; cbn [d_add d_fences]; rewrite ?lookup_insert_ne by lia; eauto.
    + intros h n Hx. pose proof (DI_range _ _ _ _ _ HD (A2 _ _ Hx)).
      destruct o; cbn [d_add d_mem]; rewrite ?lookup_insert_ne by lia; eauto.
Qed.

Lemma DI_NoDup L K d : DI L K d -> NoDup (fst <$> L).
Proof.
  intros HD. rewrite <- (di_live _ _ _ HD). unfold live_list. rewrite <- list_fmap_compose.
  apply (NoDup_fst_map_to_list (d_live d)).
Qed.
Lemma DI_head h c L K d : DI ((h, c) :: L) K d -> forall c', (h, c') ∉ L.
Proof.
  intros HD c' Hin. apply DI_NoDup in HD. rewrite fmap_cons in HD. apply NoDup_cons in HD as [Hni _].
  apply Hni. apply list_elem_of_fmap. by exists (h, c').
Qed.

Lemma DI_remove h c L K d : DI ((h, c) :: L) K d -> known_in K L -> DI L K (d_remove h d).
Proof.
  intros HD [A1 A2]. pose proof HD as [Hl Hf Hn Hfe _ (B1 & B2 & B3)].
  destruct (DI_elem h c _ _ _ HD) as (o & Ho & Hc); [by left|].
  assert (forall x c', (x, c') ∈ L -> x <> h) as Hne by (intros x c' Hx ->; by apply (DI_head _ _ _ _ _ HD c')).
  constructor; cbn [d_remove d_live d_next d_mem d_fences].
  - apply (Permutation_cons_inv (a := (h, c))). rewrite <- Hl. unfold live_list. cbn [d_remove d_live].
    rewrite <- (map_to_list_delete (d_live d) h o Ho), fmap_cons. cbn [fst snd]. by rewrite Hc.
  - intros x [y [_ Hy]%lookup_delete_Some]. apply Hf. by eexists.
  - done.
  - intros x Hx. rewrite lookup_delete_ne by (apply not_eq_sym; eauto). apply Hfe. by right.
  - done.
  - split_and!; [| |done]; cbn [d_remove d_mem d_fences]; intros x y Hx; rewrite lookup_delete_ne by (apply not_eq_sym; eauto); eauto.
Qed.

Section Rules.
Context (w : World) (L : owned_objects) (K : Known).

Lemma wp_with_lock {A} (m : V A) Q l d b c f t :
  l = false -> wp m (fun a s => Q a (mkVk false (drv s) (base s) (chain s) (frames s) (tabs s))) (mkVk true d b c f t) ->
  wp (with_lock m) Q (mkVk l d b c f t).
Proof. intros -> H. unfold with_lock, wp in *. cbn [locked drv base chain frames tabs]. by destruct (m _). Qed.

Lemma wp_set_drv g Q l d b c f t : Q tt (mkVk l (g d) b c f t) -> wp (set_drv g) Q (mkVk l d b c f t).
Proof. done. Qed.
Lemma wp_set_base b' Q l d b c f t : Q tt (mkVk l d b' c f t) -> wp (set_base b') Q (mkVk l d b c f t).
Proof. done. Qed.
Lemma wp_set_chain c' Q l d b c f t : Q tt (mkVk l d b c' f t) -> wp (set_chain c') Q (mkVk l d b c f t).
Proof. done. Qed.
Lemma wp_set_frames f' Q l d b c f t : Q tt (mkVk l d b c f' t) -> wp (set_frames f') Q (mkVk l d b c f t).
Proof. done. Qed.
Lemma wp_set_tabs t' Q l d b c f t : Q tt (mkVk l d b c f t') -> wp (set_tabs t') Q (mkVk l d b c f t).
Proof. done. Qed.

Lemma wp_answer (Q : VkResult -> Vk -> Prop) l d b c f t :
  DI L K d -> (forall r d', DI L K d' -> Q r (mkVk l d' b c f t)) -> wp (answer w) Q (mkVk l d b c f t).
Proof. intros HD HQ. apply HQ. by apply DI_tick. Qed.

Lemma wp_create o (Q : option Z -> Vk -> Prop) l d b c f t :
  DI L K d ->
  (forall d', DI L K d' -> Q None (mkVk l d' b c f t)) ->
  (forall d' h, 0 < h -> DI ((h, class o) :: L) K d' ->
     (forall size ty, o = OMemory size ty -> exists content, d_mem d' !! h = Some content /\ size <= Z.of_nat (length content)) ->
     (o = OFence -> d_fences d' !! h = Some Unsignaled) ->
     Q (Some h) (mkVk l d' b c f t)) ->
  wp (create w o) Q (mkVk l d b c f t).
Proof.
  intros HD H1 H2. unfold create. apply vwp_bind. apply wp_answer; [done|]. clear d HD. intros r d HD.
  destruct (decide (r = VK_SUCCESS)); [|by apply H1]. apply vwp_bind, wp_read, vwp_bind, wp_set_drv, vwp_ret.
  cbn [drv]. apply H2; [exact (di_next _ _ _ HD)| |intros size ty ->|intros ->].
  - by apply DI_add.
  - cbn [d_add d_mem]. rewrite lookup_insert_eq. eexists. split; [done|]. rewrite length_replicate. lia.
  - cbn [d_add d_fences]. by rewrite lookup_insert_eq.
Qed.

Lemma wp_destroy cl h Q l d b c f t :
  DI ((h, cl) :: L) K d -> known_in K L -> (forall d', DI L K d' -> Q tt (mkVk l d' b c f t)) ->
  wp (destroy cl h) Q (mkVk l d b c f t).
Proof.
  intros HD HK HQ. unfold destroy. pose proof (DI_range h cl _ _ _ HD ltac:(by left)).
  rewrite (proj2 (Z.eqb_neq h 0)) by lia. apply vwp_bind, wp_read. cbn [drv].
  destruct (DI_elem h cl _ _ _ HD) as (o & Ho & Hc); [by left|]. rewrite Ho.
  rewrite decide_True by done. apply wp_set_drv, HQ. by eapply DI_remove.
Qed.

(** [own c h]: the object behind a handle that may be null. *)
Definition own (cl : Class_) (h : Z) : owned_objects := if h =? 0 then [] else [(h, cl)].

Lemma wp_destroy_own cl h Q l d b c f t :
  DI (own cl h ++ L) K d -> known_in K L -> (forall d', DI L K d' -> Q tt (mkVk l d' b c f t)) ->
  wp (destroy cl h) Q (mkVk l d b c f t).
Proof.
  unfold own. destruct (h =? 0) eqn:E; [|apply wp_destroy].
  intros HD _ HQ. unfold destroy. rewrite E. apply vwp_ret. by apply HQ.
Qed.

End Rules.

Lemma own_pos cl h : 0 < h -> own cl h = [(h, cl)].
Proof. intros Hh. unfold own. by rewrite (proj2 (Z.eqb_neq h 0)) by lia. Qed.

(** A loop that destroys what each element owns. *)
Lemma wp_for_each {A} (g : A -> owned_objects) (body : A -> V ()) K L l Q lk d b c f t :
  known_in K L ->
  (forall x L' d' Q', DI (g x ++ L') K d' -> known_in K L' ->
     (forall d'', DI L' K d'' -> Q' tt (mkVk lk d'' b c f t)) -> wp (body x) Q' (mkVk lk d' b c f t)) ->
  DI (concat (g <$> l) ++ L) K d -> (forall d', DI L K d' -> Q tt (mkVk lk d' b c f t)) ->
  wp (for_each l body) Q (mkVk lk d b c f t).
Proof.
  intros HK Hbody. revert d. induction l as [|x l IH]; intros d HD HQ; [by apply vwp_ret, HQ|].
  cbn [for_each fmap list_fmap concat] in *. rewrite <- app_assoc in HD. apply vwp_bind. eapply Hbody; [exact HD| |].
  - destruct HK as [H1 H2]. split; intros h y Hy; apply elem_of_app; right; eauto.
  - intros d' HD'. by apply IH.
Qed.

Ltac v_step :=
  match goal with
  | |- wp (_ ≫= _) _ _ => apply vwp_bind
  | |- wp (mret _) _ _ => apply vwp_ret
  | |- wp (read _) _ _ => apply wp_read; cbn [drv base chain frames tabs locked]
  | |- wp (with_lock _) _ _ => apply wp_with_lock; [done|]
  | |- wp (set_drv _) _ _ => apply wp_set_drv
  | |- wp (set_base _) _ _ => apply wp_set_base
  | |- wp (set_chain _) _ _ => apply wp_set_chain
  | |- wp (set_frames _) _ _ => apply wp_set_frames
  | |- wp (set_tabs _) _ _ => apply wp_set_tabs
  | |- wp (enter _) _ _ => unfold enter
  end.

(** ** What a device owns *)

Definition own_buffer (x : Z * BufferEntry) : owned_objects := [(be_buffer x.2, CBuffer); (be_memory x.2, CMemory)].
Definition own_image (x : Z * ImageEntry) : owned_objects := [(ie_image x.2, CImage); (ie_memory x.2, CMemory)].
(** The views of swapchain images are also in the table, under the handles [sw]. *)
Definition own_view (sw : list Z) (x : Z * Z) : owned_objects := if decide (x.1 ∈ sw) then [] else [(x.2, CImageView)].
Lemma own_view_nil x : own_view [] x = [(x.2, CImageView)].
Proof. unfold own_view. rewrite decide_False; [done|by intros ?%elem_of_nil]. Qed.
Definition own_of (cl : Class_) (x : Z * Z) : owned_objects := [(x.2, cl)].
Definition own_shader (x : Z * (Z * ShaderStage)) : owned_objects := [(x.2.1, CShaderModule)].

Definition tabs_own (sw : list Z) (t : Tables) : owned_objects :=
  flat own_buffer (buffers t) ++ flat own_image (images t) ++ flat (own_view sw) (views t) ++
  flat (own_of CSampler) (samplers t) ++ flat own_shader (shaders t) ++ flat (own_of CPipeline) (pipelines t) ++
  flat (own_of CFence) (fences t) ++ flat (own_of CSemaphore) (semaphores t).

Definition own_frame (p : PerFrame) : owned_objects :=
  own CFence (inFlight p) ++ own CSemaphore (imageAvailable p) ++ own CSemaphore (renderFinished p) ++ own CCommandPool (cmdPool p).
Definition frames_own (f : Frames) : owned_objects := concat (own_frame <$> perFrame f).
Definition base_own (b : Base) : owned_objects :=
  own CCommandPool (transferPool b) ++ own CDevice (device b) ++ own CSurface (surface b) ++ own CInstance (instance b).
Definition chain_own (c : Chain) : owned_objects := concat (own CImageView <$> swapViews c) ++ own CSwapchain (swapchain c).

Definition owned (b : Base) (c : Chain) (f : Frames) (t : Tables) : owned_objects :=
  chain_own c ++ tabs_own (swapViewHandles c) t ++ frames_own f ++ base_own b.

Definition keys_ok {A} (n : Z) (m : gmap Z A) : Prop := forall k x, m !! k = Some x -> 0 < k < n.
Lemma keys_insert {A} n (m : gmap Z A) x : 0 < n -> keys_ok n m -> keys_ok (n + 1) (<[n := x]> m).
Proof. intros Hn Hm k y [[<- _]|[_ Hy]]%lookup_insert_Some; [lia|]. apply Hm in Hy. lia. Qed.
Lemma keys_mono {A} n (m : gmap Z A) : keys_ok n m -> keys_ok (n + 1) m.
Proof. intros Hm k y Hy. apply Hm in Hy. lia. Qed.
Lemma keys_delete {A} n (m : gmap Z A) h : keys_ok n m -> keys_ok n (delete h m).
Proof. intros Hm k y [_ Hy]%lookup_delete_Some. by eapply Hm. Qed.
Lemma keys_free {A} n (m : gmap Z A) : keys_ok n m -> m !! n = None.
Proof. intros Hm. destruct (m !! n) eqn:E; [|done]. apply Hm in E. lia. Qed.

(** Handles come from one counter; the handles of swapchain views are in the table. *)
Record tabs_ok (sw : list Z) (t : Tables) : Prop := mkTabsOk {
  to_next : 0 < nextHandle t;
  to_buffers : keys_ok (nextHandle t) (buffers t);
  to_images : keys_ok (nextHandle t) (images t);
  to_views : keys_ok (nextHandle t) (views t);
  to_samplers : keys_ok (nextHandle t) (samplers t);
  to_shaders : keys_ok (nextHandle t) (shaders t);
  to_pipelines : keys_ok (nextHandle t) (pipelines t);
  to_fences : keys_ok (nextHandle t) (fences t);
  to_semaphores : keys_ok (nextHandle t) (semaphores t);
  to_sw h : h ∈ sw -> is_Some (views t !! h)
}.
#[export] Hint Resolve keys_insert keys_mono keys_delete keys_free to_next to_buffers to_images to_views to_samplers to_shaders
  to_pipelines to_fences to_semaphores : fp4.

Definition sizes (t : Tables) : list (Z * Z) := (fun x => (be_memory x.2, be_size x.2)) <$> map_to_list (buffers t).
(** The states of the frames' fences, and what was submitted. *)
Record Ghost := mkGhost { g_fences : list FenceState; g_submitted : list (list Cmd) }.
Definition known (sts : Ghost) (f : Frames) (t : Tables) : Known :=
  mkKnown (zip (inFlight <$> perFrame f) (g_fences sts)) (sizes t) (g_submitted sts).

(** The fence of a frame is unsignalled exactly while the frame is being recorded. *)
Record frames_ok (f : Frames) (sts : Ghost) : Prop := mkFramesOk {
  fo_length : length (g_fences sts) = length (perFrame f);
  fo_distinct : NoDup (inFlight <$> perFrame f);
  fo_two : length (perFrame f) = kMaxFramesInFlight;
  fo_index : (frameIndex f < length (perFrame f))%nat;
  fo_fence p : p ∈ perFrame f -> inFlight p <> 0;
  fo_state i st : g_fences sts !! i = Some st -> (st = Unsignaled <-> i = frameIndex f /\ inFrame f = true)
}.

Record chain_ok (c : Chain) : Prop := mkChainOk {
  co_none : swapchain c = 0 -> swapViews c = [] /\ swapViewHandles c = [];
  co_len : length (swapViews c) = length (swapViewHandles c)
}.

Record vinv (s : Vk) : Prop := mkVinv {
  vi_locked : locked s = false;
  vi_device : device (base s) <> 0;
  vi_chain : chain_ok (chain s);
  vi_tabs : tabs_ok (swapViewHandles (chain s)) (tabs s);
  vi_driver : exists sts, frames_ok (frames s) sts /\
    DI (owned (base s) (chain s) (frames s) (tabs s)) (known sts (frames s) (tabs s)) (drv s)
}.

Record world_ok (w : World) : Prop := mkWorldOk {
  wo_size size usage : size <= fst (w_reqs w (OBuffer size usage));
  wo_formats : w_formats w <> []
}.

Section Puts.
Context (sw : list Z) (t : Tables).

Lemma own_put_buffers : exists R, forall m, tabs_own sw (with_buffers m t) ≡ₚ flat own_buffer m ++ R.
Proof. eexists. intros m. unfold tabs_own. cbn. reflexivity. Qed.
Lemma own_put_images : exists R, forall m, tabs_own sw (with_images m t) ≡ₚ flat own_image m ++ R.
Proof. eexists. intros m. unfold tabs_own. cbn. rewrite Permutation_app_swap_app. reflexivity. Qed.
Lemma own_put_views : exists R, forall m, tabs_own sw (with_views m t) ≡ₚ flat (own_view sw) m ++ R.
Proof.
  eexists. intros m. unfold tabs_own. cbn.
  rewrite (Permutation_app_swap_app (flat own_image _)), Permutation_app_swap_app. reflexivity.
Qed.
Lemma own_put_samplers : exists R, forall m, tabs_own sw (with_samplers m t) ≡ₚ flat (own_of CSampler) m ++ R.
Proof.
  eexists. intros m. unfold tabs_own. cbn.
  rewrite (Permutation_app_swap_app (flat (own_view sw) _)), (Permutation_app_swap_app (flat own_image _)),
    Permutation_app_swap_app. reflexivity.
Qed.
Lemma own_put_shaders : exists R, forall m, tabs_own sw (with_shaders m t) ≡ₚ flat own_shader m ++ R.
Proof.
  eexists. intros m. unfold tabs_own. cbn.
  rewrite (Permutation_app_swap_app (flat (own_of CSampler) _)), (Permutation_app_swap_app (flat (own_view sw) _)),
    (Permutation_app_swap_app (flat own_image _)), Permutation_app_swap_app. reflexivity.
Qed.
Lemma own_put_pipelines : exists R, forall m, tabs_own sw (with_pipelines m t) ≡ₚ flat (own_of CPipeline) m ++ R.
Proof.
  eexists. intros m. unfold tabs_own. cbn.
  rewrite (Permutation_app_swap_app (flat own_shader _)), (Permutation_app_swap_app (flat (own_of CSampler) _)),
    (Permutation_app_swap_app (flat (own_view sw) _)), (Permutation_app_swap_app (flat own_image _)), Permutation_app_swap_app.
  reflexivity.
Qed.
Lemma own_put_fences : exists R, forall m, tabs_own sw (with_fences m t) ≡ₚ flat (own_of CFence) m ++ R.
Proof.
  eexists. intros m. unfold tabs_own. cbn.
  rewrite (Permutation_app_swap_app (flat (own_of CPipeline) _)), (Permutation_app_swap_app (flat own_shader _)),
    (Permutation_app_swap_app (flat (own_of CSampler) _)),
    (Permutation_app_swap_app (flat (own_view sw) _)), (Permutation_app_swap_app (flat own_image _)), Permutation_app_swap_app.
  reflexivity.
Qed.
Lemma own_put_semaphores : exists R, forall m, tabs_own sw (with_semaphores m t) ≡ₚ flat (own_of CSemaphore) m ++ R.
Proof.
  eexists. intros m. unfold tabs_own. cbn. rewrite (Permutation_app_comm (flat (own_of CFence) _)).
  rewrite (Permutation_app_swap_app (flat (own_of CPipeline) _)), (Permutation_app_swap_app (flat own_shader _)),
    (Permutation_app_swap_app (flat (own_of CSampler) _)),
    (Permutation_app_swap_app (flat (own_view sw) _)), (Permutation_app_swap_app (flat own_image _)), Permutation_app_swap_app.
  reflexivity.
Qed.
End Puts.

(** *** One table at a time *)
Record Slot (A : Type) := mkSlot {
  sl_get : Tables -> gmap Z A;
  sl_put : gmap Z A -> Tables -> Tables;
  sl_own : list Z -> Z * A -> owned_objects
}.
Arguments sl_get {A}. Arguments sl_put {A}. Arguments sl_own {A}.
Record slot_ok {A} (S : Slot A) : Prop := mkSlotOk {
  so_put_get t : sl_put S (sl_get S t) t = t;
  so_next m t : nextHandle (sl_put S m t) = nextHandle t;
  so_own sw t : exists R, forall m, tabs_own sw (sl_put S m t) ≡ₚ flat (sl_own S sw) m ++ R;
  so_keys sw t : tabs_ok sw t -> keys_ok (nextHandle t) (sl_get S t);
  so_insert sw t x : tabs_ok sw t -> tabs_ok sw (bump (sl_put S (<[nextHandle t := x]> (sl_get S t)) t));
  so_delete sw t h : (forall x, sl_own S sw (h, x) <> []) -> tabs_ok sw t -> tabs_ok sw (sl_put S (delete h (sl_get S t)) t)
}.

Definition BufferSlot : Slot BufferEntry := mkSlot _ buffers with_buffers (fun _ => own_buffer).
Definition ImageSlot : Slot ImageEntry := mkSlot _ images with_images (fun _ => own_image).
Definition ViewSlot : Slot Z := mkSlot _ views with_views own_view.
Definition SamplerSlot : Slot Z := mkSlot _ samplers with_samplers (fun _ => own_of CSampler).
Definition ShaderSlot : Slot (Z * ShaderStage) := mkSlot _ shaders with_shaders (fun _ => own_shader).
Definition PipelineSlot : Slot Z := mkSlot _ pipelines with_pipelines (fun _ => own_of CPipeline).
Definition FenceSlot : Slot Z := mkSlot _ fences with_fences (fun _ => own_of CFence).
Definition SemaphoreSlot : Slot Z := mkSlot _ semaphores with_semaphores (fun _ => own_of CSemaphore).

Ltac slot_tac own :=
  constructor; cbn [sl_get sl_put sl_own BufferSlot ImageSlot ViewSlot SamplerSlot ShaderSlot PipelineSlot FenceSlot SemaphoreSlot];
  [ by intros []
  | done
  | intros; apply own
  | intros; eauto with fp4
  | intros sw t x Ht; pose proof (to_next _ _ Ht); destruct Ht; constructor; cbn; eauto with fp4; try lia
  | intros sw t h Hh Ht; destruct Ht; constructor; cbn; eauto with fp4 ].

Lemma BufferSlot_ok : slot_ok BufferSlot. Proof. slot_tac own_put_buffers. Qed.
Lemma ImageSlot_ok : slot_ok ImageSlot. Proof. slot_tac own_put_images. Qed.
Lemma ViewSlot_ok : slot_ok ViewSlot.
Proof.
  slot_tac own_put_views.
  - intros h Hh. apply lookup_insert_is_Some'. right. by apply to_sw0.
  - intros x Hx. rewrite lookup_delete_ne; [by apply to_sw0|]. intros ->. apply (Hh 0). unfold own_view. by rewrite decide_True.
Qed.
Lemma SamplerSlot_ok : slot_ok SamplerSlot. Proof. slot_tac own_put_samplers. Qed.
Lemma ShaderSlot_ok : slot_ok ShaderSlot. Proof. slot_tac own_put_shaders. Qed.
Lemma PipelineSlot_ok : slot_ok PipelineSlot. Proof. slot_tac own_put_pipelines. Qed.
Lemma FenceSlot_ok : slot_ok FenceSlot. Proof. slot_tac own_put_fences. Qed.
Lemma SemaphoreSlot_ok : slot_ok SemaphoreSlot. Proof. slot_tac own_put_semaphores. Qed.

Section Slots.
Context {A : Type} (S : Slot A) (HS : slot_ok S).

Lemma owned_put b c f t : exists R, forall m,
  owned b c f (sl_put S m t) ≡ₚ flat (sl_own S (swapViewHandles c)) m ++ R.
Proof.
  destruct (so_own S HS (swapViewHandles c) t) as [R HR]. exists (chain_own c ++ R ++ frames_own f ++ base_own b).
  intros m. unfold owned. rewrite HR. rewrite <- !app_assoc. by rewrite Permutation_app_swap_app.
Qed.

Lemma owned_insert b c f t x : tabs_ok (swapViewHandles c) t ->
  owned b c f (bump (sl_put S (<[nextHandle t := x]> (sl_get S t)) t)) ≡ₚ
  sl_own S (swapViewHandles c) (nextHandle t, x) ++ owned b c f t.
Proof.
  intros Ht. destruct (owned_put b c f t) as [R HR].
  change (owned b c f (bump (sl_put S (<[nextHandle t := x]> (sl_get S t)) t))) with
    (owned b c f (sl_put S (<[nextHandle t := x]> (sl_get S t)) t)).
  rewrite HR, flat_insert by (apply keys_free; by eapply so_keys).
  rewrite <- app_assoc, <- HR, (so_put_get S HS). reflexivity.
Qed.

Lemma owned_delete b c f t h x : sl_get S t !! h = Some x ->
  owned b c f t ≡ₚ sl_own S (swapViewHandles c) (h, x) ++ owned b c f (sl_put S (delete h (sl_get S t)) t).
Proof.
  intros Hx. destruct (owned_put b c f t) as [R HR]. rewrite HR, app_assoc, <- flat_delete by done.
  by rewrite <- HR, (so_put_get S HS).
Qed.

End Slots.

Lemma known_in_owned sts b c f t : frames_ok f sts -> known_in (known sts f t) (owned b c f t).
Proof.
  intros Hf. split; cbn [known k_fences k_sizes].
  - intros h st Hin. apply elem_of_zip_l in Hin. apply list_elem_of_fmap in Hin as (p & -> & Hp).
    unfold owned. rewrite !elem_of_app. right. right. left. unfold frames_own.
    apply list_elem_of_In, in_concat. exists (own_frame p). split.
    + apply in_map_iff. exists p. split; [done|]. by apply list_elem_of_In.
    + apply list_elem_of_In. unfold own_frame, own. pose proof (fo_fence _ _ Hf p Hp) as Hn.
      rewrite (proj2 (Z.eqb_neq _ 0)) by done. rewrite !elem_of_app. left. by left.
  - intros h n Hin. unfold sizes in Hin. apply list_elem_of_fmap in Hin as ([k e] & [= -> ->] & Hin).
    apply elem_of_map_to_list in Hin. unfold owned. rewrite !elem_of_app. right. left. unfold tabs_own.
    apply elem_of_app. left. eapply flat_elem; [exact Hin|]. right. by left.
Qed.

Lemma known_in_sub K L L' : L ⊆ L' -> known_in K L -> known_in K L'.
Proof. intros H [H1 H2]. split; intros h x Hx; apply H; eauto. Qed.
Lemma DI_less sts f t t' L d : sizes t' ⊆ sizes t -> DI L (known sts f t) d -> DI L (known sts f t') d.
Proof. intros H. by apply DI_forget. Qed.
Lemma sizes_delete t h : sizes (with_buffers (delete h (buffers t)) t) ⊆ sizes t.
Proof.
  intros x. unfold sizes. rewrite !list_elem_of_fmap. intros ([k e] & -> & Hin). exists (k, e). split; [done|].
  apply elem_of_map_to_list in Hin. cbn [with_buffers buffers] in Hin. apply lookup_delete_Some in Hin as [_ Hin]. by apply elem_of_map_to_list.
Qed.

(** The device is as before but for its tables and the driver. *)
Definition tables_only (s s' : Vk) : Prop := base s' = base s /\ chain s' = chain s /\ frames s' = frames s.

(** What a creation does to the table of its kind. *)
Definition entered {A} (S : Slot A) (t : Tables) (h : Z) (t' : Tables) : Prop :=
  (h = 0 /\ t' = t) \/ (h = nextHandle t /\ exists x, t' = bump (sl_put S (<[h := x]> (sl_get S t)) t)).

Definition grown {A} (s : Vk) (S : Slot A) (h : Z) (s' : Vk) : Prop :=
  vinv s' /\ tables_only s s' /\ entered S (tabs s) h (tabs s').
(** What is left when a handle is destroyed. *)
Definition shrunk {A} (s : Vk) (S : Slot A) (h : Z) (s' : Vk) : Prop :=
  vinv s' /\ tables_only s s' /\
  tabs s' = (if decide (sl_get S (tabs s) !! h = None) then tabs s else sl_put S (delete h (sl_get S (tabs s))) (tabs s)).

Section Operations.
Context (w : World) (Hw : world_ok w).

Section State.
Context (d : Driver) (b : Base) (c : Chain) (f : Frames) (t : Tables) (sts : Ghost).
Context (Hb : device b <> 0) (Hc : chain_ok c) (Ht : tabs_ok (swapViewHandles c) t) (Hf : frames_ok f sts).

Lemma vinv_same d' : DI (owned b c f t) (known sts f t) d' -> vinv (mkVk false d' b c f t).
Proof. intros HD. constructor; [done..|]. by exists sts. Qed.

Lemma null_handle {A} (S : Slot A) l d' :
  DI (owned b c f t) (known sts f t) d' ->
  wp (mret 0) (fun a s => grown (mkVk false d b c f t) S a (mkVk false (drv s) (base s) (chain s) (frames s) (tabs s))) (mkVk l d' b c f t).
Proof. intros HD. apply vwp_ret. split; [by apply vinv_same|]. split; [done|by left]. Qed.

Lemma wp_enter {A} (S : Slot A) (HS : slot_ok S) x l d' :
  DI (sl_own S (swapViewHandles c) (nextHandle t, x) ++ owned b c f t) (known sts f t) d' ->
  (let t' := bump (sl_put S (<[nextHandle t := x]> (sl_get S t)) t) in
   DI (owned b c f t') (known sts f t) d' -> DI (owned b c f t') (known sts f t') d') ->
  wp (enter (fun h t => sl_put S (<[h := x]> (sl_get S t)) t))
    (fun a s => grown (mkVk false d b c f t) S a (mkVk false (drv s) (base s) (chain s) (frames s) (tabs s))) (mkVk l d' b c f t).
Proof.
  intros HD Hk. unfold enter. repeat v_step. cbn [drv base chain frames tabs].
  split; [|split; [done|right; split; [done|by exists x]]].
  constructor; [done|done|done| |]; cbn [drv base chain frames tabs].
  - by apply so_insert.
  - exists sts. split; [done|]. apply Hk. eapply DI_perm; [|exact HD]. by rewrite (owned_insert S HS).
Qed.

(** Creating one object and entering it. *)
Lemma wp_create_enter {A} (S : Slot A) (HS : slot_ok S) (mk : Z -> A) o l d' :
  (forall h, h ∉ swapViewHandles c -> forall v, sl_own S (swapViewHandles c) (h, mk v) = [(v, class o)]) ->
  (forall x t, sizes (bump (sl_put S x t)) = sizes t) ->
  DI (owned b c f t) (known sts f t) d' ->
  wp (r ← create w o; match r with None => mret 0 | Some v => enter (fun h t => sl_put S (<[h := mk v]> (sl_get S t)) t) end)
    (fun a s => grown (mkVk false d b c f t) S a (mkVk false (drv s) (base s) (chain s) (frames s) (tabs s))) (mkVk l d' b c f t).
Proof.
  intros Hown Hsz HD. v_step. apply (wp_create w _ _ _ _ _ _ _ _ _ _ HD); clear HD.
  - intros d1 HD. by apply null_handle.
  - intros d1 v Hv HD _ _. apply wp_enter; [done| |].
    + rewrite Hown; [done|]. intros Hin. apply (to_sw _ _ Ht) in Hin as [y Hy]. apply (to_views _ _ Ht) in Hy. lia.
    + cbv zeta. unfold known. by rewrite Hsz.
Qed.

Lemma wp_simple_destroy {A} (S : Slot A) (HS : slot_ok S) (obj : A -> Z) cl h :
  (forall x, sl_own S (swapViewHandles c) (h, x) = [(obj x, cl)]) ->
  (forall x t, sizes (sl_put S x t) = sizes t) ->
  DI (owned b c f t) (known sts f t) d ->
  wp (with_lock (t ← read tabs;
        match sl_get S t !! h with
        | None => mret tt
        | Some x => _ ← destroy cl (obj x); set_tabs (sl_put S (delete h (sl_get S t)) t)
        end)) (fun _ => shrunk (mkVk false d b c f t) S h) (mkVk false d b c f t).
Proof.
  intros Hown Hsz HD. repeat v_step. destruct (sl_get S t !! h) as [x|] eqn:E.
  - v_step. set (t' := sl_put S (delete h (sl_get S t)) t).
    assert (known sts f t' = known sts f t) as Hk by (unfold known, t'; by rewrite Hsz).
    apply (wp_destroy (owned b c f t') (known sts f t)).
    + eapply DI_perm; [|exact HD]. rewrite (owned_delete S HS b c f t h x E), Hown. done.
    + rewrite <- Hk. by apply known_in_owned.
    + intros d' HD'. v_step. cbn [drv base chain frames tabs]. split; [|split; [done|]]; [|cbn [tabs]; rewrite decide_False by congruence; done].
      constructor; [done|done|done| |]; [apply so_delete; [done| |done]; intros y; by rewrite Hown|]. exists sts. split; [done|]. cbn [drv base chain frames tabs]. change (DI (owned b c f t') (known sts f t') d'). by rewrite Hk.
  - v_step. split; [by eapply vinv_same|]. split; [done|]. cbn [tabs]. by rewrite decide_True.
Qed.

End State.
End Operations.

Ltac open_state s Hs :=
  destruct s as [lk d b c f t]; destruct Hs as [Hl Hb Hc Ht (sts & Hf & HD)]; cbn [locked drv base chain frames tabs] in *; subst lk.

Lemma map_sizes_insert (m : gmap Z BufferEntry) k e x :
  m !! k = None ->
  x ∈ ((fun x => (be_memory x.2, be_size x.2)) <$> map_to_list (<[k := e]> m)) ->
  x = (be_memory e, be_size e) \/ x ∈ ((fun x => (be_memory x.2, be_size x.2)) <$> map_to_list m).
Proof.
  intros Hk. rewrite map_to_list_insert by done. rewrite fmap_cons, elem_of_cons. done.
Qed.

Lemma createBuffer_ok w s desc : world_ok w -> vinv s -> wp (createBuffer w desc) (grown s BufferSlot) s.
Proof.
  intros Hw Hs. open_state s Hs. unfold createBuffer. repeat v_step. cbv zeta.
  set (o := OBuffer (bd_size desc) (toVkBufferUsage (bd_usage desc))); try v_step.
  apply (wp_create w _ _ _ _ _ _ _ _ _ _ HD); clear HD; [intros d' HD; by eapply null_handle|].
  intros d1 buf Hbuf HD _ _. pose proof (wo_size _ Hw (bd_size desc) (toVkBufferUsage (bd_usage desc))) as Hsz. fold o in Hsz.
  destruct (w_reqs w o) as [size bits]. cbn [fst] in Hsz.
  pose proof (known_in_owned _ b c f t Hf) as Hk.
  destruct (find_type bits _ 0) as [ty|].
  2: { v_step. apply (wp_destroy _ _ _ _ _ _ _ _ _ _ _ HD); [done|]. intros d2 HD2. by eapply null_handle. }
  v_step. apply (wp_create w _ _ _ _ _ _ _ _ _ _ HD); clear HD.
  - intros d2 HD. v_step. apply (wp_destroy _ _ _ _ _ _ _ _ _ _ _ HD); [done|]. intros d3 HD3. by eapply null_handle.
  - intros d2 mem Hmem HD Hcontent _. destruct (Hcontent size ty eq_refl) as (content & Hm & Hlen).
    apply (wp_enter _ _ _ _ _ _ Hb Hc Ht Hf BufferSlot BufferSlot_ok).
    + eapply DI_perm; [|exact HD]. cbn. apply perm_swap.
    + cbv zeta. intros HD'. pose proof (known_in_owned sts b c f _ Hf : known_in _ (owned b c f (bump (with_buffers (<[nextHandle t := mkBufferEntry buf mem (bd_size desc)]> (buffers t)) t)))) as Hk'.
      destruct HD' as [? ? ? ? ? (H1 & H2 & H3)]. constructor; try done. split_and!; [exact H1| |exact H3].
      intros h n Hin. apply map_sizes_insert in Hin as [[= -> ->]|Hin]; [|by apply H2|apply keys_free; by apply Ht].
      exists content. split; [done|]. cbn. lia.
Qed.

Lemma destroyBuffer_ok s h : vinv s -> wp (destroyBuffer h) (fun _ => shrunk s BufferSlot h) s.
Proof.
  intros Hs. open_state s Hs. unfold destroyBuffer. repeat v_step.
  destruct (buffers t !! h) as [e|] eqn:E.
  2: { v_step. split; [by eapply vinv_same|]. split; [done|]. cbn. by rewrite decide_True. }
  set (t' := with_buffers (delete h (buffers t)) t).
  pose proof (known_in_owned sts b c f t' Hf) as Hk.
  apply (DI_less sts f t t') in HD; [|apply sizes_delete].
  apply (DI_perm _ _ _ _ (owned_delete BufferSlot BufferSlot_ok b c f t h e E)) in HD. cbn [sl_own BufferSlot app own_buffer] in HD.
  v_step. apply (wp_destroy _ _ _ _ _ _ _ _ _ _ _ HD).
  { eapply known_in_sub; [|exact Hk]. intros x Hx. by right. }
  clear HD. intros d1 HD. v_step. apply (wp_destroy _ _ _ _ _ _ _ _ _ _ _ HD); [done|]. clear HD. intros d2 HD. v_step.
  split; [|split; [done|]]; cbn; [|rewrite decide_False by congruence; done].
  constructor; [done|done|done|by apply (so_delete _ BufferSlot_ok)|]. by exists sts.
Qed.

Lemma createImage_ok w s desc : vinv s -> wp (createImage w desc) (grown s ImageSlot) s.
Proof.
  intros Hs. open_state s Hs. unfold createImage. repeat v_step. cbv zeta.
  set (o := OImage _ _ _ _ _ _ _ _); try v_step.
  apply (wp_create w _ _ _ _ _ _ _ _ _ _ HD); clear HD; [intros d' HD; by eapply null_handle|].
  intros d1 img Himg HD _ _. destruct (w_reqs w o) as [size bits]. pose proof (known_in_owned _ b c f t Hf) as Hk.
  v_step. apply (wp_create w _ _ _ _ _ _ _ _ _ _ HD); clear HD.
  - intros d2 HD. v_step. apply (wp_destroy _ _ _ _ _ _ _ _ _ _ _ HD); [done|]. intros d3 HD3. by eapply null_handle.
  - intros d2 mem Hmem HD _ _. apply (wp_enter _ _ _ _ _ _ Hb Hc Ht Hf ImageSlot ImageSlot_ok); [|done].
    eapply DI_perm; [|exact HD]. cbn. apply perm_swap.
Qed.

Lemma destroyImage_ok s h : vinv s -> wp (destroyImage h) (fun _ => shrunk s ImageSlot h) s.
Proof.
  intros Hs. open_state s Hs. unfold destroyImage. repeat v_step.
  destruct (images t !! h) as [e|] eqn:E.
  2: { v_step. split; [by eapply vinv_same|]. split; [done|]. cbn. by rewrite decide_True. }
  set (t' := with_images (delete h (images t)) t).
  pose proof (known_in_owned sts b c f t' Hf) as Hk.
  apply (DI_perm _ _ _ _ (owned_delete ImageSlot ImageSlot_ok b c f t h e E)) in HD. cbn [sl_own ImageSlot app own_image] in HD.
  v_step. apply (wp_destroy _ _ _ _ _ _ _ _ _ _ _ HD).
  { eapply known_in_sub; [|exact Hk]. intros x Hx. by right. }
  clear HD. intros d1 HD. v_step. apply (wp_destroy _ _ _ _ _ _ _ _ _ _ _ HD); [done|]. clear HD. intros d2 HD. v_step.
  split; [|split; [done|]]; cbn; [|rewrite decide_False by congruence; done].
  constructor; [done|done|done|by apply (so_delete _ ImageSlot_ok)|]. by exists sts.
Qed.

Lemma own_view_fresh sw h v : h ∉ sw -> own_view sw (h, v) = [(v, CImageView)].
Proof. intros H. unfold own_view. by rewrite decide_False. Qed.

Lemma createImageView_ok w s image : vinv s -> wp (createImageView w image) (grown s ViewSlot) s.
Proof.
  intros Hs. open_state s Hs. unfold createImageView. repeat v_step. destruct (images t !! image) as [e|] eqn:E; [|by eapply null_handle].
  apply (wp_create_enter w d b c f t sts Hb Hc Ht Hf ViewSlot ViewSlot_ok id (OImageView (ie_image e) (ie_format e))); [|done|done].
  intros h Hh v. by apply own_view_fresh.
Qed.

Lemma destroyImageView_ok s h : vinv s -> h ∉ swapViewHandles (chain s) -> wp (destroyImageView h) (fun _ => shrunk s ViewSlot h) s.
Proof.
  intros Hs Hh. open_state s Hs. apply (wp_simple_destroy d b c f t sts Hb Hc Ht Hf ViewSlot ViewSlot_ok id CImageView); try done.
  intros x. by apply own_view_fresh.
Qed.

Ltac simple_create S S_ok mk o :=
  let Hs := fresh in
  intros Hs; match type of Hs with vinv ?s => open_state s Hs end;
  unfold createSampler, createShader, createSemaphore; v_step; apply (wp_create_enter _ _ _ _ _ _ _ ltac:(eassumption) ltac:(eassumption) ltac:(eassumption) ltac:(eassumption) S S_ok mk o); done.
Ltac simple_destroy S S_ok obj cl :=
  let Hs := fresh in
  intros Hs; match type of Hs with vinv ?s => open_state s Hs end;
  apply (wp_simple_destroy _ _ _ _ _ _ ltac:(eassumption) ltac:(eassumption) ltac:(eassumption) ltac:(eassumption) S S_ok obj cl); done.

Lemma createSampler_ok w s desc : vinv s -> wp (createSampler w desc) (grown s SamplerSlot) s.
Proof. simple_create SamplerSlot SamplerSlot_ok (@id Z) (OSampler (sd_nearest desc) (sd_repeat desc) (sd_aniso desc)). Qed.
Lemma destroySampler_ok s h : vinv s -> wp (destroySampler h) (fun _ => shrunk s SamplerSlot h) s.
Proof. simple_destroy SamplerSlot SamplerSlot_ok (@id Z) CSampler. Qed.
Lemma createShader_ok w s stage code : vinv s -> wp (createShader w stage code) (grown s ShaderSlot) s.
Proof. simple_create ShaderSlot ShaderSlot_ok (fun v : Z => (v, stage)) (OShaderModule code). Qed.
Lemma destroyShader_ok s h : vinv s -> wp (destroyShader h) (fun _ => shrunk s ShaderSlot h) s.
Proof. simple_destroy ShaderSlot ShaderSlot_ok (@fst Z ShaderStage) CShaderModule. Qed.
Lemma destroyPipeline_ok s h : vinv s -> wp (destroyPipeline h) (fun _ => shrunk s PipelineSlot h) s.
Proof. simple_destroy PipelineSlot PipelineSlot_ok (@id Z) CPipeline. Qed.
Lemma destroyFence_ok s h : vinv s -> wp (destroyFence h) (fun _ => shrunk s FenceSlot h) s.
Proof. simple_destroy FenceSlot FenceSlot_ok (@id Z) CFence. Qed.
Lemma createSemaphore_ok w s : vinv s -> wp (createSemaphore w) (grown s SemaphoreSlot) s.
Proof. simple_create SemaphoreSlot SemaphoreSlot_ok (@id Z) OSemaphore. Qed.
Lemma destroySemaphore_ok s h : vinv s -> wp (destroySemaphore h) (fun _ => shrunk s SemaphoreSlot h) s.
Proof. simple_destroy SemaphoreSlot SemaphoreSlot_ok (@id Z) CSemaphore. Qed.

(** *** Fences, pipelines and uploads *)
Lemma DI_set_fence L K K' h st d :
  DI L K d -> (h, CFence) ∈ L -> k_sizes K' = k_sizes K -> k_submitted K' = k_submitted K ->
  (forall x y, (x, y) ∈ k_fences K' -> (x = h /\ y = st) \/ (x <> h /\ (x, y) ∈ k_fences K)) ->
  DI L K' (d_set_fence h st d).
Proof.
  intros [Hl Hr Hn Hfe [A1 A2] (B1 & B2 & B3)] Hin Hsz Hsub Hk.
  constructor; try done; cbn [d_set_fence d_fences d_live d_next].
  - intros x Hx. destruct (decide (x = h)) as [->|Hne]; [rewrite lookup_insert_eq; by eexists|].
    rewrite lookup_insert_ne by done. by apply Hfe.
  - split; [|by rewrite Hsz]. intros x y Hx. destruct (Hk _ _ Hx) as [[-> ->]|[_ Hx']]; [done|by eapply A1].
  - split_and!; [|by rewrite Hsz|by rewrite Hsub]. intros x y Hx. cbn [d_set_fence d_fences]. destruct (Hk _ _ Hx) as [[-> ->]|[Hne Hx']].
    + by rewrite lookup_insert_eq.
    + rewrite lookup_insert_ne by done. eauto.
Qed.

Lemma user_fence_apart sts b c f t h v d x y :
  frames_ok f sts -> DI (owned b c f t) (known sts f t) d -> fences t !! h = Some v ->
  (x, y) ∈ k_fences (known sts f t) -> x <> v.
Proof.
  intros Hf HD Hv Hx ->. apply (DI_perm _ _ _ _ (owned_delete FenceSlot FenceSlot_ok b c f t h v Hv)) in HD.
  cbn [sl_own FenceSlot own_of app] in HD. apply (DI_head _ _ _ _ _ HD CFence).
  apply (proj1 (known_in_owned sts b c f (with_fences (delete h (fences t)) t) Hf) v y). exact Hx.
Qed.

Lemma user_fence_set sts b c f t h v st d :
  frames_ok f sts -> DI (owned b c f t) (known sts f t) d -> fences t !! h = Some v ->
  DI (owned b c f t) (known sts f t) (d_set_fence v st d).
Proof.
  intros Hf HD Hv. apply (DI_set_fence _ (known sts f t)); [done| |done|done|].
  - rewrite (owned_delete FenceSlot FenceSlot_ok b c f t h v Hv). by left.
  - intros x y Hx. right. split; [|done]. by eapply user_fence_apart.
Qed.

Lemma wp_create_fence w (signaled : bool) L K (Q : option Z -> Vk -> Prop) l d b c f t :
  DI L K d -> (forall d', DI L K d' -> Q None (mkVk l d' b c f t)) ->
  (forall d' h, 0 < h -> DI ((h, CFence) :: L) K d' -> d_fences d' !! h = Some (if signaled then Signaled else Unsignaled) ->
     Q (Some h) (mkVk l d' b c f t)) ->
  wp (create_fence w signaled) Q (mkVk l d b c f t).
Proof.
  intros HD H1 H2. unfold create_fence. v_step. apply (wp_create w _ _ _ _ _ _ _ _ _ _ HD).
  - intros d' HD'. v_step. by apply H1.
  - intros d' h Hh HD' _ Hun. v_step. destruct signaled; repeat v_step; apply H2; try done.
    + apply (DI_set_fence _ K); [done|by left|done|done|]. intros x y Hx. right. split; [|done]. intros ->.
      apply (DI_head _ _ _ _ _ HD' CFence). by apply (proj1 (di_known _ _ _ HD) h y).
    + cbn [d_set_fence d_fences]. by rewrite lookup_insert_eq.
    + by apply Hun.
Qed.

Lemma createFence_ok w s signaled : vinv s -> wp (createFence w signaled) (grown s FenceSlot) s.
Proof.
  intros Hs. open_state s Hs. unfold createFence. repeat v_step. apply (wp_create_fence _ _ _ _ _ _ _ _ _ _ _ HD).
  - intros d' HD'. by eapply null_handle.
  - intros d' h Hh HD' _. by apply (wp_enter _ _ _ _ _ _ Hb Hc Ht Hf FenceSlot FenceSlot_ok).
Qed.

Lemma wp_wait_forever h st (Q : () -> Vk -> Prop) l d b c f t :
  d_fences d !! h = Some st -> st <> Unsignaled ->
  (forall d', (d' = d \/ d' = d_set_fence h Signaled d) -> Q tt (mkVk l d' b c f t)) ->
  wp (wait_forever h) Q (mkVk l d b c f t).
Proof.
  intros Hst Hne HQ. unfold wait_forever. repeat v_step. rewrite Hst. destruct st; [| done|]; v_step; apply HQ; auto.
Qed.

Lemma waitFence_ok s h timeout : vinv s -> timeout <> 2 ^ 64 - 1 -> wp (waitFence h timeout) (fun _ s' => vinv s' /\ tables_only s s' /\ tabs s' = tabs s) s.
Proof.
  intros Hs Ht64. open_state s Hs. unfold waitFence. repeat v_step. destruct (fences t !! h) as [v|] eqn:E.
  2: { v_step. split; [by eapply vinv_same|done]. }
  repeat v_step. destruct (di_fences _ _ _ HD v) as [st Hst].
  { rewrite (owned_delete FenceSlot FenceSlot_ok b c f t h v E). by left. }
  rewrite Hst. destruct (decide (st = Unsignaled)) as [->|Hne].
  - rewrite (proj2 (Z.eqb_neq _ _)) by done. v_step. split; [by eapply vinv_same|done].
  - assert (wp (_ ← wait_forever v; mret true) (fun _ s' => vinv (mkVk false (drv s') (base s') (chain s') (frames s') (tabs s')) /\
       tables_only (mkVk false d b c f t) (mkVk false (drv s') (base s') (chain s') (frames s') (tabs s')) /\ tabs s' = t)
       (mkVk true d b c f t)) as H.
    { v_step. apply (wp_wait_forever v st); [done|done|]. intros d' Hd'. v_step. split; [|done].
      eapply vinv_same; try done. destruct Hd' as [->| ->]; [done|by eapply user_fence_set]. }
    by destruct st.
Qed.

Lemma resetFence_ok s h : vinv s -> wp (resetFence h) (fun _ s' => vinv s' /\ tables_only s s' /\ tabs s' = tabs s) s.
Proof.
  intros Hs. open_state s Hs. unfold resetFence. repeat v_step. destruct (fences t !! h) as [v|] eqn:E.
  2: { v_step. split; [by eapply vinv_same|done]. }
  unfold reset_fence. repeat v_step. destruct (di_fences _ _ _ HD v) as [st Hst].
  { rewrite (owned_delete FenceSlot FenceSlot_ok b c f t h v E). by left. }
  rewrite Hst. v_step. split; [|done]. eapply vinv_same; try done. by eapply user_fence_set.
Qed.

Lemma createGraphicsPipeline_ok w s vs fs : vinv s -> wp (createGraphicsPipeline w vs fs) (grown s PipelineSlot) s.
Proof.
  intros Hs. open_state s Hs. unfold createGraphicsPipeline. repeat v_step. pose proof (known_in_owned _ b c f t Hf) as Hk.
  destruct (shaders t !! vs) as [v|]; [|by eapply null_handle]. destruct (shaders t !! fs) as [g|]; [|by eapply null_handle].
  assert (forall d1 layout pipe Q, DI (own CPipelineLayout layout ++ own CPipeline pipe ++ owned b c f t) (known sts f t) d1 ->
    (forall d2, DI (own CPipeline pipe ++ owned b c f t) (known sts f t) d2 -> Q tt (mkVk true d2 b c f t)) ->
    wp (destroy CPipelineLayout layout) Q (mkVk true d1 b c f t)) as Hdes.
  { intros d1 layout pipe Q HD1 HQ. apply (wp_destroy_own _ _ _ _ _ _ _ _ _ _ _ HD1); [|done].
    eapply known_in_sub; [|exact Hk]. intros x Hx. apply elem_of_app. by right. }
  assert (forall d1 layout, DI (own CPipelineLayout layout ++ owned b c f t) (known sts f t) d1 ->
    wp (pipe ← create w (OPipeline (fst v) (fst g) layout); _ ← destroy CPipelineLayout layout;
        match pipe with None => mret 0 | Some p => enter (fun h t => with_pipelines (<[h := p]> (pipelines t)) t) end)
      (fun a s => grown (mkVk false d b c f t) PipelineSlot a (mkVk false (drv s) (base s) (chain s) (frames s) (tabs s)))
      (mkVk true d1 b c f t)) as Hrest.
  { intros d1 layout HD1. v_step. apply (wp_create w _ _ _ _ _ _ _ _ _ _ HD1); clear HD1.
    - intros d2 HD2. v_step. apply (Hdes d2 layout 0); [exact HD2|]. intros d3 HD3. by eapply null_handle.
    - intros d2 p Hp HD2 _ _. v_step. apply (Hdes d2 layout p).
      + unfold own at 2. rewrite (proj2 (Z.eqb_neq p 0)) by lia. eapply DI_perm; [|exact HD2]. by rewrite Permutation_middle.
      + intros d3 HD3. unfold own in HD3. rewrite (proj2 (Z.eqb_neq p 0)) in HD3 by lia.
        by apply (wp_enter _ _ _ _ _ _ Hb Hc Ht Hf PipelineSlot PipelineSlot_ok). }
  v_step. apply (wp_create w _ _ _ _ _ _ _ _ _ _ HD).
  - intros d1 HD1. by apply (Hrest d1 0).
  - intros d1 layout Hl HD1 _ _. apply (Hrest d1 layout). unfold own. by rewrite (proj2 (Z.eqb_neq layout 0)) by lia.
Qed.

Lemma DI_write L K h content content' d :
  DI L K d -> d_mem d !! h = Some content -> length content' = length content -> DI L K (d_write h content' d).
Proof.
  intros [Hl Hr Hn Hfe HK (B1 & B2 & B3)] Hm Hlen. constructor; try done. split_and!; [done| |done].
  intros x n Hx. cbn [d_write d_mem]. destruct (B2 _ _ Hx) as (y & Hy & Hle). destruct (decide (x = h)) as [->|Hne].
  - exists content'. rewrite lookup_insert_eq. split; [done|]. rewrite Hlen. congruence.
  - exists y. by rewrite lookup_insert_ne.
Qed.

Lemma uploadBuffer_ok w s h offset data :
  vinv s -> 0 <= offset -> offset + Z.of_nat (length data) < 2 ^ 64 ->
  wp (uploadBuffer w h offset data) (fun _ s' => vinv s' /\ tables_only s s' /\ tabs s' = tabs s) s.
Proof.
  intros Hs Ho Hfit. open_state s Hs. unfold uploadBuffer. repeat v_step. destruct (buffers t !! h) as [e|] eqn:E.
  2: { v_step. split; [by eapply vinv_same|done]. }
  rewrite wrap_id by (unfold in_width; lia).
  destruct (be_size e <? _) eqn:El; [v_step; split; [by eapply vinv_same|done]|]. apply Z.ltb_ge in El.
  unfold write_mapped. v_step. apply (wp_answer w _ _ _ _ _ _ _ _ _ HD). clear HD. intros r d1 HD.
  destruct (decide (r <> VK_SUCCESS)); [v_step; split; [by eapply vinv_same|done]|].
  repeat v_step. destruct (proj1 (proj2 (di_holds _ _ _ HD)) (be_memory e) (be_size e)) as (content & Hm & Hle).
  { unfold known, sizes. cbn [k_sizes]. apply list_elem_of_fmap. exists (h, e). split; [done|]. by apply elem_of_map_to_list. }
  rewrite Hm, (proj2 (Z.leb_le _ _)) by lia. repeat v_step. split; [|done]. eapply vinv_same; try done.
  eapply DI_write; [done|done|]. rewrite !length_app, length_take, length_drop. lia.
Qed.

(** *** The swapchain *)
Definition views_own (vs : list Z) : owned_objects := concat (own CImageView <$> vs).

(** The table has the views of the swapchain's images under their handles. *)
Definition linked (hs vs : list Z) (t : Tables) : Prop := Forall2 (fun h v => views t !! h = Some v) hs vs.

Lemma chain_view_loop w (Q : () -> Vk -> Prop) sc imgs fmt ext idx format b f sts k : forall m vs hs t d,
  length vs = k -> length hs = k -> tabs_ok hs t -> linked hs vs t -> frames_ok f sts ->
  DI (views_own vs ++ own CSwapchain sc ++ tabs_own hs t ++ frames_own f ++ base_own b) (known sts f t) d ->
  (forall d' vs' hs' t', length vs' = (k + m)%nat -> length hs' = (k + m)%nat -> tabs_ok hs' t' -> linked hs' vs' t' ->
     DI (views_own vs' ++ own CSwapchain sc ++ tabs_own hs' t' ++ frames_own f ++ base_own b) (known sts f t') d' ->
     Q tt (mkVk true d' b (mkChain sc imgs vs' hs' fmt ext idx) f t')) ->
  wp (for_each (seq k m) (chain_view w format)) Q
    (mkVk true d b (mkChain sc imgs (vs ++ replicate m 0) (hs ++ replicate m 0) fmt ext idx) f t).
Proof.
  intros m. revert k. induction m as [|m IH]; intros k vs hs t d Hvs Hhs Ht Hlk Hf HD HQ.
  - rewrite !app_nil_r. apply vwp_ret. by apply (HQ d vs hs t); rewrite ?Nat.add_0_r.
  - cbn [seq for_each replicate]. v_step. unfold chain_view. repeat v_step. cbn [swapImages swapViews swapViewHandles].
    assert (forall d1 v, DI (own CImageView v ++ views_own vs ++ own CSwapchain sc ++ tabs_own hs t ++ frames_own f ++ base_own b)
        (known sts f t) d1 ->
      wp (for_each (seq (S k) m) (chain_view w format)) Q
        (mkVk true d1 b (mkChain sc imgs (<[k := v]> (vs ++ 0 :: replicate m 0)) (<[k := nextHandle t]> (hs ++ 0 :: replicate m 0))
          fmt ext idx) f (add_view v t))) as Hnext.
    { intros d1 v HD1. rewrite !insert_app_r_alt by lia. rewrite Hvs, Hhs, Nat.sub_diag. cbn [insert list_insert].
      rewrite !(cons_middle _ _ (replicate m 0)), !app_assoc.
      assert (nextHandle t ∉ hs) as Hnew.
      { intros Hin. apply (to_sw _ _ Ht) in Hin as [y Hy]. apply (to_views _ _ Ht) in Hy. lia. }
      apply IH; [rewrite length_app; simpl; lia|rewrite length_app; simpl; lia| | |done| |].
      - pose proof (to_next _ _ Ht). destruct Ht. constructor; cbn; eauto with fp4; try lia.
        intros h [Hh| ->%list_elem_of_singleton]%elem_of_app; [|rewrite lookup_insert_eq; by eexists].
        apply lookup_insert_is_Some'. right. by apply to_sw0.
      - apply Forall2_app; [|constructor; [|constructor]; cbn; by rewrite lookup_insert_eq].
        eapply Forall2_impl; [exact Hlk|]. intros h x Hx. cbn. apply (to_views _ _ Ht) in Hx as Hr.
        rewrite lookup_insert_ne by lia. done.
      - assert (tabs_own (hs ++ [nextHandle t]) (add_view v t) ≡ₚ tabs_own hs t) as Htabs.
        { unfold tabs_own. cbn [add_view buffers images views samplers shaders pipelines fences semaphores].
          rewrite flat_insert by (apply keys_free; apply Ht). unfold own_view at 1. cbn [fst].
          rewrite decide_True by (apply elem_of_app; right; by left).
          rewrite (flat_ext (own_view (hs ++ [nextHandle t])) (own_view hs)); [done|].
          intros j x Hj. unfold own_view. cbn [fst]. apply (to_views _ _ Ht) in Hj.
          destruct (decide (j ∈ hs)); [rewrite decide_True by (apply elem_of_app; by left)|rewrite decide_False]; try done.
          intros [?| ->%list_elem_of_singleton]%elem_of_app; [done|lia]. }
        eapply DI_perm; [|exact HD1]. rewrite Htabs. unfold views_own. rewrite fmap_app, concat_app. cbn. rewrite app_nil_r, <- !app_assoc.
        by rewrite (Permutation_app_swap_app (own CImageView v)).
      - intros d' vs' hs' t' H1 H2 H3 H4 H5. apply HQ; try done; lia. }
    apply (wp_create w _ _ _ _ _ _ _ _ _ _ HD).
    + intros d1 HD1. repeat v_step. cbn [default]. rewrite lookup_app_r by lia. rewrite Hvs, Nat.sub_diag. cbn.
      apply Hnext. exact HD1.
    + intros d1 v Hv HD1 _ _. repeat v_step. cbn [default]. apply Hnext. unfold id. by rewrite (own_pos CImageView v) by lia.
Qed.

Lemma createSwapchain_ok w s desc :
  world_ok w -> vinv s -> swapchain (chain s) = 0 ->
  wp (createSwapchain w desc) (fun r s' => vinv s' /\ frames s' = frames s /\ base s' = base s /\
        linked (swapViewHandles (chain s')) (swapViews (chain s')) (tabs s') /\ (r = true -> swapchain (chain s') <> 0)) s.
Proof.
  intros Hw Hs Hnone. open_state s Hs. unfold createSwapchain. v_step.
  destruct (w_formats w) as [|first l] eqn:E; [by destruct (wo_formats _ Hw)|]. cbv zeta. repeat v_step.
  destruct (co_none _ Hc Hnone) as [Hv Hh]. destruct c as [sc0 imgs vs hs fmt ext idx]. cbn [swapchain swapViews swapViewHandles] in *. subst.
  apply (wp_create w _ _ _ _ _ _ _ _ _ _ HD).
  - intros d1 HD1. v_step. split; [by eapply vinv_same|]. split_and!; try done. constructor.
  - intros d1 sc Hsc HD1 _ _. repeat v_step. cbn [swapViews swapViewHandles swapFormat swapExtent swapIndex].
    rewrite !resize_nil.
    eapply (chain_view_loop w _ sc _ fmt ext idx _ b f sts 0 (length (w_swapImages w)) [] [] t); try done.
    + constructor.
    + eapply DI_perm; [|exact HD1]. unfold owned, chain_own, views_own. cbn. by rewrite (own_pos CSwapchain sc) by lia.
    + cbn [plus]. intros d' vs' hs' t' H1 H2 H3 Hlk H4. repeat v_step. cbn [chain drv frames tabs base swapchain swapImages swapViews swapViewHandles].
      split; [|split; [done|split; [done|split; [exact Hlk|intros _; lia]]]].
      constructor; cbn [locked base chain tabs frames drv]; try done.
      * constructor; cbn; [lia|congruence].
      * exists sts. split; [done|]. eapply DI_perm; [|exact H4]. unfold owned, chain_own. cbn [swapViews swapchain swapViewHandles].
        by rewrite <- app_assoc.
Qed.

(** *** Frames *)
Lemma frame_at_elem f i : (i < length (perFrame f))%nat -> perFrame f !! i = Some (frame_at i f).
Proof. intros H. unfold frame_at. destruct (perFrame f !! i) eqn:E; [done|]. apply lookup_ge_None in E. lia. Qed.

(** Recording changes neither handles nor what is owned. *)
Lemma with_cmds_handles f i l r : inFlight <$> perFrame (with_frame i (set_cmds (frame_at i f) l r) f) = inFlight <$> perFrame f.
Proof.
  cbn [with_frame perFrame]. rewrite list_fmap_insert. cbn [set_cmds inFlight].
  destruct (decide (i < length (perFrame f))%nat) as [Hi|Hi].
  - apply list_insert_id. rewrite list_lookup_fmap, frame_at_elem by done. done.
  - apply list_insert_ge. rewrite length_fmap. lia.
Qed.
Lemma with_cmds_own f i l r : frames_own (with_frame i (set_cmds (frame_at i f) l r) f) = frames_own f.
Proof.
  unfold frames_own. cbn [with_frame perFrame]. f_equal. rewrite list_fmap_insert.
  destruct (decide (i < length (perFrame f))%nat) as [Hi|Hi].
  - apply list_insert_id. rewrite list_lookup_fmap, frame_at_elem by done. done.
  - apply list_insert_ge. rewrite length_fmap. lia.
Qed.

(** The states of the fences while frame [i] is being recorded, or none is. *)
Lemma frames_ok_set f g sts st idx b :
  frames_ok f sts -> inFlight <$> perFrame g = inFlight <$> perFrame f ->
  frameIndex g = idx -> inFrame g = b -> (idx < length (perFrame f))%nat ->
  (forall i s, <[frameIndex f := st]> (g_fences sts) !! i = Some s -> (s = Unsignaled <-> i = idx /\ b = true)) ->
  forall sub, frames_ok g (mkGhost (<[frameIndex f := st]> (g_fences sts)) sub).
Proof.
  intros [H1 H2 H0 H3 H4 H5] Hh <- <- Hi Hst sub.
  assert (length (perFrame g) = length (perFrame f)) as Hlen by (rewrite <- (length_fmap inFlight (perFrame g)), Hh; apply length_fmap).
  constructor; cbn [g_fences]; [by rewrite length_insert, Hlen|by rewrite Hh|by rewrite Hlen|by rewrite Hlen| |done].
  intros p Hp. assert (inFlight p ∈ (inFlight <$> perFrame g)) as Hin by by apply list_elem_of_fmap_2.
  rewrite Hh in Hin. apply list_elem_of_fmap in Hin as (q & -> & Hq). by apply H4.
Qed.

Lemma DI_frame_fence f g sts b c t st sub d :
  frames_ok f sts -> DI (owned b c f t) (known sts f t) d -> sub = g_submitted sts ->
  inFlight <$> perFrame g = inFlight <$> perFrame f -> frames_own g = frames_own f ->
  DI (owned b c g t) (known (mkGhost (<[frameIndex f := st]> (g_fences sts)) sub) g t)
    (d_set_fence (inFlight (frame_at (frameIndex f) f)) st d).
Proof.
  intros Hf HD -> Hh Ho. pose proof (frame_at_elem f _ (fo_index _ _ Hf)) as Hp.
  assert (owned b c g t = owned b c f t) as -> by (unfold owned; by rewrite Ho).
  eapply DI_set_fence; [exact HD| |done|done|].
  - assert (perFrame f !! frameIndex f = Some (frame_at (frameIndex f) f)) as Hin by done.
    apply list_elem_of_lookup_2 in Hin. destruct (lookup_lt_is_Some_2 (g_fences sts) (frameIndex f)) as [x Hx].
    { rewrite (fo_length _ _ Hf). apply Hf. }
    apply (proj1 (known_in_owned sts b c f t Hf) _ x). cbn [known k_fences]. apply list_elem_of_lookup. exists (frameIndex f).
    apply lookup_zip_Some. split; [|done]. by rewrite list_lookup_fmap, Hp.
  - intros x y Hxy. cbn [known k_fences g_fences] in Hxy. apply list_elem_of_lookup in Hxy as [i Hi].
    apply lookup_zip_Some in Hi as [Hx Hy]. rewrite Hh in Hx.
    destruct (decide (i = frameIndex f)) as [->|Hne].
    + left. rewrite list_lookup_fmap, Hp in Hx. injection Hx as <-. split; [done|].
      rewrite list_lookup_insert_eq in Hy; [by injection Hy|]. rewrite (fo_length _ _ Hf). apply Hf.
    + right. rewrite list_lookup_insert_ne in Hy by done. split.
      * intros ->. apply Hne. eapply NoDup_lookup; [apply (fo_distinct _ _ Hf)|exact Hx|]. by rewrite list_lookup_fmap, Hp.
      * cbn [known k_fences]. apply list_elem_of_lookup. exists i. by apply lookup_zip_Some.
Qed.

(** What is recorded for the frame, and whether it can be added to. *)
Definition frame_cmds (s : Vk) : list Cmd := cmdBuffer (frame_at (frameIndex (frames s)) (frames s)).
Definition frame_recording (s : Vk) : bool := recording (frame_at (frameIndex (frames s)) (frames s)).

Lemma frame_at_set i l r f : (i < length (perFrame f))%nat ->
  frame_at i (with_frame i (set_cmds (frame_at i f) l r) f) = set_cmds (frame_at i f) l r.
Proof. intros H. unfold frame_at at 1. cbn [with_frame perFrame]. by rewrite list_lookup_insert_eq. Qed.

(** The invariant does not see the command buffers. *)
Lemma frames_ok_same f g sts :
  frames_ok f sts -> inFlight <$> perFrame g = inFlight <$> perFrame f -> frameIndex g = frameIndex f -> inFrame g = inFrame f ->
  frames_ok g sts.
Proof.
  intros [H1 H2 H0 H3 H4 H5] Hh Hi Hb.
  assert (length (perFrame g) = length (perFrame f)) as Hlen by (rewrite <- (length_fmap inFlight (perFrame g)), Hh; apply length_fmap).
  constructor; [by rewrite Hlen|by rewrite Hh|by rewrite Hlen|by rewrite Hlen, Hi| |by rewrite Hi, Hb].
  intros p Hp. assert (inFlight p ∈ (inFlight <$> perFrame g)) as Hin by by apply list_elem_of_fmap_2.
  rewrite Hh in Hin. apply list_elem_of_fmap in Hin as (q & -> & Hq). by apply H4.
Qed.
Lemma vinv_frames d b c f g t sts :
  device b <> 0 -> chain_ok c -> tabs_ok (swapViewHandles c) t -> frames_ok g sts ->
  frames_own g = frames_own f -> inFlight <$> perFrame g = inFlight <$> perFrame f ->
  DI (owned b c f t) (known sts f t) d -> vinv (mkVk false d b c g t).
Proof.
  intros Hb Hc Ht Hg Ho Hh HD. constructor; [done..|]. exists sts. split; [done|]. cbn [base chain frames tabs drv].
  unfold owned, known in *. by rewrite Ho, Hh.
Qed.

(** Only frames and the driver change. *)
Definition frames_only (s s' : Vk) : Prop :=
  base s' = base s /\ tabs s' = tabs s /\ swapchain (chain s') = swapchain (chain s) /\ swapImages (chain s') = swapImages (chain s) /\
  swapViewHandles (chain s') = swapViewHandles (chain s) /\ swapViews (chain s') = swapViews (chain s).

Lemma others_signalled f sts i st s : frames_ok f sts ->
  <[frameIndex f := st]> (g_fences sts) !! i = Some s -> i <> frameIndex f -> s <> Unsignaled.
Proof.
  intros Hf Hs Hne ->. rewrite list_lookup_insert_ne in Hs by done. apply (fo_state _ _ Hf) in Hs as [Hs _]. by destruct (Hs eq_refl).
Qed.
Lemma this_signalled f sts i st s : frames_ok f sts ->
  <[frameIndex f := st]> (g_fences sts) !! i = Some s -> i = frameIndex f -> s = st.
Proof.
  intros Hf Hs ->. rewrite list_lookup_insert_eq in Hs by (rewrite (fo_length _ _ Hf); apply Hf). by injection Hs.
Qed.
(** The frame's fence was reset: it is being recorded. *)
Lemma frames_ok_open f g sts sub : frames_ok f sts -> inFlight <$> perFrame g = inFlight <$> perFrame f ->
  frameIndex g = frameIndex f -> inFrame g = true -> frames_ok g (mkGhost (<[frameIndex f := Unsignaled]> (g_fences sts)) sub).
Proof.
  intros Hf Hh Hi Hb. apply (frames_ok_set f g sts Unsignaled (frameIndex f) true); try done; [apply Hf|].
  intros i s Hs. destruct (decide (i = frameIndex f)) as [E|E].
  - pose proof (this_signalled _ _ _ _ _ Hf Hs E). done.
  - pose proof (others_signalled _ _ _ _ _ Hf Hs E). by split; [|intros [? _]].
Qed.
(** The frame's fence will be or is signalled: no frame is being recorded. *)
Lemma frames_ok_closed f g sts sub st : frames_ok f sts -> inFlight <$> perFrame g = inFlight <$> perFrame f ->
  (frameIndex g < length (perFrame f))%nat -> inFrame g = false -> st <> Unsignaled ->
  frames_ok g (mkGhost (<[frameIndex f := st]> (g_fences sts)) sub).
Proof.
  intros Hf Hh Hi Hb Hst. apply (frames_ok_set f g sts st (frameIndex g) false); try done.
  intros i s Hs. destruct (decide (i = frameIndex f)) as [E|E].
  - pose proof (this_signalled _ _ _ _ _ Hf Hs E). subst s. by split; [|intros []].
  - pose proof (others_signalled _ _ _ _ _ Hf Hs E). by split; [|intros []].
Qed.

Lemma frame_fence_known sts b c f t d :
  frames_ok f sts -> DI (owned b c f t) (known sts f t) d ->
  exists st, d_fences d !! inFlight (frame_at (frameIndex f) f) = Some st /\ (st = Unsignaled <-> inFrame f = true).
Proof.
  intros Hf HD. destruct (lookup_lt_is_Some_2 (g_fences sts) (frameIndex f)) as [st Hst]; [rewrite (fo_length _ _ Hf); apply Hf|].
  exists st. split.
  - apply (proj1 (di_holds _ _ _ HD)). cbn [known k_fences]. apply list_elem_of_lookup. exists (frameIndex f). apply lookup_zip_Some.
    split; [|done]. rewrite list_lookup_fmap, frame_at_elem; [done|apply Hf].
  - rewrite (fo_state _ _ Hf _ _ Hst). naive_solver.
Qed.
Lemma DI_submitted L K d : DI L K d -> d_submitted d = k_submitted K.
Proof. intros HD. apply (di_holds _ _ _ HD). Qed.

Lemma wp_record_cmd cmd (Q : () -> Vk -> Prop) l d b c f t :
  recording (frame_at (frameIndex f) f) = true ->
  (forall g, g = with_frame (frameIndex f) (set_cmds (frame_at (frameIndex f) f) (cmdBuffer (frame_at (frameIndex f) f) ++ [cmd]) true) f ->
     Q tt (mkVk l d b c g t)) ->
  wp (record_cmd cmd) Q (mkVk l d b c f t).
Proof. intros Hr HQ. unfold record_cmd. repeat v_step. rewrite Hr. cbn [negb]. v_step. by apply HQ. Qed.

Lemma beginFrame_ok w s :
  vinv s -> inFrame (frames s) = false ->
  wp (beginFrame w) (fun r s' => vinv s' /\ frames_only s s' /\ d_submitted (drv s') = d_submitted (drv s) /\
       match r with
       | None => frames s' = frames s
       | Some _ => inFrame (frames s') = true /\ frame_recording s' = true /\
                   frame_cmds s' = [CmdBarrier (chain_image (chain s')) L_UNDEFINED L_TRANSFER_DST]
       end) s.
Proof.
  intros Hs Hin. open_state s Hs. unfold beginFrame. repeat v_step.
  destruct (swapchain c =? 0) eqn:Esc; [v_step; split; [by eapply vinv_same|done]|]. repeat v_step.
  pose proof (fo_index _ _ Hf) as Hi. destruct (frame_fence_known _ _ _ _ _ _ Hf HD) as (st & Hst & Hun).
  apply (wp_wait_forever _ st); [done|naive_solver congruence|]. intros d1 Hd1.
  assert (exists sts1, frames_ok f sts1 /\ g_submitted sts1 = g_submitted sts /\ DI (owned b c f t) (known sts1 f t) d1)
    as (sts1 & Hf1 & Hg1 & HD1).
  { destruct Hd1 as [->| ->]; [by exists sts|]. exists (mkGhost (<[frameIndex f := Signaled]> (g_fences sts)) (g_submitted sts)).
    split; [by apply (frames_ok_closed f f)|split; [done|by apply DI_frame_fence]]. }
  clear Hd1 st Hst Hun. repeat v_step. apply (wp_answer w _ _ _ _ _ _ _ _ _ HD1). intros acq d2 HD2.
  assert (d_submitted d2 = d_submitted d) as Hs2 by (rewrite (DI_submitted _ _ _ HD2), (DI_submitted _ _ _ HD); exact Hg1).
  destruct (negb _); [v_step; split; [by eapply vinv_same|done]|].
  set (c' := mkChain _ _ _ _ _ _ _). repeat v_step.
  unfold reset_fence. repeat v_step. destruct (frame_fence_known _ _ _ _ _ _ Hf1 HD2) as (st2 & -> & _). repeat v_step.
  set (f1 := with_frame _ _ f).
  assert (frame_at (frameIndex f) f1 = set_cmds (frame_at (frameIndex f) f) [] true) as Hat by by apply frame_at_set.
  apply wp_record_cmd; [by change (frameIndex f1) with (frameIndex f); rewrite Hat|]. intros f2 ->. repeat v_step.
  change (frameIndex f1) with (frameIndex f). rewrite Hat. cbn [set_cmds cmdBuffer app].
  set (f2 := with_frame _ _ f1).
  assert (f2 = with_frame (frameIndex f) (set_cmds (frame_at (frameIndex f) f) [CmdBarrier (chain_image c') L_UNDEFINED L_TRANSFER_DST] true) f) as Ef.
  { unfold f2, f1, with_frame. cbn [perFrame frameIndex inFrame framebufferResized]. by rewrite list_insert_insert_eq. }
  assert (inFlight <$> perFrame f2 = inFlight <$> perFrame f) as Hh by (rewrite Ef; apply with_cmds_handles).
  assert (frames_own f2 = frames_own f) as Ho by (rewrite Ef; apply with_cmds_own).
  clearbody f2. split; [|split; [done|split; [done|]]].
  - apply (vinv_frames _ b c' (set_in_frame true f2) _ t (mkGhost (<[frameIndex f := Unsignaled]> (g_fences sts1)) (g_submitted sts1)));
      try done.
    + destruct Hc. by constructor.
    + apply (frames_ok_open f); try done. by rewrite Ef.
    + apply (DI_frame_fence f (set_in_frame true f2)); done.
  - split; [done|]. unfold frame_recording, frame_cmds. cbn [frames set_in_frame frameIndex chain].
    assert (frame_at (frameIndex f2) (set_in_frame true f2) =
      set_cmds (frame_at (frameIndex f) f) [CmdBarrier (chain_image c') L_UNDEFINED L_TRANSFER_DST] true) as ->; [|done].
    rewrite Ef. by apply frame_at_set.
Qed.

Lemma clearCurrentFrame_ok s color :
  vinv s -> (inFrame (frames s) = true -> frame_recording s = true) ->
  wp (clearCurrentFrame color) (fun _ s' => vinv s' /\ frames_only s s' /\ drv s' = drv s /\ chain s' = chain s /\
       inFrame (frames s') = inFrame (frames s) /\ frame_recording s' = frame_recording s /\
       frame_cmds s' = frame_cmds s ++ (if inFrame (frames s) then [CmdClear (chain_image (chain s)) color] else [])) s.
Proof.
  intros Hs Hrec. open_state s Hs. unfold clearCurrentFrame. repeat v_step. cbn [frames chain] in *.
  destruct (inFrame f) eqn:Ein; cbn [negb]; [|v_step; split; [by eapply vinv_same|by rewrite app_nil_r]].
  specialize (Hrec eq_refl). unfold frame_recording in Hrec. cbn [frames] in Hrec.
  v_step. v_step. apply wp_record_cmd; [done|]. intros g ->. cbn [drv base chain frames tabs].
  pose proof (fo_index _ _ Hf) as Hi. split; [|split; [done|split; [done|split; [done|split; [done|]]]]].
  - eapply (vinv_frames _ _ _ f _ _ sts); try done; [|apply with_cmds_own|apply with_cmds_handles].
    eapply frames_ok_same; [exact Hf|apply with_cmds_handles|done|done].
  - unfold frame_recording, frame_cmds. cbn [frames with_frame frameIndex]. rewrite frame_at_set by done. by rewrite Hrec.
Qed.

(** What presenting does: the commands of the frame, closed by the last barrier,
    are submitted and the frame is over; or the submission fails and the frame
    stays open but can no longer be recorded. *)
Lemma presentFrame_ok w s :
  vinv s -> (inFrame (frames s) = true -> frame_recording s = true) ->
  wp (presentFrame w) (fun r s' => vinv s' /\ frames_only s s' /\ chain s' = chain s /\
       if inFrame (frames s) then
         let cmds := frame_cmds s ++ [CmdBarrier (chain_image (chain s)) L_TRANSFER_DST L_PRESENT_SRC] in
         (inFrame (frames s') = false /\ d_submitted (drv s') = d_submitted (drv s) ++ [cmds]) \/
         (r = false /\ inFrame (frames s') = true /\ frame_recording s' = false /\ d_submitted (drv s') = d_submitted (drv s))
       else r = false /\ s' = s) s.
Proof.
  intros Hs Hrec. pose proof Hs as Hs0. open_state s Hs. unfold presentFrame. repeat v_step. cbn [frames chain drv] in *.
  destruct (inFrame f) eqn:Ein; cbn [negb]; [|by v_step].
  specialize (Hrec eq_refl). unfold frame_recording in Hrec. cbn [frames] in Hrec. pose proof (fo_index _ _ Hf) as Hi.
  repeat v_step. apply wp_record_cmd; [done|]. intros f1 ->. repeat v_step. cbv zeta. cbn [with_frame frameIndex].
  set (i := frameIndex f) in *.
  set (cmds := cmdBuffer (frame_at i f) ++ [CmdBarrier (chain_image c) L_TRANSFER_DST L_PRESENT_SRC]).
  set (f1 := with_frame i (set_cmds (frame_at i f) cmds true) f).
  assert (frame_at i f1 = set_cmds (frame_at i f) cmds true) as Hat by by apply frame_at_set.
  rewrite !Hat. cbn [set_cmds cmdPool inFlight imageAvailable renderFinished cmdBuffer].
  set (f2 := with_frame i _ f1).
  assert (f2 = with_frame i (set_cmds (frame_at i f) cmds false) f) as Ef.
  { unfold f2, f1, with_frame. cbn [perFrame frameIndex inFrame framebufferResized]. by rewrite list_insert_insert_eq. }
  assert (inFlight <$> perFrame f2 = inFlight <$> perFrame f) as Hh by (rewrite Ef; apply with_cmds_handles).
  assert (frames_own f2 = frames_own f) as Ho by (rewrite Ef; apply with_cmds_own).
  assert (frameIndex f2 = i /\ inFrame f2 = true /\ frame_at i f2 = set_cmds (frame_at i f) cmds false) as (Hi2 & Hb2 & Hat2)
    by (rewrite Ef; split_and!; [done|done|by apply frame_at_set]).
  assert (length (perFrame f2) = length (perFrame f)) as Hlen by (rewrite <- (length_fmap inFlight), Hh; apply length_fmap).
  clearbody f2. clear f1 Hat Ef. repeat v_step. apply (wp_answer w _ _ _ _ _ _ _ _ _ HD). intros r1 d1 HD1.
  assert (d_submitted d1 = d_submitted d) as Hs1 by (by rewrite (DI_submitted _ _ _ HD1), (DI_submitted _ _ _ HD)).
  destruct (decide (r1 <> VK_SUCCESS)).
  { v_step. split; [|split; [done|split; [done|]]].
    - eapply (vinv_frames _ _ _ f _ _ sts); try done. by eapply frames_ok_same; [exact Hf|..]; rewrite ?Hb2, ?Ein.
    - right. split_and!; try done. unfold frame_recording. cbn [frames]. by rewrite Hi2, Hat2. }
  repeat v_step. set (d2 := d_set_fence _ _ _).
  set (sts' := mkGhost (<[i := InFlight]> (g_fences sts)) (g_submitted sts ++ [cmds])).
  assert (DI (owned b c f2 t) (known sts' f2 t) d2) as HD2.
  { apply (DI_frame_fence f f2 (mkGhost (g_fences sts) (g_submitted sts ++ [cmds]))); [by destruct Hf| |done|done|done].
    apply (DI_submit _ (known sts f t)). exact HD1. }
  apply (wp_answer w _ _ _ _ _ _ _ _ _ HD2). intros r2 d3 HD3.
  assert (d_submitted d3 = d_submitted d ++ [cmds]) as Hs3 by (by rewrite (DI_submitted _ _ _ HD3), (DI_submitted _ _ _ HD)).
  assert (forall g, perFrame g = perFrame f2 -> (frameIndex g < length (perFrame f))%nat -> inFrame g = false -> vinv (mkVk false d3 b c g t)) as Hend.
  { intros g Eg Hig Hbg. apply (vinv_frames _ b c f2 g t sts'); try done; [|unfold frames_own; by rewrite Eg|by rewrite Eg].
    apply (frames_ok_closed f g); try done. by rewrite Eg. }
  destruct (_ || _ || _); [|destruct (decide (r2 <> VK_SUCCESS))]; repeat v_step; (split; [apply Hend|split; [done|split; [done|by left]]]); cbn; try done;
    rewrite ?Hi2; try done.
  rewrite (fo_two _ _ Hf). assert (forall n, n mod kMaxFramesInFlight < kMaxFramesInFlight)%nat as Hmod by (intros ?; by apply Nat.mod_upper_bound).
  apply (Hmod (i + 1)%nat).
Qed.

(** *** Initialisation and shutdown *)
Lemma DI_learn_fence L K h st d : DI L K d -> (h, CFence) ∈ L -> d_fences d !! h = Some st ->
  DI L (mkKnown ((h, st) :: k_fences K) (k_sizes K) (k_submitted K)) d.
Proof.
  intros [Hl Hr Hn Hfe [A1 A2] (B1 & B2 & B3)] Hin Hst. constructor; try done; [split|split_and!]; cbn [k_fences k_sizes k_submitted]; try done.
  - intros x y [[= -> ->]|Hx]%elem_of_cons; eauto.
  - intros x y [[= -> ->]|Hx]%elem_of_cons; eauto.
Qed.

Lemma wp_create_default w o L K (Q : option Z -> Vk -> Prop) l d b c f t :
  DI L K d -> (forall r d', DI (own (class o) (default 0 r) ++ L) K d' -> Q r (mkVk l d' b c f t)) ->
  wp (create w o) Q (mkVk l d b c f t).
Proof.
  intros HD HQ. apply (wp_create w _ _ _ _ _ _ _ _ _ _ HD); [intros d' HD'; by apply HQ|].
  intros d' h Hh HD' _ _. apply HQ. cbn. unfold id. by rewrite own_pos.
Qed.

Definition frame_fences (p : PerFrame) : list (Z * FenceState) := if inFlight p =? 0 then [] else [(inFlight p, Signaled)].

Lemma wp_init_frame w family i L K (Q : bool -> Vk -> Prop) l d b c f t :
  DI L K d -> perFrame f !! i = Some no_frame ->
  (forall d', Q false (mkVk l d' b c f t)) ->
  (forall d' p, cmdPool p <> 0 -> DI (own_frame p ++ L) (mkKnown (frame_fences p ++ k_fences K) (k_sizes K) (k_submitted K)) d' ->
     Q true (mkVk l d' b c (with_frame i p f) t)) ->
  wp (init_frame w family i) Q (mkVk l d b c f t).
Proof.
  intros HD Hp Hfail HQ. unfold init_frame. v_step. apply (wp_create w _ _ _ _ _ _ _ _ _ _ HD).
  { intros d1 _. repeat v_step. apply Hfail. }
  clear d HD. intros d pool Hpool HD _ _. repeat v_step. cbv zeta.
  assert (frame_at i f = no_frame) as -> by (unfold frame_at; by rewrite Hp). cbn [no_frame inFlight imageAvailable renderFinished cmdBuffer recording].
  repeat v_step.
  assert (forall d1 fe K1, DI (own CFence fe ++ (pool, CCommandPool) :: L) K1 d1 ->
     K1 = mkKnown (frame_fences (mkPerFrame pool fe 0 0 [] false) ++ k_fences K) (k_sizes K) (k_submitted K) ->
     forall f1, wp (_ ← set_frames (with_frame i (mkPerFrame pool fe 0 0 [] false) f); avail ← create w OSemaphore;
         _ ← set_frames (with_frame i (mkPerFrame pool fe (default 0 avail) 0 [] false) f); fin ← create w OSemaphore;
         _ ← set_frames (with_frame i (mkPerFrame pool fe (default 0 avail) (default 0 fin) [] false) f); mret true) Q
       (mkVk l d1 b c f1 t)) as Hrest.
  { intros d1 fe K1 HD1 -> f1. repeat v_step. apply (wp_create_default _ _ _ _ _ _ _ _ _ _ _ HD1). clear HD1. intros av d2 HD2.
    repeat v_step. apply (wp_create_default _ _ _ _ _ _ _ _ _ _ _ HD2). clear HD2. intros fi d3 HD3.
    repeat v_step. apply HQ; [cbn; lia|]. eapply DI_perm; [|exact HD3]. unfold own_frame. cbn [inFlight imageAvailable renderFinished cmdPool].
    rewrite (own_pos CCommandPool pool) by done. rewrite <- !app_assoc. cbn [app class].
    rewrite (Permutation_app_swap_app (own CSemaphore (default 0 fi))). rewrite (Permutation_app_swap_app (own CSemaphore (default 0 fi)) (own CFence fe)).
    by rewrite (Permutation_app_swap_app (own CSemaphore (default 0 av)) (own CFence fe)). }
  apply (wp_create_fence w true _ _ _ _ _ _ _ _ _ HD).
  - intros d1 HD1. apply (Hrest d1 0 K); [done|by destruct K].
  - intros d1 fe Hfe HD1 Hst. apply (Hrest d1 fe (mkKnown ((fe, Signaled) :: k_fences K) (k_sizes K) (k_submitted K))).
    + rewrite own_pos by done. apply DI_learn_fence; [done|by left|done].
    + unfold frame_fences. cbn [inFlight]. by rewrite (proj2 (Z.eqb_neq fe 0)) by lia.
Qed.

Lemma DI_initial : DI [] (mkKnown [] [] []) (drv initial).
Proof.
  constructor; try done.
  - intros h [x Hx]. cbn in Hx. by rewrite lookup_empty in Hx.
  - by intros h ?%elem_of_nil.
  - split; by intros h x ?%elem_of_nil.
  - split_and!; [by intros h x ?%elem_of_nil..|done].
Qed.

Lemma owned_empty b f : owned b (chain initial) f (tabs initial) = frames_own f ++ base_own b.
Proof. reflexivity. Qed.

(** The fences of both frames were created. *)
Definition has_fences (s : Vk) : Prop := forall p, p ∈ perFrame (frames s) -> inFlight p <> 0.

Lemma initialize_ok w :
  wp (initialize w) (fun r s => r = true -> has_fences s -> vinv s /\ swapchain (chain s) = 0 /\ inFrame (frames s) = false) initial.
Proof.
  unfold initialize, initial. v_step. repeat v_step. cbv zeta. cbn [base hasValidation instance surface device graphicsFamily presentFamily transferPool].
  apply (wp_create w _ _ _ _ _ _ _ _ _ _ DI_initial); [intros; by repeat v_step|].
  intros d1 inst Hinst HD1 _ _. destruct (negb (w_surface w)).
  { v_step. apply (wp_destroy _ _ _ _ _ _ _ _ _ _ _ HD1); [split; by intros h x ?%elem_of_nil|]. intros; by repeat v_step. }
  repeat v_step. pose proof (di_next _ _ _ HD1) as Hsurf. pose proof (DI_add _ _ OSurface _ HD1) as HD2. set (surf := d_next d1) in *.
  clear HD1. destruct (choose_device _) as [[g p]|]; [|by v_step]. repeat v_step.
  apply (wp_create w _ _ _ _ _ _ _ _ _ _ HD2); [intros; by repeat v_step|]. clear HD2. intros d2 dev Hdev HD2 _ _. repeat v_step.
  cbn [kMaxFramesInFlight seq init_frames replicate]. repeat v_step.
  apply (wp_init_frame _ _ _ _ _ _ _ _ _ _ _ _ HD2); [done|intros; by repeat v_step|]. clear HD2. intros d3 p0 Hp0 HD3. cbn [negb]. repeat v_step.
  apply (wp_init_frame _ _ _ _ _ _ _ _ _ _ _ _ HD3); [done|intros; by repeat v_step|]. clear HD3. intros d4 p1 Hp1 HD4. cbn [negb]. repeat v_step. cbn [negb]. repeat v_step.
  apply (wp_create w _ _ _ _ _ _ _ _ _ _ HD4); [intros; by repeat v_step|]. clear HD4. intros d5 pool Hpool HD5 _ _. repeat v_step.
  cbn [drv base chain frames tabs]. set (f := with_frame 1 p1 _). intros _ Hfe. split; [|done].
  assert (inFlight p0 <> 0 /\ inFlight p1 <> 0) as [H0 H1] by (split; apply Hfe; [by left|by right; left]).
  constructor; cbn [locked base chain tabs frames drv device]; [done|lia| | |].
  - constructor; done.
  - constructor; cbn; try lia; try (intros ? ? Hx; by rewrite lookup_empty in Hx). by intros ? ?%elem_of_nil.
  - exists (mkGhost [Signaled; Signaled] []).
    assert (known (mkGhost [Signaled; Signaled] []) f (tabs initial) = mkKnown [(inFlight p0, Signaled); (inFlight p1, Signaled)] [] []) as Hk by reflexivity.
    assert (DI (owned (mkBase (w_validation w) inst surf dev g p pool) (chain initial) f (tabs initial)) (known (mkGhost [Signaled; Signaled] []) f (tabs initial)) d5) as HD.
    { rewrite owned_empty, Hk. eapply DI_forget; [..|eapply DI_perm; [|exact HD5]]; cbn [k_fences k_sizes k_submitted].
      - unfold frame_fences. rewrite (proj2 (Z.eqb_neq _ _) H0), (proj2 (Z.eqb_neq _ _) H1). cbn. set_solver.
      - done.
      - done.
      - unfold frames_own, base_own. cbn. rewrite app_nil_r, !own_pos by done. cbn.
        rewrite <- !app_assoc. rewrite (Permutation_app_swap_app (own_frame p1) (own_frame p0)). rewrite !Permutation_middle. done. }
    split; [|exact HD]. constructor; cbn [g_fences]; try done.
    + cbn. pose proof (DI_NoDup _ _ _ HD) as Hnd. rewrite owned_empty in Hnd. unfold frames_own in Hnd. cbn in Hnd.
      unfold own_frame at 1 2 in Hnd. unfold own at 1 5 in Hnd. rewrite (proj2 (Z.eqb_neq _ _) H0), (proj2 (Z.eqb_neq _ _) H1) in Hnd.
      cbn in Hnd. apply NoDup_cons in Hnd as [Hnd _]. constructor; [|apply NoDup_singleton].
      intros Hin%list_elem_of_singleton. apply Hnd. rewrite Hin. rewrite !fmap_app, !elem_of_app. cbn. set_solver.
    + cbn. lia.
    + intros i st Hst. split; [|by intros [_ ?]]. intros ->. by destruct i as [|[|?]].
Qed.

(** *** Shutdown *)
Lemma DI_idle L sub d : DI L (mkKnown [] [] sub) d -> DI L (mkKnown [] [] sub) (d_idle d).
Proof.
  intros [Hl Hr Hn Hfe HK (B1 & B2 & B3)]. constructor; try done.
  - intros h Hh. cbn [d_idle d_fences]. rewrite lookup_fmap. destruct (Hfe h Hh) as [x ->]. by eexists.
  - split_and!; [by intros h x ?%elem_of_nil..|done].
Qed.
Lemma known_in_nil sub L : known_in (mkKnown [] [] sub) L.
Proof. split; by intros h x ?%elem_of_nil. Qed.

(** Forgetting what is known, before everything is destroyed. *)
Lemma DI_forget_all L K d : DI L K d -> DI L (mkKnown [] [] (k_submitted K)) d.
Proof. intros HD. eapply DI_forget; [..|exact HD]; by try apply list_subseteq_nil. Qed.

Lemma wp_for_each_own {A} (g : A -> owned_objects) (body : A -> V ()) sub L l Q lk d b c f t :
  (forall x L' d' Q', DI (g x ++ L') (mkKnown [] [] sub) d' ->
     (forall d'', DI L' (mkKnown [] [] sub) d'' -> Q' tt (mkVk lk d'' b c f t)) -> wp (body x) Q' (mkVk lk d' b c f t)) ->
  DI (concat (g <$> l) ++ L) (mkKnown [] [] sub) d -> (forall d', DI L (mkKnown [] [] sub) d' -> Q tt (mkVk lk d' b c f t)) ->
  wp (for_each l body) Q (mkVk lk d b c f t).
Proof. intros Hb HD HQ. eapply (wp_for_each g body); [apply known_in_nil| |exact HD|exact HQ]. intros; by eapply Hb. Qed.

(** [destroy] on what the element owns, then the next. *)
Lemma wp_destroy_seq cl h L sub (m : V ()) (Q : () -> Vk -> Prop) lk d b c f t :
  DI (own cl h ++ L) (mkKnown [] [] sub) d ->
  (forall d', DI L (mkKnown [] [] sub) d' -> wp m Q (mkVk lk d' b c f t)) ->
  wp (_ ← destroy cl h; m) Q (mkVk lk d b c f t).
Proof.
  intros HD HQ. v_step. apply (wp_destroy_own _ _ _ _ _ _ _ _ _ _ _ HD); [apply known_in_nil|]. intros d' HD'. by apply HQ.
Qed.

Lemma wp_destroy_tables t L sub (Q : () -> Vk -> Prop) lk d b c f t0 :
  DI (tabs_own [] t ++ L) (mkKnown [] [] sub) d -> (forall d', DI L (mkKnown [] [] sub) d' -> Q tt (mkVk lk d' b c f t0)) ->
  wp (destroy_tables t) Q (mkVk lk d b c f t0).
Proof.
  intros HD HQ. unfold destroy_tables, tabs_own, flat in *. rewrite <- !app_assoc in HD.
  assert (forall (A : Type) (g : A -> owned_objects) (body : A -> V ()) (m : V ()) l L' d' (Q' : () -> Vk -> Prop),
    (forall x L' d' Q', DI (g x ++ L') (mkKnown [] [] sub) d' ->
       (forall d'', DI L' (mkKnown [] [] sub) d'' -> Q' tt (mkVk lk d'' b c f t0)) -> wp (body x) Q' (mkVk lk d' b c f t0)) ->
    DI (concat (g <$> l) ++ L') (mkKnown [] [] sub) d' ->
    (forall d'', DI L' (mkKnown [] [] sub) d'' -> wp m Q' (mkVk lk d'' b c f t0)) ->
    wp (_ ← for_each l body; m) Q' (mkVk lk d' b c f t0)) as Hloop.
  { intros A g body m l L' d' Q' Hb HD' HQ'. v_step. by eapply wp_for_each_own. }
  assert (forall cl h L' d' (Q' : () -> Vk -> Prop), DI ((h, cl) :: L') (mkKnown [] [] sub) d' ->
    (forall d'', DI L' (mkKnown [] [] sub) d'' -> Q' tt (mkVk lk d'' b c f t0)) -> wp (destroy cl h) Q' (mkVk lk d' b c f t0)) as Hone.
  { intros cl h L' d' Q' HD' HQ'. apply (wp_destroy _ _ _ _ _ _ _ _ _ _ _ HD'); [apply known_in_nil|done]. }
  assert (forall c1 h1 c2 h2 L' d' (Q' : () -> Vk -> Prop), DI ((h1, c1) :: (h2, c2) :: L') (mkKnown [] [] sub) d' ->
    (forall d'', DI L' (mkKnown [] [] sub) d'' -> Q' tt (mkVk lk d'' b c f t0)) ->
    wp (_ ← destroy c1 h1; destroy c2 h2) Q' (mkVk lk d' b c f t0)) as Htwo.
  { intros c1 h1 c2 h2 L' d' Q' HD' HQ'. v_step. apply (Hone _ _ _ _ _ HD'). intros d'' HD''. by apply (Hone _ _ _ _ _ HD''). }
  eapply (Hloop _ own_buffer); [intros x L' d' Q' HD'; apply (Htwo _ _ _ _ _ _ _ HD')|exact HD|]. clear d HD. intros d HD.
  eapply (Hloop _ own_image); [intros x L' d' Q' HD'; apply (Htwo _ _ _ _ _ _ _ HD')|exact HD|]. clear d HD. intros d HD.
  eapply (Hloop _ (own_view [])); [intros x L' d' Q' HD'; rewrite own_view_nil in HD'; apply (Hone _ _ _ _ _ HD')|exact HD|]. clear d HD. intros d HD.
  eapply (Hloop _ (own_of CSampler)); [intros x L' d' Q' HD'; apply (Hone _ _ _ _ _ HD')|exact HD|]. clear d HD. intros d HD.
  eapply (Hloop _ own_shader); [intros x L' d' Q' HD'; apply (Hone _ _ _ _ _ HD')|exact HD|]. clear d HD. intros d HD.
  eapply (Hloop _ (own_of CPipeline)); [intros x L' d' Q' HD'; apply (Hone _ _ _ _ _ HD')|exact HD|]. clear d HD. intros d HD.
  eapply (Hloop _ (own_of CFence)); [intros x L' d' Q' HD'; apply (Hone _ _ _ _ _ HD')|exact HD|]. clear d HD. intros d HD.
  eapply (wp_for_each_own (own_of CSemaphore)); [intros x L' d' Q' HD'; apply (Hone _ _ _ _ _ HD')|exact HD|done].
Qed.

Lemma DI_nothing K d : DI [] K d -> d_live d = ∅.
Proof.
  intros HD. pose proof (di_live _ _ _ HD) as Hl. apply Permutation_nil_r in Hl. unfold live_list in Hl.
  apply fmap_nil_inv in Hl. by apply map_to_list_empty_iff.
Qed.

Lemma shutdown_ok s : vinv s -> swapchain (chain s) = 0 ->
  wp shutdown (fun _ s' => d_live (drv s') = ∅ /\ tabs s' = no_tables (tabs s) /\ locked s' = false) s.
Proof.
  intros Hs Hsc. open_state s Hs. unfold shutdown. repeat v_step. rewrite (proj2 (Z.eqb_neq _ _) Hb).
  destruct (co_none _ Hc Hsc) as [Hv Hh].
  assert (owned b c f t = tabs_own [] t ++ frames_own f ++ base_own b) as Eo.
  { unfold owned, chain_own. by rewrite Hv, Hh, Hsc. }
  rewrite Eo in HD. apply DI_forget_all, DI_idle in HD. set (sub := k_submitted _) in *. unfold wait_idle. repeat v_step.
  unfold destroySwapchain. repeat v_step. rewrite Hsc. cbn [Z.eqb]. repeat v_step.
  eapply wp_destroy_tables; [exact HD|]. clear HD. intros d1 HD. repeat v_step.
  eapply (wp_for_each_own own_frame); [|exact HD|].
  { intros p L' d' Q' HD' HQ'. unfold destroy_frame, own_frame in *. rewrite <- !app_assoc in HD'.
    eapply wp_destroy_seq; [exact HD'|]. clear HD'. intros d2 HD2. eapply wp_destroy_seq; [exact HD2|]. clear HD2. intros d3 HD3.
    eapply wp_destroy_seq; [exact HD3|]. clear HD3. intros d4 HD4.
    apply (wp_destroy_own _ _ _ _ _ _ _ _ _ _ _ HD4); [apply known_in_nil|done]. }
  clear HD. intros d2 HD. unfold base_own in HD.
  eapply wp_destroy_seq; [exact HD|]. clear HD. intros d3 HD. eapply wp_destroy_seq; [exact HD|]. clear HD. intros d4 HD.
  v_step. assert (forall cl h L lk d b c f t (Q : () -> Vk -> Prop), DI (own cl h ++ L) (mkKnown [] [] sub) d ->
    (forall d', DI L (mkKnown [] [] sub) d' -> Q tt (mkVk lk d' b c f t)) ->
    wp (if h =? 0 then mret tt else destroy cl h) Q (mkVk lk d b c f t)) as Hopt.
  { intros cl h L lk d' b' c' f' t' Q HD' HQ. destruct (h =? 0) eqn:E; [unfold own in HD'; rewrite E in HD'; by apply HQ|].
    apply (wp_destroy_own _ _ _ _ _ _ _ _ _ _ _ HD'); [apply known_in_nil|done]. }
  eapply Hopt; [exact HD|]. clear HD. intros d5 HD. v_step. eapply Hopt; [rewrite app_nil_r; exact HD|]. clear HD. intros d6 HD.
  repeat v_step. split; [by eapply DI_nothing|done].
Qed.

(** *** Calls that do not return *)
Definition wpf {A} (m : V A) (F : Fault -> Prop) (s : Vk) : Prop := match m s with Done _ _ => False | Stopped e => F e end.
Lemma wpf_bind {A B} (m : V A) (g : A -> V B) F s : wp m (fun a s' => wpf (g a) F s') s -> wpf (m ≫= g) F s.
Proof. unfold wp, wpf, mbind, V_bind. by destruct (m s). Qed.
Lemma wpf_here {A B} (m : V A) (g : A -> V B) F s : wpf m F s -> wpf (m ≫= g) F s.
Proof. unfold wpf, mbind, V_bind. by destruct (m s). Qed.
Lemma wpf_lock {A} (m : V A) F d b c f t : wpf m F (mkVk true d b c f t) -> wpf (with_lock m) F (mkVk false d b c f t).
Proof. unfold wpf, with_lock. cbn [locked drv base chain frames tabs]. by destruct (m _). Qed.
Lemma wpf_done {A} (m : V A) (F : Fault -> Prop) s e : (forall x, F x -> x = e) -> wpf m F s -> m s = Stopped e.
Proof. intros HF H. unfold wpf in H. destruct (m s); [done|]. f_equal. by apply HF. Qed.

(** Destroying the swapchain when it is there. *)
Lemma wp_destroySwapchain L sub (Q : () -> Vk -> Prop) lk d b c f t :
  swapchain c <> 0 -> DI (chain_own c ++ L) (mkKnown [] [] sub) d ->
  (forall d', DI L (mkKnown [] [] sub) d' -> Q tt (mkVk lk d' b (mkChain 0 [] [] [] (swapFormat c) (swapExtent c) (swapIndex c)) f t)) ->
  wp destroySwapchain Q (mkVk lk d b c f t).
Proof.
  intros Hsc HD HQ. unfold destroySwapchain. repeat v_step. rewrite (proj2 (Z.eqb_neq _ _) Hsc).
  apply DI_idle in HD. unfold wait_idle, chain_own in *. rewrite <- app_assoc in HD. repeat v_step.
  eapply (wp_for_each_own (own CImageView)); [|exact HD|].
  { intros v L' d' Q' HD' HQ'. apply (wp_destroy_own _ _ _ _ _ _ _ _ _ _ _ HD'); [apply known_in_nil|done]. }
  clear HD. intros d1 HD. v_step. apply (wp_destroy_own _ _ _ _ _ _ _ _ _ _ _ HD); [apply known_in_nil|].
  intros d2 HD2. v_step. by apply HQ.
Qed.

(** A second destruction of an object the driver no longer has. *)
Lemma destroy_gone cl h L K (F : Fault -> Prop) lk d b c f t :
  DI L K d -> h <> 0 -> (h, cl) ∉ L -> F (InvalidObject h cl) -> wpf (destroy cl h) F (mkVk lk d b c f t).
Proof.
  intros HD Hh Hni HF. unfold destroy. rewrite (proj2 (Z.eqb_neq _ _) Hh). apply wpf_bind, wp_read. cbn [drv].
  destruct (d_live d !! h) as [o|] eqn:E; [|done]. rewrite decide_False; [done|]. intros Hc. apply Hni.
  rewrite <- (di_live _ _ _ HD). apply elem_live_list. by exists o.
Qed.

Definition stale_view (e : Fault) : Prop := exists h, e = InvalidObject h CImageView.

(** The loop over the table of views, with views of the swapchain in it. *)
Lemma views_loop_stops sw L sub lk b c f t (l : list (Z * Z)) : forall d,
  DI (concat (own_view sw <$> l) ++ L) (mkKnown [] [] sub) d ->
  (forall h v, (h, v) ∈ l -> h ∈ sw -> (v, CImageView) ∉ concat (own_view sw <$> l) ++ L) ->
  (exists h v, (h, v) ∈ l /\ h ∈ sw /\ v <> 0) ->
  wpf (for_each l (fun x => destroy CImageView x.2)) stale_view (mkVk lk d b c f t).
Proof.
  induction l as [|[h v] l IH]; intros d HD Hst (h0 & v0 & Hin & Hsw & Hv); [by apply elem_of_nil in Hin|].
  cbn [for_each fmap list_fmap concat] in *. rewrite <- app_assoc in HD. destruct (decide (h ∈ sw)) as [Hh|Hh].
  - assert (own_view sw (h, v) = []) as Eo by (unfold own_view; by rewrite decide_True). rewrite Eo in *. cbn [app] in *.
    destruct (decide (v = 0)) as [->|Hv0].
    + apply wpf_bind. cbn. apply IH; [done| |].
      * intros h1 v1 H1 H2. apply (Hst h1 v1); [by right|done].
      * exists h0, v0. apply elem_of_cons in Hin as [[= -> ->]|Hin]; done.
    + apply wpf_here. eapply destroy_gone; [exact HD|done|apply (Hst h v); [by left|done]|]. by exists v.
  - assert (own_view sw (h, v) = [(v, CImageView)]) as Eo by (unfold own_view; by rewrite decide_False). rewrite Eo in *. cbn [app] in *.
    apply wpf_bind. apply (wp_destroy _ _ _ _ _ _ _ _ _ _ _ HD); [apply known_in_nil|]. intros d1 HD1. apply IH; [done| |].
    + intros h1 v1 H1 H2 H3. apply (Hst h1 v1); [by right|done|by right].
    + exists h0, v0. apply elem_of_cons in Hin as [[= -> ->]|Hin]; done.
Qed.

(** A live swapchain has views in the table. *)
Lemma linked_stale sw vs t h v : linked sw vs t -> (h, v) ∈ map_to_list (views t) -> h ∈ sw -> v ∈ vs.
Proof.
  intros Hlk Hin Hsw. apply elem_of_map_to_list in Hin. unfold linked in Hlk. apply list_elem_of_lookup in Hsw as [i Hi].
  destruct (Forall2_lookup_l _ _ _ _ _ Hlk Hi) as (v' & Hv' & E). assert (v' = v) as -> by congruence. by eapply list_elem_of_lookup_2.
Qed.

Lemma linked_view sw vs t v : linked sw vs t -> v ∈ vs -> exists h, h ∈ sw /\ (h, v) ∈ map_to_list (views t).
Proof.
  intros Hlk Hv. unfold linked in Hlk. apply list_elem_of_lookup in Hv as [i Hi].
  destruct (Forall2_lookup_r _ _ _ _ _ Hlk Hi) as (h & Hh & E). exists h. split; [by eapply list_elem_of_lookup_2|].
  by apply elem_of_map_to_list.
Qed.

Lemma shutdown_stops s v :
  vinv s -> linked (swapViewHandles (chain s)) (swapViews (chain s)) (tabs s) -> swapchain (chain s) <> 0 ->
  v ∈ swapViews (chain s) -> v <> 0 -> exists h, shutdown s = Stopped (InvalidObject h CImageView).
Proof.
  intros Hs Hlk Hsc Hv Hv0. open_state s Hs. cbn [chain tabs] in *.
  assert (wpf shutdown stale_view (mkVk false d b c f t)) as H.
  { unfold shutdown. apply wpf_lock. apply wpf_bind, wp_read. cbn [base]. rewrite (proj2 (Z.eqb_neq _ _) Hb).
    apply DI_forget_all, DI_idle in HD. set (sub := k_submitted _) in *. apply wpf_bind. unfold wait_idle. v_step.
    apply wpf_bind. unfold owned in HD. pose proof (DI_NoDup _ _ _ HD) as Hnd.
    eapply wp_destroySwapchain; [done|exact HD|]. clear d HD. intros d HD. apply wpf_bind, wp_read. cbn [tabs]. apply wpf_here.
    unfold destroy_tables.
    assert (forall (A : Type) (g : A -> owned_objects) (body : A -> V ()) (m : V ()) l L' c' d',
      (forall x L' d' Q', DI (g x ++ L') (mkKnown [] [] sub) d' ->
         (forall d'', DI L' (mkKnown [] [] sub) d'' -> Q' tt (mkVk true d'' b c' f t)) -> wp (body x) Q' (mkVk true d' b c' f t)) ->
      DI (concat (g <$> l) ++ L') (mkKnown [] [] sub) d' ->
      (forall d'', DI L' (mkKnown [] [] sub) d'' -> wpf m stale_view (mkVk true d'' b c' f t)) ->
      wpf (_ ← for_each l body; m) stale_view (mkVk true d' b c' f t)) as Hloop.
    { intros A g body m l L' c' d' Hb' HD' HQ'. apply wpf_bind. by eapply wp_for_each_own. }
    assert (forall c1 h1 c2 h2 L' lk d' c' (Q' : () -> Vk -> Prop), DI ((h1, c1) :: (h2, c2) :: L') (mkKnown [] [] sub) d' ->
      (forall d'', DI L' (mkKnown [] [] sub) d'' -> Q' tt (mkVk lk d'' b c' f t)) ->
      wp (_ ← destroy c1 h1; destroy c2 h2) Q' (mkVk lk d' b c' f t)) as Htwo.
    { intros c1 h1 c2 h2 L' lk d' c' Q' HD' HQ'. v_step. apply (wp_destroy _ _ _ _ _ _ _ _ _ _ _ HD'); [apply known_in_nil|].
      intros d'' HD''. apply (wp_destroy _ _ _ _ _ _ _ _ _ _ _ HD''); [apply known_in_nil|done]. }
    unfold tabs_own, flat in HD, Hnd. rewrite <- !app_assoc in HD.
    eapply (Hloop _ own_buffer); [intros x L' d' Q' HD'; apply (Htwo _ _ _ _ _ _ _ _ _ HD')|exact HD|]. clear d HD. intros d HD.
    eapply (Hloop _ own_image); [intros x L' d' Q' HD'; apply (Htwo _ _ _ _ _ _ _ _ _ HD')|exact HD|]. clear d HD. intros d HD.
    apply wpf_here. eapply views_loop_stops; [exact HD| |].
    - intros h x Hin Hsw Hx. pose proof (linked_stale _ _ _ _ _ Hlk Hin Hsw) as Hxv.
      assert (0 < x) as Hx0.
      { eapply (DI_range x CImageView); [exact HD|exact Hx]. }
      rewrite !fmap_app in Hnd. apply NoDup_app in Hnd as (_ & Hdis & _).
      apply (Hdis x).
      + apply list_elem_of_fmap. exists (x, CImageView). split; [done|]. unfold chain_own. apply elem_of_app. left.
        apply list_elem_of_In, in_concat. exists (own CImageView x). split.
        * apply in_map_iff. exists x. split; [done|]. by apply list_elem_of_In.
        * rewrite own_pos by done. by left.
      + rewrite <- !fmap_app. apply list_elem_of_fmap. exists (x, CImageView). split; [done|]. revert Hx. rewrite !elem_of_app. tauto.
    - destruct (linked_view _ _ _ _ Hlk Hv) as (h & Hh & Hin). by exists h, v. }
  unfold wpf in H. destruct (shutdown _); [done|]. destruct H as [h ->]. by exists h.
Qed.

Lemma begin_hangs w s : vinv s -> swapchain (chain s) <> 0 -> inFrame (frames s) = true -> beginFrame w s = Stopped NeverSignaled.
Proof.
  intros Hs Hsc Hin. open_state s Hs. cbn [chain frames] in *. apply (wpf_done _ (eq NeverSignaled)); [done|].
  unfold beginFrame. apply wpf_lock. apply wpf_bind, wp_read. cbn [chain]. rewrite (proj2 (Z.eqb_neq _ _) Hsc).
  apply wpf_bind, wp_read. cbn [frames]. apply wpf_here. unfold wait_forever. apply wpf_bind, wp_read. cbn [drv].
  destruct (frame_fence_known _ _ _ _ _ _ Hf HD) as (st & -> & Hun). by rewrite (proj2 Hun Hin).
Qed.

Lemma recreate_deadlocks w s width height : vinv s -> recreateSwapchain w width height s = Stopped SelfDeadlock.
Proof.
  intros Hs. open_state s Hs. apply (wpf_done _ (eq SelfDeadlock)); [done|]. unfold recreateSwapchain. apply wpf_lock.
  assert (forall d c', wpf (_ ← createSwapchain w (mkSwapchainDesc width height true); mret tt) (eq SelfDeadlock) (mkVk true d b c' f t)) as Hend.
  { intros d' c'. by apply wpf_here. }
  apply wpf_bind. apply DI_forget_all in HD. destruct (decide (swapchain c = 0)) as [E|E].
  - unfold destroySwapchain. repeat v_step. rewrite E. cbn [Z.eqb]. v_step. apply Hend.
  - eapply wp_destroySwapchain; [done|exact HD|]. intros d' _. apply Hend.
Qed.
