(* ===== verification/VulkanSession.v ===== *)
(** * Sessions with the Vulkan back end

    A device that is initialised and then used, in any order and with any answers
    of the driver, as [allowed] says; what holds in every such session, and the
    calls outside it that never return. *)
From S2P Require Import Prelude Gal Vulkan VulkanRules.
Import Gal VulkanDevice.

(** ** Sessions *)
Inductive Op :=
  | OpCreateBuffer (desc : BufferDesc) | OpDestroyBuffer (h : Z)
  | OpUploadBuffer (h offset : Z) (data : bytes)
  | OpCreateImage (desc : ImageDesc) | OpDestroyImage (h : Z)
  | OpCreateImageView (image : Z) | OpDestroyImageView (h : Z)
  | OpCreateSampler (desc : SamplerDesc) | OpDestroySampler (h : Z)
  | OpCreateShader (stage : ShaderStage) (code : bytes) | OpDestroyShader (h : Z)
  | OpCreatePipeline (vs fs : Z) | OpDestroyPipeline (h : Z)
  | OpCreateFence (signaled : bool) | OpDestroyFence (h : Z) | OpWaitFence (h timeout : Z) | OpResetFence (h : Z)
  | OpCreateSemaphore | OpDestroySemaphore (h : Z)
  | OpCreateSwapchain (desc : SwapchainDesc)
  | OpBegin | OpClear (color : ClearColor) | OpPresent.

Definition forget {A} (m : V A) : V () := _ ← m; mret tt.

Definition exec (w : World) (op : Op) : V () :=
  match op with
  | OpCreateBuffer desc => forget (createBuffer w desc)
  | OpDestroyBuffer h => destroyBuffer h
  | OpUploadBuffer h offset data => forget (uploadBuffer w h offset data)
  | OpCreateImage desc => forget (createImage w desc)
  | OpDestroyImage h => destroyImage h
  | OpCreateImageView image => forget (createImageView w image)
  | OpDestroyImageView h => destroyImageView h
  | OpCreateSampler desc => forget (createSampler w desc)
  | OpDestroySampler h => destroySampler h
  | OpCreateShader stage code => forget (createShader w stage code)
  | OpDestroyShader h => destroyShader h
  | OpCreatePipeline vs fs => forget (createGraphicsPipeline w vs fs)
  | OpDestroyPipeline h => destroyPipeline h
  | OpCreateFence signaled => forget (createFence w signaled)
  | OpDestroyFence h => destroyFence h
  | OpWaitFence h timeout => forget (waitFence h timeout)
  | OpResetFence h => resetFence h
  | OpCreateSemaphore => forget (createSemaphore w)
  | OpDestroySemaphore h => destroySemaphore h
  | OpCreateSwapchain desc => forget (createSwapchain w desc)
  | OpBegin => forget (beginFrame w)
  | OpClear color => clearCurrentFrame color
  | OpPresent => forget (presentFrame w)
  end.

(** How the device may be used: one swapchain, whose views are not destroyed by
    their handles; frames begun one at a time, and left alone after a failed
    submission; uploads whose end fits the 64-bit sum; no unbounded wait. *)
Definition allowed (s : Vk) (op : Op) : Prop :=
  match op with
  | OpUploadBuffer _ offset data => 0 <= offset /\ offset + Z.of_nat (length data) < 2 ^ 64
  | OpDestroyImageView h => h ∉ swapViewHandles (chain s)
  | OpWaitFence _ timeout => timeout <> 2 ^ 64 - 1
  | OpCreateSwapchain _ => swapchain (chain s) = 0
  | OpBegin => inFrame (frames s) = false
  | OpClear _ | OpPresent => inFrame (frames s) = true -> frame_recording s = true
  | _ => True
  end.

Definition vstep (w : World) (s s' : Vk) : Prop := exists op, allowed s op /\ exec w op s = Done tt s'.

(** The invariant of a session. *)
Definition sinv (s : Vk) : Prop := vinv s /\ linked (swapViewHandles (chain s)) (swapViews (chain s)) (tabs s).

Lemma linked_mono sw vs t t' :
  (forall h v, h ∈ sw -> views t !! h = Some v -> views t' !! h = Some v) -> linked sw vs t -> linked sw vs t'.
Proof.
  unfold linked. intros H Hl. induction Hl as [|h v sw vs Hh Hl IH]; constructor; [apply H; [by left|done]|].
  apply IH. intros x y Hx. apply H. by right.
Qed.

Lemma grown_sinv {A} (S : Slot A) (HS : slot_ok S) s h s' :
  (forall t x, tabs_ok (swapViewHandles (chain s)) t -> forall k v, views t !! k = Some v ->
     views (bump (sl_put S (<[nextHandle t := x]> (sl_get S t)) t)) !! k = Some v) ->
  sinv s -> grown s S h s' -> sinv s'.
Proof.
  intros Hv [Hi Hl] (Hi' & (_ & Hc & _) & He). split; [done|]. rewrite Hc. eapply linked_mono; [|exact Hl].
  intros k v _ Hk. destruct He as [[_ ->]|(-> & x & ->)]; [done|]. apply Hv; [|done]. apply Hi.
Qed.
Lemma shrunk_sinv {A} (S : Slot A) s h s' :
  (forall t, forall k v, k ∈ swapViewHandles (chain s) -> views t !! k = Some v ->
     views (sl_put S (delete h (sl_get S t)) t) !! k = Some v) ->
  sinv s -> shrunk s S h s' -> sinv s'.
Proof.
  intros Hv [Hi Hl] (Hi' & (_ & Hc & _) & He). split; [done|]. rewrite Hc. eapply linked_mono; [|exact Hl].
  intros k v Hin Hk. rewrite He. destruct (decide _); [done|]. by apply Hv.
Qed.

Lemma wp_forget {A} (m : V A) (Q : () -> Vk -> Prop) s : wp m (fun _ s' => Q tt s') s -> wp (forget m) Q s.
Proof. intros H. unfold forget. apply vwp_bind. eapply vwp_mono; [exact H|]. done. Qed.

Lemma exec_ok w op s : world_ok w -> sinv s -> allowed s op -> wp (exec w op) (fun _ s' => sinv s') s.
Proof.
  intros Hw Hs Ha. pose proof Hs as [Hi Hl].
  assert (forall (A : Type) (m : V A), wp m (fun _ s' => vinv s' /\ tables_only s s' /\ tabs s' = tabs s) s ->
    wp m (fun _ s' => sinv s') s) as Hsame.
  { intros A m H. eapply vwp_mono; [exact H|]. intros a s' (H1 & (_ & Hc & _) & Ht). split; [done|]. by rewrite Hc, Ht. }
  assert (forall (A : Type) (S : Slot A) (m : V Z), slot_ok S -> (forall x t, views (bump (sl_put S x t)) = views t) ->
    wp m (grown s S) s -> wp m (fun _ s' => sinv s') s) as Hgrow.
  { intros A S m HS Hv H. eapply vwp_mono; [exact H|]. intros h s' Hg. eapply (grown_sinv S HS); [|done|exact Hg].
    intros t x _ k v Hk. by rewrite Hv. }
  assert (forall (A : Type) (S : Slot A) h (m : V ()), (forall x t, views (sl_put S x t) = views t) ->
    wp m (fun _ => shrunk s S h) s -> wp m (fun _ s' => sinv s') s) as Hshrink.
  { intros A S h m Hv H. eapply vwp_mono; [exact H|]. intros [] s' Hg. eapply (shrunk_sinv S); [|done|exact Hg].
    intros t k v _ Hk. by rewrite Hv. }
  assert (forall (A : Type) (m : V A) (Q : A -> Vk -> Prop), wp m (fun r s' => vinv s' /\ frames_only s s' /\ Q r s') s ->
    wp m (fun _ s' => sinv s') s) as Hframe.
  { intros A m Q H. eapply vwp_mono; [exact H|]. intros a s' (H1 & (_ & Ht & _ & _ & Hh & Hv) & _). split; [done|]. by rewrite Ht, Hh, Hv. }
  destruct op; cbn [exec allowed] in *; try apply wp_forget.
  - apply (Hgrow _ BufferSlot _ BufferSlot_ok); [done|by apply createBuffer_ok].
  - apply (Hshrink _ BufferSlot h); [done|by apply destroyBuffer_ok].
  - apply Hsame. destruct Ha. by apply uploadBuffer_ok.
  - apply (Hgrow _ ImageSlot _ ImageSlot_ok); [done|by apply createImage_ok].
  - apply (Hshrink _ ImageSlot h); [done|by apply destroyImage_ok].
  - eapply vwp_mono; [by apply createImageView_ok|]. intros h s' Hg. eapply (grown_sinv ViewSlot ViewSlot_ok); [|done|exact Hg].
    intros t x Ht k v Hk. cbn. pose proof (to_views _ _ Ht _ _ Hk). by rewrite lookup_insert_ne by lia.
  - eapply vwp_mono; [by apply destroyImageView_ok|]. intros [] s' Hg. eapply (shrunk_sinv ViewSlot); [|done|exact Hg].
    intros t k v Hk Hv. cbn. rewrite lookup_delete_ne; [done|]. by intros ->.
  - apply (Hgrow _ SamplerSlot _ SamplerSlot_ok); [done|by apply createSampler_ok].
  - apply (Hshrink _ SamplerSlot h); [done|by apply destroySampler_ok].
  - apply (Hgrow _ ShaderSlot _ ShaderSlot_ok); [done|by apply createShader_ok].
  - apply (Hshrink _ ShaderSlot h); [done|by apply destroyShader_ok].
  - apply (Hgrow _ PipelineSlot _ PipelineSlot_ok); [done|by apply createGraphicsPipeline_ok].
  - apply (Hshrink _ PipelineSlot h); [done|by apply destroyPipeline_ok].
  - apply (Hgrow _ FenceSlot _ FenceSlot_ok); [done|by apply createFence_ok].
  - apply (Hshrink _ FenceSlot h); [done|by apply destroyFence_ok].
  - apply Hsame. by apply waitFence_ok.
  - apply Hsame. by apply resetFence_ok.
  - apply (Hgrow _ SemaphoreSlot _ SemaphoreSlot_ok); [done|by apply createSemaphore_ok].
  - apply (Hshrink _ SemaphoreSlot h); [done|by apply destroySemaphore_ok].
  - eapply vwp_mono; [by apply createSwapchain_ok|]. intros r s' (H1 & _ & _ & H2 & _). by split.
  - eapply (Hframe _ _ (fun _ _ => True)). eapply vwp_mono; [by apply beginFrame_ok|]. intros r s' (H1 & H2 & _). done.
  - eapply (Hframe _ _ (fun _ _ => True)). eapply vwp_mono; [by apply clearCurrentFrame_ok|]. intros r s' (H1 & H2 & _). done.
  - eapply (Hframe _ _ (fun _ _ => True)). eapply vwp_mono; [by apply presentFrame_ok|]. intros r s' (H1 & H2 & _). done.
Qed.

Lemma session_sinv w s s' : world_ok w -> rtc (vstep w) s s' -> sinv s -> sinv s'.
Proof.
  intros Hw. induction 1 as [|s s1 s2 (op & Ha & He) _ IH]; [done|]. intros Hs. apply IH.
  pose proof (exec_ok w op s Hw Hs Ha) as H. unfold wp in H. by rewrite He in H.
Qed.

Lemma started_sinv w s : initialize w initial = Done true s -> has_fences s -> sinv s.
Proof.
  intros He Hf. pose proof (initialize_ok w) as H. unfold wp in H. rewrite He in H. destruct (H eq_refl Hf) as (Hi & Hsc & _).
  split; [done|]. destruct (co_none _ (vi_chain _ Hi) Hsc) as [-> ->]. constructor.
Qed.

(** A device that [initialize] left in [s0], answering true, and that was then
    used as [allowed] says.  Initialisation does not look at the creation of
    the frame fences: the theorems ask for [has_fences s0] as well. *)
Definition session (w : World) (s0 s : Vk) : Prop :=
  initialize w initial = Done true s0 /\ rtc (vstep w) s0 s.
Lemma session_inv w s0 s : world_ok w -> session w s0 s -> has_fences s0 -> sinv s.
Proof. intros Hw (H1 & H3) H2. eapply session_sinv; [done|exact H3|]. by eapply started_sinv. Qed.

Lemma wp_Done {A} (m : V A) (Q : A -> Vk -> Prop) s : wp m Q s -> exists a s', m s = Done a s' /\ Q a s'.
Proof. unfold wp. destruct (m s) as [a s'|]; [|done]. eauto. Qed.


(** ** A device in use: a buffer, an image, a swapchain of three images, a frame *)
Section Demo.
Definition ex_caps : Caps := mkCaps (640, 480) (1, 1) (4096, 4096) 2 3.
Definition ex_world : World :=
  mkWorld (fun n => if (n =? 99)%nat then VK_OTHER (-4) else VK_SUCCESS) false true [[(true, false); (true, true)]]
    (fun o => match o with OBuffer size _ => (size, 1) | _ => (16, 1) end) [(true, true)] ex_caps
    [(VK_FORMAT_B8G8R8A8_UNORM, true)] [101; 102; 103] (fun _ => 1).
Definition ex_after (op : Op) (s : Vk) : Vk := match exec ex_world op s with Done _ s' => s' | Stopped _ => s end.
Definition ex_ready : Vk := match initialize ex_world initial with Done _ s => s | Stopped _ => initial end.
Definition ex_buffered : Vk := ex_after (OpCreateBuffer (mkBufferDesc 64 Vertex)) ex_ready.
Definition ex_loaded : Vk := ex_after (OpCreateImage (mkImageDesc 8 8 1 1 1 R8G8B8A8_Unorm Sampled)) ex_buffered.
Definition ex_chained : Vk := ex_after (OpCreateSwapchain (mkSwapchainDesc 640 480 true)) ex_loaded.

Lemma ex_world_ok : world_ok ex_world.
Proof. constructor; [intros size usage; cbn; lia|done]. Qed.
Lemma ex_fences : has_fences ex_ready.
Proof.
  assert (forallb (fun p => negb (inFlight p =? 0)) (perFrame (frames ex_ready)) = true) as H by by vm_compute.
  intros p Hp. rewrite forallb_forall in H. apply list_elem_of_In, H in Hp. by destruct (inFlight p).
Qed.
Lemma ex_loaded_session : session ex_world ex_ready ex_loaded.
Proof.
  split; [by vm_compute|].
  - apply (rtc_l _ _ ex_buffered); [exists (OpCreateBuffer (mkBufferDesc 64 Vertex)); split; [exact I|by vm_compute]|].
    apply (rtc_l _ _ ex_loaded); [|apply rtc_refl].
    exists (OpCreateImage (mkImageDesc 8 8 1 1 1 R8G8B8A8_Unorm Sampled)). split; [exact I|by vm_compute].
Qed.
Lemma ex_chained_session : session ex_world ex_ready ex_chained.
Proof.
  destruct ex_loaded_session as (H1 & H3). split; [exact H1|]. eapply rtc_r; [exact H3|].
  exists (OpCreateSwapchain (mkSwapchainDesc 640 480 true)). split; [by vm_compute|by vm_compute].
Qed.
End Demo.

(** ** Properties *)


(** One frame of the runtime: begin, clear, present. *)
Definition draw_frame (w : World) (colors : list ClearColor) : V (option bool) :=
  r ← beginFrame w;
  match r with
  | None => mret None
  | Some _ => _ ← for_each colors clearCurrentFrame; p ← presentFrame w; mret (Some p)
  end.
Definition frame_commands (image : Z) (colors : list ClearColor) : list Cmd :=
  [CmdBarrier image L_UNDEFINED L_TRANSFER_DST] ++ (CmdClear image <$> colors) ++ [CmdBarrier image L_TRANSFER_DST L_PRESENT_SRC].

(** What holds of a call that returns. *)
Definition pwp {A} (m : V A) (Q : A -> Vk -> Prop) (s : Vk) : Prop := forall a s', m s = Done a s' -> Q a s'.
Lemma pwp_bind {A B} (m : V A) (k : A -> V B) Q s : pwp m (fun a s' => pwp (k a) Q s') s -> pwp (m ≫= k) Q s.
Proof. intros H b s'. unfold mbind, V_bind. destruct (m s) as [a s1|] eqn:E; [|done]. by apply H. Qed.
Lemma pwp_done {A} (m : V A) Q s a s' : m s = Done a s' -> Q a s' -> pwp m Q s.
Proof. intros E HQ b s2 E2. rewrite E in E2. by injection E2 as <- <-. Qed.
Lemma pwp_stop {A} e (Q : A -> Vk -> Prop) s : pwp (stop e) Q s.
Proof. done. Qed.
Lemma pwp_lock {A} (m : V A) (Q : A -> Vk -> Prop) d b c f t :
  pwp m (fun a s' => Q a (mkVk false (drv s') (base s') (chain s') (frames s') (tabs s'))) (mkVk true d b c f t) ->
  pwp (with_lock m) Q (mkVk false d b c f t).
Proof.
  intros H a s'. unfold with_lock. cbn [locked drv base chain frames tabs].
  destruct (m _) as [a1 s1|] eqn:E; [|done]. intros [= <- <-]. by apply H.
Qed.
Lemma pwp_wait h (Q : () -> Vk -> Prop) lk d b c f t :
  (forall d', d_calls d' = d_calls d -> Q tt (mkVk lk d' b c f t)) -> pwp (wait_forever h) Q (mkVk lk d b c f t).
Proof.
  intros H a s'. unfold wait_forever, mbind, V_bind, mret, V_ret, set_drv, read. cbn [drv].
  destruct (d_fences d !! h) as [[]|]; try done; intros [= <- <-]; by apply H.
Qed.
Lemma pwp_reset h (Q : () -> Vk -> Prop) lk d b c f t :
  (forall d', d_calls d' = d_calls d -> Q tt (mkVk lk d' b c f t)) -> pwp (reset_fence h) Q (mkVk lk d b c f t).
Proof.
  intros H a s'. unfold reset_fence, mbind, V_bind, set_drv, read. cbn [drv].
  destruct (d_fences d !! h) as [x|]; [|done]. intros [= <- <-]. by apply H.
Qed.
Lemma pwp_record cmd (Q : () -> Vk -> Prop) lk d b c f t :
  (forall f', framebufferResized f' = framebufferResized f -> inFrame f' = inFrame f -> Q tt (mkVk lk d b c f' t)) ->
  pwp (record_cmd cmd) Q (mkVk lk d b c f t).
Proof.
  intros H a s'. unfold record_cmd, mbind, V_bind, set_frames, read. cbn [frames].
  destruct (negb _); [done|]. intros [= <- <-]. by apply H.
Qed.
Ltac pstep :=
  lazymatch goal with
  | |- pwp (_ ≫= _) _ _ => apply pwp_bind
  | |- pwp (stop _) _ _ => apply pwp_stop
  | |- pwp (with_lock _) _ _ => apply pwp_lock
  | |- pwp (wait_forever _) _ _ => apply pwp_wait; intros ? ?
  | |- pwp (reset_fence _) _ _ => apply pwp_reset; intros ? ?
  | |- pwp (record_cmd _) _ _ => apply pwp_record; intros ? ? ?
  | |- pwp _ _ _ => eapply pwp_done; [reflexivity|]; cbn [drv base chain frames tabs d_tick d_calls]
  end.

Lemma clear_resized color s :
  locked s = false ->
  pwp (clearCurrentFrame color) (fun _ s' => framebufferResized (frames s') = framebufferResized (frames s)) s.
Proof.
  intros Hl. destruct s as [lk d b c f t]. cbn [locked drv base chain frames tabs] in *. subst lk.
  unfold clearCurrentFrame. do 3 pstep. destruct (negb _); [by pstep|]. by do 3 pstep.
Qed.

Lemma clears_ok colors : forall s, vinv s -> inFrame (frames s) = true -> frame_recording s = true ->
  wp (for_each colors clearCurrentFrame) (fun _ s' => vinv s' /\ frames_only s s' /\ drv s' = drv s /\ chain s' = chain s /\
    inFrame (frames s') = true /\ frame_recording s' = true /\
    frame_cmds s' = frame_cmds s ++ (CmdClear (chain_image (chain s)) <$> colors) /\
    framebufferResized (frames s') = framebufferResized (frames s)) s.
Proof.
  induction colors as [|c colors IH]; intros s Hs Hin Hrec; cbn [for_each].
  - apply vwp_ret. split_and!; try done. by rewrite app_nil_r.
  - apply vwp_bind. destruct (wp_Done _ _ _ (clearCurrentFrame_ok s c Hs (fun _ => Hrec))) as ([] & s1 & E & H1 & H2 & H3 & H4 & H5 & H6 & H7).
    pose proof (clear_resized c s (vi_locked _ Hs) _ _ E) as H8. cbn beta in H8. unfold wp. rewrite E.
    rewrite Hin in *. eapply vwp_mono; [apply (IH s1); [done..|by rewrite H6]|]. intros [] s2 (K1 & K2 & K3 & K4 & K5 & K6 & K7 & K8).
    unfold frames_only in *. destruct H2 as (? & ? & ? & ? & ? & ?), K2 as (? & ? & ? & ? & ? & ?).
    split_and!; try done; try congruence. rewrite K7, H7, H4. cbn. by rewrite <- app_assoc.
Qed.

(** The answers of the driver that decide a frame: what it says to
    the acquisition, to the submission and to the presentation. *)
Lemma beginFrame_answers w s :
  locked s = false ->
  let acq := w_result w (d_calls (drv s)) in
  pwp (beginFrame w) (fun r s' =>
    framebufferResized (frames s') = framebufferResized (frames s) /\
    if bool_decide (swapchain (chain s) <> 0 /\ (acq = VK_SUCCESS \/ acq = VK_SUBOPTIMAL_KHR))
    then is_Some r /\ d_calls (drv s') = S (d_calls (drv s)) /\
         chain_image (chain s') = default 0 (swapImages (chain s) !! Z.to_nat (w_acquire w (d_calls (drv s))))
    else r = None) s.
Proof.
  intros Hl acq. destruct s as [lk d b c f t]. cbn [locked drv base chain frames tabs] in *. subst lk.
  unfold beginFrame. pstep. pstep. pstep. destruct (Z.eqb_spec (swapchain c) 0) as [Hc|Hc].
  { pstep. rewrite bool_decide_eq_false_2 by naive_solver. done. }
  assert (bool_decide (swapchain c <> 0 /\ (acq = VK_SUCCESS \/ acq = VK_SUBOPTIMAL_KHR)) =
    bool_decide (acq = VK_SUCCESS) || bool_decide (acq = VK_SUBOPTIMAL_KHR)) as ->.
  { rewrite <- bool_decide_or. apply bool_decide_ext. naive_solver. }
  repeat pstep. rewrite H. fold acq.
  destruct (bool_decide (acq = VK_SUCCESS) || bool_decide (acq = VK_SUBOPTIMAL_KHR)); cbn [negb]; [|by repeat pstep].
  repeat pstep. cbn [framebufferResized set_in_frame with_frame] in *. split; [done|]. split; [by eexists|]. split; [|done].
  rewrite H0. cbn [d_tick d_calls]. by rewrite H.
Qed.

Lemma presentFrame_answers w s :
  locked s = false -> inFrame (frames s) = true ->
  let n := d_calls (drv s) in
  pwp (presentFrame w) (fun r s' =>
    if bool_decide (w_result w n = VK_SUCCESS)
    then inFrame (frames s') = false /\
         r = bool_decide (w_result w (S n) = VK_SUCCESS) && negb (framebufferResized (frames s))
    else inFrame (frames s') = true) s.
Proof.
  intros Hl Hin n. destruct s as [lk d b c f t]. cbn [locked drv base chain frames tabs] in *. subst lk.
  unfold presentFrame. do 3 pstep. rewrite Hin. cbn [negb]. repeat pstep. fold n.
  destruct (decide (w_result w n <> VK_SUCCESS)) as [Hr|Hr].
  { rewrite bool_decide_eq_false_2 by done. repeat pstep. cbn [with_frame inFrame]. congruence. }
  rewrite bool_decide_eq_true_2 by (by destruct (decide (w_result w n = VK_SUCCESS))).
  repeat pstep. cbn [d_set_fence d_submit d_calls d_tick with_frame framebufferResized]. fold n. rewrite H.
  destruct (framebufferResized f); [rewrite orb_true_r; repeat pstep; by rewrite andb_false_r|].
  rewrite orb_false_r. destruct (w_result w (S n)) eqn:Ew; cbn; repeat pstep; done.
Qed.


(** Initialisation does not look at the creation of its fences.  When the
    driver refuses the first of them, it answers true all the same, and the
    first frame waits on a fence that does not exist. *)
Definition fenceless_world : World :=
  mkWorld (fun n => if (n =? 3)%nat then VK_OTHER (-1) else VK_SUCCESS) false true [[(true, false); (true, true)]]
    (w_reqs ex_world) [(true, true)] ex_caps [(VK_FORMAT_B8G8R8A8_UNORM, true)] [101; 102; 103] (fun _ => 1).
Definition fenceless_ready : Vk := match initialize fenceless_world initial with Done _ s => s | Stopped _ => initial end.
Definition fenceless_chained : Vk :=
  match exec fenceless_world (OpCreateSwapchain (mkSwapchainDesc 640 480 true)) fenceless_ready with
  | Done _ s => s | Stopped _ => initial
  end.
Theorem missing_fence_faults :
  world_ok fenceless_world /\ session fenceless_world fenceless_ready fenceless_chained /\
  allowed fenceless_chained OpBegin /\ exec fenceless_world OpBegin fenceless_chained = Stopped (InvalidObject 0 CFence).
Proof.
  split; [constructor; [intros size usage; cbn; lia|done]|]. split; [|split; by vm_compute].
  split; [by vm_compute|]. apply rtc_once. exists (OpCreateSwapchain (mkSwapchainDesc 640 480 true)). split; by vm_compute.
Qed.

(** The formats the abstraction has survive the trip through Vulkan's. *)
Lemma format_roundtrip f : fromVkFormat (toVkFormat f) = f.
Proof. by destruct f. Qed.

(** A frame left open blocks for ever.  In a session with a swapchain,
    beginning a frame waits on a fence that nothing will signal exactly when a
    frame is already open; and a failed submission leaves it open and closed to
    commands, so that after it neither beginning nor presenting a frame returns. *)
Theorem open_frame_hangs w s0 s :
  world_ok w -> session w s0 s -> has_fences s0 -> swapchain (chain s) <> 0 ->
  (beginFrame w s = Stopped NeverSignaled <-> inFrame (frames s) = true) /\
  (forall r s', inFrame (frames s) = true -> frame_recording s = true -> presentFrame w s = Done r s' ->
     d_submitted (drv s') = d_submitted (drv s) ->
     r = false /\ beginFrame w s' = Stopped NeverSignaled /\ presentFrame w s' = Stopped NotRecording).
Proof.
  intros Hw Hs Hf0 Hsc. destruct (session_inv w s0 s Hw Hs Hf0) as [Hi _]. split; [split|].
  - intros Hb. destruct (inFrame (frames s)) eqn:E; [done|]. pose proof (beginFrame_ok w s Hi E) as H. unfold wp in H. by rewrite Hb in H.
  - intros Hin. by apply begin_hangs.
  - intros r s' Hin Hrec Hp Hsub. pose proof (presentFrame_ok w s Hi (fun _ => Hrec)) as H. unfold wp in H. rewrite Hp, Hin in H.
    destruct H as (H1 & H2 & H3 & [[_ H4]|(-> & H4 & H5 & _)]).
    { exfalso. rewrite H4 in Hsub. apply (f_equal length) in Hsub. rewrite length_app in Hsub. simpl in Hsub. lia. }
    split; [done|]. split; [apply begin_hangs; [done|by rewrite H3|done]|].
    destruct s' as [lk d b c f t]. cbn [frames] in *. unfold frame_recording in H5. cbn [frames] in H5.
    pose proof (vi_locked _ H1) as Hl. cbn [locked] in Hl. subst lk.
    apply (wpf_done _ (eq NotRecording)); [done|]. unfold presentFrame. apply wpf_lock, wpf_bind, wp_read. cbn [frames]. rewrite H4.
    apply wpf_bind, wp_read. apply wpf_here. unfold record_cmd. apply wpf_bind, wp_read. cbn [frames]. by rewrite H5.
Qed.
Lemma open_frame_hangs_witness :
  beginFrame ex_world ex_chained = Stopped NeverSignaled <-> inFrame (frames ex_chained) = true.
Proof. apply (open_frame_hangs ex_world ex_ready ex_chained ex_world_ok ex_chained_session ex_fences). by vm_compute. Defined.

(** Resizing and uploading an image lock the device twice.  In every
    session state, recreating the swapchain and uploading to an image the device
    has take the mutex they already hold: neither call returns. *)
Theorem resize_deadlocks w s0 s :
  world_ok w -> session w s0 s -> has_fences s0 ->
  (forall width height, recreateSwapchain w width height s = Stopped SelfDeadlock) /\
  (forall image data, is_Some (images (tabs s) !! image) -> uploadImage w image data s = Stopped SelfDeadlock).
Proof.
  intros Hw Hs Hf0. destruct (session_inv w s0 s Hw Hs Hf0) as [Hi _]. split; [intros; by apply recreate_deadlocks|].
  intros image data [e He]. pose proof (vi_locked _ Hi) as Hl. destruct s as [lk d b c f t]. cbn [locked tabs] in *. subst lk.
  apply (wpf_done _ (eq SelfDeadlock)); [done|]. unfold uploadImage. apply wpf_lock, wpf_bind, wp_read. cbn [tabs]. rewrite He. by apply wpf_here.
Qed.
Lemma resize_deadlocks_witness :
  recreateSwapchain ex_world 800 600 ex_chained = Stopped SelfDeadlock /\ uploadImage ex_world 2 [1; 2] ex_chained = Stopped SelfDeadlock.
Proof.
  destruct (resize_deadlocks ex_world ex_ready ex_chained ex_world_ok ex_chained_session ex_fences) as [H1 H2]. split; [apply H1|apply H2].
  apply (bool_decide_unpack _). by vm_compute.
Defined.

(** Shutting down with a swapchain destroys its views twice.  In a session
    with a swapchain that has a view, the shutdown asks the driver to destroy an
    image view that is already gone. *)
Theorem shutdown_double_destroy w s0 s v :
  world_ok w -> session w s0 s -> has_fences s0 -> swapchain (chain s) <> 0 -> v ∈ swapViews (chain s) -> v <> 0 ->
  exists h, shutdown s = Stopped (InvalidObject h CImageView).
Proof. intros Hw Hs Hf0. destruct (session_inv w s0 s Hw Hs Hf0) as [Hi Hl]. by apply shutdown_stops. Qed.
Lemma shutdown_double_destroy_witness : exists h, shutdown ex_chained = Stopped (InvalidObject h CImageView).
Proof.
  apply (shutdown_double_destroy ex_world ex_ready ex_chained (default 0 (swapViews (chain ex_chained) !! 0%nat)) ex_world_ok ex_chained_session ex_fences).
  - by vm_compute.
  - apply (bool_decide_unpack _). by vm_compute.
  - by vm_compute.
Defined.

(** The bounds check of an upload wraps.  In a session state an upload whose
    end fits 64 bits either writes exactly its bytes at its offset in the
    buffer's memory or changes nothing; one whose end wraps is accepted and
    writes outside the buffer. *)
Theorem upload_bounds w s0 s h e offset data :
  world_ok w -> session w s0 s -> has_fences s0 -> buffers (tabs s) !! h = Some e -> 0 <= offset < 2 ^ 64 -> 0 <= be_size e ->
  (offset + Z.of_nat (length data) < 2 ^ 64 -> exists r s', uploadBuffer w h offset data s = Done r s' /\
     if r then exists content, d_mem (drv s) !! be_memory e = Some content /\ offset + Z.of_nat (length data) <= be_size e /\
       d_mem (drv s') !! be_memory e =
         Some (take (Z.to_nat offset) content ++ data ++ drop (Z.to_nat offset + length data) content)
     else d_mem (drv s') = d_mem (drv s)) /\
  (2 ^ 64 <= offset + Z.of_nat (length data) <= 2 ^ 64 + be_size e -> w_result w (d_calls (drv s)) = VK_SUCCESS ->
     (forall content, d_mem (drv s) !! be_memory e = Some content -> Z.of_nat (length content) < 2 ^ 64) ->
     uploadBuffer w h offset data s = Stopped InvalidRange).
Proof.
  intros Hw Hs Hf0 He Ho He0. destruct (session_inv w s0 s Hw Hs Hf0) as [Hi _]. open_state s Hi. cbn [tabs drv] in *.
  destruct (proj1 (proj2 (di_holds _ _ _ HD)) (be_memory e) (be_size e)) as (content & Hm & Hle).
  { unfold known, sizes. cbn [k_sizes]. apply list_elem_of_fmap. exists (h, e). split; [done|]. by apply elem_of_map_to_list. }
  unfold uploadBuffer, with_lock, read, mbind, V_bind, answer. cbn [locked drv base chain frames tabs]. rewrite He. split.
  - intros Hfit. rewrite wrap_id by (unfold in_width; lia). destruct (be_size e <? _) eqn:E.
    { eexists _, _. split; [reflexivity|]. done. }
    apply Z.ltb_ge in E. unfold write_mapped, answer, mbind, V_bind, read, set_drv, mret, V_ret. cbn [drv].
    destruct (decide (w_result w (d_calls d) <> VK_SUCCESS)); [by eexists _, _|].
    cbn [drv d_tick d_mem]. rewrite Hm, (proj2 (Z.leb_le _ _)) by lia.
    eexists _, _. split; [reflexivity|]. exists content. split_and!; [done|lia|]. cbn [drv d_write d_mem]. by rewrite lookup_insert_eq.
  - intros Hwrap Hok Hsmall. specialize (Hsmall _ Hm).
    assert (wrap 64 (offset + Z.of_nat (length data)) = offset + Z.of_nat (length data) - 2 ^ 64) as ->.
    { unfold wrap. rewrite <- (Z.mod_small (offset + Z.of_nat (length data) - 2 ^ 64) (2 ^ 64)) by lia.
      rewrite <- (Z_mod_plus_full _ (-1) (2 ^ 64)). f_equal; lia. }
    rewrite (proj2 (Z.ltb_ge _ _)) by lia.
    unfold write_mapped, answer, mbind, V_bind, read, set_drv, mret, V_ret. cbn [drv].
    rewrite Hok, decide_False by (intros H; by apply H). cbn [drv d_tick d_mem]. by rewrite Hm, (proj2 (Z.leb_gt _ _)) by lia.
Qed.
Lemma upload_bounds_witness :
  (exists r s', uploadBuffer ex_world 1 8 [1; 2; 3] ex_chained = Done r s' /\ r = true) /\
  uploadBuffer ex_world 1 (2 ^ 64 - 4) [1; 2; 3; 4; 5; 6; 7; 8] ex_chained = Stopped InvalidRange.
Proof.
  set (e := default (mkBufferEntry 0 0 0) (buffers (tabs ex_chained) !! 1)).
  assert (buffers (tabs ex_chained) !! 1 = Some e) as He by by vm_compute.
  assert (d_mem (drv ex_chained) !! be_memory e = Some (replicate 64 0)) as Hm by by vm_compute.
  split.
  - destruct (upload_bounds ex_world ex_ready ex_chained 1 e 8 [1; 2; 3] ex_world_ok ex_chained_session ex_fences He) as [H _]; [lia|by vm_compute|].
    destruct H as (r & s' & H & _); [cbn; lia|]. exists r, s'. split; [exact H|].
    assert (match uploadBuffer ex_world 1 8 [1; 2; 3] ex_chained with Done r _ => r | _ => false end = true) as E by by vm_compute.
    by rewrite H in E.
  - destruct (upload_bounds ex_world ex_ready ex_chained 1 e (2 ^ 64 - 4) [1; 2; 3; 4; 5; 6; 7; 8] ex_world_ok ex_chained_session ex_fences He) as [_ H];
      [lia|by vm_compute|]. apply H.
    + split; [cbn; lia|]. by vm_compute.
    + by vm_compute.
    + intros content Hc. rewrite Hm in Hc. injection Hc as <-. by vm_compute.
Defined.
