(* ===== verification/OpenGl.v ===== *)
(** * The OpenGL back end

    [graphics/opengl/OpenGLDevice.cpp].  A method that makes a GL call while there
    is no context, or reads past the data it is given, has no result ([None]).
    GL keeps the buffers, textures and samplers of the current context. *)
From S2P Require Import Prelude Gal.
Import Gal.

(** ** GL, on the current context *)
Definition splice (o : nat) (data content : bytes) : bytes := take o content ++ data ++ drop (o + length data) content.

(** The parameters that the device passes; [gl_content] is the contents of the buffers. *)
Class GL (C : Type) := {
  gl_new : C;
  glGenBuffer : Z -> C -> C * Z;
  glGenTexture : Z -> Z -> C -> C * Z;
  glGenSampler : bool -> bool -> C -> C * Z;
  glDeleteBuffer : Z -> C -> C;
  glDeleteTexture : Z -> C -> C;
  glDeleteSampler : Z -> C -> C;
  glBufferSubData : Z -> Z -> bytes -> C -> C;
  glTexSubImage2D : Z -> Z -> Z -> bytes -> C -> C;
  glClear : ClearColor -> C -> C;
  swapWindow : C -> C;
  gl_content : C -> gmap Z bytes
}.

(** A new buffer has a new name and [size] bytes, or none when the size is negative
    or memory is out; a range outside a buffer is an error and writes nothing. *)
Class GLLaws (C : Type) `{GL C} := {
  gl_gen_buffer size c : let '(c', id) := glGenBuffer size c in
    gl_content c !! id = None /\
    exists content, gl_content c' = <[id := content]> (gl_content c) /\ (Z.of_nat (length content) = i64 size \/ content = []);
  gl_gen_texture w h c : gl_content (glGenTexture w h c).1 = gl_content c;
  gl_gen_sampler nearest repeat_ c : gl_content (glGenSampler nearest repeat_ c).1 = gl_content c;
  gl_delete_buffer id c : gl_content (glDeleteBuffer id c) = delete id (gl_content c);
  gl_delete_texture id c : gl_content (glDeleteTexture id c) = gl_content c;
  gl_delete_sampler id c : gl_content (glDeleteSampler id c) = gl_content c;
  gl_sub_data id offset data c content : gl_content c !! id = Some content ->
    gl_content (glBufferSubData id offset data c) =
      if (0 <=? offset) && (offset + Z.of_nat (length data) <=? Z.of_nat (length content))
      then <[id := splice (Z.to_nat offset) data content]> (gl_content c) else gl_content c;
  gl_tex_sub id w h pixels c : gl_content (glTexSubImage2D id w h pixels c) = gl_content c;
  gl_clear col c : gl_content (glClear col c) = gl_content c;
  gl_swap c : gl_content (swapWindow c) = gl_content c
}.

Module OpenGLDevice.
Section Device.
Context {C : Type} `{GL C}.

Record t := mkDevice {
  window : bool;
  context : option C;
  width : Z;
  height : Z;
  nextHandle : Z;
  buffers : gmap Z (Z * Z);
  images : gmap Z (Z * Z * Z);
  views : gmap Z Z;
  samplers : gmap Z Z;
  fences : gmap Z bool;
  semaphores : gmap Z bool;
  hasPendingClear : bool
}.
Definition initial : t := mkDevice false None 0 0 1 ∅ ∅ ∅ ∅ ∅ ∅ false.

Definition with_context (c : option C) (d : t) : t :=
  mkDevice (window d) c (width d) (height d) (nextHandle d) (buffers d) (images d) (views d) (samplers d) (fences d)
    (semaphores d) (hasPendingClear d).
Definition with_window (w : bool) (d : t) : t :=
  mkDevice w (context d) (width d) (height d) (nextHandle d) (buffers d) (images d) (views d) (samplers d) (fences d)
    (semaphores d) (hasPendingClear d).
Definition with_size (w h : Z) (d : t) : t :=
  mkDevice (window d) (context d) w h (nextHandle d) (buffers d) (images d) (views d) (samplers d) (fences d)
    (semaphores d) (hasPendingClear d).
Definition with_pending (p : bool) (d : t) : t :=
  mkDevice (window d) (context d) (width d) (height d) (nextHandle d) (buffers d) (images d) (views d) (samplers d)
    (fences d) (semaphores d) p.
Definition bump (d : t) : t :=
  mkDevice (window d) (context d) (width d) (height d) (nextHandle d + 1) (buffers d) (images d) (views d) (samplers d)
    (fences d) (semaphores d) (hasPendingClear d).
Definition with_buffers (m : gmap Z (Z * Z)) (d : t) : t :=
  mkDevice (window d) (context d) (width d) (height d) (nextHandle d) m (images d) (views d) (samplers d) (fences d)
    (semaphores d) (hasPendingClear d).
Definition with_images (m : gmap Z (Z * Z * Z)) (d : t) : t :=
  mkDevice (window d) (context d) (width d) (height d) (nextHandle d) (buffers d) m (views d) (samplers d) (fences d)
    (semaphores d) (hasPendingClear d).
Definition with_views (m : gmap Z Z) (d : t) : t :=
  mkDevice (window d) (context d) (width d) (height d) (nextHandle d) (buffers d) (images d) m (samplers d) (fences d)
    (semaphores d) (hasPendingClear d).
Definition with_samplers (m : gmap Z Z) (d : t) : t :=
  mkDevice (window d) (context d) (width d) (height d) (nextHandle d) (buffers d) (images d) (views d) m (fences d)
    (semaphores d) (hasPendingClear d).
Definition with_fences (m : gmap Z bool) (d : t) : t :=
  mkDevice (window d) (context d) (width d) (height d) (nextHandle d) (buffers d) (images d) (views d) (samplers d) m
    (semaphores d) (hasPendingClear d).
Definition with_semaphores (m : gmap Z bool) (d : t) : t :=
  mkDevice (window d) (context d) (width d) (height d) (nextHandle d) (buffers d) (images d) (views d) (samplers d)
    (fences d) m (hasPendingClear d).

(** *** Methods *)

Definition initialize (native_window context_ok : bool) (d : t) : t * bool :=
  let d := with_window native_window d in
  if negb native_window then (d, false)
  else if negb context_ok then (with_context None d, false)
  else (with_context (Some gl_new) d, true).

Definition shutdown (d : t) : t := with_window false (with_context None d).

Definition createSwapchain (desc : SwapchainDesc) (d : t) : t * bool := (with_size (sw_width desc) (sw_height desc) d, true).
Definition recreateSwapchain (w h : Z) (d : t) : t := with_size w h d.

(** [drawable] is the size SDL reports. *)
Definition beginFrame (drawable : Z * Z) (d : t) : t * option FrameContext :=
  match context d with
  | None => (d, None)
  | Some _ => (with_pending false d, Some (mkFrame 0 (u32 (fst drawable)) (u32 (snd drawable)) 0 R8G8B8A8_Unorm))
  end.
Definition presentFrame (d : t) : t * bool :=
  match context d with None => (d, false) | Some c => (with_context (Some (swapWindow c)) d, true) end.
Definition clearCurrentFrame (col : ClearColor) (d : t) : t :=
  match context d with None => d | Some c => with_pending true (with_context (Some (glClear col c)) d) end.

Definition createBuffer (desc : BufferDesc) (d : t) : t * Z :=
  match context d with
  | None => (d, 0)
  | Some c =>
      let '(c, id) := glGenBuffer (bd_size desc) c in
      (bump (with_buffers (<[nextHandle d := (id, bd_size desc)]> (buffers d)) (with_context (Some c) d)), nextHandle d)
  end.
Definition destroyBuffer (h : Z) (d : t) : t :=
  match buffers d !! h with
  | None => d
  | Some (id, _) => with_buffers (delete h (buffers d)) (with_context (glDeleteBuffer id <$> context d) d)
  end.

Definition createImage (desc : ImageDesc) (d : t) : t * Z :=
  match context d with
  | None => (d, 0)
  | Some c =>
      let '(c, id) := glGenTexture (id_width desc) (id_height desc) c in
      (bump (with_images (<[nextHandle d := (id, id_width desc, id_height desc)]> (images d)) (with_context (Some c) d)),
       nextHandle d)
  end.
Definition destroyImage (h : Z) (d : t) : t :=
  match images d !! h with
  | None => d
  | Some (id, _, _) => with_images (delete h (images d)) (with_context (glDeleteTexture id <$> context d) d)
  end.

Definition createImageView (image : Z) (d : t) : t * Z :=
  match images d !! image with
  | None => (d, 0)
  | Some _ => (bump (with_views (<[nextHandle d := image]> (views d)) d), nextHandle d)
  end.
Definition destroyImageView (h : Z) (d : t) : t := with_views (delete h (views d)) d.

Definition createSampler (desc : SamplerDesc) (d : t) : t * Z :=
  match context d with
  | None => (d, 0)
  | Some c =>
      let '(c, id) := glGenSampler (sd_nearest desc) (sd_repeat desc) c in
      (bump (with_samplers (<[nextHandle d := id]> (samplers d)) (with_context (Some c) d)), nextHandle d)
  end.
Definition destroySampler (h : Z) (d : t) : t :=
  match samplers d !! h with
  | None => d
  | Some id => with_samplers (delete h (samplers d)) (with_context (glDeleteSampler id <$> context d) d)
  end.

(** The offset becomes a signed [GLintptr]. *)
Definition uploadBuffer (h offset : Z) (data : bytes) (d : t) : option (t * bool) :=
  match buffers d !! h with
  | None => Some (d, false)
  | Some (id, size) =>
      if size <? u64 (offset + Z.of_nat (length data)) then Some (d, false)
      else c ← context d; Some (with_context (Some (glBufferSubData id (i64 offset) data c)) d, true)
  end.

(** GL reads four bytes per pixel from the data. *)
Definition uploadImage (image : Z) (data : bytes) (d : t) : option (t * bool) :=
  match images d !! image with
  | None => Some (d, false)
  | Some (id, w, h) =>
      c ← context d;
      if (Z.of_nat (length data) <? 4 * w * h) then None
      else Some (with_context (Some (glTexSubImage2D id w h (take (Z.to_nat (4 * w * h)) data) c)) d, true)
  end.

Definition createShader : Z := 0.
Definition createGraphicsPipeline : Z := 0.

Definition createFence (signaled : bool) (d : t) : t * Z :=
  (bump (with_fences (<[nextHandle d := signaled]> (fences d)) d), nextHandle d).
Definition destroyFence (h : Z) (d : t) : t := with_fences (delete h (fences d)) d.
Definition waitFence (h : Z) (d : t) : t * bool :=
  match fences d !! h with None => (d, false) | Some _ => (with_fences (<[h := true]> (fences d)) d, true) end.
Definition resetFence (h : Z) (d : t) : t :=
  match fences d !! h with None => d | Some _ => with_fences (<[h := false]> (fences d)) d end.
Definition createSemaphore (d : t) : t * Z :=
  (bump (with_semaphores (<[nextHandle d := false]> (semaphores d)) d), nextHandle d).
Definition destroySemaphore (h : Z) (d : t) : t := with_semaphores (delete h (semaphores d)) d.

End Device.
Arguments t : clear implicits.
End OpenGLDevice.

(** ** Sessions

    After one [initialize], every operation with any arguments a device call can
    make sense of: images with all their pixels. *)

Import OpenGLDevice.

Inductive Op :=
  | OpSwapchain (desc : SwapchainDesc) | OpRecreate (w h : Z)
  | OpBegin (drawable : Z * Z) | OpClear (col : ClearColor) | OpPresent
  | OpCreateBuffer (desc : BufferDesc) | OpDestroyBuffer (h : Z) | OpUploadBuffer (h offset : Z) (data : bytes)
  | OpCreateImage (desc : ImageDesc) | OpDestroyImage (h : Z) | OpUploadImage (h : Z) (data : bytes)
  | OpCreateView (image : Z) | OpDestroyView (h : Z)
  | OpCreateSampler (desc : SamplerDesc) | OpDestroySampler (h : Z)
  | OpCreateFence (signaled : bool) | OpDestroyFence (h : Z) | OpWaitFence (h : Z) | OpResetFence (h : Z)
  | OpCreateSemaphore | OpDestroySemaphore (h : Z).

(** What a call answers. *)
Inductive Answer := ANothing | AHandle (h : Z) | AFlag (ok : bool) | AFrame (f : option FrameContext).
(** A buffer as its caller knows it: the size asked for and the bytes held. *)
Record Buffer := mkBuffer { b_size : Z; b_bytes : bytes }.

Section Sessions.
Context {C : Type} `{HGL : GL C}.
Notation t := (OpenGLDevice.t C).

Definition nothing (d : t) : option (t * Answer) := Some (d, ANothing).
Definition handle (r : t * Z) : option (t * Answer) := Some (r.1, AHandle r.2).
Definition flag (r : t * bool) : option (t * Answer) := Some (r.1, AFlag r.2).
Definition exec (op : Op) (d : t) : option (t * Answer) :=
  match op with
  | OpSwapchain desc => flag (createSwapchain desc d)
  | OpRecreate w h => nothing (recreateSwapchain w h d)
  | OpBegin drawable => let '(d, f) := beginFrame drawable d in Some (d, AFrame f)
  | OpClear col => nothing (clearCurrentFrame col d)
  | OpPresent => flag (presentFrame d)
  | OpCreateBuffer desc => handle (createBuffer desc d)
  | OpDestroyBuffer h => nothing (destroyBuffer h d)
  | OpUploadBuffer h offset data => r ← uploadBuffer h offset data d; flag r
  | OpCreateImage desc => handle (createImage desc d)
  | OpDestroyImage h => nothing (destroyImage h d)
  | OpUploadImage h data => r ← uploadImage h data d; flag r
  | OpCreateView image => handle (createImageView image d)
  | OpDestroyView h => nothing (destroyImageView h d)
  | OpCreateSampler desc => handle (createSampler desc d)
  | OpDestroySampler h => nothing (destroySampler h d)
  | OpCreateFence signaled => handle (createFence signaled d)
  | OpDestroyFence h => nothing (destroyFence h d)
  | OpWaitFence h => flag (waitFence h d)
  | OpResetFence h => nothing (resetFence h d)
  | OpCreateSemaphore => handle (createSemaphore d)
  | OpDestroySemaphore h => nothing (destroySemaphore h d)
  end.

Definition allowed (d : t) (op : Op) : Prop :=
  match op with
  | OpCreateBuffer desc => 0 <= bd_size desc < 2 ^ 64
  | OpUploadBuffer _ offset _ => 0 <= offset < 2 ^ 64
  | OpUploadImage h data => forall id w k, images d !! h = Some (id, w, k) -> 4 * w * k <= Z.of_nat (length data)
  | _ => True
  end.
Definition gstep (d d' : t) : Prop := exists op a, allowed d op /\ exec op d = Some (d', a).

(** *** What the buffers hold, and what each operation means *)
Definition contents (d : t) : gmap Z Buffer :=
  match context d with
  | None => ∅
  | Some c => omap (fun '(id, size) => mkBuffer size <$> gl_content c !! id) (buffers d)
  end.

(** What an upload means: an end past the buffer writes nothing, wrapped or not. *)
Definition upload_spec (offset : Z) (data content : bytes) : bytes :=
  if offset + Z.of_nat (length data) <=? Z.of_nat (length content) then splice (Z.to_nat offset) data content else content.

Definition uploaded (offset : Z) (data : bytes) (b : Buffer) : Buffer := mkBuffer (b_size b) (upload_spec offset data (b_bytes b)).

(** The buffers before, what the call answers, the buffers after. *)
Definition spec (op : Op) (m : gmap Z Buffer) (a : Answer) (m' : gmap Z Buffer) : Prop :=
  match op with
  | OpCreateBuffer desc => exists h content, a = AHandle h /\ 0 < h /\ m !! h = None /\
      m' = <[h := mkBuffer (bd_size desc) content]> m /\ (Z.of_nat (length content) = i64 (bd_size desc) \/ content = [])
  | OpDestroyBuffer h => m' = delete h m
  | OpUploadBuffer h offset data => m' = alter (uploaded offset data) h m /\
      (a = AFlag true <-> exists b, m !! h = Some b /\ (offset + Z.of_nat (length data)) mod 2 ^ 64 <= b_size b) /\
      (a = AFlag true \/ a = AFlag false /\ m' = m)
  | _ => m' = m
  end.

(** *** The invariant *)
Definition entry_ok (c : C) (e : Z * Z) : Prop :=
  exists content, gl_content c !! e.1 = Some content /\ Z.of_nat (length content) <= e.2 /\ Z.of_nat (length content) < 2 ^ 63.

Record table_ok (d : t) : Prop := mkTableOk {
  tk_next : 0 < nextHandle d;
  tk_buffers : forall h x, buffers d !! h = Some x -> 0 < h < nextHandle d;
  tk_images : forall h x, images d !! h = Some x -> 0 < h < nextHandle d;
  tk_views : forall h x, views d !! h = Some x -> 0 < h < nextHandle d;
  tk_samplers : forall h x, samplers d !! h = Some x -> 0 < h < nextHandle d;
  tk_fences : forall h x, fences d !! h = Some x -> 0 < h < nextHandle d;
  tk_semaphores : forall h x, semaphores d !! h = Some x -> 0 < h < nextHandle d
}.

Record ginv (d : t) (c : C) : Prop := mkGinv {
  gi_context : context d = Some c;
  gi_table : table_ok d;
  gi_entries : map_Forall (fun _ e => entry_ok c e) (buffers d);
  gi_distinct : forall h1 h2 e1 e2, buffers d !! h1 = Some e1 -> buffers d !! h2 = Some e2 -> e1.1 = e2.1 -> h1 = h2
}.

Ltac table_tac := let Hf := fresh in
  intros Hf; destruct Hf; split; cbn [nextHandle buffers images views samplers fences semaphores bump with_context with_buffers
    with_images with_views with_samplers with_fences with_semaphores with_size with_pending];
  first [lia | (intros ? ? ?; first
    [ match goal with H : <[_ := _]> _ !! _ = Some _ |- _ => apply lookup_insert_Some in H as [[<- _]|[_ H]] end
    | match goal with H : delete _ _ !! _ = Some _ |- _ => apply lookup_delete_Some in H as [_ H] end
    | idtac ]; try lia;
    match goal with T : forall _ _, _ -> 0 < _ < _, H : _ !! _ = Some _ |- _ => apply T in H; lia end) ].

(** Every operation keeps handles below the counter. *)
Lemma table_ok_context d c : table_ok d -> table_ok (with_context c d).
Proof. table_tac. Qed.
Lemma exec_table op d d' a : table_ok d -> exec op d = Some (d', a) -> table_ok d'.
Proof.
  intros Hd He. revert Hd.
  destruct op; cbn [exec] in He;
    unfold nothing, handle, flag, createSwapchain, recreateSwapchain, beginFrame, presentFrame, clearCurrentFrame, createBuffer, destroyBuffer, uploadBuffer,
      createImage, destroyImage, uploadImage, createImageView, destroyImageView, createSampler, destroySampler, createFence,
      destroyFence, waitFence, resetFence, createSemaphore, destroySemaphore in He; cbn [fst snd glGenBuffer glGenTexture glGenSampler] in He;
    repeat case_match; simplify_eq/=; try done; try table_tac.
  all: try (destruct (context d); cbn in He; repeat case_match; simplify_eq/=; table_tac).
Qed.

(** *** The contents *)
Context `{!GLLaws C}.

Lemma contents_lookup d c h : context d = Some c -> contents d !! h = e ← buffers d !! h; mkBuffer e.2 <$> gl_content c !! e.1.
Proof. intros Hc. unfold contents. rewrite Hc, lookup_omap. by destruct (buffers d !! h) as [[id n]|]. Qed.

Lemma contents_same d d' c c' : context d = Some c -> context d' = Some c' -> buffers d' = buffers d ->
  gl_content c' = gl_content c -> contents d' = contents d.
Proof. intros H1 H2 H3 H4. apply map_eq. intros h. rewrite !(contents_lookup _ _ _ H1), !(contents_lookup _ _ _ H2). by rewrite H3, H4. Qed.

Lemma ginv_same d d' c c' : ginv d c -> table_ok d' -> context d' = Some c' -> buffers d' = buffers d ->
  gl_content c' = gl_content c -> ginv d' c'.
Proof.
  intros [Hc Ht He Hd] Ht' Hc' Hb Hg. split; try done; rewrite Hb; [|done].
  eapply map_Forall_impl; [exact He|]. intros h e. unfold entry_ok. by rewrite Hg.
Qed.

Lemma i64_le x : 0 <= x -> i64 x <= x.
Proof.
  intros H. unfold swrap. change (2 ^ (64 - 1)) with (2 ^ 63). pose proof (Z.mod_le (x + 2 ^ 63) (2 ^ 64)). lia.
Qed.
Lemma i64_range x : i64 x < 2 ^ 63.
Proof. unfold swrap. change (2 ^ (64 - 1)) with (2 ^ 63). pose proof (Z.mod_pos_bound (x + 2 ^ 63) (2 ^ 64)). lia. Qed.

(** A handle and a GL name that no entry has: the entry joins the others. *)
Lemma createBuffer_ginv d c desc : ginv d c -> 0 <= bd_size desc < 2 ^ 64 ->
  let d' := (createBuffer desc d).1 in table_ok d' -> (exists c', ginv d' c') /\
    spec (OpCreateBuffer desc) (contents d) (AHandle (createBuffer desc d).2) (contents d').
Proof.
  intros [Hc Ht He Hd] Hs. unfold createBuffer. rewrite Hc. pose proof (gl_gen_buffer (bd_size desc) c) as Hgen.
  destruct (glGenBuffer (bd_size desc) c) as [c' id]. destruct Hgen as (Hid & z & Hz & Hlen).
  cbv zeta. cbn [fst snd]. set (d' := bump _). intros Ht'.
  assert (forall h e, buffers d !! h = Some e -> h <> nextHandle d /\ e.1 <> id) as Hfresh.
  { intros h e Hh. pose proof (tk_buffers _ Ht _ _ Hh). destruct (He _ _ Hh) as (x & Hx & _). split; [lia|]. congruence. }
  assert (context d' = Some c') as Hc' by done.
  split; [exists c'; split; [done..| |]|].
  - apply map_Forall_insert_2.
    + exists z. cbn. rewrite Hz, lookup_insert_eq. pose proof (i64_le (bd_size desc)). pose proof (i64_range (bd_size desc)).
      split; [done|]. destruct Hlen as [->| ->]; cbn; lia.
    + intros h e Hh. destruct (Hfresh h e Hh) as [_ Hne]. destruct (He h e Hh) as (x & H1 & H2). exists x. by rewrite Hz, lookup_insert_ne.
  - cbn. intros h1 h2 e1 e2 [[<- <-]|[N1 H1]]%lookup_insert_Some [[<- <-]|[N2 H2]]%lookup_insert_Some E; [done| | |by eapply Hd].
    + by destruct (proj2 (Hfresh h2 e2 H2)).
    + by destruct (proj2 (Hfresh h1 e1 H1)).
  - exists (nextHandle d), z. split; [done|]. split; [exact (tk_next _ Ht)|]. split; [|split; [|done]].
    + rewrite (contents_lookup _ _ _ Hc). destruct (buffers d !! nextHandle d) as [e|] eqn:E; [|done]. by destruct (Hfresh _ _ E).
    + apply map_eq. intros h. rewrite (contents_lookup _ _ _ Hc'). cbn. rewrite Hz. destruct (decide (h = nextHandle d)) as [->|Hne].
      * rewrite !lookup_insert_eq. cbn. by rewrite lookup_insert_eq.
      * rewrite !lookup_insert_ne by done. rewrite (contents_lookup _ _ _ Hc). destruct (buffers d !! h) as [e|] eqn:E; [|done].
        cbn. rewrite lookup_insert_ne; [done|]. intros Heq. by destruct (proj2 (Hfresh h e E)).
Qed.

Lemma destroyBuffer_ginv d c h : ginv d c ->
  let d' := destroyBuffer h d in table_ok d' -> (exists c', ginv d' c') /\ contents d' = delete h (contents d).
Proof.
  intros [Hc Ht He Hd]. unfold destroyBuffer. cbv zeta.
  destruct (buffers d !! h) as [[id n]|] eqn:E; [set (d' := with_buffers _ _)|]; intros Ht'.
  2: { split; [by exists c|]. rewrite delete_id; [done|]. by rewrite (contents_lookup _ _ _ Hc), E. }
  assert (context d' = Some (glDeleteBuffer id c)) as Hc' by (unfold d'; cbn; by rewrite Hc).
  assert (forall k e, buffers d !! k = Some e -> k <> h -> e.1 <> id) as Hne.
  { intros k e Hk Hkh Heq. apply Hkh. by eapply Hd. }
  split; [exists (glDeleteBuffer id c); split; [done..| |]|].
  - cbn [buffers d' with_buffers]. intros k e [Hk1 Hk2]%lookup_delete_Some.
    destruct (He k e Hk2) as (x & H1 & H2). exists x. rewrite gl_delete_buffer.
    rewrite lookup_delete_ne; [done|]. intros Heq. by apply (Hne k e).
  - cbn. intros h1 h2 e1 e2 [_ H1]%lookup_delete_Some [_ H2]%lookup_delete_Some. by eapply Hd.
  - apply map_eq. intros k. rewrite (contents_lookup _ _ _ Hc'). cbn. rewrite gl_delete_buffer. destruct (decide (k = h)) as [->|Hk].
    + by rewrite !lookup_delete_eq.
    + rewrite !lookup_delete_ne by done. rewrite (contents_lookup _ _ _ Hc). destruct (buffers d !! k) as [e|] eqn:Ek; [|done]. cbn.
      rewrite lookup_delete_ne; [done|]. intros Heq. by apply (Hne k e).
Qed.

Lemma length_splice o data content : (o + length data <= length content)%nat -> length (splice o data content) = length content.
Proof. intros Hl. unfold splice. rewrite !length_app, length_take, length_drop. lia. Qed.
Lemma length_upload_spec offset data content : 0 <= offset -> length (upload_spec offset data content) = length content.
Proof. intros Ho. unfold upload_spec. destruct (_ <=? _) eqn:E; [|done]. apply Z.leb_le in E. apply length_splice. lia. Qed.

(** GL's own check, on the signed offset, decides. *)
Lemma glBufferSubData_spec id offset data c content : gl_content c !! id = Some content -> 0 <= offset < 2 ^ 64 ->
  Z.of_nat (length content) < 2 ^ 63 ->
  gl_content (glBufferSubData id (i64 offset) data c) = <[id := upload_spec offset data content]> (gl_content c).
Proof.
  intros Hid Ho Hl. rewrite (gl_sub_data _ _ _ _ _ Hid). unfold upload_spec.
  destruct (decide (offset < 2 ^ 63)) as [Hs|Hs].
  - rewrite swrap_id by lia. rewrite (proj2 (Z.leb_le 0 offset)) by lia. cbn [andb].
    destruct (_ <=? _) eqn:E; [done|]. by rewrite insert_id.
  - assert (i64 offset < 0) as Hneg.
    { unfold swrap. change (2 ^ (64 - 1)) with (2 ^ 63). change (2 ^ 64) with (2 * 2 ^ 63) in *.
      rewrite <- (Z.mod_unique (offset + 2 ^ 63) (2 * 2 ^ 63) 1 (offset - 2 ^ 63)); lia. }
    rewrite (proj2 (Z.leb_gt 0 _)) by lia. cbn [andb].
    rewrite (proj2 (Z.leb_gt _ _)) by lia. by rewrite insert_id.
Qed.

(** The device's check lets every upload pass that GL would take. *)
Lemma upload_rejected offset data size content : 0 <= offset -> Z.of_nat (length content) <= size ->
  size < u64 (offset + Z.of_nat (length data)) -> upload_spec offset data content = content.
Proof.
  intros Ho Hc Hs. unfold upload_spec. rewrite (proj2 (Z.leb_gt _ _)); [done|].
  pose proof (Z.mod_le (offset + Z.of_nat (length data)) (2 ^ 64) ltac:(lia) ltac:(lia)). unfold wrap in Hs. lia.
Qed.
Lemma alter_same (f : Buffer -> Buffer) h (m : gmap Z Buffer) : (forall x, m !! h = Some x -> f x = x) -> alter f h m = m.
Proof.
  intros Hf. apply map_eq. intros k. destruct (decide (k = h)) as [->|Hk]; [|by rewrite lookup_alter_ne].
  rewrite lookup_alter_eq. destruct (m !! h) as [x|] eqn:E; [|done]. cbn. by rewrite Hf.
Qed.

Lemma uploaded_id offset data b : upload_spec offset data (b_bytes b) = b_bytes b -> uploaded offset data b = b.
Proof. destruct b as [n content]. unfold uploaded. cbn. by intros ->. Qed.
Lemma uploadBuffer_ginv d c h offset data : ginv d c -> 0 <= offset < 2 ^ 64 ->
  exists d' b, uploadBuffer h offset data d = Some (d', b) /\ (exists c', ginv d' c') /\
    spec (OpUploadBuffer h offset data) (contents d) (AFlag b) (contents d').
Proof.
  intros Hi Ho. pose proof Hi as [Hc Ht He Hd]. unfold uploadBuffer. cbn [spec]. destruct (buffers d !! h) as [[id n]|] eqn:E.
  2: { exists d, false. split; [done|]. split; [by exists c|]. assert (contents d !! h = None) as Hn by by rewrite (contents_lookup _ _ _ Hc), E.
       split; [symmetry; apply alter_same; congruence|]. split; [|by right]. split; [done|]. intros (b & Hb & _). congruence. }
  destruct (He _ _ E) as (content & H1 & H2 & H3). cbn [fst snd] in *.
  assert (contents d !! h = Some (mkBuffer n content)) as Hb by (rewrite (contents_lookup _ _ _ Hc), E; cbn; by rewrite H1).
  destruct (n <? _) eqn:El; [apply Z.ltb_lt in El|apply Z.ltb_ge in El].
  { exists d, false. split; [done|]. split; [by exists c|]. split; [|split; [|by right]].
    - symmetry. apply alter_same. intros x. rewrite Hb. intros [= <-]. apply uploaded_id. cbn. eapply upload_rejected; [lia|exact H2|exact El].
    - split; [done|]. intros (b & Hb' & Hle). rewrite Hb in Hb'. injection Hb' as <-. cbn [b_size] in Hle. unfold wrap in El. lia. }
  rewrite Hc. cbn [mbind option_bind]. eexists _, true. split; [done|].
  pose proof (glBufferSubData_spec id offset data c content H1 Ho ltac:(lia)) as Hg.
  set (c' := glBufferSubData _ _ _ _) in *. set (d' := with_context _ d). assert (context d' = Some c') as Hc' by done.
  split; [|split; [|split; [|by left]]].
  - exists c'. split; [done|by apply table_ok_context| |done].
    intros k e Hk. destruct (He k e Hk) as (x & G1 & G2). unfold entry_ok. rewrite Hg.
    destruct (decide (e.1 = id)) as [Heq|Hne].
    + rewrite Heq in *. simplify_eq. exists (upload_spec offset data content).
      by rewrite lookup_insert_eq, length_upload_spec by lia.
    + exists x. by rewrite lookup_insert_ne by done.
  - apply map_eq. intros k. rewrite (contents_lookup _ _ _ Hc'). cbn [buffers d' with_context]. rewrite Hg. destruct (decide (k = h)) as [->|Hk].
    + rewrite lookup_alter_eq, Hb, E. cbn. by rewrite lookup_insert_eq.
    + rewrite lookup_alter_ne, (contents_lookup _ _ _ Hc) by done. destruct (buffers d !! k) as [e|] eqn:Ek; [|done]. cbn.
      rewrite lookup_insert_ne; [done|]. intros Heq. apply Hk. by eapply Hd.
  - split; [|done]. intros _. exists (mkBuffer n content). split; [done|exact El].
Qed.

(** One allowed operation: it returns, keeps the invariant and does what it means. *)
Lemma gl_exec_ok op d c : ginv d c -> allowed d op ->
  exists d' a, exec op d = Some (d', a) /\ (exists c', ginv d' c') /\ spec op (contents d) a (contents d').
Proof.
  intros Hi Ha. pose proof Hi as [Hc Ht He Hd]. pose proof (exec_table op d) as Htab.
  assert (forall d' a c', exec op d = Some (d', a) -> context d' = Some c' -> buffers d' = buffers d ->
    gl_content c' = gl_content c -> (forall m, spec op m a m) ->
    exists d' a, exec op d = Some (d', a) /\ (exists c', ginv d' c') /\ spec op (contents d) a (contents d')) as Hsame.
  { intros d' a c' He' Hc' Hb Hg Hs. exists d', a. split; [done|]. split.
    - exists c'. eapply ginv_same; try done. by eapply Htab.
    - by rewrite (contents_same d d' c c'). }
  destruct op as [desc|w h|sz|col| |desc|h|h offset data|desc|h|h data|image|h|desc|h|sg|h|h|h| |h]; cbn [exec allowed] in *; unfold nothing, handle, flag in *.
  - by eapply Hsame.
  - by eapply Hsame.
  - unfold beginFrame in *. rewrite Hc in *. by eapply Hsame.
  - unfold clearCurrentFrame in *. rewrite Hc in *. eapply Hsame; try done. apply gl_clear.
  - unfold presentFrame in *. rewrite Hc in *. eapply Hsame; try done. apply gl_swap.
  - eexists _, _. split; [done|]. eapply createBuffer_ginv; [done..|]. by eapply Htab.
  - eexists _, _. split; [done|]. eapply destroyBuffer_ginv; [done..|]. by eapply Htab.
  - destruct (uploadBuffer_ginv d c h offset data Hi Ha) as (d' & b & Hu & Hg & Hs). exists d', (AFlag b). by rewrite Hu.
  - unfold createImage in *. rewrite Hc in *. pose proof (gl_gen_texture (id_width desc) (id_height desc) c) as Hg.
    destruct (glGenTexture _ _ c). by eapply Hsame.
  - unfold destroyImage in *. destruct (images d !! h) as [[[id w] k]|]; [|by eapply Hsame].
    rewrite Hc in *. eapply Hsame; try done. apply gl_delete_texture.
  - unfold uploadImage in *. destruct (images d !! h) as [[[id w] k]|] eqn:E; [|by eapply Hsame].
    rewrite Hc in *. cbn [mbind option_bind] in *. rewrite (proj2 (Z.ltb_ge _ _)) in * by (by eapply Ha).
    eapply Hsame; try done. apply gl_tex_sub.
  - unfold createImageView in *. destruct (images d !! image); by eapply Hsame.
  - by eapply Hsame.
  - unfold createSampler in *. rewrite Hc in *. pose proof (gl_gen_sampler (sd_nearest desc) (sd_repeat desc) c) as Hg.
    destruct (glGenSampler _ _ c). by eapply Hsame.
  - unfold destroySampler in *. destruct (samplers d !! h) as [id|]; [|by eapply Hsame].
    rewrite Hc in *. eapply Hsame; try done. apply gl_delete_sampler.
  - by eapply Hsame.
  - by eapply Hsame.
  - unfold waitFence in *. destruct (fences d !! h); by eapply Hsame.
  - unfold resetFence in *. destruct (fences d !! h); by eapply Hsame.
  - by eapply Hsame.
  - by eapply Hsame.
Qed.

Lemma session_ginv d d' c : rtc gstep d d' -> ginv d c -> exists c', ginv d' c'.
Proof.
  intros H. revert c. induction H as [|d d1 d2 (op & a & Ha & He) _ IH]; intros c Hi; [by exists c|].
  destruct (gl_exec_ok op d c Hi Ha) as (d' & a' & He' & (c' & Hi') & _). rewrite He in He'. injection He' as <- <-. by apply (IH c').
Qed.
Lemma started_ginv d : initialize true true initial = (d, true) -> exists c, ginv d c.
Proof.
  intros [= <-]. exists gl_new. split; [done| |apply map_Forall_empty|done].
  split; cbn; try lia; intros h x H; by rewrite lookup_empty in H.
Qed.

(** ** Theorems *)

(** C28: the OpenGL back end implements a map from buffer handles to sizes and contents:
    after one successful [initialize] and any operations but [shutdown], each with 64-bit
    sizes and offsets and every image upload with four bytes for each pixel of its image,
    the next such operation returns. A new buffer is answered by a positive handle that
    was not in the map, which then has the size asked for and contents of that length,
    or none when GL could not allocate them. An upload answers success exactly for a
    handle of the map whose size is not below the 64-bit sum of offset and length; it
    replaces the bytes at its offset when the end is within the contents and changes
    nothing otherwise, even where the sum wraps and success is answered. A destroyed
    handle leaves the map, and no other operation changes it. *)
Theorem gl_buffers_refine d0 d op :
  initialize true true initial = (d0, true) -> rtc gstep d0 d -> allowed d op ->
  exists d' a, exec op d = Some (d', a) /\ spec op (contents d) a (contents d').
Proof.
  intros H0 Hr Ha. destruct (started_ginv _ H0) as [c0 Hi0]. destruct (session_ginv _ _ _ Hr Hi0) as [c Hi].
  destruct (gl_exec_ok op d c Hi Ha) as (d' & a & He & _ & Hs). by exists d', a.
Qed.
(** After [shutdown] the tables still answer, and an upload calls GL without a context. *)
Lemma upload_after_shutdown d h id size offset data :
  buffers d !! h = Some (id, size) -> u64 (offset + Z.of_nat (length data)) <= size ->
  uploadBuffer h offset data (shutdown d) = None.
Proof. intros H Hs. unfold uploadBuffer, shutdown. cbn. rewrite H. by rewrite (proj2 (Z.ltb_ge _ _)). Qed.

End Sessions.

(** ** A GL for the witness, and the witness *)
Record SimpleGl := mkGl { gl_next : Z; gl_buffers : gmap Z bytes }.
Definition with_name (c : SimpleGl) : SimpleGl * Z := (mkGl (gl_next c + 1) (gl_buffers c), gl_next c).
#[export] Instance SimpleGl_GL : GL SimpleGl := {
  gl_new := mkGl 1 ∅;
  glGenBuffer size c :=
    let id := fresh (dom (gl_buffers c)) in (mkGl (gl_next c) (<[id := replicate (Z.to_nat (i64 size)) 0]> (gl_buffers c)), id);
  glGenTexture _ _ := with_name;
  glGenSampler _ _ := with_name;
  glDeleteBuffer id c := mkGl (gl_next c) (delete id (gl_buffers c));
  glDeleteTexture _ c := c;
  glDeleteSampler _ c := c;
  glBufferSubData id offset data c :=
    match gl_buffers c !! id with
    | Some content =>
        if (0 <=? offset) && (offset + Z.of_nat (length data) <=? Z.of_nat (length content))
        then mkGl (gl_next c) (<[id := splice (Z.to_nat offset) data content]> (gl_buffers c)) else c
    | None => c
    end;
  glTexSubImage2D _ _ _ _ c := c;
  glClear _ c := c;
  swapWindow c := c;
  gl_content := gl_buffers
}.
#[export] Instance SimpleGl_laws : GLLaws SimpleGl.
Proof.
  split; try done.
  - intros size c. cbn. split; [apply not_elem_of_dom, is_fresh|]. eexists. split; [reflexivity|].
    rewrite length_replicate. destruct (decide (0 <= i64 size)); [left; lia|right]. by replace (Z.to_nat (i64 size)) with 0%nat by lia.
  - intros id offset data c content Hc. cbn in *. rewrite Hc. by case_match.
Qed.

Definition demo0 : t SimpleGl := (initialize true true initial).1.
Definition demo1 : t SimpleGl := (createBuffer (mkBufferDesc 4 0) demo0).1.
Lemma gl_buffers_refine_witness :
  contents demo1 = {[1 := mkBuffer 4 [0; 0; 0; 0]]} /\
  (uploadBuffer 1 (2 ^ 64 - 1) [7; 8] demo1 = Some (demo1, true)) /\
  (uploadBuffer 1 3 [7; 8] demo1 = Some (demo1, false)) /\
  exists d' a, exec (OpUploadBuffer 1 2 [7; 8]) demo1 = Some (d', a) /\
             spec (OpUploadBuffer 1 2 [7; 8]) (contents demo1) a (contents d').
Proof.
  split; [vm_compute; reflexivity|]. split; [vm_compute; reflexivity|]. split; [vm_compute; reflexivity|].
  apply (gl_buffers_refine demo0); [reflexivity| |split; [discriminate|reflexivity]].
  apply (rtc_l _ _ demo1); [|apply rtc_refl]. exists (OpCreateBuffer (mkBufferDesc 4 0)), (AHandle 1). split; [|reflexivity].
  split; [discriminate|reflexivity].
Defined.

(** ** The contract *)
Section Contract.
Context {C : Type} `{HGL : GL C}.
Notation t := (OpenGLDevice.t C).

Definition table (k : Kind) (d : t) : gset Z :=
  match k with
  | KBuffer => dom (buffers d) | KImage => dom (images d) | KView => dom (views d) | KSampler => dom (samplers d)
  | KShader | KPipeline => ∅ | KFence => dom (fences d) | KSemaphore => dom (semaphores d)
  end.
Definition live (d : t) : Live := ⋃ ((fun k => set_map (pair k) (table k d)) <$> all_kinds).
Lemma elem_of_live k h d : (k, h) ∈ live d <-> h ∈ table k d.
Proof. apply (elem_of_kinds (fun k => table k d)). Qed.

(** [destroyShader] and [destroyPipeline] do nothing. *)
Definition destroy (k : Kind) (h : Z) (d : t) : t :=
  match k with
  | KBuffer => destroyBuffer h d | KImage => destroyImage h d | KView => destroyImageView h d
  | KSampler => destroySampler h d | KShader | KPipeline => d | KFence => destroyFence h d | KSemaphore => destroySemaphore h d
  end.

#[export] Instance GlGraphicsDevice : GraphicsDevice t := {
  gd_createBuffer desc d := Some (createBuffer desc d);
  gd_createImage desc d := Some (createImage desc d);
  gd_createImageView image d := Some (createImageView image d);
  gd_destroy k h d := Some (destroy k h d);
  gd_ok := table_ok;
  gd_live := live
}.

Lemma fresh_handle k d : table_ok d -> nextHandle d ∉ table k d.
Proof.
  intros [H0 H1 H2 H3 H4 H5 H6] H. destruct k; cbn [table] in H; try (by apply elem_of_empty in H);
    apply elem_of_dom in H as [x H]; match goal with T : forall _ _, _ -> _ |- _ => by apply T in H; lia end.
Qed.

Lemma created_fresh k d d' : table_ok d -> table_ok d' ->
  (forall j, table j d' = if decide (j = k) then {[nextHandle d]} ∪ table j d else table j d) ->
  created k d (Some (d', nextHandle d)).
Proof.
  intros Ht Ht' Htab. exists d', (nextHandle d). split; [done|]. split; [done|]. right. pose proof (tk_next _ Ht).
  split; [lia|]. change (gd_live d') with (live d'). change (gd_live d) with (live d).
  split; [intros H'%elem_of_live; exact (fresh_handle k d Ht H')|]. apply set_eq. intros [j h].
  rewrite elem_of_union, elem_of_singleton, !elem_of_live, Htab. case_decide; [subst; set_solver|]. set_solver.
Qed.
Lemma created_none k d : table_ok d -> created k d (Some (d, 0)).
Proof. intros Ht. exists d, 0. split; [done|]. split; [done|]. by left. Qed.

Lemma dom_without {A} (m : gmap Z A) h : m !! h = None -> dom m = dom m ∖ {[h]}.
Proof. intros H%not_elem_of_dom. set_solver. Qed.
Lemma destroy_table k h d j : table j (destroy k h d) = if decide (j = k) then table j d ∖ {[h]} else table j d.
Proof.
  destruct k; cbn [destroy]; unfold destroyBuffer, destroyImage, destroySampler.
  all: try match goal with |- context [match ?m !! ?y with _ => _ end] => destruct (m !! y) as [x|] eqn:E end.
  all: repeat match goal with p : (_ * _)%type |- _ => destruct p end.
  all: destruct j; cbn; rewrite ?dom_delete_L; try done; first [set_solver | by apply dom_without].
Qed.

#[export] Instance GlGraphicsDeviceLaws : GraphicsDeviceLaws t.
Proof.
  split.
  - intros desc d Ht. pose proof (exec_table (OpCreateBuffer desc) d _ _ Ht eq_refl) as Ht'. cbn [exec gd_createBuffer GlGraphicsDevice] in *.
    unfold createBuffer in *. destruct (context d) as [c|]; [|by apply created_none].
    destruct (glGenBuffer _ _) as [c' id]. apply created_fresh; [done..|].
    intros []; cbn; rewrite ?dom_insert_L; done.
  - intros desc d Ht. pose proof (exec_table (OpCreateImage desc) d _ _ Ht eq_refl) as Ht'. cbn [exec gd_createImage GlGraphicsDevice] in *.
    unfold createImage in *. destruct (context d) as [c|]; [|by apply created_none].
    destruct (glGenTexture _ _ _) as [c' id]. apply created_fresh; [done..|].
    intros []; cbn; rewrite ?dom_insert_L; done.
  - intros image d Ht. pose proof (exec_table (OpCreateView image) d _ _ Ht eq_refl) as Ht'. cbn [exec gd_createImageView GlGraphicsDevice] in *.
    unfold createImageView in *. destruct (images d !! image); [|by apply created_none]. apply created_fresh; [done..|].
    intros []; cbn; rewrite ?dom_insert_L; done.
  - intros k h d Ht _. eexists. split; [reflexivity|]. split.
    + destruct k; [eapply (exec_table (OpDestroyBuffer h))|eapply (exec_table (OpDestroyImage h))|eapply (exec_table (OpDestroyView h))|
        eapply (exec_table (OpDestroySampler h))| | |eapply (exec_table (OpDestroyFence h))|eapply (exec_table (OpDestroySemaphore h))]; done.
    + change (live (destroy k h d) = live d ∖ {[(k, h)]}). apply set_eq. intros [j x].
      rewrite elem_of_difference, elem_of_singleton, !elem_of_live, destroy_table. case_decide; subst; set_solver.
Qed.
End Contract.
