(* ===== verification/VulkanContract.v ===== *)
(** * The Vulkan back end keeps the contract of a device

    [VulkanOn w] is the device with the driver [w]; in the states of a session
    ([sinv]) it satisfies [GraphicsDeviceLaws].  Its own swapchain views are not
    counted among the resources it has given out. *)
From S2P Require Import Prelude Gal Vulkan VulkanRules VulkanSession.
Import Gal VulkanDevice.

Definition VulkanOn (w : World) : Type := Vk.
Definition ran {A} (m : V A) (s : Vk) : option (Vk * A) :=
  match m s with Done a s' => Some (s', a) | Stopped _ => None end.

(** The handles given out, by kind. *)
Definition given (sw : list Z) (t : Tables) (k : Kind) : gset Z :=
  match k with
  | KBuffer => dom (buffers t) | KImage => dom (images t) | KView => dom (views t) ∖ list_to_set sw
  | KSampler => dom (samplers t) | KShader => dom (shaders t) | KPipeline => dom (pipelines t)
  | KFence => dom (fences t) | KSemaphore => dom (semaphores t)
  end.
Definition live (s : Vk) : Live :=
  ⋃ ((fun k => set_map (pair k) (given (swapViewHandles (chain s)) (tabs s) k)) <$> all_kinds).

Definition destroy_kind (k : Kind) (h : Z) : V () :=
  match k with
  | KBuffer => destroyBuffer h | KImage => destroyImage h | KView => destroyImageView h | KSampler => destroySampler h
  | KShader => destroyShader h | KPipeline => destroyPipeline h | KFence => destroyFence h | KSemaphore => destroySemaphore h
  end.

#[export] Instance VulkanGraphicsDevice w : GraphicsDevice (VulkanOn w) := {
  gd_createBuffer desc := ran (createBuffer w desc);
  gd_createImage desc := ran (createImage w desc);
  gd_createImageView image := ran (createImageView w image);
  gd_destroy k h s := fst <$> ran (destroy_kind k h) s;
  gd_ok := sinv;
  gd_live := live
}.

Lemma elem_of_given k h s : (k, h) ∈ live s <-> h ∈ given (swapViewHandles (chain s)) (tabs s) k.
Proof. apply elem_of_kinds. Qed.

Lemma given_bump sw t k : given sw (bump t) k = given sw t k.
Proof. by destruct k. Qed.

Section Slots.
Context {A : Type} (S : Slot A) (HS : slot_ok S) (k : Kind).

(** The slot is the table of this kind and of no other. *)
Definition slot_kind : Prop :=
  forall sw t m j, given sw (sl_put S m t) j =
    if decide (j = k) then (if decide (k = KView) then dom m ∖ list_to_set sw else dom m) else given sw t j.
Definition slot_given : Prop :=
  forall sw t, given sw t k = if decide (k = KView) then dom (sl_get S t) ∖ list_to_set sw else dom (sl_get S t).

Context (HK : slot_kind) (HG : slot_given).

Lemma grown_created s h s' : sinv s -> sinv s' -> grown s S h s' ->
  exists d' x, Some (s', h) = Some (d', x) /\ sinv d' /\
    ((x = 0 /\ live d' = live s) \/ (x <> 0 /\ ((k, x) ∉ live s) /\ live d' = {[(k, x)]} ∪ live s)).
Proof.
  intros [Hi _] Hs' (_ & (_ & Hc & _) & He). exists s', h. split; [done|]. split; [done|].
  pose proof (to_next _ _ (vi_tabs _ Hi)) as Hn.
  assert (tabs_ok (swapViewHandles (chain s)) (tabs s)) as Ht by apply Hi. pose proof (so_keys _ HS _ _ Ht) as Hkeys.
  destruct He as [[-> Ht']|(-> & x & Ht')].
  { left. split; [done|]. unfold live. by rewrite Hc, Ht'. }
  right. split; [lia|].
  assert (nextHandle (tabs s) ∉ dom (sl_get S (tabs s))) as Hfresh.
  { apply not_elem_of_dom. by apply keys_free. }
  assert (nextHandle (tabs s) ∉ swapViewHandles (chain s)) as Hsw.
  { intros H. apply (to_sw _ _ Ht) in H as [v H]. apply (to_views _ _ Ht) in H. lia. }
  split.
  - intros H%elem_of_given. rewrite HG in H. case_decide; set_solver.
  - apply set_eq. intros [j y]. rewrite elem_of_union, elem_of_singleton, !elem_of_given, Hc, Ht'.
    rewrite given_bump, HK. destruct (decide (j = k)) as [->|Hj].
    + rewrite HG, dom_insert_L. case_decide; [|set_solver]. rewrite !elem_of_difference, elem_of_union, elem_of_singleton, elem_of_list_to_set.
      split; [intros [[->|H1] H2]; [by left|by right]|]. intros [[= ->]|[H1 H2]]; [by split; [left|]|by split; [right|]].
    + split; [by right|]. intros [[= -> ->]|H]; done.
Qed.

Lemma shrunk_destroyed s h s' : sinv s' -> shrunk s S h s' ->
  exists d', Some s' = Some d' /\ sinv d' /\ live d' = live s ∖ {[(k, h)]}.
Proof.
  intros Hs' (_ & (_ & Hc & _) & Ht). exists s'. split; [done|]. split; [done|]. apply set_eq. intros [j y].
  rewrite elem_of_difference, elem_of_singleton, !elem_of_given, Hc, Ht. destruct (decide (sl_get S (tabs s) !! h = None)) as [Hn|Hn].
  - apply not_elem_of_dom in Hn. split; [|by intros []]. intros Hy. split; [done|]. intros [= -> ->]. rewrite HG in Hy.
    case_decide; set_solver.
  - rewrite HK. destruct (decide (j = k)) as [->|Hj]; [|set_solver]. rewrite HG, dom_delete_L. case_decide; set_solver.
Qed.
End Slots.

Ltac kind_tac := intros ? ?; first [by intros ? [] | done].
Lemma BufferSlot_kind : slot_kind BufferSlot KBuffer. Proof. kind_tac. Qed.
Lemma ImageSlot_kind : slot_kind ImageSlot KImage. Proof. kind_tac. Qed.
Lemma ViewSlot_kind : slot_kind ViewSlot KView. Proof. kind_tac. Qed.
Lemma SamplerSlot_kind : slot_kind SamplerSlot KSampler. Proof. kind_tac. Qed.
Lemma ShaderSlot_kind : slot_kind ShaderSlot KShader. Proof. kind_tac. Qed.
Lemma PipelineSlot_kind : slot_kind PipelineSlot KPipeline. Proof. kind_tac. Qed.
Lemma FenceSlot_kind : slot_kind FenceSlot KFence. Proof. kind_tac. Qed.
Lemma SemaphoreSlot_kind : slot_kind SemaphoreSlot KSemaphore. Proof. kind_tac. Qed.

Lemma contract_create {A} (S : Slot A) (HS : slot_ok S) k (m : V Z) s :
  slot_kind S k -> slot_given S k -> wp m (grown s S) s -> wp m (fun _ s' => sinv s') s -> sinv s ->
  exists d' h, ran m s = Some (d', h) /\ sinv d' /\
    ((h = 0 /\ live d' = live s) \/ (h <> 0 /\ ((k, h) ∉ live s) /\ live d' = {[(k, h)]} ∪ live s)).
Proof.
  unfold wp, ran. intros HK HG Hg Hs' Hs. destruct (m s) as [h s'|]; [|done].
  exact (grown_created S HS k HK HG s h s' Hs Hs' Hg).
Qed.
Lemma contract_destroy {A} (S : Slot A) (HS : slot_ok S) k h (m : V ()) s :
  slot_kind S k -> slot_given S k -> wp m (fun _ => shrunk s S h) s -> wp m (fun _ s' => sinv s') s ->
  exists d', fst <$> ran m s = Some d' /\ sinv d' /\ live d' = live s ∖ {[(k, h)]}.
Proof. unfold wp, ran. intros HK HG Hg Hs'. destruct (m s) as [[] s'|]; [|done]. exact (shrunk_destroyed S HS k HK HG s h s' Hs' Hg). Qed.

Lemma exec_forget {A} w (m : V A) op s : exec w op = forget m -> world_ok w -> sinv s -> allowed s op -> wp m (fun _ s' => sinv s') s.
Proof.
  intros He Hw Hs Ha. pose proof (exec_ok w op s Hw Hs Ha) as H. rewrite He in H. unfold wp, forget, mbind, V_bind in *. by destruct (m s).
Qed.

#[export] Instance VulkanGraphicsDeviceLaws w (Hw : world_ok w) : GraphicsDeviceLaws (VulkanOn w).
Proof.
  split.
  - intros desc s Hs. apply (contract_create BufferSlot BufferSlot_ok); [apply BufferSlot_kind|done| | |done].
    + by apply createBuffer_ok; [|apply Hs].
    + by apply (exec_forget w _ (OpCreateBuffer desc)).
  - intros desc s Hs. apply (contract_create ImageSlot ImageSlot_ok); [apply ImageSlot_kind|done| | |done].
    + by apply createImage_ok, Hs.
    + by apply (exec_forget w _ (OpCreateImage desc)).
  - intros image s Hs. apply (contract_create ViewSlot ViewSlot_ok); [apply ViewSlot_kind|done| | |done].
    + by apply createImageView_ok, Hs.
    + by apply (exec_forget w _ (OpCreateImageView image)).
  - intros k h s Hs Hk. destruct k; cbn [gd_destroy VulkanGraphicsDevice destroy_kind].
    + apply (contract_destroy BufferSlot BufferSlot_ok); [apply BufferSlot_kind|done|by apply destroyBuffer_ok, Hs|by apply (exec_ok w (OpDestroyBuffer h))].
    + apply (contract_destroy ImageSlot ImageSlot_ok); [apply ImageSlot_kind|done|by apply destroyImage_ok, Hs|by apply (exec_ok w (OpDestroyImage h))].
    + assert (h ∉ swapViewHandles (chain s)) as Hh.
      { destruct Hk as [|H%elem_of_given]; [done|]. cbn in H. set_solver. }
      apply (contract_destroy ViewSlot ViewSlot_ok); [apply ViewSlot_kind|done|by apply destroyImageView_ok; [apply Hs|]|].
      by apply (exec_ok w (OpDestroyImageView h)).
    + apply (contract_destroy SamplerSlot SamplerSlot_ok); [apply SamplerSlot_kind|done|by apply destroySampler_ok, Hs|by apply (exec_ok w (OpDestroySampler h))].
    + apply (contract_destroy ShaderSlot ShaderSlot_ok); [apply ShaderSlot_kind|done|by apply destroyShader_ok, Hs|by apply (exec_ok w (OpDestroyShader h))].
    + apply (contract_destroy PipelineSlot PipelineSlot_ok); [apply PipelineSlot_kind|done|by apply destroyPipeline_ok, Hs|by apply (exec_ok w (OpDestroyPipeline h))].
    + apply (contract_destroy FenceSlot FenceSlot_ok); [apply FenceSlot_kind|done|by apply destroyFence_ok, Hs|by apply (exec_ok w (OpDestroyFence h))].
    + apply (contract_destroy SemaphoreSlot SemaphoreSlot_ok); [apply SemaphoreSlot_kind|done|by apply destroySemaphore_ok, Hs|by apply (exec_ok w (OpDestroySemaphore h))].
Qed.
