(* ===== verification/Gnm.v ===== *)
(** * Graphics command processing of the guest

    [sce/gnm/]: the registry that maps guest ids to device resources, the state
    that draws use, the queue of recorded commands, the shader container and the
    exports of libSceGnm.  The registry is stated and proved against the contract
    [GraphicsDevice]; its witnesses run on the OpenGL and the Vulkan back end. *)
From S2P Require Import Prelude Gal VulkanSession VulkanContract OpenGl.
Import Gal.

(** ** GnmTypes.cpp *)
Module GnmTypes.
Definition kGnmInvalidId : Z := 0.

Definition kGnmTextureFormatB8G8R8A8Unorm : Z := 0x01.
Definition kGnmTextureFormatB8G8R8A8Srgb : Z := 0x03.
Definition kGnmTextureFormatR8G8B8A8Unorm : Z := 0x0A.
Definition kGnmTextureFormatR8G8B8A8Srgb : Z := 0x0C.
Definition kGnmTextureFormatR16G16B16A16Float : Z := 0x12.
Definition kGnmTextureFormatR32G32B32A32Float : Z := 0x18.
Definition kGnmTextureFormatD32Float : Z := 0x30.

Definition gnmTextureFormatToGal (f : Z) : Format :=
  if f =? kGnmTextureFormatB8G8R8A8Unorm then B8G8R8A8_Unorm
  else if f =? kGnmTextureFormatB8G8R8A8Srgb then B8G8R8A8_Srgb
  else if f =? kGnmTextureFormatR8G8B8A8Unorm then R8G8B8A8_Unorm
  else if f =? kGnmTextureFormatR8G8B8A8Srgb then R8G8B8A8_Srgb
  else if f =? kGnmTextureFormatR16G16B16A16Float then R16G16B16A16_Sfloat
  else if f =? kGnmTextureFormatR32G32B32A32Float then R32G32B32A32_Sfloat
  else if f =? kGnmTextureFormatD32Float then D32_Sfloat
  else Unknown.
End GnmTypes.
Import GnmTypes.

(** ** GnmResourceRegistry.cpp *)
Module GnmResourceRegistry.

Record BufferEntry := mkBufferEntry { be_gal : Z; be_size : Z; be_guestAddr : Z }.
Record TextureEntry := mkTextureEntry { te_image : Z; te_view : Z; te_width : Z; te_height : Z; te_format : Format }.
Record RenderTargetEntry := mkRenderTargetEntry { re_image : Z; re_view : Z; re_width : Z; re_height : Z; re_format : Format }.

(** [m_device] says whether a device is bound. *)
Record t := mkRegistry {
  m_device : bool;
  m_nextId : Z;
  m_buffers : gmap Z BufferEntry;
  m_textures : gmap Z TextureEntry;
  m_renderTargets : gmap Z RenderTargetEntry;
  m_vs : gmap Z Z;
  m_ps : gmap Z Z;
  m_pipelines : gmap Z Z
}.
Definition initial : t := mkRegistry false 1 ∅ ∅ ∅ ∅ ∅ ∅.

Definition with_buffers m (r : t) : t :=
  mkRegistry (m_device r) (m_nextId r) m (m_textures r) (m_renderTargets r) (m_vs r) (m_ps r) (m_pipelines r).
Definition with_textures m (r : t) : t :=
  mkRegistry (m_device r) (m_nextId r) (m_buffers r) m (m_renderTargets r) (m_vs r) (m_ps r) (m_pipelines r).
Definition with_renderTargets m (r : t) : t :=
  mkRegistry (m_device r) (m_nextId r) (m_buffers r) (m_textures r) m (m_vs r) (m_ps r) (m_pipelines r).
Definition with_vs m (r : t) : t :=
  mkRegistry (m_device r) (m_nextId r) (m_buffers r) (m_textures r) (m_renderTargets r) m (m_ps r) (m_pipelines r).
Definition with_ps m (r : t) : t :=
  mkRegistry (m_device r) (m_nextId r) (m_buffers r) (m_textures r) (m_renderTargets r) (m_vs r) m (m_pipelines r).
Definition with_pipelines m (r : t) : t :=
  mkRegistry (m_device r) (m_nextId r) (m_buffers r) (m_textures r) (m_renderTargets r) (m_vs r) (m_ps r) m.
(** [m_nextId++] on 32 bits. *)
Definition bump (r : t) : t :=
  mkRegistry (m_device r) (u32 (m_nextId r + 1)) (m_buffers r) (m_textures r) (m_renderTargets r) (m_vs r) (m_ps r) (m_pipelines r).
Definition no_entries (r : t) : t := mkRegistry (m_device r) (m_nextId r) ∅ ∅ ∅ ∅ ∅ ∅.

Definition bindDevice (dev : bool) (r : t) : t :=
  mkRegistry dev (m_nextId r) (m_buffers r) (m_textures r) (m_renderTargets r) (m_vs r) (m_ps r) (m_pipelines r).

Definition buffer (id : Z) (r : t) : option BufferEntry := m_buffers r !! id.
Definition texture (id : Z) (r : t) : option TextureEntry := m_textures r !! id.
Definition renderTarget (id : Z) (r : t) : option RenderTargetEntry := m_renderTargets r !! id.
Definition vsShader (id : Z) (r : t) : Z := default 0 (m_vs r !! id).
Definition psShader (id : Z) (r : t) : Z := default 0 (m_ps r !! id).
Definition pipeline (id : Z) (r : t) : Z := default 0 (m_pipelines r !! id).

Definition registerVsShader (gal : Z) (r : t) : t * Z := (bump (with_vs (<[m_nextId r := gal]> (m_vs r)) r), m_nextId r).
Definition registerPsShader (gal : Z) (r : t) : t * Z := (bump (with_ps (<[m_nextId r := gal]> (m_ps r)) r), m_nextId r).
Definition registerPipeline (gal : Z) (r : t) : t * Z :=
  (bump (with_pipelines (<[m_nextId r := gal]> (m_pipelines r)) r), m_nextId r).

Definition totalResources (r : t) : nat :=
  size (m_buffers r) + size (m_textures r) + size (m_renderTargets r) + size (m_vs r) + size (m_ps r) + size (m_pipelines r).

(** What giving up an entry destroys, in order: a view before its image. *)
Definition viewed (v i : Z) : list (Kind * Z) :=
  (if v =? 0 then [] else [(KView, v)]) ++ (if i =? 0 then [] else [(KImage, i)]).
Definition of_buffer (e : BufferEntry) : list (Kind * Z) := [(KBuffer, be_gal e)].
Definition of_texture (e : TextureEntry) : list (Kind * Z) := viewed (te_view e) (te_image e).
Definition of_target (e : RenderTargetEntry) : list (Kind * Z) := viewed (re_view e) (re_image e).

(** The resources that the registry created, and those it was given; maps are
    walked in the order of [map_to_list]. *)
Definition created_list (r : t) : list (Kind * Z) :=
  flat (fun x => of_buffer x.2) (m_buffers r) ++ flat (fun x => of_texture x.2) (m_textures r) ++
  flat (fun x => of_target x.2) (m_renderTargets r).
Definition adopted_list (r : t) : list (Kind * Z) :=
  flat (fun x => [(KShader, x.2)]) (m_vs r) ++ flat (fun x => [(KShader, x.2)]) (m_ps r) ++
  flat (fun x => [(KPipeline, x.2)]) (m_pipelines r).

Section Device.
Context {D : Type} `{GraphicsDevice D}.

Fixpoint release (l : list (Kind * Z)) (d : D) : option D :=
  match l with
  | [] => Some d
  | (k, h) :: l => d ← gd_destroy k h d; release l d
  end.
Definition release_if (b : bool) (l : list (Kind * Z)) (d : D) : option D := if b then release l d else Some d.

Definition registerBuffer (size usage guestAddr : Z) (r : t) (d : D) : option (t * D * Z) :=
  if negb (m_device r) then Some (r, d, kGnmInvalidId)
  else
    '(d, gal) ← gd_createBuffer (mkBufferDesc size usage) d;
    if gal =? 0 then Some (r, d, kGnmInvalidId)
    else Some (bump (with_buffers (<[m_nextId r := mkBufferEntry gal size guestAddr]> (m_buffers r)) r), d, m_nextId r).

Definition destroyBuffer (id : Z) (r : t) (d : D) : option (t * D * bool) :=
  match m_buffers r !! id with
  | None => Some (r, d, false)
  | Some e =>
      d ← release_if (m_device r) (of_buffer e) d;
      Some (with_buffers (delete id (m_buffers r)) r, d, true)
  end.

(** The image and its view; the image is given up when the view fails. *)
Definition create_viewed (desc : ImageDesc) (d : D) : option (D * option (Z * Z)) :=
  '(d, img) ← gd_createImage desc d;
  if img =? 0 then Some (d, None)
  else
    '(d, v) ← gd_createImageView img d;
    if v =? 0 then d ← gd_destroy KImage img d; Some (d, None)
    else Some (d, Some (img, v)).

Definition registerTexture (w h : Z) (format : Format) (usage : Z) (r : t) (d : D) : option (t * D * Z) :=
  if negb (m_device r) then Some (r, d, kGnmInvalidId)
  else
    '(d, res) ← create_viewed (mkImageDesc w h 1 1 1 format usage) d;
    match res with
    | None => Some (r, d, kGnmInvalidId)
    | Some (img, v) =>
        Some (bump (with_textures (<[m_nextId r := mkTextureEntry img v w h format]> (m_textures r)) r), d, m_nextId r)
    end.

Definition destroyTexture (id : Z) (r : t) (d : D) : option (t * D * bool) :=
  match m_textures r !! id with
  | None => Some (r, d, false)
  | Some e =>
      d ← release_if (m_device r) (of_texture e) d;
      Some (with_textures (delete id (m_textures r)) r, d, true)
  end.

Definition registerRenderTarget (w h : Z) (format : Format) (r : t) (d : D) : option (t * D * Z) :=
  if negb (m_device r) then Some (r, d, kGnmInvalidId)
  else
    '(d, res) ← create_viewed (mkImageDesc w h 1 1 1 format (Z.lor Color Transfer)) d;
    match res with
    | None => Some (r, d, kGnmInvalidId)
    | Some (img, v) =>
        Some (bump (with_renderTargets (<[m_nextId r := mkRenderTargetEntry img v w h format]> (m_renderTargets r)) r),
              d, m_nextId r)
    end.

Definition destroyRenderTarget (id : Z) (r : t) (d : D) : option (t * D * bool) :=
  match m_renderTargets r !! id with
  | None => Some (r, d, false)
  | Some e =>
      d ← release_if (m_device r) (of_target e) d;
      Some (with_renderTargets (delete id (m_renderTargets r)) r, d, true)
  end.

Definition clear (r : t) (d : D) : option (t * D) :=
  d ← release_if (m_device r) (created_list r ++ adopted_list r) d;
  Some (no_entries r, d).

End Device.
End GnmResourceRegistry.

(** ** GnmState.cpp

    [graphics::IndexType] is named by the header and declared nowhere. *)
Module GnmState.
Section State.
Context {IndexType : Type} (Uint16 : IndexType).

Record t := mkState {
  m_pipeline : Z;
  m_rt : Z;
  m_vbuf : Z;
  m_vbufOff : Z;
  m_ibuf : Z;
  m_ibufOff : Z;
  m_indexType : IndexType;
  m_viewport : Viewport;
  m_scissor : Scissor;
  m_clear : ClearColor
}.
Definition default_viewport : Viewport := mkViewport 0 0 0 0 0 one_f.
Definition default_scissor : Scissor := mkScissor 0 0 0 0.
Definition default_clear : ClearColor := mkClear 0 0 0 one_f.
Definition initial : t := mkState kGnmInvalidId kGnmInvalidId kGnmInvalidId 0 kGnmInvalidId 0 Uint16 default_viewport default_scissor
  default_clear.

Definition setPipeline (id : Z) (s : t) : t :=
  mkState id (m_rt s) (m_vbuf s) (m_vbufOff s) (m_ibuf s) (m_ibufOff s) (m_indexType s) (m_viewport s) (m_scissor s) (m_clear s).
Definition setRenderTarget (id : Z) (s : t) : t :=
  mkState (m_pipeline s) id (m_vbuf s) (m_vbufOff s) (m_ibuf s) (m_ibufOff s) (m_indexType s) (m_viewport s) (m_scissor s) (m_clear s).
Definition setVertexBuffer (id offset : Z) (s : t) : t :=
  mkState (m_pipeline s) (m_rt s) id offset (m_ibuf s) (m_ibufOff s) (m_indexType s) (m_viewport s) (m_scissor s) (m_clear s).
Definition setIndexBuffer (id offset : Z) (type : IndexType) (s : t) : t :=
  mkState (m_pipeline s) (m_rt s) (m_vbuf s) (m_vbufOff s) id offset type (m_viewport s) (m_scissor s) (m_clear s).
Definition setViewport (vp : Viewport) (s : t) : t :=
  mkState (m_pipeline s) (m_rt s) (m_vbuf s) (m_vbufOff s) (m_ibuf s) (m_ibufOff s) (m_indexType s) vp (m_scissor s) (m_clear s).
Definition setScissor (sc : Scissor) (s : t) : t :=
  mkState (m_pipeline s) (m_rt s) (m_vbuf s) (m_vbufOff s) (m_ibuf s) (m_ibufOff s) (m_indexType s) (m_viewport s) sc (m_clear s).
Definition setClearColor (c : ClearColor) (s : t) : t :=
  mkState (m_pipeline s) (m_rt s) (m_vbuf s) (m_vbufOff s) (m_ibuf s) (m_ibufOff s) (m_indexType s) (m_viewport s) (m_scissor s) c.
Definition reset (_ : t) : t :=
  mkState kGnmInvalidId kGnmInvalidId kGnmInvalidId 0 kGnmInvalidId 0 Uint16 default_viewport default_scissor (mkClear 0 0 0 one_f).

End State.
End GnmState.

(** ** GnmCommandRecorder.cpp

    [graphics::RecordedDraw] is named by the header and declared nowhere. *)
Module GnmCommandRecorder.
Section Recorder.
Context {RecordedDraw : Type}.

Record t := mkRecorder { m_commands : list RecordedDraw; m_frameRequested : bool }.
Definition initial : t := mkRecorder [] false.
Definition record (cmd : RecordedDraw) (s : t) : t := mkRecorder (m_commands s ++ [cmd]) (m_frameRequested s).
Definition drain (s : t) : t * list RecordedDraw := (mkRecorder [] (m_frameRequested s), m_commands s).
Definition pending (s : t) : nat := length (m_commands s).
Definition requestFrame (s : t) : t := mkRecorder (m_commands s) true.
Definition takeFrameRequest (s : t) : t * bool := (mkRecorder (m_commands s) false, m_frameRequested s).

End Recorder.
End GnmCommandRecorder.

(** ** GnmShader.cpp *)
Module GnmShader.
Inductive Source := SourceUnknown | Orbis | Spirv.
Record Parsed := mkParsed { source : Source; stage : ShaderStage; payload : bytes; reason : bytes }.
Definition kSpirvMagic : Z := 0x07230203.
Definition looksLikeSpirv (p : bytes) : bool :=
  if (length p <? 4)%nat then false else field p 0 4 =? kSpirvMagic.

(** [blob] is [None] for a null pointer. *)
Definition parse (blob : option bytes) (expectedStage : ShaderStage) : Parsed * bool :=
  let too_small := (mkParsed SourceUnknown expectedStage [] (cstr "shader blob null or too small"), false) in
  match blob with
  | None => too_small
  | Some p =>
      if (length p <? 8)%nat then too_small
      else if looksLikeSpirv p then (mkParsed Spirv expectedStage p [], true)
      else
        let w0 := field p 0 4 in
        let w1 := field p 4 4 in
        (mkParsed Orbis expectedStage []
           (cstr "ORBIS shader binary detected but GCN-to-SPIR-V translation is not implemented; header words 0x" ++
            to_string w0 ++ cstr " / 0x" ++ to_string w1), false)
  end.
End GnmShader.

(** ** SceGnm.cpp *)
Module SceGnm.
Definition kSceGnmOk : Z := 0.
Definition kSceGnmErrorInvalidArg : Z := i32 0x80020005.
Record GnmState := mkGnmState { initialized : bool; currentClear : ClearColor; currentPipeline : Z; currentVertexBuffer : Z }.
Definition sceGnmInit (g : GnmState) : GnmState * Z :=
  if initialized g then (g, kSceGnmOk)
  else (mkGnmState true (currentClear g) (currentPipeline g) (currentVertexBuffer g), kSceGnmOk).
Definition sceGnmTerminate (g : GnmState) : GnmState * Z :=
  (mkGnmState false (currentClear g) (currentPipeline g) (currentVertexBuffer g), kSceGnmOk).
Definition sceGnmSubmitDone : Z := kSceGnmOk.
Definition sceGnmDrawIndex : Z := kSceGnmErrorInvalidArg.
Definition sceGnmDrawIndexAuto : Z := kSceGnmErrorInvalidArg.
Definition sceGnmDrawInitDefaultHardwareState (g : GnmState) : GnmState * Z :=
  (mkGnmState (initialized g) (mkClear 0 0 0 one_f) (currentPipeline g) (currentVertexBuffer g), kSceGnmOk).
End SceGnm.

(** ** The registry on a device that keeps its contract *)
Import GnmResourceRegistry.

Inductive Op :=
  | OpRegisterBuffer (size usage guestAddr : Z) | OpDestroyBuffer (id : Z)
  | OpRegisterTexture (w h : Z) (format : Format) (usage : Z) | OpDestroyTexture (id : Z)
  | OpRegisterTarget (w h : Z) (format : Format) | OpDestroyTarget (id : Z)
  | OpRegisterVs (gal : Z) | OpRegisterPs (gal : Z) | OpRegisterPipeline (gal : Z).
Definition registers (op : Op) : bool :=
  match op with OpDestroyBuffer _ | OpDestroyTexture _ | OpDestroyTarget _ => false | _ => true end.

(** The resources that the registry created and has not given up. *)
Definition created_set (r : t) : Live := list_to_set (created_list r).
Definition adopted_set (r : t) : Live := list_to_set (adopted_list r).

Section Registry.
Context {D : Type} `{GD : GraphicsDevice D} `{!GraphicsDeviceLaws D}.

Definition exec (op : Op) (r : t) (d : D) : option (t * D) :=
  match op with
  | OpRegisterBuffer size usage addr => fst <$> registerBuffer size usage addr r d
  | OpDestroyBuffer id => fst <$> destroyBuffer id r d
  | OpRegisterTexture w h format usage => fst <$> registerTexture w h format usage r d
  | OpDestroyTexture id => fst <$> destroyTexture id r d
  | OpRegisterTarget w h format => fst <$> registerRenderTarget w h format r d
  | OpDestroyTarget id => fst <$> destroyRenderTarget id r d
  | OpRegisterVs gal => Some ((registerVsShader gal r).1, d)
  | OpRegisterPs gal => Some ((registerPsShader gal r).1, d)
  | OpRegisterPipeline gal => Some ((registerPipeline gal r).1, d)
  end.

(** The last id is not handed out; then the counter would wrap to the invalid id. *)
Definition allowed (r : t) (op : Op) : Prop := registers op = true -> m_nextId r < 2 ^ 32 - 1.

(** Steps of a session: the registry, and others using the same device, who leave
    the registry's resources alone. *)
Inductive rstep : t * D -> t * D -> Prop :=
  | rstep_op op r d r' d' : allowed r op -> exec op r d = Some (r', d') -> rstep (r, d) (r', d')
  | rstep_others r d d' : gd_ok d' -> created_set r ⊆ gd_live d' -> rstep (r, d) (r, d').

Record rinv (r : t) (d : D) : Prop := mkRinv {
  ri_bound : m_device r = true;
  ri_ok : gd_ok d;
  ri_next : 0 < m_nextId r < 2 ^ 32;
  ri_buffers : forall id e, m_buffers r !! id = Some e -> 0 < id < m_nextId r;
  ri_textures : forall id e, m_textures r !! id = Some e -> 0 < id < m_nextId r;
  ri_targets : forall id e, m_renderTargets r !! id = Some e -> 0 < id < m_nextId r;
  ri_nodup : NoDup (created_list r);
  ri_live : created_set r ⊆ gd_live d
}.

(** *** Releasing *)
Lemma release_app l1 l2 d : release (l1 ++ l2) d = release l1 d ≫= release l2.
Proof. revert d. induction l1 as [|[k h] l1 IH]; intros d; [done|]. cbn. destruct (gd_destroy k h d); [apply IH|done]. Qed.

Lemma release_live l d : gd_ok d -> NoDup l -> (forall x, x ∈ l -> x ∈ gd_live d) ->
  exists d', release l d = Some d' /\ gd_ok d' /\ gd_live d' = gd_live d ∖ list_to_set l.
Proof.
  intros Hd Hl. revert d Hd. induction Hl as [|[k h] l Hn Hl IH]; intros d Hd Hin.
  { exists d. split; [done|]. split; [done|]. set_solver. }
  destruct (gd_destroy_law k h d Hd) as (d1 & H1 & Hd1 & Hv1); [right; apply Hin; by left|].
  destruct (IH d1 Hd1) as (d2 & H2 & Hd2 & Hv2).
  { intros x Hx. rewrite Hv1. assert (x <> (k, h)) by (by intros ->). assert (x ∈ gd_live d) by (apply Hin; by right). set_solver. }
  exists d2. cbn. rewrite H1. split; [done|]. split; [done|]. rewrite Hv2, Hv1. set_solver.
Qed.
(** Shaders and pipelines may be released by any handle. *)
Lemma release_adopted l d : gd_ok d -> (forall k h, (k, h) ∈ l -> k <> KView) ->
  exists d', release l d = Some d' /\ gd_ok d' /\ gd_live d' = gd_live d ∖ list_to_set l.
Proof.
  revert d. induction l as [|[k h] l IH]; intros d Hd Hk.
  { exists d. split; [done|]. split; [done|]. set_solver. }
  destruct (gd_destroy_law k h d Hd) as (d1 & H1 & Hd1 & Hv1); [left; apply (Hk k h); by left|].
  destruct (IH d1 Hd1) as (d2 & H2 & Hd2 & Hv2); [intros k' h' Hx; apply (Hk k' h'); by right|].
  exists d2. cbn. rewrite H1. split; [done|]. split; [done|]. rewrite Hv2, Hv1. set_solver.
Qed.

Lemma create_viewed_ok desc d : gd_ok d ->
  exists d' res, create_viewed desc d = Some (d', res) /\ gd_ok d' /\
    match res with
    | None => gd_live d' = gd_live d
    | Some (img, v) => img <> 0 /\ v <> 0 /\ ((KImage, img) ∉ gd_live d) /\ ((KView, v) ∉ gd_live d) /\
        gd_live d' = {[(KView, v)]} ∪ ({[(KImage, img)]} ∪ gd_live d)
    end.
Proof.
  intros Hd. unfold create_viewed. destruct (gd_createImage_law desc d Hd) as (d1 & img & -> & Hd1 & Hi). cbn [mbind option_bind].
  destruct Hi as [[-> Hl1]|(Hi & Hni & Hl1)]; [by exists d1, None|]. rewrite (proj2 (Z.eqb_neq img 0)) by done.
  destruct (gd_createImageView_law img d1 Hd1) as (d2 & v & -> & Hd2 & Hv). cbn [mbind option_bind].
  destruct Hv as [[-> Hl2]|(Hv & Hnv & Hl2)].
  - cbn. destruct (gd_destroy_law KImage img d2 Hd2) as (d3 & -> & Hd3 & Hl3); [by left|]. exists d3, None. split; [done|].
    split; [done|]. rewrite Hl3, Hl2, Hl1. set_solver.
  - rewrite (proj2 (Z.eqb_neq v 0)) by done. exists d2, (Some (img, v)). split; [done|]. split; [done|].
    rewrite Hl2, Hl1 in *. repeat split; try done. intros H. apply Hnv. set_solver.
Qed.

(** *** One operation *)
Definition keeps (r : t) (d : D) (r' : t) (d' : D) : Prop :=
  rinv r' d' /\ gd_live d' ∖ created_set r' = gd_live d ∖ created_set r.

Lemma created_set_perm r l : created_list r ≡ₚ l -> created_set r = list_to_set l.
Proof. intros H. unfold created_set. by apply list_to_set_perm_L. Qed.

(** New entries: the list grows by resources that were not live. *)
Lemma grow r d r' d' new : rinv r d -> NoDup new -> (forall x, x ∈ new -> x ∉ gd_live d) ->
  created_list r' ≡ₚ new ++ created_list r -> gd_live d' = list_to_set new ∪ gd_live d ->
  NoDup (created_list r') /\ created_set r' ⊆ gd_live d' /\ gd_live d' ∖ created_set r' = gd_live d ∖ created_set r.
Proof.
  intros Hr Hn Hf Hp Hl. pose proof (ri_live _ _ Hr) as Hs. rewrite (created_set_perm _ _ Hp), list_to_set_app_L, Hl.
  fold (created_set r). split; [|split].
  - rewrite Hp. apply NoDup_app. split; [done|]. split; [|apply Hr]. intros x Hx Hc. apply (Hf x Hx), Hs. by apply elem_of_list_to_set.
  - set_solver.
  - apply set_eq. intros x. pose proof (Hf x) as Hx. rewrite !elem_of_difference, !elem_of_union, elem_of_list_to_set. naive_solver.
Qed.
Lemma shrink r d r' d' old : rinv r d -> created_list r ≡ₚ old ++ created_list r' -> gd_live d' = gd_live d ∖ list_to_set old ->
  NoDup (created_list r') /\ created_set r' ⊆ gd_live d' /\ gd_live d' ∖ created_set r' = gd_live d ∖ created_set r.
Proof.
  intros Hr Hp Hl. pose proof (ri_live _ _ Hr) as Hs. pose proof (ri_nodup _ _ Hr) as Hn. rewrite Hp in Hn.
  apply NoDup_app in Hn as (_ & Hd & Hn). split; [done|]. revert Hs. rewrite (created_set_perm _ _ Hp), list_to_set_app_L, Hl.
  fold (created_set r'). intros Hs. assert (forall x, x ∈ old -> x ∉ created_set r') as Hd'.
  { intros x Hx Hc. apply (Hd x Hx). by apply elem_of_list_to_set in Hc. }
  split.
  - intros x Hx. apply elem_of_difference. split; [apply Hs, elem_of_union; by right|]. rewrite elem_of_list_to_set. intros Ho. by apply (Hd' x).
  - apply set_eq. intros x. rewrite !elem_of_difference, elem_of_union. clear. naive_solver.
Qed.

Lemma bump_next r : 0 < m_nextId r < 2 ^ 32 - 1 -> m_nextId (bump r) = m_nextId r + 1.
Proof. intros H. cbn. rewrite wrap_id; [done|]. unfold in_width. lia. Qed.

Ltac id_tac :=
  intros ? ? Hk; first
    [ apply lookup_insert_Some in Hk as [[<- _]|[_ Hk]]; [lia|]
    | apply lookup_delete_Some in Hk as [_ Hk]
    | idtac ];
  match goal with T : forall _ _, _ -> 0 < _ < _ |- _ => apply T in Hk; lia end.

Lemma list_buffers r id e : m_buffers r !! id = None ->
  created_list (with_buffers (<[id := e]> (m_buffers r)) r) ≡ₚ of_buffer e ++ created_list r.
Proof. intros H. unfold created_list. cbn [m_buffers m_textures m_renderTargets with_buffers]. by rewrite flat_insert. Qed.
Lemma list_textures r id e : m_textures r !! id = None ->
  created_list (with_textures (<[id := e]> (m_textures r)) r) ≡ₚ of_texture e ++ created_list r.
Proof.
  intros H. unfold created_list. cbn [m_buffers m_textures m_renderTargets with_textures].
  by rewrite flat_insert, <- app_assoc, Permutation_app_swap_app.
Qed.
Lemma list_targets r id e : m_renderTargets r !! id = None ->
  created_list (with_renderTargets (<[id := e]> (m_renderTargets r)) r) ≡ₚ of_target e ++ created_list r.
Proof.
  intros H. unfold created_list. cbn [m_buffers m_textures m_renderTargets with_renderTargets]. rewrite flat_insert by done.
  rewrite (Permutation_app_swap_app (flat _ (m_textures r))). by rewrite Permutation_app_swap_app.
Qed.

Definition ids_below (n : Z) (r : t) : Prop :=
  (forall id e, m_buffers r !! id = Some e -> 0 < id < n) /\ (forall id e, m_textures r !! id = Some e -> 0 < id < n) /\
  (forall id e, m_renderTargets r !! id = Some e -> 0 < id < n).

Lemma enter r d r0 d' new : rinv r d -> m_nextId r < 2 ^ 32 - 1 -> m_device r0 = m_device r -> m_nextId r0 = m_nextId r ->
  ids_below (m_nextId r + 1) r0 -> created_list r0 ≡ₚ new ++ created_list r -> NoDup new -> (forall x, x ∈ new -> x ∉ gd_live d) ->
  gd_ok d' -> gd_live d' = list_to_set new ∪ gd_live d -> keeps r d (bump r0) d'.
Proof.
  intros Hr Hnx Hdev Hid (Hb & Ht & Hg) Hp Hn Hf Hd Hl. pose proof (ri_next _ _ Hr).
  destruct (grow r d (bump r0) d' new Hr Hn Hf Hp Hl) as (H1 & H2 & H3).
  assert (m_nextId (bump r0) = m_nextId r + 1) as Hb'. { rewrite <- Hid. apply bump_next. rewrite Hid. lia. }
  split; [|done]. split; rewrite ?Hb'; try done; [cbn; rewrite Hdev; apply Hr|lia].
Qed.
Lemma leave r d r' d' old : rinv r d -> m_device r' = m_device r -> m_nextId r' = m_nextId r -> ids_below (m_nextId r) r' ->
  created_list r ≡ₚ old ++ created_list r' -> gd_ok d' -> gd_live d' = gd_live d ∖ list_to_set old -> keeps r d r' d'.
Proof.
  intros Hr Hdev Hid (Hb & Ht & Hg) Hp Hd Hl. destruct (shrink r d r' d' old Hr Hp Hl) as (H1 & H2 & H3).
  split; [|done]. split; rewrite ?Hid; try done; [rewrite Hdev; apply Hr|apply Hr].
Qed.
Lemma keeps_device r d d' : rinv r d -> gd_ok d' -> gd_live d' = gd_live d -> keeps r d r d'.
Proof. intros Hr Hd Hl. split; [|by rewrite Hl]. destruct Hr. split; try done. by rewrite Hl. Qed.

Lemma ids_of r d : rinv r d -> ids_below (m_nextId r) r.
Proof. by intros []. Qed.
(** Fresh: the next id is in no table. *)
Lemma next_free r n : ids_below n r -> m_buffers r !! n = None /\ m_textures r !! n = None /\ m_renderTargets r !! n = None.
Proof.
  intros (H1 & H2 & H3). split; [|split]; apply eq_None_not_Some; intros [e He]; [apply H1 in He|apply H2 in He|apply H3 in He]; lia.
Qed.

Ltac ids_tac := let Hk := fresh in let H1 := fresh in let H2 := fresh in let H3 := fresh in
  match goal with H : ids_below _ _ |- _ => destruct H as (H1 & H2 & H3) end; split; [|split]; intros ? ? Hk; cbn in Hk; first
    [ apply lookup_insert_Some in Hk as [[<- _]|[_ Hk]]; [lia|]
    | apply lookup_delete_Some in Hk as [_ Hk]
    | idtac ];
  first [apply H1 in Hk; lia | apply H2 in Hk; lia | apply H3 in Hk; lia].

Lemma register_images_ok desc r d : rinv r d ->
  exists d' res, create_viewed desc d = Some (d', res) /\
    match res with
    | None => keeps r d r d'
    | Some (img, v) => gd_ok d' /\ NoDup (viewed v img) /\ (forall x, x ∈ viewed v img -> x ∉ gd_live d) /\
        gd_live d' = list_to_set (viewed v img) ∪ gd_live d
    end.
Proof.
  intros Hr. destruct (create_viewed_ok desc d (ri_ok _ _ Hr)) as (d' & res & Hc & Hd & Hres). exists d', res. split; [done|].
  destruct res as [[img v]|]; [|by apply keeps_device]. destruct Hres as (Hi & Hv & Hni & Hnv & Hl). unfold viewed.
  rewrite (proj2 (Z.eqb_neq img 0)), (proj2 (Z.eqb_neq v 0)) by done. cbn [app]. split; [done|]. split; [|split].
  - apply NoDup_cons. split; [|apply NoDup_singleton]. by intros [=]%list_elem_of_singleton.
  - intros x [->|[->|[]%elem_of_nil]%elem_of_cons]%elem_of_cons; done.
  - rewrite Hl. set_solver.
Qed.

(** Giving up an entry releases what it holds. *)
Lemma release_entry r d r' l : rinv r d -> created_list r ≡ₚ l ++ created_list r' ->
  exists d', release_if (m_device r) l d = Some d' /\ gd_ok d' /\ gd_live d' = gd_live d ∖ list_to_set l.
Proof.
  intros Hr Hp. rewrite (ri_bound _ _ Hr). pose proof (ri_nodup _ _ Hr) as Hn. rewrite Hp in Hn. apply NoDup_app in Hn as (Hn & _).
  apply release_live; [apply Hr|done|]. intros x Hx. apply (ri_live _ _ Hr). rewrite (created_set_perm _ _ Hp).
  apply elem_of_list_to_set, elem_of_app. by left.
Qed.

Lemma registry_exec_ok op r d : rinv r d -> allowed r op -> exists r' d', exec op r d = Some (r', d') /\ keeps r d r' d'.
Proof.
  intros Hr Ha. pose proof (ids_of _ _ Hr) as Hids. pose proof (next_free _ _ Hids) as (Hnb & Hnt & Hng). pose proof (ri_next _ _ Hr).
  destruct op as [size usage addr|id|w h format usage|id|w h format|id|gal|gal|gal]; cbn [exec]; unfold allowed in Ha; cbn [registers] in Ha.
  - unfold registerBuffer. rewrite (ri_bound _ _ Hr). cbn [negb].
    destruct (gd_createBuffer_law (mkBufferDesc size usage) d (ri_ok _ _ Hr)) as (d1 & gal & -> & Hd1 & Hg). cbn [mbind option_bind].
    destruct Hg as [[-> Hl]|(Hg & Hf & Hl)]; [exists r, d1; split; [done|]; by apply keeps_device|].
    rewrite (proj2 (Z.eqb_neq gal 0)) by done. eexists _, d1. split; [reflexivity|].
    apply (enter _ _ _ _ [(KBuffer, gal)]); auto; [ids_tac|by rewrite list_buffers|apply NoDup_singleton|by intros x ->%list_elem_of_singleton|].
    rewrite Hl. set_solver.
  - unfold destroyBuffer. destruct (m_buffers r !! id) as [e|] eqn:E; [|by exists r, d; split; [|apply keeps_device; try apply Hr]].
    pose proof (list_buffers (with_buffers (delete id (m_buffers r)) r) id e (lookup_delete_eq _ _)) as Hp. cbn [m_buffers with_buffers] in Hp.
    rewrite insert_delete_id in Hp by done. replace (with_buffers _ _) with r in Hp by (by destruct r).
    destruct (release_entry r d _ _ Hr Hp) as (d' & -> & Hd & Hl). eexists _, d'. split; [reflexivity|]. eapply leave; eauto. ids_tac.
  - unfold registerTexture. rewrite (ri_bound _ _ Hr). cbn [negb].
    destruct (register_images_ok (mkImageDesc w h 1 1 1 format usage) r d Hr) as (d1 & res & -> & Hres). cbn [mbind option_bind].
    destruct res as [[img v]|]; [|by exists r, d1]. destruct Hres as (Hd1 & Hn & Hf & Hl). eexists _, d1. split; [reflexivity|].
    apply (enter _ _ _ _ (viewed v img)); auto; [ids_tac|by rewrite list_textures].
  - unfold destroyTexture. destruct (m_textures r !! id) as [e|] eqn:E; [|by exists r, d; split; [|apply keeps_device; try apply Hr]].
    pose proof (list_textures (with_textures (delete id (m_textures r)) r) id e (lookup_delete_eq _ _)) as Hp. cbn [m_textures with_textures] in Hp.
    rewrite insert_delete_id in Hp by done. replace (with_textures _ _) with r in Hp by (by destruct r).
    destruct (release_entry r d _ _ Hr Hp) as (d' & -> & Hd & Hl). eexists _, d'. split; [reflexivity|]. eapply leave; eauto. ids_tac.
  - unfold registerRenderTarget. rewrite (ri_bound _ _ Hr). cbn [negb].
    destruct (register_images_ok (mkImageDesc w h 1 1 1 format (Z.lor Color Transfer)) r d Hr) as (d1 & res & -> & Hres). cbn [mbind option_bind].
    destruct res as [[img v]|]; [|by exists r, d1]. destruct Hres as (Hd1 & Hn & Hf & Hl). eexists _, d1. split; [reflexivity|].
    apply (enter _ _ _ _ (viewed v img)); auto; [ids_tac|by rewrite list_targets].
  - unfold destroyRenderTarget. destruct (m_renderTargets r !! id) as [e|] eqn:E; [|by exists r, d; split; [|apply keeps_device; try apply Hr]].
    pose proof (list_targets (with_renderTargets (delete id (m_renderTargets r)) r) id e (lookup_delete_eq _ _)) as Hp. cbn [m_renderTargets with_renderTargets] in Hp.
    rewrite insert_delete_id in Hp by done. replace (with_renderTargets _ _) with r in Hp by (by destruct r).
    destruct (release_entry r d _ _ Hr Hp) as (d' & -> & Hd & Hl). eexists _, d'. split; [reflexivity|]. eapply leave; eauto. ids_tac.
  - eexists _, d. split; [reflexivity|]. apply (enter _ _ _ _ []); auto; [ids_tac|apply NoDup_nil_2|by intros x ?%elem_of_nil|apply Hr|set_solver].
  - eexists _, d. split; [reflexivity|]. apply (enter _ _ _ _ []); auto; [ids_tac|apply NoDup_nil_2|by intros x ?%elem_of_nil|apply Hr|set_solver].
  - eexists _, d. split; [reflexivity|]. apply (enter _ _ _ _ []); auto; [ids_tac|apply NoDup_nil_2|by intros x ?%elem_of_nil|apply Hr|set_solver].
Qed.

Lemma started_rinv d : gd_ok d -> rinv (bindDevice true initial) d.
Proof.
  intros Hd. split; try done; try (intros id e He; by rewrite lookup_empty in He). by apply NoDup_nil_2.
Qed.
Lemma rstep_rinv x y : rstep x y -> rinv x.1 x.2 -> rinv y.1 y.2.
Proof.
  intros [op r d r' d' Ha He|r d d' Hd Hl] Hr; cbn [fst snd] in *.
  - destruct (registry_exec_ok op r d Hr Ha) as (r1 & d1 & He' & Hk & _). congruence.
  - destruct Hr. by split.
Qed.
Lemma session_rinv d0 x : gd_ok d0 -> rtc rstep (bindDevice true initial, d0) x -> rinv x.1 x.2.
Proof.
  intros Hd Hr. remember (bindDevice true initial, d0) as x0 eqn:E.
  assert (rinv x0.1 x0.2) as H0 by (subst; by apply started_rinv). clear E Hd. induction Hr; [done|]. eauto using rstep_rinv.
Qed.

Lemma adopted_kind r k h : (k, h) ∈ adopted_list r -> k = KShader \/ k = KPipeline.
Proof.
  unfold adopted_list, flat. rewrite !elem_of_app, !list_elem_of_In, !in_concat.
  intros [(l & Hl & Hx)|[(l & Hl & Hx)|(l & Hl & Hx)]]; apply list_elem_of_In, list_elem_of_fmap in Hl as ([] & -> & _);
    destruct Hx as [[= <- _]|[]]; auto.
Qed.
Lemma clear_ok r d : m_device r = true -> gd_ok d -> NoDup (created_list r) -> created_set r ⊆ gd_live d ->
  exists d', clear r d = Some (no_entries r, d') /\ gd_ok d' /\ gd_live d' = gd_live d ∖ created_set r ∖ adopted_set r.
Proof.
  intros Hb Hd Hn Hl. unfold clear. rewrite Hb. cbn [release_if]. rewrite release_app.
  destruct (release_live (created_list r) d Hd Hn) as (d1 & -> & Hd1 & Hl1); [intros x Hx; by apply Hl, elem_of_list_to_set|].
  cbn [mbind option_bind]. destruct (release_adopted (adopted_list r) d1 Hd1) as (d2 & -> & Hd2 & Hl2).
  { intros k h Hk. by destruct (adopted_kind r k h Hk) as [->| ->]. }
  exists d2. split; [done|]. split; [done|]. by rewrite Hl2, Hl1.
Qed.

(** *** Ids *)
Lemma vs_iter gal n r : m_nextId (Nat.iter n (fun r => (registerVsShader gal r).1) r) = u32 (m_nextId r + Z.of_nat n) \/ n = 0%nat.
Proof.
  destruct n as [|n]; [by right|left]. induction n as [|n IH]; [done|].
  rewrite Nat.iter_succ. set (r' := Nat.iter (S n) _ r) in *. cbn [registerVsShader fst m_nextId bump with_vs].
  rewrite IH. unfold wrap. rewrite Zplus_mod_idemp_l. f_equal. lia.
Qed.
Lemma vs_iter_keeps gal n r : let r' := Nat.iter n (fun r => (registerVsShader gal r).1) r in
  m_device r' = m_device r /\ m_buffers r' = m_buffers r /\ m_textures r' = m_textures r /\ m_renderTargets r' = m_renderTargets r.
Proof. cbv zeta. induction n as [|n IH]; [done|]. rewrite Nat.iter_succ. exact IH. Qed.

Lemma registerBuffer_ok size usage addr r d : m_device r = true -> gd_ok d ->
  exists r' d' x, registerBuffer size usage addr r d = Some (r', d', x) /\ gd_ok d' /\
    ((x = 0 /\ r' = r /\ gd_live d' = gd_live d) \/
     (exists gal, x = m_nextId r /\ r' = bump (with_buffers (<[m_nextId r := mkBufferEntry gal size addr]> (m_buffers r)) r) /\
        ((KBuffer, gal) ∉ gd_live d) /\ gd_live d' = {[(KBuffer, gal)]} ∪ gd_live d)).
Proof.
  intros Hb Hd. unfold registerBuffer. rewrite Hb. cbn [negb].
  destruct (gd_createBuffer_law (mkBufferDesc size usage) d Hd) as (d1 & gal & -> & Hd1 & Hg). cbn [mbind option_bind].
  destruct Hg as [[-> Hl]|(Hg & Hf & Hl)]; [exists r, d1, 0; split; [done|]; split; [done|by left]|].
  rewrite (proj2 (Z.eqb_neq gal 0)) by done. eexists _, d1, _. split; [reflexivity|]. split; [done|]. right. by exists gal.
Qed.

(** ** Theorems *)

(** C16: in any session of the registry on a device that keeps its contract - any
    registrations and destructions, while others use the same device and leave the
    registry's resources alone - every resource the registry holds is live and held once;
    each further operation returns and changes nothing of the device outside the
    registry's own resources; and [clear] gives up exactly those, with the shaders and
    pipelines it was told of, and leaves no entry. *)
Theorem registry_owns_exactly d0 r d :
  gd_ok d0 -> rtc rstep (bindDevice true initial, d0) (r, d) ->
  NoDup (created_list r) /\ created_set r ⊆ gd_live d /\
  (forall op, allowed r op -> exists r' d', exec op r d = Some (r', d') /\
     created_set r' ⊆ gd_live d' /\ gd_live d' ∖ created_set r' = gd_live d ∖ created_set r) /\
  (exists d', clear r d = Some (no_entries r, d') /\ gd_live d' = gd_live d ∖ created_set r ∖ adopted_set r).
Proof.
  intros Hd Hs. pose proof (session_rinv d0 (r, d) Hd Hs) as Hr. cbn [fst snd] in Hr.
  split; [apply Hr|]. split; [apply Hr|]. split.
  - intros op Ha. destruct (registry_exec_ok op r d Hr Ha) as (r' & d' & He & Hk & Hl). exists r', d'. split; [done|]. split; [apply Hk|done].
  - destruct (clear_ok r d (ri_bound _ _ Hr) (ri_ok _ _ Hr) (ri_nodup _ _ Hr) (ri_live _ _ Hr)) as (d' & H1 & _ & H2). by exists d'.
Qed.

End Registry.

(** On the OpenGL back end, and on a Vulkan device with a swapchain. *)
Definition ex_ops : list Op :=
  [OpRegisterBuffer 64 16 0x1000; OpRegisterTexture 4 4 R8G8B8A8_Unorm 1; OpRegisterTarget 8 8 B8G8R8A8_Unorm; OpRegisterVs 9;
   OpDestroyTexture 2].
Definition ex_run {D} `{GraphicsDevice D} (n : nat) (d : D) : t * D :=
  foldl (fun x op => default x (exec op x.1 x.2)) (bindDevice true initial, d) (take n ex_ops).

Lemma ex_steps {D} `{GraphicsDevice D} (d : D) :
  (forall n op, ex_ops !! n = Some op -> allowed (ex_run n d).1 op /\ exec op (ex_run n d).1 (ex_run n d).2 <> None) ->
  rtc rstep (bindDevice true initial, d) (ex_run 5 d).
Proof.
  intros Hs. assert (forall n, (n <= 5)%nat -> rtc rstep (bindDevice true initial, d) (ex_run n d)) as Hall; [|by apply Hall].
  induction n as [|n IH]; intros Hn; [apply rtc_refl|]. eapply rtc_r; [apply IH; lia|].
  destruct (lookup_lt_is_Some_2 ex_ops n) as [op Hop]; [cbn; lia|]. destruct (Hs n op Hop) as [Ha He].
  assert (ex_run (S n) d = default (ex_run n d) (exec op (ex_run n d).1 (ex_run n d).2)) as E.
  { unfold ex_run. rewrite (take_S_r _ _ _ Hop), foldl_app. done. }
  rewrite E. destruct (exec op (ex_run n d).1 (ex_run n d).2) as [[r' d']|] eqn:Ee; [|done].
  destruct (ex_run n d) as [r0 d0']. by eapply rstep_op.
Qed.

Section Registry.
Context {D : Type} `{GD : GraphicsDevice D} `{!GraphicsDeviceLaws D}.

(** Ids are not kept apart once the 32-bit counter wraps: after a first buffer
    and 2^32 - 1 more registrations, one of which was told the invalid id, a new buffer
    gets the first one's id and replaces its entry, and the first resource is still
    live after [clear]. *)
Theorem id_reuse_leaks n d0 d1 r1 size usage addr e gal size' usage' addr' :
  gd_ok d0 -> Z.of_nat n = 2 ^ 32 - 2 -> registerBuffer size usage addr (bindDevice true initial) d0 = Some (r1, d1, 1) -> m_buffers r1 !! 1 = Some e ->
  let after n := Nat.iter n (fun r => (registerVsShader gal r).1) r1 in
  let r2 := after (S n) in
  (registerVsShader gal (after n)).2 = kGnmInvalidId /\
  exists r3 d3 x, registerBuffer size' usage' addr' r2 d1 = Some (r3, d3, x) /\
    (x <> 0 -> x = 1 /\ exists d4, clear r3 d3 = Some (no_entries r3, d4) /\ (KBuffer, be_gal e) ∈ gd_live d4).
Proof.
  intros Hd Hn H1 He after r2.
  destruct (registerBuffer_ok size usage addr (bindDevice true initial) d0 eq_refl Hd) as (r & d & x & H & Hd1 & Hx).
  rewrite H1 in H. injection H as <- <- <-. destruct Hx as [[? _]|(g1 & _ & -> & Hf1 & Hl1)]; [done|].
  cbn in He. rewrite lookup_insert_eq in He. injection He as <-.
  set (r1 := bump _) in *. assert (m_nextId r1 = 2) as Hn1 by reflexivity. cbn [be_gal].
  assert (forall n, n <> 0%nat -> m_nextId (after n) = u32 (2 + Z.of_nat n)) as Hids.
  { intros k Hk. destruct (vs_iter gal k r1) as [Hi|]; [|done]. by rewrite <- Hn1. }
  split; [cbn; rewrite Hids, Hn by lia; reflexivity|].
  destruct (vs_iter_keeps gal (S n) r1) as (Kd & Kb & Kt & Kg). fold (after (S n)) in Kd, Kb, Kt, Kg.
  fold r2 in Kd, Kb, Kt, Kg. assert (m_nextId r2 = 1) as Hn2 by (unfold r2; rewrite Hids, Nat2Z.inj_succ, Hn by lia; reflexivity). clearbody r2.
  destruct (registerBuffer_ok size' usage' addr' r2 d1 Kd Hd1) as (r3 & d3 & x & -> & Hd3 & Hx). exists r3, d3, x. split; [done|].
  intros Hx0. destruct Hx as [[? _]|(g2 & -> & -> & Hf2 & Hl3)]; [done|]. split; [done|].
  set (r3 := bump _). assert (created_list r3 = [(KBuffer, g2)]) as Hlist.
  { unfold created_list, r3. cbn [m_buffers m_textures m_renderTargets bump with_buffers]. rewrite Kb, Kt, Kg, Hn2. cbn. by rewrite insert_insert_eq. }
  destruct (clear_ok r3 d3) as (d4 & -> & _ & Hl4); [done|done|rewrite Hlist; apply NoDup_singleton|unfold created_set; rewrite Hlist, Hl3; set_solver|].
  exists d4. split; [done|]. assert ((KBuffer, g1) ∉ adopted_set r3) as Ha.
  { intros Hin%elem_of_list_to_set. by destruct (adopted_kind _ _ _ Hin). }
  rewrite Hl4, !elem_of_difference. split; [split; [|]|done].
  - rewrite Hl3, Hl1. set_solver.
  - unfold created_set. rewrite Hlist. intros [= <-]%elem_of_list_to_set%list_elem_of_singleton. apply Hf2. rewrite Hl1. set_solver.
Qed.

End Registry.

Lemma demo0_ok : gd_ok demo0.
Proof. by destruct (started_ginv demo0 eq_refl) as [c []]. Qed.
Lemma ex_gl_steps : rtc rstep (bindDevice true initial, demo0) (ex_run 5 demo0).
Proof.
  apply ex_steps. intros [|[|[|[|[|n]]]]] op [= <-]; (split; [|by vm_compute]); intros _; vm_compute; reflexivity.
Qed.
Lemma ex_vulkan_steps : rtc rstep (bindDevice true initial, (ex_chained : VulkanOn ex_world)) (ex_run 5 (ex_chained : VulkanOn ex_world)).
Proof.
  apply ex_steps. intros [|[|[|[|[|n]]]]] op [= <-]; (split; [|by vm_compute]); intros _; vm_compute; reflexivity.
Qed.

Lemma registry_owns_exactly_witness :
  created_list (ex_run 5 demo0).1 = [(KBuffer, 1); (KView, 5); (KImage, 4)] /\
  (exists d', clear (ex_run 5 demo0).1 (ex_run 5 demo0).2 = Some (no_entries (ex_run 5 demo0).1, d') /\
     gd_live d' = gd_live (ex_run 5 demo0).2 ∖ created_set (ex_run 5 demo0).1 ∖ adopted_set (ex_run 5 demo0).1) /\
  let x := ex_run 5 (ex_chained : VulkanOn ex_world) in
  length (created_list x.1) = 3%nat /\ NoDup (created_list x.1) /\ created_set x.1 ⊆ gd_live x.2.
Proof.
  split; [vm_compute; reflexivity|]. split.
  - pose proof (registry_owns_exactly demo0 _ _ demo0_ok
      (eq_ind _ (rtc rstep (bindDevice true initial, demo0)) ex_gl_steps _ (surjective_pairing _))) as (_ & _ & _ & H). exact H.
  - assert (gd_ok (ex_chained : VulkanOn ex_world)) as Hok by exact (session_inv _ _ _ ex_world_ok ex_chained_session ex_fences).
    pose proof (@registry_owns_exactly _ _ (VulkanGraphicsDeviceLaws ex_world ex_world_ok) _ _ _ Hok
      (eq_ind _ (rtc rstep (bindDevice true initial, _)) ex_vulkan_steps _ (surjective_pairing _))) as (H1 & H2 & _).
    split; [vm_compute; reflexivity|]. split; [exact H1|exact H2].
Defined.

Definition ex_first : option (t * OpenGLDevice.t SimpleGl * Z) := registerBuffer 64 16 0 (bindDevice true initial) demo0.
Definition ex_first_registry : t := default initial (fst ∘ fst <$> ex_first).
Definition ex_first_device : OpenGLDevice.t SimpleGl := default demo0 (snd ∘ fst <$> ex_first).
Lemma id_reuse_leaks_witness : exists n, 
  (registerVsShader 7 (Nat.iter n (fun r => (registerVsShader 7 r).1) ex_first_registry)).2 = kGnmInvalidId.
Proof.
  destruct (Z_of_nat_complete (2 ^ 32 - 2)) as [n Hn]; [discriminate|]. exists n.
  destruct (id_reuse_leaks (D := OpenGLDevice.t SimpleGl) n demo0 ex_first_device ex_first_registry 64 16 0 (mkBufferEntry 1 64 0) 7 64 16 0 demo0_ok)
    as [H _]; [by rewrite <- Hn|vm_compute; reflexivity|vm_compute; reflexivity|]. exact H.
Defined.

(** ** Commands and shaders *)

(** Commands come out once, in order, whatever the interleaving of the two threads. *)
Section Recorder.
Context {RecordedDraw : Type}.
Inductive QueueOp := QRecord (cmd : RecordedDraw) | QDrain | QRequest | QTake.
Definition queue_step (op : QueueOp) (s : GnmCommandRecorder.t) : GnmCommandRecorder.t * list RecordedDraw :=
  match op with
  | QRecord cmd => (GnmCommandRecorder.record cmd s, [])
  | QDrain => GnmCommandRecorder.drain s
  | QRequest => (GnmCommandRecorder.requestFrame s, [])
  | QTake => ((GnmCommandRecorder.takeFrameRequest s).1, [])
  end.
Fixpoint queue_run (ops : list QueueOp) (s : GnmCommandRecorder.t) : GnmCommandRecorder.t * list RecordedDraw :=
  match ops with
  | [] => (s, [])
  | op :: ops => let '(s, out) := queue_step op s in let '(s, outs) := queue_run ops s in (s, out ++ outs)
  end.
Definition recorded (ops : list QueueOp) : list RecordedDraw := omap (fun op => match op with QRecord c => Some c | _ => None end) ops.

Theorem recorder_fifo ops s : (queue_run ops s).2 ++ GnmCommandRecorder.m_commands (queue_run ops s).1 =
  GnmCommandRecorder.m_commands s ++ recorded ops.
Proof.
  revert s. induction ops as [|op ops IH]; intros s; [cbn; by rewrite app_nil_r|]. cbn [queue_run].
  destruct (queue_step op s) as [s1 out] eqn:E. pose proof (IH s1) as H. destruct (queue_run ops s1) as [s2 outs]. cbn [fst snd] in *.
  rewrite <- app_assoc, H. destruct op; injection E as <- <-; cbn; by rewrite <- ?app_assoc.
Qed.
End Recorder.

(** A shader is accepted exactly when it is at least eight bytes that start with the
    SPIR-V magic; the payload is then the whole blob. *)
Theorem parse_accepts p stage : Forall is_byte p ->
  ((GnmShader.parse (Some p) stage).2 = true <-> (8 <= length p)%nat /\ take 4 p = [3; 2; 0x23; 7]) /\
  ((GnmShader.parse (Some p) stage).2 = true -> GnmShader.payload (GnmShader.parse (Some p) stage).1 = p).
Proof.
  intros Hp. unfold GnmShader.parse. destruct (length p <? 8)%nat eqn:El; [apply Nat.ltb_lt in El; split; [split; [done|lia]|done]|].
  apply Nat.ltb_ge in El. unfold GnmShader.looksLikeSpirv. rewrite (proj2 (Nat.ltb_ge _ _)) by lia.
  assert (field p 0 4 = GnmShader.kSpirvMagic <-> take 4 p = [3; 2; 0x23; 7]) as Heq.
  { unfold field. rewrite drop_0. split; [|by intros ->]. intros H.
    rewrite <- (le_encode_decode (take 4 p)) by (by apply Forall_take). rewrite H, length_take, Nat.min_l by lia. reflexivity. }
  destruct (Z.eqb_spec (field p 0 4) GnmShader.kSpirvMagic) as [E|E]; cbn; naive_solver.
Qed.
