(* ===== verification/Dialogs.v ===== *)
(** * Dialogs

    [dialogs/DialogManager.cpp] and the libraries that use it: message, save data,
    text entry and sign-in dialogs.  Completions are data ([Completion]) that
    [fire] runs; the clock is an argument. *)
From S2P Require Import Prelude.

(** ** DialogManager.cpp *)
Module DialogManager.

Inductive DialogKind := Common | Message | Error | SaveDataKind | Ime | SigninKind.
#[global] Instance DialogKind_eq_dec : EqDecision DialogKind.
Proof. solve_decision. Defined.
Inductive DialogResult := Ok | Cancel | Timeout | Rejected.
#[global] Instance DialogResult_eq_dec : EqDecision DialogResult.
Proof. solve_decision. Defined.

Section Manager.
Context {K : Type}.

Record DialogRequest := mkRequest {
  kind : DialogKind;
  title : bytes;
  message : bytes;
  buttons : list bytes;
  defaultButton : Z;
  timeoutMs : Z;
  imeInitialText : bytes;
  imeMaxLength : Z;
  saveDirName : bytes;
  saveTitle : bytes;
  saveSubtitle : bytes;
  saveDetail : bytes;
  onComplete : option K
}.
(** [DialogRequest req;] *)
Definition default_request : DialogRequest := mkRequest Message [] [] [] 0 0 [] 0 [] [] [] [] None.
Definition with_text (s : bytes) (r : DialogRequest) : DialogRequest :=
  mkRequest (kind r) (title r) (message r) (buttons r) (defaultButton r) (timeoutMs r) s (imeMaxLength r) (saveDirName r)
    (saveTitle r) (saveSubtitle r) (saveDetail r) (onComplete r).

Record t := mkManager { m_pending : list DialogRequest; m_active : option DialogRequest; m_activeStartMs : Z }.
Definition initial : t := mkManager [] None 0.

(** An operation says which requests it closed, and how, in order: [onComplete] of
    each is called. *)
Definition Closed : Type := list (DialogRequest * DialogResult).

Definition init (m : t) : t := mkManager [] None (m_activeStartMs m).
Definition shutdown (m : t) : t * Closed :=
  (mkManager [] None (m_activeStartMs m), (fun r => (r, Cancel)) <$> option_list (m_active m) ++ m_pending m).

Definition submit (req : DialogRequest) (m : t) : t * bool :=
  if (32 <=? length (m_pending m))%nat then (m, false)
  else (mkManager (m_pending m ++ [req]) (m_active m) (m_activeStartMs m), true).

Definition presentNext (now : Z) (m : t) : t :=
  match m_active m, m_pending m with
  | None, r :: rest => mkManager rest (Some r) now
  | _, _ => m
  end.
Definition no_active (m : t) : t := mkManager (m_pending m) None (m_activeStartMs m).

Definition tick (now : Z) (m : t) : t * Closed :=
  let m := presentNext now m in
  match m_active m with
  | None => (m, [])
  | Some r =>
      if (0 <? timeoutMs r) && (timeoutMs r <=? u64 (now - m_activeStartMs m)) then (no_active m, [(r, Timeout)]) else (m, [])
  end.

Definition hasActiveDialog (m : t) : bool := bool_decide (is_Some (m_active m)).
Definition current (m : t) : option DialogRequest := m_active m.

(** SDL scancodes: 40 is Return, 41 Escape. *)
Definition handleKey (scancode : Z) (down : bool) (m : t) : t * bool * Closed :=
  if negb down then (m, false, [])
  else
    match m_active m with
    | None => (m, false, [])
    | Some r =>
        if scancode =? 40 then (no_active m, true, [(r, Ok)])
        else if scancode =? 41 then (no_active m, true, [(r, Cancel)])
        else (m, true, [])
    end.

(** The loop over the characters; [char] is signed. *)
Fixpoint type_text (max : Z) (text s : bytes) : bytes :=
  match text with
  | [] => s
  | c :: text =>
      if (0 <? max) && (max <=? Z.of_nat (length s)) then s
      else if c =? 8 then type_text max text (take (length s - 1) s)
      else if 32 <=? swrap 8 c then type_text max text (s ++ [c])
      else type_text max text s
  end.
Definition handleText (text : bytes) (m : t) : t * bool :=
  match m_active m with
  | None => (m, false)
  | Some r =>
      if bool_decide (kind r = Ime)
      then (mkManager (m_pending m) (Some (with_text (type_text (imeMaxLength r) text (imeInitialText r)) r)) (m_activeStartMs m), true)
      else (m, true)
  end.

Definition cancelActive (m : t) : t * Closed :=
  match m_active m with None => (m, []) | Some r => (no_active m, [(r, Cancel)]) end.
Definition queueDepth (m : t) : nat := length (m_pending m) + (if m_active m then 1 else 0).

End Manager.
Arguments DialogRequest : clear implicits.
Arguments t : clear implicits.
Arguments Closed : clear implicits.
End DialogManager.

Inductive Completion := OnMessage (dialId : Z) | OnSaveData | OnIme | OnSignin.

Definition kOk : Z := 0.
Definition kErrInvalidArg : Z := i32 0x80020005.
Definition kErrNotFound : Z := i32 0x80020004.
Definition kErrBusy : Z := i32 0x8002000B.
Definition kResultOk : Z := 0.
Definition kResultCancel : Z := 1.

(** The state of the four libraries and of the manager. *)
Record World := mkWorld {
  dialogs : DialogManager.t Completion;
  g_results : gmap Z Z;
  g_nextDial : Z;
  g_lastResult : Z;
  g_resultText : bytes;
  g_resultCode : Z;
  g_active : bool;
  g_result : Z
}.
Definition initial : World := mkWorld DialogManager.initial ∅ 1 kResultCancel [] (-1) false 0.

Definition with_dialogs m (w : World) : World :=
  mkWorld m (g_results w) (g_nextDial w) (g_lastResult w) (g_resultText w) (g_resultCode w) (g_active w) (g_result w).
Definition with_results m (w : World) : World :=
  mkWorld (dialogs w) m (g_nextDial w) (g_lastResult w) (g_resultText w) (g_resultCode w) (g_active w) (g_result w).
Definition with_next n (w : World) : World :=
  mkWorld (dialogs w) (g_results w) n (g_lastResult w) (g_resultText w) (g_resultCode w) (g_active w) (g_result w).
Definition with_last n (w : World) : World :=
  mkWorld (dialogs w) (g_results w) (g_nextDial w) n (g_resultText w) (g_resultCode w) (g_active w) (g_result w).
Definition with_code n (w : World) : World :=
  mkWorld (dialogs w) (g_results w) (g_nextDial w) (g_lastResult w) (g_resultText w) n (g_active w) (g_result w).
Definition with_signin a n (w : World) : World :=
  mkWorld (dialogs w) (g_results w) (g_nextDial w) (g_lastResult w) (g_resultText w) (g_resultCode w) a n.

(** Each callback; only the message dialog tells its dialogs apart. *)
Definition code_of (r : DialogManager.DialogResult) : Z :=
  if bool_decide (r = DialogManager.Ok) then kResultOk else kResultCancel.
Definition complete (k : Completion) (r : DialogManager.DialogResult) (w : World) : World :=
  match k with
  | OnMessage dialId => with_results (<[dialId := code_of r]> (g_results w)) w
  | OnSaveData => with_last (code_of r) w
  | OnIme => with_code (code_of r) w
  | OnSignin => with_signin false 0 w
  end.
Definition fire (c : DialogManager.DialogRequest Completion * DialogManager.DialogResult) (w : World) : World :=
  match DialogManager.onComplete c.1 with None => w | Some k => complete k c.2 w end.
Definition fire_all (cs : DialogManager.Closed Completion) (w : World) : World := foldl (fun w c => fire c w) w cs.

(** The C string at an offset of the memory from the parameter on; none when no byte
    of it is zero. *)
Fixpoint c_string (mem : bytes) : option bytes :=
  match mem with
  | [] => None
  | b :: mem => if b =? 0 then Some [] else cons b <$> c_string mem
  end.
Definition c_field (param : bytes) (off : nat) : option bytes := c_string (drop off param).
(** What [snprintf] writes to [char text[512]]. *)
Definition print_text (s : bytes) : bytes := take 511 s ++ [0].

(** ** SceMsgDialog.cpp *)
Module SceMsgDialog.
Definition message_request (buttonType : Z) (message : bytes) (dialId : Z) : DialogManager.DialogRequest Completion :=
  DialogManager.mkRequest DialogManager.Message (cstr "System") message (if buttonType =? 1 then [cstr "Yes"; cstr "No"] else [cstr "OK"])
    0 0 [] 0 [] [] [] [] (Some (OnMessage dialId)).

(** The message is at offset 24, after padding. *)
Definition sceMsgDialogOpen (param : option bytes) (w : World) : option (World * Z) :=
  match param with
  | None => Some (w, kErrInvalidArg)
  | Some p =>
      message ← c_field p 24;
      let dialId := g_nextDial w in
      let w := with_next (u32 (dialId + 1)) w in
      let '(m, accepted) := DialogManager.submit (message_request (field p 4 4) message dialId) (dialogs w) in
      Some (with_dialogs m w, if accepted then i32 dialId else kErrBusy)
  end.

(** What is written through the pointer, unless it is null. *)
Definition sceMsgDialogGetStatus (dialId : Z) (outStatus : bool) (w : World) : Z * option Z :=
  if negb outStatus then (kErrInvalidArg, None)
  else (kOk, Some (if g_results w !! dialId then 1 else 0)).
Definition sceMsgDialogGetResult (dialId : Z) (outResult : bool) (w : World) : Z * option Z :=
  if negb outResult then (kErrInvalidArg, None)
  else (kOk, Some (default (-1) (g_results w !! dialId))).
Definition sceMsgDialogClose (dialId : Z) (w : World) : World := with_results (delete dialId (g_results w)) w.
Definition sceMsgDialogAbort (dialId : Z) (w : World) : World :=
  let '(m, closed) := DialogManager.cancelActive (dialogs w) in fire_all closed (with_dialogs m w).
End SceMsgDialog.

(** ** SceSaveDataDialog.cpp *)
Module SceSaveDataDialog.
Definition sceSaveDataDialogOpen (param : option bytes) (w : World) : option (World * Z) :=
  match param with
  | None => Some (w, kErrInvalidArg)
  | Some p =>
      let ty := field p 0 4 in
      let title := if ty =? 1 then cstr "Load Save Data" else if ty =? 2 then cstr "Delete Save" else cstr "Save Data" in
      subtitle ← c_field p 136;
      dirName ← c_field p 520;
      saveTitle ← c_field p 8;
      detail ← c_field p 264;
      let req := DialogManager.mkRequest DialogManager.SaveDataKind title subtitle [cstr "OK"; cstr "Cancel"] 0 0 [] 0 dirName saveTitle
                   subtitle detail (Some OnSaveData) in
      Some (with_dialogs (DialogManager.submit req (dialogs w)).1 w, 1)
  end.
Definition sceSaveDataDialogGetStatus (w : World) : Z := if DialogManager.hasActiveDialog (dialogs w) then 0 else 1.
Definition sceSaveDataDialogGetResult (w : World) : Z := g_lastResult w.
Definition sceSaveDataDialogAbort (w : World) : World :=
  let '(m, closed) := DialogManager.cancelActive (dialogs w) in fire_all closed (with_dialogs m w).
Definition sceSaveDataDialogIsReadyToDisplay (w : World) : Z := if DialogManager.hasActiveDialog (dialogs w) then 0 else 1.
End SceSaveDataDialog.

(** ** SceImeDialog.cpp *)
Module SceImeDialog.
Definition sceImeDialogInit (param : option bytes) (w : World) : option (World * Z) :=
  match param with
  | None => Some (w, kErrInvalidArg)
  | Some p =>
      title ← c_field p 16;
      text ← c_field p 144;
      let req := DialogManager.mkRequest DialogManager.Ime title (cstr "Enter text") [cstr "OK"; cstr "Cancel"] 0 0 text (field p 8 4)
                   [] [] [] [] (Some OnIme) in
      Some (with_dialogs (DialogManager.submit req (dialogs w)).1 w, kOk)
  end.
Definition sceImeDialogGetStatus (outStatus : bool) (w : World) : Z * option Z :=
  if negb outStatus then (kErrInvalidArg, None) else (kOk, Some (if g_resultCode w <? 0 then 0 else 1)).
(** The code and the text of the result. *)
Definition sceImeDialogGetResult (w : World) : Z * bytes :=
  (if g_resultCode w <? 0 then 1 else g_resultCode w,
   print_text (match DialogManager.current (dialogs w) with Some v => DialogManager.imeInitialText v | None => g_resultText w end)).
Definition sceImeDialogAbort (w : World) : World :=
  let '(m, closed) := DialogManager.cancelActive (dialogs w) in fire_all closed (with_dialogs m w).
End SceImeDialog.

(** ** SceSigninDialog.cpp *)
Module SceSigninDialog.
(** The account's name, when it is signed in. *)
Definition sceSigninDialogOpen (signed_in : option bytes) (w : World) : World * Z :=
  match signed_in with
  | None => (w, kOk)
  | Some onlineId =>
      let req := DialogManager.mkRequest DialogManager.SigninKind (cstr "Signed In") (cstr "Signed in as " ++ onlineId) [cstr "OK"] 0 1500
                   [] 0 [] [] [] [] (Some OnSignin) in
      let w := with_signin true (g_result w) w in
      (with_dialogs (DialogManager.submit req (dialogs w)).1 w, kOk)
  end.
Definition sceSigninDialogGetStatus (outStatus : bool) (w : World) : Z * option Z :=
  if negb outStatus then (kErrNotFound, None) else (kOk, Some (if g_active w then 0 else 1)).
Definition sceSigninDialogGetResult (outResult : bool) (w : World) : Z * option Z :=
  if negb outResult then (kErrNotFound, None) else (kOk, Some (g_result w)).
Definition sceSigninDialogClose (w : World) : World := with_signin false (g_result w) w.
End SceSigninDialog.

(** ** The queue *)
Module Queue.
Import DialogManager.
Section Queue.
Context {K : Type}.

Inductive Op :=
  | Submit (req : DialogRequest K) | Tick (now : Z) | Key (scancode : Z) (down : bool) | Text (text : bytes) | CancelActive | Shutdown.

(** One call: the state after it, the request accepted and the requests closed. *)
Definition step (op : Op) (m : t K) : t K * list (DialogRequest K) * Closed K :=
  match op with
  | Submit req => let '(m', ok) := submit req m in (m', if ok then [req] else [], [])
  | Tick now => let '(m', cl) := tick now m in (m', [], cl)
  | Key sc down => let '(m', _, cl) := handleKey sc down m in (m', [], cl)
  | Text text => ((handleText text m).1, [], [])
  | CancelActive => let '(m', cl) := cancelActive m in (m', [], cl)
  | Shutdown => let '(m', cl) := shutdown m in (m', [], cl)
  end.
Fixpoint run (ops : list Op) (m : t K) : t K * list (DialogRequest K) * Closed K :=
  match ops with
  | [] => (m, [], [])
  | op :: ops =>
      let '(m1, a1, c1) := step op m in
      let '(m2, a2, c2) := run ops m1 in (m2, a1 ++ a2, c1 ++ c2)
  end.

(** The requests inside, first the active one. *)
Definition inside (m : t K) : list (DialogRequest K) := option_list (m_active m) ++ m_pending m.
(** A request without the text that the user has entered. *)
Definition strip (r : DialogRequest K) : DialogRequest K := with_text [] r.

Lemma strip_with_text s r : strip (with_text s r) = strip r.
Proof. done. Qed.

Lemma step_queue op m : let '(m', acc, cl) := step op m in
  strip <$> inside m ++ acc = ((strip ∘ fst) <$> cl) ++ (strip <$> inside m').
Proof.
  destruct op as [req|now|sc down|text| |]; cbn [step].
  - unfold submit. destruct (32 <=? _)%nat; cbn; [by rewrite app_nil_r|]. unfold inside. cbn. by rewrite <- app_assoc.
  - unfold tick. assert (inside (presentNext now m) = inside m) as <-.
    { unfold presentNext, inside. by destruct m as [[|r l] [a|] st]. }
    set (m' := presentNext now m). destruct m' as [l [a|] st]; cbn; rewrite ?app_nil_r; [|done].
    destruct (0 <? timeoutMs a), (timeoutMs a <=? _); cbn; by rewrite app_nil_r.
  - unfold handleKey. destruct down; cbn; [|by rewrite app_nil_r]. destruct m as [l [a|] st]; cbn; rewrite ?app_nil_r; [|done].
    destruct (sc =? 40), (sc =? 41); cbn; by rewrite app_nil_r.
  - unfold handleText. destruct m as [l [a|] st]; cbn; rewrite ?app_nil_r; [|done]. by case_match.
  - unfold cancelActive. destruct m as [l [a|] st]; cbn; by rewrite ?app_nil_r.
  - unfold shutdown, inside. cbn. rewrite !app_nil_r. rewrite <- list_fmap_compose. by apply list_fmap_ext.
Qed.

Lemma run_queue ops m : let '(m', acc, cl) := run ops m in
  strip <$> inside m ++ acc = ((strip ∘ fst) <$> cl) ++ (strip <$> inside m').
Proof.
  revert m. induction ops as [|op ops IH]; intros m; [cbn; by rewrite app_nil_r|]. cbn [run]. pose proof (step_queue op m) as H1.
  destruct (step op m) as [[m1 a1] c1]. specialize (IH m1). destruct (run ops m1) as [[m2 a2] c2].
  rewrite app_assoc, fmap_app, H1, <- app_assoc, <- fmap_app, IH, fmap_app. by rewrite <- app_assoc.
Qed.

Lemma step_bound op m : (length (m_pending m) <= 32)%nat -> (length (m_pending (step op m).1.1) <= 32)%nat.
Proof.
  intros H. destruct op as [req|now|sc down|text| |]; cbn [step].
  - unfold submit. destruct (32 <=? _)%nat eqn:E; cbn; [done|]. apply Nat.leb_gt in E. rewrite length_app. cbn. lia.
  - unfold tick. assert (length (m_pending (presentNext now m)) <= 32)%nat as H'.
    { unfold presentNext. destruct m as [[|r l] [a|] st]; cbn in *; lia. }
    destruct (m_active _) as [r|]; [|done]. by destruct (_ && _).
  - unfold handleKey. destruct m as [l [a|] st], down; cbn in *; try done. by destruct (sc =? 40), (sc =? 41).
  - unfold handleText. destruct m as [l [a|] st]; cbn in *; [|done]. by destruct (bool_decide _).
  - unfold cancelActive. by destruct m as [l [a|] st].
  - cbn. lia.
Qed.

(** Dialogs are shown one at a time in the order they were accepted, and each
    closes at most once: after any calls, the accepted requests are those closed, in the
    order of closing, then the active one, then the pending ones, of which there are at
    most 32 (a request up to the text typed into it); [shutdown] closes all of them. *)
Theorem dialogs_fifo ops : let '(m, accepted, closed) := run ops initial in
  strip <$> accepted = ((strip ∘ fst) <$> closed) ++ (strip <$> inside m) /\ (length (m_pending m) <= 32)%nat /\
  fst <$> (shutdown m).2 = inside m /\ inside (shutdown m).1 = [].
Proof.
  pose proof (run_queue ops initial) as H.
  assert (length (m_pending (run ops initial).1.1) <= 32)%nat as Hb.
  { assert (forall m, (length (m_pending m) <= 32)%nat -> (length (m_pending (run ops m).1.1) <= 32)%nat) as Hr; [|apply Hr; cbn; lia].
    induction ops as [|op ops IH]; intros m Hm; [done|]. cbn [run]. pose proof (step_bound op m Hm) as Hs.
    destruct (step op m) as [[m1 a1] c1]. specialize (IH (run_queue ops initial) m1 Hs). by destruct (run ops m1) as [[m2 a2] c2]. }
  destruct (run ops initial) as [[m acc] cl]. split; [exact H|]. split; [exact Hb|]. split; [|done].
  unfold shutdown. cbn. rewrite <- list_fmap_compose. by rewrite list_fmap_id.
Qed.

(** Typing never makes a text longer than the limit, or than it was. *)
Lemma type_text_bound max text s : 0 < max -> Z.of_nat (length (type_text max text s)) <= Z.max max (Z.of_nat (length s)).
Proof.
  intros Hm. revert s. induction text as [|c text IH]; intros s; cbn; [lia|]. case_match eqn:E; [lia|].
  rewrite (proj2 (Z.ltb_lt 0 max)) in E by done. cbn in E. apply Z.leb_gt in E. repeat case_match.
  - specialize (IH (take (length s - 1) s)). rewrite length_take in IH. lia.
  - specialize (IH (s ++ [c])). rewrite length_app in IH. cbn in IH. lia.
  - apply IH.
Qed.
(** At the limit nothing can be typed, not even a backspace. *)
Lemma type_text_stuck max text s : 0 < max <= Z.of_nat (length s) -> type_text max text s = s.
Proof. intros H. destruct text; [done|]. cbn. by rewrite (proj2 (Z.ltb_lt _ _)), (proj2 (Z.leb_le _ _)) by lia. Qed.

End Queue.
End Queue.

(** ** The guest's view

    Calls of the guest, ticks and input of the host, in any order.  A call that reads
    a string with no end has no result. *)
Module Guest.
Import SceMsgDialog SceSaveDataDialog SceImeDialog SceSigninDialog.

Inductive Event :=
  | EMsgOpen (param : option bytes) | EMsgAbort (dialId : Z) | EMsgClose (dialId : Z)
  | ESaveOpen (param : option bytes) | ESaveAbort
  | EImeInit (param : option bytes) | EImeAbort
  | ESigninOpen (signed_in : option bytes) | ESigninClose
  | EHost (op : @Queue.Op Completion).
(** The host does not submit. *)
Definition host_event (e : Event) : bool := match e with EHost (Queue.Submit _) => false | _ => true end.

(** What a run leaves behind: the dialogs that the manager closed, with their
    results, and the calls of [sceMsgDialogClose], in their order. *)
Inductive Item := Shut (c : DialogManager.DialogRequest Completion * DialogManager.DialogResult) | Forgot (dialId : Z).
Definition Log : Type := list Item.
Definition closed_of (log : Log) : DialogManager.Closed Completion :=
  omap (fun i => match i with Shut c => Some c | Forgot _ => None end) log.

(** The manager's call an event makes, and the state when it returns. *)
Definition host (op : Queue.Op) (w : World) : World * Log :=
  let '(m, _, closed) := Queue.step op (dialogs w) in (fire_all closed (with_dialogs m w), Shut <$> closed).
Definition aborted (w : World) : Log := Shut <$> (DialogManager.cancelActive (dialogs w)).2.
Definition exec (e : Event) (w : World) : option (World * Log) :=
  match e with
  | EMsgOpen p => x ← sceMsgDialogOpen p w; Some (x.1, [])
  | EMsgAbort id => Some (sceMsgDialogAbort id w, aborted w)
  | EMsgClose id => Some (sceMsgDialogClose id w, [Forgot id])
  | ESaveOpen p => x ← sceSaveDataDialogOpen p w; Some (x.1, [])
  | ESaveAbort => Some (sceSaveDataDialogAbort w, aborted w)
  | EImeInit p => x ← sceImeDialogInit p w; Some (x.1, [])
  | EImeAbort => Some (sceImeDialogAbort w, aborted w)
  | ESigninOpen name => Some ((sceSigninDialogOpen name w).1, [])
  | ESigninClose => Some (sceSigninDialogClose w, [])
  | EHost op => Some (host op w)
  end.
Fixpoint run (es : list Event) (w : World) : option (World * Log) :=
  match es with
  | [] => Some (w, [])
  | e :: es =>
      '(w1, c1) ← exec e w;
      '(w2, c2) ← run es w1;
      Some (w2, c1 ++ c2)
  end.

Definition message_id (r : DialogManager.DialogRequest Completion) : option Z :=
  match DialogManager.onComplete r with Some (OnMessage id) => Some id | _ => None end.
Definition ids (rs : list (DialogManager.DialogRequest Completion)) : list Z := omap message_id rs.

(** What the log says last of the message dialog [id]: the code of the result
    it was closed with, when it was closed and not forgotten since. *)
Definition outcome (log : Log) (id : Z) : option Z :=
  foldl (fun acc i => match i with
                      | Shut c => if bool_decide (message_id c.1 = Some id) then Some (code_of c.2) else acc
                      | Forgot id' => if id' =? id then None else acc
                      end) None log.

Record winv (w : World) (log : Log) (n : Z) : Prop := mkWinv {
  wi_results : forall id, g_results w !! id = outcome log id;
  wi_ids : NoDup (ids ((closed_of log).*1 ++ Queue.inside (dialogs w)));
  wi_fresh : forall id, id ∈ ids ((closed_of log).*1 ++ Queue.inside (dialogs w)) -> 0 < id < g_nextDial w;
  wi_next : 0 < g_nextDial w <= n + 1;
  wi_text : g_resultText w = []
}.

(** *** Completions *)
Lemma ids_app l1 l2 : ids (l1 ++ l2) = ids l1 ++ ids l2.
Proof. apply omap_app. Qed.
Lemma elem_of_ids id rs : id ∈ ids rs <-> exists r, r ∈ rs /\ message_id r = Some id.
Proof. apply list_elem_of_omap. Qed.

Lemma outcome_snoc log i id :
  outcome (log ++ [i]) id =
    match i with
    | Shut c => if bool_decide (message_id c.1 = Some id) then Some (code_of c.2) else outcome log id
    | Forgot id' => if id' =? id then None else outcome log id
    end.
Proof. unfold outcome. by rewrite foldl_app. Qed.

(** The outcome of a dialog is that of its last closing, unless it was forgotten after. *)
Lemma outcome_Some log id c :
  outcome log id = Some c <->
  exists pre req r post, log = pre ++ Shut (req, r) :: post /\ message_id req = Some id /\ c = code_of r /\
    Forgot id ∉ post /\ forall req' r', Shut (req', r') ∈ post -> message_id req' <> Some id.
Proof.
  revert c. induction log as [|i log IH] using rev_ind; intros c.
  { split; [done|]. by intros ([] & ? & ? & ? & ? & _). }
  rewrite outcome_snoc.
  assert (forall pre x post, log ++ [i] = pre ++ x :: post -> (post = [] /\ i = x /\ log = pre) \/
    exists post', post = post' ++ [i] /\ log = pre ++ x :: post') as Hcut.
  { intros pre x post E. destruct post as [|y post _] using rev_ind; [left|right].
    - apply app_inj_tail in E as [-> ->]. done.
    - exists post. change (pre ++ x :: post ++ [y]) with (pre ++ (x :: post) ++ [y]) in E. rewrite app_assoc in E.
      apply app_inj_tail in E as [-> ->]. done. }
  assert ((match i with Shut c => message_id c.1 <> Some id | Forgot id' => id' <> id end) ->
    (outcome log id = Some c <-> exists pre req r post, log ++ [i] = pre ++ Shut (req, r) :: post /\ message_id req = Some id /\
      c = code_of r /\ Forgot id ∉ post /\ forall req' r', Shut (req', r') ∈ post -> message_id req' <> Some id)) as Hother.
  { intros Hi. rewrite IH. split.
    - intros (pre & req & r & post & -> & Hm & Hc & Hf & Hs). exists pre, req, r, (post ++ [i]). rewrite <- app_assoc.
      split_and!; try done.
      + rewrite not_elem_of_app. split; [done|]. intros Hin%list_elem_of_singleton. by subst i.
      + intros req' r' [Hin|Hin%list_elem_of_singleton]%elem_of_app; [by eapply Hs|]. by subst i.
    - intros (pre & req & r & post & E & Hm & Hc & Hf & Hs). apply Hcut in E as [(-> & -> & ->)|(post' & -> & ->)]; [done|].
      exists pre, req, r, post'. split_and!; try done.
      + intros Hin. apply Hf, elem_of_app. by left.
      + intros req' r' Hin. apply (Hs req' r'), elem_of_app. by left. }
  destruct i as [[req0 r0]|id']; cbn [fst snd] in *.
  - case_bool_decide as Hm; [|by apply Hother]. split.
    + intros [= <-]. exists log, req0, r0, []. split_and!; try done; [apply not_elem_of_nil|by intros ? ? ?%elem_of_nil].
    + intros (pre & req & r & post & E & Hm' & Hc & Hf & Hs). apply Hcut in E as [(-> & [= -> ->] & ->)|(post' & -> & ->)]; [by subst|].
      exfalso. apply (Hs req0 r0); [|done]. apply elem_of_app. right. by left.
  - destruct (Z.eqb_spec id' id) as [->|Hne]; [|by apply Hother]. split; [done|].
    intros (pre & req & r & post & E & Hm' & Hc & Hf & Hs). apply Hcut in E as [(-> & ? & ->)|(post' & -> & ->)]; [done|].
    exfalso. apply Hf, elem_of_app. right. by left.
Qed.

Lemma closed_of_app l1 l2 : closed_of (l1 ++ l2) = closed_of l1 ++ closed_of l2.
Proof. apply omap_app. Qed.
Lemma closed_of_shut cl : closed_of (Shut <$> cl) = cl.
Proof.
  induction cl as [|c cl IH]; [done|]. change (closed_of (Shut <$> c :: cl)) with (c :: closed_of (Shut <$> cl)). by rewrite IH.
Qed.

Lemma fire_outcome log c w : (forall id, g_results w !! id = outcome log id) ->
  forall id, g_results (fire c w) !! id = outcome (log ++ [Shut c]) id.
Proof.
  intros Hr id. rewrite outcome_snoc. unfold fire, message_id.
  destruct (DialogManager.onComplete c.1) as [[dialId| | |]|]; try (rewrite bool_decide_eq_false_2 by done; by apply Hr).
  cbn [complete with_results g_results]. case_bool_decide as E.
  - injection E as ->. by rewrite lookup_insert_eq.
  - rewrite lookup_insert_ne by congruence. apply Hr.
Qed.
Lemma fire_all_outcome cl log w : (forall id, g_results w !! id = outcome log id) ->
  forall id, g_results (fire_all cl w) !! id = outcome (log ++ (Shut <$> cl)) id.
Proof.
  revert log w. induction cl as [|c cl IH]; intros log w Hr id; [by rewrite app_nil_r|].
  cbn [fire_all foldl fmap list_fmap]. rewrite cons_middle, app_assoc. apply (IH _ (fire c w)). by apply fire_outcome.
Qed.
Lemma fire_keeps c w : dialogs (fire c w) = dialogs w /\ g_nextDial (fire c w) = g_nextDial w /\ g_resultText (fire c w) = g_resultText w.
Proof. unfold fire. by destruct (DialogManager.onComplete c.1) as [[]|]. Qed.
Lemma fire_all_keeps cl w : dialogs (fire_all cl w) = dialogs w /\ g_nextDial (fire_all cl w) = g_nextDial w /\
  g_resultText (fire_all cl w) = g_resultText w.
Proof.
  revert w. induction cl as [|c cl IH]; intros w; [done|]. cbn [fire_all foldl]. destruct (fire_keeps c w) as (<- & <- & <-). apply IH.
Qed.

(** *** Events *)

(** Ids do not depend on the text. *)
Lemma ids_strip rs rs' : Queue.strip <$> rs = Queue.strip <$> rs' -> ids rs = ids rs'.
Proof.
  intros H. assert (forall l, ids l = ids (Queue.strip <$> l)) as Hs.
  { induction l as [|r l IH]; [done|]. unfold ids in *. cbn. rewrite IH. by destruct r. }
  by rewrite (Hs rs), (Hs rs'), H.
Qed.
Lemma fmap_fst_strip (cl : DialogManager.Closed Completion) : (Queue.strip ∘ fst) <$> cl = Queue.strip <$> cl.*1.
Proof. by rewrite list_fmap_compose. Qed.

(** The host's calls, and the aborts. *)
Lemma host_inv op w log n : match op with Queue.Submit _ => False | _ => True end -> winv w log n ->
  let '(w', items) := host op w in winv w' (log ++ items) n.
Proof.
  intros Hop [Hr Hn Hf Hx Ht]. unfold host. pose proof (Queue.step_queue op (dialogs w)) as Hq.
  destruct (Queue.step op (dialogs w)) as [[m acc] cl] eqn:E.
  assert (acc = []) as ->. { destruct op; try done; cbn in E; repeat case_match; by simplify_eq. }
  rewrite app_nil_r, fmap_fst_strip, <- fmap_app in Hq. apply ids_strip in Hq.
  destruct (fire_all_keeps cl (with_dialogs m w)) as (Hd & Hnx & Htx).
  assert (ids ((closed_of (log ++ (Shut <$> cl))).*1 ++ Queue.inside m) = ids ((closed_of log).*1 ++ Queue.inside (dialogs w))) as Hids.
  { rewrite closed_of_app, closed_of_shut, fmap_app, <- app_assoc, ids_app, <- Hq, <- ids_app. done. }
  split; rewrite ?Hd, ?Hnx, ?Htx; cbn [dialogs with_dialogs g_nextDial g_resultText]; rewrite ?Hids; try done.
  by apply fire_all_outcome.
Qed.

(** A request enters: an anonymous one, or a message dialog with the next id. *)
Lemma submit_ids req w (closed : DialogManager.Closed Completion) : ids (closed.*1 ++ Queue.inside (DialogManager.submit req (dialogs w)).1) =
  ids (closed.*1 ++ Queue.inside (dialogs w)) ++ (if (DialogManager.submit req (dialogs w)).2 then ids [req] else []).
Proof.
  unfold DialogManager.submit. destruct (32 <=? _)%nat; cbn [fst snd]; [by rewrite app_nil_r|].
  unfold Queue.inside. cbn [DialogManager.m_active DialogManager.m_pending]. by rewrite !ids_app, <- !app_assoc.
Qed.
Lemma submit_inv req w log n : winv w log n -> message_id req = None ->
  winv (with_dialogs (DialogManager.submit req (dialogs w)).1 w) log n.
Proof.
  intros [Hr Hn Hf Hx Ht] Hm. pose proof (submit_ids req w (closed_of log)) as Hids.
  assert (ids [req] = []) as Hreq by (unfold ids; cbn; by rewrite Hm). rewrite Hreq in Hids.
  assert (forall b : bool, (if b then [] else []) = @nil Z) as Hb by (by intros []). rewrite Hb, app_nil_r in Hids.
  split; cbn [dialogs with_dialogs g_nextDial g_resultText g_results]; rewrite ?Hids; done.
Qed.

Lemma winv_mono w log n k : n <= k -> winv w log n -> winv w log k.
Proof. intros H []. split; try done. lia. Qed.

Lemma exec_inv e w w' log cl n : host_event e = true -> exec e w = Some (w', cl) -> 0 <= n < 2 ^ 32 - 2 -> winv w log n ->
  winv w' (log ++ cl) (n + 1).
Proof.
  intros Hh He Hn Hi. pose proof (winv_mono w log n (n + 1) ltac:(lia) Hi) as Hi'.
  assert (forall x, exec e w = Some (x, aborted w) -> x = (host Queue.CancelActive w).1 -> winv w' (log ++ cl) (n + 1)) as Habort.
  { intros x Hx Hx'. rewrite Hx in He. injection He as <- <-. pose proof (host_inv Queue.CancelActive w log (n + 1) I Hi') as H.
    revert H Hx'. unfold host, aborted. cbn [Queue.step]. destruct (DialogManager.cancelActive _) as [m c]. by intros H ->. }
  assert (forall m c, DialogManager.cancelActive (dialogs w) = (m, c) -> fire_all c (with_dialogs m w) = (host Queue.CancelActive w).1) as Hc.
  { intros m c E. unfold host. cbn [Queue.step]. by rewrite E. }
  destruct e as [p|id|id|p| |p| |name| |op]; cbn [exec] in He.
  - destruct (sceMsgDialogOpen p w) as [[w1 x]|] eqn:E; [|done]. injection He as <- <-. rewrite app_nil_r. unfold sceMsgDialogOpen in E.
    destruct p as [p|]; [|by injection E as <- <-]. destruct (c_field p 24) as [msg|]; [|done]. cbn [mbind option_bind] in E.
    pose proof (submit_ids (message_request (field p 4 4) msg (g_nextDial w)) (with_next (u32 (g_nextDial w + 1)) w) (closed_of log)) as Hids.
    destruct (DialogManager.submit _ _) as [m ok] eqn:Es. injection E as <- _. cbn [fst snd dialogs with_next] in Hids.
    destruct Hi as [Hr Hd Hf Hx Ht]. rewrite wrap_id by (unfold in_width; lia).
    assert (forall id, id ∈ (if ok then ids [message_request (field p 4 4) msg (g_nextDial w)] else []) -> id = g_nextDial w) as Hnew.
    { intros id. destruct ok; [|by intros ?%elem_of_nil]. by intros ->%list_elem_of_singleton. }
    split; cbn [g_results g_nextDial g_resultText dialogs with_dialogs with_next]; rewrite ?Hids; [done| | |lia|done].
    + apply NoDup_app. split; [done|]. split; [|destruct ok; [apply NoDup_singleton|apply NoDup_nil_2]].
      intros id Hin Hin2. apply Hnew in Hin2 as ->. apply Hf in Hin. lia.
    + intros id [Hin|Hin]%elem_of_app; [apply Hf in Hin; lia|]. apply Hnew in Hin as ->. lia.
  - eapply Habort; [done|]. unfold sceMsgDialogAbort. destruct (DialogManager.cancelActive _) eqn:E. by apply Hc.
  - injection He as <- <-. destruct Hi' as [Hr Hd Hf Hx Ht].
    split; cbn [g_results g_nextDial g_resultText dialogs with_results sceMsgDialogClose];
      rewrite ?closed_of_app, ?app_nil_r; try done.
    intros k. rewrite outcome_snoc. destruct (Z.eqb_spec id k) as [->|]; [apply lookup_delete_eq|by rewrite lookup_delete_ne].
  - destruct (sceSaveDataDialogOpen p w) as [[w1 x]|] eqn:E; [|done]. injection He as <- <-. rewrite app_nil_r.
    unfold sceSaveDataDialogOpen in E. destruct p as [p|]; [|by injection E as <- <-].
    destruct (c_field p 136), (c_field p 520), (c_field p 8), (c_field p 264); try done. injection E as <- _. by apply submit_inv.
  - eapply Habort; [done|]. unfold sceSaveDataDialogAbort. destruct (DialogManager.cancelActive _) eqn:E. by apply Hc.
  - destruct (sceImeDialogInit p w) as [[w1 x]|] eqn:E; [|done]. injection He as <- <-. rewrite app_nil_r.
    unfold sceImeDialogInit in E. destruct p as [p|]; [|by injection E as <- <-].
    destruct (c_field p 16), (c_field p 144); try done. injection E as <- _. by apply submit_inv.
  - eapply Habort; [done|]. unfold sceImeDialogAbort. destruct (DialogManager.cancelActive _) eqn:E. by apply Hc.
  - injection He as <- <-. rewrite app_nil_r. unfold sceSigninDialogOpen. destruct name as [name|]; [|done].
    apply (submit_inv _ (with_signin true (g_result w) w)); [|done]. by destruct Hi'.
  - injection He as <- <-. rewrite app_nil_r. by destruct Hi'.
  - injection He as He. pose proof (host_inv op w log (n + 1)) as H. rewrite He in H. apply H; [|done]. by destruct op.
Qed.

Lemma run_inv es w w' log cl n : forallb host_event es = true -> run es w = Some (w', cl) ->
  0 <= n -> n + Z.of_nat (length es) < 2 ^ 32 - 1 -> winv w log n -> winv w' (log ++ cl) (n + Z.of_nat (length es)).
Proof.
  revert w log cl n. induction es as [|e es IH]; intros w log cl n Hh Hr Hn Hl Hi.
  { injection Hr as <- <-. rewrite app_nil_r. cbn. by rewrite Z.add_0_r. }
  cbn [forallb] in Hh. apply andb_prop in Hh as [Hh1 Hh2]. cbn [length] in Hl. cbn [run] in Hr.
  destruct (exec e w) as [[w1 c1]|] eqn:E1; [|done]. cbn [mbind option_bind] in Hr.
  destruct (run es w1) as [[w2 c2]|] eqn:E2; [|done]. cbn [mbind option_bind] in Hr. injection Hr as <- <-.
  rewrite app_assoc. replace (n + Z.of_nat (length (e :: es))) with (n + 1 + Z.of_nat (length es)) by (cbn [length]; lia).
  eapply IH; [done|exact E2|lia|lia|]. eapply exec_inv; [done|exact E1|lia|done].
Qed.
Lemma initial_inv : winv initial [] 0.
Proof.
  split; try done; [by apply NoDup_nil_2|by intros id ?%elem_of_nil].
Qed.
Lemma run_initial es w log : forallb host_event es = true -> Z.of_nat (length es) < 2 ^ 32 - 1 ->
  run es initial = Some (w, log) -> winv w log (Z.of_nat (length es)).
Proof. intros Hh Hl Hr. exact (run_inv es initial w [] log 0 Hh Hr ltac:(lia) ltac:(lia) initial_inv). Qed.

(** C26: a message dialog is reported as the manager closed it: in any run of fewer
    than 2^32 - 1 guest calls - the open, abort and close calls of the four libraries
    that the model has - ticks and input events, [GetStatus] says finished exactly
    when the dialog with that id was closed by the manager and [sceMsgDialogClose] was
    not called with its id since, and [GetResult] then gives success exactly when it was
    closed by accepting it and cancel when it was closed otherwise, and -1 in every
    other case. No two dialogs have the same id. [sceMsgDialogClose] only forgets a
    result: it does not close the dialog on screen. *)
Theorem message_results_exact es w log id :
  forallb host_event es = true -> Z.of_nat (length es) < 2 ^ 32 - 1 -> run es initial = Some (w, log) ->
  let closed_with req r := exists pre post, log = pre ++ Shut (req, r) :: post /\ message_id req = Some id /\ Forgot id ∉ post in
  (sceMsgDialogGetStatus id true w = (kOk, Some 1) <-> exists req r, closed_with req r) /\
  (forall req r, closed_with req r -> sceMsgDialogGetResult id true w = (kOk, Some (code_of r))) /\
  ((forall req r, ~ closed_with req r) -> sceMsgDialogGetResult id true w = (kOk, Some (-1))) /\
  NoDup (ids (closed_of log).*1).
Proof.
  intros Hh Hl Hr closed_with. destruct (run_initial es w log Hh Hl Hr) as [Hres Hnd _ _ _].
  rewrite ids_app in Hnd. apply NoDup_app in Hnd as (Hnd & _ & _).
  assert (forall req r, closed_with req r -> outcome log id = Some (code_of r)) as Hc.
  { intros req r (pre & post & -> & Hm & Hf). apply outcome_Some. exists pre, req, r, post. split_and!; try done.
    intros req' r' Hin Hm'. rewrite closed_of_app, fmap_app, ids_app in Hnd. apply NoDup_app in Hnd as (_ & _ & Hnd).
    change (closed_of (Shut (req, r) :: post)) with ((req, r) :: closed_of post) in Hnd. rewrite fmap_cons in Hnd.
    change ((req, r).1 :: (closed_of post).*1) with ([req] ++ (closed_of post).*1) in Hnd. rewrite ids_app in Hnd.
    apply NoDup_app in Hnd as (_ & Hnd & _). apply (Hnd id); apply elem_of_ids.
    - exists req. split; [by left|done].
    - exists req'. split; [|done]. apply list_elem_of_fmap. exists (req', r'). split; [done|].
      apply list_elem_of_omap. by exists (Shut (req', r')). }
  assert (forall c, outcome log id = Some c -> exists req r, closed_with req r) as Hs.
  { intros c (pre & req & r & post & H1 & H2 & _ & H3 & _)%outcome_Some. by exists req, r, pre, post. }
  unfold sceMsgDialogGetStatus, sceMsgDialogGetResult. cbn [negb]. rewrite Hres. split; [|split; [|split; [|done]]].
  - destruct (outcome log id) as [c|] eqn:E; [split; [intros _; by eapply Hs|done]|]. split; [done|].
    intros (req & r & H). by specialize (Hc req r H).
  - intros req r H. by rewrite (Hc req r H).
  - intros Hn. destruct (outcome log id) as [c|] eqn:E; [|done]. destruct (Hs c eq_refl) as (req & r & H). by destruct (Hn req r).
Qed.

(** What the user types is never delivered: in every run, once no dialog is
    active, [sceImeDialogGetResult] gives the empty text; and after a first text dialog
    completed, a new one is reported finished, with the old code, as soon as it is asked
    for. *)
Theorem ime_text_lost es w log p w' r :
  forallb host_event es = true -> Z.of_nat (length es) < 2 ^ 32 - 1 -> run es initial = Some (w, log) ->
  (DialogManager.hasActiveDialog (dialogs w) = false -> (sceImeDialogGetResult w).2 = [0]) /\
  (sceImeDialogGetStatus true w = (kOk, Some 1) -> sceImeDialogInit (Some p) w = Some (w', r) ->
     r = kOk /\ sceImeDialogGetStatus true w' = (kOk, Some 1) /\ (sceImeDialogGetResult w').1 = (sceImeDialogGetResult w).1).
Proof.
  intros Hh Hl Hr. destruct (run_initial es w log Hh Hl Hr) as [_ _ _ _ Ht]. split.
  - unfold DialogManager.hasActiveDialog, sceImeDialogGetResult, DialogManager.current. intros Ha%bool_decide_eq_false.
    destruct (DialogManager.m_active (dialogs w)); [by destruct Ha|]. cbn [snd]. by rewrite Ht.
  - unfold sceImeDialogInit. intros Hs. destruct (c_field p 16), (c_field p 144); try done. intros [= <- <-]. done.
Qed.

Definition ex_message : bytes := replicate 24 0 ++ cstr "Quit?" ++ [0].
Definition ex_events : list Event :=
  [EMsgOpen (Some ex_message); EMsgOpen (Some ex_message); EHost (Queue.Tick 5); EHost (Queue.Key 40 true); EMsgAbort 2; EMsgClose 2].
Definition ex_end : World * Log := default (initial, []) (run ex_events initial).
Lemma message_results_exact_witness :
  run ex_events initial = Some ex_end /\
  sceMsgDialogGetStatus 1 true ex_end.1 = (kOk, Some 1) /\ sceMsgDialogGetResult 1 true ex_end.1 = (kOk, Some kResultOk) /\
  sceMsgDialogGetResult 2 true ex_end.1 = (kOk, Some (-1)).
Proof.
  assert (run ex_events initial = Some (ex_end.1, ex_end.2)) as Hr by (vm_compute; reflexivity).
  destruct (message_results_exact ex_events ex_end.1 ex_end.2 1 eq_refl eq_refl Hr) as (H1 & H2 & _).
  destruct (message_results_exact ex_events ex_end.1 ex_end.2 2 eq_refl eq_refl Hr) as (_ & _ & H3 & _).
  assert (exists req, message_id req = Some 1 /\ ex_end.2 = [Shut (req, DialogManager.Ok); Forgot 2]) as (req & Hm & Hc).
  { eexists. split; [|vm_compute; reflexivity]. reflexivity. }
  assert (exists pre post, ex_end.2 = pre ++ Shut (req, DialogManager.Ok) :: post /\ message_id req = Some 1 /\ Forgot 1 ∉ post) as Hx.
  { exists [], [Forgot 2]. split; [exact Hc|]. split; [exact Hm|]. by intros [= ]%list_elem_of_singleton. }
  split; [vm_compute; reflexivity|]. split; [|split].
  - apply H1. exists req, DialogManager.Ok. exact Hx.
  - exact (H2 req DialogManager.Ok Hx).
  - apply H3. intros q r (pre & post & E & Hq & Hf). rewrite Hc in E. destruct pre as [|a pre].
    + injection E as <- <- _. congruence.
    + injection E as _ E. destruct pre as [|b pre]; [discriminate E|]. injection E as _ E. by destruct pre.
Defined.

Definition ex_ime : bytes := replicate 144 0 ++ cstr "name" ++ [0].
Definition ex_typing : list Event :=
  [EImeInit (Some ex_ime); EHost (Queue.Tick 5); EHost (Queue.Text (cstr "!")); EHost (Queue.Key 40 true)].
Definition ex_typed : World * Log := default (initial, []) (run ex_typing initial).
Definition ex_again : World := default initial (fst <$> sceImeDialogInit (Some ex_ime) ex_typed.1).
Lemma ime_text_lost_witness :
  (DialogManager.imeInitialText ∘ fst) <$> closed_of ex_typed.2 = [cstr "name!"] /\ (sceImeDialogGetResult ex_typed.1).2 = [0] /\
  sceImeDialogGetStatus true ex_again = (kOk, Some 1).
Proof.
  assert (run ex_typing initial = Some (ex_typed.1, ex_typed.2)) as Hr by (vm_compute; reflexivity).
  destruct (ime_text_lost ex_typing ex_typed.1 ex_typed.2 ex_ime ex_again kOk eq_refl eq_refl Hr) as [H1 H2].
  split; [vm_compute; reflexivity|]. split; [apply H1; vm_compute; reflexivity|].
  apply H2; vm_compute; reflexivity.
Defined.

(** [sceMsgDialogAbort] cancels the dialog on screen, whatever id it is given. *)
Lemma abort_ignores_id id id' w : sceMsgDialogAbort id w = sceMsgDialogAbort id' w.
Proof. done. Qed.

End Guest.

(** ** Locks

    [DialogManager::shutdown] calls the active dialog's completion while it holds the
    manager's mutex; [sceImeDialogGetResult] calls the manager while it holds its own. *)
Module Locks.
Inductive Mutex := ManagerMutex | MessageMutex | ImeMutex | SigninMutex.
#[global] Instance Mutex_eq_dec : EqDecision Mutex.
Proof. solve_decision. Defined.
Inductive Action := Acquire (m : Mutex) | Release (m : Mutex).

Definition guarded (m : Mutex) (l : list Action) : list Action := [Acquire m] ++ l ++ [Release m].
(** The mutex of each completion; the save data dialog has none. *)
Definition completion_locks (k : Completion) : list Action :=
  match k with
  | OnMessage _ => guarded MessageMutex []
  | OnSaveData => []
  | OnIme => guarded ImeMutex []
  | OnSignin => guarded SigninMutex []
  end.
(** [shutdown] with this dialog active, and the guest asking for the text; the completions
    of the dialogs that still wait run after the unlock, each under its own mutex alone,
    and cannot be part of a cycle: they are left out. *)
Definition shutdown_locks (active : option Completion) : list Action :=
  guarded ManagerMutex (match active with None => [] | Some k => completion_locks k end).
Definition ime_result_locks : list Action := guarded ImeMutex (guarded ManagerMutex []).

(** Two threads, each at a position of its sequence. *)
Definition held (l : list Action) (i : nat) (m : Mutex) : bool :=
  foldl (fun h a => match a with Acquire x => if bool_decide (x = m) then true else h | Release x => if bool_decide (x = m) then false else h end)
    false (take i l).
Definition enabled (l : list Action) (i : nat) (other : list Action) (j : nat) : bool :=
  match l !! i with
  | None => false
  | Some (Release _) => true
  | Some (Acquire m) => negb (held other j m)
  end.
Inductive step (p q : list Action) : nat * nat -> nat * nat -> Prop :=
  | step_left i j : enabled p i q j = true -> step p q (i, j) (S i, j)
  | step_right i j : enabled q j p i = true -> step p q (i, j) (i, S j).
Definition stuck (p q : list Action) (s : nat * nat) : Prop :=
  s <> (length p, length q) /\ enabled p s.1 q s.2 = false /\ enabled q s.2 p s.1 = false.

(** Exclusion: what both hold nowhere. *)
Definition mutexes : list Mutex := [ManagerMutex; MessageMutex; ImeMutex; SigninMutex].
Definition exclusive (p q : list Action) (s : nat * nat) : bool :=
  (s.1 <=? length p)%nat && (s.2 <=? length q)%nat && forallb (fun m => negb (held p s.1 m && held q s.2 m)) mutexes.
Definition states (p q : list Action) : list (nat * nat) :=
  list_prod (seq 0 (S (length p))) (seq 0 (S (length q))).
(** Every exclusive state keeps exclusion and is not stuck. *)
Definition safe_state (p q : list Action) (s : nat * nat) : bool :=
  implb (exclusive p q s)
    (implb (enabled p s.1 q s.2) (exclusive p q (S s.1, s.2)) && implb (enabled q s.2 p s.1) (exclusive p q (s.1, S s.2)) &&
     (bool_decide (s = (length p, length q)) || enabled p s.1 q s.2 || enabled q s.2 p s.1)).

Lemma in_states p q s : exclusive p q s = true -> s ∈ states p q.
Proof.
  unfold exclusive. intros [[H1%Nat.leb_le H2%Nat.leb_le]%andb_prop _]%andb_prop. destruct s as [i j]. cbn in *.
  refine (proj2 (list_elem_of_In (states p q) (i, j)) (proj2 (in_prod_iff (seq 0 (S (length p))) (seq 0 (S (length q))) i j) _)).
  rewrite !in_seq. lia.
Qed.
Lemma safe_never_stuck p q s : exclusive p q (0%nat, 0%nat) = true -> forallb (safe_state p q) (states p q) = true ->
  rtc (step p q) (0%nat, 0%nat) s -> ~ stuck p q s.
Proof.
  intros H0 Hs Hr. assert (exclusive p q s = true) as He.
  { remember (0%nat, 0%nat) as s0. clear Heqs0. induction Hr as [|s1 s2 s3 H12 _ IH]; [done|]. apply IH.
    pose proof (proj1 (forallb_forall _ _) Hs s1 (proj1 (list_elem_of_In _ _) (in_states _ _ _ H0))) as H. unfold safe_state in H.
    rewrite H0 in H. cbn [implb] in H. apply andb_prop in H as [[Ha Hb]%andb_prop _].
    destruct H12 as [i j Hen|i j Hen]; cbn [fst snd] in *; [by rewrite Hen in Ha|by rewrite Hen in Hb]. }
  intros (Hn & Hp & Hq). pose proof (proj1 (forallb_forall _ _) Hs s (proj1 (list_elem_of_In _ _) (in_states _ _ _ He))) as H.
  unfold safe_state in H. rewrite He, Hp, Hq in H. cbn [implb] in H. rewrite (bool_decide_eq_false_2 _ Hn) in H. done.
Qed.

(** C39: shutting the dialogs down while the guest asks for a text deadlocks in some
    interleaving exactly when a text dialog is active: then each thread waits for the
    mutex the other holds; with any other dialog, or none, no interleaving gets stuck. *)
Theorem dialog_deadlock active :
  (exists s, rtc (step (shutdown_locks active) ime_result_locks) (0%nat, 0%nat) s /\ stuck (shutdown_locks active) ime_result_locks s) <->
  active = Some OnIme.
Proof.
  split.
  - intros (s & Hr & Hs). destruct active as [[id| | |]|]; try done; exfalso; revert Hs; apply safe_never_stuck; try exact Hr; vm_compute; done.
  - intros ->. exists (1%nat, 1%nat). split; [|by vm_compute].
    apply (rtc_l _ _ (1%nat, 0%nat)); [by apply step_left|]. apply (rtc_l _ _ (1%nat, 1%nat)); [by apply step_right|apply rtc_refl].
Qed.
End Locks.
