(* ===== verification/Input.v ===== *)
(** * Controllers, keyboard and mouse

    [input/InputManager.cpp], [sce/pad/ScePad.cpp], [sce/input/].  SDL is a
    parameter: what it reports is an argument of the call that asks.  A controller is
    the pointer SDL gives (0 is null); every successful open must be closed once. *)
From S2P Require Import Prelude Handles.

(** ** InputManager.cpp *)
Module InputManager.

Definition kMaxPads : nat := 4.

Record PadData := mkPad {
  buttons : Z;
  leftStickX : Z;
  leftStickY : Z;
  rightStickX : Z;
  rightStickY : Z;
  l2 : Z;
  r2 : Z;
  connected : Z;
  timestamp : Z
}.
Definition no_pad : PadData := mkPad 0 128 128 128 128 0 0 0 0.
(** The bytes of the structure: three runs of padding, 0x30 and 0x10 zeros. *)
Definition pad_bytes (d : PadData) : bytes :=
  le_encode 4 (buttons d) ++ [leftStickX d; leftStickY d; rightStickX d; rightStickY d; l2 d; r2 d; 0; 0; connected d; 0; 0; 0] ++
  le_encode 8 (timestamp d) ++ replicate 64 0.

Definition kPadL3 : Z := 0x00000002.
Definition kPadR3 : Z := 0x00000004.
Definition kPadOptions : Z := 0x00000008.
Definition kPadUp : Z := 0x00000010.
Definition kPadRight : Z := 0x00000020.
Definition kPadDown : Z := 0x00000040.
Definition kPadLeft : Z := 0x00000080.
Definition kPadL2 : Z := 0x00000100.
Definition kPadR2 : Z := 0x00000200.
Definition kPadL1 : Z := 0x00000400.
Definition kPadR1 : Z := 0x00000800.
Definition kPadTriangle : Z := 0x00001000.
Definition kPadCircle : Z := 0x00002000.
Definition kPadCross : Z := 0x00004000.
Definition kPadSquare : Z := 0x00008000.
Definition kPadTouchPad : Z := 0x00100000.

(** What SDL reports of a controller, and of the keyboard. *)
Inductive SdlButton :=
  | LEFTSHOULDER | RIGHTSHOULDER | A | B | X | Y | DPAD_UP | DPAD_DOWN | DPAD_LEFT | DPAD_RIGHT | START | LEFTSTICK | RIGHTSTICK | BACK.
Inductive SdlAxis := LEFTX | LEFTY | RIGHTX | RIGHTY | TRIGGERLEFT | TRIGGERRIGHT.
Inductive SdlKey :=
  | K_UP | K_DOWN | K_LEFT | K_RIGHT | K_RETURN | K_ESCAPE | K_X | K_Z | K_Q | K_E | K_W | K_R | K_TAB | K_SPACE | K_A | K_D | K_S.
Record Snapshot := mkSnapshot { button : SdlButton -> bool; axis : SdlAxis -> Z }.

(** [opened] is what SDL has opened for us and not closed, an entry per open. *)
Record t := mkInput { m_pads : list PadData; m_controllers : list Z; m_sdlControllerReady : bool; opened : list Z }.
Definition initial : t := mkInput (replicate kMaxPads no_pad) (replicate kMaxPads 0) false [].

Definition with_pad (i : nat) (d : PadData) (s : t) : t :=
  mkInput (<[i := d]> (m_pads s)) (m_controllers s) (m_sdlControllerReady s) (opened s).
Definition with_controller (i : nat) (gc : Z) (s : t) : t :=
  mkInput (m_pads s) (<[i := gc]> (m_controllers s)) (m_sdlControllerReady s) (opened s).
Definition with_ready (b : bool) (s : t) : t := mkInput (m_pads s) (m_controllers s) b (opened s).
Definition with_opened (l : list Z) (s : t) : t := mkInput (m_pads s) (m_controllers s) (m_sdlControllerReady s) l.

(** The first free slot takes the controller; with none free it stays open, unused. *)
Definition free_slot (s : t) : option nat := fst <$> list_find (fun gc => gc = 0) (m_controllers s).
Definition attach (gc : Z) (s : t) : t :=
  match free_slot s with None => s | Some i => with_controller i gc s end.

(** [devices] are the joysticks: whether it is a controller, and what opening it gives. *)
Fixpoint open_all (devices : list (bool * Z)) (s : t) : t :=
  match devices with
  | [] => s
  | (is_controller, gc) :: devices =>
      if negb is_controller then open_all devices s
      else if gc =? 0 then open_all devices s
      else open_all devices (attach gc (with_opened (gc :: opened s) s))
  end.
Definition init (subsystem : bool) (devices : list (bool * Z)) (s : t) : t * bool :=
  if negb subsystem then (with_ready false s, true)
  else (open_all devices (with_ready true s), true).

Fixpoint remove_one (x : Z) (l : list Z) : list Z :=
  match l with [] => [] | y :: l => if x =? y then l else y :: remove_one x l end.
Definition SDL_GameControllerClose (gc : Z) (s : t) : t := with_opened (remove_one gc (opened s)) s.

Fixpoint close_slots (n : nat) (s : t) : t :=
  match n with
  | O => s
  | S n =>
      let s := close_slots n s in
      match m_controllers s !! n with
      | Some gc => if gc =? 0 then s else with_controller n 0 (SDL_GameControllerClose gc s)
      | None => s
      end
  end.
Definition shutdown (s : t) : t :=
  let s := close_slots kMaxPads s in
  if m_sdlControllerReady s then with_ready false s else s.

Definition axisToByte (v : Z) : Z := u8 (Z.shiftr (v + 32768) 8).
Definition triggerToByte (v : Z) : Z := u8 (Z.shiftr (v + 32768) 8).

Definition bits (l : list (bool * Z)) : Z := foldl (fun acc x => if x.1 : bool then Z.lor acc x.2 else acc) 0 l.

Definition pad_of_controller (k : Snapshot) (now : Z) : PadData :=
  let b := button k in
  let lt := triggerToByte (axis k TRIGGERLEFT) in
  let rt := triggerToByte (axis k TRIGGERRIGHT) in
  mkPad
    (bits [(b LEFTSHOULDER, kPadL1); (b RIGHTSHOULDER, kPadR1); (b A, kPadCross); (b B, kPadCircle); (b X, kPadSquare);
           (b Y, kPadTriangle); (b DPAD_UP, kPadUp); (b DPAD_DOWN, kPadDown); (b DPAD_LEFT, kPadLeft); (b DPAD_RIGHT, kPadRight);
           (b START, kPadOptions); (b LEFTSTICK, kPadL3); (b RIGHTSTICK, kPadR3); (b BACK, kPadTouchPad);
           (32 <? lt, kPadL2); (32 <? rt, kPadR2)])
    (axisToByte (axis k LEFTX)) (axisToByte (axis k LEFTY)) (axisToByte (axis k RIGHTX)) (axisToByte (axis k RIGHTY)) lt rt 1 now.
Definition updatePadFromController (look : Z -> Snapshot) (now : Z) (i : nat) (s : t) : t :=
  match m_controllers s !! i with
  | None => s
  | Some gc => if gc =? 0 then s else with_pad i (pad_of_controller (look gc) now) s
  end.

Definition pad_of_keyboard (ks : SdlKey -> bool) (now : Z) : PadData :=
  let lx := if ks K_D then 255 else if ks K_A then 0 else 128 in
  let ly := if ks K_S then 255 else if ks K_W then 0 else 128 in
  mkPad
    (bits [(ks K_UP, kPadUp); (ks K_DOWN, kPadDown); (ks K_LEFT, kPadLeft); (ks K_RIGHT, kPadRight); (ks K_RETURN, kPadCross);
           (ks K_ESCAPE, kPadCircle); (ks K_X, kPadSquare); (ks K_Z, kPadTriangle); (ks K_Q, kPadL1); (ks K_E, kPadR1);
           (ks K_W, kPadL2); (ks K_R, kPadR2); (ks K_TAB, kPadOptions); (ks K_SPACE, kPadTouchPad)])
    lx ly 128 128 0 0 1 now.
(** [keys] is [None] when SDL has no keyboard state. *)
Definition updatePadFromKeyboard (keys : option (SdlKey -> bool)) (now : Z) (i : nat) (s : t) : t :=
  if negb (i =? 0)%nat then s
  else if negb (default 0 (m_controllers s !! 0%nat) =? 0) then s
  else match keys with None => s | Some ks => with_pad i (pad_of_keyboard ks now) s end.

(** A device arrived: whether it is a controller and what opening it gives; or the
    joystick with this instance id left. *)
Inductive Event := DeviceAdded (is_controller : bool) (gc : Z) | DeviceRemoved (which : Z).

Definition handle_event (instanceId : Z -> Z) (e : Event) (s : t) : t :=
  match e with
  | DeviceAdded is_controller gc =>
      if negb is_controller || (gc =? 0) then s else attach gc (with_opened (gc :: opened s) s)
  | DeviceRemoved which =>
      match list_find (fun gc => gc <> 0 /\ instanceId gc = which) (m_controllers s) with
      | None => s
      | Some (i, gc) => with_pad i no_pad (with_controller i 0 (SDL_GameControllerClose gc s))
      end
  end.

Definition update_slot (look : Z -> Snapshot) (keys : option (SdlKey -> bool)) (now : Z) (s : t) (i : nat) : t :=
  if default 0 (m_controllers s !! i) =? 0 then updatePadFromKeyboard keys now i s else updatePadFromController look now i s.
Definition poll (instanceId : Z -> Z) (events : list Event) (look : Z -> Snapshot) (keys : option (SdlKey -> bool)) (now : Z) (s : t) : t :=
  foldl (update_slot look keys now) (foldl (fun s e => handle_event instanceId e s) s events) (seq 0 kMaxPads).

Definition padState (index : Z) (s : t) : PadData :=
  if (index <? 0) || (Z.of_nat kMaxPads <=? index) then no_pad else default no_pad (m_pads s !! Z.to_nat index).
Definition isConnected (index : Z) (s : t) : bool :=
  if (index <? 0) || (Z.of_nat kMaxPads <=? index) then false else negb (connected (padState index s) =? 0).
(** The rumble asked of SDL: the controller and the strengths of its two motors. *)
Definition setVibration (index left right : Z) (s : t) : option (Z * Z * Z) :=
  if (index <? 0) || (Z.of_nat kMaxPads <=? index) then None
  else
    let gc := default 0 (m_controllers s !! Z.to_nat index) in
    if gc =? 0 then None else Some (gc, u16 (Z.land left 0xFF * 257), u16 (Z.land right 0xFF * 257)).

End InputManager.

(** ** ScePad.cpp

    A pad handle is found again by the text that its object describes itself with. *)
Module ScePad.
Import InputManager.

Definition kSceOk : Z := 0.
Definition kSceErrorInvalidArg : Z := i32 0x80020005.
Definition kSceErrorNotFound : Z := i32 0x80020004.
Definition kUserPadCount : Z := 4.

Definition describe_fd (kind : bytes) (fd : Z) (guestPath : bytes) : bytes :=
  kind ++ cstr "{fd=" ++ to_string fd ++ cstr ", guest=" ++ [34] ++ guestPath ++ [34] ++ cstr "}".
Section Pads.
(** The text of a semaphore, which shows the name the guest gave it. *)
Context (sema_text : Z -> bytes).

(** [describe()] of each kind of object. *)
Definition describe (o : HandleObject) : bytes :=
  match o with
  | FileHandle fd guestPath _ _ => describe_fd (cstr "File") fd guestPath
  | DirectoryHandle fd guestPath _ => describe_fd (cstr "Directory") fd guestPath
  | EventObject _ => cstr "Event"
  | SocketHandle fd domain _ _ => cstr "Socket{fd=" ++ to_string fd ++ cstr ", domain=" ++ to_string domain ++ cstr "}"
  | KernelSemaObject id => sema_text id
  | ThreadHandleObj _ => cstr "Thread"
  | PadHandleObj index => cstr "Pad{index=" ++ to_string index ++ cstr "}"
  | PortHandleObj portId => cstr "AudioPort{portId=" ++ to_string portId ++ cstr "}"
  end.

(** [std::atoi]: blanks, a sign, digits; no value when it does not fit an [int]. *)
Definition is_space (c : Z) : bool := (c =? 32) || ((9 <=? c) && (c <=? 13)).
Fixpoint skip_spaces (s : bytes) : bytes :=
  match s with [] => [] | c :: s' => if is_space c then skip_spaces s' else s end.
Fixpoint digits (acc : Z) (s : bytes) : Z :=
  match s with
  | [] => acc
  | c :: s => if (48 <=? c) && (c <=? 57) then digits (acc * 10 + (c - 48)) s else acc
  end.
Definition atoi (s : bytes) : option Z :=
  let v := match skip_spaces s with
           | [] => 0
           | c :: s => if c =? 45 then - digits 0 s else if c =? 43 then digits 0 s else digits 0 (c :: s)
           end in
  if (- 2 ^ 31 <=? v) && (v <? 2 ^ 31) then Some v else None.

(** The index after the first [index=]: [None] when there is no such text, and
    [Some None] when its number does not fit. *)
Definition pad_index (o : HandleObject) : option (option Z) :=
  let d := describe o in
  match find_str (cstr "index=") d with
  | None => None
  | Some pos => Some (atoi (drop (pos + 6) d))
  end.

Definition scePadOpen (userId : Z) (tbl : HandleTable.t) : HandleTable.t * Z :=
  if (userId <? 0) || (kUserPadCount <=? userId) then (tbl, kSceErrorInvalidArg)
  else HandleTable.registerObject tbl (Some (PadHandleObj userId)).

(** The object that the table drops, if any, is destroyed. *)
Definition scePadClose (handle : Z) (tbl : HandleTable.t) : HandleTable.t * Z * option HandleObject :=
  match HandleTable.get tbl handle with
  | None => (tbl, kSceErrorNotFound, None)
  | Some _ => let '(tbl, _, o) := HandleTable.close tbl handle in (tbl, kSceOk, o)
  end.

(** The code, and the bytes written; no result when [atoi] has none. *)
Definition scePadReadState (handle : Z) (outPadData : bool) (s : InputManager.t) (tbl : HandleTable.t) : option (Z * bytes) :=
  if negb outPadData then Some (kSceErrorInvalidArg, [])
  else
    match HandleTable.get tbl handle with
    | None => Some (kSceErrorNotFound, [])
    | Some o =>
        match pad_index o with
        | None => Some (kSceErrorInvalidArg, [])
        | Some idx =>
            idx ← idx;
            if (idx <? 0) || (Z.of_nat kMaxPads <=? idx) then Some (kSceErrorInvalidArg, [])
            else Some (kSceOk, pad_bytes (padState idx s))
        end
    end.
Definition scePadRead (handle : Z) (outPadData : bool) (num : Z) (s : InputManager.t) (tbl : HandleTable.t) : option (Z * bytes) :=
  if num <? 1 then Some (kSceErrorInvalidArg, [])
  else
    '(rc, out) ← scePadReadState handle outPadData s tbl;
    Some (if rc =? kSceOk then num else rc, out).
Definition scePadSetVibration (handle : Z) (param : option (Z * Z)) (s : InputManager.t) (tbl : HandleTable.t) :
    option (Z * option (Z * Z * Z)) :=
  match param with
  | None => Some (kSceErrorInvalidArg, None)
  | Some (large, small) =>
      match HandleTable.get tbl handle with
      | None => Some (kSceErrorNotFound, None)
      | Some o =>
          match pad_index o with
          | None => Some (kSceErrorInvalidArg, None)
          | Some idx => idx ← idx; Some (kSceOk, setVibration idx large small s)
          end
      end
  end.
End Pads.
End ScePad.

(** ** SceKeyboard.cpp and SceMouse.cpp

    The states that they read, [keyboardState] and [mouseState], are not members of
    [InputManager]: they are arguments here. *)
Module SceInput.
Definition kOk : Z := 0.
Definition kErrInvalidArg : Z := i32 0x80020005.
Definition kErrNotFound : Z := i32 0x80020004.
Definition kKeyboardHandle : Z := 1.
Definition kMouseHandle : Z := 1.

Record KeyboardState := mkKeyboard { keyCode : Z; scanCode : Z; pressed : bool; key_time : Z }.
Definition sceKeyboardCloseHandle (handle : Z) : Z := if handle =? kKeyboardHandle then kOk else kErrNotFound.
Definition sceKeyboardReadState (handle : Z) (out : bool) (k : KeyboardState) : Z * bytes :=
  if negb (handle =? kKeyboardHandle) then (kErrNotFound, [])
  else if negb out then (kErrInvalidArg, [])
  else (kOk, le_encode 4 (keyCode k) ++ le_encode 4 (scanCode k) ++ [if pressed k then 1 else 0; 0; 0; 0] ++ replicate 4 0 ++
             le_encode 8 (key_time k)).

Record MouseState := mkMouse { mouse_x : Z; mouse_y : Z; deltaX : Z; deltaY : Z; mouse_buttons : Z; mouse_time : Z }.
Definition sceMouseCloseHandle (handle : Z) : Z := if handle =? kMouseHandle then kOk else kErrNotFound.
Definition sceMouseRead (handle : Z) (out : bool) (m : MouseState) : Z * bytes :=
  if negb (handle =? kMouseHandle) then (kErrNotFound, [])
  else if negb out then (kErrInvalidArg, [])
  else (kOk, le_encode 4 (mouse_x m) ++ le_encode 4 (mouse_y m) ++ le_encode 4 (deltaX m) ++ le_encode 4 (deltaY m) ++
             le_encode 4 (mouse_buttons m) ++ replicate 4 0 ++ le_encode 8 (mouse_time m)).
End SceInput.

(** ** Polling *)
Section Polling.
Import InputManager.

Lemma attach_length gc s : length (m_controllers (attach gc s)) = length (m_controllers s) /\ m_pads (attach gc s) = m_pads s /\
  opened (attach gc s) = opened s.
Proof. unfold attach. destruct (free_slot s); [|done]. cbn. by rewrite length_insert. Qed.
Lemma handle_event_length inst e s : length (m_controllers (handle_event inst e s)) = length (m_controllers s) /\
  length (m_pads (handle_event inst e s)) = length (m_pads s).
Proof.
  destruct e as [b gc|w]; cbn [handle_event].
  - destruct (negb b || (gc =? 0)); [done|]. destruct (attach_length gc (with_opened (gc :: opened s) s)) as (-> & -> & _). done.
  - destruct (list_find _ _) as [[i gc]|]; [|done]. cbn. by rewrite !length_insert.
Qed.

(** The slots: four controllers (or null) and four pads; what is attached was opened
    and is closed once. *)
Definition attached (s : t) : list Z := filter (fun gc => gc <> 0) (m_controllers s).
Record input_ok (s : t) : Prop := mkInputOk {
  io_controllers : length (m_controllers s) = kMaxPads;
  io_pads : length (m_pads s) = kMaxPads;
  io_opened : attached s ⊆+ opened s
}.

Lemma attached_insert l i gc : l !! i = Some 0 -> gc <> 0 ->
  filter (fun x : Z => x <> 0) (<[i := gc]> l) ≡ₚ gc :: filter (fun x => x <> 0) l.
Proof.
  intros Hi Hgc. rewrite <- (take_drop_middle l i 0 Hi) at 2. rewrite insert_take_drop by (by eapply lookup_lt_Some).
  rewrite !filter_app, (filter_cons_True _ gc), filter_cons_False by (by auto). by rewrite Permutation_middle.
Qed.
Lemma attached_remove l i gc : l !! i = Some gc -> gc <> 0 ->
  filter (fun x : Z => x <> 0) l ≡ₚ gc :: filter (fun x => x <> 0) (<[i := 0]> l).
Proof.
  intros Hi Hgc. rewrite <- (take_drop_middle l i gc Hi) at 1. rewrite insert_take_drop by (by eapply lookup_lt_Some).
  rewrite !filter_app, (filter_cons_True _ gc), (filter_cons_False _ 0) by (by auto). by rewrite Permutation_middle.
Qed.
Lemma remove_one_perm x l : x ∈ l -> l ≡ₚ x :: remove_one x l.
Proof.
  induction l as [|y l IH]; [by intros ?%elem_of_nil|]. cbn. destruct (Z.eqb_spec x y) as [->|Hne]; [done|].
  intros [->|Hin]%elem_of_cons; [done|]. rewrite (IH Hin) at 1. apply perm_swap.
Qed.
Lemma submseteq_remove x l k : x :: l ⊆+ k -> l ⊆+ remove_one x k.
Proof.
  intros H. assert (x ∈ k) as Hx by (eapply elem_of_submseteq; [|exact H]; by left).
  rewrite (remove_one_perm x k Hx) in H. apply submseteq_app_inv_l with (k := [x]) in H. done.
Qed.

Lemma attach_ok gc s : gc <> 0 -> length (m_controllers s) = kMaxPads -> length (m_pads s) = kMaxPads -> attached s ⊆+ opened s ->
  input_ok (attach gc (with_opened (gc :: opened s) s)).
Proof.
  intros Hgc Hc Hp Ho. set (s' := with_opened _ s). destruct (attach_length gc s') as (H1 & H2 & H3). split.
  - by rewrite H1.
  - by rewrite H2.
  - rewrite H3. unfold attach, attached. destruct (free_slot s') as [i|] eqn:E.
    + apply fmap_Some in E as ([j x] & Hf & ->). apply list_find_Some in Hf as (Hj & -> & _). cbn in *.
      rewrite attached_insert by done. by apply submseteq_skip.
    + cbn. by apply submseteq_cons.
Qed.
Lemma handle_event_ok inst e s : input_ok s -> input_ok (handle_event inst e s).
Proof.
  intros [Hc Hp Ho]. destruct (handle_event_length inst e s) as [H1 H2]. destruct e as [b gc|w]; cbn [handle_event] in *.
  - destruct (negb b || (gc =? 0)) eqn:E; [done|]. apply orb_false_iff in E as [_ Hgc%Z.eqb_neq]. by apply attach_ok.
  - destruct (list_find _ _) as [[i gc]|] eqn:E; [|done]. apply list_find_Some in E as (Hi & [Hgc _] & _).
    split; [by rewrite H1|by rewrite H2|]. cbn. unfold attached in *. cbn. apply submseteq_remove. by rewrite <- attached_remove.
Qed.
Lemma with_pad_ok i d s : input_ok s -> input_ok (with_pad i d s).
Proof. intros []. split; try done. cbn. by rewrite length_insert. Qed.
Lemma update_slot_ok look keys now s i : input_ok s -> input_ok (update_slot look keys now s i).
Proof.
  intros Hs. unfold update_slot, updatePadFromKeyboard, updatePadFromController. repeat case_match; try done; by apply with_pad_ok.
Qed.
Lemma foldl_ok {A} (f : t -> A -> t) l s : (forall s x, input_ok s -> input_ok (f s x)) -> input_ok s -> input_ok (foldl f s l).
Proof. intros Hf. revert s. induction l as [|x l IH]; intros s Hs; [done|]. cbn. by apply IH, Hf. Qed.
Lemma poll_ok inst events look keys now s : input_ok s -> input_ok (poll inst events look keys now s).
Proof. intros Hs. apply foldl_ok; [intros; by apply update_slot_ok|]. apply foldl_ok; [|done]. intros. by apply handle_event_ok. Qed.
Lemma initial_ok : input_ok initial.
Proof. done. Qed.
Lemma open_all_ok devices s : input_ok s -> input_ok (open_all devices s).
Proof.
  revert s. induction devices as [|[b gc] devices IH]; intros s Hs; [done|]. cbn [open_all]. destruct b; cbn [negb]; [|by apply IH].
  destruct (Z.eqb_spec gc 0); [by apply IH|]. apply IH. destruct Hs. by apply attach_ok.
Qed.

(** What a poll leaves in a slot. *)
Definition slot_pad (look : Z -> Snapshot) (keys : option (SdlKey -> bool)) (now : Z) (s : t) (i : nat) : PadData :=
  let gc := default 0 (m_controllers s !! i) in
  if negb (gc =? 0) then pad_of_controller (look gc) now
  else
    match i, keys with
    | O, Some ks => pad_of_keyboard ks now
    | _, _ => default no_pad (m_pads s !! i)
    end.
Lemma update_slot_spec look keys now s i : input_ok s -> (i < kMaxPads)%nat ->
  m_controllers (update_slot look keys now s i) = m_controllers s /\
  m_pads (update_slot look keys now s i) = <[i := slot_pad look keys now s i]> (m_pads s).
Proof.
  intros [Hc Hp _] Hi. destruct (lookup_lt_is_Some_2 (m_controllers s) i) as [gc Hgc]; [by rewrite Hc|].
  destruct (lookup_lt_is_Some_2 (m_pads s) i) as [d Hd]; [by rewrite Hp|].
  unfold update_slot, slot_pad, updatePadFromController, updatePadFromKeyboard. rewrite Hgc, Hd. cbn [default from_option id].
  destruct (gc =? 0) eqn:E; cbn [negb]; [|done]. destruct i as [|i]; cbn [Nat.eqb negb]; [|by rewrite list_insert_id].
  rewrite Hgc. cbn [default from_option id]. rewrite E. cbn [negb]. destruct keys; [done|]. by rewrite list_insert_id.
Qed.
Lemma update_slots_spec look keys now n s : input_ok s -> (n <= kMaxPads)%nat ->
  let s' := foldl (update_slot look keys now) s (seq 0 n) in
  input_ok s' /\ m_controllers s' = m_controllers s /\
  forall i, (i < kMaxPads)%nat -> m_pads s' !! i = if (i <? n)%nat then Some (slot_pad look keys now s i) else m_pads s !! i.
Proof.
  intros Hs. induction n as [|n IH]; intros Hn; cbv zeta in *.
  { cbn [seq foldl]. split; [done|]. split; [done|]. intros i _. done. }
  rewrite seq_S, foldl_app. cbn [foldl Nat.add]. destruct IH as (Ho & Hc & Hi); [lia|].
  set (s1 := foldl _ s (seq 0 n)) in *. destruct (update_slot_spec look keys now s1 n Ho ltac:(lia)) as [Hc' Hp'].
  split; [by apply update_slot_ok|]. split; [by rewrite Hc'|]. intros i Hlt. rewrite Hp'.
  assert (slot_pad look keys now s1 n = slot_pad look keys now s n) as Hsame.
  { unfold slot_pad. rewrite Hc, (Hi n) by lia. by rewrite Nat.ltb_irrefl. }
  destruct (decide (i = n)) as [->|Hne].
  - rewrite list_lookup_insert_eq by (rewrite (io_pads _ Ho); lia). rewrite (proj2 (Nat.ltb_lt _ _)) by lia. by rewrite Hsame.
  - rewrite list_lookup_insert_ne by done. rewrite Hi by done. destruct (Nat.ltb_spec i n), (Nat.ltb_spec i (S n)); try done; lia.
Qed.

Lemma bits_set l b m : (b, m) ∈ l -> b = true -> forall n, Z.testbit m n = true -> Z.testbit (bits l) n = true.
Proof.
  intros Hin -> n Hm. unfold bits. assert (forall l acc, Z.testbit acc n = true -> Z.testbit (foldl (fun acc x => if x.1 : bool then Z.lor acc x.2 else acc) acc l) n = true) as Hk.
  { clear Hin. intros l'. induction l' as [|[c x] l' IH]; intros acc Ha; [done|]. cbn. apply IH. destruct c; [|done]. by rewrite Z.lor_spec, Ha. }
  revert Hin. generalize 0. induction l as [|[c x] l IH]; intros acc; [by intros ?%elem_of_nil|].
  intros [[= <- <-]|Hin]%elem_of_cons; cbn; [|by apply IH]. apply Hk. by rewrite Z.lor_spec, Hm, orb_true_r.
Qed.

Lemma trigger_high v : 0 <= v <= 32767 -> 128 <= triggerToByte v <= 255.
Proof.
  intros H. unfold triggerToByte. rewrite Z.shiftr_div_pow2 by lia. change (2 ^ 8) with 256.
  assert (128 <= (v + 32768) / 256 <= 255) as Hd by (split; [apply Z.div_le_lower_bound|apply Z.lt_succ_r, Z.div_lt_upper_bound]; lia).
  rewrite wrap_id by (unfold in_width; lia). done.
Qed.

End Polling.

(** A poll fills each pad with a controller from that controller, pad 0 from the
    keyboard when it has none, and leaves the others as the events left them; and since
    SDL reports triggers between 0 and 32767, every pad with a controller always has L2
    and R2 pressed, with strengths of at least 128. *)
Theorem poll_pads inst events look keys now s (i : Z) :
  input_ok s -> 0 <= i < Z.of_nat InputManager.kMaxPads ->
  (forall gc, 0 <= InputManager.axis (look gc) InputManager.TRIGGERLEFT <= 32767 /\
              0 <= InputManager.axis (look gc) InputManager.TRIGGERRIGHT <= 32767) ->
  let s1 := foldl (fun s e => InputManager.handle_event inst e s) s events in
  let s2 := InputManager.poll inst events look keys now s in
  InputManager.m_controllers s2 = InputManager.m_controllers s1 /\
  InputManager.padState i s2 = slot_pad look keys now s1 (Z.to_nat i) /\
  (default 0 (InputManager.m_controllers s1 !! Z.to_nat i) <> 0 ->
     let d := InputManager.padState i s2 in
     Z.testbit (InputManager.buttons d) 8 = true /\ Z.testbit (InputManager.buttons d) 9 = true /\
     128 <= InputManager.l2 d <= 255 /\ 128 <= InputManager.r2 d <= 255).
Proof.
  intros Hs Hi Hsdl s1 s2. assert (input_ok s1) as H1 by (apply foldl_ok; [intros; by apply handle_event_ok|done]).
  destruct (update_slots_spec look keys now InputManager.kMaxPads s1 H1 ltac:(lia)) as (H2 & Hc & Hp).
  fold s1 in Hc, Hp. change (foldl _ s1 (seq 0 InputManager.kMaxPads)) with s2 in Hc, Hp. split; [done|].
  assert (InputManager.padState i s2 = slot_pad look keys now s1 (Z.to_nat i)) as Hpad.
  { unfold InputManager.padState. rewrite (proj2 (Z.ltb_ge _ _)), (proj2 (Z.leb_gt _ _)) by lia. cbn [orb].
    rewrite Hp by lia. by rewrite (proj2 (Nat.ltb_lt _ _)) by lia. }
  split; [done|]. intros Hgc. cbv zeta. rewrite Hpad. unfold slot_pad. rewrite (proj2 (Z.eqb_neq _ _) Hgc). cbn [negb].
  destruct (Hsdl (default 0 (InputManager.m_controllers s1 !! Z.to_nat i))) as [Hl Hr].
  pose proof (trigger_high _ Hl) as Tl. pose proof (trigger_high _ Hr) as Tr.
  split; [|split; [|by split]].
  - eapply bits_set; [do 14 right; left; reflexivity|apply Z.ltb_lt; lia|reflexivity].
  - eapply bits_set; [do 15 right; left; reflexivity|apply Z.ltb_lt; lia|reflexivity].
Qed.

(** *** Opens and closes *)
Section Closing.
Import InputManager.

Lemma replicate_slide (n : nat) (l : list Z) : replicate n 0 ++ 0 :: l = replicate (S n) 0 ++ l.
Proof. by rewrite (cons_middle 0), app_assoc, <- replicate_cons_app. Qed.
Lemma close_slots_spec n s : input_ok s -> (n <= kMaxPads)%nat ->
  let s' := close_slots n s in
  m_controllers s' = replicate n 0 ++ drop n (m_controllers s) /\ m_sdlControllerReady s' = m_sdlControllerReady s /\
  opened s ≡ₚ filter (fun gc => gc <> 0) (take n (m_controllers s)) ++ opened s'.
Proof.
  intros [Hl _ Ho]. induction n as [|n IH]; intros Hn; cbv zeta in *; [done|].
  destruct IH as (Hc & Hr & Hp); [lia|]. cbn [close_slots]. set (s1 := close_slots n s) in *.
  destruct (lookup_lt_is_Some_2 (m_controllers s) n) as [gc Hgc]; [lia|].
  assert (m_controllers s1 !! n = Some gc) as Hgc1.
  { rewrite Hc, lookup_app_r, length_replicate by (rewrite length_replicate; lia). by rewrite lookup_drop, Nat.sub_diag, Nat.add_0_r. }
  assert (m_controllers s1 = replicate n 0 ++ gc :: drop (S n) (m_controllers s)) as Hc1 by (by rewrite Hc, (drop_S _ _ _ Hgc)).
  rewrite Hgc1, (take_S_r _ _ _ Hgc), filter_app. destruct (Z.eqb_spec gc 0) as [->|Hne].
  - rewrite filter_cons_False by auto. rewrite filter_nil, app_nil_r. split; [|done].
    by rewrite Hc1, replicate_slide.
  - rewrite filter_cons_True by auto. cbn [with_controller m_controllers SDL_GameControllerClose with_opened m_sdlControllerReady opened].
    split; [|split; [done|]].
    + rewrite Hc1, insert_app_r_alt by (rewrite length_replicate; lia). rewrite length_replicate, Nat.sub_diag. cbn.
      by rewrite replicate_slide.
    + rewrite filter_nil, <- app_assoc. cbn [app]. rewrite <- remove_one_perm; [done|].
      assert (filter (fun x : Z => x <> 0) (take n (m_controllers s)) ++ [gc] ⊆+ opened s) as Hsub.
      { etrans; [|exact Ho]. unfold attached. rewrite <- (take_drop_middle _ _ _ Hgc) at 2. rewrite filter_app, filter_cons_True by auto.
        apply submseteq_app; [done|]. apply submseteq_skip, submseteq_nil_l. }
      rewrite Hp in Hsub. apply submseteq_app_inv_l in Hsub. by apply singleton_submseteq_l.
Qed.

Inductive reach : t -> Prop :=
  | reach_initial : reach initial
  | reach_init b devices s : reach s -> reach (init b devices s).1
  | reach_poll inst events look keys now s : reach s -> reach (poll inst events look keys now s)
  | reach_shutdown s : reach s -> reach (shutdown s).

Lemma shutdown_spec s : input_ok s -> m_controllers (shutdown s) = replicate kMaxPads 0 /\ m_pads (shutdown s) = m_pads s /\
  opened s ≡ₚ attached s ++ opened (shutdown s).
Proof.
  intros Hs. destruct (close_slots_spec kMaxPads s Hs ltac:(lia)) as (Hc & Hr & Hp). pose proof (io_controllers _ Hs) as Hl.
  rewrite drop_ge, app_nil_r in Hc by lia. rewrite take_ge in Hp by lia.
  assert (forall n, m_pads (close_slots n s) = m_pads s) as Hpads.
  { intros n. induction n as [|n IH]; [done|]. cbn [close_slots]. repeat case_match; done. }
  unfold shutdown. pose proof (Hpads kMaxPads). destruct (m_sdlControllerReady (close_slots kMaxPads s)); by split.
Qed.
Lemma reach_ok s : reach s -> input_ok s.
Proof.
  induction 1 as [|b devices s _ IH|inst events look keys now s _ IH|s _ IH]; [done| |by apply poll_ok|].
  - unfold init. destruct b; cbn [negb fst]; [|by destruct IH]. apply open_all_ok. by destruct IH.
  - destruct (shutdown_spec s IH) as (Hc & Hp & Ho). split; [by rewrite Hc|by rewrite Hp; apply IH|].
    unfold attached. rewrite Hc. apply submseteq_nil_l.
Qed.
End Closing.

(** A controller is closed only when it was opened and once per open: at any time
    the attached controllers are among the open ones, and [shutdown] closes exactly the
    attached ones. A device that SDL announces though it is attached takes a second slot;
    when it leaves, only one is cleared, and the other goes on reading it. *)
Theorem controllers_closed_once s gc inst :
  reach s ->
  attached s ⊆+ InputManager.opened s /\
  InputManager.opened s ≡ₚ attached s ++ InputManager.opened (InputManager.shutdown s) /\
  attached (InputManager.shutdown s) = [] /\
  (gc <> 0 -> gc ∈ attached s -> is_Some (InputManager.free_slot s) ->
     let s1 := InputManager.handle_event inst (InputManager.DeviceAdded true gc) s in
     let s2 := InputManager.handle_event inst (InputManager.DeviceRemoved (inst gc)) s1 in
     (forall x, inst x = inst gc -> x = gc) -> attached s1 ≡ₚ gc :: attached s /\ gc ∈ attached s2).
Proof.
  intros Hr. pose proof (reach_ok s Hr) as Hs. destruct (shutdown_spec s Hs) as (Hc & _ & Ho).
  split; [apply Hs|]. split; [done|]. split; [unfold attached; by rewrite Hc|]. intros Hgc Hin [i Hi] s1 s2 Hinj.
  assert (attached s1 ≡ₚ gc :: attached s) as H1.
  { unfold s1. cbn [InputManager.handle_event negb orb]. rewrite (proj2 (Z.eqb_neq _ _) Hgc). unfold InputManager.attach.
    set (s' := InputManager.with_opened _ s). assert (InputManager.free_slot s' = Some i) as -> by exact Hi.
    apply fmap_Some in Hi as ([j x] & Hf & ->). apply list_find_Some in Hf as (Hj & -> & _). unfold attached. cbn. by apply attached_insert. }
  split; [done|]. unfold s2. cbn [InputManager.handle_event]. destruct (list_find _ _) as [[j y]|] eqn:E.
  - apply list_find_Some in E as (Hj & [Hy0 Hy] & _). rewrite (Hinj y Hy) in *.
    assert (attached s1 ≡ₚ gc :: filter (fun x => x <> 0) (<[j := 0]> (InputManager.m_controllers s1))) as H2 by (by apply attached_remove).
    rewrite H1 in H2. apply Permutation_cons_inv in H2.
    refine (proj1 (elem_of_Permutation_proper gc _ _ H2) Hin).
  - rewrite H1. by left.
Qed.

(** *** Handles *)
Lemma find_str_skip c pat l s : c ∉ l -> find_str (c :: pat) (l ++ s) = (fun i => length l + i)%nat <$> find_str (c :: pat) s.
Proof.
  induction l as [|x l IH]; intros Hc; cbn [app length].
  - by destruct (find_str (c :: pat) s).
  - apply not_elem_of_cons in Hc as [Hx Hl]. cbn [find_str length take]. rewrite bool_decide_eq_false_2 by congruence.
    rewrite IH by done. by destruct (find_str (c :: pat) s).
Qed.
Lemma find_str_here pat s : find_str pat (pat ++ s) = Some 0%nat.
Proof.
  destruct (pat ++ s) eqn:E; cbn; rewrite bool_decide_eq_true_2; try done; rewrite <- E; by rewrite take_app_length.
Qed.
Lemma atoi_digit i post : 0 <= i <= 9 -> (forall c, head post = Some c -> ~ 48 <= c <= 57) -> ScePad.atoi (48 + i :: post) = Some i.
Proof.
  intros Hi Hp. unfold ScePad.atoi. cbn [ScePad.skip_spaces]. unfold ScePad.is_space.
  rewrite (proj2 (Z.eqb_neq _ _)) by lia. rewrite (proj2 (Z.leb_gt (48 + i) 13)) by lia. rewrite andb_false_r. cbn [orb].
  assert (ScePad.digits 0 (48 + i :: post) = i) as Hd.
  { cbn [ScePad.digits]. rewrite (proj2 (Z.leb_le _ _)), (proj2 (Z.leb_le _ _)) by lia. cbn [andb].
    destruct post as [|c post]; cbn [ScePad.digits]; [lia|]. specialize (Hp c eq_refl).
    destruct (Z.leb_spec 48 c), (Z.leb_spec c 57); cbn [andb]; lia. }
  rewrite (proj2 (Z.eqb_neq _ 45)), (proj2 (Z.eqb_neq _ 43)), Hd by lia.
  by rewrite (proj2 (Z.leb_le _ _)), (proj2 (Z.ltb_lt _ _)) by lia.
Qed.

Lemma file_index sema fd pre i post hostPath flags :
  105 ∉ pre -> 0 <= i <= 9 -> (forall c, head post = Some c -> ~ 48 <= c <= 57) ->
  ScePad.pad_index sema (FileHandle fd (pre ++ cstr "index=" ++ [48 + i] ++ post) hostPath flags) = Some (Some i).
Proof.
  intros Hpre Hi Hpost. unfold ScePad.pad_index, ScePad.describe, ScePad.describe_fd.
  set (tail := cstr "index=" ++ [48 + i] ++ post ++ [34] ++ cstr "}").
  set (front := cstr "le{fd=" ++ to_string fd ++ cstr ", guest=" ++ [34] ++ pre).
  match goal with |- context [find_str _ ?d] => assert (d = cstr "Fi" ++ front ++ tail) as Ed end.
  { unfold front, tail. change (cstr "{fd=") with ([123; 102; 100; 61]). cbn [cstr app]. by rewrite <- !app_assoc. }
  rewrite Ed. assert (105 ∉ front) as Hfront.
  { assert (forall l : bytes, bool_decide (105 ∈ l) = false -> 105 ∉ l) as Hb by (intros l; by intros ?%bool_decide_eq_false).
    unfold front. rewrite !not_elem_of_app. split_and!; [by apply Hb| |by apply Hb|by apply Hb|done].
    intros H%dec_digits_range. lia. }
  assert (find_str (cstr "index=") (cstr "Fi" ++ front ++ tail) = Some (2 + length front)%nat) as Hf.
  { assert (find_str (cstr "index=") (front ++ tail) = Some (length front)) as H1.
    { change (cstr "index=") with (105 :: cstr "ndex=") at 1. rewrite find_str_skip by done.
      unfold tail. change (105 :: cstr "ndex=") with (cstr "index="). rewrite find_str_here. cbn. by rewrite Nat.add_0_r. }
    change (cstr "Fi" ++ front ++ tail) with (70 :: 105 :: front ++ tail). cbn [find_str].
    rewrite bool_decide_eq_false_2 by done. rewrite bool_decide_eq_false_2 by (unfold front; cbn; done). by rewrite H1. }
  rewrite Hf. f_equal. change (cstr "Fi" ++ front ++ tail) with ((70 :: 105 :: front) ++ tail).
  rewrite drop_app_ge by (cbn [length]; lia). cbn [length].
  replace (2 + length front + 6 - S (S (length front)))%nat with 6%nat by lia.
  unfold tail. cbn [cstr app drop]. apply atoi_digit; [done|]. intros c Hc.
  destruct post as [|x post]; cbn in Hc; [injection Hc as <-; lia|by apply Hpost].
Qed.

(** The pad library takes any object for a pad whose text says so: a file that the
    guest opened under a name with [index=] and a digit below 4 reads as that pad, and
    [scePadClose] closes any handle of the process, whatever it is. *)
Theorem pad_handles_confused sema tbl h fd pre i post hostPath flags s :
  HandleTable.get tbl h = Some (FileHandle fd (pre ++ cstr "index=" ++ [48 + i] ++ post) hostPath flags) ->
  105 ∉ pre -> 0 <= i < 4 -> (forall c, head post = Some c -> ~ 48 <= c <= 57) ->
  ScePad.scePadReadState sema h true s tbl = Some (ScePad.kSceOk, InputManager.pad_bytes (InputManager.padState i s)) /\
  (forall h' o, HandleTable.get tbl h' = Some o -> exists tbl',
     ScePad.scePadClose h' tbl = (tbl', ScePad.kSceOk, Some o) /\ HandleTable.get tbl' h' = None).
Proof.
  intros Hh Hpre Hi Hpost. split.
  - unfold ScePad.scePadReadState. cbn [negb]. rewrite Hh, file_index by (try done; lia). cbn [mbind option_bind].
    change (Z.of_nat InputManager.kMaxPads) with 4. by rewrite (proj2 (Z.ltb_ge _ _)), (proj2 (Z.leb_gt _ _)) by lia.
  - intros h' o Ho. unfold ScePad.scePadClose, HandleTable.close. rewrite Ho. unfold HandleTable.get in *. rewrite Ho.
    eexists. split; [reflexivity|]. cbn. by rewrite lookup_delete_eq.
Qed.

(** ** Witnesses *)
Definition ex_look (gc : Z) : InputManager.Snapshot := InputManager.mkSnapshot (fun _ => false) (fun _ => 0).
Definition ex_keys (k : InputManager.SdlKey) : bool := match k with InputManager.K_W => true | _ => false end.
Definition ex_input : InputManager.t := (InputManager.init true [(true, 77)] InputManager.initial).1.
Lemma ex_input_reach : reach ex_input.
Proof. apply reach_init, reach_initial. Qed.
Lemma poll_pads_witness :
  let s := InputManager.poll id [] ex_look (Some ex_keys) 9 ex_input in
  InputManager.padState 0 s = slot_pad ex_look (Some ex_keys) 9 ex_input 0 /\ Z.testbit (InputManager.buttons (InputManager.padState 0 s)) 8 = true.
Proof.
  destruct (poll_pads id [] ex_look (Some ex_keys) 9 ex_input 0 (reach_ok _ ex_input_reach)) as (_ & H2 & H3).
  - split; [discriminate|reflexivity].
  - intros gc. split; split; discriminate.
  - split; [exact H2|]. apply H3. discriminate.
Defined.
Lemma controllers_closed_once_witness :
  let s1 := InputManager.handle_event id (InputManager.DeviceAdded true 77) ex_input in
  attached (InputManager.shutdown ex_input) = [] /\ 77 ∈ attached (InputManager.handle_event id (InputManager.DeviceRemoved 77) s1).
Proof.
  destruct (controllers_closed_once ex_input 77 id ex_input_reach) as (_ & _ & H1 & H2). split; [exact H1|].
  apply H2; [discriminate|vm_compute; by left|by exists 1%nat|done].
Defined.
Definition ex_table : HandleTable.t :=
  (HandleTable.registerObject HandleTable.initial (Some (FileHandle 5 (cstr "/app0/" ++ cstr "index=" ++ [48 + 2] ++ cstr ".bin") [] 0))).1.
Lemma pad_handles_confused_witness :
  ScePad.scePadReadState (fun _ => []) 3 true InputManager.initial ex_table = Some (ScePad.kSceOk, InputManager.pad_bytes InputManager.no_pad).
Proof.
  destruct (pad_handles_confused (fun _ => []) ex_table 3 5 (cstr "/app0/") 2 (cstr ".bin") [] 0 InputManager.initial) as [H _].
  - vm_compute. reflexivity.
  - apply (bool_decide_eq_false_1 (105 ∈ cstr "/app0/")). reflexivity.
  - lia.
  - intros c [= <-]. lia.
  - exact H.
Defined.
