(* ===== verification/Floats.v ===== *)
(** * Single-precision numbers

    A [float] is a binary32 number of the Standard Library's [SpecFloat], rounded to
    nearest even as the compiled code rounds. *)
From Stdlib Require Import SpecFloat.
From S2P Require Import Prelude.

Module F32.
Definition f32 : Type := spec_float.
Definition mul (x y : f32) : f32 := SFmul 24 128 x y.
Definition div (x y : f32) : f32 := SFdiv 24 128 x y.
Definition add (x y : f32) : f32 := SFadd 24 128 x y.
(** The float nearest to an integer, and to [m * 2 ^ e]. *)
Definition of_Z (z : Z) : f32 := binary_normalize 24 128 z 0 false.
Definition make (m e : Z) : f32 := binary_normalize 24 128 m e false.
(** The number with this bit pattern. *)
Definition of_bits (b : Z) : f32 :=
  let sign := Z.testbit b 31 in
  let e := Z.land (Z.shiftr b 23) 255 in
  let m := Z.land b (2 ^ 23 - 1) in
  if e =? 255 then (if m =? 0 then S754_infinity sign else S754_nan)
  else
    match (if e =? 0 then m else m + 2 ^ 23) with
    | Zpos p => S754_finite sign p (if e =? 0 then -149 else e - 150)
    | _ => S754_zero sign
    end.
(** [static_cast<int>]: towards zero, defined when the result fits. *)
Definition to_int (x : f32) : option Z :=
  match x with
  | S754_zero _ => Some 0
  | S754_finite s m e =>
      let v := if 0 <=? e then Zpos m * 2 ^ e else Zpos m / 2 ^ (- e) in
      let v := if s then - v else v in
      if (- 2 ^ 31 <=? v) && (v <? 2 ^ 31) then Some v else None
  | _ => None
  end.
(** [std::clamp]: a NaN stays. *)
Definition clamp (v lo hi : f32) : f32 := if SFltb v lo then lo else if SFltb hi v then hi else v.
Definition zero : f32 := of_Z 0.
Definition one : f32 := of_Z 1.
Definition eqb (x y : f32) : bool := SFeqb x y.
End F32.
