(* ===== verification/Audio.v ===== *)
(** * Audio

    [audio/AudioManager.cpp], [audio/Ngs2Grapth.cpp] (the mixer), [sce/audio/SceAudioOut.cpp]
    and [sce/ngs2/SceNgs2.cpp].  An operation that reads past a buffer, or converts a float
    that no [int] holds, has no result.  [cos] and [sin] are parameters. *)
From Stdlib Require Import SpecFloat.
From S2P Require Import Prelude Floats Handles.

Import F32.

Definition clampZ (v lo hi : Z) : Z := if v <? lo then lo else if hi <? v then hi else v.

(** ** AudioManager.cpp *)
Module AudioManager.
Record Port := mkPort { port_id : Z; channels : Z; sampleRate : Z; granularity : Z; is_open : bool }.
(** [m_sdl] is the rate of the device, when there is one; [queued] the stereo frames
    that SDL was given. *)
Record t := mkAudio {
  m_ports : list Port;
  m_nextPortId : Z;
  m_leftVolume : Z;
  m_rightVolume : Z;
  m_sdl : option Z;
  queued : list (Z * Z)
}.
Definition initial : t := mkAudio [] 1 128 128 None [].
Definition with_ports p n (a : t) : t := mkAudio p n (m_leftVolume a) (m_rightVolume a) (m_sdl a) (queued a).
Definition enqueue l (a : t) : t :=
  mkAudio (m_ports a) (m_nextPortId a) (m_leftVolume a) (m_rightVolume a) (m_sdl a) (queued a ++ l).

(** [device] is the rate SDL opened, or none. *)
Definition init (device : option Z) (a : t) : t * bool :=
  (mkAudio (m_ports a) (m_nextPortId a) (m_leftVolume a) (m_rightVolume a) device (queued a), bool_decide (is_Some device)).
Definition shutdown (a : t) : t := mkAudio [] (m_nextPortId a) (m_leftVolume a) (m_rightVolume a) None (queued a).

Definition openPort (ch rate gran : Z) (a : t) : t * Z :=
  if negb ((ch =? 1) || (ch =? 2)) then (a, -1)
  else
    let rate := if rate <=? 0 then default 48000 (m_sdl a) else rate in
    if gran <=? 0 then (a, -1)
    else if existsb is_open (m_ports a) then (a, -1)
    else
      let id := m_nextPortId a in
      (with_ports (m_ports a ++ [mkPort id ch rate gran true]) (id + 1) a, id).

Definition close_one (p : Port) : Port := mkPort (port_id p) (channels p) (sampleRate p) (granularity p) false.
(** The first port with the id. *)
Fixpoint close_first (id : Z) (l : list Port) : option (list Port) :=
  match l with
  | [] => None
  | p :: l => if port_id p =? id then Some (close_one p :: l) else cons p <$> close_first id l
  end.
Definition closePort (id : Z) (a : t) : t * bool :=
  match close_first id (m_ports a) with None => (a, false) | Some l => (with_ports l (m_nextPortId a) a, true) end.

Fixpoint pairs (l : list Z) : list (Z * Z) :=
  match l with x :: y :: l => (x, y) :: pairs l | _ => [] end.
(** [data] is the samples that can be read from the pointer on; [None] is null. *)
Definition output (id : Z) (data : option (list Z)) (numSamples : Z) (a : t) : option (t * bool) :=
  match data with
  | None => Some (a, false)
  | Some data =>
      if numSamples =? 0 then Some (a, false)
      else if negb (bool_decide (is_Some (m_sdl a))) then Some (a, false)
      else
        match find (fun p => (port_id p =? id) && is_open p) (m_ports a) with
        | None => Some (a, false)
        | Some p =>
            let n := Z.to_nat (numSamples * (if channels p =? 2 then 2 else 1)) in
            if (length data <? n)%nat then None
            else Some (enqueue (if channels p =? 2 then pairs (take n data) else (fun x => (x, x)) <$> take n data) a, true)
        end
  end.
Definition setMasterVolume (left right : Z) (a : t) : t :=
  mkAudio (m_ports a) (m_nextPortId a) (clampZ left 0 255) (clampZ right 0 255) (m_sdl a) (queued a).
End AudioManager.

(** ** SceAudioOut.cpp *)
Module SceAudioOut.
Definition kSceOk : Z := 0.
Definition kSceErrorInvalidArg : Z := i32 0x80020005.
Definition kSceErrorNotFound : Z := i32 0x80020004.
Definition kSceErrorNoMemory : Z := i32 0x80020002.

Definition lookupPortId (tbl : HandleTable.t) (h : Z) : Z :=
  match HandleTable.get tbl h with Some (PortHandleObj p) => p | _ => -1 end.

Definition sceAudioOutOpen (len freq : Z) (a : AudioManager.t) (tbl : HandleTable.t) : AudioManager.t * HandleTable.t * Z :=
  if (len =? 0) || (freq =? 0) then (a, tbl, kSceErrorInvalidArg)
  else
    let '(a, portId) := AudioManager.openPort 2 (i32 freq) (i32 len) a in
    if portId <? 0 then (a, tbl, kSceErrorNoMemory)
    else let '(tbl, h) := HandleTable.registerObject tbl (Some (PortHandleObj portId)) in (a, tbl, h).
Definition sceAudioOutClose (handle : Z) (a : AudioManager.t) (tbl : HandleTable.t) : AudioManager.t * HandleTable.t * Z :=
  let portId := lookupPortId tbl handle in
  if portId <? 0 then (a, tbl, kSceErrorNotFound)
  else ((AudioManager.closePort portId a).1, (HandleTable.close tbl handle).1.1, kSceOk).
Definition kDefaultSamples : Z := 512.
Definition sceAudioOutOutput (handle : Z) (ptr : option (list Z)) (a : AudioManager.t) (tbl : HandleTable.t) : option (AudioManager.t * Z) :=
  match ptr with
  | None => Some (a, kSceErrorInvalidArg)
  | Some _ =>
      let portId := lookupPortId tbl handle in
      if portId <? 0 then Some (a, kSceErrorNotFound)
      else '(a, ok) ← AudioManager.output portId ptr kDefaultSamples a; Some (a, if ok : bool then kSceOk else kSceErrorInvalidArg)
  end.
(** Two ints behind the pointer. *)
Definition sceAudioOutSetVolume (handle : Z) (vol : option (Z * Z)) (a : AudioManager.t) (tbl : HandleTable.t) : AudioManager.t * Z :=
  match vol with
  | None => (a, kSceErrorInvalidArg)
  | Some (l, r) => if lookupPortId tbl handle <? 0 then (a, kSceErrorNotFound) else (AudioManager.setMasterVolume l r a, kSceOk)
  end.
End SceAudioOut.

(** ** Ngs2Graph.cpp *)
Module Ngs2Graph.
Record Voice := mkVoice {
  voice_id : Z;
  pcm : list Z;
  cursor : nat;
  gain : f32;
  panLeft : f32;
  panRight : f32;
  playing : bool;
  loop : bool
}.
Definition new_voice (id : Z) : Voice := mkVoice id [] 0 one one one false false.
Definition with_pcm l (v : Voice) : Voice := mkVoice (voice_id v) l 0 (gain v) (panLeft v) (panRight v) (playing v) (loop v).
Definition with_cursor c (v : Voice) : Voice := mkVoice (voice_id v) (pcm v) c (gain v) (panLeft v) (panRight v) (playing v) (loop v).
Definition with_gain g (v : Voice) : Voice := mkVoice (voice_id v) (pcm v) (cursor v) g (panLeft v) (panRight v) (playing v) (loop v).
Definition with_pan l r (v : Voice) : Voice := mkVoice (voice_id v) (pcm v) (cursor v) (gain v) l r (playing v) (loop v).
Definition with_playing p l (v : Voice) : Voice := mkVoice (voice_id v) (pcm v) (cursor v) (gain v) (panLeft v) (panRight v) p l.

Record t := mkGraph {
  m_voices : list Voice;
  m_nextVoiceId : Z;
  m_sampleRate : Z;
  m_channels : Z;
  m_portId : Z;
  m_masterGain : f32;
  m_running : bool
}.
Definition initial : t := mkGraph [] 1 48000 2 (-1) one false.
Definition with_voices l (g : t) : t := mkGraph l (m_nextVoiceId g) (m_sampleRate g) (m_channels g) (m_portId g) (m_masterGain g) (m_running g).

(** [am] is the bound audio manager, if any. *)
Definition initialize (rate ch : Z) (g : t) (am : option AudioManager.t) : t * option AudioManager.t * bool :=
  if m_running g then (g, am, true)
  else
    match am with
    | None => (g, am, false)
    | Some a =>
        let '(a, port) := AudioManager.openPort ch rate 512 a in
        if port <? 0 then (mkGraph (m_voices g) (m_nextVoiceId g) (m_sampleRate g) (m_channels g) port (m_masterGain g) false, Some a, false)
        else (mkGraph (m_voices g) (m_nextVoiceId g) rate ch port (m_masterGain g) true, Some a, true)
    end.
Definition shutdown (g : t) (am : option AudioManager.t) : t * option AudioManager.t :=
  if negb (m_running g) then (g, am)
  else
    let am := if 0 <=? m_portId g then (fun a => (AudioManager.closePort (m_portId g) a).1) <$> am else am in
    (mkGraph [] (m_nextVoiceId g) (m_sampleRate g) (m_channels g) (if 0 <=? m_portId g then -1 else m_portId g) (m_masterGain g) false, am).

Definition addVoice (g : t) : t * Z :=
  let id := m_nextVoiceId g in
  (mkGraph (m_voices g ++ [new_voice id]) (u32 (id + 1)) (m_sampleRate g) (m_channels g) (m_portId g) (m_masterGain g) (m_running g), id).
Fixpoint remove_first (id : Z) (l : list Voice) : option (list Voice) :=
  match l with
  | [] => None
  | v :: l => if voice_id v =? id then Some l else cons v <$> remove_first id l
  end.
Definition removeVoice (id : Z) (g : t) : t * bool :=
  match remove_first id (m_voices g) with None => (g, false) | Some l => (with_voices l g, true) end.
Definition voice (id : Z) (g : t) : option (nat * Voice) := list_find (fun v => voice_id v = id) (m_voices g).
Definition on_voice (id : Z) (f : Voice -> Voice * bool) (g : t) : t * bool :=
  match voice id g with
  | None => (g, false)
  | Some (i, v) => let '(v, ok) := f v in (with_voices (<[i := v]> (m_voices g)) g, ok)
  end.

Definition totalFrames (v : Voice) : nat := length (pcm v) / 2.
Definition playVoice (id : Z) (lp : bool) : t -> t * bool :=
  on_voice id (fun v =>
    if bool_decide (pcm v = []) then (v, false)
    else
      let v := with_playing true lp v in
      (if (totalFrames v <=? cursor v)%nat then with_cursor 0 v else v, true)).
Definition stopVoice (id : Z) : t -> t * bool := on_voice id (fun v => (with_cursor 0 (with_playing false (loop v) v), true)).
(** [data] is the samples that can be read from the pointer on. *)
Definition setVoicePcm (id : Z) (data : option (list Z)) (frames : Z) (g : t) : option (t * bool) :=
  match voice id g, data with
  | Some _, Some data =>
      let samples := Z.to_nat (u64 (frames * m_channels g)) in
      if (length data <? samples)%nat then None else Some (on_voice id (fun v => (with_pcm (take samples data) v, true)) g)
  | _, _ => Some (g, false)
  end.
Definition setVoiceGain (id : Z) (x : f32) : t -> t * bool := on_voice id (fun v => (with_gain (clamp x zero (of_Z 8)) v, true)).
Definition setVoicePan (cosf sinf : f32 -> f32) (id : Z) (pan : f32) : t -> t * bool :=
  on_voice id (fun v =>
    let pan := clamp pan (of_Z (-1)) one in
    let theta := mul (mul (add pan one) (make 1 (-2))) (make 13176795 (-22)) in
    (with_pan (cosf theta) (sinf theta) v, true)).
Definition setMasterGain (x : f32) (g : t) : t :=
  mkGraph (m_voices g) (m_nextVoiceId g) (m_sampleRate g) (m_channels g) (m_portId g) (clamp x zero (of_Z 4)) (m_running g).
Definition activeVoiceCount (g : t) : nat := length (filter (fun v => playing v = true) (m_voices g)).

(** *** The mixer thread *)
Definition kBlockFrames : nat := 512.

(** The next [n] frames of a voice: silence after its end. *)
Fixpoint fetch (n : nat) (v : Voice) : option (Voice * list (Z * Z)) :=
  match n with
  | O => Some (v, [])
  | S n' =>
      if (totalFrames v <=? cursor v)%nat && negb (loop v) then Some (with_playing false (loop v) v, replicate n (0, 0))
      else
        let c := if (totalFrames v <=? cursor v)%nat then 0%nat else cursor v in
        l ← pcm v !! (c * 2)%nat;
        r ← pcm v !! (c * 2 + 1)%nat;
        '(v, frames) ← fetch n' (with_cursor (S c) v);
        Some (v, (l, r) :: frames)
  end.

Definition int16 (x : Z) : Z := clampZ x (-32768) 32767.
Definition mix_sample (acc x : Z) (g : f32) : option Z := y ← to_int (mul (of_Z x) g); Some (int16 (acc + y)).
Fixpoint mix_frames (gl gr : f32) (buf frames : list (Z * Z)) : option (list (Z * Z)) :=
  match buf, frames with
  | (al, ar) :: buf, (l, r) :: frames =>
      l ← mix_sample al l gl;
      r ← mix_sample ar r gr;
      rest ← mix_frames gl gr buf frames;
      Some ((l, r) :: rest)
  | _, _ => Some buf
  end.
Definition mix_voice (v : Voice) (buf : list (Z * Z)) : option (Voice * list (Z * Z)) :=
  if negb (playing v) || bool_decide (pcm v = []) then Some (v, buf)
  else
    '(v, frames) ← fetch kBlockFrames v;
    buf ← mix_frames (mul (gain v) (panLeft v)) (mul (gain v) (panRight v)) buf frames;
    Some (v, buf).
Fixpoint mix_voices (vs : list Voice) (buf : list (Z * Z)) : option (list Voice * list (Z * Z)) :=
  match vs with
  | [] => Some ([], buf)
  | v :: vs =>
      '(v, buf) ← mix_voice v buf;
      '(vs, buf) ← mix_voices vs buf;
      Some (v :: vs, buf)
  end.
Definition scale (mg : f32) (x : Z) : option Z := y ← to_int (mul (of_Z x) mg); Some (int16 y).
Definition master (mg : f32) (buf : list (Z * Z)) : option (list (Z * Z)) :=
  if eqb mg one then Some buf
  else mapM (fun f => l ← scale mg f.1; r ← scale mg f.2; Some (l, r)) buf.
(** One turn of the loop, under the lock: the voices after it and the block. *)
Definition mixBlock (g : t) : option (t * list (Z * Z)) :=
  '(vs, buf) ← mix_voices (m_voices g) (replicate kBlockFrames (0, 0));
  buf ← master (m_masterGain g) buf;
  Some (with_voices vs g, buf).
End Ngs2Graph.

(** ** SceNgs2.cpp *)
Module SceNgs2.
Definition kOk : Z := 0.
Definition kErrInvalidArg : Z := i32 0x80020005.
Definition kErrNotFound : Z := i32 0x80020004.
Definition kErrNoMemory : Z := i32 0x80020002.
Definition kErrNotSupport : Z := i32 0x80020003.
Inductive ObjectKind := Rack | VoiceObject.
Record t := mkNgs2 { graph : Ngs2Graph.t; g_objects : gmap Z (ObjectKind * Z); g_nextHandle : Z }.
Definition initial : t := mkNgs2 Ngs2Graph.initial ∅ 1.
Definition with_graph g (s : t) : t := mkNgs2 g (g_objects s) (g_nextHandle s).
Definition with_objects m (s : t) : t := mkNgs2 (graph s) m (g_nextHandle s).

Definition allocateHandle (k : ObjectKind) (voiceId : Z) (s : t) : t * Z :=
  let h := g_nextHandle s in (mkNgs2 (graph s) (<[h := (k, voiceId)]> (g_objects s)) (h + 1), h).
Definition voice_of (h : Z) (s : t) : option Z :=
  match g_objects s !! h with Some (VoiceObject, id) => Some id | _ => None end.

(** Systems and racks; [out] says whether the result pointer is there. *)
Definition sceNgs2RackCreate (out : bool) (s : t) : t * Z * option Z :=
  if negb out then (s, kErrInvalidArg, None) else let '(s, h) := allocateHandle Rack 0 s in (s, kOk, Some h).
Definition sceNgs2SystemCreateWithAllocator := sceNgs2RackCreate.
Definition sceNgs2RackDestroy (rack : Z) (s : t) : t * Z := (with_objects (delete rack (g_objects s)) s, kOk).
Definition sceNgs2SystemDestroy := sceNgs2RackDestroy.
Definition sceNgs2VoiceCreate (out : bool) (s : t) : t * Z * option Z :=
  if negb out then (s, kErrInvalidArg, None)
  else
    let '(g, vid) := Ngs2Graph.addVoice (graph s) in
    let s := with_graph g s in
    if vid =? 0 then (s, kErrNoMemory, None)
    else let '(s, h) := allocateHandle VoiceObject vid s in (s, kOk, Some h).
Definition sceNgs2VoiceDestroy (h : Z) (s : t) : t * Z :=
  match g_objects s !! h with
  | None => (s, kErrNotFound)
  | Some (k, vid) =>
      let s := match k with VoiceObject => with_graph (Ngs2Graph.removeVoice vid (graph s)).1 s | Rack => s end in
      (with_objects (delete h (g_objects s)) s, kOk)
  end.

(** The value: its bytes, and the samples that its PCM pointer leads to ([None]: null). *)
Definition sceNgs2VoiceControl (cosf sinf : f32 -> f32) (h controlId : Z) (value : option bytes) (valueSize : Z)
    (samples : option (list Z)) (s : t) : option (t * Z) :=
  match voice_of h s with
  | None => Some (s, kErrNotFound)
  | Some vid =>
      match value with
      | None => Some (s, kErrInvalidArg)
      | Some value =>
          if controlId =? 0x0000 then
            if valueSize <? 4 then Some (s, kErrInvalidArg)
            else Some (with_graph (Ngs2Graph.setVoiceGain vid (of_bits (field value 0 4)) (graph s)).1 s, kOk)
          else if controlId =? 0x0001 then
            if valueSize <? 4 then Some (s, kErrInvalidArg)
            else Some (with_graph (Ngs2Graph.setVoicePan cosf sinf vid (of_bits (field value 0 4)) (graph s)).1 s, kOk)
          else if controlId =? 0x0010 then
            if valueSize <? 16 then Some (s, kErrInvalidArg)
            else
              let frames := field value 8 8 in
              if (field value 0 8 =? 0) || (frames =? 0) then Some (s, kErrInvalidArg)
              else '(g, _) ← Ngs2Graph.setVoicePcm vid samples frames (graph s); Some (with_graph g s, kOk)
          else Some (s, kErrNotSupport)
      end
  end.
Definition sceNgs2VoicePlay (h : Z) (lp : bool) (s : t) : t * Z :=
  match voice_of h s with
  | None => (s, kErrNotFound)
  | Some vid => let '(g, ok) := Ngs2Graph.playVoice vid lp (graph s) in (with_graph g s, if ok then kOk else kErrInvalidArg)
  end.
Definition sceNgs2VoiceStop (h : Z) (s : t) : t * Z :=
  match voice_of h s with
  | None => (s, kErrNotFound)
  | Some vid => let '(g, ok) := Ngs2Graph.stopVoice vid (graph s) in (with_graph g s, if ok then kOk else kErrInvalidArg)
  end.
Definition sceNgs2RackSetGain (gain : f32) (s : t) : t * Z := (with_graph (Ngs2Graph.setMasterGain gain (graph s)) s, kOk).

(** The library's start and end: a fresh graph, on the objects that are there; without
    one the calls above have nothing to run on. *)
Definition initialize (objects : gmap Z (ObjectKind * Z)) (next : Z) (am : option AudioManager.t) : option t * option AudioManager.t * bool :=
  let '(g, am, ok) := Ngs2Graph.initialize 48000 2 Ngs2Graph.initial am in
  if ok then (Some (mkNgs2 g objects next), am, true) else (None, am, false).
Definition shutdown (s : t) (am : option AudioManager.t) : option AudioManager.t := (Ngs2Graph.shutdown (graph s) am).2.
End SceNgs2.

(** ** One port *)
Section Ports.
Import AudioManager SceAudioOut.

Inductive Call :=
  | COpen (len freq : Z) | CClose (handle : Z) | COutput (handle : Z) (ptr : option (list Z)) | CVolume (handle : Z) (vol : option (Z * Z))
  | COther (o : HandleObject) | CCloseOther (handle : Z).

(** A guest call, with the code it answers; other libraries add and close handles. *)
Definition call (c : Call) (a : AudioManager.t) (tbl : HandleTable.t) : option (AudioManager.t * HandleTable.t * Z) :=
  match c with
  | COpen len freq => Some (sceAudioOutOpen len freq a tbl)
  | CClose h => Some (sceAudioOutClose h a tbl)
  | COutput h ptr => '(a, r) ← sceAudioOutOutput h ptr a tbl; Some (a, tbl, r)
  | CVolume h vol => let '(a, r) := sceAudioOutSetVolume h vol a tbl in Some (a, tbl, r)
  | COther o => let '(tbl, h) := HandleTable.registerObject tbl (Some o) in Some (a, tbl, h)
  | CCloseOther h => Some (a, (HandleTable.close tbl h).1.1, 0)
  end.
(** Only this library makes port objects. *)
Definition call_ok (c : Call) : bool := match c with COther (PortHandleObj _) => false | _ => true end.
Inductive cstep : AudioManager.t * HandleTable.t -> AudioManager.t * HandleTable.t -> Prop :=
  | cstep_call c a tbl a' tbl' r : call_ok c = true -> call c a tbl = Some (a', tbl', r) -> cstep (a, tbl) (a', tbl').

Definition open_ports (a : AudioManager.t) : list Port := filter (fun p => is_open p = true) (m_ports a).

(** The open port is one that no handle denotes. *)
Record taken (p : Z) (a : AudioManager.t) (tbl : HandleTable.t) : Prop := mkTaken {
  tk_port : exists q, q ∈ m_ports a /\ is_open q = true /\ port_id q = p;
  tk_handles : forall h, HandleTable.get tbl h <> Some (PortHandleObj p)
}.

Lemma close_first_elem id l l' q : close_first id l = Some l' -> q ∈ l -> port_id q <> id -> q ∈ l'.
Proof.
  revert l'. induction l as [|x l IH]; intros l' Hl Hq Hne; [done|]. cbn in Hl. destruct (Z.eqb_spec (port_id x) id).
  - injection Hl as <-. apply elem_of_cons in Hq as [->|Hq]; [done|]. by right.
  - apply fmap_Some in Hl as (k & Hk & ->). apply elem_of_cons in Hq as [->|Hq]; [by left|]. right. by eapply IH.
Qed.

Lemma taken_open_fails p a tbl ch rate gran : taken p a tbl -> openPort ch rate gran a = (a, -1).
Proof.
  intros [(q & Hq & Ho & _) _]. unfold openPort. destruct (negb _); [done|]. destruct (gran <=? 0); [done|].
  assert (existsb is_open (m_ports a) = true) as ->; [|done]. apply existsb_exists. exists q. split; [by apply list_elem_of_In|done].
Qed.

Lemma close_get tbl h h' o : HandleTable.get (HandleTable.close tbl h).1.1 h' = Some o -> HandleTable.get tbl h' = Some o.
Proof.
  unfold HandleTable.close, HandleTable.get. destruct (HandleTable.m_objects tbl !! h); [|done]. cbn.
  by intros [_ H]%lookup_delete_Some.
Qed.


Lemma lookup_port tbl h : 0 <= lookupPortId tbl h -> HandleTable.get tbl h = Some (PortHandleObj (lookupPortId tbl h)).
Proof. unfold lookupPortId. destruct (HandleTable.get tbl h) as [[]|]; intros H; try lia. done. Qed.
Lemma register_get tbl o h h' x : HandleTable.registerObject tbl (Some o) = (h, h') ->
  forall k, HandleTable.get h k = Some x -> x = o \/ HandleTable.get tbl k = Some x.
Proof.
  unfold HandleTable.registerObject, HandleTable.get. intros [= <- <-] k. cbn. unfold HandleTable.emplace.
  destruct (HandleTable.m_objects tbl !! HandleTable.m_next tbl); [by right|].
  intros [[<- <-]|[_ H]]%lookup_insert_Some; [by left|by right].
Qed.
Lemma output_ports id data n a a' ok : AudioManager.output id data n a = Some (a', ok) -> m_ports a' = m_ports a.
Proof. unfold output. intros H. repeat case_match; simplify_eq/=; done. Qed.

Lemma taken_step p x y : cstep x y -> taken p x.1 x.2 -> taken p y.1 y.2.
Proof.
  intros [c a tbl a' tbl' r Hok Hc] Ht. cbn [fst snd] in *. pose proof Ht as [(q & Hq & Ho & Hp) Hh].
  destruct c as [len freq|h|h ptr|h vol|o|h]; cbn [call] in Hc.
  - unfold sceAudioOutOpen in Hc. destruct ((len =? 0) || (freq =? 0)); [by injection Hc as <- <- _|].
    rewrite (taken_open_fails p a tbl) in Hc by done. by injection Hc as <- <- _.
  - unfold sceAudioOutClose in Hc. destruct (Z.ltb_spec (lookupPortId tbl h) 0); [by injection Hc as <- <- _|]. injection Hc as <- <- _.
    assert (lookupPortId tbl h <> p) as Hne.
    { intros E. apply (Hh h). rewrite <- E. by apply lookup_port. }
    split.
    + exists q. split; [|done]. unfold closePort. destruct (close_first _ _) as [l|] eqn:E; [|done]. cbn.
      eapply close_first_elem; [exact E|done|]. by rewrite Hp.
    + intros k Hk. apply close_get in Hk. by apply (Hh k).
  - destruct (sceAudioOutOutput h ptr a tbl) as [[a1 r1]|] eqn:E; [|done]. injection Hc as <- <- _. unfold sceAudioOutOutput in E.
    destruct ptr as [ptr|]; [|by injection E as <- _]. destruct (_ <? 0); [by injection E as <- _|].
    destruct (AudioManager.output _ _ _ _) as [[a2 ok]|] eqn:Eo; [|done]. injection E as <- _. apply output_ports in Eo.
    split; [|done]. exists q. by rewrite Eo.
  - unfold sceAudioOutSetVolume in Hc. destruct vol as [[l2 r2]|]; [|by injection Hc as <- <- _].
    destruct (_ <? 0); injection Hc as <- <- _; [done|]. split; [|done]. by exists q.
  - destruct (HandleTable.registerObject tbl (Some o)) as [t1 h1] eqn:E. injection Hc as <- <- _. split; [by exists q|].
    intros k Hk. destruct (register_get _ _ _ _ _ E k Hk) as [<-|Hk']; [done|]. by apply (Hh k).
  - injection Hc as <- <- _. split; [by exists q|]. intros k Hk. apply close_get in Hk. by apply (Hh k).
Qed.

(** The synthesizer library takes the only audio port: once it has started, with a
    handle table that holds no port, no sequence of the guest's audio calls, with other
    libraries adding and closing handles, ever opens a port - every [sceAudioOutOpen]
    with arguments it accepts answers that memory is short. *)
Theorem ngs2_takes_the_port objects next am am' s tbl a tbl1 len freq :
  SceNgs2.initialize objects next (Some am) = (Some s, Some am', true) ->
  (forall h p, HandleTable.get tbl h <> Some (PortHandleObj p)) ->
  rtc cstep (am', tbl) (a, tbl1) ->
  len <> 0 -> freq <> 0 -> sceAudioOutOpen len freq a tbl1 = (a, tbl1, kSceErrorNoMemory).
Proof.
  intros Hi Hn Hr Hl Hf. unfold SceNgs2.initialize, Ngs2Graph.initialize in Hi. cbn [Ngs2Graph.m_running Ngs2Graph.initial] in Hi.
  destruct (openPort 2 48000 512 am) as [a0 port] eqn:Eo. destruct (Z.ltb_spec port 0) as [|Hp]; [done|].
  assert (a0 = am') as -> by (by injection Hi).
  assert (taken port am' tbl) as Ht.
  { unfold openPort in Eo. cbn in Eo. destruct (existsb is_open (m_ports am)); [injection Eo as _ <-; lia|]. injection Eo as <- <-.
    split; [|intros h; apply Hn]. eexists. split; [cbn; apply elem_of_app; right; by left|done]. }
  assert (taken port a tbl1) as Ht'.
  { remember (am', tbl) as x eqn:Ex. remember (a, tbl1) as y eqn:Ey.
    assert (taken port x.1 x.2) as Hx by (by subst). assert (taken port y.1 y.2) as Hy; [|by subst].
    clear -Hr Hx. induction Hr; [done|]. eauto using taken_step. }
  unfold sceAudioOutOpen. rewrite (proj2 (Z.eqb_neq _ _) Hl), (proj2 (Z.eqb_neq _ _) Hf). cbn [orb].
  by rewrite (taken_open_fails port a tbl1).
Qed.
End Ports.

(** ** The mixer *)
Section Mixer.
Import Ngs2Graph.

Definition is_int16 (x : Z) : bool := (-32768 <=? x) && (x <=? 32767).
(** A check of every number of [n] bits below [z]. *)
Fixpoint all_bits (P : Z -> bool) (n : nat) (z : Z) : bool :=
  match n with O => P z | S n => all_bits P n (2 * z) && all_bits P n (2 * z + 1) end.
Lemma all_bits_spec P n z x : all_bits P n z = true -> z * 2 ^ Z.of_nat n <= x < (z + 1) * 2 ^ Z.of_nat n -> P x = true.
Proof.
  revert z. induction n as [|n IH]; intros z H Hx.
  - change (2 ^ Z.of_nat 0) with 1 in Hx. by replace x with z by lia.
  - cbn [all_bits] in H. apply andb_prop in H as [H1 H2]. rewrite Nat2Z.inj_succ, Z.pow_succ_r in Hx by lia.
    destruct (Z.lt_ge_cases x ((2 * z + 1) * 2 ^ Z.of_nat n)); [apply (IH _ H1)|apply (IH _ H2)]; lia.
Qed.
(** Every sample survives a unit gain: all of them are tried. *)
Definition keeps (x : Z) : bool :=
  match to_int (mul (of_Z (x - 32768)) one) with Some y => y =? x - 32768 | None => false end.
Lemma unit_gain_all : all_bits keeps 16 0 = true.
Proof. vm_compute. reflexivity. Qed.
Lemma one_one : mul one one = one.
Proof. vm_compute. reflexivity. Qed.
Lemma unit_gain x : is_int16 x = true -> to_int (mul (of_Z x) (mul one one)) = Some x.
Proof.
  unfold is_int16. intros [H1%Z.leb_le H2%Z.leb_le]%andb_prop. rewrite one_one.
  assert (keeps (x + 32768) = true) as H by (apply (all_bits_spec _ _ _ _ unit_gain_all); cbn; lia).
  unfold keeps in H. replace (x + 32768 - 32768) with x in H by lia. destruct (to_int _); [|done]. by apply Z.eqb_eq in H as ->.
Qed.

(** Stereo frames as the samples of a buffer. *)
Fixpoint interleave (fs : list (Z * Z)) : list Z := match fs with [] => [] | f :: fs => f.1 :: f.2 :: interleave fs end.
Definition frame_ok (f : Z * Z) : bool := is_int16 f.1 && is_int16 f.2.
Definition silence (n : nat) : list (Z * Z) := replicate n (0, 0).

Lemma length_interleave fs : length (interleave fs) = (length fs * 2)%nat.
Proof. induction fs as [|f fs IH]; cbn; [done|]. by rewrite IH. Qed.
Lemma interleave_lookup fs c f : fs !! c = Some f -> interleave fs !! (c * 2)%nat = Some f.1 /\ interleave fs !! (c * 2 + 1)%nat = Some f.2.
Proof. revert c. induction fs as [|x fs IH]; intros [|c]; cbn; [done|done|by intros [= ->]|apply IH]. Qed.

(** Two samples together, as a 16-bit port hears them. *)
Definition sat (a b : Z) : Z := Z.max (-32768) (Z.min 32767 (a + b)).
Definition sat_frame (f g : Z * Z) : Z * Z := (sat f.1 g.1, sat f.2 g.2).
Definition over (buf frames : list (Z * Z)) : list (Z * Z) := zip_with sat_frame buf frames.
Lemma int16_sat a b : int16 (a + b) = sat a b.
Proof. unfold int16, clampZ, sat. destruct (Z.ltb_spec (a + b) (-32768)), (Z.ltb_spec 32767 (a + b)); lia. Qed.
Lemma int16_ok x : is_int16 (int16 x) = true.
Proof. unfold is_int16, int16, clampZ. destruct (Z.ltb_spec x (-32768)), (Z.ltb_spec 32767 x); lia. Qed.
Lemma unit_sample acc x : is_int16 x = true -> mix_sample acc x (mul one one) = Some (sat acc x).
Proof.
  intros Hx. unfold mix_sample. rewrite unit_gain by done. cbn [mbind option_bind]. by rewrite int16_sat.
Qed.
Lemma unit_mix frames buf : forallb frame_ok frames = true -> length buf = length frames ->
  mix_frames (mul one one) (mul one one) buf frames = Some (over buf frames).
Proof.
  revert buf. induction frames as [|[l r] frames IH]; intros [|[al ar] buf] Hf Hl; try done.
  cbn [forallb] in Hf. apply andb_prop in Hf as [[Hfl Hfr]%andb_prop Hf].
  cbn [mix_frames]. rewrite !unit_sample by done. cbn [mbind option_bind]. rewrite IH by (try done; cbn in Hl; lia). done.
Qed.
Lemma over_silence buf n : forallb frame_ok buf = true -> length buf = n -> over buf (silence n) = buf.
Proof.
  intros Hf <-. induction buf as [|[l r] buf IH]; [done|]. cbn [forallb] in Hf. apply andb_prop in Hf as [[Hl Hr]%andb_prop Hf].
  unfold over, silence. cbn [length replicate zip_with]. unfold over, silence in IH. rewrite IH by done. f_equal.
  unfold is_int16 in Hl, Hr. cbn [fst snd] in Hl, Hr. unfold sat_frame, sat. cbn [fst snd]. apply andb_prop in Hl as [?%Z.leb_le ?%Z.leb_le], Hr as [?%Z.leb_le ?%Z.leb_le]. f_equal; lia.
Qed.

(** What the voices leave in the buffer is a block of 16-bit frames. *)
Definition block_ok (buf : list (Z * Z)) : Prop := forallb frame_ok buf = true /\ length buf = kBlockFrames.
Lemma mix_sample_ok acc x g y : mix_sample acc x g = Some y -> is_int16 y = true.
Proof. unfold mix_sample. destruct (to_int _) as [z|]; [|done]. cbn [mbind option_bind]. intros [= <-]. apply int16_ok. Qed.
Lemma mix_frames_ok gl gr buf frames out : mix_frames gl gr buf frames = Some out -> forallb frame_ok buf = true ->
  forallb frame_ok out = true /\ length out = length buf.
Proof.
  revert frames out. induction buf as [|[al ar] buf IH]; intros frames out H Hb; cbn [mix_frames] in H; [by injection H as <-|].
  destruct frames as [|[l r] frames]; [by injection H as <-|]. cbn [forallb] in Hb. apply andb_prop in Hb as [_ Hb].
  destruct (mix_sample al l gl) as [y|] eqn:Ey; [|done]. cbn [mbind option_bind] in H.
  destruct (mix_sample ar r gr) as [z|] eqn:Ez; [|done]. cbn [mbind option_bind] in H.
  destruct (mix_frames _ _ _ _) as [rest|] eqn:E; [|done]. injection H as <-. destruct (IH _ _ E Hb) as [H1 H2].
  cbn [forallb length]. unfold frame_ok at 1. cbn [fst snd]. by rewrite (mix_sample_ok _ _ _ _ Ey), (mix_sample_ok _ _ _ _ Ez), H1, H2.
Qed.
Lemma mix_voice_ok v buf v' buf' : mix_voice v buf = Some (v', buf') -> block_ok buf -> block_ok buf'.
Proof.
  unfold mix_voice. destruct (_ || _); [by intros [= _ <-]|]. destruct (fetch _ v) as [[v2 fs]|]; [|done]. cbn [mbind option_bind].
  destruct (mix_frames _ _ _ _) as [b|] eqn:E; [|done]. intros [= _ <-] [H1 H2]. destruct (mix_frames_ok _ _ _ _ _ E H1) as [H3 H4]. split; [done|by rewrite H4].
Qed.
Lemma mix_voices_ok vs buf vs' buf' : mix_voices vs buf = Some (vs', buf') -> block_ok buf -> block_ok buf'.
Proof.
  revert buf vs' buf'. induction vs as [|v vs IH]; intros buf vs' buf' H Hb; cbn [mix_voices] in H; [by injection H as _ <-|].
  destruct (mix_voice v buf) as [[v1 b1]|] eqn:E; [|done]. cbn [mbind option_bind] in H. destruct (mix_voices vs b1) as [[vs1 b2]|] eqn:E2; [|done].
  injection H as _ <-. eapply IH; [done|]. by eapply mix_voice_ok.
Qed.
Lemma silence_ok : block_ok (silence kBlockFrames).
Proof. split; [vm_compute; reflexivity|unfold silence; apply length_replicate]. Qed.
(** The voices are mixed in the order of the list. *)
Lemma mix_voices_app vs ws buf : mix_voices (vs ++ ws) buf =
  ('(vs, buf) ← mix_voices vs buf; '(ws, buf) ← mix_voices ws buf; Some (vs ++ ws, buf)).
Proof.
  revert buf. induction vs as [|v vs IH]; intros buf; cbn [mix_voices app mbind option_bind]; [by destruct (mix_voices ws buf) as [[? ?]|]|].
  destruct (mix_voice v buf) as [[v1 b1]|]; [|done]. cbn [mbind option_bind]. rewrite IH.
  destruct (mix_voices vs b1) as [[vs1 b2]|]; [|done]. cbn [mbind option_bind]. by destruct (mix_voices ws b2) as [[? ?]|].
Qed.

(** A voice as the library makes it, playing [fs] once, at frame [c]. *)
Definition once (id : Z) (fs : list (Z * Z)) (c : nat) (p : bool) : Voice := mkVoice id (interleave fs) c one one one p false.
Lemma once_frames id fs c p : totalFrames (once id fs c p) = length fs.
Proof. unfold totalFrames, once. cbn [pcm]. by rewrite length_interleave, Nat.div_mul. Qed.

Lemma fetch_once id fs n c : (c <= length fs)%nat ->
  fetch n (once id fs c true) =
    Some (if (c + n <=? length fs)%nat then once id fs (c + n) true else once id fs (length fs) false,
          take n (drop c fs ++ silence n)).
Proof.
  revert c. induction n as [|n IH]; intros c Hc; cbn [fetch].
  { rewrite Nat.add_0_r, (proj2 (Nat.leb_le _ _)) by done. done. }
  assert (forall c, with_cursor (S c) (once id fs c true) = once id fs (S c) true) as Hstep by done.
  rewrite once_frames. change (cursor (once id fs c true)) with c. change (loop (once id fs c true)) with false. change (pcm (once id fs c true)) with (interleave fs).
  cbn [negb]. destruct (Nat.leb_spec (length fs) c) as [Hge|Hlt]; cbn [andb].
  - assert (c = length fs) as -> by lia. rewrite (proj2 (Nat.leb_gt _ _)) by lia. rewrite drop_all. cbn [app].
    unfold silence. rewrite take_ge by (by rewrite length_replicate). done.
  - destruct (lookup_lt_is_Some_2 fs c Hlt) as [f Hf]. destruct (interleave_lookup fs c f Hf) as [-> ->]. cbn [mbind option_bind].
    rewrite Hstep, IH by lia. cbn [mbind option_bind].
    replace (S c + n)%nat with (c + S n)%nat by lia. f_equal. f_equal. rewrite (drop_S fs f c Hf). cbn [app take]. f_equal; [by destruct f|].
    unfold silence. rewrite replicate_S_end, app_assoc. symmetry. apply take_app_le. rewrite length_app, length_replicate. lia.
Qed.

(** The voice after [n] more frames. *)
Definition after (id : Z) (fs : list (Z * Z)) (n : nat) : Voice :=
  if (n <=? length fs)%nat then once id fs n true else once id fs (length fs) false.
Definition block_of (fs : list (Z * Z)) (n : nat) : list (Z * Z) := take kBlockFrames (drop n fs ++ silence kBlockFrames).
Definition with_voice (g : t) (v : Voice) : t := with_voices (m_voices g ++ [v]) g.

Lemma block_frames fs n : forallb frame_ok fs = true -> forallb frame_ok (block_of fs n) = true /\ length (block_of fs n) = kBlockFrames.
Proof.
  intros Hf. split.
  - rewrite forallb_forall in Hf |- *. intros f H. apply list_elem_of_In in H. unfold block_of in H.
    apply elem_of_take in H as (i & Hi & _). apply list_elem_of_lookup_2, elem_of_app in Hi as [Hi|Hi].
    + apply Hf, list_elem_of_In. by eapply subseteq_drop.
    + by apply elem_of_replicate in Hi as [-> _].
  - unfold block_of, silence. rewrite length_take, length_app, length_replicate. lia.
Qed.
Lemma silent_block fs n : (length fs <= n)%nat -> block_of fs n = silence kBlockFrames.
Proof. intros H. unfold block_of. by rewrite drop_ge by done. Qed.

(** One turn with the voice at the end of the list: over what the others mix. *)
Lemma mix_after id fs n buf : forallb frame_ok fs = true -> fs <> [] -> block_ok buf ->
  mix_voice (after id fs n) buf = Some (after id fs (n + kBlockFrames), over buf (block_of fs n)).
Proof.
  intros Hf Hne [Hb1 Hb2]. unfold mix_voice. assert (forall c p, pcm (once id fs c p) <> []) as Hp by (by destruct fs).
  destruct (Nat.leb_spec n (length fs)) as [Hn|Hn].
  - assert (after id fs n = once id fs n true) as -> by (unfold after; by rewrite (proj2 (Nat.leb_le _ _))).
    change (playing (once id fs n true)) with true. rewrite bool_decide_eq_false_2 by done. cbn [negb orb].
    rewrite fetch_once by done. cbn [mbind option_bind]. destruct (block_frames fs n Hf) as [Hc1 Hc2]. unfold block_of in Hc1, Hc2.
    match goal with |- context [mix_frames ?gl ?gr _ _] =>
      replace gl with (mul one one) by (by case_match); replace gr with (mul one one) by (by case_match) end.
    rewrite unit_mix by (try done; by rewrite Hb2, Hc2). done.
  - assert (after id fs n = once id fs (length fs) false) as -> by (unfold after; by rewrite (proj2 (Nat.leb_gt _ _))).
    change (playing (once id fs (length fs) false)) with false. cbn [negb orb].
    unfold after. rewrite (proj2 (Nat.leb_gt _ _)) by lia. rewrite silent_block, over_silence by (done || lia). done.
Qed.
Lemma block_once g g' b id fs n : forallb frame_ok fs = true -> fs <> [] -> m_masterGain g = one ->
  mixBlock g = Some (g', b) ->
  mixBlock (with_voice g (after id fs n)) = Some (with_voice g' (after id fs (n + kBlockFrames)), over b (block_of fs n)) /\
  m_masterGain g' = one.
Proof.
  intros Hf Hne Hm. unfold mixBlock. change (m_voices (with_voice g ?v)) with (m_voices g ++ [v]).
  change (m_masterGain (with_voice g _)) with (m_masterGain g). rewrite mix_voices_app.
  destruct (mix_voices (m_voices g) _) as [[vs buf]|] eqn:E; [|done]. cbn [mbind option_bind mix_voices].
  pose proof (mix_voices_ok _ _ _ _ E silence_ok) as Hb. rewrite mix_after by done. unfold master. rewrite Hm. change (eqb one one) with true.
  cbn [mbind option_bind]. intros [= <- <-]. done.
Qed.

(** [k] turns of the mixer: the graph after them and what the port was given. *)
Fixpoint mix_blocks (k : nat) (g : t) : option (t * list (Z * Z)) :=
  match k with
  | O => Some (g, [])
  | S k => '(g, b) ← mixBlock g; '(g, bs) ← mix_blocks k g; Some (g, b ++ bs)
  end.
Definition played (fs : list (Z * Z)) (n k : nat) : list (Z * Z) := take (k * kBlockFrames) (drop n fs ++ silence (k * kBlockFrames)).

Lemma length_block fs n : length (block_of fs n) = kBlockFrames.
Proof. unfold block_of, silence. rewrite length_take, length_app, length_replicate. lia. Qed.
Lemma take_silence fs n a : (n <= a)%nat -> take n (fs ++ silence a) = take n fs ++ silence (n - length fs).
Proof. intros H. rewrite take_app. f_equal. unfold silence. rewrite take_replicate. f_equal. lia. Qed.
Lemma played_S fs n k : block_of fs n ++ played fs (n + kBlockFrames) k = played fs n (S k).
Proof.
  unfold block_of, played. rewrite !take_silence by lia. rewrite <- drop_drop. set (l := drop n fs). clearbody l.
  cbn [Nat.mul]. set (b := kBlockFrames). clearbody b. set (m := (k * b)%nat). clearbody m. unfold silence.
  destruct (Nat.le_gt_cases (length l) b) as [H|H].
  - rewrite (drop_ge l), (take_ge l b), take_nil, (take_ge l (b + m)) by lia. cbn [app length]. rewrite <- app_assoc, <- replicate_add. do 2 f_equal. lia.
  - replace (b - length l)%nat with 0%nat by lia. cbn [replicate]. rewrite app_nil_r, length_drop, app_assoc, take_take_drop. do 2 f_equal. lia.
Qed.
Lemma length_mixBlock g g' b : m_masterGain g = one -> mixBlock g = Some (g', b) -> length b = kBlockFrames.
Proof.
  intros Hm. unfold mixBlock. destruct (mix_voices _ _) as [[vs buf]|] eqn:E; [|done]. cbn [mbind option_bind]. unfold master.
  rewrite Hm. change (eqb one one) with true. cbn [mbind option_bind]. intros [= _ <-]. by apply (mix_voices_ok _ _ _ _ E silence_ok).
Qed.
Lemma blocks_play g g' b id fs n k : forallb frame_ok fs = true -> fs <> [] -> m_masterGain g = one ->
  mix_blocks k g = Some (g', b) ->
  mix_blocks k (with_voice g (after id fs n)) = Some (with_voice g' (after id fs (n + k * kBlockFrames)), over b (played fs n k)).
Proof.
  intros Hf Hne. revert g b n. induction k as [|k IH]; intros g b n Hm H; cbn [mix_blocks] in *.
  - injection H as <- <-. cbn [Nat.mul]. by rewrite Nat.add_0_r.
  - destruct (mixBlock g) as [[g1 b1]|] eqn:E; [|done]. cbn [mbind option_bind] in H.
    destruct (mix_blocks k g1) as [[g2 b2]|] eqn:E2; [|done]. injection H as <- <-.
    destruct (block_once g g1 b1 id fs n Hf Hne Hm E) as [-> Hm1]. cbn [mbind option_bind]. rewrite (IH g1 b2 _ Hm1 E2). cbn [mbind option_bind].
    rewrite <- played_S. unfold over at 3. rewrite zip_with_app by (rewrite length_block; by apply (length_mixBlock g g1 b1)). do 4 f_equal. lia.
Qed.

(** A voice made, filled and started by the library on a graph without voices. *)
Definition play_once (fs rest : list (Z * Z)) (g : t) : option (t * Z * bool) :=
  let '(g, id) := addVoice g in
  '(g, _) ← setVoicePcm id (Some (interleave fs ++ interleave rest)) (Z.of_nat (length fs)) g;
  let '(g, ok) := playVoice id false g in Some (g, id, ok).

Lemma find_last id vs v : Forall (fun w => voice_id w <> id) vs -> voice_id v = id ->
  list_find (fun w => voice_id w = id) (vs ++ [v]) = Some (length vs, v).
Proof.
  intros Hvs Hv. induction Hvs as [|w vs Hw Hvs IH]; cbn [app list_find length]; [by rewrite decide_True|].
  rewrite decide_False by done. by rewrite IH.
Qed.
Lemma on_voice_last id vs v f g : Forall (fun w => voice_id w <> id) vs -> voice_id v = id ->
  on_voice id f (with_voices (vs ++ [v]) g) = (with_voices (vs ++ [(f v).1]) g, (f v).2).
Proof.
  intros Hvs Hv. unfold on_voice, voice. change (m_voices (with_voices ?l g)) with l. rewrite find_last by done. destruct (f v) as [w ok].
  rewrite insert_app_r_alt, Nat.sub_diag by done. done.
Qed.
Lemma play_once_starts g fs rest :
  Forall (fun w => voice_id w <> m_nextVoiceId g) (m_voices g) -> m_channels g = 2 -> fs <> [] -> Z.of_nat (length fs) < 2 ^ 62 ->
  play_once fs rest g = Some (with_voice (with_voices (m_voices g) (addVoice g).1) (after (m_nextVoiceId g) fs 0), m_nextVoiceId g, true).
Proof.
  intros Hv Hc Hne Hlen. set (id := m_nextVoiceId g) in *. unfold play_once. destruct (addVoice g) as [g0 id0] eqn:Eg. cbn [fst].
  assert (id0 = id) as -> by (by injection Eg).
  assert (g0 = with_voices (m_voices g ++ [new_voice id]) g0) as Hg0 by (by injection Eg as <-).
  assert (m_channels g0 = 2) as Hc0 by (by injection Eg as <-). unfold setVoicePcm.
  assert (voice id g0 = Some (length (m_voices g), new_voice id)) as -> by (rewrite Hg0; by apply find_last).
  rewrite Hc0. unfold u64. rewrite Z.mod_small by lia.
  assert (Z.to_nat (Z.of_nat (length fs) * 2) = length (interleave fs)) as -> by (rewrite length_interleave; lia).
  rewrite take_app_length, length_app, (proj2 (Nat.ltb_ge _ _)) by lia. cbn [mbind option_bind]. rewrite Hg0, on_voice_last by done. cbn [fst snd].
  unfold playVoice. rewrite on_voice_last by done. destruct fs as [|f fs]; [done|]. rewrite bool_decide_eq_false_2 by done. cbn [fst snd].
  unfold after. cbn [Nat.leb]. unfold with_voice. cbn [m_voices with_voices].
  match goal with |- context [if ?b then ?x else ?y] => assert ((if b then x else y) = once id (f :: fs) 0 true) as -> by (by destruct b) end. done.
Qed.
Lemma playing_app vs ws : length (filter (fun v => playing v = true) (vs ++ ws)) = (length (filter (fun v => playing v = true) vs) + length (filter (fun v => playing v = true) ws))%nat.
Proof. by rewrite filter_app, length_app. Qed.

(** The graph after [addVoice] with the voices it had before mixes as before. *)
Lemma mixBlock_next g h : m_voices h = m_voices g -> m_masterGain h = m_masterGain g ->
  mixBlock h = ('(g', b) ← mixBlock g; Some (with_voices (m_voices g') h, b)).
Proof.
  intros Hv Hm. unfold mixBlock. rewrite Hv, Hm. destruct (mix_voices _ _) as [[vs buf]|]; [|done]. cbn [mbind option_bind].
  by destruct (master _ _).
Qed.
Lemma mix_blocks_next k g h : m_voices h = m_voices g -> m_masterGain h = m_masterGain g ->
  mix_blocks k h = ('(g', b) ← mix_blocks k g; Some (with_voices (m_voices g') h, b)).
Proof.
  revert g h. induction k as [|k IH]; intros g h Hv Hm; cbn [mix_blocks].
  - cbn [mbind option_bind]. rewrite <- Hv. by destruct h.
  - rewrite (mixBlock_next g h Hv Hm). destruct (mixBlock g) as [[g1 b1]|] eqn:E; [|done]. cbn [mbind option_bind].
    rewrite (IH g1 (with_voices (m_voices g1) h)); [|done|].
    + destruct (mix_blocks k g1) as [[g2 b2]|]; [|done]. done.
    + cbn. rewrite Hm. unfold mixBlock in E. destruct (mix_voices _ _) as [[vs buf]|]; [|done]. cbn [mbind option_bind] in E.
      destruct (master _ _); [|done]. by injection E as <- _.
Qed.

End Mixer.

(** ** Reads of the mixer *)
Section Bounds.
Import Ngs2Graph.
Context (cosf sinf : f32 -> f32).

(** The operations on the voices of a running graph. *)
Inductive gstep : t -> t -> Prop :=
  | g_add g : gstep g (addVoice g).1
  | g_remove id g : gstep g (removeVoice id g).1
  | g_play id lp g : gstep g (playVoice id lp g).1
  | g_stop id g : gstep g (stopVoice id g).1
  | g_pcm id data frames g g' ok : setVoicePcm id data frames g = Some (g', ok) -> gstep g g'
  | g_gain id x g : gstep g (setVoiceGain id x g).1
  | g_pan id x g : gstep g (setVoicePan cosf sinf id x g).1
  | g_master x g : gstep g (setMasterGain x g)
  | g_mix g g' b : mixBlock g = Some (g', b) -> gstep g g'.

(** Whole frames in every voice of a stereo graph. *)
Definition whole (v : Voice) : Prop := (length (pcm v) mod 2 = 0)%nat.
Definition stereo (g : t) : Prop := m_channels g = 2 /\ Forall whole (m_voices g).

Lemma on_voice_stereo id f g : (forall v, whole v -> whole (f v).1) -> stereo g -> stereo (on_voice id f g).1.
Proof.
  intros Hf [Hc Hv]. unfold on_voice, voice. destruct (list_find _ _) as [[i v]|] eqn:E; [|done].
  apply list_find_Some in E as (Hi & _). pose proof (Hf v (proj1 (Forall_lookup _ _) Hv i v Hi)) as H. destruct (f v) as [v' ok].
  split; [done|]. cbn. by apply Forall_insert.
Qed.
Lemma remove_first_sub id l l' : remove_first id l = Some l' -> forall v, v ∈ l' -> v ∈ l.
Proof.
  revert l'. induction l as [|x l IH]; intros l' H v Hv; [done|]. cbn in H. destruct (_ =? _); [injection H as <-; by right|].
  apply fmap_Some in H as (k & Hk & ->). apply elem_of_cons in Hv as [->|Hv]; [by left|]. right. by eapply IH.
Qed.
Lemma fetch_pcm n v v' fs : fetch n v = Some (v', fs) -> pcm v' = pcm v.
Proof.
  revert v v' fs. induction n as [|n IH]; intros v v' fs H; cbn [fetch] in H; [by injection H as <- _|].
  destruct (_ && _); [by injection H as <- _|].
  set (c := if (totalFrames v <=? cursor v)%nat then 0%nat else cursor v) in H.
  destruct (pcm v !! (c * 2)%nat) as [l|]; [|done]. cbn [mbind option_bind] in H.
  destruct (pcm v !! (c * 2 + 1)%nat) as [r|]; [|done]. cbn [mbind option_bind] in H. destruct (fetch n _) as [[v1 f1]|] eqn:E; [|done]. injection H as <- _. by apply IH in E.
Qed.
Lemma fetch_gains n v v' fs : fetch n v = Some (v', fs) -> gain v' = gain v /\ panLeft v' = panLeft v /\ panRight v' = panRight v.
Proof.
  revert v v' fs. induction n as [|n IH]; intros v v' fs H; cbn [fetch] in H; [by injection H as <- _|].
  destruct (_ && _); [by injection H as <- _|].
  set (c := if (totalFrames v <=? cursor v)%nat then 0%nat else cursor v) in H.
  destruct (pcm v !! (c * 2)%nat) as [l|]; [|done]. cbn [mbind option_bind] in H.
  destruct (pcm v !! (c * 2 + 1)%nat) as [r|]; [|done]. cbn [mbind option_bind] in H. destruct (fetch n _) as [[v1 f1]|] eqn:E; [|done]. injection H as <- _. by apply IH in E.
Qed.
Lemma mix_voices_whole vs buf vs' buf' : mix_voices vs buf = Some (vs', buf') -> Forall whole vs -> Forall whole vs'.
Proof.
  revert buf vs' buf'. induction vs as [|v vs IH]; intros buf vs' buf' H Hw; cbn [mix_voices] in H; [by injection H as <- _|].
  apply Forall_cons in Hw as [Hv Hw]. destruct (mix_voice v buf) as [[v1 b1]|] eqn:Ev; [|done]. cbn [mbind option_bind] in H.
  destruct (mix_voices vs b1) as [[vs1 b2]|] eqn:E; [|done]. injection H as <- _. apply Forall_cons. split; [|by eapply IH].
  unfold mix_voice in Ev. destruct (_ || _); [by injection Ev as <- _|]. destruct (fetch _ v) as [[v2 fs]|] eqn:Ef; [|done].
  cbn [mbind option_bind] in Ev. destruct (mix_frames _ _ _ _); [|done]. injection Ev as <- _. unfold whole. by rewrite (fetch_pcm _ _ _ _ Ef).
Qed.

Lemma stereo_step g g' : gstep g g' -> stereo g -> stereo g'.
Proof.
  intros H Hs. destruct H as [g|id g|id lp g|id g|id data frames g g' ok H|id x g|id x g|x g|g g' b H].
  - destruct Hs as [Hc Hv]. split; [done|]. cbn. apply Forall_app. split; [done|by repeat constructor].
  - unfold removeVoice. destruct (remove_first _ _) as [l|] eqn:E; [|done]. destruct Hs as [Hc Hv]. split; [done|]. cbn.
    rewrite Forall_forall in Hv |- *. eauto using remove_first_sub.
  - apply on_voice_stereo; [|done]. intros v Hv. destruct (bool_decide _); [done|]. cbn [fst]. by case_match.
  - by apply on_voice_stereo.
  - unfold setVoicePcm in H. destruct (voice id g), data as [data|]; try by injection H as <- _. destruct (length data <? _)%nat eqn:E in H; [done|]. injection H as H. apply (f_equal fst) in H. cbn [fst] in H.
    rewrite <- H. apply on_voice_stereo; [|done]. intros v _. unfold whole. cbn. apply Nat.ltb_ge in E. rewrite length_take, Nat.min_l by done.
    destruct Hs as [-> _]. unfold u64. change (2 ^ 64) with (2 ^ 63 * 2). rewrite Zmult_mod_distr_r.
    rewrite Z2Nat.inj_mul by (try apply Z.mod_pos_bound; lia). exact (Nat.Div0.mod_mul _ 2).
  - by apply on_voice_stereo.
  - by apply on_voice_stereo.
  - done.
  - unfold mixBlock in H. destruct (mix_voices _ _) as [[vs b1]|] eqn:E; [|done]. cbn [mbind option_bind] in H.
    destruct (master _ _); [|done]. injection H as <- _. destruct Hs as [Hc Hv]. split; [done|]. by eapply mix_voices_whole.
Qed.

Lemma fetch_runs n v : (2 <= length (pcm v))%nat -> exists r, fetch n v = Some r.
Proof.
  revert v. induction n as [|n IH]; intros v Hl; cbn [fetch]; [eauto|]. destruct (_ && _); [eauto|].
  set (c := if (totalFrames v <=? cursor v)%nat then 0%nat else cursor v).
  assert (c * 2 + 1 < length (pcm v))%nat as Hc.
  { subst c. destruct (Nat.leb_spec (totalFrames v) (cursor v)) as [H|H]; [lia|]. unfold totalFrames in H.
    pose proof (Nat.Div0.mul_div_le (length (pcm v)) 2). lia. }
  destruct (lookup_lt_is_Some_2 (pcm v) (c * 2)) as [l ->]; [lia|]. destruct (lookup_lt_is_Some_2 (pcm v) (c * 2 + 1)) as [r ->]; [done|].
  cbn [mbind option_bind]. destruct (IH (with_cursor (S c) v) Hl) as [[v' fs] ->]. eauto.
Qed.

(** The products that the mixer turns into integers all fit: every sample, and the
    silence, times its voice's gains, and every mixed sample times the master gain. *)
Definition converts (x : Z) (g : f32) : Prop := to_int (mul (of_Z x) g) <> None.
Definition products_fit (g : t) : Prop :=
  (forall v x, v ∈ m_voices g -> x ∈ 0 :: pcm v -> converts x (mul (gain v) (panLeft v)) /\ converts x (mul (gain v) (panRight v))) /\
  (forall x, -32768 <= x <= 32767 -> converts x (m_masterGain g)).

Lemma fetch_samples n v v' fs : fetch n v = Some (v', fs) -> Forall (fun f => f.1 ∈ 0 :: pcm v /\ f.2 ∈ 0 :: pcm v) fs.
Proof.
  revert v v' fs. induction n as [|n IH]; intros v v' fs H; cbn [fetch] in H; [by injection H as _ <-|].
  destruct (_ && _). { injection H as _ <-. apply (Forall_replicate _ (S n) (0, 0)). split; by left. }
  set (c := if (totalFrames v <=? cursor v)%nat then 0%nat else cursor v) in H.
  destruct (pcm v !! (c * 2)%nat) as [l|] eqn:El; [|done]. cbn [mbind option_bind] in H.
  destruct (pcm v !! (c * 2 + 1)%nat) as [r|] eqn:Er; [|done]. cbn [mbind option_bind] in H.
  destruct (fetch n _) as [[v1 f1]|] eqn:E; [|done]. injection H as _ <-. apply IH in E.
  apply Forall_cons. split; [|exact E]. split; right; by eapply list_elem_of_lookup_2.
Qed.
Lemma mix_sample_runs acc x g : converts x g -> exists y, mix_sample acc x g = Some y.
Proof. unfold converts, mix_sample. intros H. destruct (to_int _) as [y|]; [|done]. cbn [mbind option_bind]. eauto. Qed.
Lemma mix_frames_run gl gr buf frames :
  Forall (fun f => converts f.1 gl /\ converts f.2 gr) frames -> exists out, mix_frames gl gr buf frames = Some out.
Proof.
  revert frames. induction buf as [|[al ar] buf IH]; intros frames Hf; cbn [mix_frames]; [eauto|].
  destruct frames as [|[l r] frames]; [eauto|]. apply Forall_cons in Hf as [[Hl Hr] Hf]. cbn [fst snd] in Hl, Hr.
  destruct (mix_sample_runs al l gl Hl) as [y ->]. destruct (mix_sample_runs ar r gr Hr) as [z ->]. cbn [mbind option_bind].
  destruct (IH frames Hf) as [out ->]. cbn [mbind option_bind]. eauto.
Qed.
Lemma mix_voice_runs v buf : whole v ->
  (forall x, x ∈ 0 :: pcm v -> converts x (mul (gain v) (panLeft v)) /\ converts x (mul (gain v) (panRight v))) -> exists r, mix_voice v buf = Some r.
Proof.
  intros Hw Hx. unfold mix_voice. destruct (negb (playing v)); cbn [orb]; [eauto|]. case_bool_decide as Hp; [eauto|].
  destruct (fetch_runs kBlockFrames v) as [[v' fs] Hf].
  { unfold whole in Hw. destruct (pcm v) as [|a [|b l]]; [done|done|cbn; lia]. }
  rewrite Hf. cbn [mbind option_bind]. assert (gain v' = gain v /\ panLeft v' = panLeft v /\ panRight v' = panRight v) as (-> & -> & ->) by by eapply fetch_gains.
  destruct (mix_frames_run (mul (gain v) (panLeft v)) (mul (gain v) (panRight v)) buf fs) as [out ->]; [|cbn [mbind option_bind]; eauto].
  apply fetch_samples in Hf. eapply Forall_impl; [exact Hf|]. intros f [H1 H2]. split; [by apply Hx|by apply Hx].
Qed.
Lemma mix_voices_run vs buf : Forall whole vs ->
  (forall v x, v ∈ vs -> x ∈ 0 :: pcm v -> converts x (mul (gain v) (panLeft v)) /\ converts x (mul (gain v) (panRight v))) ->
  exists r, mix_voices vs buf = Some r.
Proof.
  revert buf. induction vs as [|v vs IH]; intros buf Hw Hx; cbn [mix_voices]; [eauto|]. apply Forall_cons in Hw as [Hv Hw].
  destruct (mix_voice_runs v buf Hv) as [[v' b] ->]; [intros x; apply Hx; by left|]. cbn [mbind option_bind].
  destruct (IH b Hw) as [[vs' b'] ->]; [|cbn [mbind option_bind]; eauto]. intros w x Hwx. apply Hx. by right.
Qed.
Lemma master_runs mg buf : (forall x, -32768 <= x <= 32767 -> converts x mg) -> forallb frame_ok buf = true -> exists r, master mg buf = Some r.
Proof.
  intros Hc Hb. unfold master. destruct (eqb mg one); [eauto|]. apply mapM_is_Some_2, Forall_forall. intros f Hf.
  rewrite forallb_forall in Hb. apply list_elem_of_In, Hb in Hf. unfold frame_ok, is_int16 in Hf.
  apply andb_prop in Hf as [[?%Z.leb_le ?%Z.leb_le]%andb_prop [?%Z.leb_le ?%Z.leb_le]%andb_prop]. unfold scale, compose.
  pose proof (Hc f.1 ltac:(lia)) as Hl. pose proof (Hc f.2 ltac:(lia)) as Hr. unfold converts in Hl, Hr.
  destruct (to_int (mul (of_Z f.1) mg)); [|done]. destruct (to_int (mul (of_Z f.2) mg)); [|done]. cbn [mbind option_bind]. eauto.
Qed.

(** C31: the mixer reads no sample outside a voice's buffer on a stereo graph: after any
    sequence of calls - whatever buffers, frame counts (up to those whose product wraps
    to an empty buffer), gains, pans and orders of starting and filling - and blocks from
    a graph of two channels without voices, mixing a block returns, provided the products
    that the mixer turns into integers fit an [int], which is the only other way to leave
    defined behaviour. *)
Theorem mixer_in_bounds g g' :
  m_channels g = 2 -> m_voices g = [] -> rtc gstep g g' -> products_fit g' ->
  exists r, mixBlock g' = Some r.
Proof.
  intros Hc Hv Hr [Hx Hm]. assert (stereo g') as [_ Hs].
  { assert (stereo g) as H by (split; [done|by rewrite Hv]). clear -Hr H. induction Hr; [done|]. eauto using stereo_step. }
  unfold mixBlock. destruct (mix_voices_run (m_voices g') (replicate kBlockFrames (0, 0)) Hs Hx) as [[vs buf] E]. rewrite E.
  cbn [mbind option_bind]. destruct (master_runs (m_masterGain g') buf Hm) as [b ->]; [|cbn [mbind option_bind]; eauto].
  exact (proj1 (mix_voices_ok _ _ _ _ E silence_ok)).
Qed.

(** On a mono graph one looped sample is read with the one behind it. *)
Definition mono_graph : t :=
  let g := (addVoice (mkGraph [] 1 48000 1 1 one true)).1 in
  let g := from_option fst g (setVoicePcm 1 (Some [7]) 1 g) in (playVoice 1 true g).1.
Lemma mono_over_read : mixBlock mono_graph = None.
Proof. vm_compute. reflexivity. Qed.
End Bounds.

(** A looped voice that is given a buffer of 2^63 frames after it was started: its
    buffer is empty, and the mixer leaves it alone. *)
Definition wrapped_graph : Ngs2Graph.t :=
  Ngs2Graph.with_voices [Ngs2Graph.with_pcm [] (Ngs2Graph.with_playing true true (Ngs2Graph.new_voice 1))] (Ngs2Graph.addVoice Ngs2Graph.initial).1.
Definition filled_graph : Ngs2Graph.t :=
  Ngs2Graph.with_voices [Ngs2Graph.with_pcm [3; 4] (Ngs2Graph.new_voice 1)] (Ngs2Graph.addVoice Ngs2Graph.initial).1.
Lemma filled_by : Ngs2Graph.setVoicePcm 1 (Some [3; 4]) 1 (Ngs2Graph.addVoice Ngs2Graph.initial).1 = Some (filled_graph, true).
Proof. vm_compute. reflexivity. Qed.
Lemma wrapped_by : Ngs2Graph.setVoicePcm 1 (Some [5]) (2 ^ 63) (Ngs2Graph.playVoice 1 true filled_graph).1 = Some (wrapped_graph, true).
Proof. vm_compute. reflexivity. Qed.
Lemma units_fit x : -32768 <= x <= 32767 -> converts x one.
Proof.
  intros Hx. unfold converts. rewrite <- one_one at 1. rewrite unit_gain; [done|]. unfold is_int16. apply andb_true_intro. split; apply Z.leb_le; lia.
Qed.
Lemma mixer_in_bounds_witness :
  Ngs2Graph.setVoicePcm 1 (Some [5]) (2 ^ 63) (Ngs2Graph.playVoice 1 true filled_graph).1 = Some (wrapped_graph, true) /\
  exists r, Ngs2Graph.mixBlock wrapped_graph = Some r.
Proof.
  split; [exact wrapped_by|].
  refine (mixer_in_bounds (fun x => x) (fun x => x) Ngs2Graph.initial wrapped_graph eq_refl eq_refl _ _).
  - exact (rtc_l _ _ _ _ (g_add _ _ Ngs2Graph.initial) (rtc_l _ _ _ _ (g_pcm _ _ _ _ _ _ _ _ filled_by)
      (rtc_l _ _ _ _ (g_play _ _ 1 true filled_graph) (rtc_once _ _ (g_pcm _ _ _ _ _ _ _ _ wrapped_by))))).
  - split; [|exact units_fit]. intros v x Hv Hx. unfold wrapped_graph in Hv. cbn [Ngs2Graph.m_voices Ngs2Graph.with_voices] in Hv.
    apply list_elem_of_singleton in Hv as ->. cbn [Ngs2Graph.pcm Ngs2Graph.with_pcm] in Hx. apply list_elem_of_singleton in Hx as ->.
    cbn [Ngs2Graph.gain Ngs2Graph.panLeft Ngs2Graph.panRight Ngs2Graph.with_pcm Ngs2Graph.with_playing Ngs2Graph.new_voice].
    rewrite one_one. split; apply units_fit; lia.
Defined.

Lemma ngs2_takes_the_port_witness : exists s am, SceNgs2.initialize ∅ 1 (Some (AudioManager.init (Some 48000) AudioManager.initial).1) = (Some s, Some am, true) /\
  SceAudioOut.sceAudioOutOpen 256 48000 am HandleTable.initial = (am, HandleTable.initial, SceAudioOut.kSceErrorNoMemory).
Proof.
  eexists _, _. split; [reflexivity|].
  exact (ngs2_takes_the_port ∅ 1 (AudioManager.init (Some 48000) AudioManager.initial).1 _ _ HandleTable.initial _ HandleTable.initial 256 48000
    eq_refl (fun h p H => eq_ind None (fun x => match x with Some _ => False | None => True end) I _ H) (rtc_refl _ _) ltac:(lia) ltac:(lia)).
Defined.
