(* ===== verification/Services.v ===== *)
(** * Video output, module loading, additional content and identity

    [sce/videoout/], [sce/sysmodule/], [sce/appcontent/], [sce/np/SceNpManager.cpp]
    and [sce/screenshot/].  Module loading is proved against the set of the loaded
    ids; the image encoders, the device and [stat] are parameters. *)
From S2P Require Import Prelude Vfs Trap SaveContainer Exports Psn.
Import FsPolicy (FsOp, Read, Create).

(** ** SceVideoOut.cpp *)
Module SceVideoOut.
Definition kSceOk : Z := 0.
Definition kSceErrorInvalidArg : Z := i32 0x80020005.
Definition kSceErrorNotFound : Z := i32 0x80020004.
Definition kSceErrorBusy : Z := i32 0x8002000B.
Definition kSceVideoOutHandle : Z := 0.

Record BufferAttribute := mkAttribute { pixelFormat : Z; a_width : Z; a_height : Z; pitchInPixel : Z }.
Record RegisteredBuffer := mkBuffer { guestPtr : Z; width : Z; height : Z; pitch : Z; format : Z }.
Definition no_buffer : RegisteredBuffer := mkBuffer 0 0 0 0 0.
Record t := mkVideo {
  is_open : bool; buffers : list RegisteredBuffer; bufferCount : Z; currentIndex : Z; flipRate : Z
}.
Definition initial : t := mkVideo false (replicate 4 no_buffer) 0 0 60.
Definition with_buffers l n (s : t) : t := mkVideo (is_open s) l n (currentIndex s) (flipRate s).
Definition flipRateToNs (rate : Z) : Z := 1000000000 / (if rate <=? 0 then 60 else rate).

Definition not_open (handle : Z) (s : t) : bool := negb (handle =? kSceVideoOutHandle) || negb (is_open s).

Definition sceVideoOutOpen (s : t) : t * Z :=
  if is_open s then (s, kSceErrorBusy) else (mkVideo true (buffers s) 0 0 (flipRate s), kSceVideoOutHandle).
Definition sceVideoOutClose (handle : Z) (s : t) : t * Z :=
  if not_open handle s then (s, kSceErrorNotFound) else (mkVideo false (buffers s) 0 (currentIndex s) (flipRate s), kSceOk).

Definition registered (a : BufferAttribute) (p : Z) : RegisteredBuffer :=
  mkBuffer p (a_width a) (a_height a) (u32 (pitchInPixel a * 4)) (pixelFormat a).
(** The loop over the slots from [i] on; a null address ends it where it stands. *)
Fixpoint register_loop (a : BufferAttribute) (i : nat) (addresses : list Z) (l : list RegisteredBuffer) : list RegisteredBuffer * bool :=
  match addresses with
  | [] => (l, true)
  | p :: addresses => if p =? 0 then (l, false) else register_loop a (S i) addresses (<[i := registered a p]> l)
  end.
(** [addresses] is what can be read from the pointer on; the sum of two ints that
    does not fit has no result. *)
Definition sceVideoOutRegisterBuffers (handle startIndex : Z) (addresses : option (list Z)) (bufferNum : Z)
    (attribute : option BufferAttribute) (s : t) : option (t * Z) :=
  if not_open handle s then Some (s, kSceErrorNotFound)
  else
    match addresses, attribute with
    | Some addresses, Some a =>
        if bufferNum <=? 0 then Some (s, kSceErrorInvalidArg)
        else if startIndex <? 0 then Some (s, kSceErrorInvalidArg)
        else if 2 ^ 31 <=? startIndex + bufferNum then None
        else if 4 <? startIndex + bufferNum then Some (s, kSceErrorInvalidArg)
        else if (length addresses <? Z.to_nat bufferNum)%nat then None
        else
          let '(l, ok) := register_loop a (Z.to_nat startIndex) (take (Z.to_nat bufferNum) addresses) (buffers s) in
          if ok : bool then Some (with_buffers l (startIndex + bufferNum) s, kSceOk)
          else Some (with_buffers l (bufferCount s) s, kSceErrorInvalidArg)
    | _, _ => Some (s, kSceErrorInvalidArg)
    end.
Definition sceVideoOutUnregisterBuffers (handle attributeIndex : Z) (s : t) : t * Z :=
  if not_open handle s then (s, kSceErrorNotFound)
  else if (attributeIndex <? 0) || (4 <=? attributeIndex) then (s, kSceErrorInvalidArg)
  else (with_buffers (<[Z.to_nat attributeIndex := no_buffer]> (buffers s)) (bufferCount s) s, kSceOk).
Definition sceVideoOutSubmitFlip (handle bufferIndex : Z) (s : t) : t * Z :=
  if not_open handle s then (s, kSceErrorNotFound)
  else if (bufferIndex <? 0) || (bufferCount s <=? bufferIndex) then (s, kSceErrorInvalidArg)
  else (mkVideo (is_open s) (buffers s) (bufferCount s) bufferIndex (flipRate s), kSceOk).
Definition sceVideoOutSetFlipRate (handle rate : Z) (s : t) : t * Z :=
  if not_open handle s then (s, kSceErrorNotFound)
  else if rate <=? 0 then (s, kSceErrorInvalidArg)
  else (mkVideo (is_open s) (buffers s) (bufferCount s) (currentIndex s) rate, kSceOk).
(** The bytes written behind a status pointer that is there. *)
Definition sceVideoOutGetFlipStatus (handle : Z) (status : bool) (s : t) : option bytes * Z :=
  if not_open handle s then (None, kSceErrorNotFound)
  else if negb status then (None, kSceErrorInvalidArg)
  else (Some (replicate 0x30 0), kSceOk).
End SceVideoOut.

(** ** SceSysmodule.cpp *)
Module SceSysmodule.
Definition kSceOk : Z := 0.
Definition kSceErrorNotLoaded : Z := i32 0x80020004.
Definition kSceErrorExists : Z := i32 0x8002000B.

Definition kModuleMap : list (Z * string) := [
  (0x00000001, "libSceLibcInternal"%string);
  (0x00000002, "libSceUlt"%string);
  (0x00000003, "libSceKernel"%string);
  (0x0000000C, "libScePad"%string);
  (0x00000018, "libSceAudioOut"%string);
  (0x0000001C, "libSceNet"%string);
  (0x00000021, "libSceVideoOut"%string);
  (0x0000003C, "libSceGnm"%string);
  (0x00000048, "libSceSysmodule"%string)].
Fixpoint lib_in (id : Z) (l : list (Z * string)) : option string :=
  match l with [] => None | m :: l => if m.1 =? id then Some m.2 else lib_in id l end.
Definition libForId (id : Z) : option string := lib_in id kModuleMap.

(** [g_loadedModules]: only its keys matter, every value is null. *)
Definition t : Type := gset string.

Definition has_stubs (lib : string) (table : SceStubTable.t) : bool :=
  existsb (fun e => bool_decide (take (length (cstr lib ++ cstr "::")) e.1 = cstr lib ++ cstr "::")) (map_to_list (SceStubTable.m_stubs table)).
Definition sceSysmoduleLoadModule (table : SceStubTable.t) (id : Z) (s : t) : t * Z :=
  match libForId id with
  | None => (s, kSceErrorNotLoaded)
  | Some lib =>
      if bool_decide (lib ∈ s) then (s, kSceErrorExists)
      else if negb (has_stubs lib table) then (s, kSceErrorNotLoaded)
      else ({[lib]} ∪ s, kSceOk)
  end.
Definition sceSysmoduleUnloadModule (id : Z) (s : t) : t * Z :=
  match libForId id with
  | None => (s, kSceErrorNotLoaded)
  | Some lib => if bool_decide (lib ∈ s) then (s ∖ {[lib]}, kSceOk) else (s, kSceErrorNotLoaded)
  end.
Definition sceSysmoduleIsLoaded (id : Z) (s : t) : Z :=
  match libForId id with
  | None => kSceErrorNotLoaded
  | Some lib => if bool_decide (lib ∈ s) then kSceOk else kSceErrorNotLoaded
  end.
End SceSysmodule.

(** ** SceAppContent.cpp *)
Module SceAppContent.
Definition kOk : Z := 0.
Definition kErrInvalidArg : Z := i32 0x80020005.
Definition kErrNotFound : Z := i32 0x80020004.
Definition kErrAlreadyMounted : Z := i32 0x8002000B.

(** [g_mounted], from the content id to the guest path. *)
Record t := mkContent { g_mounted : gmap Z bytes; g_nextHandle : Z }.
Definition initial : t := mkContent ∅ 1.

Section Host.
(** [stat] answers that the path is a directory. *)
Context (is_dir : bytes -> bool) (policy : FsPolicy.t).

Definition hostDirExists (guestPath : bytes) : bool :=
  let tr := (VirtualFileSystem.resolve policy guestPath Read).1 in
  VirtualFileSystem.ok tr && is_dir (VirtualFileSystem.tr_hostPath tr).
Definition content_path (contentId : Z) : bytes := cstr "/data/dlc/" ++ to_string contentId.
Definition sceAppContentAddcontMount (contentId : Z) (out : bool) (s : t) : t * Z * option Z :=
  if negb out then (s, kErrInvalidArg, None)
  else
    let guestPath := content_path contentId in
    if bool_decide (is_Some (g_mounted s !! contentId)) then (s, kErrAlreadyMounted, None)
    else if negb (hostDirExists guestPath) then (s, kErrNotFound, None)
    else
      let h := g_nextHandle s in
      (mkContent (<[contentId := guestPath]> (g_mounted s)) (u32 (h + 1)), kOk, Some h).
End Host.

Definition sceAppContentAddcontUnmount (handle : Z) (s : t) : t * Z := (s, kOk).
Definition sceAppContentAddcontDelete (contentId : Z) : Z := kErrNotFound.
Definition sceAppContentTemporaryDataMount (out : bool) : Z * option Z := (kOk, if out then Some 1 else None).
Definition sceAppContentAppParamGetInt (out : bool) : Z * option Z := if out then (kOk, Some 0) else (kErrInvalidArg, None).
End SceAppContent.

(** ** SceNpManager.cpp *)
Module SceNpManager.
Definition kOk : Z := 0.
Definition kErrNotSignedIn : Z := i32 0x80550008.
Definition kErrInvalidArg : Z := i32 0x80020005.

(** The fields of a [SceNpId]: handle, reserved, online id, reserved. *)
Definition handle_byte (account : Z) (i : Z) : Z := u8 (Z.lxor (Z.shiftr account ((i mod 8) * 8)) (i * 17)).
Definition np_handle (account : Z) : bytes := handle_byte account <$> seqZ 0 16.
Definition online_field (id : bytes) : bytes :=
  let n := Nat.min 15 (length id) in take n id ++ replicate (16 - n) 0.
Definition SceNpId (a : AccountInfo) : list bytes := [np_handle (accountId a); replicate 8 0; online_field (onlineId a); replicate 14 0].

Definition sceNpCheckNpReachability (p : PsnBackend) : Z := if m_signedIn p then kOk else kErrNotSignedIn.
Definition sceNpGetAccountIdA (out : bool) (p : PsnBackend) : Z * option Z :=
  if negb out then (kErrInvalidArg, None)
  else if negb (m_signedIn p) then (kErrNotSignedIn, None)
  else (kOk, Some (accountId (m_account p))).
Definition sceNpGetAccountId := sceNpGetAccountIdA.
Definition sceNpGetOnlineId (out : bool) (p : PsnBackend) : Z * option bytes :=
  if negb out then (kErrInvalidArg, None)
  else if negb (m_signedIn p) then (kErrNotSignedIn, None)
  else (kOk, Some (concat (SceNpId (m_account p)))).
Definition sceNpGetAccountCountry (out : bool) : Z * option bytes := if out then (kOk, Some (cstr "US" ++ [0])) else (kErrInvalidArg, None).
Definition sceNpGetAccountLanguage (out : bool) : Z * option bytes := if out then (kOk, Some (cstr "en" ++ [0])) else (kErrInvalidArg, None).
Definition sceNpIsPlusMember (p : PsnBackend) : Z := if negb (Z.land (acc_flags (m_account p)) 1 =? 0) then 1 else 0.
End SceNpManager.

(** ** SceScreenShot.cpp *)
Module SceScreenShot.
Definition kOk : Z := 0.
Definition kErrInvalidArg : Z := i32 0x80020005.
Definition kErrNotFound : Z := i32 0x80020004.
Definition kErrNotSupport : Z := i32 0x80020003.

Definition isAlbumPath (p : bytes) : bool := bool_decide (take 6 p = cstr "/user/").

(** What the library asks of the host: directories made, images written. *)
Inductive Effect := Mkdir (path : bytes) | WriteJpeg (path : bytes) | WritePng (path : bytes).
Definition effect_path (e : Effect) : bytes := match e with Mkdir p => p | WriteJpeg p => p | WritePng p => p end.

(** Every prefix that ends with a separator. *)
Fixpoint parents (acc path : bytes) : list bytes :=
  match path with
  | [] => []
  | c :: path => let acc := acc ++ [c] in (if c =? slash then [acc] else []) ++ parents acc path
  end.

Section Host.
(** The device has a frame to give; an encoder is linked, and writes the path. *)
Context (policy : FsPolicy.t) (captured hasJpeg hasPng : bool) (jpeg png : bytes -> bool).

Definition encode (hostPath : bytes) : list Effect * Z :=
  let tried := if hasJpeg then [WriteJpeg hostPath] else [] in
  if hasJpeg && jpeg hostPath then (tried, kOk)
  else if hasPng then (tried ++ [WritePng hostPath], if png hostPath then kOk else kErrNotSupport)
  else (tried, kErrNotSupport).
Definition sceScreenShotCapture (guestDir guestFile : option bytes) : list Effect * Z :=
  match guestDir, guestFile with
  | Some dir, Some file =>
      let path := dir ++ [slash] ++ file in
      if negb (isAlbumPath path) then ([], kErrNotSupport)
      else if negb captured then ([], kErrNotSupport)
      else
        let tr := (VirtualFileSystem.resolve policy path Create).1 in
        let hostPath := if VirtualFileSystem.ok tr then VirtualFileSystem.tr_hostPath tr else [] in
        if bool_decide (hostPath = []) then ([], kErrNotFound)
        else let '(l, r) := encode hostPath in ((Mkdir <$> parents [] hostPath) ++ l, r)
  | _, _ => ([], kErrInvalidArg)
  end.
End Host.
End SceScreenShot.

(** ** Video output *)
Section Video.
Import SceVideoOut.

Inductive vstep : t -> t -> Prop :=
  | v_open s : vstep s (sceVideoOutOpen s).1
  | v_close h s : vstep s (sceVideoOutClose h s).1
  | v_register h i l n a s s' r : sceVideoOutRegisterBuffers h i l n a s = Some (s', r) -> vstep s s'
  | v_unregister h i s : vstep s (sceVideoOutUnregisterBuffers h i s).1
  | v_flip h i s : vstep s (sceVideoOutSubmitFlip h i s).1
  | v_rate h r s : vstep s (sceVideoOutSetFlipRate h r s).1.

Record video_ok (s : t) : Prop := mkVideoOk {
  vo_slots : length (buffers s) = 4%nat;
  vo_count : 0 <= bufferCount s <= 4;
  vo_current : 0 <= currentIndex s < 4;
  vo_rate : 0 < flipRate s;
  vo_closed : is_open s = false -> bufferCount s = 0
}.

Lemma register_loop_length a i ps l : length (register_loop a i ps l).1 = length l.
Proof. revert i l. induction ps as [|p ps IH]; intros i l; cbn [register_loop]; [done|]. destruct (_ =? _); [done|]. by rewrite IH, length_insert. Qed.
Lemma not_open_spec h s : not_open h s = false -> h = 0 /\ is_open s = true.
Proof. unfold not_open, kSceVideoOutHandle. intros [H1 H2]%orb_false_elim. destruct (Z.eqb_spec h 0), (is_open s); done. Qed.

Lemma video_step s s' : vstep s s' -> video_ok s -> video_ok s'.
Proof.
  intros H Hs. pose proof Hs as [H1 H2 H3 H4 H5]. destruct H as [s|h s|h i l n a s s' r H|h i s|h i s|h r s].
  - unfold sceVideoOutOpen. destruct (is_open s) eqn:E; [done|]. split; cbn; try done; lia.
  - unfold sceVideoOutClose. destruct (not_open h s); [done|]. split; cbn; try done; lia.
  - unfold sceVideoOutRegisterBuffers in H. destruct (not_open h s) eqn:En; [by injection H as <- _|]. apply not_open_spec in En as [_ En].
    destruct l as [l|], a as [a|]; try by injection H as <- _. destruct (Z.leb_spec n 0); [by injection H as <- _|].
    destruct (Z.ltb_spec i 0); [by injection H as <- _|]. destruct (_ <=? _); [done|]. destruct (Z.ltb_spec 4 (i + n)); [by injection H as <- _|].
    destruct (_ <? _)%nat; [done|]. pose proof (register_loop_length a (Z.to_nat i) (take (Z.to_nat n) l) (buffers s)) as Hlen.
    destruct (register_loop _ _ _ _) as [l' ok]. cbn [fst] in Hlen.
    destruct ok; injection H as <- _; split; cbn; try done; try lia; congruence.
  - unfold sceVideoOutUnregisterBuffers. destruct (not_open h s); [done|]. destruct (_ || _); [done|]. split; cbn; try done. by rewrite length_insert.
  - unfold sceVideoOutSubmitFlip. destruct (not_open h s); [done|]. destruct (Z.ltb_spec i 0), (Z.leb_spec (bufferCount s) i); cbn; try done. split; cbn; try done; lia.
  - unfold sceVideoOutSetFlipRate. destruct (not_open h s); [done|]. destruct (Z.leb_spec r 0); cbn; [done|]. by split.
Qed.

(** The video output keeps four slots, at most four of them counted, a current slot
    among them and a positive flip rate, in every session; a flip is accepted exactly
    on the open output and a counted slot, and becomes the current one. *)
Theorem video_session s h i : rtc vstep initial s ->
  video_ok s /\
  ((sceVideoOutSubmitFlip h i s).2 = kSceOk <-> h = kSceVideoOutHandle /\ is_open s = true /\ 0 <= i < bufferCount s) /\
  ((sceVideoOutSubmitFlip h i s).2 = kSceOk -> currentIndex (sceVideoOutSubmitFlip h i s).1 = i).
Proof.
  intros Hr. split.
  { assert (video_ok initial) as H by (split; cbn; try done; lia). clear -Hr H. induction Hr; [done|]. eauto using video_step. }
  unfold sceVideoOutSubmitFlip. destruct (not_open h s) eqn:E.
  { unfold not_open, kSceVideoOutHandle in *. split; [|done]. split; [done|]. intros (-> & Ho & _). by rewrite Ho in E. }
  apply not_open_spec in E as [-> Ho]. destruct (Z.ltb_spec i 0), (Z.leb_spec (bufferCount s) i); cbn; (split; [|done]); (split; [done|lia] || done).
Qed.

(** A flip to slots that no buffer is in: those below the first registration, and
    those given back. *)
Lemma flips_without_buffer (a : BufferAttribute) : exists s s',
  rtc vstep initial s /\ sceVideoOutSubmitFlip 0 0 s = (s', kSceOk) /\ buffers s' !! Z.to_nat (currentIndex s') = Some no_buffer.
Proof.
  set (s1 := (sceVideoOutOpen initial).1).
  assert (exists s2, sceVideoOutRegisterBuffers 0 2 (Some [4096]) 1 (Some a) s1 = Some (s2, kSceOk) /\ is_open s2 = true /\
    bufferCount s2 = 3 /\ buffers s2 !! 0%nat = Some no_buffer) as (s2 & H & H1 & H2 & H3) by (eexists; split; [reflexivity|done]).
  exists s2, (mkVideo true (buffers s2) 3 0 (flipRate s2)). split; [|split; [|done]].
  - eapply rtc_l; [apply v_open|]. by eapply rtc_once, v_register.
  - unfold sceVideoOutSubmitFlip, not_open. by rewrite H1, H2.
Qed.
End Video.
Lemma video_session_witness : SceVideoOut.currentIndex (SceVideoOut.sceVideoOutOpen SceVideoOut.initial).1 = 0 /\ video_ok (SceVideoOut.sceVideoOutOpen SceVideoOut.initial).1.
Proof. split; [reflexivity|]. exact (proj1 (video_session _ 0 0 (rtc_once _ _ (v_open SceVideoOut.initial)))). Defined.

(** ** Modules *)
Module ModuleSpec.
Import SceSysmodule.
(** The modules by their ids: the library knows nine, and keeps a set of the loaded ones. *)
Inductive Call := Load (id : Z) | Unload (id : Z) | IsLoaded (id : Z).
Definition known (id : Z) : bool := existsb (Z.eqb id) [1; 2; 3; 12; 24; 28; 33; 60; 72].
Definition spec (c : Call) (S : gset Z) : gset Z * Z :=
  match c with
  | Load id => if negb (known id) then (S, kSceErrorNotLoaded) else if bool_decide (id ∈ S) then (S, kSceErrorExists) else ({[id]} ∪ S, kSceOk)
  | Unload id => if bool_decide (id ∈ S) then (S ∖ {[id]}, kSceOk) else (S, kSceErrorNotLoaded)
  | IsLoaded id => (S, if bool_decide (id ∈ S) then kSceOk else kSceErrorNotLoaded)
  end.
Definition impl (table : SceStubTable.t) (c : Call) (s : t) : t * Z :=
  match c with
  | Load id => sceSysmoduleLoadModule table id s
  | Unload id => sceSysmoduleUnloadModule id s
  | IsLoaded id => (s, sceSysmoduleIsLoaded id s)
  end.
Fixpoint answers {S} (f : Call -> S -> S * Z) (cs : list Call) (s : S) : list Z :=
  match cs with [] => [] | c :: cs => let '(s, r) := f c s in r :: answers f cs s end.
End ModuleSpec.

Section Modules.
Import SceSysmodule ModuleSpec.

Local Ltac each_id id tac := repeat match goal with |- context [?k =? id] => destruct (Z.eqb_spec k id); [tac|] end.
Lemma lib_known id : is_Some (libForId id) <-> known id = true.
Proof.
  unfold known, libForId, kModuleMap. cbn [lib_in fst snd].
  each_id id ltac:(subst; split; [intros _; reflexivity|intros _; by eexists]).
  split; [by intros [? ?]|]. cbn [existsb]. rewrite !orb_true_iff, !Z.eqb_eq. intros H. exfalso. intuition congruence.
Qed.
Lemma lib_inj id id' l : libForId id = Some l -> libForId id' = Some l -> id = id'.
Proof.
  unfold libForId, kModuleMap. cbn [lib_in fst snd].
  each_id id ltac:(intros [= <-]; each_id id' ltac:(first [by intros _; congruence | done]); done). done.
Qed.

(** The loaded libraries are those of the loaded ids. *)
Definition related (s : t) (S : gset Z) : Prop :=
  (forall id l, libForId id = Some l -> (l ∈ s <-> id ∈ S)) /\ (forall id, id ∈ S -> is_Some (libForId id)).

Lemma related_call table s S c : (forall id l, libForId id = Some l -> has_stubs l table = true) -> related s S ->
  (impl table c s).2 = (spec c S).2 /\ related (impl table c s).1 (spec c S).1.
Proof.
  intros Ht [H1 H2].
  assert (forall id, libForId id = None -> known id = false /\ id ∉ S) as Hnone.
  { intros id E. split; [|intros Hin; destruct (H2 id Hin); congruence]. apply not_true_is_false. rewrite <- lib_known, E. by intros [? ?]. }
  assert (forall id l, libForId id = Some l -> known id = true /\ bool_decide (l ∈ s) = bool_decide (id ∈ S)) as Hsome.
  { intros id l E. split; [apply lib_known; eauto|]. by apply bool_decide_ext, H1. }
  destruct c as [id|id|id]; cbn [impl spec]; unfold sceSysmoduleLoadModule, sceSysmoduleUnloadModule, sceSysmoduleIsLoaded;
    (destruct (libForId id) as [l|] eqn:E;
      [destruct (Hsome id l E) as [Hk ->]; rewrite ?Hk, ?(Ht id l E)|destruct (Hnone id E) as [Hk Hn]; rewrite ?Hk, ?(bool_decide_eq_false_2 _ Hn); done]);
    case_bool_decide; cbn [negb fst snd]; (split; [done|]); try done; split.
  - intros id' l' E'. pose proof (H1 id' l' E'). pose proof (lib_inj id id' l E). destruct (decide (l = l')) as [<-|]; [set_solver|].
    assert (id <> id') by congruence. set_solver.
  - intros id' [->%elem_of_singleton|]%elem_of_union; eauto.
  - intros id' l' E'. pose proof (H1 id' l' E'). pose proof (lib_inj id id' l E). destruct (decide (l = l')) as [<-|]; [set_solver|].
    assert (id <> id') by congruence. set_solver.
  - intros id' [? _]%elem_of_difference. eauto.
Qed.

Lemma libraries_have_stubs address ls : (forall c f, address c f <> 0) -> ls ≡ₚ Sce.all_libraries ->
  forall id l, libForId id = Some l -> has_stubs l (register_libraries address ls SceStubTable.initial) = true.
Proof.
  intros Hnz Hp id l. unfold libForId, kModuleMap. cbn [lib_in fst snd].
  assert (forall L e, L ∈ Sce.all_libraries -> e ∈ l_exports L -> has_stubs (e_lib e) (register_libraries address ls SceStubTable.initial) = true) as H.
  { intros L e HL He. rewrite <- Hp in HL. destruct (exports_lookup address ls L e Hnz Hp HL He) as (_ & _ & Hs & _).
    unfold has_stubs. apply existsb_exists. eexists (_, _). split; [apply list_elem_of_In, elem_of_map_to_list; exact Hs|].
    apply bool_decide_eq_true. cbn [fst]. unfold SceStubTable.key. by rewrite app_assoc, take_app_length. }
  assert (forall L, L ∈ Sce.all_libraries -> match l_exports L with e :: _ => has_stubs (e_lib e) (register_libraries address ls SceStubTable.initial) = true | [] => True end) as H'.
  { intros L HL. destruct (l_exports L) as [|e es] eqn:E; [done|]. apply (H L e HL). rewrite E. by left. }
  rewrite <- Forall_forall in H'. unfold Sce.all_libraries in H'. rewrite !Forall_cons in H'. cbn in H'. clear H Hp Hnz.
  each_id id ltac:(intros [= <-]; tauto). done.
Qed.

(** C32: module loading refines a set of ids: when the 47 libraries have registered, in any
    order, every sequence of loads, unloads and queries is answered as by a set of the
    loaded ids, of which nine can be loaded. *)
Theorem sysmodule_refines address ls cs :
  (forall c f, address c f <> 0) -> ls ≡ₚ Sce.all_libraries ->
  answers (impl (register_libraries address ls SceStubTable.initial)) cs ∅ = answers spec cs ∅.
Proof.
  intros Hnz Hp. pose proof (libraries_have_stubs address ls Hnz Hp) as Ht.
  assert (related ∅ ∅) as Hr by (split; set_solver). revert Hr. generalize (∅ : t) (∅ : gset Z).
  induction cs as [|c cs IH]; intros s S Hr; cbn [answers]; [done|]. destruct (related_call _ s S c Ht Hr) as [H1 H2].
  destruct (impl _ c s), (spec c S). cbn in H1, H2. subst. f_equal. by apply IH.
Qed.
End Modules.
Lemma sysmodule_refines_witness : ModuleSpec.answers (ModuleSpec.impl (register_libraries demo_address (rev Sce.all_libraries) SceStubTable.initial))
  [ModuleSpec.Load 12; ModuleSpec.Load 12; ModuleSpec.Unload 12; ModuleSpec.IsLoaded 12; ModuleSpec.Load 5] ∅ =
  [0; SceSysmodule.kSceErrorExists; 0; SceSysmodule.kSceErrorNotLoaded; SceSysmodule.kSceErrorNotLoaded].
Proof.
  rewrite (sysmodule_refines demo_address (rev Sce.all_libraries) [ModuleSpec.Load 12; ModuleSpec.Load 12; ModuleSpec.Unload 12; ModuleSpec.IsLoaded 12; ModuleSpec.Load 5]).
  - vm_compute. reflexivity.
  - intros c f. unfold demo_address. lia.
  - symmetry. apply Permutation_rev.
Defined.

(** ** Additional content *)
Section Content.
Import SceAppContent.
Context (is_dir : bytes -> bool) (policy : FsPolicy.t).

Inductive astep : t -> t -> Prop :=
  | a_mount id out s : astep s (sceAppContentAddcontMount is_dir policy id out s).1.1
  | a_unmount h s : astep s (sceAppContentAddcontUnmount h s).1.

Lemma content_kept id s s' : rtc astep s s' -> is_Some (g_mounted s !! id) -> is_Some (g_mounted s' !! id).
Proof.
  induction 1 as [|s s1 s' Hs _ IH]; [done|]. intros H. apply IH. destruct Hs as [id' out s|h s]; [|done].
  unfold sceAppContentAddcontMount. destruct out; [|done]. cbn [negb]. case_bool_decide; [done|]. destruct (negb _); [done|].
  cbn. destruct (decide (id' = id)) as [->|]; [by rewrite lookup_insert_eq|by rewrite lookup_insert_ne].
Qed.

(** Additional content is mounted once and for ever: after a mount that succeeded, and
    any mounts and unmounts, its own handle's included, the content cannot be mounted
    again; it only mounts where its directory resolves to one of the host. *)
Theorem content_never_unmounted id s s1 h s2 :
  sceAppContentAddcontMount is_dir policy id true s = (s1, kOk, Some h) -> rtc astep s1 s2 ->
  sceAppContentAddcontMount is_dir policy id true (sceAppContentAddcontUnmount h s2).1 = (s2, kErrAlreadyMounted, None) /\
  exists mp comps, mp ∈ FsPolicy.m_mounts policy /\ Forall VfsSpec.good_component comps /\
    is_dir (VfsSpec.below (VfsSpec.mount_dir (FsPolicy.m_vfsRoot policy) (FsPolicy.hostSubdir mp)) comps) = true.
Proof.
  unfold sceAppContentAddcontMount at 1. cbn [negb]. case_bool_decide; [done|]. destruct (hostDirExists _ _ _) eqn:Ed; [|done]. cbn [negb].
  intros [= <- <-] Hr. split.
  - unfold sceAppContentAddcontMount. cbn [negb sceAppContentAddcontUnmount fst]. rewrite bool_decide_eq_true_2; [done|].
    eapply content_kept; [exact Hr|]. cbn. by rewrite lookup_insert_eq.
  - unfold hostDirExists in Ed. apply andb_prop in Ed as [Hok Hd]. destruct (resolve_below _ _ _ Hok) as (mp & comps & _ & Hm & Hg & Hp).
    exists mp, comps. split_and!; try done. by rewrite <- Hp.
Qed.
End Content.
Lemma content_never_unmounted_witness :
  SceAppContent.sceAppContentAddcontMount (fun p => bool_decide (p = cstr "virtual_fs/data/dlc/7")) FsPolicy.default_policy 7 true SceAppContent.initial =
    (SceAppContent.mkContent {[7 := cstr "/data/dlc/7"]} 2, 0, Some 1) /\
  (SceAppContent.sceAppContentAddcontMount (fun p => bool_decide (p = cstr "virtual_fs/data/dlc/7")) FsPolicy.default_policy 7 true
    (SceAppContent.mkContent {[7 := cstr "/data/dlc/7"]} 2)).1.2 = SceAppContent.kErrAlreadyMounted.
Proof.
  assert (SceAppContent.sceAppContentAddcontMount (fun p => bool_decide (p = cstr "virtual_fs/data/dlc/7")) FsPolicy.default_policy 7 true SceAppContent.initial =
    (SceAppContent.mkContent {[7 := cstr "/data/dlc/7"]} 2, 0, Some 1)) as H by (vm_compute; reflexivity).
  split; [exact H|]. exact (f_equal (fun x => x.1.2) (proj1 (content_never_unmounted _ _ _ _ _ _ _ H (rtc_refl _ _)))).
Defined.

(** ** Identity *)
Section Identity.
Import SceNpManager.

(** What a title reads back: the account under the pattern of the handle. *)
Definition account_of (bs : bytes) : Z := le_decode (imap (fun i b => u8 (Z.lxor b (Z.of_nat i * 17))) (take 8 bs)).

Lemma unmask x c : 0 <= c < 256 -> u8 (Z.lxor (u8 (Z.lxor x c)) c) = u8 x.
Proof.
  intros Hc. unfold wrap. change (2 ^ 8) with (2 ^ 8). rewrite <- !Z.land_ones by lia. apply Z.bits_inj'. intros n Hn.
  rewrite !Z.land_spec, !Z.lxor_spec, !Z.land_spec, !Z.lxor_spec, !Z.testbit_ones_nonneg by lia.
  destruct (n <? 8), (Z.testbit x n), (Z.testbit c n); done.
Qed.
Lemma np_handle_account a : in_width 64 a -> account_of (np_handle a) = a.
Proof.
  intros Ha. transitivity (le_decode ((fun i => u8 (Z.lxor (u8 (Z.lxor (Z.shiftr a (i * 8)) (i * 17))) (i * 17))) <$> [0; 1; 2; 3; 4; 5; 6; 7])); [reflexivity|].
  cbn [fmap list_fmap]. rewrite !unmask by lia.
  transitivity (le_decode (le_encode 8 a)); [|by apply le_decode_encode].
  f_equal. cbn [le_encode]. unfold wrap. rewrite !Z.shiftr_div_pow2 by lia. rewrite !Z.div_div by lia. by rewrite Z.div_1_r.
Qed.

(** A title can tell the account from what the identity library gives it: the 54 bytes
    hold the account number under the pattern of the handle, and the online id as a
    string, when it is a string of at most fifteen characters. *)
Theorem np_id_roundtrip p bs :
  sceNpGetOnlineId true p = (kOk, Some bs) -> in_width 64 (accountId (m_account p)) ->
  SaveContainer.string_fits 16 (onlineId (m_account p)) ->
  length bs = 54%nat /\ account_of (take 16 bs) = accountId (m_account p) /\
  SaveContainer.readStr (SaveContainer.sub bs 24 16) = onlineId (m_account p).
Proof.
  unfold sceNpGetOnlineId. cbn [negb]. destruct (m_signedIn p); [|done]. intros H Ha Hs.
  assert (bs = concat (SceNpId (m_account p))) as -> by (symmetry; by injection H). clear H. unfold SceNpId. cbn [concat].
  change (online_field (onlineId (m_account p))) with (SaveContainer.copyStr 16 (onlineId (m_account p))).
  assert (length (SaveContainer.copyStr 16 (onlineId (m_account p))) = 16%nat) as Hl by (apply SaveContainer.length_copyStr; lia).
  assert (length (np_handle (accountId (m_account p))) = 16%nat) as Hn by done.
  split_and!.
  - rewrite !length_app, Hn, Hl, !length_replicate. done.
  - rewrite <- Hn, take_app_length. by apply np_handle_account.
  - unfold SaveContainer.sub. rewrite app_nil_r, app_assoc. rewrite drop_app_length' by (rewrite length_app, Hn, length_replicate; done).
    rewrite take_app_length' by done. by apply SaveContainer.readStr_copyStr.
Qed.
End Identity.
Lemma np_id_roundtrip_witness :
  let a := mkAccount 0x1234 (cstr "Player1") (cstr "us") (cstr "en") 25 0 in
  length (concat (SceNpManager.SceNpId a)) = 54%nat /\ account_of (take 16 (concat (SceNpManager.SceNpId a))) = 0x1234.
Proof.
  intros a. destruct (np_id_roundtrip (mkPsn [] [] a true ∅ ∅ ∅) (concat (SceNpManager.SceNpId a)) eq_refl) as (H1 & H2 & _).
  - split; [discriminate|reflexivity].
  - split; [vm_compute; lia|]. repeat constructor; discriminate.
  - by split.
Defined.

(** ** Screen shots *)
Section Shots.
Import SceScreenShot VfsSpec.

Lemma parents_prefix acc path x : x ∈ parents acc path -> x `prefix_of` acc ++ path.
Proof.
  revert acc. induction path as [|c path IH]; intros acc; cbn [parents]; [by intros ?%elem_of_nil|].
  assert (acc ++ c :: path = (acc ++ [c]) ++ path) as -> by (by rewrite <- app_assoc).
  intros [H|H]%elem_of_app; [|by apply IH]. destruct (c =? slash); [|by apply elem_of_nil in H].
  apply list_elem_of_singleton in H as ->. by eexists.
Qed.

(** A screen shot stays in the mount its path resolves to: whatever the guest names,
    the image is written to one path below the host directory of a mount that permits
    creation, and the directories made are on the way to it. *)
Theorem screenshot_confined policy captured hasJpeg hasPng jpeg png dir file l r :
  sceScreenShotCapture policy captured hasJpeg hasPng jpeg png dir file = (l, r) -> l <> [] ->
  exists mp comps, mp ∈ FsPolicy.m_mounts policy /\ FsPolicy.op_permitted mp Create = true /\ Forall good_component comps /\
    let target := below (mount_dir (FsPolicy.m_vfsRoot policy) (FsPolicy.hostSubdir mp)) comps in
    Forall (fun e => match e with Mkdir p => p `prefix_of` target | _ => effect_path e = target end) l.
Proof.
  unfold sceScreenShotCapture. destruct dir as [dir|], file as [file|]; try by intros [= <- <-].
  destruct (negb (isAlbumPath _)); [by intros [= <- <-]|]. destruct (negb captured); [by intros [= <- <-]|].
  set (path := dir ++ [slash] ++ file). destruct (VirtualFileSystem.ok _) eqn:Hok; [|by intros [= <- <-]].
  case_bool_decide; [by intros [= <- <-]|]. destruct (encode _ _ _ _ _) as [es r'] eqn:Ee. intros [= <- <-] _.
  destruct (resolve_below _ _ _ Hok) as (mp & comps & Hp & Hm & Hg & Ht). exists mp, comps. rewrite <- Ht. split_and!; try done. cbn zeta.
  apply Forall_app. split.
  - apply Forall_fmap, Forall_forall. intros x Hx. by apply parents_prefix in Hx.
  - unfold encode in Ee. destruct (hasJpeg && _); [|destruct hasPng]; injection Ee as <- _; destruct hasJpeg; repeat constructor.
Qed.

(** The check of the album looks at the path as it is spelt: [/user/..] passes it, and
    the picture lands in the data of the title. *)
Lemma album_escape png : sceScreenShotCapture FsPolicy.default_policy true true false (fun _ => true) png (Some (cstr "/user/../data")) (Some (cstr "x")) =
  ([Mkdir (cstr "virtual_fs/"); Mkdir (cstr "virtual_fs/data/"); WriteJpeg (cstr "virtual_fs/data/x")], kOk).
Proof. vm_compute. reflexivity. Qed.
End Shots.
Lemma screenshot_confined_witness : exists mp, mp ∈ FsPolicy.m_mounts FsPolicy.default_policy /\ FsPolicy.op_permitted mp Create = true.
Proof.
  destruct (screenshot_confined FsPolicy.default_policy true true false (fun _ => true) (fun _ => true) (Some (cstr "/user/album")) (Some (cstr "x"))
    [SceScreenShot.Mkdir (cstr "virtual_fs/"); SceScreenShot.Mkdir (cstr "virtual_fs/user/"); SceScreenShot.Mkdir (cstr "virtual_fs/user/album/");
     SceScreenShot.WriteJpeg (cstr "virtual_fs/user/album/x")] 0) as (mp & comps & H1 & H2 & _).
  - vm_compute. reflexivity.
  - discriminate.
  - by exists mp.
Defined.
