(* ===== verification/Ajm.v ===== *)
(** * Decoding jobs

    [sce/ajm/SceAjm.cpp], [sce/audiodec/SceAudiodec.cpp] and [audio/AjmDecoder.cpp]:
    a queue of jobs served by one worker thread, and the synchronous decoder handles.
    What libmpg123 makes of an input is a parameter of each decoding.  A job object is
    shared by the table, the queue and the worker; it is named by its job id. *)
From S2P Require Import Prelude.

(** ** AjmDecoder.cpp *)
Module AjmDecoder.
Inductive AjmCodec := Unknown | Mp3 | At9.
#[global] Instance AjmCodec_eq_dec : EqDecision AjmCodec.
Proof. solve_decision. Defined.

(** [create] finds a decoder; [have] says that libmpg123 is in the build. *)
Definition create (have : bool) (codec : AjmCodec) : bool := match codec with Mp3 => have | _ => false end.
(** [decode]: the samples, when the pointer and the size are there and libmpg123,
    which answered [mpg], gave some. *)
Definition decode (input inputSize : Z) (mpg : option (list Z)) : option (list Z) :=
  if (input =? 0) || (inputSize =? 0) then None else match mpg with Some [] => None | r => r end.
End AjmDecoder.
Import AjmDecoder.

(** ** SceAjm.cpp *)
Module SceAjm.
Definition kOk : Z := 0.
Definition kErrInvalidArg : Z := i32 0x80020005.
Definition kErrNotFound : Z := i32 0x80020004.
Definition kErrNotSupport : Z := i32 0x80020003.

Record DecodeJob := mkJob {
  codec : AjmCodec; input : Z; inputSize : Z; output : Z; outputCapacity : Z;
  produced : Z; status : Z; done_ : bool
}.
(** The worker: no thread, at the top of its loop, or with a job that it took. *)
Inductive Worker := NoThread | Idle | Holding (id : Z).
Record t := mkAjm {
  objects : gmap Z DecodeJob;
  g_jobs : gset Z;
  g_pending : list Z;
  g_worker : Worker;
  g_running : bool;
  g_nextJobId : Z
}.
Definition initial : t := mkAjm ∅ ∅ [] NoThread false 1.

(** [AjmBatchHeader]. *)
Record AjmBatchHeader := mkHeader { h_codec : Z; h_inputPtr : Z; h_inputSize : Z; h_outputPtr : Z; h_outputCapacity : Z }.
Definition parse_header (b : bytes) : AjmBatchHeader := mkHeader (field b 0 4) (field b 8 8) (field b 16 8) (field b 24 8) (field b 32 8).

(** [sceAjmInitialize]; assigning to a thread that was not joined ends the process. *)
Definition sceAjmInitialize (out : bool) (s : t) : option (t * Z) :=
  if negb out then Some (s, kErrInvalidArg)
  else if g_running s then Some (s, kOk)
  else
    match g_worker s with
    | NoThread => Some (mkAjm (objects s) (g_jobs s) (g_pending s) Idle true (g_nextJobId s), kOk)
    | _ => None
    end.
(** [sceAjmFinalize] up to the join, which waits for [worker_exit]. *)
Definition sceAjmFinalize (s : t) : t := mkAjm (objects s) (g_jobs s) (g_pending s) (g_worker s) false (g_nextJobId s).

Definition sceAjmModuleRegister (have : bool) (codecType : Z) : Z :=
  if codecType =? 1 then (if create have Mp3 then kOk else kErrNotSupport) else kErrNotSupport.

Definition codec_of (c : Z) : option AjmCodec := if c =? 1 then Some Mp3 else if c =? 3 then Some At9 else None.
Definition new_job (c : AjmCodec) (h : AjmBatchHeader) : DecodeJob :=
  mkJob c (h_inputPtr h) (h_inputSize h) (h_outputPtr h) (h_outputCapacity h) 0 0 false.
(** [batch] is null or the bytes behind the pointer, of which there are [batchSize]. *)
Definition sceAjmBatchStartBuffer (batch : option bytes) (batchSize : Z) (out : bool) (s : t) : t * Z * option Z :=
  match batch with
  | None => (s, kErrInvalidArg, None)
  | Some b =>
      if (batchSize <? 32) || negb out then (s, kErrInvalidArg, None)
      else if batchSize <? 40 then (s, kErrInvalidArg, None)
      else
        let h := parse_header b in
        match codec_of (h_codec h) with
        | None => (s, kErrNotSupport, None)
        | Some c =>
            let id := g_nextJobId s in
            (mkAjm (<[id := new_job c h]> (objects s)) ({[id]} ∪ g_jobs s) (g_pending s ++ [id]) (g_worker s) (g_running s) (id + 1),
             kOk, Some id)
        end
  end.

(** [sceAjmBatchWait] where it returns; while the job is not done it sleeps and
    looks again. *)
Definition sceAjmBatchWait (id : Z) (s : t) : option (t * Z * option Z) :=
  if negb (bool_decide (id ∈ g_jobs s)) then Some (s, kErrNotFound, None)
  else
    match objects s !! id with
    | Some j =>
        if done_ j then Some (mkAjm (objects s) (g_jobs s ∖ {[id]}) (g_pending s) (g_worker s) (g_running s) (g_nextJobId s), kOk, Some (u32 (status j)))
        else None
    | None => None
    end.
Definition sceAjmBatchJobDecode : Z := kErrNotSupport.

(** *** The worker *)
(** What it makes of a job, and the samples it copies to the guest. *)
Definition finish (have : bool) (mpg : option (list Z)) (j : DecodeJob) : DecodeJob * list Z :=
  let ended p st := mkJob (codec j) (input j) (inputSize j) (output j) (outputCapacity j) p st true in
  if negb (create have (codec j)) then (ended (produced j) kErrNotSupport, [])
  else
    match decode (input j) (inputSize j) mpg with
    | None => (ended (produced j) kErrInvalidArg, [])
    | Some l =>
        let samples := Z.min (Z.of_nat (length l)) (outputCapacity j) in
        (ended samples 0, if output j =? 0 then [] else take (Z.to_nat samples) l)
    end.
Definition set_worker w (s : t) : t := mkAjm (objects s) (g_jobs s) (g_pending s) w (g_running s) (g_nextJobId s).
Definition worker_take (s : t) : option t :=
  match g_worker s, g_pending s with
  | Idle, id :: rest => if g_running s then Some (mkAjm (objects s) (g_jobs s) rest (Holding id) true (g_nextJobId s)) else None
  | _, _ => None
  end.
(** The state after it and the write into the guest's buffer. *)
Definition worker_finish (have : bool) (mpg : option (list Z)) (s : t) : option (t * option (Z * list Z)) :=
  match g_worker s with
  | Holding id =>
      match objects s !! id with
      | Some j =>
          let '(j', l) := finish have mpg j in
          Some (mkAjm (<[id := j']> (objects s)) (g_jobs s) (g_pending s) Idle (g_running s) (g_nextJobId s),
                match l with [] => None | _ => Some (output j, l) end)
      | None => None
      end
  | _ => None
  end.
(** The loop ends, and with it the join of [sceAjmFinalize]. *)
Definition worker_exit (s : t) : option t :=
  match g_worker s with Idle => if g_running s then None else Some (set_worker NoThread s) | _ => None end.
End SceAjm.

(** ** SceAudiodec.cpp *)
Module SceAudiodec.
Definition kOk : Z := 0.
Definition kErrInvalidArg : Z := i32 0x80020005.
Definition kErrNotFound : Z := i32 0x80020004.
Definition kErrNotSupport : Z := i32 0x80020003.

Record t := mkDec { g_decoders : gmap Z AjmCodec; g_nextHandle : Z }.
Definition initial : t := mkDec ∅ 1.
Definition codec_of (c : Z) : option AjmCodec := if c =? 0x02 then Some Mp3 else if c =? 0x0F then Some At9 else None.

Definition sceAudiodecCreateDecoder (have : bool) (param : option bytes) (out : bool) (s : t) : t * Z * option Z :=
  match param with
  | Some p =>
      if negb out then (s, kErrInvalidArg, None)
      else
        match codec_of (field p 0 4) with
        | None => (s, kErrNotSupport, None)
        | Some c =>
            if negb (create have c) then (s, kErrNotSupport, None)
            else let h := g_nextHandle s in (mkDec (<[h := c]> (g_decoders s)) (h + 1), kOk, Some h)
        end
  | None => (s, kErrInvalidArg, None)
  end.
Definition sceAudiodecDeleteDecoder (h : Z) (s : t) : t * Z :=
  if bool_decide (is_Some (g_decoders s !! h)) then (mkDec (delete h (g_decoders s)) (g_nextHandle s), kOk) else (s, kErrNotFound).
(** The code, the samples written to [output] and the number of bytes produced. *)
Definition sceAudiodecDecode (mpg : option (list Z)) (h input inputSize output outputCapacity : Z) (s : t) : Z * list Z * option Z :=
  match g_decoders s !! h with
  | None => (kErrNotFound, [], None)
  | Some _ =>
      if (input =? 0) || (output =? 0) || (inputSize =? 0) then (kErrInvalidArg, [], None)
      else
        match decode input inputSize mpg with
        | None => (kErrInvalidArg, [], None)
        | Some l =>
            let samples := Z.min (Z.of_nat (length l)) (outputCapacity / 2) in
            (kOk, take (Z.to_nat samples) l, Some (samples * 2))
        end
  end.
End SceAudiodec.

(** ** Runs *)
Section Runs.
Import SceAjm.
Context (have : bool).

Inductive wstep : t -> t -> Prop :=
  | w_take s s' : worker_take s = Some s' -> wstep s s'
  | w_finish mpg s s' w : worker_finish have mpg s = Some (s', w) -> wstep s s'
  | w_exit s s' : worker_exit s = Some s' -> wstep s s'.
Inductive cstep : t -> t -> Prop :=
  | c_final s : cstep s (sceAjmFinalize s)
  | c_start b n out s : cstep s (sceAjmBatchStartBuffer b n out s).1.1
  | c_wait id s s' r o : sceAjmBatchWait id s = Some (s', r, o) -> cstep s s'.
Inductive step : t -> t -> Prop :=
  | s_init out s s' r : sceAjmInitialize out s = Some (s', r) -> step s s'
  | s_call s s' : cstep s s' -> step s s'
  | s_worker s s' : wstep s s' -> step s s'.

Definition waiting (s : t) (id : Z) : Prop := id ∈ g_pending s \/ g_worker s = Holding id.
Record ajm_ok (s : t) : Prop := mkAjmOk {
  ao_ids : forall id, is_Some (objects s !! id) -> id < g_nextJobId s;
  ao_nodup : NoDup (g_pending s);
  ao_held : forall id, g_worker s = Holding id -> id ∉ g_pending s;
  ao_waiting : forall id, waiting s id -> exists j, objects s !! id = Some j /\ done_ j = false;
  ao_done : forall id j, objects s !! id = Some j -> done_ j = false -> waiting s id;
  ao_jobs : forall id, id ∈ g_jobs s -> is_Some (objects s !! id);
  ao_thread : g_running s = true -> g_worker s <> NoThread
}.

Lemma ajm_ok_initial : ajm_ok initial.
Proof.
  split; cbn; try done.
  - intros id [x H]. by rewrite lookup_empty in H.
  - constructor.
  - intros id [H|H]; [by apply elem_of_nil in H|done].
Qed.

Lemma finish_done mpg j : done_ (finish have mpg j).1 = true.
Proof. unfold finish. destruct (negb _); [done|]. by destruct (decode _ _ _). Qed.

Lemma ajm_ok_submit b n out s : ajm_ok s -> ajm_ok (sceAjmBatchStartBuffer b n out s).1.1.
Proof.
  intros Hs. unfold sceAjmBatchStartBuffer. destruct b as [b|]; [|done]. destruct (_ || _); [done|]. destruct (_ <? _); [done|].
  destruct (codec_of _) as [c|]; [|done]. cbn [fst]. pose proof Hs as [H1 H2 H3 H4 H5 H6 H7].
  assert (forall id, is_Some (objects s !! id) -> id <> g_nextJobId s) as Hne by (intros id H; specialize (H1 id H); lia).
  assert (forall id, id ∈ g_pending s \/ g_worker s = Holding id -> id <> g_nextJobId s) as Hnw.
  { intros id H. destruct (H4 id H) as (j & Hj & _). apply Hne. eauto. }
  split; cbn; unfold waiting; cbn.
  - intros id [x [[<- _]|[_ H]]%lookup_insert_Some]; [lia|]. specialize (H1 id ltac:(eauto)). lia.
  - apply NoDup_app. split; [done|]. split; [|apply NoDup_singleton]. intros x Hx ->%list_elem_of_singleton. by apply (Hnw (g_nextJobId s)); [left|].
  - intros id H [Hp|Hp]%elem_of_app; [by apply (H3 id H)|]. apply list_elem_of_singleton in Hp as ->. by apply (Hnw (g_nextJobId s)); [right|].
  - intros id [[H| ->%list_elem_of_singleton]%elem_of_app|H].
    + rewrite lookup_insert_ne; [by apply H4; left|]. pose proof (Hnw id (or_introl H)). congruence.
    + rewrite lookup_insert_eq. by eexists.
    + rewrite lookup_insert_ne; [by apply H4; right|]. pose proof (Hnw id (or_intror H)). congruence.
  - intros id j [[<- <-]|[_ H]]%lookup_insert_Some Hd; [left; apply elem_of_app; right; by apply list_elem_of_singleton|].
    destruct (H5 id j H Hd); [left; apply elem_of_app; by left|by right].
  - intros id [->%elem_of_singleton|H]%elem_of_union; [by rewrite lookup_insert_eq|]. specialize (H6 id H).
    rewrite lookup_insert_ne; [done|]. pose proof (Hne id H6). congruence.
  - done.
Qed.

Lemma ajm_ok_finish mpg s s' w : worker_finish have mpg s = Some (s', w) -> ajm_ok s -> ajm_ok s'.
Proof.
  unfold worker_finish. destruct (g_worker s) as [| |id] eqn:Ew; [done..|]. destruct (objects s !! id) as [j|] eqn:Ej; [|done].
  pose proof (finish_done mpg j) as Hd. destruct (finish have mpg j) as [j' l]. cbn [fst] in Hd. intros [= <- _] [H1 H2 H3 H4 H5 H6 H7].
  assert (forall x, is_Some (objects s !! x) <-> is_Some (<[id := j']> (objects s) !! x)) as Hdom.
  { intros x. destruct (decide (id = x)) as [<-|]; [rewrite lookup_insert_eq, Ej; split; eauto|by rewrite lookup_insert_ne]. }
  split; cbn; unfold waiting; cbn; try done.
  - intros x H. by apply H1, Hdom.
  - intros x [H|H]; [|done]. rewrite lookup_insert_ne; [by apply H4; left|]. intros <-. by apply (H3 id Ew).
  - intros x y [[<- <-]|[Hne H]]%lookup_insert_Some Hy; [congruence|]. destruct (H5 x y H Hy) as [|Hh]; [by left|]. rewrite Ew in Hh. congruence.
  - intros x H. by apply Hdom, H6.
Qed.

Lemma ajm_ok_step s s' : step s s' -> ajm_ok s -> ajm_ok s'.
Proof.
  intros H Hs. pose proof Hs as [H1 H2 H3 H4 H5 H6 H7]. destruct H as [out s s' r H|s s' H|s s' H].
  - unfold sceAjmInitialize in H. destruct out; [|by injection H as <- _]. cbn [negb] in H. destruct (g_running s); [by injection H as <- _|].
    destruct (g_worker s) eqn:Ew; [|done..]. injection H as <- _. split; cbn; try done; unfold waiting in *; cbn.
    + intros id [H|H]; [|done]. apply H4. by left.
    + intros id j Hj Hd. destruct (H5 id j Hj Hd) as [|Hh]; [by left|]. by rewrite Ew in Hh.
  - destruct H as [s|b n out s|id s s' r o H]; [by split|by apply ajm_ok_submit|]. unfold sceAjmBatchWait in H.
    destruct (negb _); [by injection H as <- _ _|]. destruct (objects s !! id); [|done]. destruct (done_ _); [|done]. injection H as <- _ _.
    split; try done. cbn. intros x [H _]%elem_of_difference. by apply H6.
  - destruct H as [s s' H|mpg s s' w H|s s' H]; [|by eapply ajm_ok_finish|].
    + unfold worker_take in H. destruct (g_worker s) eqn:Ew; [done| |done]. destruct (g_pending s) as [|id l] eqn:Ep; [done|].
      destruct (g_running s); [|done]. injection H as <-. apply NoDup_cons in H2 as [Hni Hnd]. unfold waiting in *; cbn in *.
      rewrite Ep, Ew in *. split; cbn; unfold waiting; cbn; try done.
      * by intros x [= <-].
      * intros x [H|[= <-]]; apply H4; left; [by right|by left].
      * intros x j Hj Hd. destruct (H5 x j Hj Hd) as [[->|H]%elem_of_cons|]; [by right|by left|done].
    + unfold worker_exit in H. destruct (g_worker s) eqn:Ew; [done| |done]. destruct (g_running s) eqn:Er; [done|]. injection H as <-.
      unfold waiting in *. split; cbn; unfold waiting; cbn; try done; [by intros x [H|H]; [apply H4; left|]| |congruence].
      intros x j Hj Hd. destruct (H5 x j Hj Hd) as [|Hh]; [by left|]. by rewrite Ew in Hh.
Qed.

(** Turns of the worker that are left: two for a waiting job, one for a held one. *)
Definition work_left (s : t) : nat := 2 * length (g_pending s) + match g_worker s with Holding _ => 1 | _ => 0 end.

Lemma reachable_ok s : rtc (step) initial s -> ajm_ok s.
Proof. intros Hr. pose proof ajm_ok_initial as H. revert H. induction Hr; [done|]. eauto using ajm_ok_step. Qed.

Lemma work_decreases s s' : g_running s = true -> wstep s s' -> g_running s' = true /\ work_left s = S (work_left s') /\ g_jobs s' = g_jobs s.
Proof.
  intros Hr Hw. revert Hr. destruct Hw as [s0 s1 H|mpg s0 s1 w H|s0 s1 H]; intros Hr; unfold work_left.
  - unfold worker_take in H. destruct (g_worker s0), (g_pending s0) eqn:Ep; try done. rewrite Hr in H. injection H as <-. cbn. split_and!; try done. lia.
  - unfold worker_finish in H. destruct (g_worker s0); [done..|]. destruct (objects s0 !! id); [|done]. destruct (finish _ _ _). injection H as <- _.
    cbn. split_and!; try done; lia.
  - unfold worker_exit in H. destruct (g_worker s0); [done| |done]. by rewrite Hr in H.
Qed.
Lemma work_possible s : ajm_ok s -> g_running s = true -> (0 < work_left s)%nat -> exists s', wstep s s'.
Proof.
  intros [_ _ _ H4 _ _ H7] Hr Hw. unfold work_left in Hw. destruct (g_worker s) as [| |id] eqn:Ew; [by destruct (H7 Hr)| |].
  - destruct (g_pending s) as [|id l] eqn:Ep; [cbn in Hw; lia|]. eexists. apply w_take. unfold worker_take. by rewrite Ew, Ep, Hr.
  - destruct (H4 id) as (j & Hj & _); [by right|]. destruct (finish have None j) as [j' l] eqn:Ef.
    eexists. eapply (w_finish None). unfold worker_finish. by rewrite Ew, Hj, Ef.
Qed.
Lemma idle_all_done s id : ajm_ok s -> g_running s = true -> work_left s = 0%nat -> id ∈ g_jobs s -> is_Some (sceAjmBatchWait id s).
Proof.
  intros [_ _ _ _ H5 H6 _] _ Hw Hid. unfold sceAjmBatchWait. rewrite bool_decide_eq_true_2 by done. cbn [negb]. destruct (H6 id Hid) as [j Hj]. rewrite Hj.
  destruct (done_ j) eqn:Ed; [by eexists|]. unfold work_left in Hw. destruct (H5 id j Hj Ed) as [H|H].
  - destruct (g_pending s); [by apply elem_of_nil in H|cbn in Hw; lia].
  - rewrite H in Hw. lia.
Qed.

(** C24: every decoding job ends: in any run of the guest's calls, when the library is
    started, the worker gets through what is queued in a number of turns that the
    queue tells, is never stuck before that, and afterwards the wait for each submitted
    job returns, whatever libmpg123 answers. *)
Theorem jobs_finish s :
  rtc step initial s -> g_running s = true ->
  (forall n s', nsteps wstep n s s' -> (n <= work_left s)%nat /\ ((n < work_left s)%nat -> exists s'', wstep s' s'')) /\
  (forall s', nsteps wstep (work_left s) s s' -> forall id, id ∈ g_jobs s -> is_Some (sceAjmBatchWait id s')).
Proof.
  intros Hr Hrun. apply reachable_ok in Hr as Hok.
  assert (forall n s', nsteps wstep n s s' -> ajm_ok s' /\ g_running s' = true /\ work_left s = (n + work_left s')%nat /\ g_jobs s' = g_jobs s) as Hn.
  { intros n s' H. clear Hr. induction H as [s|n s s1 s' H _ IH]; [done|].
    destruct (work_decreases s s1 Hrun H) as (H1 & H2 & H3). assert (ajm_ok s1) as Hok1 by (eapply ajm_ok_step; [by apply s_worker|done]).
    destruct (IH H1 Hok1) as (H4 & H5 & H6 & H7). split_and!; try done; [lia|congruence]. }
  split.
  - intros n s' H. destruct (Hn n s' H) as (H1 & H2 & H3 & _). split; [lia|]. intros Hlt. apply work_possible; try done. lia.
  - intros s' H id Hid. destruct (Hn _ s' H) as (H1 & H2 & H3 & H4). apply idle_all_done; try done; [lia|congruence].
Qed.

(** A job that no worker will see. *)
Definition abandoned (id : Z) (s : t) : Prop := g_worker s = NoThread /\ id ∈ g_pending s /\ id ∈ g_jobs s /\ ajm_ok s.
Lemma abandoned_call id s s' : abandoned id s -> cstep s s' -> abandoned id s' \/ sceAjmBatchWait id s <> None.
Proof.
  intros (H1 & H2 & H3 & H4) H. assert (ajm_ok s') as Hok by (eapply ajm_ok_step; [by apply s_call|done]).
  destruct H as [s|b n out s|i s s' r o H].
  - left. by split_and!.
  - left. unfold sceAjmBatchStartBuffer in *. destruct b as [b|]; [|by split_and!]. destruct (_ || _); [by split_and!|]. destruct (_ <? _); [by split_and!|].
    destruct (codec_of _); [|by split_and!]. split_and!; try done; cbn; set_solver.
  - unfold sceAjmBatchWait in H. destruct (negb _) eqn:En; [injection H as <- _ _; left; by split_and!|]. destruct (objects s !! i) as [j|] eqn:Ej; [|done].
    destruct (done_ j) eqn:Ed; [|done]. injection H as <- _ _. left.
    assert (i <> id). { intros ->. destruct (ao_waiting _ H4 id (or_introl H2)) as (j' & Hj' & Hd). congruence. }
    split_and!; try done. cbn. set_solver.
Qed.

(** A job still queued when the library is finalized is lost: its wait does not return
    in any continuation of submissions, waits and finalizations, until someone
    initializes the library again. *)
Theorem finalize_abandons s s' id :
  rtc step initial s -> g_worker s = NoThread -> id ∈ g_pending s -> id ∈ g_jobs s ->
  rtc cstep s s' -> sceAjmBatchWait id s' = None.
Proof.
  intros Hr Hw Hp Hj Hc. assert (abandoned id s) as Ha by (split_and!; try done; by apply reachable_ok).
  assert (forall x, abandoned id x -> sceAjmBatchWait id x = None) as Hnone.
  { intros x (_ & H2 & H3 & H4). unfold sceAjmBatchWait. rewrite bool_decide_eq_true_2 by done. cbn [negb].
    destruct (ao_waiting _ H4 id (or_introl H2)) as (j & -> & Hd). by rewrite Hd. }
  apply Hnone. clear Hr Hw Hp Hj. induction Hc as [|x y z H _ IH]; [done|]. apply IH.
  destruct (abandoned_call id x y Ha H) as [|Hn]; [done|]. by rewrite Hnone in Hn.
Qed.

(** A decoding stays inside the guest's buffer: the worker writes at most the job's
    capacity in samples, and the synchronous decoder at most its capacity in bytes,
    which it reports. *)
Theorem decoded_in_bounds mpg s s' p l d h inp n out cap :
  (worker_finish have mpg s = Some (s', Some (p, l)) -> exists id j, g_worker s = Holding id /\ objects s !! id = Some j /\
     p = output j /\ p <> 0 /\ Z.of_nat (length l) <= outputCapacity j) /\
  (forall code w r, SceAudiodec.sceAudiodecDecode mpg h inp n out cap d = (code, w, r) -> 0 <= cap ->
     Z.of_nat (length w) * 2 <= cap /\ (forall k, r = Some k -> k = Z.of_nat (length w) * 2)).
Proof.
  split.
  - unfold worker_finish. destruct (g_worker s) as [| |id] eqn:Ew; [done..|]. destruct (objects s !! id) as [j|] eqn:Ej; [|done].
    destruct (finish have mpg j) as [j' w] eqn:Ef. intros [= _ Hw]. exists id, j. split; [done|]. split; [done|].
    destruct w as [|x w]; [done|]. injection Hw as <- <-. split; [done|]. unfold finish in Ef.
    destruct (negb _); [done|]. destruct (decode _ _ _) as [r|]; [|done]. injection Ef as _ Ht. destruct (Z.eqb_spec (output j) 0); [done|].
    split; [done|]. apply (f_equal length) in Ht. rewrite length_take in Ht. cbn [length] in *. lia.
  - intros code w r H Hc. unfold SceAudiodec.sceAudiodecDecode in H. destruct (SceAudiodec.g_decoders d !! h); [|injection H as _ <- <-; cbn; split; [lia|done]].
    destruct (_ || _); [injection H as _ <- <-; cbn; split; [lia|done]|]. destruct (decode _ _ _) as [x|]; [|injection H as _ <- <-; cbn; split; [lia|done]].
    injection H as _ <- <-. rewrite length_take. pose proof (Z.mul_div_le cap 2 ltac:(lia)). pose proof (Z.div_pos cap 2 Hc ltac:(lia)).
    split; [lia|]. intros k [= <-]. lia.
Qed.
End Runs.

(** *** Witnesses *)
Section Witnesses.
Import SceAjm.
Definition demo_batch : bytes := le_encode 4 1 ++ le_encode 4 0 ++ le_encode 8 4096 ++ le_encode 8 100 ++ le_encode 8 8192 ++ le_encode 8 2.
Definition demo_running : t := (sceAjmBatchStartBuffer (Some demo_batch) 40 true (mkAjm ∅ ∅ [] Idle true 1)).1.1.
Definition demo_stopped : t := (sceAjmBatchStartBuffer (Some demo_batch) 40 true initial).1.1.

Definition demo_finished : t :=
  default initial (s1 ← worker_take demo_running; fst <$> worker_finish true (Some [7; 8]) s1).

Lemma jobs_finish_witness : work_left demo_running = 2%nat /\ is_Some (sceAjmBatchWait 1 demo_finished).
Proof.
  split; [reflexivity|]. refine (proj2 (jobs_finish true demo_running _ eq_refl) demo_finished _ 1 _).
  - eapply rtc_l; [exact (s_init _ true initial _ 0 eq_refl)|]. apply rtc_once, s_call, c_start.
  - change (nsteps (wstep true) 2 demo_running demo_finished).
    apply (nsteps_l _ _ _ (default initial (worker_take demo_running))); [by apply w_take|].
    apply nsteps_once, (w_finish _ (Some [7; 8]) _ _ (Some (8192, [7; 8]))). vm_compute. reflexivity.
  - apply (bool_decide_unpack _). vm_compute. exact I.
Defined.
Lemma finalize_abandons_witness : sceAjmBatchWait 1 (sceAjmFinalize demo_stopped) = None.
Proof.
  refine (finalize_abandons true demo_stopped _ 1 _ eq_refl _ _ _).
  - apply rtc_once, s_call, c_start.
  - apply (bool_decide_unpack _). vm_compute. exact I.
  - apply (bool_decide_unpack _). vm_compute. exact I.
  - apply rtc_once, c_final.
Defined.
Lemma decoded_in_bounds_witness : exists d, SceAudiodec.sceAudiodecDecode (Some [1; 2; 3]) 1 4096 10 8192 5 d = (0, [1; 2], Some 4) /\ (Z.of_nat (length [1; 2]) * 2 <= 5).
Proof.
  exists (SceAudiodec.mkDec {[1 := Mp3]} 2). split; [reflexivity|].
  exact (proj1 (proj2 (decoded_in_bounds true (Some [1; 2; 3]) initial initial 0 [] (SceAudiodec.mkDec {[1 := Mp3]} 2) 1 4096 10 8192 5) _ _ _ eq_refl ltac:(lia))).
Defined.
End Witnesses.
