(* ===== verification/Overlay.v ===== *)
(** * The overlay that draws dialogs

    [graphics/overlay/OverlayRenderer.cpp]: the font atlas, the quads of rectangles and
    texts, and the vertex buffer.  The bitmaps that FreeType renders and the handles
    that the device answers are parameters; a device call is an event of the run. *)
From Stdlib Require Import SpecFloat.
From S2P Require Import Prelude Floats.
Import F32.

Module OverlayRenderer.
(** ** The font atlas *)
Definition kGlyphSize : Z := 32.
Definition kAtlasCols : Z := 16.
Definition kAtlasRows : Z := 16.
Definition kAtlasW : Z := kGlyphSize * kAtlasCols.
Definition kAtlasH : Z := kGlyphSize * kAtlasRows.

(** A rendered glyph; [advance] is in 26.6 fixed point. *)
Record Bitmap := mkBitmap { rows : Z; width : Z; pitch : Z; buffer : Z -> Z; bm_advance : Z }.
Record Glyph := mkGlyph { u0 : f32; v0 : f32; u1 : f32; v1 : f32; advance : f32 }.
Definition no_glyph : Glyph := mkGlyph zero zero zero zero zero.

Definition cell_x (cp : Z) : Z := (cp - 32) mod kAtlasCols * kGlyphSize.
Definition cell_y (cp : Z) : Z := (cp - 32) / kAtlasCols * kGlyphSize.
(** The writes of one glyph into the atlas, in order. *)
Definition glyph_writes (cp : Z) (b : Bitmap) : list (Z * Z) :=
  y ← seqZ 0 (Z.min (rows b) (kGlyphSize - 4));
  x ← seqZ 0 (Z.min (width b) kGlyphSize);
  [((cell_y cp + 2 + y) * kAtlasW + (cell_x cp + x), buffer b (y * pitch b + x))].
Definition codepoints : list Z := seqZ 32 95.

Section Font.
(** The bitmap of a character, unless [FT_Load_Char] fails. *)
Context (load : Z -> option Bitmap).

Definition writes : list (Z * Z) :=
  cp ← codepoints; match load cp with None => [] | Some b => glyph_writes cp b end.
(** The last write counts; the rest of the atlas is zero. *)
Definition atlas : gmap Z Z := list_to_map (reverse writes).
Definition pixel (i : Z) : Z := default 0 (atlas !! i).

Definition glyph_of (cp : Z) : Glyph :=
  match load cp with
  | None => no_glyph
  | Some b =>
      let x0 := cell_x cp in let y0 := cell_y cp in
      mkGlyph (div (of_Z x0) (of_Z kAtlasW)) (div (of_Z y0) (of_Z kAtlasH))
        (div (of_Z (x0 + kGlyphSize)) (of_Z kAtlasW)) (div (of_Z (y0 + kGlyphSize)) (of_Z kAtlasH)) (of_Z (Z.shiftr (bm_advance b) 6))
  end.
Definition glyphs : list Glyph := glyph_of <$> codepoints.
(** White, with the coverage as alpha. *)
Definition rgba : list Z := i ← seqZ 0 (kAtlasW * kAtlasH); [255; 255; 255; pixel i].
End Font.

(** ** Quads *)
Record Vertex := mkVertex { vx : f32; vy : f32; vu : f32; vv : f32; vr : f32; vg : f32; vb : f32; va : f32 }.
Definition kVertexSize : Z := 32.

Record t := mkOverlay {
  m_device : bool;
  m_vertexBuffer : Z;
  m_pipeline : Z; m_vs : Z; m_fs : Z;
  m_fontImage : Z; m_fontView : Z; m_fontSampler : Z;
  m_capacityVertices : nat;
  m_vertices : list Vertex;
  m_glyphs : list Glyph;
  m_baseSize : f32;
  m_available : bool
}.
Definition initial : t := mkOverlay false 0 0 0 0 0 0 0 0 [] [] (of_Z 32) false.
Definition with_vertices l (s : t) : t :=
  mkOverlay (m_device s) (m_vertexBuffer s) (m_pipeline s) (m_vs s) (m_fs s) (m_fontImage s) (m_fontView s) (m_fontSampler s)
    (m_capacityVertices s) l (m_glyphs s) (m_baseSize s) (m_available s).
Definition with_buffer b n (s : t) : t :=
  mkOverlay (m_device s) b (m_pipeline s) (m_vs s) (m_fs s) (m_fontImage s) (m_fontView s) (m_fontSampler s)
    n (m_vertices s) (m_glyphs s) (m_baseSize s) (m_available s).

Definition channel (c : Z) (shift : Z) : f32 := div (of_Z (Z.land (Z.shiftr c shift) 0xFF)) (of_Z 255).
Definition quad (x0 y0 x1 y1 a0 b0 a1 b1 : f32) (c : Z) : list Vertex :=
  let v x y u w := mkVertex x y u w (channel c 0) (channel c 8) (channel c 16) (channel c 24) in
  [v x0 y0 a0 b0; v x1 y0 a1 b0; v x1 y1 a1 b1; v x0 y0 a0 b0; v x1 y1 a1 b1; v x0 y1 a0 b1].

Definition beginFrame (s : t) : t := with_vertices [] s.
Definition half : f32 := make 1 (-1).
Definition drawRect (x y w h : f32) (c : Z) (s : t) : t :=
  if negb (m_available s) then s
  else
    let u := div half (m_baseSize s) in
    with_vertices (m_vertices s ++ quad x y (add x w) (add y h) u u u u c) s.

(** A byte that is not printable is drawn as a question mark. *)
Definition printable (c : Z) : Z := if (c <? 32) || (126 <? c) then 63 else c.
Definition glyph_at (s : t) (c : Z) : Glyph := default no_glyph (m_glyphs s !! Z.to_nat (printable c - 32)).
Fixpoint text_quads (s : t) (cursorX y cell scale : f32) (c : Z) (text : bytes) : list Vertex * f32 :=
  match text with
  | [] => ([], cursorX)
  | ch :: text =>
      if ch =? 10 then text_quads s cursorX y cell scale c text
      else
        let gl := glyph_at s ch in
        let '(l, x) := text_quads s (add cursorX (mul (advance gl) scale)) y cell scale c text in
        (quad cursorX y (add cursorX cell) (add y cell) (u0 gl) (v0 gl) (u1 gl) (v1 gl) c ++ l, x)
  end.
Definition drawText (x y : f32) (text : bytes) (c : Z) (scale : f32) (s : t) : t :=
  if negb (m_available s) || bool_decide (m_glyphs s = []) then s
  else with_vertices (m_vertices s ++ (text_quads s x y (mul (m_baseSize s) scale) scale c text).1) s.

Definition textWidth (text : bytes) (scale : f32) (s : t) : f32 :=
  if bool_decide (m_glyphs s = []) then zero
  else foldl (fun w ch => add w (mul (advance (glyph_at s ch)) scale)) zero text.
(** [1.2f]. *)
Definition lineHeight (scale : f32) (s : t) : f32 := mul (mul (m_baseSize s) scale) (make 10066330 (-23)).

(** ** The device *)
(** The vertex buffer: [Created size h] (null when it fails), [Destroyed h], [Drawn h n];
    and the release of another resource. *)
Inductive Event := Created (size h : Z) | Destroyed (h : Z) | Drawn (h : Z) (vertices : nat) | Released (h : Z).

(** [answer] is the handle that [createBuffer] gives. *)
Definition ensureBufferCapacity (answer : Z) (vertices : nat) (s : t) : t * list Event :=
  if (vertices <=? m_capacityVertices s)%nat then (s, [])
  else
    (with_buffer answer vertices s,
     (if m_vertexBuffer s =? 0 then [] else [Destroyed (m_vertexBuffer s)]) ++ [Created (Z.of_nat vertices * kVertexSize) answer]).
Definition endFrame (answer : Z) (s : t) : t * list Event :=
  if negb (m_available s) || bool_decide (m_vertices s = []) then (s, [])
  else
    let n := length (m_vertices s) in
    let '(s, es) := ensureBufferCapacity answer n s in
    if m_vertexBuffer s =? 0 then (s, es)
    else (with_vertices [] s, es ++ [Drawn (m_vertexBuffer s) n]).

(** What [initialize] finds: compiled shaders, FreeType, the handles of the shaders,
    the pipeline and the font, and the bitmaps of a system font. *)
Record Answers := mkAnswers {
  an_spirv : bool; an_freetype : bool; an_vs : Z; an_fs : Z; an_pipeline : Z;
  an_image : Z; an_view : Z; an_sampler : Z; an_font : option (Z -> option Bitmap)
}.
Definition initialize (device : bool) (a : Answers) (s : t) : t :=
  let s1 := mkOverlay device (m_vertexBuffer s) (m_pipeline s) (m_vs s) (m_fs s) (m_fontImage s) (m_fontView s) (m_fontSampler s)
    (m_capacityVertices s) (m_vertices s) (m_glyphs s) (m_baseSize s) (m_available s) in
  if negb device || negb (an_spirv a) || negb (an_freetype a) then s1
  else
    let with_pipeline p s := mkOverlay device (m_vertexBuffer s) p (an_vs a) (an_fs a) (m_fontImage s) (m_fontView s) (m_fontSampler s)
      (m_capacityVertices s) (m_vertices s) (m_glyphs s) (m_baseSize s) (m_available s) in
    if (an_vs a =? 0) || (an_fs a =? 0) then with_pipeline (m_pipeline s1) s1
    else
      let s2 := with_pipeline (an_pipeline a) s1 in
      if an_pipeline a =? 0 then s2
      else
        match (if bool_decide (m_glyphs s2 = []) then an_font a else None) with
        | Some load =>
            mkOverlay device (m_vertexBuffer s2) (m_pipeline s2) (m_vs s2) (m_fs s2) (an_image a)
              (if an_image a =? 0 then m_fontView s2 else an_view a) (if an_image a =? 0 then m_fontSampler s2 else an_sampler a)
              (m_capacityVertices s2) (m_vertices s2) (glyphs load) (of_Z kGlyphSize) true
        | None =>
            mkOverlay device (m_vertexBuffer s2) (m_pipeline s2) (m_vs s2) (m_fs s2) (m_fontImage s2) (m_fontView s2) (m_fontSampler s2)
              (m_capacityVertices s2) (m_vertices s2) (m_glyphs s2) (m_baseSize s2)
              (if bool_decide (m_glyphs s2 = []) then m_available s2 else true)
        end.
Definition shutdown (s : t) : t * list Event :=
  let release h := if h =? 0 then [] else [Released h] in
  (mkOverlay false 0 0 0 0 0 0 0 (m_capacityVertices s) [] [] (m_baseSize s) false,
   if m_device s then
     concat (release <$> [m_pipeline s; m_vs s; m_fs s; m_fontView s; m_fontImage s; m_fontSampler s]) ++
     (if m_vertexBuffer s =? 0 then [] else [Destroyed (m_vertexBuffer s)])
   else []).
End OverlayRenderer.

(** ** The atlas *)
Section Atlas.
Import OverlayRenderer.
Context (load : Z -> option Bitmap).

Lemma elem_glyph_writes cp b i v : (i, v) ∈ glyph_writes cp b <->
  exists y x, 0 <= y < Z.min (rows b) 28 /\ 0 <= x < Z.min (width b) 32 /\
    i = (cell_y cp + 2 + y) * 512 + (cell_x cp + x) /\ v = buffer b (y * pitch b + x).
Proof.
  unfold glyph_writes. change kAtlasW with 512. change (kGlyphSize - 4) with 28. change kGlyphSize with 32. rewrite list_elem_of_bind. split.
  - intros (y & (x & Hx & Hw)%list_elem_of_bind & Hy). apply list_elem_of_singleton in Hx as [= -> ->].
    apply elem_of_seqZ in Hy, Hw. exists y, x. split_and!; try done; lia.
  - intros (y & x & Hy & Hx & -> & ->). exists y. split; [|apply elem_of_seqZ; lia]. apply list_elem_of_bind. exists x.
    split; [by apply list_elem_of_singleton|]. apply elem_of_seqZ. lia.
Qed.
Lemma elem_writes i v : (i, v) ∈ writes load <-> exists cp b, 32 <= cp <= 126 /\ load cp = Some b /\ (i, v) ∈ glyph_writes cp b.
Proof.
  unfold writes, codepoints. rewrite list_elem_of_bind. split.
  - intros (cp & Hw & Hc%elem_of_seqZ). destruct (load cp) as [b|] eqn:E; [|by apply elem_of_nil in Hw]. exists cp, b. split_and!; try done; lia.
  - intros (cp & b & Hc & E & Hw). exists cp. rewrite E. split; [done|]. apply elem_of_seqZ. lia.
Qed.
(** A place in the atlas belongs to one cell. *)
Lemma cell_unique cp cp' x x' y y' : 32 <= cp <= 126 -> 32 <= cp' <= 126 -> 0 <= x < 32 -> 0 <= x' < 32 -> 0 <= y < 32 -> 0 <= y' < 32 ->
  (cell_y cp + y) * 512 + (cell_x cp + x) = (cell_y cp' + y') * 512 + (cell_x cp' + x') -> cp = cp' /\ x = x' /\ y = y'.
Proof. unfold cell_x, cell_y, kGlyphSize, kAtlasCols. intros. Z.div_mod_to_equations. lia. Qed.

(** The font atlas is exact: every write is inside it, and the cell of a printable
    character holds its bitmap, cut to 28 rows of 32 pixels and two rows down, and
    nothing else, whatever the bitmaps of the other characters are. *)
Theorem atlas_exact :
  Forall (fun w => 0 <= w.1 < kAtlasW * kAtlasH) (writes load) /\
  forall cp x y, 32 <= cp <= 126 -> 0 <= x < 32 -> 0 <= y < 32 ->
    pixel load ((cell_y cp + y) * kAtlasW + (cell_x cp + x)) =
      match load cp with
      | Some b => if (2 <=? y) && (y - 2 <? Z.min (rows b) 28) && (x <? Z.min (width b) 32) then buffer b ((y - 2) * pitch b + x) else 0
      | None => 0
      end.
Proof.
  change kAtlasW with 512. change kAtlasH with 512. split.
  - apply Forall_forall. intros [i v] (cp & b & Hc & _ & (y & x & Hy & Hx & -> & _)%elem_glyph_writes)%elem_writes. cbn [fst].
    unfold cell_x, cell_y, kGlyphSize, kAtlasCols. Z.div_mod_to_equations. lia.
  - intros cp x y Hc Hx Hy. set (i := (cell_y cp + y) * 512 + (cell_x cp + x)). unfold pixel, atlas.
    assert (forall v, (i, v) ∈ reverse (writes load) <-> exists b, load cp = Some b /\ 2 <= y /\ y - 2 < Z.min (rows b) 28 /\ x < Z.min (width b) 32 /\
      v = buffer b ((y - 2) * pitch b + x)) as Hel.
    { intros v. rewrite elem_of_reverse, elem_writes. split.
      - intros (cp' & b & Hc' & E & (y' & x' & Hy' & Hx' & Hi & ->)%elem_glyph_writes).
        destruct (cell_unique cp cp' x x' y (2 + y')) as (<- & <- & ->); try lia. exists b. split_and!; try done; try lia.
        by replace (2 + y' - 2) with y' by lia.
      - intros (b & E & H1 & H2 & H3 & ->). exists cp, b. split_and!; try done; try lia. apply elem_glyph_writes. exists (y - 2), x. split_and!; try done; lia. }
    destruct (list_to_map (M := gmap Z Z) (reverse (writes load)) !! i) as [v|] eqn:E; cbn.
    + apply elem_of_list_to_map_2, Hel in E as (b & -> & H1 & H2 & H3 & ->).
      rewrite (proj2 (Z.leb_le _ _)), (proj2 (Z.ltb_lt _ _)), (proj2 (Z.ltb_lt _ _)) by done. done.
    + destruct (load cp) as [b|] eqn:El; [|done]. destruct (_ && _) eqn:Eb; [|done]. apply not_elem_of_list_to_map_2 in E. exfalso. apply E.
      apply list_elem_of_fmap. eexists (i, _). split; [done|]. apply Hel. exists b. apply andb_prop in Eb as [[H1 H2]%andb_prop H3].
      apply Z.leb_le in H1. apply Z.ltb_lt in H2, H3. split_and!; try done; reflexivity.
Qed.

(** The place that rectangles are textured with is in the cell of the space, which has
    no pixels: nothing shows. *)
Lemma rectangles_are_clear b : load 32 = Some b -> rows b = 0 -> pixel load (8 * kAtlasW + 8) = 0.
Proof.
  intros E H. unfold pixel, atlas. destruct (list_to_map (M := gmap Z Z) (reverse (writes load)) !! _) as [v|] eqn:Em; [|done].
  apply elem_of_list_to_map_2 in Em. rewrite elem_of_reverse, elem_writes in Em. destruct Em as (cp & b' & Hc & E' & (y & x & Hy & Hx & Hi & _)%elem_glyph_writes).
  destruct (cell_unique 32 cp 8 x 8 (2 + y)) as (<- & _); try lia; [change (cell_y 32) with 0; change (cell_x 32) with 0; change kAtlasW with 512 in Hi; lia|].
  rewrite E in E'. injection E' as <-. lia.
Qed.
End Atlas.

(** ** Texts *)
Section Texts.
Import OverlayRenderer.

(** A text takes six vertices for each character that is not a line break, and the
    width that the renderer tells for a text without one is exactly where the cursor
    stops, float for float. *)
Theorem text_measured s y cell scale c text :
  length (text_quads s zero y cell scale c text).1 = (6 * length (filter (fun ch : Z => (ch <> 10)%Z) text))%nat /\
  (m_glyphs s <> [] -> 10 ∉ text -> (text_quads s zero y cell scale c text).2 = textWidth text scale s).
Proof.
  unfold textWidth. generalize zero. induction text as [|ch text IH]; intros x.
  - split; [done|]. intros Hg _. by rewrite bool_decide_eq_false_2.
  - cbn [text_quads]. destruct (Z.eqb_spec ch 10) as [->|Hne].
    { rewrite filter_cons_False by lia. split; [apply IH|]. intros _ H. exfalso. apply H. by left. }
    rewrite filter_cons_True by done. destruct (IH (add x (mul (advance (glyph_at s ch)) scale))) as [H1 H2].
    destruct (text_quads s _ y cell scale c text) as [l x']. cbn [fst snd] in *. split; [rewrite length_app, H1; cbn; lia|].
    intros Hg Hn. rewrite (H2 Hg) by set_solver. by rewrite bool_decide_eq_false_2.
Qed.
End Texts.

(** ** The vertex buffer *)
Section Buffer.
Import OverlayRenderer.

(** A frame: what was drawn between its begin and its end. *)
Definition frame (answer : Z) (l : list Vertex) (s : t) : t * list Event := endFrame answer (with_vertices l (beginFrame s)).
Inductive Op := OpInit (device : bool) (a : Answers) | OpFrame (answer : Z) (l : list Vertex) | OpShutdown.
(** An initialization is for a renderer that holds no device. *)
Definition op_ok (o : Op) (s : t) : bool := match o with OpInit _ _ => negb (m_device s) | _ => true end.
Definition op_run (o : Op) (s : t) : t * list Event :=
  match o with OpInit d a => (initialize d a s, []) | OpFrame h l => frame h l s | OpShutdown => shutdown s end.
Inductive session : t -> list Event -> Prop :=
  | ses_start : session initial []
  | ses_op o s es s' es' : session s es -> op_ok o s = true -> op_run o s = (s', es') -> session s' (es ++ es').

(** The device's view of the events: the buffer there is, with its size; a call
    on a buffer that is not there, or too small, has no result. *)
Definition replay1 (live : option (Z * Z)) (e : Event) : option (option (Z * Z)) :=
  match e with
  | Created size h => match live with None => Some (if h =? 0 then None else Some (h, size)) | Some _ => None end
  | Destroyed h => match live with Some (h', _) => if h =? h' then Some None else None | None => None end
  | Drawn h n => match live with Some (h', size) => if (h =? h') && (Z.of_nat n * kVertexSize <=? size) then Some live else None | None => None end
  | Released _ => Some live
  end.
Fixpoint replay (live : option (Z * Z)) (es : list Event) : option (option (Z * Z)) :=
  match es with [] => Some live | e :: es => live ← replay1 live e; replay live es end.
Lemma replay_app live es es' : replay live (es ++ es') = (live ← replay live es; replay live es').
Proof. revert live. induction es as [|e es IH]; intros live; cbn; [done|]. destruct (replay1 live e); [apply IH|done]. Qed.

Definition buffer_of (s : t) : option (Z * Z) :=
  if m_vertexBuffer s =? 0 then None else Some (m_vertexBuffer s, Z.of_nat (m_capacityVertices s) * kVertexSize).
Definition off (s : t) : Prop := m_device s = false -> m_vertexBuffer s = 0 /\ m_available s = false.

Lemma overlay_initialize_keeps d a s : m_vertexBuffer (initialize d a s) = m_vertexBuffer s /\ m_capacityVertices (initialize d a s) = m_capacityVertices s /\
  m_device (initialize d a s) = d /\ (d = false -> m_available (initialize d a s) = m_available s).
Proof.
  unfold initialize. cbn zeta. destruct d; cbn [negb orb]; [|done]. destruct (negb (an_spirv a) || negb (an_freetype a)); [done|].
  destruct (_ || _); [done|]. destruct (_ =? 0); [done|]. by destruct (if bool_decide _ then _ else _).
Qed.
Lemma replay_released live hs : replay live (concat ((fun h => if h =? 0 then [] else [Released h]) <$> hs)) = Some live.
Proof. induction hs as [|h hs IH]; cbn; [done|]. by destruct (h =? 0). Qed.

Lemma op_replay o s s' es : op_ok o s = true -> op_run o s = (s', es) -> off s -> off s' /\ replay (buffer_of s) es = Some (buffer_of s').
Proof.
  intros Hok Hrun Hoff. destruct o as [d a|h l|]; cbn [op_run op_ok] in *.
  - injection Hrun as <- <-. apply negb_true_iff in Hok. destruct (overlay_initialize_keeps d a s) as (H1 & H2 & H3 & H4). destruct (Hoff Hok) as [H5 H6].
    split; [intros Hd; rewrite H3 in Hd; split; [congruence|by rewrite H4]|]. unfold buffer_of. by rewrite H1, H2.
  - unfold frame, endFrame in Hrun. cbn [with_vertices m_available m_vertices beginFrame] in Hrun.
    destruct (negb (m_available s) || bool_decide (l = [])) eqn:E; [by injection Hrun as <- <-|]. apply orb_false_elim in E as [Ha _].
    assert (m_device s = true) as Hd. { destruct (m_device s) eqn:Ed; [done|]. destruct (Hoff Ed) as [_ Hn]. by rewrite Hn in Ha. }
    unfold ensureBufferCapacity in Hrun. cbn [with_vertices m_capacityVertices m_vertexBuffer beginFrame] in Hrun. unfold buffer_of.
    destruct (Nat.leb_spec (length l) (m_capacityVertices s)) as [Hle|Hgt].
    + cbn in Hrun. destruct (m_vertexBuffer s =? 0) eqn:Eb; injection Hrun as <- <-; (split; [unfold off; cbn; congruence|]); cbn; rewrite Eb; [done|].
      rewrite Z.eqb_refl, (proj2 (Z.leb_le _ _)) by (unfold kVertexSize; lia). done.
    + cbn in Hrun. destruct (h =? 0) eqn:Eh; injection Hrun as <- <-; (split; [unfold off; cbn; congruence|]).
      * destruct (m_vertexBuffer s =? 0) eqn:Eb; cbn; rewrite ?Z.eqb_refl; cbn; by rewrite Eh.
      * destruct (m_vertexBuffer s =? 0) eqn:Eb; cbn; rewrite ?Z.eqb_refl; cbn; rewrite ?Eh; cbn; rewrite Z.eqb_refl, (proj2 (Z.leb_le _ _)) by (unfold kVertexSize; lia); by rewrite ?Eh.
  - unfold shutdown in Hrun. cbn zeta in Hrun. pose proof (f_equal fst Hrun) as H1. pose proof (f_equal snd Hrun) as H2.
    cbn [fst snd] in H1, H2. subst s' es. split; [done|]. destruct (m_device s) eqn:Ed.
    + rewrite replay_app, replay_released. cbn [mbind option_bind]. unfold buffer_of. cbn. destruct (m_vertexBuffer s =? 0); cbn; by rewrite ?Z.eqb_refl.
    + unfold buffer_of. by destruct (Hoff Ed) as [-> _].
Qed.

(** The overlay uses its vertex buffer well in any session of initializations, frames
    and shutdowns, whatever handles the device answers: it creates a buffer only when it
    has none, destroys only the one it has, draws only from a buffer that is there and
    big enough, and after a shutdown has none left. *)
Theorem vertex_buffer_sound s es : session s es ->
  exists live, replay None es = Some live /\ live = buffer_of s /\ (m_device s = false -> live = None).
Proof.
  intros H. assert (off s /\ replay None es = Some (buffer_of s)) as [Hoff Hr].
  { induction H as [|o s es s' es' _ [Hoff IH] Hok Hrun]; [done|]. destruct (op_replay o s s' es' Hok Hrun Hoff) as [H1 H2]. split; [done|].
    by rewrite replay_app, IH. }
  exists (buffer_of s). split_and!; try done. intros Hd. unfold buffer_of. by destruct (Hoff Hd) as [-> _].
Qed.

(** A run of frames and its events. *)
Fixpoint frames (fs : list (Z * list Vertex)) (s : t) : list Event :=
  match fs with [] => [] | f :: fs => let '(s, es) := frame f.1 f.2 s in es ++ frames fs s end.

(** The overlay stays dark after a restart, and after a failed allocation: a renderer
    without a buffer that remembers the capacity of an earlier one draws no frame of at
    most that size and asks for no buffer; a shutdown and a frame whose buffer could
    not be created both leave such a renderer. *)
Theorem overlay_stays_dark s n d a fs :
  (n <= m_capacityVertices s)%nat -> Forall (fun f => (length f.2 <= n)%nat) fs ->
  frames fs (initialize d a (shutdown s).1) = [] /\
  (forall l, m_available s = true -> (m_capacityVertices s < length l)%nat -> frames fs (frame 0 l s).1 = []).
Proof.
  intros Hn Hf. assert (forall x, (n <= m_capacityVertices x)%nat -> m_vertexBuffer x = 0 -> frames fs x = []) as Hdark.
  { induction Hf as [|f fs Hlen _ IH]; intros x Hc Hb; [done|]. cbn [frames].
    assert (exists v, frame f.1 f.2 x = (with_vertices v x, [])) as [v ->]; [|apply IH; done].
    unfold frame, endFrame. destruct (_ || _); [by eexists|]. unfold ensureBufferCapacity. cbn [with_vertices m_capacityVertices beginFrame m_vertices].
    rewrite (proj2 (Nat.leb_le _ _)) by lia. cbn. rewrite Hb. by eexists. }
  split.
  - destruct (overlay_initialize_keeps d a (shutdown s).1) as (H1 & H2 & _). apply Hdark; [by rewrite H2|by rewrite H1].
  - intros l Ha Hl. unfold frame, endFrame. cbn [with_vertices m_available m_vertices beginFrame]. rewrite Ha.
    rewrite bool_decide_eq_false_2 by (intros ->; cbn in Hl; lia). cbn [negb orb]. unfold ensureBufferCapacity.
    cbn [with_vertices m_capacityVertices beginFrame]. rewrite (proj2 (Nat.leb_gt _ _)) by done. cbn. apply Hdark; cbn; [lia|done].
Qed.
End Buffer.

(** *** Witnesses *)
Section Witnesses.
Import OverlayRenderer.
Definition demo_answers : Answers := mkAnswers true true 1 2 3 4 5 6 (Some (fun _ => Some (mkBitmap 1 1 1 (fun _ => 9) 640))).
Definition demo_vertices : list Vertex := quad zero zero one one zero zero one one 0.

Lemma text_measured_witness : (text_quads (initialize true demo_answers initial) zero zero one one 0 [65; 66]).2 = textWidth [65; 66] one (initialize true demo_answers initial).
Proof. refine (proj2 (text_measured (initialize true demo_answers initial) zero one one 0 [65; 66]) _ _); [discriminate|]. apply (bool_decide_unpack _). exact I. Defined.
Lemma vertex_buffer_sound_witness : exists live, replay None (frame 7 demo_vertices (initialize true demo_answers initial)).2 = Some live /\ live = Some (7, 192).
Proof.
  set (s1 := initialize true demo_answers initial).
  destruct (vertex_buffer_sound (frame 7 demo_vertices s1).1 ([] ++ [] ++ (frame 7 demo_vertices s1).2)) as (live & H1 & H2 & _).
  - apply (ses_op (OpFrame 7 demo_vertices) s1 ([] ++ [])); [|done|apply surjective_pairing].
    by apply (ses_op (OpInit true demo_answers) initial []); [apply ses_start|..].
  - exists live. split; [exact H1|]. rewrite H2. reflexivity.
Defined.
Lemma overlay_stays_dark_witness :
  frames [(9, demo_vertices)] (initialize true demo_answers (shutdown (frame 7 demo_vertices (initialize true demo_answers initial)).1).1) = [].
Proof.
  refine (proj1 (overlay_stays_dark (frame 7 demo_vertices (initialize true demo_answers initial)).1 6 true demo_answers [(9, demo_vertices)] _ _)).
  - vm_compute. lia.
  - repeat constructor.
Defined.
End Witnesses.
