(* ===== verification/Diagnostics.v ===== *)
(** * Diagnostics

    [debug/]: the log filter, the specification of [FUSIONPS4_TRACE] that sets it, the
    counts of unimplemented calls, and the frame times of the profiler.  What is
    written to the log is not modelled. *)
From S2P Require Import Prelude.

(** ** Log.cpp *)
Module Log.
Definition categoryNames : list string := [
  "HOST"%string; "LOADER"%string; "SYSCALL"%string; "SCE"%string; "FS"%string; "INPUT"%string;
  "AUDIO"%string; "NETWORK"%string; "MEMORY"%string; "GRAPHICS"%string; "VULKAN"%string; "OPENGL"%string;
  "THREAD"%string; "PROCESS"%string; "HANDLE"%string; "ERROR"%string].
Definition Count : nat := 16.
(** Levels: trace 0, debug 1, info 2, warning 3, error 4, fatal 5. *)
Record t := mkLog { s_minLevel : Z; s_catEnabled : list bool }.
Definition with_enabled l (s : t) : t := mkLog (s_minLevel s) l.

Definition toupper (c : Z) : Z := if (97 <=? c) && (c <=? 122) then c - 32 else c.
Definition level_of (s : bytes) : option Z :=
  if bool_decide (s = cstr "TRACE") then Some 0
  else if bool_decide (s = cstr "DEBUG") then Some 1
  else if bool_decide (s = cstr "INFO") then Some 2
  else if bool_decide (s = cstr "WARN") then Some 3
  else if bool_decide (s = cstr "ERROR") then Some 4
  else None.
(** [env] is the value of [FUSIONPS4_LOG]. *)
Definition init (env : option bytes) : t := mkLog (default 1 (env ← env; level_of (toupper <$> env))) (replicate Count true).
Definition setMinLevel (l : Z) (s : t) : t := mkLog l (s_catEnabled s).
Definition setCategoryEnabled (c : nat) (b : bool) (s : t) : t := with_enabled (<[c := b]> (s_catEnabled s)) s.
Definition isEnabled (lvl : Z) (c : nat) (s : t) : bool := negb (lvl <? s_minLevel s) && default false (s_catEnabled s !! c).
End Log.

(** ** TraceConfig.cpp *)
Module TraceConfig.
Import Log.
Definition isspace (c : Z) : bool := (c =? 32) || ((9 <=? c) && (c <=? 13)).
Definition tolower (c : Z) : Z := if (65 <=? c) && (c <=? 90) then c + 32 else c.
Definition comma : Z := 44.
Definition minus : Z := 45.

Fixpoint skip_spaces (s : bytes) : bytes := match s with c :: s' => if isspace c then skip_spaces s' else s | [] => [] end.
Definition trim (s : bytes) : bytes := reverse (skip_spaces (reverse (skip_spaces s))).
Definition lower (s : bytes) : bytes := tolower <$> s.
(** The tokens of [getline]: a last one that is empty is not read. *)
Fixpoint split_from (acc s : bytes) : list bytes :=
  match s with
  | [] => match acc with [] => [] | _ => [acc] end
  | c :: s => if c =? comma then acc :: split_from [] s else split_from (acc ++ [c]) s
  end.
Definition split (s : bytes) : list bytes := split_from [] s.

Definition names : list bytes := (fun n => lower (cstr n)) <$> categoryNames.
Fixpoint index_of (i : nat) (name : bytes) (l : list bytes) : option nat :=
  match l with [] => None | x :: l => if bool_decide (x = name) then Some i else index_of (S i) name l end.
Definition categoryFromName (name : bytes) : option nat := index_of 0 name names.

Definition setAll (b : bool) (l : list bool) : list bool := replicate (length l) b.
Definition is_minus (s : bytes) : bool := match s with c :: _ => c =? minus | [] => false end.
(** One token: the categories after it, and whether it was known. *)
Definition apply_token (t : bytes) (l : list bool) : list bool * bool :=
  let t := trim t in
  if bool_decide (t = []) then (l, true)
  else
    let '(enable, t) := if is_minus t then (false, trim (drop 1 t)) else (true, t) in
    if bool_decide (t = cstr "all") then (setAll enable l, true)
    else if bool_decide (t = cstr "none") then (setAll (negb enable) l, true)
    else match categoryFromName t with None => (l, false) | Some c => (<[c := enable]> l, true) end.
Fixpoint apply_tokens (ts : list bytes) (l : list bool) : list bool * bool :=
  match ts with
  | [] => (l, true)
  | t :: ts => let '(l, ok) := apply_token t l in let '(l, ok') := apply_tokens ts l in (l, ok && ok')
  end.
Definition apply_spec (specRaw : bytes) (l : list bool) : list bool * bool :=
  let spec := trim (lower specRaw) in
  if bool_decide (spec = []) then (l, true)
  else
    let tokens := split spec in
    let blacklistMode := existsb is_minus tokens in
    if bool_decide (spec = cstr "all") then (setAll true l, true)
    else if bool_decide (spec = cstr "none") then (setAll false l, true)
    else apply_tokens tokens (setAll blacklistMode l).
Definition apply (specRaw : bytes) (s : Log.t) : Log.t * bool :=
  let '(l, ok) := apply_spec specRaw (s_catEnabled s) in (with_enabled l s, ok).
Definition applyFromEnvironment (env : option bytes) (s : Log.t) : Log.t :=
  match env with None => s | Some e => if bool_decide (e = []) then s else (apply e s).1 end.
End TraceConfig.

(** ** UnimplementedRegistry.cpp *)
Module UnimplementedRegistry.
Record Entry := mkEntry { count : Z; lastArgs : bytes; lastNote : bytes }.
Definition report (key args note : bytes) (s : gmap bytes Entry) : gmap bytes Entry :=
  let e := default (mkEntry 0 [] []) (s !! key) in
  <[key := mkEntry (u64 (count e + 1)) (if bool_decide (args = []) then lastArgs e else args) (if bool_decide (note = []) then lastNote e else note)]> s.
Definition uniqueCount (s : gmap bytes Entry) : nat := size s.
Definition totalCount (s : gmap bytes Entry) : Z := u64 (map_fold (fun _ e n => n + count e) 0 s).
End UnimplementedRegistry.

(** ** Profiler.cpp *)
Module Profiler.
Record Sample := mkSample { totalNs : Z; lastNs : Z }.
Record t := mkProfiler { m_samples : gmap string Sample; m_enabled : bool; m_frameStartNs : Z }.
Definition initial : t := mkProfiler ∅ false 0.
Definition setEnabled (b : bool) (p : t) : t := mkProfiler (m_samples p) b (m_frameStartNs p).
Definition record (label : string) (dt : Z) (p : t) : t :=
  let s := default (mkSample 0 0) (m_samples p !! label) in
  mkProfiler (<[label := mkSample (u64 (totalNs s + dt)) dt]> (m_samples p)) (m_enabled p) (m_frameStartNs p).
Definition beginFrame (now : Z) (p : t) : t := if m_enabled p then mkProfiler (m_samples p) true now else p.
Definition endFrame (now : Z) (p : t) : t :=
  if m_enabled p then record "frame" (u64 (now - m_frameStartNs p)) p else p.
(** A scope: the start it keeps, and its end. *)
Definition Scope (now : Z) (p : t) : Z := if m_enabled p then now else 0.
Definition end_scope (label : string) (start now : Z) (p : t) : t :=
  if negb (m_enabled p) || (start =? 0) then p else record label (u64 (now - start)) p.
(** The number of frames that [snapshot] divides by. *)
Definition frames (p : t) : Z :=
  let n := match m_samples p !! "frame"%string with Some s => if lastNs s =? 0 then 0 else totalNs s / lastNs s | None => 0 end in
  if n =? 0 then 1 else n.
End Profiler.

(** ** The trace specification *)
Section Trace.
Import TraceConfig.

(** A list of categories, each taken or left out. *)
Definition Item : Type := bool * nat.
Definition item_name (c : nat) : bytes := default [] (names !! c).
Definition token (i : Item) : bytes := (if i.1 then [minus] else []) ++ item_name i.2.
Fixpoint render (l : list Item) : bytes :=
  match l with [] => [] | [i] => token i | i :: l => token i ++ comma :: render l end.
Definition set_items (items : list Item) (l : list bool) : list bool := foldl (fun l i => <[i.2 := negb i.1]> l) l items.
(** Everything is on at the start when something is left out, off otherwise. *)
Definition meaning (items : list Item) (l : list bool) : list bool := set_items items (replicate (length l) (existsb fst items)).

Record token_ok (i : Item) : Prop := mkTokenOk {
  tk_chars : Forall (fun c => isspace c = false /\ c <> comma) (token i);
  tk_words : token i <> [] /\ token i <> cstr "all" /\ token i <> cstr "none";
  tk_minus : is_minus (token i) = i.1;
  tk_apply : forall l, apply_token (token i) l = (<[i.2 := negb i.1]> l, true)
}.
Lemma tokens_ok i : (i.2 < 16)%nat -> token_ok i.
Proof.
  destruct i as [neg c]. cbn [snd]. intros H.
  do 16 (destruct c as [|c]; [destruct neg; (split; [repeat constructor; discriminate|split_and!; discriminate|reflexivity|reflexivity])|]).
  lia.
Qed.

Lemma trim_id s : Forall (fun c => isspace c = false /\ c <> comma \/ c = comma) s -> trim s = s.
Proof.
  assert (forall s, Forall (fun c => isspace c = false /\ c <> comma \/ c = comma) s -> skip_spaces s = s) as Hs.
  { intros [|c s'] H; [done|]. apply Forall_cons in H as [[[H _]| ->] _]; cbn; [by rewrite H|done]. }
  intros H. unfold trim. rewrite (Hs s) by done. rewrite Hs by (by apply Forall_reverse). by rewrite reverse_involutive.
Qed.
Lemma split_token acc t rest : Forall (fun c => isspace c = false /\ c <> comma) t ->
  split_from acc (t ++ comma :: rest) = (acc ++ t) :: split_from [] rest.
Proof.
  intros H. revert acc. induction H as [|c t [_ Hc] _ IH]; intros acc; cbn [app split_from].
  - by rewrite Z.eqb_refl, app_nil_r.
  - rewrite (proj2 (Z.eqb_neq _ _)) by done. rewrite IH. by rewrite <- app_assoc.
Qed.
Lemma split_last acc t : Forall (fun c => isspace c = false /\ c <> comma) t -> acc ++ t <> [] -> split_from acc t = [acc ++ t].
Proof.
  intros H. revert acc. induction H as [|c t [_ Hc] _ IH]; intros acc Hne; cbn [split_from].
  - rewrite app_nil_r in *. by destruct acc.
  - rewrite (proj2 (Z.eqb_neq _ _)) by done. rewrite IH by (rewrite <- app_assoc; exact Hne). by rewrite <- app_assoc.
Qed.

Lemma render_split items : Forall token_ok items -> split (render items) = token <$> items.
Proof.
  induction 1 as [|i items Hi _ IH]; [done|]. destruct items as [|j items].
  - cbn. apply (split_last []); apply Hi.
  - change (render (i :: j :: items)) with (token i ++ comma :: render (j :: items)). unfold split in *. rewrite split_token by apply Hi. cbn [app]. by rewrite IH.
Qed.
Lemma render_chars items : Forall token_ok items -> Forall (fun c => isspace c = false /\ c <> comma \/ c = comma) (render items).
Proof.
  assert (forall i, token_ok i -> Forall (fun c => isspace c = false /\ c <> comma \/ c = comma) (token i)) as Ht.
  { intros i Hi. eapply Forall_impl; [apply Hi|]. by left. }
  induction 1 as [|i items Hi _ IH]; [constructor|]. destruct items as [|j items]; [by apply Ht|].
  change (render (i :: j :: items)) with (token i ++ comma :: render (j :: items)). apply Forall_app. split; [by apply Ht|]. constructor; [by right|done].
Qed.
Lemma apply_items items l : Forall token_ok items -> apply_tokens (token <$> items) l = (set_items items l, true).
Proof.
  intros H. revert l. induction H as [|i items Hi _ IH]; intros l; [done|]. cbn [fmap list_fmap apply_tokens]. rewrite (tk_apply i Hi).
  change (list_fmap _ _ token items) with (token <$> items). by rewrite IH.
Qed.

(** The trace specification means what it says: a list of known categories, some of
    them with a minus, in any case, sets the categories in order from all off, or from
    all on when there is a minus, and is accepted. *)
Theorem trace_spec raw items l :
  items <> [] -> Forall (fun i => (i.2 < Log.Count)%nat) items -> lower raw = render items ->
  apply_spec raw l = (meaning items l, true).
Proof.
  intros Hne Hc Hraw. assert (Forall token_ok items) as Ht by (eapply Forall_impl; [exact Hc|]; intros i; apply tokens_ok).
  unfold apply_spec. rewrite Hraw, trim_id by (by apply render_chars). rewrite render_split by done.
  assert (forall w, split w = [w] -> (forall i, token_ok i -> token i <> w) -> render items <> w) as Hword.
  { intros w Hw Hn E. pose proof (render_split items Ht) as Hs. rewrite E, Hw in Hs. destruct items as [|i [|j items]]; try done.
    injection Hs as Hs. apply Forall_cons in Ht as [Hi _]. by apply (Hn i Hi). }
  rewrite bool_decide_eq_false_2.
  2:{ intros E. pose proof (render_split items Ht) as Hs. rewrite E in Hs. by destruct items. }
  rewrite (bool_decide_eq_false_2 (render items = cstr "all")) by (apply Hword; [reflexivity|intros i Hi; apply Hi]).
  rewrite (bool_decide_eq_false_2 (render items = cstr "none")) by (apply Hword; [reflexivity|intros i Hi; apply Hi]).
  rewrite apply_items by done. unfold meaning, setAll. do 3 f_equal. clear -Ht.
  induction Ht as [|i items Hi _ IH]; [done|]. cbn. by rewrite (tk_minus i Hi), IH.
Qed.

(** The minus is looked for before the blanks go: after a comma and a blank it leaves
    everything else off. *)
Lemma blank_hides_minus : (apply_spec (cstr "host, -net" ++ cstr "work") (replicate 16 true)).1 = <[0%nat := true]> (replicate 16 false) /\
  (apply_spec (cstr "host,-network") (replicate 16 true)).1 = <[7%nat := false]> (replicate 16 true).
Proof. split; vm_compute; reflexivity. Qed.
End Trace.
Lemma trace_spec_witness : TraceConfig.apply_spec (cstr "FS,-Sce") (replicate 16 false) = (<[3%nat := false]> (replicate 16 true), true).
Proof.
  rewrite (trace_spec (cstr "FS,-Sce") [(false, 4%nat); (true, 3%nat)] (replicate 16 false)).
  - reflexivity.
  - discriminate.
  - repeat constructor.
  - reflexivity.
Defined.

(** ** Counts *)
Section Counts.
Import UnimplementedRegistry.

Definition reports (rs : list (bytes * bytes * bytes)) : gmap bytes Entry := foldl (fun s r => report r.1.1 r.1.2 r.2 s) ∅ rs.
Definition occurrences (key : bytes) (rs : list (bytes * bytes * bytes)) : nat := length (filter (fun r => r.1.1 = key) rs).

Lemma reports_snoc rs r : reports (rs ++ [r]) = report r.1.1 r.1.2 r.2 (reports rs).
Proof. unfold reports. by rewrite foldl_app. Qed.
Lemma occurrences_snoc key rs r : occurrences key (rs ++ [r]) = (occurrences key rs + if decide (r.1.1 = key) then 1 else 0)%nat.
Proof. unfold occurrences. rewrite filter_app, length_app. f_equal. destruct (decide _); [by rewrite filter_cons_True|by rewrite filter_cons_False]. Qed.

Lemma reports_count rs : Z.of_nat (length rs) < 2 ^ 64 ->
  (forall key, from_option count 0 (reports rs !! key) = Z.of_nat (occurrences key rs)) /\
  (forall key, is_Some (reports rs !! key) <-> key ∈ (fun r => r.1.1) <$> rs) /\
  map_fold (fun _ e n => n + count e) 0 (reports rs) = Z.of_nat (length rs).
Proof.
  induction rs as [|r rs IH] using rev_ind; intros Hlen.
  { split_and!; [done| |done]. intros key. split; [by intros [? ?]|by intros ?%elem_of_nil]. }
  rewrite length_app in Hlen. cbn in Hlen. destruct IH as (H1 & H2 & H3); [lia|]. rewrite reports_snoc. unfold report.
  set (e := default (mkEntry 0 [] []) (reports rs !! r.1.1)).
  assert (count e = Z.of_nat (occurrences r.1.1 rs)) as He by (rewrite <- H1; unfold e; by destruct (reports rs !! _)).
  assert (occurrences r.1.1 rs <= length rs)%nat as Ho by apply length_filter.
  assert (u64 (count e + 1) = count e + 1) as -> by (unfold wrap; apply Z.mod_small; lia).
  split_and!.
  - intros key. rewrite occurrences_snoc. destruct (decide (r.1.1 = key)) as [<-|Hne]; [rewrite lookup_insert_eq; cbn; lia|].
    rewrite lookup_insert_ne by done. rewrite H1. lia.
  - intros key. rewrite fmap_app, elem_of_app, <- H2.
    change ((fun r => r.1.1) <$> [r]) with [r.1.1]. rewrite list_elem_of_singleton.
    destruct (decide (r.1.1 = key)) as [<-|Hne]; [rewrite lookup_insert_eq; split; [by right|by eexists]|rewrite lookup_insert_ne by done; split; [by left|by intros [|]]].
  - rewrite length_app. cbn [length].
    assert (map_fold (fun _ e n => n + count e) 0 (reports rs) = count e + map_fold (fun _ e n => n + count e) 0 (delete r.1.1 (reports rs))) as Hdel.
    { unfold e. destruct (reports rs !! r.1.1) as [x|] eqn:E; cbn.
      - rewrite <- (insert_delete_id _ _ _ E) at 1. rewrite map_fold_insert_L by (intros; try lia; apply lookup_delete_eq). lia.
      - by rewrite delete_id. }
    rewrite <- insert_delete_eq. rewrite map_fold_insert_L by (intros; try lia; apply lookup_delete_eq). cbn [count]. lia.
Qed.

(** The registry counts every unimplemented call: after any reports the entry of a key
    has its number of reports, the keys are the reported ones, and the total is their
    number. *)
Theorem reports_counted rs : Z.of_nat (length rs) < 2 ^ 64 ->
  (forall key, from_option count 0 (reports rs !! key) = Z.of_nat (occurrences key rs)) /\
  uniqueCount (reports rs) = size (list_to_set (C := gset bytes) ((fun r => r.1.1) <$> rs)) /\
  totalCount (reports rs) = Z.of_nat (length rs).
Proof.
  intros H. destruct (reports_count rs H) as (H1 & H2 & H3). split_and!; [done| |unfold totalCount, wrap; rewrite H3; apply Z.mod_small; lia].
  unfold uniqueCount. rewrite <- (size_dom (D := gset bytes)). f_equal. apply set_eq. intros key. by rewrite elem_of_dom, H2, elem_of_list_to_set.
Qed.
End Counts.
Lemma reports_counted_witness : UnimplementedRegistry.totalCount (reports [(cstr "a", [], []); (cstr "b", [], []); (cstr "a", [], [])]) = 3.
Proof. exact (proj2 (proj2 (reports_counted [(cstr "a", [], []); (cstr "b", [], []); (cstr "a", [], [])] ltac:(cbn; lia)))). Defined.

(** ** Frame times *)
Section Frames.
Import Profiler.

(** Frames that begin at the given times and take as long as they say. *)
Definition run_frames (fs : list (Z * Z)) (p : t) : t := foldl (fun p f => endFrame (f.1 + f.2) (beginFrame f.1 p)) p fs.

Lemma run_frames_total d fs p : 0 < d -> Forall (fun f => f.2 = d) fs -> fs <> [] -> Z.of_nat (length fs) * d < 2 ^ 64 ->
  m_enabled p = true -> m_samples p !! "frame"%string = None ->
  m_enabled (run_frames fs p) = true /\ m_samples (run_frames fs p) !! "frame"%string = Some (mkSample (Z.of_nat (length fs) * d) d).
Proof.
  intros Hd. induction fs as [|[st d'] fs IH] using rev_ind; intros Hf Hne Hlen He Hs; [done|]. rewrite length_app in *. cbn [length] in *.
  apply Forall_app in Hf as [Hf Hx]. apply Forall_cons in Hx as [Hx _]. cbn in Hx. subst d'. unfold run_frames. rewrite foldl_app. cbn [foldl fst snd].
  assert (forall p, m_enabled p = true -> endFrame (st + d) (beginFrame st p) = record "frame" d (mkProfiler (m_samples p) true st)) as Hstep.
  { intros q Hq. unfold beginFrame, endFrame. rewrite Hq. cbn [m_enabled m_frameStartNs]. f_equal.
    replace (st + d - st) with d by lia. unfold wrap. apply Z.mod_small. rewrite Nat2Z.inj_add in Hlen. nia. }
  destruct fs as [|f fs].
  - cbn [foldl]. rewrite Hstep by done. split; [done|]. unfold record. cbn [m_samples]. rewrite lookup_insert_eq, Hs. cbn [default totalNs length Nat.add].
    unfold wrap. rewrite Z.mod_small by (cbn in Hlen; lia). do 2 f_equal. cbn. lia.
  - destruct IH as [H1 H2]; try done; [nia|]. fold (run_frames (f :: fs) p). rewrite Hstep by done. split; [done|]. unfold record. cbn [m_samples].
    rewrite lookup_insert_eq, H2. cbn [default id totalNs]. rewrite Nat2Z.inj_add in Hlen |- *. change (Z.of_nat 1) with 1 in *.
    set (k := Z.of_nat (length (f :: fs))) in *. assert (0 <= k) by lia. unfold wrap. rewrite Z.mod_small by nia. do 2 f_equal. ring.
Qed.

(** The profiler's average is right when all frames take the same time: the number of
    frames that it divides by is then the number there were (it is total by last, so one
    short frame at the end makes it any number). *)
Theorem profile_uniform d fs p :
  0 < d -> Forall (fun f => f.2 = d) fs -> fs <> [] -> Z.of_nat (length fs) * d < 2 ^ 64 ->
  m_enabled p = true -> m_samples p !! "frame"%string = None -> frames (run_frames fs p) = Z.of_nat (length fs).
Proof.
  intros Hd Hf Hne Hlen He Hs. destruct (run_frames_total d fs p Hd Hf Hne Hlen He Hs) as [_ H]. unfold frames. rewrite H. cbn [lastNs totalNs].
  rewrite (proj2 (Z.eqb_neq d 0)) by lia. rewrite Z.div_mul by lia. destruct fs; [done|]. by rewrite (proj2 (Z.eqb_neq _ 0)) by (cbn; lia).
Qed.
Lemma profile_last_frame : frames (run_frames [(10, 1000); (2000, 1)] (setEnabled true initial)) = 1001.
Proof. vm_compute. reflexivity. Qed.
End Frames.
Lemma profile_uniform_witness : Profiler.frames (run_frames [(5, 16); (30, 16); (100, 16)] (Profiler.setEnabled true Profiler.initial)) = 3.
Proof. exact (profile_uniform 16 [(5, 16); (30, 16); (100, 16)] (Profiler.setEnabled true Profiler.initial) ltac:(lia) ltac:(repeat constructor) ltac:(discriminate) ltac:(cbn; lia) eq_refl eq_refl). Defined.
