(* ===== verification/App.v ===== *)
(** * The host application

    [host/window/HostWindow.cpp], [runtime/Runtime.cpp], [runtime/RuntimeContext.cpp] and
    [host/main/Application.cpp]: the window, the runtime that owns it and the guest
    process, and the main loop.  SDL's answers and events are arguments; the window and
    the process keep running on one thread. *)
From S2P Require Import Prelude Vfs AddressSpace Handles Threads Host Process.

(** ** HostWindow.cpp *)
Module HostWindow.
Inductive WindowMode := Windowed | Fullscreen | FullscreenExclusive.
Record WindowConfig := mkConfig { cfg_title : bytes; cfg_width : Z; cfg_height : Z; cfg_mode : WindowMode; cfg_resizable : bool }.
(** [has_window] says that [m_window] is not null. *)
Record t := mkWindow { has_window : bool; m_width : Z; m_height : Z; m_open : bool; m_mode : WindowMode }.
Definition initial : t := mkWindow false 0 0 false Windowed.

(** SDL starts its video, and makes a window of the given size. *)
Definition create (video : bool) (window : option (Z * Z)) (cfg : WindowConfig) (w : t) : t * bool :=
  if has_window w then (w, false)
  else if negb video then (w, false)
  else match window with None => (w, false) | Some (wd, ht) => (mkWindow true wd ht true (cfg_mode cfg), true) end.
Definition destroy (w : t) : t := mkWindow false (m_width w) (m_height w) false (m_mode w).
Definition resize (wd ht : Z) (w : t) : t := if has_window w then mkWindow true wd ht (m_open w) (m_mode w) else w.
Definition setMode (accepted : bool) (m : WindowMode) (w : t) : t :=
  if has_window w && accepted then mkWindow true (m_width w) (m_height w) (m_open w) m else w.

Inductive Event := Quit | Resized (wd ht : Z) | Focus (gained : bool) | CloseWindow | Other.
(** One event: the window, and whether [onClose] is called. *)
Definition handle (e : Event) (w : t) : t * bool :=
  match e with
  | Quit | CloseWindow => (mkWindow (has_window w) (m_width w) (m_height w) false (m_mode w), true)
  | Resized wd ht => (mkWindow (has_window w) wd ht (m_open w) (m_mode w), false)
  | Focus _ | Other => (w, false)
  end.
Fixpoint handle_all (es : list Event) (w : t) : t * bool :=
  match es with
  | [] => (w, false)
  | e :: es => let '(w, c) := handle e w in let '(w, c') := handle_all es w in (w, c || c')
  end.
(** The window, whether [onClose] was called, and the answer. *)
Definition processEvents (es : list Event) (w : t) : t * bool * bool := let '(w, c) := handle_all es w in (w, c, m_open w).
End HostWindow.

(** ** Runtime.cpp *)
Module Runtime.
Record t := mkRuntime {
  m_window : option HostWindow.t;
  m_mainProcess : option PS4Process.t;
  m_nextPid : Z;
  m_running : bool
}.
Definition initial : t := mkRuntime None None 1 false.
(** What the host answers to [init]. *)
Record Answers := mkAnswers { video : bool; window : option (Z * Z); arena : SharedArena.HostReply }.

Section Config.
Context (cfg : HostWindow.WindowConfig) (vfs : FsPolicy.t).

Definition createMainProcess (reply : SharedArena.HostReply) (r : t) : t * bool :=
  let '(p, ok) := PS4Process.init (PS4Process.make (m_nextPid r) (cstr "fusionps4-guest") vfs) reply in
  (mkRuntime (m_window r) (Some p) (m_nextPid r + 1) (m_running r), ok).
Definition init (a : Answers) (r : t) : t * bool :=
  if m_running r then (r, true)
  else
    let '(w, ok) := HostWindow.create (video a) (window a) cfg HostWindow.initial in
    let r := mkRuntime (Some w) (m_mainProcess r) (m_nextPid r) (m_running r) in
    if negb ok then (r, false)
    else
      let '(r, ok) := createMainProcess (arena a) r in
      if negb ok then (r, false) else (mkRuntime (m_window r) (m_mainProcess r) (m_nextPid r) true, true).
End Config.

Definition requestQuit (r : t) : t := mkRuntime (m_window r) (m_mainProcess r) (m_nextPid r) false.
(** What is released, in the order of the code: the guest process, shut down first and
    in the state it is then in, and the window, destroyed if SDL had made one. *)
Inductive Release := GuestReleased (p : PS4Process.t) | WindowReleased (destroyed : bool).
Definition shutdown (r : t) : t * list Release :=
  if negb (m_running r) && negb (bool_decide (is_Some (m_window r))) && negb (bool_decide (is_Some (m_mainProcess r))) then (r, [])
  else
    let released := from_option (fun p => [GuestReleased (PS4Process.shutdown p)]) [] (m_mainProcess r) in
    let r := mkRuntime (m_window r) None (m_nextPid r) (m_running r) in
    let released := released ++ from_option (fun w => [WindowReleased (HostWindow.has_window w)]) [] (m_window r) in
    (mkRuntime None (m_mainProcess r) (m_nextPid r) false, released).

(** One frame; without a window it would dereference null. *)
Definition tick (es : list HostWindow.Event) (r : t) : option (t * bool) :=
  if negb (m_running r) then Some (r, false)
  else
    w ← m_window r;
    let '(w, closed, open) := HostWindow.processEvents es w in
    let running := negb (closed || negb open) in
    Some (mkRuntime (Some w) (m_mainProcess r) (m_nextPid r) running, running).
End Runtime.

(** ** Application.cpp *)
Module Application.
Import Runtime.
(** What the application does to the host. *)
Inductive Effect := LogInit | SdlInit | RuntimeMade | Released (x : Release) | SdlQuit | LogShutdown.
(** [effects]: all of them so far, in order. *)
Record t := mkApp { m_runtime : option Runtime.t; m_initialized : bool; effects : list Effect }.
Definition initial : t := mkApp None false [].
Definition effect (e : Effect) (s : t) : t := mkApp (m_runtime s) (m_initialized s) (effects s ++ [e]).
Definition with_runtime (r : option Runtime.t) (s : t) : t := mkApp r (m_initialized s) (effects s).
Definition with_initialized (b : bool) (s : t) : t := mkApp (m_runtime s) b (effects s).

Section Config.
Context (cfg : HostWindow.WindowConfig) (vfs : FsPolicy.t).

Definition bootstrap (events : bool) (a : Answers) (s : t) : t * bool :=
  let s := effect LogInit s in
  if negb events then (s, false)
  else
    let s := effect RuntimeMade (effect SdlInit s) in
    let '(r, ok) := Runtime.init cfg vfs a Runtime.initial in
    let s := with_runtime (Some r) s in
    if negb ok then (s, false) else (with_initialized true s, true).
(** [m_runtime->shutdown()]: what it releases are effects. *)
Definition shutdown_runtime (s : t) : t :=
  match m_runtime s with
  | None => s
  | Some r => let '(r, released) := Runtime.shutdown r in mkApp (Some r) (m_initialized s) (effects s ++ map Released released)
  end.
Definition shutdown (s : t) : t :=
  if negb (m_initialized s) then s
  else
    let s := with_runtime None (shutdown_runtime s) in
    let s := effect SdlQuit s in
    with_initialized false (effect LogShutdown s).
(** [~Application]: the runtime that is left is destroyed, and shuts itself down. *)
Definition destructor (s : t) : t :=
  let s := shutdown s in with_runtime None (shutdown_runtime s).

(** The loop over the batches of events of the frames; no result while it is still
    running after the last one. *)
Fixpoint mainLoop (frames : list (list HostWindow.Event)) (r : Runtime.t) : option (Runtime.t * list (list HostWindow.Event)) :=
  if negb (m_running r) then Some (r, frames)
  else
    match frames with
    | [] => None
    | es :: frames => '(r, more) ← tick es r; if more : bool then mainLoop frames r else Some (r, frames)
    end.
(** The exit code and the application after it. *)
Definition run (events : bool) (a : Answers) (frames : list (list HostWindow.Event)) : option (t * Z) :=
  let '(s, ok) := bootstrap events a initial in
  if negb ok then Some (shutdown s, 1)
  else
    r ← m_runtime s;
    '(r, _) ← mainLoop frames r;
    Some (shutdown (with_runtime (Some r) s), 0).
(** The program: the application lives as long as [main]. *)
Definition main (events : bool) (a : Answers) (frames : list (list HostWindow.Event)) : option (t * Z) :=
  '(s, code) ← run events a frames; Some (destructor s, code).
End Config.
End Application.

(** ** Properties *)
Section Properties.
Import HostWindow Runtime Application.
Context (cfg : WindowConfig) (vfs : FsPolicy.t).

Definition closes (e : Event) : bool := match e with Quit | CloseWindow => true | _ => false end.

Lemma handle_all_closes es w : (handle_all es w).2 = existsb closes es /\
  m_open (handle_all es w).1 = (m_open w && negb (existsb closes es)) /\ has_window (handle_all es w).1 = has_window w.
Proof.
  revert w. induction es as [|e es IH]; intros w; cbn [handle_all existsb]; [by rewrite andb_true_r|].
  destruct (handle e w) as [w1 c] eqn:E. destruct (IH w1) as (H1 & H2 & H3). destruct (handle_all es w1) as [w2 c']. cbn [fst snd] in *.
  rewrite H1, H2, H3. destruct e; injection E as <- <-; cbn; split_and!; try done; by rewrite andb_false_r.
Qed.

(** A runtime that runs has an open window and a ready process. *)
Definition live (r : Runtime.t) : Prop := m_running r = true ->
  (exists w, Runtime.m_window r = Some w /\ has_window w = true /\ m_open w = true) /\
  (exists p, m_mainProcess r = Some p /\ PS4Process.m_state p = PS4Process.Ready).

(** A process that has exited and holds nothing. *)
Definition gone (p : PS4Process.t) : Prop :=
  PS4Process.m_state p = PS4Process.Exited /\ AddressSpace.m_regions (PS4Process.m_addressSpace p) = [] /\
  HandleTable.m_objects (PS4Process.m_handleTable p) = ∅ /\ ThreadManager.m_threads (PS4Process.m_threads p) = ∅.
Lemma shutdown_gone p : PS4Process.m_state p <> PS4Process.Exited -> gone (PS4Process.shutdown p).
Proof. intros Hs. unfold gone, PS4Process.shutdown. rewrite bool_decide_eq_false_2 by done. by split_and!. Qed.
(** The window and the process that a runtime holds once it runs or ran. *)
Definition held (r : Runtime.t) : Prop :=
  (exists w, Runtime.m_window r = Some w /\ has_window w = true) /\
  (exists p, m_mainProcess r = Some p /\ PS4Process.m_state p = PS4Process.Ready).
Lemma shutdown_held r : held r ->
  exists p, Runtime.shutdown r = (mkRuntime None None (m_nextPid r) false, [GuestReleased p; WindowReleased true]) /\ gone p.
Proof.
  intros [(w & Hw & Hh) (p & Hp & Hs)]. exists (PS4Process.shutdown p). unfold Runtime.shutdown. rewrite Hw, Hp.
  rewrite bool_decide_eq_true_2 by eauto. rewrite andb_false_r. cbn. rewrite Hh. split; [done|]. apply shutdown_gone. by rewrite Hs.
Qed.
Lemma live_held r : live r -> m_running r = true -> held r.
Proof. intros Hl Hr. destruct (Hl Hr) as [(w & Hw & Hh & _) Hp]. split; [by exists w|done]. Qed.
Lemma shutdown_live r : live r -> m_running r = true ->
  exists p, Runtime.shutdown r = (mkRuntime None None (m_nextPid r) false, [GuestReleased p; WindowReleased true]) /\ gone p.
Proof. intros Hl Hr. by apply shutdown_held, live_held. Qed.

Lemma init_live a r : live r -> live (Runtime.init cfg vfs a r).1 /\
  ((Runtime.init cfg vfs a r).2 = true <-> m_running (Runtime.init cfg vfs a r).1 = true).
Proof.
  intros Hl. unfold Runtime.init. destruct (m_running r) eqn:Er; [done|]. unfold create. cbn [has_window HostWindow.initial].
  destruct (video a); cbn [negb]; [|split; [by intros H; cbn in H|done]]. destruct (Runtime.window a) as [[wd ht]|]; cbn [negb]; [|split; [by intros H; cbn in H|done]].
  unfold createMainProcess. match goal with |- context [PS4Process.init ?x ?y] => destruct (PS4Process.init x y) as [p ok] eqn:Ep end. cbn [m_running]. destruct ok; cbn [negb]; [|split; [by intros H; cbn in H|done]].
  split; [|done]. intros _. cbn. split; [by eexists|]. exists p. split; [done|].
  unfold PS4Process.init in Ep. cbn [PS4Process.make PS4Process.m_state] in Ep. rewrite bool_decide_eq_true_2 in Ep by done. cbn [negb] in Ep.
  destruct (AddressSpace.init _ _) as [a0 ok]. destruct ok; cbn [negb] in Ep; [|done]. destruct (AddressSpace.map _ _ _ _ _) as [a1 w1]. destruct (w1 =? 0); [done|].
  destruct (AddressSpace.map _ _ _ _ _) as [a2 w2]. destruct (w2 =? 0); [done|]. by injection Ep as <-.
Qed.

Lemma tick_live es r : live r -> m_running r = true ->
  exists r', tick es r = Some (r', negb (existsb closes es)) /\ m_running r' = negb (existsb closes es) /\ live r' /\ held r'.
Proof.
  intros Hl Hr. destruct (Hl Hr) as [(w & Hw & Hh & Ho) (p & Hp & Hs)]. unfold tick. rewrite Hr, Hw. cbn [negb mbind option_bind].
  unfold processEvents. destruct (handle_all_closes es w) as (H1 & H2 & H3). destruct (handle_all es w) as [w' c]. cbn [fst snd] in *. rewrite H1, H2, Ho.
  cbn [andb]. rewrite negb_involutive, orb_diag. eexists. split; [done|]. split; [done|]. split; [|split; [|by exists p]].
  - intros Hr'. cbn in *. split; [|by exists p]. exists w'. split; [done|]. split; [by rewrite H3|]. by rewrite H2, Ho, Hr'.
  - exists w'. split; [done|]. by rewrite H3.
Qed.

(** The frames before the first one with a closing event. *)
Fixpoint frames_before (frames : list (list Event)) : nat :=
  match frames with [] => 0 | es :: frames => if existsb closes es then 0 else S (frames_before frames) end.
Lemma loop_ends frames r : live r -> m_running r = true ->
  if existsb (existsb closes) frames
  then exists r', mainLoop frames r = Some (r', drop (S (frames_before frames)) frames) /\ held r'
  else mainLoop frames r = None.
Proof.
  revert r. induction frames as [|es frames IH]; intros r Hl Hr; cbn [mainLoop existsb]; rewrite Hr; cbn [negb]; [done|].
  destruct (tick_live es r Hl Hr) as (r' & -> & Hr' & Hl' & Hh). cbn [mbind option_bind frames_before].
  destruct (existsb closes es) eqn:Ec; cbn [negb orb] in *; [by exists r'|]. pose proof (IH r' Hl' Hr') as H. by destruct (existsb _ frames).
Qed.

(** Sessions of the runtime on its thread. *)
Inductive rstep : Runtime.t -> Runtime.t -> Prop :=
  | r_init a r : rstep r (Runtime.init cfg vfs a r).1
  | r_tick es r r' b : tick es r = Some (r', b) -> rstep r r'
  | r_quit r : rstep r (requestQuit r)
  | r_shutdown r : rstep r (Runtime.shutdown r).1.

(** The runtime is sound in any session: whenever it runs it has an open window and a
    ready guest process, so no frame dereferences null; a frame goes on exactly when no
    event closes the window; and a shutdown releases the window and leaves the process
    exited with no region, no handle and no thread. *)
Theorem runtime_session r es : rtc rstep Runtime.initial r ->
  (m_running r = true -> (exists w, Runtime.m_window r = Some w /\ has_window w = true /\ m_open w = true) /\
     exists p, m_mainProcess r = Some p /\ PS4Process.m_state p = PS4Process.Ready) /\
  (exists r', tick es r = Some (r', m_running r && negb (existsb closes es))) /\
  (m_running r = true -> exists p, Runtime.shutdown r = (mkRuntime None None (m_nextPid r) false, [GuestReleased p; WindowReleased true]) /\ gone p).
Proof.
  intros Hr. assert (live r) as Hl.
  { assert (live Runtime.initial) as H by done. revert H. induction Hr as [|x y z Hs _ IH]; intros H; [done|]. apply IH. destruct Hs as [a r|es' r r' b Ht|r|r].
    - by apply init_live.
    - destruct (m_running r) eqn:Er; [|unfold tick in Ht; rewrite Er in Ht; by injection Ht as <- _].
      destruct (tick_live es' r H Er) as (r2 & E & _ & Hl2 & _). rewrite E in Ht. by injection Ht as <- _.
    - by intros Hq.
    - unfold Runtime.shutdown. destruct (_ && _ && _); [done|by intros Hq]. }
  split_and!; [done| |].
  - destruct (m_running r) eqn:Er; [|exists r; unfold tick; by rewrite Er]. destruct (tick_live es r Hl Er) as (r' & -> & _). by exists r'.
  - intros Hrun. by apply shutdown_live.
Qed.

(** The runtime that did not start: what it made. *)
Lemma destroy_partial s r : m_runtime s = Some r -> m_initialized s = false ->
  destructor s = mkApp None false (effects s ++ map Released (Runtime.shutdown r).2).
Proof.
  intros Hr Hi. unfold destructor, shutdown. rewrite Hi. cbn [negb]. unfold shutdown_runtime. rewrite Hr.
  destruct (Runtime.shutdown r) as [r' l]. cbn. by rewrite Hi.
Qed.

(** C29: the program ends exactly with a closing event, and releases what it made in
    order. When SDL's events and the runtime start, the main loop handles the frames up
    to the first one with a closing event and no more, the guest process is shut down to
    one with no region, handle or thread, then the window is destroyed, SDL quit and the
    log closed, nothing twice, and the exit code is 0; while no frame brings such an
    event the loop goes on (the exit of an isolated guest, which docs/running.md names,
    does not end it). When the runtime does not start the code is 1, what it had made is
    released only by the destructor after [run], and SDL is never quit nor the log
    closed; when SDL does not start the code is 1 and the log is never closed. *)
Theorem application_ends events a frames :
  let made := Runtime.init cfg vfs a Runtime.initial in
  (events = true -> made.2 = true -> existsb (existsb closes) frames = true ->
     (exists r, mainLoop frames made.1 = Some (r, drop (S (frames_before frames)) frames)) /\
     exists p, gone p /\
       let s := mkApp None false [LogInit; SdlInit; RuntimeMade; Released (GuestReleased p); Released (WindowReleased true); SdlQuit; LogShutdown] in
       run cfg vfs events a frames = Some (s, 0) /\ main cfg vfs events a frames = Some (s, 0)) /\
  (events = true -> made.2 = true -> existsb (existsb closes) frames = false -> main cfg vfs events a frames = None) /\
  (events = true -> made.2 = false ->
     run cfg vfs events a frames = Some (mkApp (Some made.1) false [LogInit; SdlInit; RuntimeMade], 1) /\
     main cfg vfs events a frames = Some (mkApp None false ([LogInit; SdlInit; RuntimeMade] ++ map Released (Runtime.shutdown made.1).2), 1)) /\
  (events = false -> main cfg vfs events a frames = Some (mkApp None false [LogInit], 1)).
Proof.
  destruct (init_live a Runtime.initial ltac:(done)) as [Hl Hi]. unfold main, run, bootstrap. cbv zeta.
  destruct (Runtime.init _ _ _ _) as [r ok]. cbn [fst snd] in *. split; [|split; [|split]].
  - intros -> -> Hc. cbn [negb m_runtime mbind option_bind with_runtime with_initialized]. pose proof (loop_ends frames r Hl (proj1 Hi eq_refl)) as He.
    rewrite Hc in He. destruct He as (r' & -> & Hh). split; [by eauto|]. destruct (shutdown_held r' Hh) as (p & Hs & Hp). exists p. split; [exact Hp|].
    unfold shutdown, shutdown_runtime. cbn. by rewrite Hs.
  - intros -> -> Hc. cbn [negb m_runtime mbind option_bind with_runtime with_initialized]. pose proof (loop_ends frames r Hl (proj1 Hi eq_refl)) as He.
    rewrite Hc in He. by rewrite He.
  - intros -> ->. split; [done|]. cbn [negb mbind option_bind]. rewrite (destroy_partial _ r) by done. done.
  - by intros ->.
Qed.
End Properties.
Definition demo_config : HostWindow.WindowConfig := HostWindow.mkConfig (cstr "FusionPS4") 1280 720 HostWindow.Windowed true.
Definition demo_answers : Runtime.Answers := Runtime.mkAnswers true (Some (1280, 720)) (SharedArena.mkReply 5 true (Some AddressSpace.kGuestBase)).
Lemma runtime_session_witness : exists w, Runtime.m_window (Runtime.init demo_config FsPolicy.default_policy demo_answers Runtime.initial).1 = Some w /\ HostWindow.m_open w = true.
Proof.
  destruct (runtime_session demo_config FsPolicy.default_policy (Runtime.init demo_config FsPolicy.default_policy demo_answers Runtime.initial).1 []) as [H _].
  - apply rtc_once, r_init.
  - destruct (H ltac:(vm_compute; reflexivity)) as [(w & H1 & _ & H2) _]. by exists w.
Defined.
Lemma application_ends_witness :
  let frames := [[HostWindow.Focus true]; [HostWindow.Other; HostWindow.Quit]; []] in
  exists p, gone p /\ Application.main demo_config FsPolicy.default_policy true demo_answers frames = Some (Application.mkApp None false
    [Application.LogInit; Application.SdlInit; Application.RuntimeMade; Application.Released (Runtime.GuestReleased p);
     Application.Released (Runtime.WindowReleased true); Application.SdlQuit; Application.LogShutdown], 0).
Proof.
  destruct (application_ends demo_config FsPolicy.default_policy true demo_answers [[HostWindow.Focus true]; [HostWindow.Other; HostWindow.Quit]; []]) as [H _].
  destruct (H eq_refl ltac:(vm_compute; reflexivity) eq_refl) as (_ & p & Hp & _ & Hm). exists p. split; [exact Hp|exact Hm].
Defined.
