(* ===== verification/Images.v ===== *)
(** * Pictures and glyphs

    [sce/png/ScePng.cpp], [sce/jpeg/SceJpeg.cpp] and [sce/font/SceFont.cpp]: how their
    buffers are read and written.  libpng, libjpeg and FreeType are parameters: the
    reads that libpng asks for, the sizes of a picture, and a rendered glyph. *)
From S2P Require Import Prelude.

(** ** ScePng.cpp *)
Module ScePng.
Record PngReadState := mkState { data : bytes; offset : Z }.
Definition size (s : PngReadState) : Z := Z.of_nat (length (data s)).
(** One call-back: [None] is [png_error]. *)
Definition pngReadCallback (len : Z) (s : PngReadState) : option (PngReadState * bytes) :=
  if size s <? u64 (offset s + len) then None
  else Some (mkState (data s) (offset s + len), take (Z.to_nat len) (drop (Z.to_nat (offset s)) (data s))).
Fixpoint read_all (lens : list Z) (s : PngReadState) : option (list bytes) :=
  match lens with
  | [] => Some []
  | n :: lens => '(s, b) ← pngReadCallback n s; bs ← read_all lens s; Some (b :: bs)
  end.
(** The places of the rows in the output, when it is big enough. *)
Definition rows (rowBytes height outCapacity : Z) : option (list Z) :=
  if outCapacity <? rowBytes * height then None else Some ((fun y => y * rowBytes) <$> seqZ 0 height).
End ScePng.

(** ** SceJpeg.cpp *)
Module SceJpeg.
(** [rowStride] and the place of a row are computed on 32 bits. *)
Definition rowStride (w c : Z) : Z := u32 (w * c).
Definition scanline (w c y : Z) : Z := u32 (y * rowStride w c).
Definition scanlines (w h c outCapacity : Z) : option (list Z) :=
  if outCapacity <? w * h * c then None else Some (scanline w c <$> seqZ 0 h).
End SceJpeg.

(** ** SceFont.cpp *)
Module SceFont.
Definition kOk : Z := 0.
Definition kErrInvalidArg : Z := i32 0x80020005.
Definition kErrNotFound : Z := i32 0x80020004.
Definition kErrNotSupport : Z := i32 0x80020003.

(** The faces by their handles. *)
Record t := mkFonts { g_ft : bool; g_fonts : gmap Z Z; g_nextHandle : Z }.
Definition initial : t := mkFonts false ∅ 1.
(** [library] and [face] are what FreeType answers; the pointer to the font is not null
    when [data] is the number of bytes. *)
Definition sceFontCreateLibraryFromMemory (library : bool) (face : option Z) (out : bool) (data : option Z) (s : t) : t * Z * option Z :=
  match data with
  | Some n =>
      if negb out || (n =? 0) then (s, kErrInvalidArg, None)
      else if negb (g_ft s || library) then (s, kErrNotSupport, None)
      else
        let s := mkFonts true (g_fonts s) (g_nextHandle s) in
        match face with
        | None => (s, kErrInvalidArg, None)
        | Some f => let h := g_nextHandle s in (mkFonts true (<[h := f]> (g_fonts s)) (h + 1), kOk, Some h)
        end
  | None => (s, kErrInvalidArg, None)
  end.
(** The face that [FT_Done_Face] is called on. *)
Definition sceFontDestroyLibrary (h : Z) (s : t) : t * Z * option Z :=
  if h =? 0 then (s, kErrInvalidArg, None)
  else
    match g_fonts s !! h with
    | None => (s, kErrNotFound, None)
    | Some f => (mkFonts (g_ft s) (delete h (g_fonts s)) (g_nextHandle s), kOk, Some f)
    end.

Record Bitmap := mkBitmap { bm_rows : Z; bm_width : Z; bm_pitch : Z; bm_buffer : Z -> Z }.
(** The writes behind [outBitmap], in order: each row copied, and cleared to the stride. *)
Definition row_writes (b : Bitmap) (outStride y : Z) : list (Z * Z) :=
  let at_ := u32 (y * outStride) in
  ((fun x => (at_ + x, bm_buffer b (u32 (y * bm_pitch b) + x))) <$> seqZ 0 (bm_width b)) ++
  (if bm_width b <? outStride then (fun x => (at_ + x, 0)) <$> seqZ (bm_width b) (outStride - bm_width b) else []).
Definition glyph_writes (b : Bitmap) (outStride outHeight : Z) : list (Z * Z) :=
  y ← seqZ 0 (Z.min (bm_rows b) outHeight); row_writes b outStride y.
(** [sizes] and [glyph] are FreeType's answers to the size and the character. *)
Definition sceFontGetCharGlyphImage (sizes : bool) (glyph : option Bitmap) (h : Z) (out : bool) (outStride outHeight : Z) (s : t) : list (Z * Z) * Z :=
  if (h =? 0) || negb out then ([], kErrInvalidArg)
  else
    match g_fonts s !! h with
    | None => ([], kErrNotFound)
    | Some _ =>
        if negb sizes then ([], kErrInvalidArg)
        else match glyph with None => ([], kErrInvalidArg) | Some b => (glyph_writes b outStride outHeight, kOk) end
    end.
End SceFont.

(** ** Pictures *)
Section Pictures.
Import ScePng SceJpeg.

Definition total (lens : list Z) : Z := foldr Z.add 0 lens.
Lemma total_nonneg lens : Forall (fun n => 0 <= n) lens -> 0 <= total lens.
Proof. induction 1; cbn; [lia|]. unfold total in *. lia. Qed.
Lemma take_join {A} (l : list A) i n m : take n (drop i l) ++ take m (drop (i + n) l) = take (n + m) (drop i l).
Proof. rewrite <- drop_drop. apply take_take_drop. Qed.

(** Libpng reads the guest's picture in order and never past its end: a run of reads
    succeeds exactly when they fit, and then the pieces, each of the length asked for,
    are together the picture from the first read on. *)
Theorem png_reads lens s :
  Forall (fun n => 0 <= n < 2 ^ 62) lens -> 0 <= offset s <= size s -> size s < 2 ^ 62 ->
  (is_Some (read_all lens s) <-> offset s + total lens <= size s) /\
  (forall bs, read_all lens s = Some bs -> concat bs = take (Z.to_nat (total lens)) (drop (Z.to_nat (offset s)) (data s)) /\
     (Z.of_nat ∘ length <$> bs) = lens).
Proof.
  intros Hl. revert s. induction Hl as [|n lens Hn Hl IH]; intros s Ho Hs; cbn [read_all total foldr].
  { split; [split; [lia|by eexists]|]. by intros bs [= <-]. }
  change (foldr Z.add 0 lens) with (total lens). unfold pngReadCallback. unfold wrap. rewrite Z.mod_small by lia.
  assert (0 <= total lens) as Ht by (apply total_nonneg; eapply Forall_impl; [exact Hl|]; cbn; lia).
  destruct (Z.ltb_spec (size s) (offset s + n)) as [Hlt|Hge]; [split; [split; [by intros [? ?]|lia]|done]|]. cbn [mbind option_bind].
  set (s' := mkState (data s) (offset s + n)). change (size s) with (size s') in *.
  destruct (IH s') as [H1 H2]; [cbn [s' offset]; lia|done|]. cbn [s' offset data] in H1, H2. split.
  - rewrite Z.add_assoc, <- H1. destruct (read_all lens s'); split; try (by intros [? ?]); by eexists.
  - intros bs Hbs. destruct (read_all lens s') as [bs'|]; [|done]. injection Hbs as <-. destruct (H2 bs' eq_refl) as [H3 H4].
    assert (length (take (Z.to_nat n) (drop (Z.to_nat (offset s)) (data s))) = Z.to_nat n) as Hlen.
    { rewrite length_take, length_drop. unfold size in *. cbn [s' data] in *. lia. }
    split; [|cbn; f_equal; [rewrite Hlen; lia|done]]. cbn [concat]. rewrite H3.
    rewrite !Z2Nat.inj_add by lia. apply take_join.
Qed.

(** The rows of a decoded picture are inside the guest's buffer, for both libraries;
    those of a PNG are one after the other, those of a JPEG when the picture has at
    most 4 GiB - beyond that the places wrap and rows overwrite earlier ones. *)
Theorem rows_in_bounds w h c cap : 0 <= w -> 0 <= h -> 0 < c -> w * c < 2 ^ 32 ->
  (forall l, rows (w * c) h cap = Some l -> forall y p, l !! y = Some p -> p = Z.of_nat y * (w * c) /\ 0 <= p /\ p + w * c <= cap) /\
  (forall l, scanlines w h c cap = Some l -> forall y p, l !! y = Some p ->
     0 <= p /\ p + w * c <= cap /\ (w * h * c <= 2 ^ 32 -> 0 < w -> p = Z.of_nat y * (w * c))).
Proof.
  intros Hw Hh Hc Hwc. split.
  - unfold rows. intros l. destruct (Z.ltb_spec cap (w * c * h)); [done|]. intros [= <-] y p.
    rewrite list_lookup_fmap. intros (y' & Hy & ->)%fmap_Some. apply lookup_seqZ in Hy as [-> Hy]. rewrite Z.add_0_l. split; [done|]. nia.
  - unfold scanlines. intros l. destruct (Z.ltb_spec cap (w * h * c)); [done|]. intros [= <-] y p.
    rewrite list_lookup_fmap. intros (y' & Hy & ->)%fmap_Some. apply lookup_seqZ in Hy as [-> Hy]. rewrite Z.add_0_l.
    unfold scanline, rowStride, wrap. rewrite (Z.mod_small (w * c)) by nia. set (x := Z.of_nat y * (w * c)).
    assert (0 <= x) as Hx by (unfold x; nia). assert (x + w * c <= w * h * c) as Hlast by (unfold x; nia).
    pose proof (Z.mod_pos_bound x (2 ^ 32) ltac:(lia)). pose proof (Z.mod_le x (2 ^ 32) Hx ltac:(lia)).
    split; [lia|]. split; [lia|]. intros Hsmall Hw'. apply Z.mod_small. nia.
Qed.
Lemma jpeg_rows_overlap : scanline 65535 3 21846 < scanline 65535 3 1.
Proof. vm_compute. reflexivity. Qed.
End Pictures.
Lemma png_reads_witness : exists bs, ScePng.read_all [2; 1] (ScePng.mkState [7; 8; 9; 10] 0) = Some bs /\ concat bs = [7; 8; 9].
Proof.
  destruct (png_reads [2; 1] (ScePng.mkState [7; 8; 9; 10] 0)) as [_ H]; [apply (bool_decide_unpack _); vm_compute; exact I|unfold ScePng.size; cbn; lia|unfold ScePng.size; cbn; lia|].
  eexists. split; [reflexivity|]. exact (proj1 (H _ eq_refl)).
Defined.
Lemma rows_in_bounds_witness : exists l, SceJpeg.scanlines 4 2 3 24 = Some l /\ forall y p, l !! y = Some p -> p + 12 <= 24.
Proof.
  eexists. split; [reflexivity|]. intros y p Hp.
  exact (proj1 (proj2 (proj2 (rows_in_bounds 4 2 3 24 ltac:(lia) ltac:(lia) ltac:(lia) ltac:(lia)) _ eq_refl y p Hp))).
Defined.

(** ** Glyphs *)
Section Glyphs.
Import SceFont.

Lemma elem_row_writes b st y i v : 0 <= y -> y * st < 2 ^ 32 -> 0 <= bm_width b <= st ->
  (i, v) ∈ row_writes b st y <-> exists x, 0 <= x < st /\ i = y * st + x /\
    v = if x <? bm_width b then bm_buffer b (u32 (y * bm_pitch b) + x) else 0.
Proof.
  intros Hy Hsm Hw. unfold row_writes. cbn zeta. rewrite elem_of_app, list_elem_of_fmap.
  assert (u32 (y * st) = y * st) as -> by (unfold wrap; apply Z.mod_small; nia). split.
  - intros [(x & [= -> ->] & Hx%elem_of_seqZ)|H].
    + exists x. rewrite (proj2 (Z.ltb_lt _ _)) by lia. split_and!; try done; lia.
    + destruct (Z.ltb_spec (bm_width b) st); [|by apply elem_of_nil in H]. apply list_elem_of_fmap in H as (x & [= -> ->] & Hx%elem_of_seqZ).
      exists x. rewrite (proj2 (Z.ltb_ge _ _)) by lia. split_and!; try done; lia.
  - intros (x & Hx & -> & ->). destruct (Z.ltb_spec x (bm_width b)).
    + left. exists x. split; [done|]. apply elem_of_seqZ. lia.
    + right. rewrite (proj2 (Z.ltb_lt _ _)) by lia. apply list_elem_of_fmap. exists x. split; [done|]. apply elem_of_seqZ. lia.
Qed.

(** The guest's bitmap after the writes; what they leave is [old]. *)
Definition image (ws : list (Z * Z)) (old : Z -> Z) (i : Z) : Z := default (old i) ((list_to_map (reverse ws) : gmap Z Z) !! i).

Lemma image_spec ws old i : (forall v v', (i, v) ∈ ws -> (i, v') ∈ ws -> v = v') ->
  (forall v, (i, v) ∈ ws -> image ws old i = v) /\ ((forall v, (i, v) ∉ ws) -> image ws old i = old i).
Proof.
  intros Hu. unfold image. split.
  - intros v Hv. assert ((list_to_map (reverse ws) : gmap Z Z) !! i = Some v) as ->; [|done]. apply elem_of_list_to_map_1'; [|by apply elem_of_reverse].
    intros v' Hv'. rewrite elem_of_reverse in Hv'. exact (Hu _ _ Hv Hv').
  - intros Hn. rewrite not_elem_of_list_to_map_1; [done|]. intros ([i' v] & -> & Hv)%list_elem_of_fmap. apply (Hn v). by rewrite elem_of_reverse in Hv.
Qed.

(** A glyph fills the guest's bitmap exactly: when the glyph is not wider than the
    stride, every write is inside the buffer of stride times height, each row has the
    glyph's pixels and zeros behind them, and the rows below the glyph are left. *)
Theorem glyph_image_exact b st ht old :
  0 <= bm_width b <= st -> 0 <= bm_rows b -> 0 <= ht -> st * ht < 2 ^ 32 ->
  Forall (fun w => 0 <= w.1 < st * ht) (glyph_writes b st ht) /\
  forall x y, 0 <= x < st -> 0 <= y < ht ->
    image (glyph_writes b st ht) old (y * st + x) =
      if y <? bm_rows b then (if x <? bm_width b then bm_buffer b (u32 (y * bm_pitch b) + x) else 0) else old (y * st + x).
Proof.
  intros Hw Hr Hh Hsm.
  assert (forall i v, (i, v) ∈ glyph_writes b st ht <-> exists y x, 0 <= y < Z.min (bm_rows b) ht /\ 0 <= x < st /\ i = y * st + x /\
    v = if x <? bm_width b then bm_buffer b (u32 (y * bm_pitch b) + x) else 0) as Hel.
  { intros i v. unfold glyph_writes. rewrite list_elem_of_bind. split.
    - intros (y & H & Hy%elem_of_seqZ). apply elem_row_writes in H as (x & Hx & -> & ->); [|lia|nia|done]. exists y, x. split_and!; try done; lia.
    - intros (y & x & Hy & Hx & -> & ->). exists y. split; [|apply elem_of_seqZ; lia]. apply elem_row_writes; [lia|nia|done|]. by exists x. }
  split.
  - apply Forall_forall. intros [i v] (y & x & Hy & Hx & -> & _)%Hel. cbn [fst]. nia.
  - intros x y Hx Hy. assert (forall y' x', 0 <= y' -> 0 <= x' < st -> y * st + x = y' * st + x' -> y = y' /\ x = x') as Hinj.
    { intros y' x' H1 H2 H3. assert (y = y') by nia. nia. }
    destruct (image_spec (glyph_writes b st ht) old (y * st + x)) as [H1 H2].
    { intros v v' (y1 & x1 & Hy1 & Hx1 & E1 & ->)%Hel (y2 & x2 & Hy2 & Hx2 & E2 & ->)%Hel.
      destruct (Hinj y1 x1 ltac:(lia) Hx1 E1) as [<- <-]. by destruct (Hinj y2 x2 ltac:(lia) Hx2 E2) as [<- <-]. }
    destruct (Z.ltb_spec y (bm_rows b)).
    + apply H1. apply Hel. exists y, x. split_and!; try done; lia.
    + apply H2. intros v (y1 & x1 & Hy1 & Hx1 & E1 & _)%Hel. destruct (Hinj y1 x1 ltac:(lia) Hx1 E1) as [<- _]. lia.
Qed.

(** A glyph wider than the stride is copied in whole: the last row ends behind the
    buffer. *)
Lemma glyph_over_write : exists w, w ∈ glyph_writes (mkBitmap 1 9 9 (fun _ => 255)) 8 1 /\ w.1 = 8.
Proof. exists (8, 255). split; [|done]. apply list_elem_of_In. vm_compute. tauto. Qed.

(** Sessions of the library, with the faces that FreeType made and was told to drop. *)
Inductive fsession : t -> list Z -> list Z -> Prop :=
  | f_start : fsession initial [] []
  | f_create lib face out data s s' r o made dropped : fsession s made dropped ->
      (forall f, face = Some f -> f ∉ made) -> sceFontCreateLibraryFromMemory lib face out data s = (s', r, o) ->
      fsession s' (match o, face with Some _, Some f => f :: made | _, _ => made end) dropped
  | f_destroy h s s' r o made dropped : fsession s made dropped -> sceFontDestroyLibrary h s = (s', r, o) ->
      fsession s' made (match o with Some f => f :: dropped | None => dropped end).

(** Faces are dropped once: in any session, where FreeType gives each face out once, the
    faces made are exactly those of the handles that are there and those dropped, and no
    face is twice among these. *)
Theorem faces_dropped_once s made dropped : fsession s made dropped ->
  made ≡ₚ (map_to_list (g_fonts s)).*2 ++ dropped /\ NoDup made.
Proof.
  intros H. assert (made ≡ₚ (map_to_list (g_fonts s)).*2 ++ dropped /\ NoDup made /\
    forall h, is_Some (g_fonts s !! h) -> h < g_nextHandle s) as (H1 & H2 & _); [|done].
  induction H as [|lib face out data s s' r o made dropped _ (IH1 & IH2 & IH3) Hf Hc|h s s' r o made dropped _ (IH1 & IH2 & IH3) Hd].
  - split_and!; [done|constructor|]. intros h [x Hx]. cbn [g_fonts initial] in Hx. by rewrite lookup_empty in Hx.
  - unfold sceFontCreateLibraryFromMemory in Hc. destruct data as [n|]; [|by injection Hc as <- _ <-].
    destruct (_ || _); [by injection Hc as <- _ <-|]. destruct (negb _); [by injection Hc as <- _ <-|]. destruct face as [f|]; [|by injection Hc as <- _ <-].
    injection Hc as <- _ <-. cbn [g_fonts g_nextHandle].
    assert (g_fonts s !! g_nextHandle s = None) as Hn. { destruct (g_fonts s !! g_nextHandle s) eqn:E; [|done]. specialize (IH3 (g_nextHandle s) ltac:(eauto)). lia. }
    split_and!.
    + rewrite map_to_list_insert by done. cbn. by rewrite IH1.
    + apply NoDup_cons. split; [by apply Hf|done].
    + intros h [x [[<- _]|[_ Hx]]%lookup_insert_Some]; [lia|]. specialize (IH3 h ltac:(eauto)). lia.
  - unfold sceFontDestroyLibrary in Hd. destruct (h =? 0); [by injection Hd as <- _ <-|]. destruct (g_fonts s !! h) as [f|] eqn:E; [|by injection Hd as <- _ <-].
    injection Hd as <- _ <-. cbn [g_fonts g_nextHandle]. split_and!; [|done|].
    + rewrite IH1, <- (map_to_list_delete _ _ _ E). cbn. apply Permutation_middle.
    + intros k [x [_ Hx]%lookup_delete_Some]. apply IH3. eauto.
Qed.
End Glyphs.
Lemma glyph_image_exact_witness : image (SceFont.glyph_writes (SceFont.mkBitmap 1 2 2 (fun i => 100 + i)) 3 2) (fun _ => 7) 2 = 0.
Proof. exact (proj2 (glyph_image_exact (SceFont.mkBitmap 1 2 2 (fun i => 100 + i)) 3 2 (fun _ => 7) ltac:(cbn; lia) ltac:(cbn; lia) ltac:(lia) ltac:(lia)) 2 0 ltac:(lia) ltac:(lia)). Defined.
Lemma faces_dropped_once_witness : exists s, fsession s [5] [5] /\ NoDup [5].
Proof.
  set (s1 := SceFont.mkFonts true {[1 := 5]} 2). assert (fsession s1 [5] []) as H1.
  { refine (f_create true (Some 5) true (Some 10) SceFont.initial s1 0 (Some 1) [] [] f_start _ _); [|reflexivity]. intros f _ Hf. by apply elem_of_nil in Hf. }
  assert (exists s2, SceFont.sceFontDestroyLibrary 1 s1 = (s2, 0, Some 5)) as [s2 H2] by (eexists; reflexivity).
  pose proof (f_destroy 1 s1 s2 0 (Some 5) [5] [] H1 H2) as H. exists s2. split; [exact H|].
  exact (proj2 (faces_dropped_once _ _ _ H)).
Defined.
