(* ===== verification/LogOutput.v ===== *)
(** * The log and the report on it

    [debug/Log.cpp] writes lines to standard error and to a file;
    [tools/fs4-unimpl-report/main.cpp] reads such a file and counts the unimplemented
    calls in it.  What the report makes of a log that the runtime wrote is the subject of
    the last theorem. *)
From stdpp Require Import sorting.
From S2P Require Import Prelude Diagnostics.

(** ** Log.cpp and the macros of Log.hpp *)
Module LogOutput.
Definition levelNames : list string := [
  "TRACE"%string; "DEBUG"%string; "INFO"%string; "WARN"%string; "ERROR"%string; "FATAL"%string].
Definition kError : Z := 4.
Definition name_in (l : list string) (i : nat) : bytes := from_option cstr (cstr "?") (l !! i).
Definition logLevelName (l : Z) : bytes := name_in levelNames (Z.to_nat l).
Definition logCategoryName (c : nat) : bytes := name_in Log.categoryNames c.

(** The host's clock, as [localtime_r] and the remainder give it. *)
Record Clock := mkClock { tm_hour : Z; tm_min : Z; tm_sec : Z; ms : Z }.
Definition pad (w : nat) (v : Z) : bytes := let d := to_string v in replicate (w - length d) 48 ++ d.
Definition nowTimestamp (k : Clock) : bytes :=
  pad 2 (tm_hour k) ++ cstr ":" ++ pad 2 (tm_min k) ++ cstr ":" ++ pad 2 (tm_sec k) ++ cstr "." ++ pad 3 (ms k).

(** [s_file] is the path of the file that is open for writing; [disk] what files hold. *)
Record t := mkOut { s_filter : Log.t; s_file : option bytes; s_ownFile : bool; s_toStderr : bool; out_stderr : bytes; disk : gmap bytes bytes }.
Definition with_filter f (s : t) : t := mkOut f (s_file s) (s_ownFile s) (s_toStderr s) (out_stderr s) (disk s).
Definition with_file f own d (s : t) : t := mkOut (s_filter s) f own (s_toStderr s) (out_stderr s) d.

Definition init (env : option bytes) (s : t) : t := mkOut (Log.init env) None false true (out_stderr s) (disk s).
Definition shutdown (s : t) : t := with_file None false (disk s) s.
(** [opens]: whether the host opens the file. *)
Definition setOutputFile (path : bytes) (opens : bool) (s : t) : t :=
  let own := if s_ownFile s && bool_decide (is_Some (s_file s)) then false else s_ownFile s in
  if opens then with_file (Some path) true (<[path := []]> (disk s)) s else with_file None own (disk s) s.
Definition setToStderr (b : bool) (s : t) : t := mkOut (s_filter s) (s_file s) (s_ownFile s) b (out_stderr s) (disk s).
Definition setMinLevel (l : Z) (s : t) : t := with_filter (Log.setMinLevel l (s_filter s)) s.
Definition setCategoryEnabled (c : nat) (b : bool) (s : t) : t := with_filter (Log.setCategoryEnabled c b (s_filter s)) s.

(** A line without its end. *)
Definition line (k : Clock) (lvl : Z) (c : nat) (msg : bytes) : bytes :=
  (cstr "[" ++ nowTimestamp k) ++ cstr "][" ++ logLevelName lvl ++ cstr "][" ++ logCategoryName c ++ cstr "] " ++ msg.
Definition newline : Z := 10.
Definition put (text : bytes) (s : t) : t :=
  mkOut (s_filter s) (s_file s) (s_ownFile s) (s_toStderr s)
    (if s_toStderr s then out_stderr s ++ text else out_stderr s)
    (match s_file s with Some p => <[p := default [] (disk s !! p) ++ text]> (disk s) | None => disk s end).
Definition write (k : Clock) (lvl : Z) (c : nat) (msg : bytes) (s : t) : t :=
  if lvl <? Log.s_minLevel (s_filter s) then s
  else if negb (default false (Log.s_catEnabled (s_filter s) !! c)) then s
  else put (line k lvl c msg ++ [newline]) s.
Definition FP4_LOG (k : Clock) (c : nat) (lvl : Z) (msg : bytes) (s : t) : t :=
  if negb (Log.isEnabled lvl c (s_filter s)) then s else write k lvl c msg s.
Definition FP4_UNIMPLEMENTED (k : Clock) (c : nat) (fn : bytes) (s : t) : t := write k kError c (cstr "UNIMPLEMENTED: " ++ fn) s.
End LogOutput.

(** ** fs4-unimpl-report *)
Module UnimplReport.
Definition pattern : bytes := cstr "UNIMPLEMENTED".
(** [getline]: a last line that is empty is not read. *)
Fixpoint lines_from (acc s : bytes) : list bytes :=
  match s with
  | [] => match acc with [] => [] | _ => [acc] end
  | c :: s => if c =? LogOutput.newline then acc :: lines_from [] s else lines_from (acc ++ [c]) s
  end.
Definition getlines (s : bytes) : list bytes := lines_from [] s.
Fixpoint find_first_of (cs s : bytes) : option nat :=
  match s with [] => None | c :: s => if bool_decide (c ∈ cs) then Some 0%nat else S <$> find_first_of cs s end.
Definition key_of (l : bytes) : option bytes :=
  pos ← find_str pattern l;
  let tail := drop pos l in
  Some (match find_first_of (cstr " (") tail with Some cut => take cut tail | None => tail end).
Definition count_line (m : gmap bytes Z) (l : bytes) : gmap bytes Z :=
  match key_of l with Some k => <[k := u64 (default 0 (m !! k) + 1)]> m | None => m end.
Definition counts (text : bytes) : gmap bytes Z := foldl count_line ∅ (getlines text).
(** The order of entries with equal counts is not specified by [std::sort]. *)
Definition more (a b : bytes * Z) : Prop := b.2 <= a.2.
#[export] Instance more_dec : RelDecision more.
Proof. intros a b. apply Z_le_dec. Defined.
Definition sorted (text : bytes) : list (bytes * Z) := merge_sort more (map_to_list (counts text)).
End UnimplReport.

(** ** Sessions *)
Section Sessions.
Import LogOutput.

(** What the runtime does with the log between opening the file and the end. *)
Inductive Op :=
  | MinLevel (l : Z)
  | Category (c : nat) (b : bool)
  | ToStderr (b : bool)
  | Logs (c : nat) (lvl : Z) (msg : bytes)
  | Unimplemented (c : nat) (fn : bytes).

Definition step (o : Clock * Op) (s : t) : t :=
  match o.2 with
  | MinLevel l => setMinLevel l s
  | Category c b => setCategoryEnabled c b s
  | ToStderr b => setToStderr b s
  | Logs c lvl msg => FP4_LOG o.1 c lvl msg s
  | Unimplemented c fn => FP4_UNIMPLEMENTED o.1 c fn s
  end.
Definition run (ops : list (Clock * Op)) (s : t) : t := foldl (fun s o => step o s) s ops.

(** What a step does to the filter, and what it asks to be written. *)
Definition refilter (o : Op) (f : Log.t) : Log.t :=
  match o with MinLevel l => Log.setMinLevel l f | Category c b => Log.setCategoryEnabled c b f | _ => f end.
Definition asked (o : Op) : option (Z * nat * bytes) :=
  match o with
  | Logs c lvl msg => Some (lvl, c, msg)
  | Unimplemented c fn => Some (kError, c, cstr "UNIMPLEMENTED: " ++ fn)
  | _ => None
  end.
(** The operations whose line the filter lets through, in order. *)
Fixpoint passed (ops : list (Clock * Op)) (f : Log.t) : list (Clock * Op) :=
  match ops with
  | [] => []
  | o :: ops =>
      let rest := passed ops (refilter o.2 f) in
      match asked o.2 with Some (lvl, c, _) => if Log.isEnabled lvl c f then o :: rest else rest | None => rest end
  end.
Definition line_of (o : Clock * Op) : bytes := match asked o.2 with Some (lvl, c, msg) => line o.1 lvl c msg | None => [] end.
Definition text_of (os : list (Clock * Op)) : bytes := concat ((fun o => line_of o ++ [newline]) <$> os).

Lemma write_spec k lvl c msg s : write k lvl c msg s = if Log.isEnabled lvl c (s_filter s) then put (line k lvl c msg ++ [newline]) s else s.
Proof. unfold write, Log.isEnabled. destruct (lvl <? _); [done|]. cbn [negb andb]. by destruct (default _ _). Qed.
Lemma step_spec o s :
  step o s = let s' := with_filter (refilter o.2 (s_filter s)) (match o.2 with ToStderr b => setToStderr b s | _ => s end) in
             match asked o.2 with Some (lvl, c, _) => if Log.isEnabled lvl c (s_filter s) then put (line_of o ++ [newline]) s' else s' | None => s' end.
Proof.
  destruct o as [k o], s. destruct o; unfold step, line_of; cbn; try done.
  - unfold FP4_LOG. rewrite write_spec. cbn [s_filter]. by destruct (Log.isEnabled _ _ _).
  - unfold FP4_UNIMPLEMENTED. rewrite write_spec. cbn [s_filter]. by destruct (Log.isEnabled _ _ _).
Qed.

Lemma step_file o s path : s_file s = Some path ->
  s_filter (step o s) = refilter o.2 (s_filter s) /\ s_file (step o s) = Some path /\
  (disk (step o s) = disk s /\ passed [o] (s_filter s) = [] \/
   disk (step o s) = <[path := default [] (disk s !! path) ++ line_of o ++ [newline]]> (disk s) /\ passed [o] (s_filter s) = [o]).
Proof.
  intros Hf. rewrite step_spec. cbv zeta. cbn [passed].
  assert (s_file (match o.2 with ToStderr b => setToStderr b s | _ => s end) = Some path /\
          disk (match o.2 with ToStderr b => setToStderr b s | _ => s end) = disk s) as [Ha Hb] by (by destruct o.2).
  destruct (asked o.2) as [[[lvl c] m]|]; [destruct (Log.isEnabled _ _ _)|]; cbn [s_filter with_filter put s_file disk];
    rewrite ?Ha, ?Hb; (split_and!; [done|done|]); [by right|by left|by left].
Qed.
Lemma passed_cons o ops f : passed (o :: ops) f = passed [o] f ++ passed ops (refilter o.2 f).
Proof. cbn [passed]. destruct (asked o.2) as [[[lvl c] m]|]; [by destruct (Log.isEnabled _ _ _)|done]. Qed.
Lemma text_of_app l k : text_of (l ++ k) = text_of l ++ text_of k.
Proof. unfold text_of. by rewrite fmap_app, concat_app. Qed.

Lemma run_file ops path s x : s_file s = Some path -> disk s !! path = Some x ->
  disk (run ops s) !! path = Some (x ++ text_of (passed ops (s_filter s))) /\
  (forall q, q <> path -> disk (run ops s) !! q = disk s !! q).
Proof.
  revert s x. induction ops as [|o ops IH]; intros s x Hf Hx. { cbn. by rewrite app_nil_r. }
  change (run (o :: ops) s) with (run ops (step o s)). destruct (step_file o s path Hf) as (Hfil & Hf' & Hd).
  rewrite passed_cons, text_of_app, <- Hfil. destruct Hd as [[Hd ->]|[Hd ->]].
  - destruct (IH (step o s) x Hf') as [H1 H2]; [by rewrite Hd|]. rewrite H1. split; [done|]. intros q Hq. by rewrite H2, Hd.
  - destruct (IH (step o s) (x ++ line_of o ++ [newline]) Hf') as [H1 H2]; [rewrite Hd, Hx; apply lookup_insert_eq|].
    rewrite H1. split; [unfold text_of at 2; cbn; by rewrite app_nil_r, <- app_assoc|]. intros q Hq. by rewrite H2, Hd, lookup_insert_ne.
Qed.

(** The file holds exactly the lines that the filter let through since it was opened, in
    order, whatever the file held before; no other file is touched. *)
Theorem log_exact ops path s :
  let s' := run ops (setOutputFile path true s) in
  disk s' !! path = Some (text_of (passed ops (s_filter s))) /\ forall q, q <> path -> disk s' !! q = disk s !! q.
Proof.
  intros s'. destruct (run_file ops path (setOutputFile path true s) [] eq_refl (lookup_insert_eq _ _ _)) as [H1 H2].
  split; [exact H1|]. intros q Hq. rewrite H2 by done. by apply lookup_insert_ne.
Qed.
End Sessions.

(** ** The report *)
Section Reports.
Import LogOutput UnimplReport.

Lemma lines_from_cut acc l rest : newline ∉ l -> lines_from acc (l ++ newline :: rest) = (acc ++ l) :: lines_from [] rest.
Proof.
  revert acc. induction l as [|c l IH]; intros acc Hn; cbn [app lines_from]; [by rewrite Z.eqb_refl, app_nil_r|].
  apply not_elem_of_cons in Hn as [Hc Hn]. rewrite (proj2 (Z.eqb_neq _ _)) by congruence. rewrite IH by done. by rewrite <- app_assoc.
Qed.
Lemma getlines_concat ls : Forall (fun l => newline ∉ l) ls -> getlines (concat ((fun l => l ++ [newline]) <$> ls)) = ls.
Proof.
  unfold getlines. induction 1 as [|l ls Hl _ IH]; [done|]. cbn [fmap list_fmap concat]. rewrite <- app_assoc. cbn [app].
  rewrite lines_from_cut by done. f_equal. exact IH.
Qed.

(** Looking for a string past a character that is not in it. *)
Lemma find_str_sep (pat pre : bytes) c s : c ∉ pat -> find_str pat pre = None ->
  find_str pat (pre ++ c :: s) = (fun k => length pre + 1 + k)%nat <$> find_str pat s.
Proof.
  intros Hc. induction pre as [|x pre IH]; intros Hn.
  - cbn [app find_str]. rewrite bool_decide_eq_false_2; [by destruct (find_str pat s)|]. intros E.
    destruct pat as [|y pat]; [done|]. injection E as -> _. by apply Hc; left.
  - cbn [find_str] in Hn. destruct (bool_decide (pat = take (length pat) (x :: pre))) eqn:Hd; [done|]. apply bool_decide_eq_false in Hd.
    cbn [app find_str]. rewrite bool_decide_eq_false_2.
    + rewrite IH by (by destruct (find_str pat pre)). by destruct (find_str pat s).
    + intros E. destruct (decide (length pat <= length (x :: pre))%nat) as [Hl|Hl].
      * apply Hd. rewrite E at 1. change (x :: pre ++ c :: s) with ((x :: pre) ++ c :: s). by rewrite take_app_le.
      * apply Hc. rewrite E. apply list_elem_of_lookup. exists (length (x :: pre)).
        change (x :: pre ++ c :: s) with ((x :: pre) ++ c :: s). rewrite lookup_take_lt by lia.
        rewrite lookup_app_r by lia. by rewrite Nat.sub_diag.
Qed.
Lemma find_str_none (pat s : bytes) : pat <> [] -> Forall (fun c => c ∉ pat) s -> find_str pat s = None.
Proof.
  intros Hne. induction 1 as [|c s Hc _ IH]; cbn [find_str].
  - rewrite bool_decide_eq_false_2; [done|]. intros E. apply Hne. by rewrite E, take_nil.
  - rewrite bool_decide_eq_false_2; [by rewrite IH|]. intros E. destruct pat as [|y pat]; [done|]. injection E as -> _. by apply Hc; left.
Qed.

Definition digit (c : Z) : Prop := 48 <= c < 58.
Lemma dec_digits_digits fuel n : Forall digit (dec_digits fuel n).
Proof.
  revert n. induction fuel as [|fuel IH]; intros n; cbn [dec_digits]; [constructor|]. apply Forall_app. split.
  - destruct (n <? 10); [constructor|apply IH].
  - constructor; [unfold digit; dm_lia|constructor].
Qed.
Lemma pad_digits w v : Forall digit (pad w v).
Proof. unfold pad. apply Forall_app. split; [apply Forall_replicate; unfold digit; lia|apply dec_digits_digits]. Qed.
(** No character of the stamp, or of the names after it, takes part in the pattern. *)
Lemma stamp_chars k : Forall (fun c => c ∉ pattern) (cstr "[" ++ nowTimestamp k).
Proof.
  assert (forall c, 46 <= c <= 58 \/ c = 91 -> c ∉ pattern) as Hc.
  { intros c Hc H. assert (65 <= c <= 85) as ?; [|lia]. clear Hc. revert c H. apply Forall_forall. decided. }
  apply (Forall_impl (fun c => 46 <= c <= 58 \/ c = 91)); [|exact Hc].
  assert (forall w v, Forall (fun c => 46 <= c <= 58 \/ c = 91) (pad w v)) as Hp.
  { intros w v. eapply Forall_impl; [apply pad_digits|]. unfold digit. intros; lia. }
  unfold nowTimestamp. rewrite !Forall_app. split_and!; try apply Hp; repeat constructor; cbn; lia.
Qed.
Lemma names_clean lvl c : find_str pattern (cstr "[" ++ logLevelName lvl ++ cstr "][" ++ logCategoryName c ++ cstr "]") = None.
Proof.
  assert (Forall (fun l => Forall (fun n => find_str pattern (cstr "[" ++ cstr l ++ cstr "][" ++ cstr n ++ cstr "]") = None)
            ("?"%string :: Log.categoryNames)) ("?"%string :: levelNames)) as H.
  { repeat constructor. }
  assert (forall l i, exists n, n ∈ "?"%string :: l /\ name_in l i = cstr n) as Hin.
  { intros l i. unfold name_in. destruct (l !! i) as [n|] eqn:E; [exists n|exists "?"%string]; (split; [|done]); [|by left].
    right. by eapply list_elem_of_lookup_2. }
  unfold logLevelName, logCategoryName. destruct (Hin levelNames (Z.to_nat lvl)) as (a & Ha & ->). destruct (Hin Log.categoryNames c) as (b & Hb & ->).
  rewrite Forall_forall in H. specialize (H a Ha). rewrite Forall_forall in H. by apply H.
Qed.
Lemma find_line k lvl c msg : find_str pattern (line k lvl c msg) = (fun p => length (line k lvl c []) + p)%nat <$> find_str pattern msg.
Proof.
  unfold line. set (n := logLevelName lvl). set (g := logCategoryName c).
  replace (cstr "][" ++ n ++ cstr "][" ++ g ++ cstr "] " ++ msg) with (93 :: (cstr "[" ++ n ++ cstr "][" ++ g ++ cstr "]") ++ 32 :: msg)
    by (by rewrite <- ?app_assoc).
  assert (forall c, c = 93 \/ c = 32 -> c ∉ pattern) as Hsep.
  { intros x Hx. destruct Hx as [-> | ->]; decided. }
  rewrite find_str_sep; [|apply Hsep; by left|apply find_str_none; [discriminate|apply stamp_chars]].
  rewrite find_str_sep; [|apply Hsep; by right|apply names_clean]. destruct (find_str pattern msg) as [p|]; [|done]. cbn [fmap option_fmap option_map]. f_equal.
  rewrite ?length_app. cbn [length cstr app]. rewrite ?length_app. cbn [length cstr app]. lia.
Qed.

(** The key of a line of [FP4_UNIMPLEMENTED] is the same whatever the function. *)
Lemma key_of_unimplemented k lvl c fn : key_of (line k lvl c (cstr "UNIMPLEMENTED: " ++ fn)) = Some (cstr "UNIMPLEMENTED:").
Proof.
  unfold key_of. rewrite find_line. change (find_str pattern (cstr "UNIMPLEMENTED: " ++ fn)) with (Some 0%nat).
  cbn [fmap option_fmap option_map mbind option_bind]. rewrite Nat.add_0_r.
  assert (line k lvl c (cstr "UNIMPLEMENTED: " ++ fn) = line k lvl c [] ++ cstr "UNIMPLEMENTED: " ++ fn) as ->.
  { unfold line. by rewrite <- ?app_assoc. }
  rewrite drop_app_length. reflexivity.
Qed.
Lemma key_of_other k lvl c msg : find_str pattern msg = None -> key_of (line k lvl c msg) = None.
Proof. intros H. unfold key_of. rewrite find_line. by rewrite H. Qed.

(** The keys of a text, in order, and how often one occurs. *)
Definition keys (text : bytes) : list bytes := omap key_of (getlines text).
Definition occurs (k : bytes) (ks : list bytes) : nat := length (filter (eq k) ks).
Lemma occurs_snoc k ks x : occurs k (ks ++ [x]) = (occurs k ks + if decide (k = x) then 1 else 0)%nat.
Proof. unfold occurs. rewrite filter_app, length_app. f_equal. destruct (decide _); [by rewrite filter_cons_True|by rewrite filter_cons_False]. Qed.
Lemma occurs_pos k ks : k ∈ ks <-> (0 < occurs k ks)%nat.
Proof.
  unfold occurs. split.
  - intros H. assert (k ∈ filter (eq k) ks) as H' by (by apply list_elem_of_filter). destruct (filter _ _); [by apply elem_of_nil in H'|cbn; lia].
  - intros H. destruct (filter (eq k) ks) as [|y l] eqn:E; [cbn in H; lia|]. assert (y ∈ filter (eq k) ks) as Hy by (rewrite E; by left).
    apply list_elem_of_filter in Hy as [<- Hy]. done.
Qed.

Lemma occurs_all k ks : Forall (eq k) ks -> occurs k ks = length ks.
Proof. unfold occurs. induction 1 as [|x ks <- _ IH]; [done|]. rewrite filter_cons_True by done. cbn. by rewrite IH. Qed.

Lemma counts_exact ls : Z.of_nat (length ls) < 2 ^ 64 -> let m := foldl count_line ∅ ls in let ks := omap key_of ls in
  (forall k, default 0 (m !! k) = Z.of_nat (occurs k ks)) /\ (forall k, is_Some (m !! k) <-> k ∈ ks) /\
  map_fold (fun _ n x => x + n) 0 m = Z.of_nat (length ks).
Proof.
  induction ls as [|l ls IH] using rev_ind; intros Hlen m ks.
  { subst m ks. cbn. split_and!; [done| |done]. intros k. split; [by intros [? ?]|by intros ?%elem_of_nil]. }
  rewrite length_app in Hlen. cbn in Hlen. destruct IH as (H1 & H2 & H3); [lia|].
  subst m ks. rewrite foldl_app, omap_app. cbn [foldl omap list_omap]. unfold count_line at 1 3 5. destruct (key_of l) as [x|]; [|rewrite app_nil_r; done].
  set (m := foldl count_line ∅ ls) in *. set (ks := omap key_of ls) in *.
  assert (occurs x ks <= length ls)%nat as Ho.
  { etrans; [apply length_filter|]. unfold ks. clear. induction ls as [|l ls IH]; [done|]. cbn. destruct (key_of l); cbn; lia. }
  assert (u64 (default 0 (m !! x) + 1) = Z.of_nat (occurs x ks) + 1) as -> by (rewrite H1; unfold wrap; apply Z.mod_small; lia).
  split_and!.
  - intros k. rewrite occurs_snoc. destruct (decide (k = x)) as [->|Hne]; [rewrite lookup_insert_eq; cbn; lia|]. rewrite lookup_insert_ne by done. rewrite H1. lia.
  - intros k. rewrite elem_of_app, <- H2, list_elem_of_singleton.
    destruct (decide (k = x)) as [->|Hne]; [rewrite lookup_insert_eq; split; [by right|by eexists]|rewrite lookup_insert_ne by done; split; [by left|by intros [|]]].
  - rewrite length_app. cbn [length]. rewrite <- insert_delete_eq, map_fold_insert_L by (intros; try lia; apply lookup_delete_eq).
    assert (map_fold (fun _ n x => x + n) 0 m = Z.of_nat (occurs x ks) + map_fold (fun _ n x => x + n) 0 (delete x m)) as Hdel; [|lia].
    rewrite <- H1. destruct (m !! x) as [n|] eqn:E; cbn; [|by rewrite delete_id].
    rewrite <- (insert_delete_id _ _ _ E) at 1. rewrite map_fold_insert_L by (intros; try lia; apply lookup_delete_eq). lia.
Qed.

Lemma report_exact text : Z.of_nat (length (getlines text)) < 2 ^ 64 ->
  (forall k n, (k, n) ∈ sorted text <-> k ∈ keys text /\ n = Z.of_nat (occurs k (keys text))) /\
  NoDup (sorted text).*1 /\ Sorted more (sorted text) /\ zsum snd (sorted text) = Z.of_nat (length (keys text)).
Proof.
  intros Hlen. destruct (counts_exact (getlines text) Hlen) as (H1 & H2 & H3). fold (counts text) (keys text) in H1, H2, H3.
  assert (sorted text ≡ₚ map_to_list (counts text)) as Hp by apply merge_sort_Permutation.
  split_and!.
  - intros k n. rewrite Hp, elem_of_map_to_list, <- H2. split.
    + intros E. split; [by eexists|]. specialize (H1 k). by rewrite E in H1.
    + intros [[x E] ->]. rewrite E. f_equal. specialize (H1 k). by rewrite E in H1.
  - rewrite Hp. apply NoDup_fst_map_to_list.
  - apply Sorted_merge_sort. intros a b. unfold more. lia.
  - rewrite <- H3. assert (forall l l' : list (bytes * Z), l ≡ₚ l' -> zsum snd l = zsum snd l') as Hz.
    { induction 1 as [|x l l' _ IH|x y l|l l' l'' _ IH _ IH']; cbn; lia. }
    rewrite (Hz _ _ Hp). rewrite map_fold_foldr. clear. induction (map_to_list (counts text)) as [|[k n] l IH]; [done|]. cbn. rewrite IH. lia.
Qed.

(** The tool counts right: each key that a line of the log has is listed once, with the
    number of the lines that have it, the most frequent first, and the counts add up to
    the number of lines that speak of an unimplemented call. *)
Theorem report_counts text : Z.of_nat (length (getlines text)) < 2 ^ 64 ->
  (forall k n, (k, n) ∈ sorted text <-> k ∈ keys text /\ n = Z.of_nat (occurs k (keys text))) /\
  NoDup (sorted text).*1 /\ Sorted more (sorted text) /\ zsum snd (sorted text) = Z.of_nat (length (keys text)).
Proof. apply report_exact. Qed.
End Reports.

(** ** The report on a log of the runtime *)
Section Collapse.
Import LogOutput UnimplReport.

Definition is_unimplemented (o : Clock * Op) : bool := match o.2 with Unimplemented _ _ => true | _ => false end.

(** The lines of a message, at least one, and the keys that they have. *)
Definition message_lines (msg : bytes) : list bytes := getlines (msg ++ [newline]).
Definition message_keys (msg : bytes) : list bytes := omap key_of (message_lines msg).
(** What the report makes of an operation: of a call of the macro the one key that does
    not name the function - and what further lines of the name say; of any other message
    what its lines say. *)
Definition told (o : Clock * Op) : list bytes :=
  match o.2 with
  | Logs _ _ msg => message_keys msg
  | Unimplemented _ fn => cstr "UNIMPLEMENTED:" :: omap key_of (tail (message_lines fn))
  | _ => []
  end.

Lemma line_no_newline k lvl c msg : newline ∉ msg -> newline ∉ line k lvl c msg.
Proof.
  intros Hm. unfold line. rewrite !not_elem_of_app. split_and!; [decided| |decided| |
    decided| |decided|done].
  - unfold nowTimestamp. rewrite !not_elem_of_app.
    assert (forall w v, newline ∉ pad w v) as Hp.
    { intros w v H. pose proof (pad_digits w v) as Hd. rewrite Forall_forall in Hd. specialize (Hd _ H). unfold digit, newline in Hd. lia. }
    split_and!; first [apply Hp|decided].
  - unfold logLevelName, name_in. destruct (levelNames !! _) as [n|] eqn:E; [|decided].
    apply list_elem_of_lookup_2 in E. revert n E. apply Forall_forall. by repeat constructor; apply (bool_decide_unpack _).
  - unfold logCategoryName, name_in. destruct (Log.categoryNames !! _) as [n|] eqn:E; [|decided].
    apply list_elem_of_lookup_2 in E. revert n E. apply Forall_forall. by repeat constructor; apply (bool_decide_unpack _).
Qed.

Lemma lines_from_app acc s rest : lines_from acc (s ++ newline :: rest) = lines_from acc (s ++ [newline]) ++ getlines rest.
Proof.
  revert acc. induction s as [|c s IH]; intros acc; cbn [app lines_from]; [by rewrite Z.eqb_refl|].
  destruct (c =? newline); [by rewrite IH|apply IH].
Qed.
Lemma lines_from_first msg : exists l ls, message_lines msg = l :: ls /\ forall acc, lines_from acc (msg ++ [newline]) = (acc ++ l) :: ls.
Proof.
  unfold message_lines, getlines. induction msg as [|c msg (l & ls & H0 & H)]; cbn [app lines_from].
  - rewrite Z.eqb_refl. exists [], []. split; [done|]. intros acc. by rewrite app_nil_r.
  - destruct (c =? newline).
    + exists [], (lines_from [] (msg ++ [newline])). split; [done|]. intros acc. by rewrite app_nil_r.
    + exists (c :: l), ls. rewrite H. split; [done|]. intros acc. by rewrite H, <- app_assoc.
Qed.
Lemma lines_from_pre acc pre s : newline ∉ pre -> lines_from acc (pre ++ s) = lines_from (acc ++ pre) s.
Proof.
  revert acc. induction pre as [|c pre IH]; intros acc Hn; cbn [app lines_from]; [by rewrite app_nil_r|].
  apply not_elem_of_cons in Hn as [Hc Hn]. rewrite (proj2 (Z.eqb_neq _ _)) by congruence. rewrite IH by done. by rewrite <- app_assoc.
Qed.
(** The stamp in front of a line does not count. *)
Lemma key_of_line k lvl c msg : key_of (line k lvl c msg) = key_of msg.
Proof.
  unfold key_of. rewrite find_line. destruct (find_str pattern msg) as [p|]; [|done]. cbn [fmap option_fmap option_map mbind option_bind].
  assert (line k lvl c msg = line k lvl c [] ++ msg) as -> by (unfold line; by rewrite <- ?app_assoc).
  by rewrite drop_app, drop_ge, Nat.add_comm, Nat.add_sub by lia.
Qed.
Lemma keys_of_line k lvl c msg : omap key_of (getlines (line k lvl c msg ++ [newline])) = message_keys msg.
Proof.
  assert (line k lvl c msg = line k lvl c [] ++ msg) as -> by (unfold line; by rewrite <- ?app_assoc).
  unfold message_keys, getlines. destruct (lines_from_first msg) as (l & ls & -> & H). rewrite <- app_assoc.
  rewrite lines_from_pre by (apply line_no_newline; apply not_elem_of_nil). rewrite H. cbn [app omap list_omap].
  assert (line k lvl c [] ++ l = line k lvl c l) as -> by (unfold line; by rewrite <- ?app_assoc). by rewrite key_of_line.
Qed.
Lemma keys_of_macro fn : message_keys (cstr "UNIMPLEMENTED: " ++ fn) = cstr "UNIMPLEMENTED:" :: omap key_of (tail (message_lines fn)).
Proof.
  unfold message_keys, message_lines, getlines. rewrite <- app_assoc, lines_from_pre by decided. destruct (lines_from_first fn) as (l & ls & Hl & H).
  unfold message_lines, getlines in Hl. rewrite H, Hl. cbn [tail]. cbn [omap list_omap]. by rewrite app_nil_l, <- (key_of_line (mkClock 0 0 0 0) 0 0), key_of_unimplemented.
Qed.
Lemma passed_asked ops f : Forall (fun o => is_Some (asked o.2)) (passed ops f).
Proof.
  revert f. induction ops as [|o ops IH]; intros f; [constructor|]. rewrite passed_cons. apply Forall_app. split; [|apply IH].
  cbn [passed]. destruct (asked o.2) as [[[lvl c] m]|] eqn:E; [destruct (Log.isEnabled lvl c f)|]; try constructor; [by rewrite E|constructor].
Qed.
(** What the tool finds in the file of a session. *)
Lemma keys_told os : Forall (fun o => is_Some (asked o.2)) os -> keys (text_of os) = concat (told <$> os).
Proof.
  unfold keys. induction 1 as [|o os [[[lvl c] msg] Ha] _ IH]; [done|]. unfold text_of in *. cbn [fmap list_fmap concat]. rewrite <- IH.
  rewrite <- app_assoc. unfold getlines at 1. change ([newline] ++ ?r) with (newline :: r). rewrite lines_from_app, omap_app. f_equal.
  destruct o as [k o]. unfold line_of, told. cbn [fst snd] in *. rewrite Ha.
  change (lines_from [] ?s) with (getlines s). rewrite keys_of_line. destruct o; try done; cbn in Ha; injection Ha as <- <- <-; [done|]. apply keys_of_macro.
Qed.

(** A report whose lines all tell one key. *)
Lemma only_entry (l : list (bytes * Z)) u n :
  (forall k m, (k, m) ∈ l <-> k ∈ replicate n u /\ m = Z.of_nat (occurs k (replicate n u))) -> NoDup l.*1 ->
  l = if (n =? 0)%nat then [] else [(u, Z.of_nat n)].
Proof.
  intros H1 H2. assert (occurs u (replicate n u) = n) as Ho by (rewrite occurs_all, length_replicate; [done|by apply Forall_replicate]).
  assert (forall e, e ∈ l <-> n <> 0%nat /\ e = (u, Z.of_nat n)) as He.
  { intros [k m]. rewrite H1, elem_of_replicate. split; [intros [[-> Hn] ->]; by rewrite Ho|intros [Hn [= -> ->]]; by rewrite Ho]. }
  destruct l as [|e [|e' l]].
  - destruct (Nat.eqb_spec n 0) as [|Hn]; [done|]. destruct (elem_of_nil (u, Z.of_nat n)) as [[] _]. by apply He.
  - destruct (proj1 (He e)) as [Hn ->]; [by left|]. by rewrite (proj2 (Nat.eqb_neq _ _)).
  - exfalso. destruct (proj1 (He e)) as [_ E1]; [by left|]. destruct (proj1 (He e')) as [_ E2]; [by right; left|]. subst e e'.
    apply NoDup_cons in H2 as [H2 _]. apply H2. by left.
Qed.

(** C34: the report on a log that the runtime wrote never tells one unimplemented function
    from another: whatever operations write a file of fewer than 2^64 lines, its entries
    are the keys told by the lines that the filter let through, each once, with the
    number of lines that tell it; every call of the macro, whatever function it names,
    tells the key "UNIMPLEMENTED:", which counts all of them together; and that is the
    only entry when no other message has the word and all messages are single lines. (The
    messages of the program that have the word followed by a blank make a second entry,
    again without a name.) *)
Theorem report_collapses ops path s text :
  disk (run ops (setOutputFile path true s)) !! path = Some text -> Z.of_nat (length (getlines text)) < 2 ^ 64 ->
  let os := passed ops (s_filter s) in let ks := concat (told <$> os) in let calls := length (filter is_unimplemented os) in
  (forall k n, (k, n) ∈ sorted text <-> k ∈ ks /\ n = Z.of_nat (occurs k ks)) /\ NoDup (sorted text).*1 /\
  (calls <= occurs (cstr "UNIMPLEMENTED:") ks)%nat /\
  (Forall (fun o => told o = if is_unimplemented o then [cstr "UNIMPLEMENTED:"] else []) os ->
     sorted text = if (calls =? 0)%nat then [] else [(cstr "UNIMPLEMENTED:", Z.of_nat calls)]).
Proof.
  intros Ht Hlen os ks calls. destruct (run_file ops path (setOutputFile path true s) [] eq_refl (lookup_insert_eq _ _ _)) as [Hf _].
  rewrite Hf in Ht. injection Ht as <-. change (s_filter (setOutputFile path true s)) with (s_filter s) in *. cbn [app] in *. fold os in Hlen |- *.
  destruct (report_exact (text_of os) Hlen) as (H1 & H2 & _). rewrite (keys_told os (passed_asked _ _)) in H1. fold ks in H1.
  split; [exact H1|]. split; [exact H2|]. split.
  - unfold calls, ks. clear. induction os as [|o os IH]; [done|]. cbn [fmap list_fmap concat]. rewrite filter_cons. unfold occurs in *. rewrite filter_app, length_app.
    destruct (decide (is_unimplemented o)) as [Ho|Ho]; [|lia]. destruct o as [k []]; try done. cbn [told snd]. rewrite filter_cons_True by done. cbn [length]. lia.
  - intros Hq. assert (ks = replicate calls (cstr "UNIMPLEMENTED:")) as Hks.
    { unfold calls, ks. clear -Hq. induction Hq as [|o os Ho _ IH]; [done|]. cbn [fmap list_fmap concat]. rewrite filter_cons, Ho, IH. by destruct (is_unimplemented o). }
    apply (only_entry (sorted (text_of os)) _ calls); [|exact H2]. rewrite Hks in H1. exact H1.
Qed.
End Collapse.

(** *** Witnesses *)
Section Witnesses.
Import LogOutput UnimplReport.
Definition demo_clock : Clock := mkClock 9 5 7 42.
Definition demo_ops : list (Clock * Op) := (demo_clock,.) <$>
  [Unimplemented 3 (cstr "sceNetCtlGetInfo"); Logs 3 4 (cstr "  reason=unsupported"); Unimplemented 3 (cstr "scePadRead");
   Logs 3 4 (cstr "UNIMPLEMENTED sceGnmDrawIndex: index-buffer draw submission"); Category 3 false; Unimplemented 3 (cstr "sceFontOpen"); Unimplemented 9 (cstr "vkQueueSubmit")].
Definition demo_start : t := mkOut (Log.init None) None false true [] ∅.
Definition demo_text : bytes := default [] (disk (run demo_ops (setOutputFile (cstr "log") true demo_start)) !! cstr "log").

Lemma report_collapses_witness : sorted demo_text = [(cstr "UNIMPLEMENTED:", 3); (cstr "UNIMPLEMENTED", 1)] /\
  (cstr "UNIMPLEMENTED:" ∈ concat (told <$> passed demo_ops (s_filter demo_start)) /\ 3 = Z.of_nat (occurs (cstr "UNIMPLEMENTED:") (concat (told <$> passed demo_ops (s_filter demo_start))))).
Proof.
  split; [vm_compute; reflexivity|].
  apply (report_collapses demo_ops (cstr "log") demo_start demo_text); [vm_compute; reflexivity|vm_compute; reflexivity|].
  apply (bool_decide_unpack _). vm_compute. exact I.
Defined.
Lemma report_counts_witness : zsum snd (sorted demo_text) = 4.
Proof. refine (eq_trans (proj2 (proj2 (proj2 (report_counts demo_text _)))) _); vm_compute; reflexivity. Defined.
End Witnesses.
