(* ===== verification/CrashReport.v ===== *)
(** * Crash reports

    [debug/Symbolizer.cpp], [debug/CrashHandler.cpp] and the text of
    [debug/UnimplementedRegistry.cpp].  A report is first the list of what the handler does
    (writes to standard error, locks it takes on the way, frames it reads); the handler of
    several threads then runs such lists over one process. *)
From stdpp Require Import sorting.
From S2P Require Import Prelude Memory Elf Loader Diagnostics LogOutput.

Notation newline := LogOutput.newline.

(** Nothing in an explicit list is a fault. *)
Ltac no_fault := let H := fresh in intros H; cbn in H; repeat (apply elem_of_cons in H as [H|H]; [discriminate|]); by apply elem_of_nil in H.

(** [%llx], and [0x%016llx]. *)
Fixpoint hex_digits (fuel : nat) (n : Z) : bytes :=
  match fuel with
  | O => []
  | S fuel' => (if n <? 16 then [] else hex_digits fuel' (n / 16)) ++ [let d := n mod 16 in if d <? 10 then 48 + d else 87 + d]
  end.
Definition hex (n : Z) : bytes := hex_digits 16 n.
Definition c_str (s : bytes) : bytes := take (default (length s) (find_char 0 s)) s.

(** ** Symbolizer.cpp *)
Module Symbolizer.
Definition extent (segs : list LoadedSegment) : Z * Z :=
  foldl (fun '(lo, hi) s => (Z.min lo (ls_vaddr s), Z.max hi (u64 (ls_vaddr s + ls_memsz s)))) (2 ^ 64 - 1, 0) segs.
(** [snprintf] into 128 bytes. *)
Definition describe_module (m : Module_) (lo pc : Z) : bytes := take 127 (c_str (m_name m) ++ cstr "+0x" ++ hex (pc - lo)).
Fixpoint describe_in (mods : list Module_) (pc : Z) : bytes :=
  match mods with
  | [] => []
  | m :: mods =>
      let '(lo, hi) := extent (m_segments m) in
      if (lo <=? pc) && (pc <? hi) then describe_module m lo pc else describe_in mods pc
  end.
Definition describe (reg : option ModuleRegistry) (pc : Z) : bytes :=
  match reg with None => [] | Some r => describe_in (map_to_list r).*2 pc end.
End Symbolizer.

(** ** UnimplementedRegistry.cpp: the text *)
Module UnimplText.
Import UnimplementedRegistry.
Definition by_count (a b : bytes * Entry) : Prop := count b.2 <= count a.2.
#[export] Instance by_count_dec : RelDecision by_count.
Proof. intros a b. apply Z_le_dec. Defined.
Definition snapshot (s : gmap bytes Entry) : list (bytes * Entry) := merge_sort by_count (map_to_list s).
Definition format_entry (e : bytes * Entry) : bytes :=
  cstr "  [" ++ to_string (count e.2) ++ cstr "x] " ++ e.1 ++ [newline] ++
  (if bool_decide (lastArgs e.2 = []) then [] else cstr "        args: " ++ lastArgs e.2 ++ [newline]) ++
  (if bool_decide (lastNote e.2 = []) then [] else cstr "        note: " ++ lastNote e.2 ++ [newline]).
Definition formatReport (s : gmap bytes Entry) : bytes :=
  cstr "FusionPS4 UNIMPLEMENTED report: " ++ to_string (Z.of_nat (length (snapshot s))) ++ cstr " unique stubs, " ++
  to_string (totalCount s) ++ cstr " total calls" ++ [newline] ++ replicate 63 45 ++ [newline] ++ concat (format_entry <$> snapshot s).
End UnimplText.

(** ** CrashHandler.cpp *)
Module CrashHandler.
Definition SIGILL : Z := 4.
Definition SIGABRT : Z := 6.
Definition SIGBUS : Z := 7.
Definition SIGFPE : Z := 8.
Definition SIGSEGV : Z := 11.
(** The signals that [install] sets the handler for, and that it blocks in it. *)
Definition handled : list Z := [SIGSEGV; SIGBUS; SIGILL; SIGFPE; SIGABRT].
Definition signalName (sig : Z) : bytes :=
  if sig =? SIGSEGV then cstr "SIGSEGV" else if sig =? SIGBUS then cstr "SIGBUS" else if sig =? SIGILL then cstr "SIGILL"
  else if sig =? SIGFPE then cstr "SIGFPE" else if sig =? SIGABRT then cstr "SIGABRT" else cstr "SIG?".

(** One turn of the loop, where [write] answers [w]: what is written, and what is left,
    or nothing when the loop is left. *)
Definition safeWrite (w : Z) (s : bytes) : bytes * option bytes :=
  if w <=? 0 then ([], None) else (take (Z.to_nat w) s, Some (drop (Z.to_nat w) s)).

(** The mutexes of the two registries, and the lock of the host's allocator. *)
Inductive Lock := Modules | Unimplemented | Heap.
#[export] Instance Lock_eq_dec : EqDecision Lock.
Proof. solve_decision. Defined.
(** What the handler does: the hook, a write, taking and leaving a lock, reading a frame
    that is not there. *)
Inductive Act := AHook | AWrite (b : bytes) | ALock (l : Lock) | AFault.

#[export] Instance Act_eq_dec : EqDecision Act.
Proof. solve_decision. Defined.

Record siginfo := mkInfo { si_addr : Z; si_code : Z }.
Record ucontext := mkCtx {
  RIP : Z; RSP : Z; RBP : Z; RAX : Z; RBX : Z; RCX : Z; RDX : Z; RSI : Z; RDI : Z;
  R8 : Z; R9 : Z; R10 : Z; R11 : Z; R12 : Z; R13 : Z; R14 : Z; R15 : Z }.
Definition registers (u : ucontext) : list (string * Z) := [
  ("RIP: "%string, RIP u); ("RSP: "%string, RSP u); ("RBP: "%string, RBP u); ("RAX: "%string, RAX u); ("RBX: "%string, RBX u);
  ("RCX: "%string, RCX u); ("RDX: "%string, RDX u); ("RSI: "%string, RSI u); ("RDI: "%string, RDI u); ("R8 : "%string, R8 u);
  ("R9 : "%string, R9 u); ("R10: "%string, R10 u); ("R11: "%string, R11 u); ("R12: "%string, R12 u); ("R13: "%string, R13 u);
  ("R14: "%string, R14 u); ("R15: "%string, R15 u)].

Definition safeWriteCStr (s : string) : Act := AWrite (cstr s).
Definition endl : Act := AWrite [newline].
Definition safeWriteHex (v : Z) : Act := AWrite (cstr "0x" ++ let d := hex v in replicate (16 - length d) 48 ++ d).
Definition reportLine (tag : string) (v : Z) : list Act := [safeWriteCStr tag; safeWriteHex v; endl].

Section Report.
(** [heap]: whether the allocations of the report take the lock of the allocator, which
    they need not when the thread's own cache serves them. *)
Context (reg : option ModuleRegistry) (heap : bool) (mem : Memory).

Definition alloc : list Act := if heap then [ALock Heap] else [].
(** The description of an address takes the lock of the registry, if one is bound, and
    makes a vector and a string. *)
Definition describing : list Act := match reg with None => [] | Some _ => ALock Modules :: alloc end.
Definition described (pc : Z) : list Act :=
  describing ++
  let d := Symbolizer.describe reg pc in if bool_decide (d = []) then [] else [safeWriteCStr "  "; AWrite (c_str d)].
Definition max_frame : Z := 0x00007fffffffffff.
(** The loop from frame [i] on, [n] turns left. *)
Fixpoint frames (n : nat) (i rbp : Z) : list Act :=
  match n with
  | O => []
  | S n =>
      if rbp =? 0 then []
      else if (rbp <? 0x1000) || (max_frame <? rbp) then []
      else
        match readU64 mem rbp, readU64 mem (rbp + 8) with
        | Some nextRbp, Some retAddr =>
            if retAddr =? 0 then []
            else [safeWriteCStr "  #"; AWrite (to_string i ++ cstr " "); safeWriteHex retAddr] ++ described retAddr ++ [endl] ++
                 (if nextRbp <=? rbp then [] else frames n (i + 1) nextRbp)
        | _, _ => [AFault]
        end
  end.
Definition max_frames : nat := 31.
Definition emitBacktrace (u : ucontext) : list Act :=
  [AWrite (cstr "-- backtrace --" ++ [newline])] ++ describing ++
  [safeWriteCStr "  #0 "; safeWriteHex (RIP u)] ++
  (let d := Symbolizer.describe reg (RIP u) in if bool_decide (d = []) then [] else [safeWriteCStr "  "; AWrite (c_str d)]) ++
  [endl] ++ frames max_frames 1 (RBP u).

Definition emitCrashReport (sig : Z) (info : option siginfo) (u : option ucontext) (unimpl : gmap bytes UnimplementedRegistry.Entry) : list Act :=
  [AWrite ([newline] ++ cstr "==== FusionPS4 crash ====" ++ [newline]); safeWriteCStr "signal: "; AWrite (signalName sig); endl] ++
  match info with Some i => reportLine "fault address: " (si_addr i) ++ [safeWriteCStr "si_code: "; safeWriteHex (u64 (si_code i)); endl] | None => [] end ++
  match u with Some u => concat ((fun r => reportLine r.1 r.2) <$> registers u) ++ emitBacktrace u | None => [] end ++
  [ALock Unimplemented] ++ alloc ++ [ALock Unimplemented] ++ alloc ++ [AWrite (cstr "-- UNIMPLEMENTED so far --" ++ [newline]); AWrite (UnimplText.formatReport unimpl);
   AWrite (cstr "=========================" ++ [newline])].
(** The body of [handler] after it got the flag, up to the end of the report. *)
Definition handler_acts (hook : bool) (sig : Z) (info : option siginfo) (u : option ucontext) (unimpl : gmap bytes UnimplementedRegistry.Entry) : list Act :=
  (if hook then [AHook] else []) ++ emitCrashReport sig info u unimpl.
End Report.

(** The path that [setReportFile] keeps: a buffer of 512 bytes. *)
Definition setReportFile (path : option bytes) : bytes := match path with None => [] | Some p => take 511 p end.
End CrashHandler.

(** ** Threads that crash

    A thread that is not in the map runs the program.  [dfl] are the signals whose handler
    was taken away again, [out] what reached standard error, write by write, [killed] the
    signal that ended the process. *)
Module Crash.
Import CrashHandler.
(** One call of [write] by a handler, with its answer, or one line of the log
    ([Log::write], [dumpToStderr]). *)
Inductive Output := Chunk (w : Z) (b : bytes) | Line (b : bytes).
Inductive TState := Entered (sig : Z) (acts : list Act) | Reporting (sig : Z) (acts : list Act) | Raised (sig : Z).
Record World := mkWorld {
  threads : gmap nat TState; g_inHandler : bool; owner : Lock -> option nat; dfl : gset Z; out : list Output; killed : option Z }.
Definition set_thread (t : nat) (st : TState) (w : World) : World := mkWorld (<[t := st]> (threads w)) (g_inHandler w) (owner w) (dfl w) (out w) (killed w).
Definition set_flag (w : World) : World := mkWorld (threads w) true (owner w) (dfl w) (out w) (killed w).
Definition set_owner (l : Lock) (o : option nat) (w : World) : World :=
  mkWorld (threads w) (g_inHandler w) (fun l' => if decide (l' = l) then o else owner w l') (dfl w) (out w) (killed w).
Definition set_default (sig : Z) (w : World) : World := mkWorld (threads w) (g_inHandler w) (owner w) ({[sig]} ∪ dfl w) (out w) (killed w).
Definition put (b : Output) (w : World) : World := mkWorld (threads w) (g_inHandler w) (owner w) (dfl w) (out w ++ [b]) (killed w).
Definition kill (sig : Z) (w : World) : World := mkWorld (threads w) (g_inHandler w) (owner w) (dfl w) (out w) (Some sig).
Definition initial : World := mkWorld ∅ false (fun _ => None) ∅ [] None.

(** What the threads do apart from crashing: the program takes and leaves locks and logs,
    the handlers go on, one call of [write] at a time.  A signal that is raised in its handler is delivered, with its default
    action, when the handler returns; a fault in the handler ends the process at once,
    because the signal is blocked there. *)
Inductive hstep : World -> World -> Prop :=
  | h_lock t l w : killed w = None -> threads w !! t = None -> owner w l = None -> hstep w (set_owner l (Some t) w)
  | h_unlock t l w : killed w = None -> threads w !! t = None -> owner w l = Some t -> hstep w (set_owner l None w)
  | h_win t sig acts w : killed w = None -> threads w !! t = Some (Entered sig acts) -> g_inHandler w = false ->
      hstep w (set_thread t (Reporting sig acts) (set_flag w))
  | h_lose t sig acts w : killed w = None -> threads w !! t = Some (Entered sig acts) -> g_inHandler w = true ->
      hstep w (set_thread t (Raised sig) (set_default sig w))
  | h_hook t sig acts w : killed w = None -> threads w !! t = Some (Reporting sig (AHook :: acts)) -> hstep w (set_thread t (Reporting sig acts) w)
  | h_log t b w : killed w = None -> threads w !! t = None -> hstep w (put (Line b) w)
  | h_write r t sig b acts w : killed w = None -> threads w !! t = Some (Reporting sig (AWrite b :: acts)) -> b <> [] ->
      hstep w (set_thread t (Reporting sig (match (safeWrite r b).2 with None => acts | Some b => AWrite b :: acts end)) (put (Chunk r (safeWrite r b).1) w))
  | h_written t sig acts w : killed w = None -> threads w !! t = Some (Reporting sig (AWrite [] :: acts)) -> hstep w (set_thread t (Reporting sig acts) w)
  | h_take t sig l acts w : killed w = None -> threads w !! t = Some (Reporting sig (ALock l :: acts)) -> owner w l = None ->
      hstep w (set_thread t (Reporting sig acts) w)
  | h_fault t sig acts w : killed w = None -> threads w !! t = Some (Reporting sig (AFault :: acts)) -> hstep w (kill SIGSEGV w)
  | h_done t sig w : killed w = None -> threads w !! t = Some (Reporting sig []) -> hstep w (set_thread t (Raised sig) (set_default sig w))
  | h_die t sig w : killed w = None -> threads w !! t = Some (Raised sig) -> hstep w (kill sig w).

Section Machine.
(** What [install] and [setPreReportHook] bound, and what was reported unimplemented. *)
Context (reg : option ModuleRegistry) (heap hook : bool) (unimpl : gmap bytes UnimplementedRegistry.Entry).

Definition is_report (sig : Z) (acts : list Act) : Prop := exists mem info u, acts = handler_acts reg heap mem hook sig info u unimpl.
Inductive crash : World -> World -> Prop :=
  | c_handler t sig acts w : killed w = None -> threads w !! t = None -> sig ∈ handled -> sig ∉ dfl w -> is_report sig acts ->
      crash w (set_thread t (Entered sig acts) w)
  | c_default t sig w : killed w = None -> threads w !! t = None -> sig ∈ dfl w -> crash w (kill sig (set_thread t (Raised sig) w)).
Definition step (w w' : World) : Prop := hstep w w' \/ crash w w'.
End Machine.
End Crash.

(** ** The frames that are walked *)
Section Frames.
Import CrashHandler.
Context (reg : option ModuleRegistry) (heap : bool) (mem : Memory).

Definition frame_ok (rbp : Z) : Prop := 0x1000 <= rbp <= max_frame.
(** The walk goes on from a frame to the next one. *)
Definition next_frame (rbp next : Z) : Prop :=
  frame_ok rbp /\ readU64 mem rbp = Some next /\ (exists ret, readU64 mem (rbp + 8) = Some ret /\ ret <> 0) /\ rbp < next.
Definition unreadable (rbp : Z) : Prop := readU64 mem rbp = None \/ readU64 mem (rbp + 8) = None.

Lemma alloc_no_fault : AFault ∉ alloc heap.
Proof. unfold alloc. destruct heap; no_fault. Qed.
Lemma describing_no_fault : AFault ∉ describing reg heap.
Proof. unfold describing, alloc. destruct reg, heap; no_fault. Qed.
Lemma described_no_fault pc : AFault ∉ described reg heap pc.
Proof.
  unfold described. rewrite elem_of_app. intros [H|H]; [by apply describing_no_fault in H|]. revert H. cbv zeta. destruct (bool_decide _); no_fault.
Qed.
Lemma frames_fault n i rbp : AFault ∈ frames reg heap mem n i rbp <->
  exists k r, (k < n)%nat /\ nsteps next_frame k rbp r /\ frame_ok r /\ unreadable r.
Proof.
  revert i rbp. induction n as [|n IH]; intros i rbp; cbn [frames]. { split; [by intros ?%elem_of_nil|intros (? & ? & ? & _); lia]. }
  assert (~ frame_ok rbp -> (exists k r, (k < S n)%nat /\ nsteps next_frame k rbp r /\ frame_ok r /\ unreadable r) -> False) as Hbad.
  { intros Hf (k & r & _ & Hk & Hr & _). destruct Hk as [|k x y z [Hx _] _]; done. }
  destruct (Z.eqb_spec rbp 0) as [->|H0]. { split; [by intros ?%elem_of_nil|intros H; exfalso; apply Hbad; [unfold frame_ok; lia|done]]. }
  destruct ((rbp <? 0x1000) || (max_frame <? rbp)) eqn:Er.
  { split; [by intros ?%elem_of_nil|intros H; exfalso; apply Hbad; [|done]]. unfold frame_ok. apply orb_true_iff in Er as [?%Z.ltb_lt|?%Z.ltb_lt]; lia. }
  apply orb_false_iff in Er as [E1%Z.ltb_ge E2%Z.ltb_ge].
  assert (forall k r, nsteps next_frame k rbp r -> k = 0%nat /\ r = rbp \/ exists k' nx, k = S k' /\ next_frame rbp nx /\ nsteps next_frame k' nx r) as Hinv.
  { intros k r Hk. destruct Hk as [|k x y z Hx Hk]; [by left|right]. by exists k, y. }
  destruct (readU64 mem rbp) as [nx|] eqn:En; [destruct (readU64 mem (rbp + 8)) as [ret|] eqn:Et|].
  2,3: split; [intros _; exists 0%nat, rbp; split; [lia|]; split; [constructor|]; split; [by unfold frame_ok|unfold unreadable; auto]|intros _; by left].
  assert (~ unreadable rbp) as Hread by (unfold unreadable; rewrite En, Et; naive_solver).
  destruct (Z.eqb_spec ret 0) as [->|Hret].
  { split; [by intros ?%elem_of_nil|]. intros (k & r & _ & Hk & _ & Hu).
    apply Hinv in Hk as [[-> ->]|(k' & x & -> & (_ & _ & (y & Hy & Hy0) & _) & _)]; [done|congruence]. }
  rewrite !elem_of_app, !elem_of_cons.
  destruct (Z.leb_spec nx rbp) as [Hle|Hlt].
  - split.
    + intros [[?|[?|[?|?%elem_of_nil]]]|[H|[[?|?%elem_of_nil]|?%elem_of_nil]]]; try done. by apply described_no_fault in H.
    + intros (k & r & _ & Hk & _ & Hu). apply Hinv in Hk as [[-> ->]|(k' & x & -> & (_ & Hx & _ & Hlt) & _)]; [done|].
      rewrite En in Hx. injection Hx as <-. lia.
  - rewrite IH. split.
    + intros [[?|[?|[?|?%elem_of_nil]]]|[H|[[?|?%elem_of_nil]|(k & r & Hk & Hs & Hr)]]]; try done; [by apply described_no_fault in H|].
      exists (S k), r. split; [lia|]. split; [|done]. eapply nsteps_l; [|done]. unfold next_frame, frame_ok. split_and!; try done. by exists ret.
    + intros (k & r & Hk & Hs & Hr & Hu). right; right; right. apply Hinv in Hs as [[-> ->]|(k' & x & -> & (_ & Hx & _) & Hs)]; [done|].
      rewrite En in Hx. injection Hx as <-. exists k', r. split_and!; try done. lia.
Qed.
End Frames.

(** ** Whose report it is *)
Section OneReport.
Import CrashHandler Crash.

(** What the handlers wrote, in order. *)
Definition text (o : list Output) : bytes := concat (omap (fun x => match x with Chunk _ b => Some b | Line _ => None end) o).
(** No call of [write] took nothing. *)
Definition steady (o : list Output) : Prop := Forall (fun x => match x with Chunk r _ => 0 < r | Line _ => True end) o.
Lemma text_app o o' : text (o ++ o') = text o ++ text o'.
Proof. unfold text. by rewrite omap_app, concat_app. Qed.
(** [pieces], each cut at most at its end, and the beginning of another one. *)
Definition shown (o : list Output) (pieces : list bytes) (pre : bytes) : Prop :=
  exists cuts, Forall2 prefix cuts pieces /\ text o = concat cuts ++ pre /\ (steady o -> cuts = pieces).
Lemma shown_line o pieces pre b : shown o pieces pre -> shown (o ++ [Line b]) pieces pre.
Proof.
  intros (cuts & H1 & H2 & H3). exists cuts. split; [done|]. split; [by rewrite text_app, app_nil_r|].
  intros H. apply H3. by apply Forall_app in H as [H _].
Qed.
Lemma shown_chunk o pieces pre r b : 0 < r -> shown o pieces pre -> shown (o ++ [Chunk r b]) pieces (pre ++ b).
Proof.
  intros Hr (cuts & H1 & H2 & H3). exists cuts. split; [done|]. split; [by rewrite text_app, H2; cbn; rewrite app_nil_r, app_assoc|].
  intros H. apply H3. by apply Forall_app in H as [H _].
Qed.
Lemma shown_failed o pieces pre r b : r <= 0 -> shown o pieces pre -> shown (o ++ [Chunk r []]) (pieces ++ [pre ++ b]) [].
Proof.
  intros Hr (cuts & H1 & H2 & H3). exists (cuts ++ [pre]). split; [apply Forall2_app; [done|]; constructor; [by exists b|done]|].
  split; [by rewrite text_app, H2, concat_app; cbn; rewrite !app_nil_r|].
  intros H. apply Forall_app in H as [_ H]. apply Forall_cons in H as [H _]. lia.
Qed.
Lemma shown_written o pieces pre : shown o pieces pre -> shown o (pieces ++ [pre]) [].
Proof.
  intros (cuts & H1 & H2 & H3). exists (cuts ++ [pre]). split; [apply Forall2_app; [done|]; by repeat constructor|].
  split; [by rewrite H2, concat_app; cbn; rewrite !app_nil_r|]. intros H. by rewrite H3.
Qed.

Definition writes (acts : list Act) : list bytes := omap (fun a => match a with AWrite b => Some b | _ => None end) acts.
Fixpoint before_fault (acts : list Act) : list Act :=
  match acts with [] => [] | AFault :: _ => [] | a :: acts => a :: before_fault acts end.
Lemma before_fault_app done rest : AFault ∉ done -> before_fault (done ++ rest) = done ++ before_fault rest.
Proof.
  induction done as [|a done IH]; intros H; [by rewrite !app_nil_l|]. apply not_elem_of_cons in H as [Ha H]. cbn [app before_fault].
  destruct a; try done; by rewrite IH.
Qed.

(** The report has written [pre] of the piece that it is at. *)
Definition resume (pre : bytes) (rest : list Act) : list Act :=
  match rest with AWrite b :: acts => AWrite (pre ++ b) :: acts | _ => rest end.
Lemma resume_nil rest : resume [] rest = rest.
Proof. by destruct rest as [|[] rest]. Qed.

Section Runs.
Context (reg : option ModuleRegistry) (heap hook : bool) (unimpl : gmap bytes UnimplementedRegistry.Entry).
Notation is_report := (is_report reg heap hook unimpl).
Notation step := (step reg heap hook unimpl).

Definition gave_up (t : nat) (w : World) : Prop := exists t' sig', t' <> t /\ threads w !! t' = Some (Raised sig').
Record OnDuty (w : World) (t : nat) (sig : Z) (finished : list Act) (pre : bytes) (rest : list Act) : Prop := mkDuty {
  d_report : is_report sig (finished ++ resume pre rest);
  d_pre : pre = [] \/ exists b acts, rest = AWrite b :: acts;
  d_clear : AFault ∉ finished;
  d_out : shown (out w) (writes finished) pre;
  d_state : threads w !! t = Some (Reporting sig rest) \/ threads w !! t = Some (Raised sig) /\ rest = [];
  d_others : forall t' st, threads w !! t' = Some st -> t' <> t -> (exists s a, st = Entered s a) \/ exists s, st = Raised s;
  d_dfl : dfl w <> ∅ -> rest = [] \/ gave_up t w;
  d_killed : killed w <> None -> rest = [] \/ head rest = Some AFault \/ gave_up t w }.
Record OffDuty (w : World) : Prop := mkOff {
  f_out : text (out w) = []; f_steady : steady (out w); f_dfl : dfl w = ∅; f_killed : killed w = None;
  f_threads : forall t st, threads w !! t = Some st -> exists sig acts, st = Entered sig acts }.
Record Inv (w : World) : Prop := mkInv {
  i_entered : forall t sig acts, threads w !! t = Some (Entered sig acts) -> is_report sig acts;
  i_duty : if g_inHandler w then exists t sig finished pre rest, OnDuty w t sig finished pre rest else OffDuty w }.

Lemma writes_snoc l a : writes (l ++ [a]) = writes l ++ match a with AWrite b => [b] | _ => [] end.
Proof. unfold writes. rewrite omap_app. cbn. by destruct a. Qed.

(** The thread on duty goes on with its list. *)
Lemma duty_advance w w' t sig finished pre a rest finished' pre' rest' :
  OnDuty w t sig finished pre (a :: rest) -> a <> AFault -> killed w = None ->
  finished' ++ resume pre' rest' = finished ++ resume pre (a :: rest) -> AFault ∉ finished' ->
  (pre' = [] \/ exists b acts, rest' = AWrite b :: acts) ->
  threads w' = <[t := Reporting sig rest']> (threads w) -> dfl w' = dfl w -> killed w' = None ->
  shown (out w') (writes finished') pre' -> OnDuty w' t sig finished' pre' rest'.
Proof.
  intros [Hr Hp Hc Ho Hs Hn Hd Hk] Ha Hkn Heq Hc' Hp' Ht Hdf Hkn' Hout.
  assert (forall t', t' <> t -> threads w' !! t' = threads w !! t') as Hth by (intros; rewrite Ht; by apply lookup_insert_ne).
  split; try done.
  - by rewrite Heq.
  - left. rewrite Ht. apply lookup_insert_eq.
  - intros t' st Hst Hne. rewrite Hth in Hst by done. by apply (Hn t').
  - rewrite Hdf. intros H. destruct (Hd H) as [|(t' & s & Hne & Hx)]; [done|]. right. exists t', s. by rewrite Hth.
Qed.

(** Another thread enters the handler, or gives up there. *)
Lemma duty_enters w t sig finished pre rest t' sig' acts :
  OnDuty w t sig finished pre rest -> threads w !! t' = None -> OnDuty (set_thread t' (Entered sig' acts) w) t sig finished pre rest.
Proof.
  intros [Hr Hp Hc Ho Hs Hn Hd Hk] Hnone.
  assert (t <> t') as Hne by (intros <-; destruct Hs as [Hs|[Hs _]]; congruence).
  assert (gave_up t w -> gave_up t (set_thread t' (Entered sig' acts) w)) as Hg.
  { intros (x & s & Hx & Hxs). exists x, s. split; [done|]. cbn. rewrite lookup_insert_ne by congruence. done. }
  split; cbn; try done.
  - by rewrite lookup_insert_ne.
  - intros x st [[<- <-]|[_ Hst]]%lookup_insert_Some Hx; [left; by exists sig', acts|by apply (Hn x)].
  - intros H. destruct (Hd H); auto.
  - intros H. destruct (Hk H) as [|[]]; auto.
Qed.
Lemma duty_gives_up w w' t sig finished pre rest t' sig' :
  OnDuty w t sig finished pre rest -> t' <> t -> threads w' = <[t' := Raised sig']> (threads w) -> out w' = out w -> OnDuty w' t sig finished pre rest.
Proof.
  intros [Hr Hp Hc Ho Hs Hn Hd Hk] Hne Ht Hout.
  assert (gave_up t w') as Hg by (exists t', sig'; split; [done|]; rewrite Ht; apply lookup_insert_eq).
  split; rewrite ?Hout; auto.
  - by rewrite Ht, lookup_insert_ne.
  - intros x st. rewrite Ht. intros [[<- <-]|[_ Hst]]%lookup_insert_Some Hx; [right; by exists sig'|by apply (Hn x)].
Qed.
Lemma duty_same w w' t sig finished pre rest :
  OnDuty w t sig finished pre rest -> threads w' = threads w -> (out w' = out w \/ exists b, out w' = out w ++ [Line b]) -> dfl w' = dfl w ->
  (killed w' <> None -> killed w <> None \/ rest = [] \/ head rest = Some AFault \/ gave_up t w) ->
  OnDuty w' t sig finished pre rest.
Proof.
  intros [Hr Hp Hc Ho Hs Hn Hd Hk] Ht Hout Hdf Hkill. unfold gave_up in *.
  assert (shown (out w') (writes finished) pre) as Hsh by (destruct Hout as [->|[b ->]]; [done|by apply shown_line]).
  split; rewrite ?Ht, ?Hdf; try done; unfold gave_up; rewrite ?Ht; try done. intros H. destruct (Hkill H) as [|]; auto.
Qed.
Lemma duty_thread w t sig finished pre rest t' st :
  OnDuty w t sig finished pre rest -> threads w !! t' = Some st ->
  t' = t /\ (st = Reporting sig rest \/ st = Raised sig /\ rest = []) \/ t' <> t /\ ((exists s a, st = Entered s a) \/ exists s, st = Raised s).
Proof.
  intros [Hr Hp Hc Ho Hs Hn Hd Hk] Ht. destruct (decide (t' = t)) as [->|Hne]; [left|right; eauto].
  split; [done|]. rewrite Ht in Hs. destruct Hs as [Hs|[Hs ->]]; [left|right]; naive_solver.
Qed.

Lemma reporting_duty w t sig acts : Inv w -> threads w !! t = Some (Reporting sig acts) ->
  g_inHandler w = true /\ exists f p, OnDuty w t sig f p acts.
Proof.
  intros [_ Hd] Ht. destruct (g_inHandler w).
  - destruct Hd as (x & s & f & p & r & Hd). destruct (duty_thread _ _ _ _ _ _ _ _ Hd Ht) as [[-> [[= <- <-]|[[=] _]]]|[_ [(? & ? & [=])|(? & [=])]]]. split; [done|by exists f, p].
  - destruct Hd as [_ _ _ _ H]. by destruct (H t _ Ht) as (? & ? & [=]).
Qed.
(** The same entered threads, and the thread on duty one action further. *)
Lemma inv_advance w w' t sig a rest :
  Inv w -> killed w = None -> threads w !! t = Some (Reporting sig (a :: rest)) -> a <> AFault -> dfl w' = dfl w -> killed w' = None -> g_inHandler w' = g_inHandler w ->
  (forall f p, is_report sig (f ++ resume p (a :: rest)) -> AFault ∉ f -> (p = [] \/ exists b acts, a :: rest = AWrite b :: acts) -> shown (out w) (writes f) p -> exists f' p' rest',
    f' ++ resume p' rest' = f ++ resume p (a :: rest) /\ AFault ∉ f' /\ (p' = [] \/ exists b acts, rest' = AWrite b :: acts) /\
    threads w' = <[t := Reporting sig rest']> (threads w) /\ shown (out w') (writes f') p') -> Inv w'.
Proof.
  intros Hi Hk Ht Ha Hdf Hk' Hg Hnext. destruct (reporting_duty _ _ _ _ Hi Ht) as [Hf (f & p & Hd)]. destruct Hi as [He _].
  destruct (Hnext f p (d_report _ _ _ _ _ _ Hd) (d_clear _ _ _ _ _ _ Hd) (d_pre _ _ _ _ _ _ Hd) (d_out _ _ _ _ _ _ Hd)) as (f' & p' & rest' & H1 & H2 & H3 & Hth & H5). split.
  - intros x s b. rewrite Hth. intros [[_ [=]]|[_ H]]%lookup_insert_Some. by eapply He.
  - rewrite Hg, Hf. exists t, sig, f', p', rest'. by apply (duty_advance w _ _ _ f p a rest).
Qed.
(** An action that writes nothing is left behind. *)
Lemma inv_silent w w' t sig a rest :
  Inv w -> killed w = None -> threads w !! t = Some (Reporting sig (a :: rest)) -> a <> AFault -> (forall b, a <> AWrite b) ->
  w' = set_thread t (Reporting sig rest) w -> Inv w'.
Proof.
  intros Hi Hk Ht Ha Hw ->. apply (inv_advance w _ t sig a rest); try done. intros f p _ Hc [->|(b & acts & [= -> _])] Hs; [|by destruct (Hw b)].
  exists (f ++ [a]), [], rest. rewrite !resume_nil, <- app_assoc. split; [done|]. split; [|split; [by left|split; [done|]]].
  - rewrite not_elem_of_app. split; [done|]. intros H%list_elem_of_singleton. congruence.
  - rewrite writes_snoc. destruct a; try (by rewrite app_nil_r). by destruct (Hw b).
Qed.
Lemma no_fault_snoc f b : AFault ∉ f -> AFault ∉ f ++ [AWrite b].
Proof. intros Hc. rewrite not_elem_of_app. split; [done|]. by intros H%list_elem_of_singleton. Qed.

Lemma inv_hstep w w' : hstep w w' -> Inv w -> Inv w'.
Proof.
  intros Hs [He Hd]. destruct Hs as [t l w Hk Ht Ho|t l w Hk Ht Ho|t sig acts w Hk Ht Hf|t sig acts w Hk Ht Hf|t sig acts w Hk Ht|t b w Hk Ht|r t sig b acts w Hk Ht Hb|
    t sig acts w Hk Ht|t sig l acts w Hk Ht Ho|t sig acts w Hk Ht|t sig w Hk Ht|t sig w Hk Ht].
  1,2: split; cbn; [done|]; destruct (g_inHandler w); [destruct Hd as (x & s & f & p & r & Hd); exists x, s, f, p, r; apply (duty_same w); auto|destruct Hd; by split].
  - split; cbn; [intros x s a [[_ [=]]|[_ H]]%lookup_insert_Some; by eapply He|]. rewrite Hf in Hd. destruct Hd as [H1 H2 H3 H4 H5].
    exists t, sig, [], [], acts. split; cbn; rewrite ?H3, ?H4; try done; try apply not_elem_of_nil; [rewrite resume_nil; by eapply He|by left| |left; apply lookup_insert_eq|].
    + exists []. split; [constructor|]. by rewrite H1.
    + intros x st [[<- _]|[_ H]]%lookup_insert_Some Hx; [done|left; by apply (H5 x)].
  - split; cbn; [intros x s a [[_ [=]]|[_ H]]%lookup_insert_Some; by eapply He|]. rewrite Hf in *. destruct Hd as (x & s & f & p & r & Hd). exists x, s, f, p, r.
    destruct (duty_thread _ _ _ _ _ _ _ _ Hd Ht) as [[_ [|[]]]|[Hne _]]; [done|done|]. by apply (duty_gives_up w _ _ _ _ _ _ t sig).
  - by apply (inv_silent w _ t sig AHook acts).
  - split; cbn; [done|]. destruct (g_inHandler w); [destruct Hd as (x & s & f & p & r & Hd); exists x, s, f, p, r; apply (duty_same w); eauto|].
    destruct Hd as [H1 H2 H3 H4 H5]. split; try done; change (out (put (Line b) w)) with (out w ++ [Line b]); [by rewrite text_app, H1|].
    apply Forall_app. split; [done|by repeat constructor].
  - apply (inv_advance w _ t sig (AWrite b) acts); try done. intros f p _ Hc _ Hs. unfold safeWrite. destruct (Z.leb_spec r 0) as [Hr|Hr]; cbn [fst snd].
    + exists (f ++ [AWrite (p ++ b)]), [], acts. rewrite resume_nil, <- app_assoc, writes_snoc.
      split; [done|]. split; [by apply no_fault_snoc|]. split; [by left|]. split; [done|]. by apply shown_failed.
    + exists f, (p ++ take (Z.to_nat r) b), (AWrite (drop (Z.to_nat r) b) :: acts). cbn [resume]. rewrite <- app_assoc, take_drop.
      split; [done|]. split; [done|]. split; [right; eauto|]. split; [done|]. by apply shown_chunk.
  - apply (inv_advance w _ t sig (AWrite []) acts); try done. intros f p _ Hc _ Hs. exists (f ++ [AWrite p]), [], acts. cbn [resume].
    rewrite resume_nil, <- app_assoc, writes_snoc, app_nil_r. split; [done|]. split; [by apply no_fault_snoc|]. split; [by left|]. split; [done|]. by apply shown_written.
  - by apply (inv_silent w _ t sig (ALock l) acts).
  - destruct (reporting_duty w t sig _ ltac:(by split) Ht) as [Hf (f & p & Hd')]. split; [done|]. cbn. rewrite Hf. exists t, sig, f, p, (AFault :: acts).
    apply (duty_same w); auto.
  - destruct (reporting_duty w t sig _ ltac:(by split) Ht) as [Hf (f & p & [Hr Hp Hc Ho Hs Hn Hdf Hkl])].
    split; cbn; [intros x s a [[_ [=]]|[_ H]]%lookup_insert_Some; by eapply He|]. rewrite Hf. exists t, sig, f, p, []. split; cbn; try done; auto.
    + right. by rewrite lookup_insert_eq.
    + intros x st [[<- _]|[_ H]]%lookup_insert_Some Hx; [done|by apply (Hn x)].
  - split; [done|]. cbn. destruct (g_inHandler w) eqn:Hf.
    + destruct Hd as (x & s & f & p & r & Hd). exists x, s, f, p, r. apply (duty_same w); auto. intros _. right.
      destruct (duty_thread _ _ _ _ _ _ _ _ Hd Ht) as [[_ [[=]|[_ ->]]]|[Hne _]]; [by left|right; right; by exists t, sig].
    + destruct Hd as [_ _ _ _ H]. by destruct (H t _ Ht) as (? & ? & [=]).
Qed.
Lemma inv_step w w' : step w w' -> Inv w -> Inv w'.
Proof.
  intros [H|H] Hi; [by eapply inv_hstep|]. destruct Hi as [He Hd]. destruct H as [t sig acts w Hk Ht Hsig Hdf Hr|t sig w Hk Ht Hdf].
  - split; cbn; [intros x s a [[_ [= <- <-]]|[_ H]]%lookup_insert_Some; [done|by eapply He]|]. destruct (g_inHandler w).
    + destruct Hd as (x & s & f & p & r & Hd). exists x, s, f, p, r. by apply duty_enters.
    + destruct Hd as [H1 H2 H3 H4 H5]. split; cbn; try done. intros x st [[_ <-]|[_ H]]%lookup_insert_Some; [by exists sig, acts|by eapply H5].
  - split; cbn; [intros x s a [[_ [=]]|[_ H]]%lookup_insert_Some; by eapply He|]. destruct (g_inHandler w).
    + destruct Hd as (x & s & f & p & r & Hd). exists x, s, f, p, r.
      apply (duty_gives_up w _ _ _ _ _ _ t sig); try done. intros ->. destruct (d_state _ _ _ _ _ _ Hd) as [H|[H _]]; congruence.
    + destruct Hd as [_ _ H3 _ _]. rewrite H3 in Hdf. by apply elem_of_empty in Hdf.
Qed.
Lemma inv_reach w : rtc step initial w -> Inv w.
Proof.
  intros H. assert (Inv initial) as Hi by (split; [done|split; [done|by constructor|done|done|done]]). revert Hi.
  induction H as [|x y z Hxy _ IH]; intros Hi; [done|]. apply IH. by eapply inv_step.
Qed.

End Runs.
End OneReport.

(** ** Whether one crash ends the process *)
Section Ends.
Import CrashHandler Crash.
Context (t : nat) (sig : Z).

(** Only this thread is in the handler, with these actions left. *)
Inductive solo (w : World) : list Act -> Prop :=
  | solo_entered acts : threads w = {[t := Entered sig acts]} -> g_inHandler w = false -> solo w acts
  | solo_reporting acts : threads w = {[t := Reporting sig acts]} -> solo w acts
  | solo_raised : threads w = {[t := Raised sig]} -> solo w [].
(** The report asks for no lock that the thread holds. *)
Definition unlocked (w : World) (acts : list Act) : Prop := forall l, ALock l ∈ before_fault acts -> owner w l <> Some t.

Lemma solo_hstep w w' acts : hstep w w' -> solo w acts ->
  before_fault acts = [] /\ is_Some (killed w') \/
  killed w' = None /\ (forall l, owner w' l = Some t <-> owner w l = Some t) /\
  exists acts', solo w' acts' /\ (forall l, ALock l ∈ before_fault acts' -> ALock l ∈ before_fault acts) /\
    forall l, ALock l ∈ before_fault acts -> ALock l ∈ before_fault acts' \/ owner w l = None.
Proof.
  intros Hst Hs.
  assert (forall x st, threads w !! x = Some st -> x = t) as Honly.
  { intros x st. destruct Hs as [? Ht _|? Ht|Ht]; rewrite Ht; by intros [-> _]%lookup_singleton_Some. }
  assert (is_Some (threads w !! t)) as Hin by (destruct Hs as [? Ht _|? Ht|Ht]; rewrite Ht, lookup_singleton_eq; by eexists).
  destruct Hst as [x l w Hk Ht Ho|x l w Hk Ht Ho|x g a w Hk Ht Hf|x g a w Hk Ht Hf|x g a w Hk Ht|x b w Hk Ht|r x g b a w Hk Ht Hb|
    x g a w Hk Ht|x g l a w Hk Ht Ho|x g a w Hk Ht|x g w Hk Ht|x g w Hk Ht].
  6: right; split; [done|]; split; [done|]; exists acts; split; [destruct Hs; [by apply solo_entered|by apply solo_reporting|by apply solo_raised]|split; auto].
  1,2: assert (x <> t) as Hne by (intros ->; destruct Hin; congruence); right; split; [done|]; split;
    [intros l'; cbn; destruct (decide (l' = l)) as [->|]; [rewrite Ho; split; congruence|done]|exists acts; split; [destruct Hs; [by apply solo_entered|by apply solo_reporting|by apply solo_raised]|split; auto]].
  all: pose proof (Honly _ _ Ht) as ->; destruct Hs as [acts Hth Hfl|acts Hth|Hth]; rewrite Hth, lookup_singleton_eq in Ht; try discriminate; injection Ht; clear Ht; intros; subst; try congruence.
  1-5: right; split; [done|]; split; [done|]; eexists; (split; [apply solo_reporting; cbn; rewrite Hth; apply insert_singleton_eq|]).
  - by split; auto.
  - split; [intros l'; by right|]. intros l' Hl'. by apply elem_of_cons in Hl' as [|]; [|left].
  - split; intros l'; cbn [before_fault]; [|intros Hl'; apply elem_of_cons in Hl' as [|Hl']; [done|left]]; destruct (safeWrite r b).2; cbn [before_fault]; rewrite ?elem_of_cons; naive_solver.
  - split; [intros l'; by right|]. intros l' Hl'. by apply elem_of_cons in Hl' as [|]; [|left].
  - split; [intros l'; by right|]. intros l' Hl'. apply elem_of_cons in Hl' as [[= <-]|]; [by right|by left].
  - left. by split.
  - right. split; [done|]. split; [done|]. exists []. split; [apply solo_raised; cbn; rewrite Hth; apply insert_singleton_eq|]. split; [by intros l' ?%elem_of_nil|by left].
  - left. by split.
Qed.
Lemma solo_stuck w w' acts l : rtc hstep w w' -> solo w acts -> ALock l ∈ before_fault acts -> owner w l = Some t -> killed w = None -> killed w' = None.
Proof.
  intros H. revert acts. induction H as [|w w1 w' H1 _ IH]; intros acts Hs Hl Ho Hk; [done|].
  destruct (solo_hstep w w1 acts H1 Hs) as [[Hn _]|(Hk1 & Hown & acts' & Hs' & _ & Hl')]; [rewrite Hn in Hl; by apply elem_of_nil in Hl|].
  apply (IH acts'); try done; [|by apply Hown]. destruct (Hl' l Hl) as [|]; [done|congruence].
Qed.

Lemma raised_dies w : killed w = None -> threads w = {[t := Raised sig]} -> exists w', rtc hstep w w' /\ is_Some (killed w').
Proof. intros Hk Ht. exists (kill sig w). split; [|by eexists]. apply rtc_once, (h_die t sig); [done|]. by rewrite Ht, lookup_singleton_eq. Qed.
Lemma via w w1 : hstep w w1 -> (exists w', rtc hstep w1 w' /\ is_Some (killed w')) -> exists w', rtc hstep w w' /\ is_Some (killed w').
Proof. intros H (w' & Hr & Hk). exists w'. split; [by eapply rtc_l|done]. Qed.
Lemma reporting_ends acts w : killed w = None -> threads w = {[t := Reporting sig acts]} -> unlocked w acts -> exists w', rtc hstep w w' /\ is_Some (killed w').
Proof.
  revert w. induction acts as [|a acts IH]; intros w Hk Ht Hu.
  { eapply via; [apply (h_done t sig w Hk); by rewrite Ht, lookup_singleton_eq|]. apply raised_dies; [done|]. cbn. by rewrite Ht, insert_singleton_eq. }
  assert (threads w !! t = Some (Reporting sig (a :: acts))) as Htt by (by rewrite Ht, lookup_singleton_eq).
  assert (forall w1, killed w1 = None -> (forall l, owner w1 l = Some t -> owner w l = Some t) -> threads w1 = threads w -> a <> AFault ->
    exists w', rtc hstep (set_thread t (Reporting sig acts) w1) w' /\ is_Some (killed w')) as Hnext.
  { intros w1 Hk1 Ho1 Ht1 Ha. apply IH; [done|cbn; by rewrite Ht1, Ht, insert_singleton_eq|]. intros l Hl Ho. apply (Hu l); [|by apply Ho1].
    destruct a; try done; by right. }
  destruct a as [|b|l|].
  - eapply via; [by apply (h_hook t sig acts)|by apply Hnext].
  - destruct (decide (b = [])) as [->|Hb].
    + eapply via; [by apply (h_written t sig acts)|by apply Hnext].
    + eapply via; [by apply (h_write 0 t sig b acts)|by apply Hnext].
  - destruct (owner w l) as [x|] eqn:Ho.
    + assert (x <> t) as Hne by (intros ->; apply (Hu l); [by left|done]).
      eapply via; [apply (h_unlock x l w Hk); [by rewrite Ht, lookup_singleton_ne|done]|].
      eapply via; [apply (h_take t sig l acts); [done|done|]; cbn; by rewrite decide_True|]. apply Hnext; try done.
      intros l'. cbn. by destruct (decide (l' = l)).
    + eapply via; [by apply (h_take t sig l acts)|by apply Hnext].
  - eexists. split; [by eapply rtc_once, (h_fault t sig acts)|by eexists].
Qed.
Lemma solo_ends w acts : killed w = None -> solo w acts -> unlocked w acts -> exists w', rtc hstep w w' /\ is_Some (killed w').
Proof.
  intros Hk Hs Hu. destruct Hs as [acts Ht Hf|acts Ht|Ht]; [|by apply (reporting_ends acts)|by apply raised_dies].
  eapply via; [apply (h_win t sig acts); [done|by rewrite Ht, lookup_singleton_eq|done]|]. apply (reporting_ends acts); [done|cbn; by rewrite Ht, insert_singleton_eq|exact Hu].
Qed.
Lemma killed_stays w w' : rtc hstep w w' -> is_Some (killed w) -> w' = w.
Proof. intros H [x Hx]. destruct H as [|w w1 w' H _]; [done|]. destruct H; congruence. Qed.
Lemma solo_reach w w' acts : rtc hstep w w' -> solo w acts -> unlocked w acts -> killed w = None ->
  is_Some (killed w') \/ killed w' = None /\ exists acts', solo w' acts' /\ unlocked w' acts'.
Proof.
  intros H. revert acts. induction H as [|w w1 w' H1 H2 IH]; intros acts Hs Hu Hk; [right; eauto|].
  destruct (solo_hstep w w1 acts H1 Hs) as [[_ Hd]|(Hk1 & Hown & acts' & Hs' & Hsub & _)].
  - left. by rewrite (killed_stays w1 w').
  - apply (IH acts'); try done. intros l Hl Ho. by apply (Hu l); [apply Hsub|apply Hown].
Qed.

(** The thread is at a lock that another thread holds. *)
Definition waits (w : World) : Prop :=
  exists l acts x, threads w !! t = Some (Reporting sig (ALock l :: acts)) /\ owner w l = Some x /\ x <> t.
(** It can go on, or its signal ends the process. *)
Definition moves (w : World) : Prop := exists w', hstep w w' /\ (threads w' <> threads w \/ is_Some (killed w')).
Lemma moves_to w w' st st' : hstep w w' -> threads w = {[t := st]} -> threads w' = <[t := st']> (threads w) -> st' <> st -> moves w.
Proof. intros H Ht Ht' Hne. exists w'. split; [done|]. left. rewrite Ht', Ht, insert_singleton_eq. intros Heq%(inj _). done. Qed.
Lemma solo_moves w acts : killed w = None -> solo w acts -> unlocked w acts -> moves w \/ waits w.
Proof.
  intros Hk Hs Hu. assert (forall a acts, Reporting sig acts <> Reporting sig (a :: acts)) as Hlong.
  { intros a l [= H]. apply (f_equal length) in H. cbn in H. lia. }
  destruct Hs as [acts Ht Hf|acts Ht|Ht].
  - left. eapply moves_to; [apply (h_win t sig acts); [done|by rewrite Ht, lookup_singleton_eq|done]|done|reflexivity|discriminate].
  - assert (threads w !! t = Some (Reporting sig acts)) as Htt by (by rewrite Ht, lookup_singleton_eq).
    destruct acts as [|[|b|l|] acts].
    + left. eapply moves_to; [by apply (h_done t sig)|done|reflexivity|discriminate].
    + left. eapply moves_to; [by apply (h_hook t sig acts)|done|reflexivity|apply Hlong].
    + left. destruct (decide (b = [])) as [->|Hb]; 
        [eapply moves_to; [by apply (h_written t sig acts)|done|reflexivity|apply Hlong]|
         eapply moves_to; [by apply (h_write 0 t sig b acts)|done|reflexivity|apply Hlong]].
    + destruct (owner w l) as [x|] eqn:Ho; [right|left].
      * exists l, acts, x. split; [done|]. split; [done|]. intros ->. by apply (Hu l); [left|].
      * eapply moves_to; [by apply (h_take t sig l acts)|done|reflexivity|apply Hlong].
    + left. eexists. split; [by apply (h_fault t sig acts)|]. right. by eexists.
  - left. eexists. split; [apply (h_die t sig); [done|by rewrite Ht, lookup_singleton_eq]|]. right. by eexists.
Qed.
End Ends.

Section Single.
Import CrashHandler Crash.
Context (reg : option ModuleRegistry) (heap hook : bool) (unimpl : gmap bytes UnimplementedRegistry.Entry).

(** C37: a single crash can always still end the process when the crashing thread holds
    none of the locks that its report takes before the first frame it cannot read - those
    of the module registry and of the UNIMPLEMENTED registry, and the allocator's where
    the report's allocations need it: whatever the other threads, all running, have done,
    the process is dead, or its crashing thread has a step to do, or it waits for a lock
    that another thread holds; and some continuation, in which that thread leaves the
    lock, ends the process. When it holds one of them the process never ends. *)
Theorem crash_ends_iff t sig mem info u w w1 :
  let acts := handler_acts reg heap mem hook sig info u unimpl in
  threads w = ∅ -> g_inHandler w = false -> killed w = None ->
  rtc hstep (set_thread t (Entered sig acts) w) w1 ->
  if bool_decide (Exists (fun l => ALock l ∈ before_fault acts /\ owner w l = Some t) [Modules; Unimplemented; Heap])
  then killed w1 = None
  else (is_Some (killed w1) \/ moves w1 \/ waits t sig w1) /\ exists w2, rtc hstep w1 w2 /\ is_Some (killed w2).
Proof.
  intros acts Ht Hf Hk Hr. set (w0 := set_thread t (Entered sig acts) w) in *.
  assert (solo t sig w0 acts) as Hs by (apply solo_entered; [cbn; by rewrite Ht|done]).
  destruct (bool_decide _) eqn:E.
  - apply bool_decide_eq_true, Exists_exists in E as (l & _ & Hl & Ho). by apply (solo_stuck t sig w0 w1 acts l).
  - apply bool_decide_eq_false in E. assert (unlocked t w0 acts) as Hu.
    { intros l Hl Ho. apply E, Exists_exists. exists l. split; [destruct l; set_solver|done]. }
    destruct (solo_reach t sig w0 w1 acts Hr Hs Hu Hk) as [Hd|(Hk1 & acts' & Hs' & Hu')]; [split; [by left|by exists w1]|].
    split; [right; by apply (solo_moves t sig w1 acts')|by apply (solo_ends t sig w1 acts')].
Qed.

(** With a bound registry every report of a thread's context takes its lock, and the
    allocator's where it needs it, before any frame is read. *)
Lemma report_describes r sig info u mem l : l ∈ describing (Some r) heap -> AFault <> l ->
  l ∈ before_fault (handler_acts (Some r) heap mem hook sig info (Some u) unimpl).
Proof.
  intros Hl Hf. unfold handler_acts, emitCrashReport, emitBacktrace.
  assert (forall a b : list Act, AFault ∉ a -> l ∈ before_fault b -> l ∈ before_fault (a ++ b)) as Happ.
  { intros a b Ha Hb. rewrite before_fault_app by done. apply elem_of_app. by right. }
  apply Happ; [destruct hook; no_fault|]. apply Happ; [no_fault|]. apply Happ; [destruct info; no_fault|]. rewrite <- !app_assoc.
  apply Happ; [no_fault|]. apply Happ; [no_fault|]. rewrite before_fault_app by apply describing_no_fault. apply elem_of_app. by left.
Qed.

(** A crash inside the registry, whose lock [resolveExport] holds while it follows the
    pointers of a module, or inside the allocator when the report's allocations need its
    lock, leaves a process that neither runs on nor dies. *)
Theorem registry_crash_hangs r t sig mem info u w w1 :
  threads w = ∅ -> g_inHandler w = false -> killed w = None ->
  owner w Modules = Some t \/ heap = true /\ owner w Heap = Some t ->
  rtc hstep (set_thread t (Entered sig (handler_acts (Some r) heap mem hook sig info (Some u) unimpl)) w) w1 -> killed w1 = None.
Proof.
  intros Ht Hf Hk Ho Hr. assert (exists l, ALock l ∈ describing (Some r) heap /\ owner w l = Some t) as (l & Hl & Hol).
  { destruct Ho as [Ho|[-> Ho]]; [exists Modules|exists Heap]; (split; [|done]); [by left|by right; left]. }
  apply (solo_stuck t sig _ w1 (handler_acts (Some r) heap mem hook sig info (Some u) unimpl) l Hr); try done.
  - apply solo_entered; [cbn; by rewrite Ht|done].
  - by apply report_describes.
Qed.
End Single.

(** ** What a report says *)
Section Says.
Import CrashHandler.

Lemma acts_fault reg heap mem hook sig info u unimpl : AFault ∈ handler_acts reg heap mem hook sig info u unimpl <->
  exists c, u = Some c /\ AFault ∈ frames reg heap mem max_frames 1 (RBP c).
Proof.
  assert (forall a b : list Act, AFault ∉ a -> AFault ∈ a ++ b <-> AFault ∈ b) as Happ by (intros a b Ha; rewrite elem_of_app; tauto).
  assert (forall b a : list Act, AFault ∉ a -> AFault ∈ b ++ a <-> AFault ∈ b) as Happ' by (intros a b Ha; rewrite elem_of_app; tauto).
  unfold handler_acts, emitCrashReport. rewrite Happ by (destruct hook; no_fault). rewrite Happ by no_fault. rewrite Happ by (destruct info; no_fault).
  rewrite Happ' by (unfold alloc; destruct heap; no_fault). destruct u as [c|]; [|split; [by intros ?%elem_of_nil|by intros (? & [=] & _)]].
  rewrite Happ by no_fault. unfold emitBacktrace. rewrite Happ by no_fault. rewrite Happ by apply describing_no_fault.
  rewrite Happ by no_fault. rewrite Happ by (cbv zeta; destruct (bool_decide _); no_fault). rewrite Happ by no_fault.
  split; [intros H; by exists c|by intros (c' & [= <-] & H)].
Qed.

(** A report is cut in the backtrace exactly when one of the first 31 frames, each above
    the one before and in the lower half of the address space, is not readable: the frame
    is read before it is known to be mapped, and nothing after it is written. *)
Theorem report_cut_iff reg heap mem hook sig info u unimpl :
  AFault ∈ handler_acts reg heap mem hook sig info u unimpl <->
  exists c k r, u = Some c /\ (k < 31)%nat /\ nsteps (next_frame mem) k (RBP c) r /\ frame_ok r /\ unreadable mem r.
Proof.
  rewrite acts_fault. split.
  - intros (c & -> & H). apply frames_fault in H as (k & r & H). by exists c, k, r.
  - intros (c & k & r & -> & H). exists c. split; [done|]. apply frames_fault. by exists k, r.
Qed.

(** An address is described by a registered module whose extent contains it, and not at
    all when there is none. *)
Theorem describe_sound r pc d : Symbolizer.describe (Some r) pc = d ->
  (exists n m lo hi, r !! n = Some m /\ Symbolizer.extent (m_segments m) = (lo, hi) /\ lo <= pc < hi /\ d = Symbolizer.describe_module m lo pc) \/
  (d = [] /\ forall n m lo hi, r !! n = Some m -> Symbolizer.extent (m_segments m) = (lo, hi) -> ~ (lo <= pc < hi)).
Proof.
  intros <-. unfold Symbolizer.describe.
  assert (forall l, (exists m lo hi, m ∈ l /\ Symbolizer.extent (m_segments m) = (lo, hi) /\ lo <= pc < hi /\ Symbolizer.describe_in l pc = Symbolizer.describe_module m lo pc) \/
    Symbolizer.describe_in l pc = [] /\ forall m lo hi, m ∈ l -> Symbolizer.extent (m_segments m) = (lo, hi) -> ~ (lo <= pc < hi)) as Hl.
  { induction l as [|m l IH]; [right; split; [done|by intros ? ? ? ?%elem_of_nil]|]. cbn [Symbolizer.describe_in].
    destruct (Symbolizer.extent (m_segments m)) as [lo hi] eqn:E. destruct ((lo <=? pc) && (pc <? hi)) eqn:Ein.
    - apply andb_true_iff in Ein as [?%Z.leb_le ?%Z.ltb_lt]. left. exists m, lo, hi. split; [by left|]. split; [done|]. split; [lia|done].
    - assert (~ (lo <= pc < hi)) as Hout by (apply andb_false_iff in Ein as [?%Z.leb_gt|?%Z.ltb_ge]; lia).
      destruct IH as [(x & a & b & Hx & H)|[Hn Hf]]; [left; exists x, a, b; split; [by right|done]|right].
      split; [done|]. intros x a b [->|Hx]%elem_of_cons Hext; [rewrite E in Hext; by injection Hext as <- <-|by apply (Hf x)]. }
  destruct (Hl (map_to_list r).*2) as [(m & lo & hi & Hm & H)|[Hn Hf]]; [left|right].
  - apply list_elem_of_fmap in Hm as ([n x] & -> & Hm%elem_of_map_to_list). by exists n, x, lo, hi.
  - split; [done|]. intros n m lo hi Hm. apply (Hf m). apply list_elem_of_fmap. exists (n, m). split; [done|by apply elem_of_map_to_list].
Qed.
End Says.

(** *** Witnesses *)
Section Witnesses.
Import CrashHandler Crash.
Definition demo_context : ucontext := mkCtx 0x401000 0x7000 0x7010 1 2 3 4 5 6 7 8 9 10 11 12 13 14.
(** One frame, whose next one is not mapped. *)
Definition demo_memory : Memory := store_bytes ∅ 0x7010 (le_encode 8 0x9000 ++ le_encode 8 0x402000).
Definition demo_acts (u : option ucontext) : list Act := handler_acts None true demo_memory true SIGSEGV None u ∅.
Definition demo_crash (u : option ucontext) : World := set_thread 0 (Entered SIGSEGV (demo_acts u)) initial.
(** The crash of thread 0, of which [write] has taken 9 bytes; then thread 1 logs, and
    [write] takes the rest of the piece. *)
Definition demo_rest (n : nat) : list Act := match demo_acts None with AHook :: AWrite b :: acts => AWrite (drop n b) :: acts | _ => [] end.
Definition demo_world (n : nat) (o : list Output) : World := mkWorld {[0%nat := Reporting SIGSEGV (demo_rest n)]} true (fun _ => None) ∅ o None.
Definition demo_out : list Output := [Chunk 9 (newline :: cstr "==== Fus"); Line (cstr "[host] late"); Chunk 99 (cstr "ionPS4 crash ====" ++ [newline])].
Lemma demo_reached : rtc (step None true true ∅) initial (demo_world 27 demo_out).
Proof.
  eapply rtc_l; [right; apply (c_handler _ _ _ _ 0 SIGSEGV (demo_acts None)); [done|done|decided|decided|by exists demo_memory, None, None]|].
  eapply rtc_l; [left; apply (h_win 0 SIGSEGV (demo_acts None)); done|].
  eapply (rtc_l _ _ (demo_world 0 [])); [left; exact (h_hook 0 SIGSEGV (demo_rest 0) (set_thread 0 (Reporting SIGSEGV (demo_acts None)) (set_flag (demo_crash None))) eq_refl eq_refl)|].
  eapply (rtc_l _ _ (demo_world 9 (take 1 demo_out))); [left; by apply (h_write 9 0 SIGSEGV (newline :: cstr "==== FusionPS4 crash ====" ++ [newline]) (drop 2 (demo_acts None)) (demo_world 0 []) eq_refl eq_refl)|].
  eapply (rtc_l _ _ (demo_world 9 (take 2 demo_out))); [left; by apply (h_log 1 (cstr "[host] late") (demo_world 9 (take 1 demo_out)))|].
  apply rtc_once. left. by apply (h_write 99 0 SIGSEGV (cstr "ionPS4 crash ====" ++ [newline]) (drop 2 (demo_acts None)) (demo_world 9 (take 2 demo_out)) eq_refl eq_refl).
Qed.
Lemma crash_ends_iff_witness : exists w, rtc hstep (demo_crash (Some demo_context)) w /\ is_Some (killed w).
Proof. exact (proj2 (crash_ends_iff None true true ∅ 0 SIGSEGV demo_memory None (Some demo_context) initial _ eq_refl eq_refl eq_refl (rtc_refl _ _))). Defined.
Lemma report_cut : AFault ∈ demo_acts (Some demo_context) /\ length (filter (eq (safeWriteCStr "  #")) (demo_acts (Some demo_context))) = 1%nat.
Proof. split; [decided|vm_compute; reflexivity]. Qed.
Definition demo_module : Module_ := appendSegment (mkLoaded 0x401000 0x100 0x200 5) (setup (cstr "eboot") (mkImage [] (mkEhdr [] 0 0 0 0 0 0 0 0 0 0 0 0 0) []) 0 0x401000 new_module).
Lemma describe_sound_witness : Symbolizer.describe (Some {[cstr "eboot" := demo_module]}) 0x401080 = cstr "eboot+0x80" /\
  exists m lo hi, Symbolizer.extent (m_segments m) = (lo, hi) /\ lo <= 0x401080 < hi.
Proof.
  split; [vm_compute; reflexivity|].
  destruct (describe_sound {[cstr "eboot" := demo_module]} 0x401080 (cstr "eboot+0x80")) as [(n & m & lo & hi & _ & H1 & H2 & _)|[H _]];
    [vm_compute; reflexivity|by exists m, lo, hi|discriminate].
Defined.
Lemma registry_crash_hangs_witness : killed (set_thread 0 (Entered SIGSEGV (handler_acts (Some ∅) true ∅ false SIGSEGV None (Some demo_context) ∅)) (set_owner Modules (Some 0%nat) initial)) = None.
Proof. exact (registry_crash_hangs true false ∅ ∅ 0 SIGSEGV ∅ None demo_context (set_owner Modules (Some 0%nat) initial) _ eq_refl eq_refl eq_refl (or_introl eq_refl) (rtc_refl _ _)). Defined.
End Witnesses.
