(* ===== verification/Answers.v ===== *)
(** * Small service libraries

    The libraries under [sce/] that answer from constants, the network policy or a
    counter: [netctl], [playgo], [gameupdate], [download], [system], [ssl], the common part
    of [np], the error and common dialogs, and the libraries that refuse every call
    ([share], [voice], [videodec], [camera], [move], [font/SceFontFt]).  What they owe the guest is that a call
    writes its structure and nothing else, faults on nothing that is mapped, and that a
    request number is not given twice; that is stated for all of them at once. *)
From S2P Require Import Prelude Memory Network.

(** ** Calls over guest memory *)
Module Answer.
Definition kOk : Z := 0.
Definition kErrInvalidArg : Z := i32 0x80020005.
Definition kErrNotFound : Z := i32 0x80020004.
Definition kErrNotSupport : Z := i32 0x80020003.

(** The request counters of [SceGameUpdate.cpp] and [SceNpCommon.cpp], and memory. *)
Record World := mkWorld { next : Z; g_nextRequestId : Z; mem : Memory }.
Definition initial (m : Memory) : World := mkWorld 1 1 m.
Definition with_mem (m : Memory) (w : World) : World := mkWorld (next w) (g_nextRequestId w) m.
(** [None]: the store faults. *)
Definition Call : Type := World -> option (World * Z).
Definition answer (r : Z) : Call := fun w => Some (w, r).
Definition store (p : Z) (bs : bytes) (c : Call) : Call := fun w => m ← write_bytes (mem w) p bs; c (with_mem m w).
Definition required (p : Z) (c : Call) : Call := if p =? 0 then answer kErrInvalidArg else c.
Definition optional (p : Z) (bs : bytes) (c : Call) : Call := if p =? 0 then c else store p bs c.
Definition u32_bytes (v : Z) : bytes := le_encode 4 (u32 v).
Definition zeros (n : nat) : bytes := replicate n 0.
End Answer.
Import Answer.

(** ** SceNetCtl.cpp *)
Module SceNetCtl.
Import NetworkPolicy.
Definition kStateDisconnected : Z := 0.
Definition kStateConnected : Z := 3.
Definition kInfoState : Z := 0x01.
Definition kInfoNat : Z := 0x02.
Definition kInfoIpAddress : Z := 0x0A.
Definition kInfoMacAddress : Z := 0x0B.
Definition kInfoMtu : Z := 0x0C.
Definition kInfoLink : Z := 0x0D.
Definition kInfoBssid : Z := 0x10.
Definition kInfoSsid : Z := 0x11.
Definition kInfoWlan : Z := 0x12.

(** [pol]: the policy of the runtime, if one is bound. *)
Definition currentState (pol : option NetworkPolicy.t) : Z :=
  match pol with
  | None => kStateDisconnected
  | Some p => match NetworkPolicy.mode p with Disabled => kStateDisconnected | LocalhostOnly | Restricted | FullAccess => kStateConnected end
  end.
Definition sceNetCtlInit : Call := answer kOk.
Definition sceNetCtlTerm : Call := answer kOk.
Definition sceNetCtlGetState (pol : option NetworkPolicy.t) (outState : Z) : Call :=
  required outState (store outState (u32_bytes (currentState pol)) (answer kOk)).
Definition mac : bytes := [0x02; 0x46; 0x50; 0x34; 0x00; 0x01].
Definition sceNetCtlGetInfo (pol : option NetworkPolicy.t) (code outInfo : Z) : Call :=
  required outInfo
    (if code =? kInfoState then store outInfo (u32_bytes (currentState pol)) (answer kOk)
     else if code =? kInfoNat then store outInfo (u32_bytes 2) (answer kOk)
     else if code =? kInfoLink then store outInfo (u32_bytes 2) (answer kOk)
     else if code =? kInfoMtu then store outInfo (u32_bytes 1500) (answer kOk)
     else if code =? kInfoIpAddress then store outInfo (zeros 16) (store outInfo (cstr "127.0.0.1") (answer kOk))
     else if code =? kInfoMacAddress then store outInfo (zeros 16) (store outInfo mac (answer kOk))
     else if code =? kInfoWlan then store outInfo (u32_bytes 0) (answer kOk)
     else if (code =? kInfoBssid) || (code =? kInfoSsid) then store outInfo (zeros 32) (answer kOk)
     else answer kErrNotFound).
Definition sceNetCtlRegisterCallback (outId : Z) : Call := optional outId (u32_bytes 1) (answer kOk).
Definition sceNetCtlUnregisterCallback (id : Z) : Call := answer kOk.
Definition sceNetCtlCheckCallback : Call := answer kOk.
End SceNetCtl.

(** ** ScePlayGo.cpp *)
Module ScePlayGo.
Definition kStateInstalled : Z := 3.
Definition scePlayGoInitialize (poolSize flags : Z) : Call := answer kOk.
Definition scePlayGoTerminate : Call := answer kOk.
Definition scePlayGoGetLocus (locus chunkIds n outCount : Z) : Call := optional outCount (u32_bytes 0) (answer kOk).
Definition scePlayGoGetChunkId (chunkIndex outChunkId : Z) : Call := required outChunkId (store outChunkId (le_encode 8 0x46503400000001) (answer kOk)).
Definition scePlayGoGetInstallSpeed (outSpeed : Z) : Call := optional outSpeed (u32_bytes 0) (answer kOk).
Definition scePlayGoGetProgress (chunkId outProgress : Z) : Call := optional outProgress (u32_bytes 100) (answer kOk).
Definition scePlayGoGetLocusInfo (chunkId outInfo : Z) : Call :=
  required outInfo (store outInfo (u32_bytes kStateInstalled ++ u32_bytes 100 ++ zeros 24) (answer kOk)).
Definition scePlayGoGetEta (chunkId outEta : Z) : Call := optional outEta (u32_bytes 0) (answer kOk).
Definition scePlayGoPrefetch (chunkId size flags : Z) : Call := answer kOk.
Definition scePlayGoOpen (outHandle : Z) : Call := optional outHandle (zeros 8) (answer kOk).
Definition scePlayGoClose (handle : Z) : Call := answer kOk.
Definition scePlayGoSetWakeupCallback (cb arg : Z) : Call := answer kOk.
End ScePlayGo.

(** ** SceGameUpdate.cpp *)
Module SceGameUpdate.
Definition kStatusIdle : Z := 0.
Definition kStatusNoUpdate : Z := 2.
Definition sceGameUpdateInitialize : Call := answer kOk.
Definition sceGameUpdateTerminate : Call := answer kOk.
Definition sceGameUpdateCreateRequest (outReqId : Z) : Call :=
  required outReqId (fun w => store outReqId (u32_bytes (next w)) (answer kOk) (mkWorld (u32 (next w + 1)) (g_nextRequestId w) (mem w))).
Definition sceGameUpdateDeleteRequest (reqId : Z) : Call := answer kOk.
Definition sceGameUpdateCheckUpdate (reqId flags outStatus : Z) : Call := optional outStatus (u32_bytes kStatusNoUpdate) (answer kOk).
Definition sceGameUpdateGetStatus (reqId outStatus : Z) : Call := optional outStatus (u32_bytes kStatusIdle) (answer kOk).
Definition sceGameUpdateAbort (reqId : Z) : Call := answer kOk.
Definition sceGameUpdateGetUpdateInfo (reqId outInfo : Z) : Call := required outInfo (store outInfo (zeros 32) (answer kOk)).
End SceGameUpdate.

(** ** SceDownload.cpp *)
Module SceDownload.
Definition sceDownloadInitialize : Call := answer kOk.
Definition sceDownloadTerminate : Call := answer kOk.
Definition sceDownloadInit : Call := answer kOk.
Definition sceDownloadDone : Call := answer kOk.
Definition sceDownloadCreateTask (url param outTaskId : Z) : Call := optional outTaskId (u32_bytes (-1)) (answer kOk).
Definition sceDownloadStartTask (taskId : Z) : Call := answer kOk.
Definition sceDownloadStopTask (taskId : Z) : Call := answer kOk.
Definition sceDownloadDeleteTask (taskId : Z) : Call := answer kOk.
Definition sceDownloadGetTaskInfo (taskId outInfo : Z) : Call := optional outInfo (zeros 64) (answer kOk).
End SceDownload.

(** ** SceSystemService.cpp, without the clock *)
Module SceSystemService.
(** Event, pad, move and camera numbers, two unknown words. *)
Definition status : bytes := u32_bytes 1 ++ u32_bytes 1 ++ zeros 16.
Definition sceSystemServiceGetStatus (out : Z) : Call := required out (store out (zeros 24) (store out status (answer kOk))).
Definition sceSystemServiceReceiveEvent (out : Z) : Call := answer kOk.
Definition sceSystemServiceHideSplashScreen : Call := answer kOk.
Definition sceSystemServiceLaunchApp (uri args : Z) : Call := answer kErrNotSupport.
End SceSystemService.

(** ** SceNpCommon.cpp *)
Module SceNpCommon.
Definition sceNpCreateRequest (outReqId : Z) : Call :=
  required outReqId (fun w => store outReqId (u32_bytes (g_nextRequestId w)) (answer kOk) (mkWorld (next w) (u32 (g_nextRequestId w + 1)) (mem w))).
Definition sceNpDeleteRequest (reqId : Z) : Call := answer kOk.
Definition sceNpAbortRequest (reqId : Z) : Call := answer kOk.
Definition sceNpGetAccountLanguageA (outLanguage : Z) : Call := required outLanguage (store outLanguage (cstr "en") (store (outLanguage + 2) [0] (answer kOk))).
End SceNpCommon.

(** ** SceSsl.cpp, SceErrorDialog.cpp (the answers), SceCommonDialog.cpp *)
Module SceSsl.
Definition sceSslInit (poolSize : Z) : Call := answer 1.
Definition sceSslTerm (context : Z) : Call := answer kOk.
Definition sceSslConnect (context socket : Z) : Call := answer kErrNotSupport.
Definition sceSslGetIssuerName (context out : Z) : Call := answer kErrNotSupport.
Definition sceSslGetSubjectName (context out : Z) : Call := answer kErrNotSupport.
Definition sceSslGetNotBefore (context out : Z) : Call := answer kErrNotSupport.
Definition sceSslGetNotAfter (context out : Z) : Call := answer kErrNotSupport.
End SceSsl.
Module SceErrorDialog.
Definition sceErrorDialogGetStatus (outStatus : Z) : Call := optional outStatus (u32_bytes 1) (answer kOk).
Definition sceErrorDialogUpdateStatus (outStatus : Z) : Call := sceErrorDialogGetStatus outStatus.
Definition sceErrorDialogClose : Call := answer kOk.
End SceErrorDialog.
Module SceCommonDialog.
(** [active]: [DialogManager::hasActiveDialog]. *)
Definition sceCommonDialogIsUsed (active : bool) (outUsed : Z) : Call := optional outUsed (u32_bytes (if active then 1 else 0)) (answer kOk).
Definition sceCommonDialogUpdate : Call := answer kOk.
End SceCommonDialog.

(** ** Libraries that refuse: SceShare.cpp, SceVoice.cpp, SceVideodec.cpp, SceCamera.cpp, SceMove.cpp, SceFontFt.cpp *)
Module SceShare.
Definition kErrNotSignedIn : Z := i32 0x80550008.
Definition sceShareInitialize : Call := answer kErrNotSignedIn.
Definition sceShareTerminate : Call := answer kErrNotSignedIn.
Definition sceShareOpen (mode : Z) : Call := answer kErrNotSignedIn.
Definition sceShareClose : Call := answer kErrNotSignedIn.
Definition sceShareGetStatus (out : Z) : Call := optional out (u32_bytes 0) (answer kErrNotSignedIn).
Definition sceShareRegisterPostDialog (p : Z) : Call := answer kErrNotSignedIn.
Definition sceShareSetVideoToPng (p : Z) : Call := answer kErrNotSignedIn.
Definition sceShareCaptureScreen : Call := answer kErrNotSignedIn.
End SceShare.
Module SceVoice.
Definition kErrNoInput : Z := i32 0x80020004.
Definition sceVoiceInit (outCtx : Z) : Call := answer kErrNoInput.
Definition sceVoiceQuit : Call := answer kErrNoInput.
Definition sceVoiceCreatePort (outPort flags : Z) : Call := answer kErrNoInput.
Definition sceVoiceDeletePort (port : Z) : Call := answer kErrNoInput.
Definition sceVoiceReadFromServer (port data size : Z) : Call := answer kErrNoInput.
Definition sceVoiceWriteToServer (port data size : Z) : Call := answer kErrNoInput.
Definition sceVoiceGetPortInfo (port info : Z) : Call := answer kErrNoInput.
Definition sceVoiceGetBitRate (port outRate : Z) : Call := optional outRate (u32_bytes 0) (answer kErrNoInput).
End SceVoice.
Module SceVideodec.
Definition sceVideodecInitLibrary (version : Z) : Call := answer kOk.
Definition sceVideodecTermLibrary : Call := answer kOk.
Definition sceVideodecCreateDecoder (param outHandle : Z) : Call := answer kErrNotSupport.
Definition sceVideodecDeleteDecoder (handle : Z) : Call := answer kErrNotSupport.
Definition sceVideodecDecode (handle input inSize output produced : Z) : Call := answer kErrNotSupport.
Definition sceVideodecFlush (handle : Z) : Call := answer kErrNotSupport.
End SceVideodec.
Module SceCamera.
Definition kErrNotConnected : Z := i32 0x802A0001.
Definition kErrNotOpen : Z := i32 0x802A0002.
Definition sceCameraOpen (userId type index param : Z) : Call := answer kErrNotConnected.
Definition sceCameraClose (handle : Z) : Call := answer kErrNotOpen.
Definition sceCameraStart (handle : Z) : Call := answer kErrNotOpen.
Definition sceCameraStop (handle : Z) : Call := answer kErrNotOpen.
Definition sceCameraIsAttached (index : Z) : Call := answer 0.
Definition sceCameraGetDeviceInfo (handle info : Z) : Call := answer kErrNotOpen.
Definition sceCameraGetStateInfo (handle info : Z) : Call := answer kErrNotOpen.
Definition sceCameraSetConfig (handle config p : Z) : Call := answer kErrInvalidArg.
Definition sceCameraRead (handle data : Z) : Call := answer kErrNotOpen.
End SceCamera.
Module SceMove.
Definition kErrNoDevice : Z := i32 0x80020004.
Definition sceMoveInit : Call := answer 0.
Definition sceMoveOpen (userId type index param : Z) : Call := answer kErrNoDevice.
Definition sceMoveClose (handle : Z) : Call := answer kErrNoDevice.
Definition sceMoveReadState (handle data : Z) : Call := answer kErrNoDevice.
Definition sceMoveGetDeviceInfo (handle info : Z) : Call := answer kErrNoDevice.
Definition sceMoveIsMoveConnected (index : Z) : Call := answer 0.
End SceMove.
Module SceFontFt.
(** [hasFreetype]: the capability that the build found. *)
Definition sceFontFtInit (hasFreetype : bool) : Call := if hasFreetype then answer kOk else answer kErrNotSupport.
Definition sceFontFtDone : Call := answer kOk.
End SceFontFt.

(** ** Every call that writes *)
Module Requests.
Inductive Request :=
  | NetCtlState (p : Z) | NetCtlInfo (code p : Z) | NetCtlRegister (p : Z)
  | PlayGoLocus (p : Z) | PlayGoChunkId (p : Z) | PlayGoSpeed (p : Z) | PlayGoProgress (p : Z) | PlayGoInfo (p : Z) | PlayGoEta (p : Z) | PlayGoOpen (p : Z)
  | UpdateCreate (p : Z) | UpdateCheck (p : Z) | UpdateStatus (p : Z) | UpdateInfo (p : Z)
  | DownloadCreate (p : Z) | DownloadInfo (p : Z) | SystemStatus (p : Z)
  | NpCreate (p : Z) | NpLanguage (p : Z) | ErrorStatus (p : Z) | DialogUsed (p : Z) | ShareStatus (p : Z) | VoiceBitRate (p : Z).
(** The pointer, and the size of what it points to for the caller. *)
Definition target (r : Request) : Z * Z :=
  match r with
  | NetCtlState p | NetCtlRegister p | PlayGoLocus p | PlayGoSpeed p | PlayGoProgress p | PlayGoEta p | UpdateCreate p | UpdateCheck p | UpdateStatus p
  | DownloadCreate p | NpCreate p | ErrorStatus p | DialogUsed p | ShareStatus p | VoiceBitRate p => (p, 4)
  | NetCtlInfo code p => (p, if (code =? SceNetCtl.kInfoIpAddress) || (code =? SceNetCtl.kInfoMacAddress) then 16
                             else if (code =? SceNetCtl.kInfoBssid) || (code =? SceNetCtl.kInfoSsid) then 32 else 4)
  | PlayGoChunkId p | PlayGoOpen p => (p, 8)
  | PlayGoInfo p | UpdateInfo p => (p, 32)
  | DownloadInfo p => (p, 64)
  | SystemStatus p => (p, 24)
  | NpLanguage p => (p, 3)
  end.
Section Calls.
Context (pol : option NetworkPolicy.t) (active : bool).
Definition call (r : Request) : Call :=
  match r with
  | NetCtlState p => SceNetCtl.sceNetCtlGetState pol p | NetCtlInfo code p => SceNetCtl.sceNetCtlGetInfo pol code p
  | NetCtlRegister p => SceNetCtl.sceNetCtlRegisterCallback p
  | PlayGoLocus p => ScePlayGo.scePlayGoGetLocus 0 0 0 p | PlayGoChunkId p => ScePlayGo.scePlayGoGetChunkId 0 p
  | PlayGoSpeed p => ScePlayGo.scePlayGoGetInstallSpeed p | PlayGoProgress p => ScePlayGo.scePlayGoGetProgress 0 p
  | PlayGoInfo p => ScePlayGo.scePlayGoGetLocusInfo 0 p | PlayGoEta p => ScePlayGo.scePlayGoGetEta 0 p | PlayGoOpen p => ScePlayGo.scePlayGoOpen p
  | UpdateCreate p => SceGameUpdate.sceGameUpdateCreateRequest p | UpdateCheck p => SceGameUpdate.sceGameUpdateCheckUpdate 0 0 p
  | UpdateStatus p => SceGameUpdate.sceGameUpdateGetStatus 0 p | UpdateInfo p => SceGameUpdate.sceGameUpdateGetUpdateInfo 0 p
  | DownloadCreate p => SceDownload.sceDownloadCreateTask 0 0 p | DownloadInfo p => SceDownload.sceDownloadGetTaskInfo 0 p
  | SystemStatus p => SceSystemService.sceSystemServiceGetStatus p
  | NpCreate p => SceNpCommon.sceNpCreateRequest p | NpLanguage p => SceNpCommon.sceNpGetAccountLanguageA p
  | ErrorStatus p => SceErrorDialog.sceErrorDialogGetStatus p | DialogUsed p => SceCommonDialog.sceCommonDialogIsUsed active p
  | ShareStatus p => SceShare.sceShareGetStatus p | VoiceBitRate p => SceVoice.sceVoiceGetBitRate 0 p
  end.
Fixpoint run (rs : list Request) (w : World) : option World :=
  match rs with [] => Some w | r :: rs => '(w', _) ← call r w; run rs w' end.
End Calls.
End Requests.

(** ** What a call writes *)
Section Writes.
Implicit Types (c : Call) (w : World).

(** With the range mapped the call returns, and leaves the rest of the memory alone. *)
Definition writes (p n : Z) c : Prop := forall w, mapped_range (mem w) p (Z.to_nat n) = true ->
  exists w' r, c w = Some (w', r) /\ (forall a, a < p \/ p + n <= a -> mem w' !! a = mem w !! a).
Definition confined (p n : Z) c : Prop := forall w, p = 0 \/ mapped_range (mem w) p (Z.to_nat n) = true ->
  exists w' r, c w = Some (w', r) /\ (forall a, a < p \/ p + n <= a -> mem w' !! a = mem w !! a) /\ (p = 0 -> mem w' = mem w).

Lemma writes_answer p n r : writes p n (answer r).
Proof. intros w _. by exists w, r. Qed.
Lemma writes_store p n q bs c : p <= q -> q + Z.of_nat (length bs) <= p + n -> writes p n c -> writes p n (store q bs c).
Proof.
  intros Hp Hq Hc w Hm. unfold store, write_bytes.
  assert (mapped_range (mem w) q (length bs) = true) as ->.
  { apply mapped_range_spec. intros i Hi. pose proof (proj1 (mapped_range_spec _ _ _) Hm (Z.to_nat (q + Z.of_nat i - p))) as H.
    replace (p + Z.of_nat (Z.to_nat (q + Z.of_nat i - p))) with (q + Z.of_nat i) in H by lia. apply H. lia. }
  cbn [mbind option_bind]. destruct (Hc (with_mem (store_bytes (mem w) q bs) w)) as (w' & r & Hr & Hout).
  { apply mapped_range_spec. intros i Hi. apply store_bytes_is_Some. by apply (proj1 (mapped_range_spec _ _ _) Hm). }
  exists w', r. split; [done|]. intros a Ha. rewrite Hout by done. apply store_bytes_lookup_ne. lia.
Qed.
Lemma writes_state p n c (f : World -> World) : (forall w, mem (f w) = mem w) -> writes p n c -> writes p n (fun w => c (f w)).
Proof. intros Hf Hc w Hm. destruct (Hc (f w)) as (w' & r & H1 & H2); [by rewrite Hf|]. exists w', r. split; [done|]. intros a Ha. by rewrite H2, Hf. Qed.
Lemma confined_required p n c : writes p n c -> confined p n (required p c).
Proof.
  intros Hc w Hm. unfold required. destruct (Z.eqb_spec p 0) as [->|Hp]; [by exists w, kErrInvalidArg|].
  destruct Hm as [|Hm]; [done|]. destruct (Hc w Hm) as (w' & r & H1 & H2). exists w', r. by split_and!.
Qed.
Lemma confined_optional p n bs r : Z.of_nat (length bs) <= n -> confined p n (optional p bs (answer r)).
Proof.
  intros Hn w Hm. unfold optional. destruct (Z.eqb_spec p 0) as [->|Hp]; [by exists w, r|]. destruct Hm as [|Hm]; [done|].
  destruct (writes_store p n p bs (answer r) ltac:(lia) ltac:(lia) (writes_answer p n r) w Hm) as (w' & x & H1 & H2). exists w', x. by split_and!.
Qed.
End Writes.
(** A handler that stores at its pointer, required or not, and answers. *)
Ltac answers := first [apply confined_optional; cbn; lia | apply confined_required; repeat (apply writes_store; [cbn; lia|cbn; lia|]); apply writes_answer].

Section Properties.
Import Requests.
Context (pol : option NetworkPolicy.t) (active : bool).

Lemma info_confined code p : confined p (target (NetCtlInfo code p)).2 (SceNetCtl.sceNetCtlGetInfo pol code p).
Proof.
  unfold SceNetCtl.sceNetCtlGetInfo. cbn [target snd].
  destruct (Z.eqb_spec code SceNetCtl.kInfoState) as [->|_]; [answers|]. destruct (Z.eqb_spec code SceNetCtl.kInfoNat) as [->|_]; [answers|].
  destruct (Z.eqb_spec code SceNetCtl.kInfoLink) as [->|_]; [answers|]. destruct (Z.eqb_spec code SceNetCtl.kInfoMtu) as [->|_]; [answers|].
  destruct (Z.eqb_spec code SceNetCtl.kInfoIpAddress) as [->|_]; [answers|]. destruct (Z.eqb_spec code SceNetCtl.kInfoMacAddress) as [->|_]; [answers|].
  destruct (Z.eqb_spec code SceNetCtl.kInfoWlan) as [->|_]; [answers|]. cbn [orb].
  destruct ((code =? SceNetCtl.kInfoBssid) || (code =? SceNetCtl.kInfoSsid)); answers.
Qed.
Lemma writes_number p (f : World -> Z) (g : World -> World) : (forall w, mem (g w) = mem w) -> writes p 4 (fun w => store p (u32_bytes (f w)) (answer kOk) (g w)).
Proof.
  intros Hg w Hm. destruct (writes_store p 4 p (u32_bytes (f w)) (answer kOk) ltac:(lia) ltac:(cbn; lia) (writes_answer p 4 kOk) (g w)) as (w' & r & H1 & H2); [by rewrite Hg|].
  exists w', r. split; [done|]. intros a Ha. by rewrite H2, Hg.
Qed.
Lemma call_confined r : confined (target r).1 (target r).2 (call pol active r).
Proof.
  destruct r; try answers; [apply info_confined| |]; cbn [target call fst snd]; apply confined_required, writes_number; done.
Qed.

(** Every call that writes returns when its structure is mapped, or the pointer is null,
    and changes nothing but the structure, which has the size the caller expects. *)
Theorem answers_confined r w : (target r).1 = 0 \/ mapped_range (mem w) (target r).1 (Z.to_nat (target r).2) = true ->
  exists w' code, call pol active r w = Some (w', code) /\
    (forall a, a < (target r).1 \/ (target r).1 + (target r).2 <= a -> mem w' !! a = mem w !! a) /\ ((target r).1 = 0 -> mem w' = mem w).
Proof. apply call_confined. Qed.

(** The requests that take a number, and what a session hands out. *)
Definition is_update (r : Request) : bool := match r with UpdateCreate p => negb (p =? 0) | _ => false end.
Fixpoint handed (rs : list Request) (w : World) : list (option Z) :=
  match rs with
  | [] => []
  | r :: rs => match call pol active r w with
               | Some (w', _) => (if is_update r then [le_decode <$> load_bytes (mem w') (target r).1 4] else []) ++ handed rs w'
               | None => []
               end
  end.

Definition keeps (c : Call) : Prop := forall w w' r, c w = Some (w', r) -> next w' = next w.
Lemma keeps_answer r : keeps (answer r).
Proof. intros w w' x [= <- _]. done. Qed.
Lemma keeps_store p bs c : keeps c -> keeps (store p bs c).
Proof. intros Hc w w' r. unfold store. destruct (write_bytes _ _ _) as [m|]; [|done]. exact (Hc (with_mem m w) w' r). Qed.
Lemma keeps_required p c : keeps c -> keeps (required p c).
Proof. intros Hc. unfold required. destruct (p =? 0); [apply keeps_answer|done]. Qed.
Lemma keeps_optional p bs c : keeps c -> keeps (optional p bs c).
Proof. intros Hc. unfold optional. destruct (p =? 0); [done|by apply keeps_store]. Qed.
Lemma keeps_np p : keeps (SceNpCommon.sceNpCreateRequest p).
Proof. apply keeps_required. intros w w' r H. exact (keeps_store _ _ _ (keeps_answer kOk) _ _ _ H). Qed.
Lemma call_keeps r : is_update r = false -> keeps (call pol active r).
Proof.
  destruct r; cbn [is_update call]; intros Hu; try (by apply keeps_required, keeps_store, keeps_answer); try (by apply keeps_optional, keeps_answer).
  - unfold SceNetCtl.sceNetCtlGetInfo. apply keeps_required. repeat (destruct (_ =? _); [repeat apply keeps_store; apply keeps_answer|]).
    repeat apply keeps_store; apply keeps_answer.
  - apply negb_false_iff in Hu. unfold SceGameUpdate.sceGameUpdateCreateRequest, required. rewrite Hu. apply keeps_answer.
  - by apply keeps_required, keeps_store, keeps_store, keeps_answer.
  - apply keeps_np.
  - by apply keeps_required, keeps_store, keeps_store, keeps_answer.
Qed.
Lemma update_number r w w' code : is_update r = true -> call pol active r w = Some (w', code) ->
  next w' = u32 (next w + 1) /\ le_decode <$> load_bytes (mem w') (target r).1 4 = Some (u32 (next w)).
Proof.
  destruct r; try done. cbn [is_update call target fst]. intros Hp%negb_true_iff. unfold SceGameUpdate.sceGameUpdateCreateRequest, required, store.
  rewrite Hp. cbn [mem next]. unfold write_bytes. destruct (mapped_range _ _ _); [|done]. cbn [mbind option_bind answer].
  intros H. apply (inj Some), (f_equal fst) in H. cbn [fst] in H. subst w'. split; [done|].
  assert (load_bytes (store_bytes (mem w) p (u32_bytes (next w))) p 4 = Some (u32_bytes (next w))) as Hl by exact (load_store (mem w) p (u32_bytes (next w))).
  cbn [mem with_mem]. rewrite Hl. cbn [fmap option_fmap option_map]. f_equal. unfold u32_bytes. apply le_decode_encode. unfold wrap. dm_lia.
Qed.
Lemma handed_run rs w : 0 <= next w < 2 ^ 32 -> exists k, handed rs w = (fun i => Some (u32 (next w + Z.of_nat i))) <$> seq 0 k /\ (k <= length rs)%nat.
Proof.
  revert w. induction rs as [|r rs IH]; intros w Hw; [by exists 0%nat|]. cbn [handed length].
  destruct (call pol active r w) as [[w' code]|] eqn:Hc; [|exists 0%nat; split; [done|lia]]. destruct (is_update r) eqn:Hu.
  - destruct (update_number r w w' code Hu Hc) as [Hn Hl]. destruct (IH w') as (k & -> & Hk); [rewrite Hn; unfold wrap; dm_lia|].
    exists (S k). split; [|lia]. cbn [seq fmap list_fmap app]. rewrite Hl, Z.add_0_r. f_equal. rewrite <- seq_shift, <- (list_fmap_compose S).
    apply list_fmap_ext. intros i j _. unfold compose. rewrite Hn. f_equal. unfold wrap. rewrite Zplus_mod_idemp_l. f_equal. lia.
  - assert (next w' = next w) as Hn by (by apply (call_keeps r Hu) in Hc). destruct (IH w') as (k & -> & Hk); [by rewrite Hn|]. exists k. rewrite Hn. split; [done|lia].
Qed.

(** No update request gets the number of another one before 2^32 of them. *)
Theorem requests_fresh rs m : Z.of_nat (length rs) <= 2 ^ 32 -> NoDup (handed rs (initial m)) /\ Forall is_Some (handed rs (initial m)).
Proof.
  intros Hlen. destruct (handed_run rs (initial m)) as (k & -> & Hk); [cbn; lia|]. split.
  - apply NoDup_fmap_2_strong; [|apply NoDup_seq]. intros i j Hi%elem_of_seq Hj%elem_of_seq [= H]. cbn in H. unfold wrap in H. dm_lia.
  - apply Forall_fmap, Forall_true. intros i. by eexists.
Qed.
End Properties.

(** *** Witnesses *)
Section Witnesses.
Import Requests.
Definition demo_memory : Memory := store_bytes ∅ 4096 (zeros 8).
Lemma answers_confined_witness : exists w', call None false (NetCtlInfo SceNetCtl.kInfoMtu 4096) (initial demo_memory) = Some (w', 0) /\ mem w' !! 4100 = Some 0.
Proof.
  destruct (answers_confined None false (NetCtlInfo SceNetCtl.kInfoMtu 4096) (initial demo_memory)) as (w' & code & H & Hout & _).
  - right. vm_compute. reflexivity.
  - exists w'. split; [|rewrite Hout by (cbn; lia); vm_compute; reflexivity]. rewrite H. do 2 f_equal.
    apply (f_equal (option_map snd)) in H. vm_compute in H. by injection H as <-.
Defined.
Lemma requests_fresh_witness : handed None false [UpdateCreate 4096; NpCreate 4096; UpdateCreate 4100; UpdateCreate 0] (initial demo_memory) = [Some 1; Some 2] /\
  NoDup (handed None false [UpdateCreate 4096; NpCreate 4096; UpdateCreate 4100; UpdateCreate 0] (initial demo_memory)).
Proof. split; [vm_compute; reflexivity|]. exact (proj1 (requests_fresh None false [UpdateCreate 4096; NpCreate 4096; UpdateCreate 4100; UpdateCreate 0] demo_memory ltac:(cbn; lia))). Defined.
End Witnesses.
