(* ===== verification/Inspect.v ===== *)
(** * The ELF inspector

    [tools/fs4-inspect-elf/main.cpp]: what the tool prints of a file, and when it reads
    past the bytes it has.  It uses the reader of [Elf]. *)
From S2P Require Import Prelude Elf.

Module InspectElf.
Definition kDtNull : Z := 0.
Definition dynTagName : Z -> string :=
  name_switch [(kDtNull, "DT_NULL"); (1, "DT_NEEDED"); (kDtPltRelSz, "DT_PLTRELSZ"); (3, "DT_PLTGOT"); (4, "DT_HASH"); (kDtStrtab, "DT_STRTAB");
    (kDtSymtab, "DT_SYMTAB"); (kDtRela, "DT_RELA"); (kDtRelaSz, "DT_RELASZ"); (kDtRelaEnt, "DT_RELAENT"); (kDtStrtabSz, "DT_STRTABSZ");
    (kDtSymtabSz, "DT_SYMTABSZ"); (kDtJmpRel, "DT_JMPREL"); (25, "DT_INIT_ARRAY"); (26, "DT_FINI_ARRAY"); (0x61000000, "DT_SCE_NEEDED_MODULE");
    (0x61000001, "DT_SCE_MODULE_INFO"); (kDtSceImportLib, "DT_SCE_IMPORT_LIB"); (kDtSceImportLibAttr, "DT_SCE_IMPORT_LIB_ATTR");
    (kDtSceSymtab, "DT_SCE_SYMTAB"); (kDtSceStrtab, "DT_SCE_STRTAB"); (kDtSceRela, "DT_SCE_RELA"); (kDtSceRelaSz, "DT_SCE_RELASZ")]%string "(unknown)".

(** The loop over the dynamic entries, [count] of them from [off] on; [None]: an entry is
    read that is not in the file.  Every turn goes 16 bytes on, so the length of the file is
    fuel enough. *)
Fixpoint dyn_rows (fuel : nat) (bs : bytes) (count off : Z) : option (list Elf64_Dyn) :=
  if count <=? 0 then Some []
  else
    match fuel with
    | O => None
    | S fuel =>
        raw ← read_at bs off dyn_size;
        let d := read_dyn raw in
        if d_tag d =? kDtNull then Some []
        else rest ← dyn_rows fuel bs (count - 1) (off + Z.of_nat dyn_size); Some (d :: rest)
    end.
(** A segment, and the dynamic entries below it. *)
Definition inspect_segment (im : ElfImage) (s : SegmentInfo) : option (SegmentInfo * list Elf64_Dyn) :=
  if seg_type s =? kPtDynamic then
    match as_ im (Z.of_nat dyn_size) (seg_offset s) with
    | None => Some (s, [])
    | Some off => rows ← dyn_rows (S (length (data im))) (data im) (seg_filesz s / Z.of_nat dyn_size) off; Some (s, rows)
    end
  else Some (s, []).

Inductive Outcome := Exit (code : Z) | Overrun | Printed (e : Elf64_Ehdr) (rows : list (SegmentInfo * list Elf64_Dyn)).
(** [file]: the bytes of the file, if it can be read. *)
Definition main (argc : Z) (file : option bytes) : Outcome :=
  if negb (argc =? 2) then Exit 2
  else
    match file with
    | None => Exit 1
    | Some bs =>
        if (length bs <? ehdr_size)%nat then Exit 1
        else
          match parse bs with
          | Rejected => Exit 1
          | OutOfBounds => Overrun
          | Parsed im => match mapM (inspect_segment im) (phdrs im) with Some rows => Printed (ehdr im) rows | None => Overrun end
          end
    end.
End InspectElf.

(** ** Where it reads *)
Section Reads.
Import InspectElf.

Definition entry (bs : bytes) (off : Z) : option Elf64_Dyn := read_dyn <$> read_at bs off dyn_size.
(** The table of [count] entries goes past the file before an entry of tag null. *)
Definition overruns (bs : bytes) (count off : Z) : Prop :=
  exists k, 0 <= k < count /\ entry bs (off + k * 16) = None /\
    forall j, 0 <= j < k -> exists d, entry bs (off + j * 16) = Some d /\ d_tag d <> kDtNull.

Lemma dyn_rows_overrun fuel bs count off : 0 <= off -> Z.of_nat (length bs) < off + 16 * Z.of_nat fuel ->
  dyn_rows fuel bs count off = None <-> overruns bs count off.
Proof.
  revert count off. induction fuel as [|fuel IH]; intros count off Hoff Hf; cbn [dyn_rows]; destruct (Z.leb_spec count 0) as [Hc|Hc].
  1,3: split; [done|intros (k & Hk & _); lia].
  { split; [intros _|done]. exists 0. split; [lia|]. split; [|intros; lia]. unfold entry, read_at.
    destruct ((0 <=? off + 0 * 16) && (off + 0 * 16 + Z.of_nat dyn_size <=? Z.of_nat (length bs))) eqn:E; [|done].
    apply andb_true_iff in E as [_ E%Z.leb_le]. lia. }
  assert (forall k, entry bs (off + (1 + k) * 16) = entry bs (off + Z.of_nat dyn_size + k * 16)) as Hsh.
  { intros k. f_equal. change (Z.of_nat dyn_size) with 16. lia. }
  assert (entry bs (off + 0 * 16) = read_dyn <$> read_at bs off dyn_size) as H0 by (unfold entry; by rewrite Z.add_0_r).
  destruct (read_at bs off dyn_size) as [raw|] eqn:E; cbn [mbind option_bind]; cbn [fmap option_fmap option_map] in H0.
  2:{ split; [intros _|done]. exists 0. split; [lia|]. split; [done|intros; lia]. }
  destruct (Z.eqb_spec (d_tag (read_dyn raw)) kDtNull) as [Hd|Hd].
  { split; [done|]. intros (k & Hk & Hn & Hj). destruct (decide (k = 0)) as [->|]; [congruence|].
    destruct (Hj 0 ltac:(lia)) as (d & Hd' & Hne). rewrite H0 in Hd'. injection Hd' as <-. done. }
  assert (dyn_rows fuel bs (count - 1) (off + Z.of_nat dyn_size) = None <-> overruns bs (count - 1) (off + Z.of_nat dyn_size)) as HI.
  { apply IH; change (Z.of_nat dyn_size) with 16; lia. }
  transitivity (dyn_rows fuel bs (count - 1) (off + Z.of_nat dyn_size) = None); [by destruct (dyn_rows _ _ _ _)|]. rewrite HI. split.
  - intros (k & Hk & Hn & Hj). exists (1 + k). split; [lia|]. split; [by rewrite Hsh|]. intros j Hjk.
    destruct (decide (j = 0)) as [->|]; [exists (read_dyn raw); by rewrite H0|]. replace j with (1 + (j - 1)) by lia. rewrite Hsh. apply Hj. lia.
  - intros (k & Hk & Hn & Hj). destruct (decide (k = 0)) as [->|]; [congruence|]. exists (k - 1). split; [lia|]. rewrite <- !Hsh. replace (1 + (k - 1)) with k by lia.
    split; [done|]. intros j Hjk. rewrite <- Hsh. apply Hj. lia.
Qed.

(** The tool, given a file that the reader accepts, reads past the bytes of the file
    exactly when the dynamic table of a segment leaves the file before its null entry: the
    bounds check looks at the first entry only. *)
Theorem inspect_overruns bs im : Forall is_byte bs -> Z.of_nat (length bs) < 2 ^ 63 -> parse bs = Parsed im ->
  main 2 (Some bs) = Overrun <->
  exists s, s ∈ phdrs im /\ seg_type s = kPtDynamic /\ is_Some (as_ im 16 (seg_offset s)) /\ overruns bs (seg_filesz s / 16) (seg_offset s).
Proof.
  intros Hb Hlen Hp. assert (parse bs = Parsed im) as Hp' by done. unfold parse in Hp'.
  destruct (length bs <? ehdr_size)%nat eqn:El; [done|]. destruct (negb (header_ok (read_ehdr bs))); [done|]. destruct (_ <? _) eqn:Et; [done|].
  pose proof (read_phdrs_spec bs (e_phoff (read_ehdr bs)) (Z.to_nat (e_phnum (read_ehdr bs))) ltac:(apply phoff_range; done)) as Hs.
  destruct (read_phdrs _ _ _) as [phs|]; [|done]. injection Hp' as Him. destruct Hs as (_ & _ & Hs).
  unfold main. cbn [negb Z.eqb Pos.eqb]. rewrite El, Hp.
  assert (forall s, s ∈ phdrs im -> 0 <= seg_offset s) as Hoff.
  { intros s Hin. subst im. apply list_elem_of_lookup in Hin as [i Hi]. rewrite (Hs i s Hi). unfold read_phdr. cbn [seg_offset].
    apply (field_in_width _ 8 8). apply Forall_take, Forall_drop, Hb. }
  assert (data im = bs) as Hd by (by subst im).
  assert (forall s, s ∈ phdrs im -> inspect_segment im s = None <->
    seg_type s = kPtDynamic /\ is_Some (as_ im 16 (seg_offset s)) /\ overruns bs (seg_filesz s / 16) (seg_offset s)) as Hseg.
  { intros s Hin. unfold inspect_segment. change (Z.of_nat dyn_size) with 16. rewrite Hd. destruct (Z.eqb_spec (seg_type s) kPtDynamic) as [Hty|Hty]; [|naive_solver].
    unfold as_. destruct (img_size im <? u64 (seg_offset s + 16)); [split; [done|intros (_ & [? [=]] & _)]|].
    rewrite <- (dyn_rows_overrun (S (length bs))); [|by apply Hoff|pose proof (Hoff s Hin); lia].
    destruct (dyn_rows _ _ _ _); cbn; (split; [intros H|intros (_ & _ & H)]); done. }
  destruct (mapM (inspect_segment im) (phdrs im)) as [rows|] eqn:Em.
  - split; [done|]. intros (s & Hin & H). exfalso. apply mapM_Some_1 in Em. apply list_elem_of_lookup in Hin as [i Hi].
    destruct (Forall2_lookup_l _ _ _ _ _ Em Hi) as (y & _ & Hy). rewrite (proj2 (Hseg s ltac:(by eapply list_elem_of_lookup_2)) H) in Hy. done.
  - split; [intros _|done]. apply mapM_None_1, Exists_exists in Em as (s & Hin & Hn). exists s. split; [done|]. by apply Hseg.
Qed.
End Reads.

(** *** Witness *)
Section Witness.
Import InspectElf ElfEncode.
(** A table of four entries, of which the file holds one. *)
Definition demo_dynamic : SegmentInfo := mkSegment kPtDynamic 6 120 0x400000 64 64 8.
Definition demo_file : bytes := file_bytes (demo_ehdr 64) [] [demo_dynamic] (le_encode 8 1 ++ le_encode 8 7).
Lemma inspect_overruns_witness : main 2 (Some demo_file) = Overrun.
Proof.
  refine (proj2 (inspect_overruns demo_file (mkImage demo_file (demo_ehdr 64) [demo_dynamic]) _ _ _) _).
  - apply forallb_is_byte. vm_compute. reflexivity.
  - vm_compute. reflexivity.
  - vm_compute. reflexivity.
  - exists demo_dynamic. split; [by left|]. split; [reflexivity|]. split; [by eexists|].
    exists 1. split; [done|]. split; [vm_compute; reflexivity|]. intros j Hj. assert (j = 0) as -> by lia.
    exists (mkDyn 1 7). split; [vm_compute; reflexivity|discriminate].
Defined.
End Witness.
