(* ===== verification/LibcString.v ===== *)
(** * Memory and strings of the guest's C library

    The memory, string and number functions of [sce/libc/LibcInternal.cpp], which hand the
    guest's pointers to the host's C library, and the part of its streams that can run.
    The host's functions are the C standard's: they fault on the first byte they need that
    is not mapped, and are undefined on overlapping operands where the standard says so. *)
From S2P Require Import Prelude Memory Handles Diagnostics.

Module LibcString.
(** A result, a fault, or no defined behaviour. *)
Inductive Res (A : Type) := Ret (a : A) | Fault | Undefined.
Arguments Ret {A}.
Arguments Fault {A}.
Arguments Undefined {A}.
Definition bind {A B} (x : Res A) (f : A -> Res B) : Res B := match x with Ret a => f a | Fault => Fault | Undefined => Undefined end.
Definition lift {A} (x : option A) : Res A := match x with Some a => Ret a | None => Fault end.
Notation "x <- e ; f" := (bind e (fun x => f)) (at level 100, e at next level, right associativity).

Definition overlap (a n b k : Z) : bool := (0 <? n) && (0 <? k) && (a <? b + k) && (b <? a + n).
Definition write (m : Memory) (p : Z) (bs : bytes) : Res Memory := lift (write_bytes m p bs).

Definition sceLibcMemcpy (m : Memory) (dst src n : Z) : Res (Memory * Z) :=
  if overlap dst n src n then Undefined
  else bs <- lift (load_bytes m src (Z.to_nat n)); m1 <- write m dst bs; Ret (m1, dst).
Definition sceLibcMemmove (m : Memory) (dst src n : Z) : Res (Memory * Z) :=
  bs <- lift (load_bytes m src (Z.to_nat n)); m1 <- write m dst bs; Ret (m1, dst).
Definition sceLibcMemset (m : Memory) (dst c n : Z) : Res (Memory * Z) :=
  m1 <- write m dst (replicate (Z.to_nat n) (c mod 256)); Ret (m1, dst).
(** Only the sign of a comparison is specified. *)
Fixpoint cmp_loop (n : nat) (m : Memory) (a b : Z) : Res Z :=
  match n with
  | O => Ret 0
  | S n => x <- lift (m !! a); y <- lift (m !! b); if x =? y then cmp_loop n m (a + 1) (b + 1) else Ret (Z.sgn (x - y))
  end.
Definition sceLibcMemcmp (m : Memory) (a b n : Z) : Res Z := cmp_loop (Z.to_nat n) m a b.
Fixpoint chr_loop (n : nat) (m : Memory) (s c : Z) : Res Z :=
  match n with O => Ret 0 | S n => x <- lift (m !! s); if x =? c then Ret s else chr_loop n m (s + 1) c end.
Definition sceLibcMemchr (m : Memory) (s c n : Z) : Res Z := chr_loop (Z.to_nat n) m s (c mod 256).

Definition sceLibcStrlen (m : Memory) (s : Z) : Res Z := if s =? 0 then Ret 0 else t <- lift (strz m s); Ret (Z.of_nat (length t)).
(** The characters before the end of the string, [n] at most. *)
Fixpoint strn (n : nat) (m : Memory) (s : Z) : option bytes :=
  match n with O => Some [] | S n => b ← m !! s; if (b : Z) =? 0 then Some [] else rest ← strn n m (s + 1); Some (b :: rest) end.
Definition sceLibcStrcpy (m : Memory) (dst src : Z) : Res (Memory * Z) :=
  t <- lift (strz m src);
  let n := Z.of_nat (length t) + 1 in
  if overlap dst n src n then Undefined else m1 <- write m dst (t ++ [0]); Ret (m1, dst).
Definition sceLibcStrncpy (m : Memory) (dst src n : Z) : Res (Memory * Z) :=
  t <- lift (strn (Z.to_nat n) m src);
  if overlap dst n src (Z.min n (Z.of_nat (length t) + 1)) then Undefined
  else m1 <- write m dst (t ++ replicate (Z.to_nat n - length t) 0); Ret (m1, dst).
Fixpoint strcmp_loop (n : nat) (m : Memory) (a b : Z) : Res Z :=
  match n with
  | O => Ret 0
  | S n => x <- lift (m !! a); y <- lift (m !! b);
           if x =? y then if x =? 0 then Ret 0 else strcmp_loop n m (a + 1) (b + 1) else Ret (Z.sgn (x - y))
  end.
(** One turn more than there are mapped addresses: the loop ends or faults before. *)
Definition sceLibcStrcmp (m : Memory) (a b : Z) : Res Z := strcmp_loop (S (size m)) m a b.
Definition sceLibcStrncmp (m : Memory) (a b n : Z) : Res Z := strcmp_loop (Nat.min (Z.to_nat n) (S (size m))) m a b.
Definition at_offset (p : Z) (i : option nat) : Z := match i with Some i => p + Z.of_nat i | None => 0 end.
Definition sceLibcStrchr (m : Memory) (s c : Z) : Res Z := t <- lift (strz m s); Ret (at_offset s (find_char (c mod 256) (t ++ [0]))).
Definition sceLibcStrrchr (m : Memory) (s c : Z) : Res Z := t <- lift (strz m s); Ret (at_offset s (rfind_char (c mod 256) (t ++ [0]))).
Definition sceLibcStrstr (m : Memory) (h n : Z) : Res Z := t <- lift (strz m h); u <- lift (strz m n); Ret (at_offset h (find_str u t)).
Definition append (m : Memory) (dst src : Z) (d t : bytes) (read : Z) : Res (Memory * Z) :=
  if overlap dst (Z.of_nat (length d + length t) + 1) src read then Undefined
  else m1 <- write m (dst + Z.of_nat (length d)) (t ++ [0]); Ret (m1, dst).
Definition sceLibcStrcat (m : Memory) (dst src : Z) : Res (Memory * Z) :=
  d <- lift (strz m dst); t <- lift (strz m src); append m dst src d t (Z.of_nat (length t) + 1).
Definition sceLibcStrncat (m : Memory) (dst src n : Z) : Res (Memory * Z) :=
  d <- lift (strz m dst); t <- lift (strn (Z.to_nat n) m src); append m dst src d t (Z.min n (Z.of_nat (length t) + 1)).

(** [strtol] in base ten, without its clamping: a value that does not fit is undefined. *)
Definition is_digit (c : Z) : bool := (48 <=? c) && (c <=? 57).
Fixpoint digits (acc : Z) (s : bytes) : Z :=
  match s with c :: s => if is_digit c then digits (acc * 10 + (c - 48)) s else acc | [] => acc end.
Definition number (s : bytes) : Z :=
  match TraceConfig.skip_spaces s with
  | 45 :: s => - digits 0 s
  | 43 :: s => digits 0 s
  | s => digits 0 s
  end.
Definition to_int (w : Z) (s : bytes) : Res Z :=
  let v := number s in if (- 2 ^ (w - 1) <=? v) && (v <? 2 ^ (w - 1)) then Ret v else Undefined.
Definition sceLibcAtoi (m : Memory) (s : Z) : Res Z := if s =? 0 then Ret 0 else t <- lift (strz m s); to_int 32 t.
Definition sceLibcAtol (m : Memory) (s : Z) : Res Z := if s =? 0 then Ret 0 else t <- lift (strz m s); to_int 64 t.
End LibcString.

(** ** Streams *)
Module Stdio.
Import LibcString.
(** A [SceFile] is four 32-bit words: magic, handle, end of file, error. *)
Definition kFileMagic : Z := 0x46503446.
Definition sizeof_SceFile : Z := 16.
(** [streams]: the address of the static array; the table is the process's, if one is bound. *)
Record t := mkStdio { s_mem : Memory; s_handles : option HandleTable.t }.
Section Streams.
Context (streams : Z).
Definition stdStream (which : Z) : Z := if (which <? 0) || (2 <? which) then 0 else streams + which * sizeof_SceFile.
Definition sceLibcFopen (path mode : Z) : Z := 0.
Definition word (m : Memory) (p : Z) : Res Z := lift (le_decode <$> load_bytes m p 4).
Definition sceLibcFclose (f : Z) (s : t) : Res (t * Z) :=
  if f =? 0 then Ret (s, -1)
  else
    magic <- word (s_mem s) f;
    if negb (magic =? kFileMagic) then Ret (s, -1)
    else if (f =? stdStream 0) || (f =? stdStream 1) || (f =? stdStream 2) then Ret (s, 0)
    else
      h <- word (s_mem s) (f + 4);
      m1 <- write (s_mem s) f (le_encode 4 0);
      Ret (mkStdio m1 ((fun tb => (HandleTable.close tb (i32 h)).1.1) <$> s_handles s), 0).
Definition sceLibcPuts (m : Memory) (s : Z) : Res Z := if s =? 0 then Ret (-1) else t <- lift (strz m s); Ret (Z.of_nat (length t) + 1).
Definition sceLibcGetchar : Z := -1.
End Streams.
End Stdio.

(** ** What the functions do to memory *)
Section Strings.
Import LibcString.

Lemma bind_Ret {A B} (x : Res A) (f : A -> Res B) b : bind x f = Ret b -> exists a, x = Ret a /\ f a = Ret b.
Proof. destruct x as [a| |]; [by exists a|done..]. Qed.
Lemma lift_Ret {A} (x : option A) a : lift x = Ret a -> x = Some a.
Proof. destruct x; [by intros [= ->]|done]. Qed.
Lemma write_Ret m p bs m1 : write m p bs = Ret m1 -> m1 = store_bytes m p bs.
Proof. unfold write, write_bytes. by destruct (mapped_range _ _ _); intros [= <-]. Qed.
Ltac steps H := repeat (let x := fresh "x" in let Hx := fresh "Hx" in apply bind_Ret in H as (x & Hx & H); try apply lift_Ret in Hx).

(** What is stored as a string is read back as that string. *)
Lemma strz_store m p s : Forall (fun b => b <> 0) s -> strz (store_bytes m p (s ++ [0])) p = Some s.
Proof.
  intros Hs. apply strz_spec. split.
  - intros i b Hi. split; [apply store_bytes_lookup; by apply lookup_app_l_Some|]. rewrite Forall_lookup in Hs. by apply (Hs i).
  - apply store_bytes_lookup. rewrite lookup_app_r by lia. by rewrite Nat.sub_diag.
Qed.
Lemma strz_nonzero m p s : strz m p = Some s -> Forall (fun b => b <> 0) s.
Proof. intros H. apply strz_spec in H as [H _]. apply Forall_lookup. intros i b Hi. by apply (H i). Qed.
Lemma strz_agree m m' p s : strz m p = Some s -> (forall a, p <= a <= p + Z.of_nat (length s) -> m' !! a = m !! a) -> strz m' p = Some s.
Proof.
  intros H Ha. apply strz_spec in H as [H1 H2]. apply strz_spec. split; [|rewrite Ha by lia; done].
  intros i b Hi. apply lookup_lt_Some in Hi as Hl. rewrite Ha by lia. by apply H1.
Qed.
Lemma overlap_false a n b k : overlap a n b k = false -> 0 < n -> 0 < k -> b + k <= a \/ a + n <= b.
Proof. unfold overlap. intros. lia. Qed.

(** A copied string is the source, which is still there, and nothing else changed. *)
Theorem strcpy_copies m dst src m1 r s : strz m src = Some s -> sceLibcStrcpy m dst src = Ret (m1, r) ->
  r = dst /\ strz m1 dst = Some s /\ strz m1 src = Some s /\ (forall a, a < dst \/ dst + Z.of_nat (length s) + 1 <= a -> m1 !! a = m !! a).
Proof.
  intros Hs H. unfold sceLibcStrcpy in H. rewrite Hs in H. cbn [lift bind] in H. destruct (overlap _ _ _ _) eqn:Eo; [done|].
  apply bind_Ret in H as (x & Hw & [= <- <-]). apply write_Ret in Hw as ->. apply overlap_false in Eo; [|lia..].
  assert (forall a, a < dst \/ dst + Z.of_nat (length s) + 1 <= a -> store_bytes m dst (s ++ [0]) !! a = m !! a) as Hout.
  { intros a Ha. apply store_bytes_lookup_ne. rewrite length_app. cbn [length]. lia. }
  split; [done|]. split; [apply strz_store; by eapply strz_nonzero|]. split; [|done]. apply (strz_agree m); [done|]. intros a Ha. apply Hout. lia.
Qed.

(** Appending leaves the two strings one after the other. *)
Theorem strcat_appends m dst src m1 r d s : strz m dst = Some d -> strz m src = Some s -> sceLibcStrcat m dst src = Ret (m1, r) ->
  r = dst /\ strz m1 dst = Some (d ++ s) /\ strz m1 src = Some s /\
  (forall a, a < dst + Z.of_nat (length d) \/ dst + Z.of_nat (length d + length s) + 1 <= a -> m1 !! a = m !! a).
Proof.
  intros Hd Hs H. unfold sceLibcStrcat, append in H. rewrite Hd, Hs in H. cbn [lift bind] in H. destruct (overlap _ _ _ _) eqn:Eo; [done|].
  apply bind_Ret in H as (x & Hw & [= <- <-]). apply write_Ret in Hw as ->. apply overlap_false in Eo; [|lia..].
  set (p := dst + Z.of_nat (length d)) in *.
  assert (forall a, a < p \/ dst + Z.of_nat (length d + length s) + 1 <= a -> store_bytes m p (s ++ [0]) !! a = m !! a) as Hout.
  { intros a Ha. apply store_bytes_lookup_ne. rewrite length_app. cbn [length]. lia. }
  split; [done|]. split; [|split; [|done]].
  - pose proof (strz_store m p s (strz_nonzero _ _ _ Hs)) as Ht. apply strz_spec in Ht as [H1 H2]. apply strz_spec in Hd as [Hd _].
    apply strz_spec. split.
    + intros i b Hi. apply lookup_app_Some in Hi as [Hi|[Hl Hi]].
      * apply lookup_lt_Some in Hi as Hl. rewrite Hout by lia. by apply Hd.
      * replace (dst + Z.of_nat i) with (p + Z.of_nat (i - length d)) by lia. by apply H1.
    + rewrite length_app. replace (dst + Z.of_nat (length d + length s)) with (p + Z.of_nat (length s)) by lia. done.
  - apply (strz_agree m); [done|]. intros a Ha. apply Hout. lia.
Qed.

(** [memmove] copies the old contents, whatever the overlap. *)
Theorem memmove_copies m dst src n m1 r : 0 <= n -> sceLibcMemmove m dst src n = Ret (m1, r) ->
  r = dst /\ load_bytes m1 dst (Z.to_nat n) = load_bytes m src (Z.to_nat n) /\ (forall a, a < dst \/ dst + n <= a -> m1 !! a = m !! a).
Proof.
  intros Hn H. unfold sceLibcMemmove in H. apply bind_Ret in H as (bs & Hb%lift_Ret & H). apply bind_Ret in H as (x & Hw & [= <- <-]). apply write_Ret in Hw as ->.
  assert (length bs = Z.to_nat n) as Hl by (by apply load_bytes_lookup in Hb as [? _]).
  split; [done|]. split; [rewrite Hb, <- Hl; apply load_store|]. intros a Ha. apply store_bytes_lookup_ne. lia.
Qed.

(** The order of strings, by unsigned bytes. *)
Fixpoint scmp (s t : bytes) : Z :=
  match s, t with
  | [], [] => 0
  | [], y :: _ => Z.sgn (0 - y)
  | x :: _, [] => Z.sgn (x - 0)
  | x :: s, y :: t => if x =? y then scmp s t else Z.sgn (x - y)
  end.
Lemma scmp_zero s t : Forall (fun b => b <> 0) s -> Forall (fun b => b <> 0) t -> scmp s t = 0 <-> s = t.
Proof.
  intros Hs. revert t. induction Hs as [|x s Hx _ IH]; intros [|y t] Ht; cbn [scmp]; [done| | |]; try apply Forall_cons in Ht as [Hy Ht].
  1,2: split; [lia|done].
  destruct (Z.eqb_spec x y) as [->|Hne]; [|split; [lia|congruence]]. rewrite IH by done. split; congruence.
Qed.
Lemma scmp_antisym s t : scmp t s = - scmp s t.
Proof.
  revert t. induction s as [|x s IH]; intros [|y t]; cbn [scmp]; try lia. rewrite (Z.eqb_sym y x). destruct (x =? y); [apply IH|lia].
Qed.
Lemma strz_cons m p x s : strz m p = Some (x :: s) -> m !! p = Some x /\ x <> 0 /\ strz m (p + 1) = Some s.
Proof.
  rewrite !strz_spec. intros [H1 H2]. destruct (H1 0%nat x eq_refl) as [Hx H0]. rewrite Z.add_0_r in Hx. split; [done|]. split; [done|]. split.
  - intros i b Hi. replace (p + 1 + Z.of_nat i) with (p + Z.of_nat (S i)) by lia. by apply H1.
  - cbn [length] in H2. by replace (p + 1 + Z.of_nat (length s)) with (p + Z.of_nat (S (length s))) by lia.
Qed.
Lemma strz_nil m p : strz m p = Some [] -> m !! p = Some 0.
Proof. rewrite strz_spec. intros [_ H]. by rewrite Z.add_0_r in H. Qed.
Lemma strcmp_loop_spec n m a b s t : strz m a = Some s -> strz m b = Some t -> (length s < n)%nat -> strcmp_loop n m a b = Ret (scmp s t).
Proof.
  revert a b s t. induction n as [|n IH]; intros a b s t Ha Hb Hl; [lia|]. cbn [strcmp_loop].
  destruct s as [|x s]; [apply strz_nil in Ha|apply strz_cons in Ha as (Ha & Hx & Ha')]; (destruct t as [|y t]; [apply strz_nil in Hb|apply strz_cons in Hb as (Hb & Hy & Hb')]);
    rewrite Ha, Hb; cbn [lift bind scmp]; try done.
  - by rewrite (proj2 (Z.eqb_neq 0 y)) by done.
  - by rewrite (proj2 (Z.eqb_neq x 0)) by done.
  - destruct (Z.eqb_spec x y) as [->|]; [|done]. rewrite (proj2 (Z.eqb_neq y 0)) by done. apply IH; [done|done|cbn in Hl; lia].
Qed.

(** [strcmp] is the lexicographic order of the two strings: zero for equal strings only,
    and the other way round with the arguments swapped. *)
Theorem strcmp_orders m a b s t : strz m a = Some s -> strz m b = Some t ->
  sceLibcStrcmp m a b = Ret (scmp s t) /\ (scmp s t = 0 <-> s = t) /\ scmp t s = - scmp s t.
Proof.
  intros Ha Hb. split; [|split; [apply scmp_zero; by eapply strz_nonzero|apply scmp_antisym]]. apply strcmp_loop_spec; [done|done|].
  apply strz_spec in Ha as [H1 H2]. assert (S (length s) <= size m)%nat; [|lia]. apply (mapped_run_size m a). intros i Hi.
  destruct (decide (i = length s)) as [->|]; [by rewrite H2|]. destruct (lookup_lt_is_Some_2 s i) as [c Hc]; [lia|]. by destruct (H1 i c Hc) as [-> _].
Qed.

(** [strstr] finds the first place where the second string occurs in the first. *)
Lemma find_str_spec pat s :
  match find_str pat s with
  | Some i => (i <= length s)%nat /\ take (length pat) (drop i s) = pat /\ forall j, (j < i)%nat -> take (length pat) (drop j s) <> pat
  | None => forall j, (j <= length s)%nat -> take (length pat) (drop j s) <> pat
  end.
Proof.
  induction s as [|c s IH]; cbn [find_str].
  - destruct (bool_decide_reflect (pat = take (length pat) [])) as [H|H]; [split; [done|]; split; [by symmetry|lia]|].
    intros j Hj E. apply H. by rewrite drop_nil in E.
  - destruct (bool_decide_reflect (pat = take (length pat) (c :: s))) as [H|H]; [split; [lia|]; split; [by symmetry|lia]|].
    destruct (find_str pat s) as [i|]; cbn [fmap option_fmap option_map].
    + destruct IH as (H1 & H2 & H3). split; [cbn; lia|]. split; [done|]. intros [|j] Hj; [intros E; apply H; symmetry; exact E|]. apply H3. lia.
    + intros [|j] Hj; [intros E; apply H; symmetry; exact E|]. apply IH. cbn in Hj. lia.
Qed.
Theorem strstr_first m h n t u : strz m h = Some t -> strz m n = Some u -> 0 < h ->
  exists r, sceLibcStrstr m h n = Ret r /\
    ((r = 0 /\ forall j, (j <= length t)%nat -> take (length u) (drop j t) <> u) \/
     exists i, r = h + Z.of_nat i /\ take (length u) (drop i t) = u /\ forall j, (j < i)%nat -> take (length u) (drop j t) <> u).
Proof.
  intros Ht Hu Hh. unfold sceLibcStrstr. rewrite Ht, Hu. cbn [lift bind]. pose proof (find_str_spec u t) as H. exists (at_offset h (find_str u t)). split; [done|].
  destruct (find_str u t) as [i|]; [right|by left]. exists i. split; [done|]. apply H.
Qed.
End Strings.

Section Files.
Import LibcString Stdio.

(** A stream is closed once: the second [fclose] closes no handle, and the standard
    streams are never closed. *)
Theorem fclose_once streams f s s1 r : 0 < f -> sceLibcFclose streams f s = Ret (s1, r) ->
  (r = -1 /\ s1 = s) \/
  (r = 0 /\ ((f = streams \/ f = streams + 16 \/ f = streams + 32) /\ s1 = s \/
             (forall r' s2, sceLibcFclose streams f s1 = Ret (s2, r') -> r' = -1 /\ s2 = s1))).
Proof.
  intros Hf H. assert (f =? 0 = false) as Hf0 by lia. unfold sceLibcFclose in H. rewrite Hf0 in H.
  apply bind_Ret in H as (magic & _ & H). destruct (negb (magic =? kFileMagic)); [left; by injection H as <- <-|right].
  destruct ((f =? stdStream streams 0) || (f =? stdStream streams 1) || (f =? stdStream streams 2)) eqn:Es.
  { injection H as <- <-. split; [done|]. left. split; [|done].
    change (stdStream streams 0) with (streams + 0) in Es. change (stdStream streams 1) with (streams + 16) in Es. change (stdStream streams 2) with (streams + 32) in Es. lia. }
  apply bind_Ret in H as (h & _ & H). apply bind_Ret in H as (m1 & Hw & H). injection H as <- <-. split; [done|]. right.
  intros r' s2 H. unfold sceLibcFclose in H. rewrite Hf0 in H. cbn [s_mem] in H. apply write_Ret in Hw as ->.
  assert (load_bytes (store_bytes (s_mem s) f (le_encode 4 0)) f 4 = Some (le_encode 4 0)) as Hl by exact (load_store (s_mem s) f (le_encode 4 0)).
  unfold word in H. rewrite Hl in H. cbn [fmap option_fmap option_map lift bind] in H. change (negb (le_decode (le_encode 4 0) =? kFileMagic)) with true in H.
  cbv iota in H. by injection H as <- <-.
Qed.
End Files.

(** *** Witnesses *)
Section Witnesses.
Import LibcString Stdio.
Definition demo_memory : Memory := store_bytes (store_bytes ∅ 4096 (replicate 16 0)) 8192 (cstr "abc" ++ [0]).
Lemma strcpy_copies_witness : exists m1, sceLibcStrcpy demo_memory 4096 8192 = Ret (m1, 4096) /\ strz m1 4096 = Some (cstr "abc").
Proof.
  destruct (sceLibcStrcpy demo_memory 4096 8192) as [[m1 r]| |] eqn:E; [|exfalso; vm_compute in E; discriminate..].
  destruct (strcpy_copies demo_memory 4096 8192 m1 r (cstr "abc") ltac:(vm_compute; reflexivity) E) as (-> & H & _). by exists m1.
Defined.
Lemma strcmp_orders_witness : exists c, sceLibcStrcmp demo_memory 8192 8193 = Ret c /\ c <> 0.
Proof.
  destruct (strcmp_orders demo_memory 8192 8193 (cstr "abc") (cstr "bc") ltac:(vm_compute; reflexivity) ltac:(vm_compute; reflexivity)) as (H & H0 & _).
  eexists. split; [exact H|]. intros E. apply H0 in E. discriminate.
Defined.
Lemma strstr_first_witness : exists r, sceLibcStrstr demo_memory 8192 8193 = Ret r.
Proof.
  destruct (strstr_first demo_memory 8192 8193 (cstr "abc") (cstr "bc") ltac:(vm_compute; reflexivity) ltac:(vm_compute; reflexivity) ltac:(lia)) as (r & H & _). by exists r.
Defined.
End Witnesses.
